(* ===== verification/_CoqProject ===== *)
-Q . S2P
Prelude.v
Errors.v
Text.v
Db.v
Scope.v
Jobs.v
Cohort.v
GcBase.v
Compact.v
Refs.v
Push.v
PushFacts.v
Admin.v
Memo.v
Wire.v
WireFacts.v
Receive.v
Answers.v
WireDemo.v
Auth.v
Sign.v
Sha.v
Writer.v
Reads.v
Mark.v
MarkFacts.v
WalkFacts.v
Landing.v
Sweep.v
SweepFacts.v
Build.v
BuildFacts.v
BuildJob.v
GcDemo.v
BuildDemo.v
Ingest.v
IngestFacts.v
Intake.v
Normalize.v
Ingested.v
IngestDemo.v
Generate.v
Plan.v
SendFacts.v
SendEnds.v
FetchDemo.v
Janitor.v
JanitorFacts.v
JanitorGaps.v
Purge.v
JanitorDemo.v
Outbox.v
Lfs.v
Fetch.v
FetchFacts.v
PackUri.v
CloneDemo.v
EdgePush.v
EdgeDemo.v
