(* ===== verification/Prelude.v ===== *)
(** * git-edge, verified: a shallow embedding of the server

    git-edge is a git server on Cloudflare Workers.  A stateless _edge_ worker
    speaks the git protocol over HTTP ([server/src/edge], [wire], [auth]); each
    repository is one _Durable Object_ ([server/src/repo_do]) that owns a SQLite
    store (refs, packs, the object index, pushes, tokens, jobs, collector
    scratch); packs are R2 objects.  A push is streamed by the edge into an R2
    pack, indexed and committed by the object; background work runs as _jobs_
    ([server/src/jobs]): slices under a lease, dispatched by an alarm.  Between two
    awaits a handler of the object runs alone: one _synchronous span_.

    ** How the model reads

    - The SQLite store is the record [Db] of [Db.v], one field per table; a
      statement is a function on it.  Handlers are [DoM] computations: state
      passing with errors, [M] below.  As in the code, writes made before an
      error stay; whoever calls decides what an error means.
    - Time, random ids and everything a slice awaits (R2 answers, other handlers
      running meanwhile) are arguments.  Libraries the server calls are classes:
      [Platform] (environment, object ids, ref-name rules, token hash, JSON texts),
      the packet-line library ([Wire]), gix's entry codec and zlib and R2's
      multipart upload ([Writer]), ranged gets ([Reads]), gix's object readers
      ([Mark]), HMAC ([Sign]), whole objects and listings of R2 ([Fetch], [Janitor],
      [Lfs]), the webhook's receiver ([Outbox]), and the fate of a call from the edge to
      the object ([Stub] of [Ingest]: it can be lost on the way there or on the way
      back).  Their documented behaviour is a class of laws,
      a hypothesis of the theorems that need it, with an instance in a demo
      module.
    - Integers are [Z]; where Rust's width shows (saturating and wrapping
      arithmetic, [try_from], SQL integers) it is written out.
    - Test failpoints are modelled as errors the store can arm, so the theorems
      cover a crash at every one of them.

    ** Files

    - [Prelude] (this file): results, the state-and-error monad, Hoare triples
      and relational rules for it, integer widths, list lemmas, automation.
    - [Errors] ([error.rs], the envelope of [wire/http.rs], the budget of
      [lib.rs]); [Text] (string helpers of the standard library); [Db] (the schema
      and index operations of [store/mod.rs], knobs and failpoints of
      [testhooks.rs]).
    - [Scope] (token scopes and protected refs of [repo_do/mod.rs]); [Refs]
      ([apply_one], the fast-forward query); [Push], [PushFacts] (push begin,
      index, commit, abort, the rate limit); [Admin] (boot, tokens, pins, the
      owner registry); [Memo] (the refs memo of an isolate).
    - [Jobs] ([jobs/mod.rs]: enqueue, claim, heartbeat, outcomes, repair);
      [Cohort], [Compact] ([jobs/compact.rs]); [GcBase] (chain keys and [wipe_all]
      of [jobs/gc.rs]); [Mark] ([gc_mark] and the walk); [Build] ([gc_consolidate]:
      the copying build, its checkpoints and its restarts); [Sweep] ([gc_sweep],
      the swap, the fallback, retirement).
    - [Sha], [Writer] (resumable hashes, the pack writers of [store/mod.rs]);
      [Reads] (range reads of [store/mod.rs], [pack/ingest.rs], [jobs/gc.rs]).
    - [Ingest] ([pack/ingest.rs] and [pack/run.rs] as the edge runs them: staging
      the body, delta resolution, the normalized pack, the index posts, the link
      check).
    - [Generate] ([pack/generate.rs]: the walk of a fetch, its marks, the plan of
      reads and one step of the answer; the index queries it needs of
      [store/mod.rs]); [Fetch] ([fetch_v2] and [export] of [repo_do/mod.rs]: the
      answer's prelude, the pack's stream, the stored clone, the clone that does not
      walk, the addresses of packs).
    - [Janitor] ([jobs/janitor.rs]), [Purge] ([jobs/purge.rs]), [Outbox]
      ([jobs/events.rs]); [Lfs] (the LFS batch of [repo_do/mod.rs] and [edge/mod.rs],
      the access checks of signed transfers); [EdgePush] ([receive_pack] of
      [edge/mod.rs] around the ingest).
    - [Wire], [WireFacts], [Answers], [WireDemo] ([wire/mod.rs]); [Receive] (the
      body reader of [edge/mod.rs]); [Auth] ([auth/mod.rs], routes of
      [wire/http.rs]); [Sign] ([sign.rs]).
    - [MarkFacts], [WalkFacts], [Landing], [SweepFacts], [BuildFacts], [BuildJob]:
      the collector's proofs; [GcDemo], [BuildDemo]: a repository taken through a
      mark, a build and a sweep.
    - [IngestFacts] (what an entry denotes, and that resolution finds it), [Intake]
      (pass A), [Normalize] (pass B), [Ingested] (the whole run); [IngestDemo]: a
      push of four entries.
    - [Plan] (bitmaps, the rebuild, the coalesced reads), [SendFacts] (what the walk
      marks), [SendEnds] (its loops end); [FetchDemo]: a small repository, fetched.
    - [FetchFacts] (what the client of a fetch or clone receives), [PackUri] (signed
      addresses of packs against the janitor), [CloneDemo]; [JanitorFacts] (what the
      janitor leaves alone), [JanitorGaps] (where it does not do what its comments say),
      [JanitorDemo]; [EdgeDemo].

    ** What the theorems show

    - Pushes: a ref changes only by a command its token and the protection rules
      allow ([Push.commit_changes_authorized], [Refs.landing_authorized]); the
      handler of one command refines a nine-line specification
      ([Refs.apply_one_refines]); a push commits at most once, atomically when
      asked, within quota, and bumps the version readers key on; an indexed
      pack is invisible until its commit.
    - The collector loses nothing.  [MarkFacts.MarkInv] is the tri-colour
      invariant of the mark; a chain starts with it ([WalkFacts.mark_init_starts]),
      every slice keeps it on every path ([WalkFacts.gc_mark_keeps_invariant])
      against an environment limited by a rely condition, and a concurrent
      commit satisfies that condition ([Landing.push_respects_mark]); the
      consolidate build copies every marked entry however its slices are cut,
      killed and resumed ([BuildJob.consolidate_keeps]); under that
      the swap keeps every reachable object ([SweepFacts.swap_check_keeps_reachable]).
      The fallback, an interrupted retirement and compaction lose no object
      at all, from a store in which the build copies the cohort ([GcBase.copy_inv])
      and, where the cohort is retired, is complete.
    - Ingest: what a push leaves in R2 and in the index is the received pack,
      object for object, with every delta resolved ([Ingested.push_ingested]); the
      staged copy is the body byte for byte ([Intake.pending_exact]).
    - Fetch: what a fetch answers with is what the client lacks of its wants, within
      the shallow boundary the answer announces, and nothing it did not ask for,
      copied from the packs however a compaction moves them meanwhile; excepted are a
      tag behind a tag and, under a cut by time or refs, the commit behind a tag
      ([SendEnds.fetch_sends_missing]).  The frames carry that pack whole, or a prefix
      of it and an error ([FetchFacts.fetch_stream_exact]); a clone that skips the walk
      has every live object once ([FetchFacts.clone_sends_all]), or is the one stored
      pack ([FetchFacts.stored_clone_exact]); a signed address is bad before its pack
      is deleted ([PackUri.signed_pack_outlasts]).
    - Cleaning up: the janitor touches nothing that is in use
      ([JanitorFacts.janitor_spares]); a purge deletes this repository and no other,
      and ends ([Purge.purge_confined]); push events leave the outbox in order and
      only when accepted ([Outbox.outbox_in_order]); a push the edge began is closed
      however it fails, unless the closing request cannot be sent or the answer to the
      begin is lost ([EdgePush.push_not_left_open]); an LFS batch grants what was
      asked and fits ([Lfs.lfs_batch_grants]).
    - Packs: what the writer wrote decodes to what was appended, whatever the part
      boundaries ([Writer.pack_roundtrip]); a resumed writer continues as if it had
      never stopped; the checkpointed hashes compute the standard's function on
      any split of the input; coalesced, split and windowed reads return
      the bytes a direct read would.
    - Jobs: only the slice that holds a row's lease can land an outcome; repair
      leaves no stranded row.
    - Protocol: a request survives any chunking and re-parses to itself; what a
      client demultiplexes from an answer is the report; credentials that pass
      are live and strong enough; signatures bind every field.
    - Seven theorems state what the code does where it differs from what it
      says: [PushFacts.atomic_duplicate_partial], [Memo.purge_serves_deleted_refs],
      [SendEnds.nested_tag_not_sent], [JanitorGaps.unfinished_prefix_swept],
      [JanitorGaps.expired_swept_at_once], [Lfs.lfs_quota_gaps] and
      [EdgePush.exhausted_push_stays_open].  Each is general; its witness is a run.

    ** Fuel

    Loops that are not structural take fuel, and the bound is proved enough or
    the exhausted case is visible: the header loops take the bytes buffered,
    [Refs.anc_walk] the walk limit of the code, [Reads.read_spans] the number of
    entries, [Reads.chunked_loop] twice it and one ([Reads.read_chunked_complete]),
    the writers the buffer's length, pass A a step for each byte that can be
    inflated from the body ([Intake.body_fuel]), pass B the square of the entries
    ([Normalize.resolve_loop_fuel]), the loops of a fetch its own limits on commits and
    objects ([SendEnds.enough]), the frames of a fetch a step for each read and
    four ([Fetch.stream_fuel]), those of a stored clone one for each chunk and three
    ([Fetch.verbatim_fuel]), the pages of a purge the subrequests left
    ([Purge.purge_confined]).  A mark or sweep slice has no bound of its own
    in the code but its time budget; [mark_loop] and [drain_loop] answer [None]
    when their fuel ends, and their theorems hold for every amount of it.

    ** Not modelled

    The import job with its variants of the sink and tables in [pack/ingest.rs]
    and the routes that start it.  The remaining handlers of [edge], which authenticate,
    forward a request and pass the answer on, the remote client and the platform
    bindings are calls into the host.  [testhooks.rs] beyond failpoints
    and knobs is test code.  SQLite's own transactions and the alarm are host
    behaviour.  Logging is left out. *)
From Stdlib Require Export ZArith Ascii String Bool List Lia.
From Stdlib Require Import DecimalString DecimalZ.
From stdpp Require Export base gmap strings list fin_maps sorting.

Open Scope Z_scope.

(** ** Results and the state-and-error monad

    A fallible Rust function is a [result]; a handler that runs SQL inside one
    synchronous span is a [M]: it threads the store and, like the code, keeps
    the writes made before an error (the span's fate is decided by the caller). *)

Inductive result (E A : Type) : Type :=
| Ok (a : A)
| Err (e : E).
Arguments Ok {E A} a.
Arguments Err {E A} e.

#[global] Instance result_ret E : MRet (result E) := fun A a => Ok a.
#[global] Instance result_bind E : MBind (result E) :=
  fun A B f r => match r with Ok a => f a | Err e => Err e end.

Definition M (S E A : Type) : Type := S -> S * result E A.

#[global] Instance M_ret S E : MRet (M S E) := fun A a s => (s, Ok a).
#[global] Instance M_bind S E : MBind (M S E) :=
  fun A B f m s => match m s with
                   | (s', Ok a) => f a s'
                   | (s', Err e) => (s', Err e)
                   end.

Definition fail {S E A} (e : E) : M S E A := fun s => (s, Err e).
Definition gets {S E A} (f : S -> A) : M S E A := fun s => (s, Ok (f s)).
Definition modify {S E} (f : S -> S) : M S E unit := fun s => (f s, Ok tt).
Definition lift {S E A} (r : result E A) : M S E A := fun s => (s, r).
Definition of_option {E A} (e : E) (o : option A) : result E A :=
  match o with Some a => Ok a | None => Err e end.

(** [for x in l { body }] threading the store and stopping at the first error. *)
Fixpoint for_each {S E A} (l : list A) (f : A -> M S E unit) : M S E unit :=
  match l with
  | [] => mret tt
  | x :: l' => f x ≫= fun _ => for_each l' f
  end.

(** [.map(f).collect::<Result<Vec<_>, E>>()]. *)
Fixpoint collect {E A B} (f : A -> result E B) (l : list A) : result E (list B) :=
  match l with
  | [] => Ok []
  | x :: l' => match f x with
               | Err e => Err e
               | Ok y => match collect f l' with Ok ys => Ok (y :: ys) | Err e => Err e end
               end
  end.

Definition is_ok {E A} (r : result E A) : bool := match r with Ok _ => true | Err _ => false end.
Definition is_some {A} (o : option A) : bool := match o with Some _ => true | None => false end.
Definition unwrap_or {A} (d : A) (o : option A) : A := match o with Some a => a | None => d end.

Lemma collect_length {E A B} (f : A -> result E B) l ys :
  collect f l = Ok ys -> length ys = length l.
Proof.
  revert ys; induction l as [|x l IH]; simpl; intros ys H; [by simplify_eq|].
  destruct (f x); [|done]. destruct (collect f l) eqn:E1; [|done].
  simplify_eq; simpl; f_equal; by apply IH.
Qed.

Lemma collect_Forall2 {E A B} (f : A -> result E B) l ys :
  collect f l = Ok ys <-> Forall2 (fun x y => f x = Ok y) l ys.
Proof.
  revert ys; induction l as [|x l IH]; simpl; intros ys.
  - split; [intros; simplify_eq; constructor|inversion 1; done].
  - split.
    + intros H. destruct (f x) eqn:E1; [|done].
      destruct (collect f l) eqn:E2; [|done]. simplify_eq. constructor; [done|]. by apply IH.
    + inversion 1 as [|? y ? ys' Hx Hl]; subst. apply IH in Hl. by rewrite Hx, Hl.
Qed.

(** ** Machine integers

    [i64], [u32], [u64] values are integers in range; [saturating_*] clamps,
    plain [+] in a release build wraps. *)

Definition i64_min : Z := - 2 ^ 63.
Definition i64_max : Z := 2 ^ 63 - 1.
Definition u32_max : Z := 2 ^ 32 - 1.
Definition u64_max : Z := 2 ^ 64 - 1.
Definition in_i64 (z : Z) : Prop := i64_min <= z <= i64_max.
Definition in_i64b (z : Z) : bool := (i64_min <=? z) && (z <=? i64_max).

Definition sat64 (z : Z) : Z := Z.max i64_min (Z.min i64_max z).
Definition sat_add64 (a b : Z) : Z := sat64 (a + b).
Definition sat_sub64 (a b : Z) : Z := sat64 (a - b).
Definition sat_mul64 (a b : Z) : Z := sat64 (a * b).
Definition wrap64 (z : Z) : Z := (z + 2 ^ 63) mod 2 ^ 64 - 2 ^ 63.
Definition add64 (a b : Z) : Z := wrap64 (a + b).
Definition sat_addu32 (a b : Z) : Z := Z.min u32_max (a + b).
Definition sat_addu64 (a b : Z) : Z := Z.min u64_max (a + b).
Definition sat_subu64 (a b : Z) : Z := Z.max 0 (a - b).

Lemma sat64_id z : in_i64 z -> sat64 z = z.
Proof. unfold sat64, in_i64. lia. Qed.
Lemma sat64_range z : in_i64 (sat64 z).
Proof. unfold sat64, in_i64, i64_min, i64_max. lia. Qed.
Lemma wrap64_id z : in_i64 z -> wrap64 z = z.
Proof. unfold wrap64, in_i64, i64_min, i64_max. intros. rewrite Z.mod_small; lia. Qed.
Lemma sat_add64_mono a b c : a <= b -> sat_add64 a c <= sat_add64 b c.
Proof. unfold sat_add64, sat64. lia. Qed.

(** ** Decimal text: [to_string] and [parse] of the integer types *)

Definition z_to_string (z : Z) : string := NilZero.string_of_int (Z.to_int z).

Definition parse_digits (s : string) : option Z :=
  option_map Z.of_uint (NilZero.uint_of_string s).

(** Rust's [str::parse] for a signed type: an optional sign, then digits only. *)
Definition parse_signed (s : string) : option Z :=
  match s with
  | String c r =>
      if Ascii.eqb c "+" then parse_digits r
      else if Ascii.eqb c "-" then option_map Z.opp (parse_digits r)
      else parse_digits s
  | EmptyString => None
  end.

Definition parse_i64 (s : string) : option Z :=
  match parse_signed s with
  | Some z => if in_i64b z then Some z else None
  | None => None
  end.

(** Unsigned types accept a leading plus sign but no minus sign. *)
Definition parse_unsigned (max : Z) (s : string) : option Z :=
  let d := match s with
           | String c r => if Ascii.eqb c "+" then parse_digits r else parse_digits s
           | EmptyString => None
           end in
  match d with
  | Some z => if z <=? max then Some z else None
  | None => None
  end.
Definition parse_u64 : string -> option Z := parse_unsigned u64_max.
Definition parse_u32 : string -> option Z := parse_unsigned u32_max.

(** What SQLite's [value+1] reads from a TEXT cell that holds decimal text. *)
Definition sql_int (s : string) : Z := unwrap_or 0 (parse_signed s).

Lemma uint_string_digit_head d c r :
  NilZero.string_of_uint d = String c r -> c <> "+"%char /\ c <> "-"%char.
Proof. destruct d; simpl; intros H; simplify_eq; split; discriminate. Qed.

Lemma parse_digits_uint d :
  d <> Decimal.Nil -> parse_digits (NilZero.string_of_uint d) = Some (Z.of_uint d).
Proof. intros. unfold parse_digits. by rewrite NilZero.usu. Qed.

Lemma pos_to_uint_nonnil p : Pos.to_uint p <> Decimal.Nil.
Proof. apply DecimalPos.Unsigned.to_uint_nonnil. Qed.

Lemma z_of_uint_pos p : Z.of_uint (Pos.to_uint p) = Z.pos p.
Proof.
  pose proof (DecimalZ.of_to (Z.pos p)) as H. exact H.
Qed.

Lemma parse_signed_to_string z : parse_signed (z_to_string z) = Some z.
Proof.
  unfold z_to_string, parse_signed. destruct z as [|p|p]; [reflexivity| |].
  - simpl. destruct (NilZero.string_of_uint (Pos.to_uint p)) as [|c r] eqn:E.
    + destruct (Pos.to_uint p); discriminate.
    + destruct (uint_string_digit_head _ _ _ E) as [H1 H2].
      apply Ascii.eqb_neq in H1, H2. rewrite H1, H2, <- E.
      rewrite parse_digits_uint by apply pos_to_uint_nonnil. by rewrite z_of_uint_pos.
  - simpl. rewrite parse_digits_uint by apply pos_to_uint_nonnil. simpl. by rewrite z_of_uint_pos.
Qed.

Lemma parse_i64_to_string z : in_i64 z -> parse_i64 (z_to_string z) = Some z.
Proof.
  intros H. unfold parse_i64. rewrite parse_signed_to_string.
  unfold in_i64b, in_i64 in *. by rewrite (proj2 (andb_true_iff _ _)) by lia.
Qed.

Lemma sql_int_to_string z : sql_int (z_to_string z) = z.
Proof. unfold sql_int. by rewrite parse_signed_to_string. Qed.

Lemma z_to_string_inj a b : z_to_string a = z_to_string b -> a = b.
Proof.
  intros H. pose proof (parse_signed_to_string a) as Ha. rewrite H in Ha.
  rewrite parse_signed_to_string in Ha. by simplify_eq.
Qed.

(** ** Byte strings

    A Rust [String], [&str], [BString] or [&[u8]] is a [string]: one [ascii]
    per byte (UTF-8 text is its byte sequence). *)

Definition byte_val (c : ascii) : Z := Z.of_N (N_of_ascii c).
Definition str_len (s : string) : Z := Z.of_nat (String.length s).

Fixpoint strip_prefix (p s : string) : option string :=
  match p, s with
  | EmptyString, _ => Some s
  | String a p', String b s' => if Ascii.eqb a b then strip_prefix p' s' else None
  | String _ _, EmptyString => None
  end.
Definition starts_with (p s : string) : bool := is_some (strip_prefix p s).
Definition strip_suffix (p s : string) : option string :=
  option_map String.rev (strip_prefix (String.rev p) (String.rev s)).
Definition ends_with (p s : string) : bool := is_some (strip_suffix p s).

Fixpoint str_any (f : ascii -> bool) (s : string) : bool :=
  match s with EmptyString => false | String c s' => f c || str_any f s' end.
Fixpoint str_all (f : ascii -> bool) (s : string) : bool :=
  match s with EmptyString => true | String c s' => f c && str_all f s' end.
Definition contains_char (c : ascii) (s : string) : bool := str_any (Ascii.eqb c) s.
Fixpoint str_map (f : ascii -> ascii) (s : string) : string :=
  match s with EmptyString => EmptyString | String c s' => String (f c) (str_map f s') end.
Fixpoint str_take (n : nat) (s : string) : string :=
  match n, s with
  | S n', String c s' => String c (str_take n' s')
  | _, _ => EmptyString
  end.
Fixpoint str_drop (n : nat) (s : string) : string :=
  match n, s with
  | S n', String _ s' => str_drop n' s'
  | O, _ => s
  | _, EmptyString => EmptyString
  end.

(** [s.split(c)]: never empty; [s.split_once(c)]; [s.position(c)]. *)
Fixpoint split_on (c : ascii) (s : string) : list string :=
  match s with
  | EmptyString => [EmptyString]
  | String a s' =>
      if Ascii.eqb a c then EmptyString :: split_on c s'
      else match split_on c s' with
           | x :: xs => String a x :: xs
           | [] => [String a EmptyString]
           end
  end.
Fixpoint split_once (c : ascii) (s : string) : option (string * string) :=
  match s with
  | EmptyString => None
  | String a s' =>
      if Ascii.eqb a c then Some (EmptyString, s')
      else match split_once c s' with
           | Some (x, y) => Some (String a x, y)
           | None => None
           end
  end.
Fixpoint join (sep : string) (l : list string) : string :=
  match l with
  | [] => ""
  | [x] => x
  | x :: l' => x +:+ sep +:+ join sep l'
  end.
Fixpoint concat_str (l : list string) : string :=
  match l with [] => "" | x :: l' => x +:+ concat_str l' end.

Definition chr (n : nat) : ascii := ascii_of_nat n.
Definition nl : ascii := chr 10.
Definition nul : ascii := chr 0.
Definition nl_s : string := String nl EmptyString.
Definition nul_s : string := String nul EmptyString.
(** The double quote, as text. *)
Definition dq : string := String (chr 34) EmptyString.

Definition is_ascii_graphic (c : ascii) : bool := (33 <=? byte_val c) && (byte_val c <=? 126).
Definition is_digit (c : ascii) : bool := (48 <=? byte_val c) && (byte_val c <=? 57).
Definition is_upper (c : ascii) : bool := (65 <=? byte_val c) && (byte_val c <=? 90).
Definition is_lower (c : ascii) : bool := (97 <=? byte_val c) && (byte_val c <=? 122).
Definition is_alnum (c : ascii) : bool := is_digit c || is_upper c || is_lower c.
Definition is_hexdigit (c : ascii) : bool :=
  is_digit c || ((65 <=? byte_val c) && (byte_val c <=? 70))
             || ((97 <=? byte_val c) && (byte_val c <=? 102)).
Definition to_lower (c : ascii) : ascii :=
  if is_upper c then ascii_of_N (Z.to_N (byte_val c + 32)) else c.

(** [str::trim]: the characters of Unicode's White_Space, in UTF-8. *)
Definition bytes (l : list nat) : string :=
  fold_right (fun n s => String (chr n) s) EmptyString l.
Definition white_space : list string :=
  map bytes
    ([[9]; [10]; [11]; [12]; [13]; [32]; [194; 133]; [194; 160]; [225; 154; 128];
      [226; 128; 168]; [226; 128; 169]; [226; 128; 175]; [226; 129; 159]; [227; 128; 128]]
     ++ map (fun k => [226; 128; 128 + k])%nat (seq 0 11))%nat.
Definition strip_any (ps : list string) (s : string) : option string :=
  fold_right (fun p acc => match strip_prefix p s with Some r => Some r | None => acc end) None ps.
Fixpoint trim_start_fuel (n : nat) (ps : list string) (s : string) : string :=
  match n with
  | O => s
  | S n' => match strip_any ps s with Some r => trim_start_fuel n' ps r | None => s end
  end.
Definition trim_with (ps : list string) (s : string) : string :=
  trim_start_fuel (String.length s) ps s.
Definition trim_start (s : string) : string := trim_with white_space s.
Definition trim_end (s : string) : string :=
  String.rev (trim_with (map String.rev white_space) (String.rev s)).
Definition trim (s : string) : string := trim_end (trim_start s).

Definition str_empty (s : string) : bool := String.eqb s EmptyString.

(** ** Facts on byte strings *)

#[global] Arguments String.append !_ _ / : simpl nomatch.

Lemma app_empty_r s : s +:+ "" = s.
Proof. induction s; simpl; congruence. Qed.
Lemma app_assoc_s (a b c : string) : (a +:+ b) +:+ c = a +:+ (b +:+ c).
Proof. induction a; simpl; congruence. Qed.
Lemma length_app_s a b : String.length (a +:+ b) = (String.length a + String.length b)%nat.
Proof. induction a; simpl; congruence. Qed.
Lemma app_inj_l (a b c : string) : a +:+ b = a +:+ c -> b = c.
Proof. induction a; simpl; intros; simplify_eq; auto. Qed.

Lemma rev_app_spec a b : String.rev_app a b = String.rev a +:+ b.
Proof.
  unfold String.rev. revert b.
  induction a as [|c a IH]; intros b; simpl; [done|].
  rewrite (IH (String c b)), (IH (String c "")), app_assoc_s. done.
Qed.
Lemma rev_cons_s c s : String.rev (String c s) = String.rev s +:+ String c "".
Proof. unfold String.rev at 1. simpl. by rewrite rev_app_spec. Qed.
Lemma rev_app_distr_s a b : String.rev (a +:+ b) = String.rev b +:+ String.rev a.
Proof.
  induction a as [|c a IH]; simpl; [by rewrite app_empty_r|].
  by rewrite !rev_cons_s, IH, app_assoc_s.
Qed.
Lemma rev_involutive_s s : String.rev (String.rev s) = s.
Proof.
  induction s as [|c s IH]; [done|]. by rewrite rev_cons_s, rev_app_distr_s, IH.
Qed.

Lemma strip_prefix_spec p s r : strip_prefix p s = Some r <-> s = p +:+ r.
Proof.
  revert s; induction p as [|a p IH]; intros s; simpl.
  - split; intros; simplify_eq; done.
  - destruct s as [|b s]; [split; discriminate|].
    destruct (Ascii.eqb_spec a b) as [->|Hn].
    + rewrite IH. split; intros; simplify_eq; done.
    + split; [discriminate|]. intros; simplify_eq; done.
Qed.
Lemma starts_with_spec p s : starts_with p s = true <-> exists r, s = p +:+ r.
Proof.
  unfold starts_with. destruct (strip_prefix p s) as [r|] eqn:E; simpl.
  - apply strip_prefix_spec in E. split; [by exists r|done].
  - split; [done|]. intros [r Hr]. apply strip_prefix_spec in Hr. congruence.
Qed.
Lemma strip_suffix_spec p s r : strip_suffix p s = Some r <-> s = r +:+ p.
Proof.
  unfold strip_suffix. split.
  - destruct (strip_prefix _ _) as [x|] eqn:E; simpl; intros; simplify_eq.
    apply strip_prefix_spec in E. apply (f_equal String.rev) in E.
    by rewrite rev_involutive_s, rev_app_distr_s, rev_involutive_s in E.
  - intros ->. rewrite rev_app_distr_s.
    rewrite (proj2 (strip_prefix_spec _ _ (String.rev r)) eq_refl). simpl.
    by rewrite rev_involutive_s.
Qed.

Lemma str_all_app f a b : str_all f (a +:+ b) = str_all f a && str_all f b.
Proof. induction a; simpl; [done|]. by rewrite IHa, andb_assoc. Qed.
Lemma str_all_map f g s : (forall c, f (g c) = true) -> str_all f (str_map g s) = true.
Proof. intros H. induction s; simpl; [done|]. by rewrite H, IHs. Qed.
Lemma str_all_impl (f g : ascii -> bool) s :
  (forall c, f c = true -> g c = true) -> str_all f s = true -> str_all g s = true.
Proof.
  intros H. induction s; simpl; [done|]. rewrite !andb_true_iff. intros []; split; auto.
Qed.
Lemma length_map_s f s : String.length (str_map f s) = String.length s.
Proof. induction s; simpl; congruence. Qed.
Lemma str_take_length n s : (String.length (str_take n s) <= n)%nat.
Proof. revert s; induction n; intros [|c s]; simpl; try specialize (IHn s); lia. Qed.
Lemma str_all_take f n s : str_all f s = true -> str_all f (str_take n s) = true.
Proof.
  revert s; induction n; intros [|c s]; simpl; auto. rewrite !andb_true_iff. intros []; auto.
Qed.
Lemma str_any_false f s : str_any f s = false <-> str_all (fun c => negb (f c)) s = true.
Proof.
  induction s; simpl; [done|]. rewrite orb_false_iff, andb_true_iff, negb_true_iff, IHs. done.
Qed.

Lemma split_on_nonempty c s : split_on c s <> [].
Proof. destruct s; simpl; [done|]. destruct (Ascii.eqb _ _); [done|]. by destruct (split_on c s). Qed.
Lemma split_on_join c s : join (String c "") (split_on c s) = s.
Proof.
  induction s as [|a s IH]; [done|]. simpl.
  destruct (Ascii.eqb_spec a c) as [->|Hn].
  - destruct (split_on c s) eqn:E; [by destruct (split_on_nonempty c s)|].
    change (String c (join (String c "") (s0 :: l)) = String c s). by rewrite IH.
  - destruct (split_on c s) as [|x xs] eqn:E; [by destruct (split_on_nonempty c s)|].
    rewrite <- IH. by destruct xs.
Qed.
Lemma split_on_no_sep c s :
  Forall (fun x => contains_char c x = false) (split_on c s).
Proof.
  induction s as [|a s IH]; simpl; [by repeat constructor|].
  destruct (Ascii.eqb_spec a c) as [->|Hn]; [by constructor|].
  assert (Ascii.eqb c a = false) as Hca by (by apply Ascii.eqb_neq).
  destruct (split_on c s) as [|x xs].
  - constructor; [|done]. unfold contains_char. simpl. by rewrite Hca.
  - inversion IH; subst. constructor; [|done].
    unfold contains_char in *. simpl. by rewrite Hca.
Qed.
Lemma split_on_app c a b :
  contains_char c a = false ->
  split_on c (a +:+ String c b) = a :: split_on c b.
Proof.
  induction a as [|x a IH]; simpl; intros H.
  - by rewrite Ascii.eqb_refl.
  - unfold contains_char in H. simpl in H. apply orb_false_iff in H as [H1 H2].
    rewrite Ascii.eqb_sym in H1. rewrite H1, (IH H2). done.
Qed.
Lemma split_on_none c a : contains_char c a = false -> split_on c a = [a].
Proof.
  induction a as [|x a IH]; simpl; intros H; [done|].
  unfold contains_char in H. simpl in H. apply orb_false_iff in H as [H1 H2].
  rewrite Ascii.eqb_sym in H1. by rewrite H1, (IH H2).
Qed.
Lemma split_once_spec c s a b :
  split_once c s = Some (a, b) -> s = a +:+ String c b /\ contains_char c a = false.
Proof.
  revert a b; induction s as [|x s IH]; simpl; intros a b H; [done|].
  destruct (Ascii.eqb_spec x c) as [->|Hn]; [by simplify_eq|].
  destruct (split_once c s) as [[u v]|] eqn:E; [|done]. simplify_eq.
  destruct (IH _ _ eq_refl) as [-> Hc]. split; [done|].
  unfold contains_char in *. simpl. rewrite Hc, orb_false_r. apply Ascii.eqb_neq. congruence.
Qed.
Lemma split_once_app c a b :
  contains_char c a = false -> split_once c (a +:+ String c b) = Some (a, b).
Proof.
  induction a as [|x a IH]; simpl; intros H; [by rewrite Ascii.eqb_refl|].
  unfold contains_char in H. simpl in H. apply orb_false_iff in H as [H1 H2].
  rewrite Ascii.eqb_sym in H1. by rewrite H1, (IH H2).
Qed.

Lemma z_to_string_chars n : str_all (fun c => is_digit c || Ascii.eqb c "-") (z_to_string n) = true.
Proof.
  set (f := fun c => is_digit c || Ascii.eqb c "-").
  assert (forall d, str_all f (NilEmpty.string_of_uint d) = true) as Hd
    by (induction d; simpl; auto).
  unfold z_to_string, NilZero.string_of_int. destruct (Z.to_int n) as [d|d].
  - destruct d; simpl; apply Hd || done.
  - simpl. destruct d; simpl; apply Hd || done.
Qed.
Lemma parse_u32_to_string n :
  0 <= n <= u32_max -> parse_u32 (z_to_string n) = Some n.
Proof.
  intros H. unfold parse_u32, parse_unsigned.
  pose proof (parse_signed_to_string n) as P. unfold parse_signed in P.
  destruct (z_to_string n) as [|c r] eqn:E; [done|].
  assert (Ascii.eqb c "-" = false) as Hc.
  { apply Ascii.eqb_neq. intros ->. unfold z_to_string in E.
    destruct n as [|p|p]; [done| |lia]. simpl in E.
    by apply uint_string_digit_head in E as [_ []]. }
  rewrite Hc in P. destruct (Ascii.eqb c "+"); rewrite P;
    by rewrite (proj2 (Z.leb_le n u32_max)) by lia.
Qed.

(** ** Facts on lists: the standard [map] and [filter] with membership [∈] *)

Lemma elem_of_map {A B} (f : A -> B) l y : y ∈ map f l <-> exists x, f x = y /\ x ∈ l.
Proof.
  rewrite list_elem_of_In, in_map_iff. by setoid_rewrite list_elem_of_In.
Qed.
Lemma elem_of_filter_b {A} (p : A -> bool) l x : x ∈ List.filter p l <-> x ∈ l /\ p x = true.
Proof. by rewrite !list_elem_of_In, filter_In. Qed.
Lemma filter_false {A} (p : A -> bool) l : (forall x, x ∈ l -> p x = false) -> List.filter p l = [].
Proof.
  induction l as [|x l IH]; simpl; intros Hf; [done|].
  rewrite Hf by apply list_elem_of_here. apply IH. intros. apply Hf. by apply list_elem_of_further.
Qed.
Lemma map_if_id {A} (p : A -> bool) (f : A -> A) l :
  (forall x, x ∈ l -> p x = false) -> map (fun r => if p r then f r else r) l = l.
Proof.
  induction l as [|x l IH]; simpl; intros Hf; [done|].
  rewrite Hf by apply list_elem_of_here. f_equal. apply IH. intros. apply Hf.
  by apply list_elem_of_further.
Qed.
Lemma filter_negb_id {A} (p : A -> bool) l :
  (forall x, x ∈ l -> p x = false) -> List.filter (fun r => negb (p r)) l = l.
Proof.
  induction l as [|x l IH]; simpl; intros Hf; [done|].
  rewrite Hf by apply list_elem_of_here. simpl. f_equal. apply IH. intros. apply Hf.
  by apply list_elem_of_further.
Qed.

#[global] Instance filter_b_Permutation {A} (p : A -> bool) :
  Proper ((≡ₚ) ==> (≡ₚ)) (List.filter p).
Proof.
  intros l l' H. induction H as [|x l l' _ IH|x y l|l1 l2 l3 _ IH1 _ IH2]; simpl.
  - done.
  - destruct (p x); [by rewrite IH|done].
  - destruct (p x), (p y); try done. apply perm_swap.
  - by rewrite IH1.
Qed.
Lemma NoDup_app_remove_mid {A} (l1 l2 : list A) x : NoDup (l1 ++ x :: l2) -> NoDup (l1 ++ l2).
Proof.
  rewrite !NoDup_app, NoDup_cons. intros (H1 & H2 & _ & H3). split; [done|]. split; [|done].
  intros y Hy Hy2. apply (H2 y Hy). by apply elem_of_cons; right.
Qed.

(** ** Proof automation *)

Lemma bind_ok {S E A B} (m : M S E A) (f : A -> M S E B) s s' b :
  (m ≫= f) s = (s', Ok b) -> exists a s1, m s = (s1, Ok a) /\ f a s1 = (s', Ok b).
Proof.
  unfold mbind, M_bind. destruct (m s) as [s1 [a|e]]; intros H; [by exists a, s1|]. simplify_eq.
Qed.
Lemma bind_err {S E A B} (m : M S E A) (f : A -> M S E B) s s' e :
  (m ≫= f) s = (s', Err e) ->
  m s = (s', Err e) \/ exists a s1, m s = (s1, Ok a) /\ f a s1 = (s', Err e).
Proof.
  unfold mbind, M_bind. destruct (m s) as [s1 [a|e']]; intros H; [right; by exists a, s1|left].
  by simplify_eq.
Qed.

(** [rel_ok R m]: every run of [m], failed runs included, relates the state it
    starts in to the state it leaves.  For a preorder [R] the property composes
    along [≫=], so a frame or a loss-freedom claim about a whole handler reduces
    to its statements. *)
Definition rel_ok {S E A} (R : S -> S -> Prop) (m : M S E A) : Prop := forall s, R s (m s).1.
Section RelOk.
Context {S E : Type} (R : S -> S -> Prop) `{!PreOrder R}.
Lemma rel_ok_pure {A} (r : S -> result E A) : rel_ok R (fun s => (s, r s)).
Proof. intros s. reflexivity. Qed.
Lemma rel_ok_ret {A} (a : A) : rel_ok R (mret a : M S E A).
Proof. apply rel_ok_pure. Qed.
Lemma rel_ok_fail {A} (e : E) : rel_ok R (fail e : M S E A).
Proof. apply rel_ok_pure. Qed.
Lemma rel_ok_gets {A} (f : S -> A) : rel_ok R (gets f : M S E A).
Proof. apply rel_ok_pure. Qed.
Lemma rel_ok_lift {A} (r : result E A) : rel_ok R (lift r : M S E A).
Proof. apply rel_ok_pure. Qed.
Lemma rel_ok_modify (f : S -> S) : (forall s, R s (f s)) -> rel_ok R (modify f : M S E unit).
Proof. intros Hf s. apply Hf. Qed.
Lemma rel_ok_bind {A B} (m : M S E A) (f : A -> M S E B) :
  rel_ok R m -> (forall a, rel_ok R (f a)) -> rel_ok R (m ≫= f).
Proof.
  intros Hm Hf s. specialize (Hm s). unfold mbind, M_bind.
  destruct (m s) as [s1 [a|e]]; simpl in *; [|done]. etrans; [exact Hm|apply Hf].
Qed.
Lemma rel_ok_for_each {A} (l : list A) (f : A -> M S E unit) :
  (forall a, rel_ok R (f a)) -> rel_ok R (for_each l f).
Proof.
  intros Hf. induction l as [|a l IH]; [apply rel_ok_ret|]. simpl. by apply rel_ok_bind.
Qed.
End RelOk.

(** [triple P m Q X]: from a state with [P], a run of [m] that returns [a] leaves
    [Q a], and a run that fails leaves [X] — the writes made before the error are
    kept, so what they leave is part of the claim. *)
Definition triple {S E A} (P : S -> Prop) (m : M S E A) (Q : A -> S -> Prop) (X : S -> Prop) : Prop :=
  forall s, P s -> match m s with (s', Ok a) => Q a s' | (s', Err _) => X s' end.
Section Triple.
Context {S E : Type}.
Implicit Types (P X : S -> Prop).
Lemma triple_bind {A B} P (m : M S E A) (Q : A -> S -> Prop) (f : A -> M S E B) R X :
  triple P m Q X -> (forall a, triple (Q a) (f a) R X) -> triple P (m ≫= f) R X.
Proof.
  intros Hm Hf s Hs. specialize (Hm s Hs). unfold mbind, M_bind.
  destruct (m s) as [s1 [a|e]]; [by apply Hf|done].
Qed.
Lemma triple_pre {A} P P' (m : M S E A) Q X : (forall s, P s -> P' s) -> triple P' m Q X -> triple P m Q X.
Proof. intros Hp Hm s Hs. by apply Hm, Hp. Qed.
Lemma triple_post {A} P (m : M S E A) Q Q' X : (forall a s, Q a s -> Q' a s) -> triple P m Q X -> triple P m Q' X.
Proof. intros Hq Hm s Hs. specialize (Hm s Hs). destruct (m s) as [s1 [a|e]]; auto. Qed.
Lemma triple_ret {A} P (a : A) (Q : A -> S -> Prop) X : (forall s, P s -> Q a s) -> triple P (mret a : M S E A) Q X.
Proof. intros Hq s Hs. by apply Hq. Qed.
Lemma triple_fail {A} P (e : E) (Q : A -> S -> Prop) X : (forall s, P s -> X s) -> triple P (fail e) Q X.
Proof. intros Hq s Hs. by apply Hq. Qed.
Lemma triple_modify P (f : S -> S) (Q : unit -> S -> Prop) X : (forall s, P s -> Q tt (f s)) -> triple P (modify f : M S E unit) Q X.
Proof. intros Hq s Hs. by apply Hq. Qed.
Lemma triple_gets {A} P (f : S -> A) X : triple P (gets f : M S E A) (fun a s => P s /\ a = f s) X.
Proof. intros s Hs. by split. Qed.
Lemma triple_lift {A} P (r : result E A) X : (forall s, P s -> X s) -> triple P (lift r) (fun a s => P s /\ r = Ok a) X.
Proof. intros Hx s Hs. unfold lift. destruct r; [by split|by apply Hx]. Qed.
Lemma triple_end {A} P (m : M S E A) X s : triple P m (fun _ => X) X -> P s -> X (m s).1.
Proof. intros Hm Hs. specialize (Hm s Hs). by destruct (m s) as [s1 [a|e]]. Qed.
Lemma gets_bind {A B} P (g : S -> A) (f : A -> M S E B) R X :
  (forall a, triple (fun d => P d /\ a = g d) (f a) R X) -> triple P (gets g ≫= f) R X.
Proof. intros Hf. eapply triple_bind; [apply triple_gets|exact Hf]. Qed.
Lemma modify_bind {B} P Q (g : S -> S) (f : unit -> M S E B) R X :
  (forall d, P d -> Q (g d)) -> triple Q (f tt) R X -> triple P (modify g ≫= f) R X.
Proof. intros Hg Hf. apply (triple_bind _ _ (fun _ => Q)); [by apply triple_modify|by intros []]. Qed.
Lemma triple_assoc {A B C} P (m : M S E A) (f : A -> M S E B) (g : B -> M S E C) Q R X :
  triple P (m ≫= f) Q X -> (forall b, triple (Q b) (g b) R X) -> triple P (m ≫= fun a => f a ≫= g) R X.
Proof.
  intros Hm Hg d Hd. specialize (Hm d Hd). unfold mbind, M_bind in *.
  destruct (m d) as [d1 [a|e]]; [|done]. destruct (f a d1) as [d2 [b|e]]; [|done]. by apply Hg.
Qed.
Lemma triple_pure {A} (phi : Prop) P (m : M S E A) Q X : (phi -> triple P m Q X) -> triple (fun d => P d /\ phi) m Q X.
Proof. intros Hm d [Hd Hp]. by apply Hm. Qed.
Lemma triple_conj {A} P P' (m : M S E A) Q Q' X X' :
  triple P m Q X -> triple P' m Q' X' -> triple (fun s => P s /\ P' s) m (fun a s => Q a s /\ Q' a s) (fun s => X s /\ X' s).
Proof. intros H1 H2 s [Hs1 Hs2]. specialize (H1 s Hs1). specialize (H2 s Hs2). by destruct (m s) as [s1 [a|e]]. Qed.
Lemma triple_exn {A} P (m : M S E A) Q X X' : (forall s, X s -> X' s) -> triple P m Q X -> triple P m Q X'.
Proof. intros Hx Hm s Hs. specialize (Hm s Hs). destruct (m s) as [s1 [a|e]]; auto. Qed.
End Triple.

(** [m_unfold] exposes the state passing of the primitive computations; [bsimp]
    turns boolean guards of the code into propositions. *)
Ltac m_unfold :=
  unfold fail, gets, modify, lift, mret, M_ret, mbind, M_bind, result_ret, result_bind in *;
  simpl in *.
Ltac bsimp :=
  repeat match goal with
  | H : (_ && _) = true |- _ => apply andb_true_iff in H as [? ?]
  | H : (_ || _) = false |- _ => apply orb_false_iff in H as [? ?]
  | H : negb _ = true |- _ => apply negb_true_iff in H
  | H : negb _ = false |- _ => apply negb_false_iff in H
  | H : bool_decide _ = true |- _ => apply bool_decide_eq_true in H
  | H : bool_decide _ = false |- _ => apply bool_decide_eq_false in H
  | H : String.eqb _ _ = true |- _ => apply String.eqb_eq in H
  | H : String.eqb _ _ = false |- _ => apply String.eqb_neq in H
  | H : (_ <=? _) = true |- _ => apply Z.leb_le in H
  | H : (_ <=? _) = false |- _ => apply Z.leb_gt in H
  | H : (_ <? _) = true |- _ => apply Z.ltb_lt in H
  | H : (_ <? _) = false |- _ => apply Z.ltb_ge in H
  | H : (_ =? _) = true |- _ => apply Z.eqb_eq in H
  | H : (_ =? _) = false |- _ => apply Z.eqb_neq in H
  end.

(** [map_simp] resolves lookups in explicitly updated maps with concrete keys. *)
Ltac map_simp :=
  repeat first [rewrite lookup_insert_eq | rewrite lookup_insert_ne by done
               | rewrite lookup_delete_eq | rewrite lookup_delete_ne by done].

Create HintDb git_edge.
Create Rewrite HintDb git_edge.
#[export] Hint Resolve sat64_range str_all_take : git_edge.
(** [rel_tac] splits a [rel_ok] goal along the code's binds and branches. *)
Ltac rel_tac :=
  repeat first
    [ progress intros
    | solve [auto 2 with git_edge]
    | apply rel_ok_bind; [typeclasses eauto| |]
    | apply rel_ok_ret; typeclasses eauto
    | apply rel_ok_fail; typeclasses eauto
    | apply rel_ok_gets; typeclasses eauto
    | apply rel_ok_lift; typeclasses eauto
    | apply rel_ok_for_each; [typeclasses eauto|]
    | match goal with
      | |- rel_ok _ (if ?b then _ else _) => destruct b
      | |- rel_ok _ (match ?x with _ => _ end) => destruct x
      end ].
#[export] Hint Rewrite @app_empty_r @app_assoc_s @length_app_s : git_edge.
