(* ===== verification/Errors.v ===== *)
(** * The error enum, its HTTP mapping and the request budget

    [Error] is [server/src/error.rs]'s single error enum with its [class],
    [message], [client_message] and [status] methods; [do_error_response]
    (wire/http.rs) and [from_do_response] (error.rs) carry an error from the
    repository object to the edge; [respond] maps a handler's result to the
    response the client sees.  [ReqBudget] is lib.rs's subrequest budget.
    JSON bodies are kept as the record of the fields the code reads. *)
From S2P Require Import Prelude.
Open Scope Z_scope.

Inductive Error : Type :=
| Protocol (m : string)
| Auth
| Forbidden
| NotFound
| Conflict (m : string)
| Unpack (m : string)
| Budget
| Limit (m : string)
| Gone
| RateLimit (s : Z)
| Busy (s : Z)
| Storage (m : string)
| Internal (m : string).

#[global] Instance Error_eq_dec : EqDecision Error.
Proof. solve_decision. Defined.

(** [impl Display]. *)
Definition display (e : Error) : string :=
  match e with
  | Protocol m => "protocol error: " +:+ m
  | Auth => "authentication required"
  | Forbidden => "forbidden"
  | NotFound => "not found"
  | Conflict m => "conflict: " +:+ m
  | Unpack m => "unpack failed: " +:+ m
  | Budget => "request budget exhausted"
  | Limit m => "limit exceeded: " +:+ m
  | Gone => "repository deleted"
  | RateLimit s => "rate limited, retry in " +:+ z_to_string s +:+ "s"
  | Busy s => "server busy, retry in " +:+ z_to_string s +:+ "s"
  | Storage m => "storage error: " +:+ m
  | Internal m => "internal error: " +:+ m
  end.

Definition class (e : Error) : string :=
  match e with
  | Protocol _ => "protocol"
  | Auth => "auth"
  | Forbidden => "forbidden"
  | NotFound => "notfound"
  | Conflict _ => "conflict"
  | Unpack _ => "unpack"
  | Budget => "budget"
  | Limit _ => "limit"
  | Storage _ => "storage"
  | Gone => "gone"
  | RateLimit _ => "ratelimit"
  | Busy _ => "busy"
  | Internal _ => "internal"
  end.

Definition message (e : Error) : string :=
  match e with
  | Protocol m | Unpack m | Limit m | Storage m | Internal m | Conflict m => m
  | Auth => "authentication required"
  | Forbidden => "forbidden"
  | NotFound => "not found"
  | Budget => "request budget exhausted"
  | Gone => "repository deleted"
  | RateLimit s => "rate limit exceeded, retry in " +:+ z_to_string s +:+ "s"
  | Busy s => "server busy, retry in " +:+ z_to_string s +:+ "s"
  end.

(** [m.chars()]: in UTF-8 every character has exactly one byte that is not a
    continuation byte, its first; a character is kept as that byte, which is
    enough to tell an ASCII character from any other. *)
Definition is_continuation (c : ascii) : bool := (128 <=? byte_val c) && (byte_val c <=? 191).
Fixpoint chars (s : string) : string :=
  match s with
  | EmptyString => EmptyString
  | String c s' => if is_continuation c then chars s' else String c (chars s')
  end.
Definition client_char (c : ascii) : ascii :=
  if is_ascii_graphic c || Ascii.eqb c " " then c else "?"%char.
Definition client_message (e : Error) : string :=
  let m := match e with
           | Storage _ | Internal _ => "internal error"
           | _ => message e
           end in
  str_map client_char (str_take 512 (chars m)).

Definition status (e : Error) : Z :=
  match e with
  | Protocol _ => 400
  | Auth => 401
  | Forbidden => 403
  | NotFound => 404
  | Gone => 410
  | Conflict _ => 409
  | Budget | Limit _ => 413
  | RateLimit _ => 429
  | Busy _ => 503
  | Unpack _ | Storage _ | Internal _ => 500
  end.

(** Storage and Internal leave a synchronous span through the platform, which
    rolls the span back; every other error answers and commits it. *)
Definition fatal (e : Error) : bool :=
  match e with Storage _ | Internal _ => true | _ => false end.

(** ** ReqBudget (lib.rs)

    [sink] is the request-wide tally every budget of one request shares; it is
    passed in and out.  Times are whole milliseconds. *)
Record ReqBudget : Type := mkReqBudget {
  max_subrequests : Z;
  used : Z;
  started_ms : Z;
  max_ms : Z;
  reporting : bool (* the budget has a sink *)
}.
Definition PAID_SUBREQUESTS : Z := 9000.
Definition paid (now : Z) : ReqBudget := mkReqBudget PAID_SUBREQUESTS 0 now 240000 false.
Definition with_reporting (b : ReqBudget) : ReqBudget :=
  mkReqBudget (max_subrequests b) (used b) (started_ms b) (max_ms b) true.
Definition report (b : ReqBudget) (n spend : Z) : Z :=
  if reporting b then sat_addu32 spend n else spend.
Definition charge (now : Z) (b : ReqBudget) (n spend : Z) : ReqBudget * Z * result Error unit :=
  let b' := mkReqBudget (max_subrequests b) (sat_addu32 (used b) n) (started_ms b) (max_ms b) (reporting b) in
  let spend' := report b' n spend in
  if (max_subrequests b' <? used b') || (max_ms b' <? now - started_ms b')
  then (b', spend', Err Budget)
  else (b', spend', Ok tt).

(** ** Crossing the repository-object boundary *)

Record DoErrBody : Type := mkDoErrBody {
  be_error : option string;
  be_message : option string;
  be_retry_after : option Z
}.
Record DoResponse : Type := mkDoResponse {
  dr_status : Z;
  dr_subrequests : option string; (* the x-ge-subrequests header *)
  dr_body : option DoErrBody      (* None: the body is not that JSON object *)
}.

Definition err_kind (e : Error) : string :=
  match e with
  | Protocol _ => "protocol"
  | Auth => "auth"
  | Forbidden => "forbidden"
  | NotFound => "notfound"
  | Gone => "gone"
  | Conflict _ => "conflict"
  | Unpack _ => "unpack"
  | Budget => "budget"
  | Limit _ => "limit"
  | RateLimit _ => "ratelimit"
  | Busy _ => "busy"
  | Storage _ | Internal _ => "internal"
  end.
Definition stamp_subrequests (subreqs : Z) : string :=
  z_to_string subreqs +:+ "/" +:+ z_to_string PAID_SUBREQUESTS.
Definition do_error_response (e : Error) (subreqs : Z) : DoResponse :=
  mkDoResponse (status e) (Some (stamp_subrequests subreqs))
    (Some (mkDoErrBody (Some (err_kind e)) (Some (message e))
       (match e with RateLimit s | Busy s => Some s | _ => None end))).

Definition from_do_response (r : DoResponse) (b : ReqBudget) (spend : Z) : Error * Z :=
  let spend' :=
    match dr_subrequests r with
    | Some v =>
        match head (split_on "/" v) with
        | Some s => match parse_u32 s with Some n => report b n spend | None => spend end
        | None => spend
        end
    | None => spend
    end in
  let e :=
    match dr_body r with
    | Some e =>
        let msg := unwrap_or "" (be_message e) in
        match be_error e with
        | Some k =>
            if String.eqb k "protocol" then Protocol msg
            else if String.eqb k "auth" then Auth
            else if String.eqb k "forbidden" then Forbidden
            else if String.eqb k "notfound" then NotFound
            else if String.eqb k "gone" then Gone
            else if String.eqb k "conflict" then Conflict msg
            else if String.eqb k "unpack" then Unpack msg
            else if String.eqb k "budget" then Budget
            else if String.eqb k "limit" then Limit msg
            else if String.eqb k "ratelimit" then RateLimit (unwrap_or 60 (be_retry_after e))
            else if String.eqb k "busy" then Busy (unwrap_or 60 (be_retry_after e))
            else Storage msg
        | None => Storage msg
        end
    | None => Storage ("DO returned " +:+ z_to_string (dr_status r))
    end in
  (e, spend').

(** ** The response the client sees *)

Record Response : Type := mkResponse {
  r_status : Z;
  r_headers : list (string * string);
  r_body : string
}.
Definition header (k : string) (r : Response) : option string :=
  snd <$> List.find (fun p => String.eqb (fst p) k) (r_headers r).
Definition set_header (k v : string) (r : Response) : Response :=
  mkResponse (r_status r)
    (List.filter (fun p => negb (String.eqb (fst p) k)) (r_headers r) ++ [(k, v)]) (r_body r).

Definition hex_digit (n : Z) : ascii :=
  if n <? 10 then ascii_of_N (Z.to_N (48 + n)) else ascii_of_N (Z.to_N (87 + n)).
Fixpoint hex_fuel (fuel : nat) (n : Z) (acc : string) : string :=
  match fuel with
  | O => acc
  | S f => let acc' := String (hex_digit (n mod 16)) acc in
           if n / 16 =? 0 then acc' else hex_fuel f (n / 16) acc'
  end.
(** [format!("{n:x}")] and [format!("{n:04x}")] for a 64-bit value. *)
Definition hex_of (n : Z) : string := hex_fuel 16 n "".
Definition hex04 (n : Z) : string :=
  let h := hex_of n in
  String.append (bytes (replicate (4 - String.length h) 48%nat)) h.

Definition err_body (git_pkt : bool) (e : Error) : string :=
  if git_pkt then
    let msg := "ERR " +:+ client_message e +:+ nl_s in
    hex04 (str_len msg + 4) +:+ msg
  else client_message e +:+ nl_s.

Definition respond (r : result Error Response) (git_pkt : bool) (subreqs : Z) : Response :=
  match r with
  | Ok resp =>
      match header "x-ge-subrequests" resp with
      | Some _ => resp
      | None => set_header "x-ge-subrequests" (stamp_subrequests subreqs) resp
      end
  | Err e =>
      let r0 := mkResponse 200 [] (err_body git_pkt e) in
      let r1 := match e with
                | Auth => set_header "WWW-Authenticate" ("Basic realm=" +:+ dq +:+ "git-edge" +:+ dq) r0
                | _ => r0
                end in
      let r2 := match e with
                | RateLimit s | Busy s => set_header "Retry-After" (z_to_string (Z.max s 1)) r1
                | _ => r1
                end in
      let r3 := set_header "x-ge-subrequests" (stamp_subrequests subreqs) r2 in
      mkResponse (status e) (r_headers r3) (r_body r3)
  end.

(** ** Properties *)

(** What the edge makes of an error the repository object answered with. *)
Definition edge_view (e : Error) : Error := if fatal e then Storage (message e) else e.

Lemma z_to_string_no_slash n : contains_char "/" (z_to_string n) = false.
Proof.
  apply str_any_false. eapply str_all_impl; [|apply z_to_string_chars].
  intros c. destruct (Ascii.eqb_spec "/" c) as [<-|]; done.
Qed.

(** The edge reads an error the repository object answered with as the same
    error (a fatal one as a storage failure with its message), and its budget is
    charged exactly the subrequests the object reported. *)
Theorem do_error_roundtrip (e : Error) (b : ReqBudget) (n spend : Z) :
  0 <= n <= u32_max ->
  from_do_response (do_error_response e n) b spend = (edge_view e, report b n spend).
Proof.
  intros Hn. unfold from_do_response, do_error_response, stamp_subrequests; simpl.
  rewrite (split_on_app "/") by apply z_to_string_no_slash. simpl.
  rewrite parse_u32_to_string by done. by destruct e.
Qed.

Lemma client_char_safe c : (is_ascii_graphic (client_char c) || Ascii.eqb (client_char c) " ") = true.
Proof. unfold client_char. destruct (is_ascii_graphic c || Ascii.eqb c " ") eqn:E; [done|reflexivity]. Qed.

(** What a client is shown is at most 512 printable ASCII characters on one line,
    and of a fatal error only that it is internal. *)
Theorem client_message_safe (e : Error) :
  str_all (fun c => is_ascii_graphic c || Ascii.eqb c " ") (client_message e) = true
  /\ (String.length (client_message e) <= 512)%nat
  /\ (fatal e = true -> client_message e = "internal error").
Proof.
  unfold client_message. split; [|split].
  - apply str_all_map, client_char_safe.
  - rewrite length_map_s. apply str_take_length.
  - destruct e; simpl; intros; try done.
Qed.

Definition hex_val (c : ascii) : option Z :=
  if is_digit c then Some (byte_val c - 48)
  else if (97 <=? byte_val c) && (byte_val c <=? 102) then Some (byte_val c - 87)
  else None.
Definition hex4_value (s : string) : option Z :=
  match s with
  | String a (String b (String c (String d _))) =>
      match hex_val a, hex_val b, hex_val c, hex_val d with
      | Some x, Some y, Some z, Some w => Some (((x * 16 + y) * 16 + z) * 16 + w)
      | _, _, _, _ => None
      end
  | _ => None
  end.
Definition hex04_ok (n : Z) : bool :=
  match hex4_value (hex04 n) with Some m => m =? n | None => false end
  && (String.length (hex04 n) =? 4)%nat.
Lemma hex04_small n : 0 <= n < 1024 -> hex04_ok n = true.
Proof.
  intros H.
  assert (forallb (fun k => hex04_ok (Z.of_nat k)) (seq 0 1024) = true) as F by (vm_compute; done).
  rewrite forallb_forall in F. specialize (F (Z.to_nat n)). rewrite Z2Nat.id in F by lia.
  apply F, in_seq. lia.
Qed.
Lemma hex4_value_app s t : String.length s = 4%nat -> hex4_value (s +:+ t) = hex4_value s.
Proof.
  intros H. destruct s as [|a [|b [|c [|d [|e s]]]]]; simpl in H; try done.
Qed.

(** An error answered as a git packet is one well-formed pkt-line: its four hex
    digits are the length of the whole body. *)
Theorem err_body_is_pkt_line (e : Error) :
  hex4_value (err_body true e) = Some (str_len (err_body true e)).
Proof.
  unfold err_body. set (msg := "ERR " +:+ client_message e +:+ nl_s).
  assert (String.length msg = 5 + String.length (client_message e))%nat as Hm.
  { unfold msg. rewrite !length_app_s. simpl. lia. }
  destruct (client_message_safe e) as (_ & Hl & _).
  assert (0 <= str_len msg + 4 < 1024) as Hr by (unfold str_len; lia).
  pose proof (hex04_small _ Hr) as Hok. unfold hex04_ok in Hok. bsimp.
  apply Nat.eqb_eq in H0. rewrite hex4_value_app by done.
  destruct (hex4_value _) as [m|]; [|done]. bsimp. subst m.
  unfold str_len at 2. rewrite length_app_s, H0. unfold str_len. f_equal. lia.
Qed.

Lemma charge_used now b n spend b' sp' r :
  charge now b n spend = (b', sp', r) -> 0 <= n ->
  used b' = sat_addu32 (used b) n /\ max_subrequests b' = max_subrequests b
  /\ started_ms b' = started_ms b /\ max_ms b' = max_ms b.
Proof. unfold charge. intros H _. destruct (_ || _); simplify_eq; done. Qed.

(** A budget only admits spend within its cap and its time, and never recovers. *)
Theorem charge_sound now b n spend b' sp' r :
  charge now b n spend = (b', sp', r) ->
  0 <= n -> 0 <= used b -> max_subrequests b < u32_max ->
  (r = Ok tt -> used b + n <= max_subrequests b /\ used b' = used b + n
                /\ now - started_ms b <= max_ms b)
  /\ (r = Err Budget -> forall now2 n2 sp2, now <= now2 -> 0 <= n2 ->
        (charge now2 b' n2 sp2).2 = Err Budget)
  /\ (reporting b = true -> 0 <= spend -> spend + n <= u32_max -> sp' = spend + n).
Proof.
  intros H Hn Hu Hm. unfold charge in H; simpl in H.
  destruct ((max_subrequests b <? sat_addu32 (used b) n) || (max_ms b <? now - started_ms b)) eqn:E;
    simplify_eq; (split; [|split]); intros; simplify_eq.
  - unfold charge; simpl. apply orb_true_iff in E.
    rewrite (proj2 (orb_true_iff _ _)); [done|]. unfold sat_addu32 in *. lia.
  - unfold report; simpl. rewrite H. unfold sat_addu32. lia.
  - bsimp. simpl. unfold sat_addu32 in *. lia.
  - unfold report; simpl. rewrite H. unfold sat_addu32. lia.
Qed.

Lemma do_error_roundtrip_witness :
  from_do_response (do_error_response (RateLimit 7) 12) (mkReqBudget 0 40 0 1000 true) 3
  = (RateLimit 7, report (mkReqBudget 0 40 0 1000 true) 12 3).
Proof. apply (do_error_roundtrip (RateLimit 7) (mkReqBudget 0 40 0 1000 true) 12 3). unfold u32_max. lia. Defined.
