(* ===== verification/Text.v ===== *)
(** * Text helpers of the standard library

    What the wire, auth and signing modules use of Rust's standard library on
    bytes: [slice::chunks], lossy UTF-8 ([String::from_utf8_lossy], and the
    [Display] of a [BStr]), [{:02x}] and [u8::from_str_radix(_, 16)], with the
    facts the components share. *)
From S2P Require Import Prelude Errors.
Open Scope Z_scope.

(** ** [chunks(n)]: pieces of [n] bytes, the last one shorter. *)
Fixpoint chunks_fuel (fuel n : nat) (s : string) : list string :=
  match fuel with
  | O => []
  | S f => if str_empty s then [] else str_take n s :: chunks_fuel f n (str_drop n s)
  end.
Definition chunks (n : nat) (s : string) : list string := chunks_fuel (String.length s) n s.

(** ** Lossy UTF-8: each maximal ill-formed prefix becomes U+FFFD. *)
Definition replacement (s : string) : string := bytes [239; 191; 189]%nat +:+ s.
Definition between (lo hi : Z) (c : ascii) : bool := (lo <=? byte_val c) && (byte_val c <=? hi).
Definition utf8_len (b0 : ascii) : nat :=
  if between 0 127 b0 then 1%nat
  else if between 194 223 b0 then 2%nat
  else if between 224 239 b0 then 3%nat
  else if between 240 244 b0 then 4%nat else 0%nat.
Definition second_ok (b0 b1 : ascii) : bool :=
  match byte_val b0 with
  | 224 => between 160 191 b1
  | 237 => between 128 159 b1
  | 240 => between 144 191 b1
  | 244 => between 128 143 b1
  | _ => is_continuation b1
  end.
Fixpoint lossy (s : string) : string :=
  match s with
  | EmptyString => EmptyString
  | String b0 r =>
      match utf8_len b0 with
      | 0%nat => replacement (lossy r)
      | 1%nat => String b0 (lossy r)
      | n => match r with
             | EmptyString => replacement EmptyString
             | String b1 r1 =>
                 if negb (second_ok b0 b1) then replacement (lossy r)
                 else if (n =? 2)%nat then String b0 (String b1 (lossy r1))
                 else match r1 with
                      | EmptyString => replacement EmptyString
                      | String b2 r2 =>
                          if negb (is_continuation b2) then replacement (lossy r1)
                          else if (n =? 3)%nat then String b0 (String b1 (String b2 (lossy r2)))
                          else match r2 with
                               | EmptyString => replacement EmptyString
                               | String b3 r3 =>
                                   if negb (is_continuation b3) then replacement (lossy r2)
                                   else String b0 (String b1 (String b2 (String b3 (lossy r3))))
                               end
                      end
             end
      end
  end.
Definition is_ascii (c : ascii) : bool := between 0 127 c.

(** ** Hexadecimal bytes *)
Definition byte_of (n : Z) : ascii := ascii_of_N (Z.to_N (n mod 256)).
Definition hex_byte (c : ascii) : string :=
  String (hex_digit (byte_val c / 16)) (String (hex_digit (byte_val c mod 16)) EmptyString).
Fixpoint hex_bytes (s : string) : string :=
  match s with EmptyString => EmptyString | String c s' => hex_byte c +:+ hex_bytes s' end.
(** A digit of [from_str_radix]: either case. *)
Definition hex_any (c : ascii) : option Z := hex_val (to_lower c).
(** [u8::from_str_radix(h, 16)] on two bytes of text: like every integer parser of
    the standard library it accepts a leading plus sign. *)
Definition radix16 (a b : ascii) : option Z :=
  if Ascii.eqb a "+" then hex_any b
  else match hex_any a, hex_any b with
       | Some x, Some y => Some (x * 16 + y)
       | _, _ => None
       end.
(** [chunks_exact(2)], each through [from_utf8] and [from_str_radix]: a pair with
    a non-ASCII byte is either invalid text or not two digits, so it is [None]. *)
Fixpoint unhex (s : string) : option string :=
  match s with
  | String a (String b s') =>
      match radix16 a b, unhex s' with
      | Some n, Some r => Some (String (byte_of n) r)
      | _, _ => None
      end
  | _ => Some EmptyString
  end.

(** ** Facts *)

Lemma str_take_drop n s : str_take n s +:+ str_drop n s = s.
Proof. revert s; induction n; intros [|c s]; simpl; try done. by rewrite IHn. Qed.
Lemma str_drop_length n s : String.length (str_drop n s) = (String.length s - n)%nat.
Proof. revert s; induction n; intros [|c s]; simpl; auto. Qed.
Lemma str_drop_app a b : str_drop (String.length a) (a +:+ b) = b.
Proof. induction a; done. Qed.
Lemma str_drop_drop n m s : str_drop m (str_drop n s) = str_drop (n + m) s.
Proof. revert s; induction n; intros s; [done|]. destruct s; simpl; [by destruct m|apply IHn]. Qed.
Lemma str_drop_all n s : (String.length s <= n)%nat -> str_drop n s = "".
Proof. revert s; induction n; intros [|c s] Hl; simpl in *; try done; [lia|]. apply IHn. lia. Qed.
Lemma chunks_fuel_concat f n s : (0 < n)%nat -> (String.length s <= f)%nat -> concat_str (chunks_fuel f n s) = s.
Proof.
  intros Hn. revert s; induction f as [|f IH]; intros s Hf; simpl.
  - destruct s; simpl in *; [done|lia].
  - unfold str_empty. destruct (String.eqb_spec s ""); [by subst|]. simpl.
    rewrite IH; [apply str_take_drop|]. rewrite str_drop_length. destruct s; simpl in *; [done|lia].
Qed.
Lemma chunks_concat n s : (0 < n)%nat -> concat_str (chunks n s) = s.
Proof. intros Hn. by apply chunks_fuel_concat. Qed.
Lemma chunks_sizes n s : (0 < n)%nat -> Forall (fun c => 1 <= String.length c <= n)%nat (chunks n s).
Proof.
  intros Hn. unfold chunks. generalize (String.length s) at 1. intros f. revert s.
  induction f as [|f IH]; intros s; simpl; [constructor|].
  unfold str_empty. destruct (String.eqb_spec s ""); [constructor|]. constructor; [|apply IH].
  split; [|apply str_take_length]. destruct s; [done|]. destruct n; [lia|]. simpl. lia.
Qed.

Lemma lossy_ascii s : str_all is_ascii s = true -> lossy s = s.
Proof.
  induction s as [|c s IH]; simpl; [done|]. intros [Hc Hs]%andb_true_iff.
  unfold utf8_len. unfold is_ascii in Hc. rewrite Hc. by rewrite IH.
Qed.

Lemma hex_val_digit k : 0 <= k < 16 -> hex_val (hex_digit k) = Some k.
Proof.
  intros Hk. assert (forallb (fun i => bool_decide (hex_val (hex_digit (Z.of_nat i)) = Some (Z.of_nat i))) (seq 0 16) = true)
    as F by (vm_compute; done).
  rewrite forallb_forall in F. specialize (F (Z.to_nat k)). rewrite Z2Nat.id in F by lia.
  apply bool_decide_eq_true in F; [done|]. apply in_seq. lia.
Qed.
Lemma hex_digit_graphic k : 0 <= k < 16 -> is_ascii_graphic (hex_digit k) = true /\ hex_digit k <> "+"%char
  /\ to_lower (hex_digit k) = hex_digit k.
Proof.
  intros Hk. assert (forallb (fun i => is_ascii_graphic (hex_digit (Z.of_nat i)) && negb (Ascii.eqb (hex_digit (Z.of_nat i)) "+")
    && Ascii.eqb (to_lower (hex_digit (Z.of_nat i))) (hex_digit (Z.of_nat i))) (seq 0 16) = true) as F by (vm_compute; done).
  rewrite forallb_forall in F. specialize (F (Z.to_nat k)). rewrite Z2Nat.id in F by lia.
  assert (In (Z.to_nat k) (seq 0 16)) as Hin by (apply in_seq; lia). specialize (F Hin). bsimp.
  split; [done|]. split; [by apply Ascii.eqb_neq|by apply Ascii.eqb_eq].
Qed.
Lemma hex_any_digit k : 0 <= k < 16 -> hex_any (hex_digit k) = Some k.
Proof. intros Hk. unfold hex_any. destruct (hex_digit_graphic k Hk) as (_ & _ & ->). by apply hex_val_digit. Qed.

(** A 16-bit length is four hex digits that read back as it. *)
Lemma hex04_digits n : 0 <= n < 65536 ->
  hex04 n = String (hex_digit (n / 4096)) (String (hex_digit (n / 256 mod 16))
    (String (hex_digit (n / 16 mod 16)) (String (hex_digit (n mod 16)) ""))).
Proof.
  intros Hn. unfold hex04, hex_of. cbn [hex_fuel].
  assert (n / 16 / 16 = n / 256) as E2 by (by rewrite Z.div_div by lia).
  assert (n / 256 / 16 = n / 4096) as E3 by (by rewrite Z.div_div by lia).
  assert (n / 4096 / 16 = 0) as E4 by (rewrite Z.div_div by lia; apply Z.div_small; lia).
  assert (0 <= n / 4096 < 16) as H4 by (split; [apply Z.div_pos; lia|apply Z.div_lt_upper_bound; lia]).
  rewrite E2, E3, E4. destruct (Z.eqb_spec (n / 16) 0) as [H1|H1].
  { rewrite <- E3, <- E2, H1. reflexivity. }
  destruct (Z.eqb_spec (n / 256) 0) as [H2|H2].
  { rewrite <- E3, H2. reflexivity. }
  destruct (Z.eqb_spec (n / 4096) 0) as [H3|H3].
  { rewrite H3. reflexivity. }
  rewrite (Z.mod_small (n / 4096)) by lia. reflexivity.
Qed.
Lemma hex04_value n : 0 <= n < 65536 -> hex4_value (hex04 n) = Some n /\ String.length (hex04 n) = 4%nat.
Proof.
  intros Hn. rewrite hex04_digits by done. split; [|done]. unfold hex4_value.
  rewrite !hex_val_digit; try (apply Z.mod_pos_bound; lia);
    [|split; [apply Z.div_pos; lia|apply Z.div_lt_upper_bound; lia]].
  f_equal. assert (Z.div_eucl n 16 = (n / 16, n mod 16)) by (unfold Z.div, Z.modulo; by destruct (Z.div_eucl n 16)).
  assert (n / 256 = n / 16 / 16) as -> by (by rewrite Z.div_div by lia). assert (n / 4096 = n / 16 / 16 / 16) as -> by (by rewrite !Z.div_div by lia).
  pose proof (Z.div_mod n 16). pose proof (Z.div_mod (n / 16) 16). pose proof (Z.div_mod (n / 16 / 16) 16). lia.
Qed.

Lemma byte_val_range c : 0 <= byte_val c < 256.
Proof. unfold byte_val. pose proof (N_ascii_bounded c). lia. Qed.
Lemma byte_of_val c : byte_of (byte_val c) = c.
Proof.
  unfold byte_of. rewrite Z.mod_small by apply byte_val_range. unfold byte_val. rewrite N2Z.id. apply ascii_N_embedding.
Qed.
Lemma unhex_hex s : unhex (hex_bytes s) = Some s.
Proof.
  induction s as [|c s IH]; [done|]. cbn [hex_bytes hex_byte String.append unhex]. pose proof (byte_val_range c).
  assert (0 <= byte_val c / 16 < 16) as Hhi by (split; [apply Z.div_pos; lia|apply Z.div_lt_upper_bound; lia]).
  assert (0 <= byte_val c mod 16 < 16) as Hlo by (apply Z.mod_pos_bound; lia).
  unfold radix16. destruct (hex_digit_graphic _ Hhi) as (_ & Hp & _). apply Ascii.eqb_neq in Hp. rewrite Hp.
  rewrite !hex_any_digit, IH by done. f_equal. f_equal.
  rewrite Z.mul_comm, <- Z.div_mod by lia. apply byte_of_val.
Qed.
Lemma hex_bytes_length s : String.length (hex_bytes s) = (2 * String.length s)%nat.
Proof. induction s as [|c s IH]; [done|]. cbn [hex_bytes hex_byte String.append String.length]. rewrite IH. simpl. lia. Qed.
