(* ===== verification/Db.v ===== *)
(** * The repository object's store

    One repository is one SQLite-backed object.  [Db] has a field per table of
    [server/src/store/mod.rs]'s schema (the import staging tables excepted): a
    table with a primary key is a finite map from the key to the other columns,
    an AUTOINCREMENT table is the list of its rows in id order with its
    sequence counter.  Text state columns are the enum of the values the code
    writes.  A SQL statement is a function on [Db]; a statement whose
    [changes()] the code reads returns the number of rows it wrote.

    A handler that runs in one synchronous span is an [M Db Error]; the time
    [platform::now_ms] returns does not move inside a span and is an argument,
    and so are the random strings [platform::hex16] returns. *)
From S2P Require Import Prelude Errors.
Open Scope Z_scope.

(** ** Row types *)

Record RefSql : Type := mkRef { rf_target : string; rf_peeled : option string; rf_updated_at : Z }.
Record ReflogSql : Type := mkReflog {
  rl_name : string; rl_old : string; rl_new : string; rl_push : string;
  rl_principal : string; rl_at : Z }.

(** [pushes.state]: 'open', 'committed', 'rejected', 'dead' or 'expired'. *)
Inductive PushState : Type := POpen | PCommitted | PRejected | PDead | PExpired.
Definition push_state_str (s : PushState) : string :=
  match s with
  | POpen => "open" | PCommitted => "committed" | PRejected => "rejected"
  | PDead => "dead" | PExpired => "expired"
  end.
#[global] Instance PushState_eq_dec : EqDecision PushState.
Proof. solve_decision. Defined.
Record PushSql : Type := mkPush {
  ps_state : PushState; ps_pack : option string; ps_principal : string; ps_began : Z;
  ps_ended : option Z; ps_epoch : Z; ps_result : option (list (string * option string));
  ps_swept : option Z; ps_scope : option string; ps_auth : option string }.

(** gix_hash::Kind: the object format. *)
Inductive HashKind : Type := Sha1 | Sha256.
#[global] Instance HashKind_eq_dec : EqDecision HashKind.
Proof. solve_decision. Defined.

(** [packs.state] (store::PackState). *)
Inductive PackState : Type := Ingesting | Live | Dead.
#[global] Instance PackState_eq_dec : EqDecision PackState.
Proof. solve_decision. Defined.
Record PackSql : Type := mkPack {
  pk_state : PackState; pk_count : Z; pk_bytes : Z; pk_lo : Z; pk_hi : Z;
  pk_push : option string; pk_created : Z; pk_dead_at : option Z }.
(** store::PackMeta: what a finished pack is. *)
Record PackMeta : Type := mkPackMeta {
  pm_pack : string; pm_push : option string; pm_count : Z; pm_bytes : Z; pm_lo : Z; pm_hi : Z;
  pm_created : Z }.
Record ObjSql : Type := mkObj { ob_idx : Z; ob_offset : Z; ob_len : Z; ob_kind : Z; ob_size : Z }.

Inductive JobState : Type := Queued | Running | JDead.
#[global] Instance JobState_eq_dec : EqDecision JobState.
Proof. solve_decision. Defined.
Record JobSql : Type := mkJob {
  jb_id : Z; jb_kind : string; jb_run_at : Z; jb_attempts : Z; jb_cursor : option string;
  jb_payload : string; jb_state : JobState; jb_error : option string;
  jb_started : option Z; jb_lease : option string; jb_strands : Z }.

Record MarkedSql : Type := mkMarked { mk_bitmap : list Z; mk_built : option (list Z) }.
Record PendingSql : Type := mkPending { pd_seq : Z; pd_pack : string; pd_cursor : Z }.
Record TokenSql : Type := mkToken {
  tk_hash : string; tk_level : string; tk_name : string; tk_created : Z;
  tk_scope : option string; tk_expires : option Z }.
Record PinSql : Type := mkPin { pin_target : string; pin_created : Z }.
Record EventBody : Type := mkEventBody {
  eb_owner : string; eb_repo : string; eb_repo_id : string; eb_push : string;
  eb_principal : string; eb_at : Z; eb_refs : list (string * string * string) }.
Record EventSql : Type := mkEvent {
  ev_seq : Z; ev_push : string; ev_at : Z; ev_body : EventBody;
  ev_attempts : Z; ev_error : option string }.

Record Db : Type := mkDb {
  t_meta : gmap string string;
  t_refs : gmap string RefSql;
  t_reflog : list ReflogSql;
  t_pushes : gmap string PushSql;
  t_packs : gmap string PackSql;
  t_objects : gmap (string * string) ObjSql;
  t_jobs : list JobSql;
  t_jobs_seq : Z;
  t_marked : gmap string MarkedSql;
  t_frontier : gmap string Z;
  t_seen : gset string;
  t_parts : gmap Z string;
  t_tail : gmap Z (list Z);
  t_pending : list PendingSql;
  t_pending_seq : Z;
  t_tokens : gmap string TokenSql;
  t_pins : gmap string PinSql;
  t_protected : gmap string Z;
  t_events : list EventSql;
  t_events_seq : Z;
  t_parents : gmap (string * Z) (option string);
  t_rate : gmap (string * Z) Z;
  t_knobs : gmap string Z;
  t_failpoints : gmap string (string * Z)
}.
Definition empty_db : Db :=
  mkDb ∅ ∅ [] ∅ ∅ ∅ [] 0 ∅ ∅ ∅ ∅ ∅ [] 0 ∅ ∅ ∅ [] 0 ∅ ∅ ∅ ∅.

Definition on_meta (f : gmap string string -> gmap string string) (d : Db) : Db :=
  mkDb (f (t_meta d)) (t_refs d) (t_reflog d) (t_pushes d) (t_packs d) (t_objects d) (t_jobs d) (t_jobs_seq d) (t_marked d) (t_frontier d) (t_seen d) (t_parts d) (t_tail d) (t_pending d) (t_pending_seq d) (t_tokens d) (t_pins d) (t_protected d) (t_events d) (t_events_seq d) (t_parents d) (t_rate d) (t_knobs d) (t_failpoints d).
Definition on_refs (f : gmap string RefSql -> gmap string RefSql) (d : Db) : Db :=
  mkDb (t_meta d) (f (t_refs d)) (t_reflog d) (t_pushes d) (t_packs d) (t_objects d) (t_jobs d) (t_jobs_seq d) (t_marked d) (t_frontier d) (t_seen d) (t_parts d) (t_tail d) (t_pending d) (t_pending_seq d) (t_tokens d) (t_pins d) (t_protected d) (t_events d) (t_events_seq d) (t_parents d) (t_rate d) (t_knobs d) (t_failpoints d).
Definition on_reflog (f : list ReflogSql -> list ReflogSql) (d : Db) : Db :=
  mkDb (t_meta d) (t_refs d) (f (t_reflog d)) (t_pushes d) (t_packs d) (t_objects d) (t_jobs d) (t_jobs_seq d) (t_marked d) (t_frontier d) (t_seen d) (t_parts d) (t_tail d) (t_pending d) (t_pending_seq d) (t_tokens d) (t_pins d) (t_protected d) (t_events d) (t_events_seq d) (t_parents d) (t_rate d) (t_knobs d) (t_failpoints d).
Definition on_pushes (f : gmap string PushSql -> gmap string PushSql) (d : Db) : Db :=
  mkDb (t_meta d) (t_refs d) (t_reflog d) (f (t_pushes d)) (t_packs d) (t_objects d) (t_jobs d) (t_jobs_seq d) (t_marked d) (t_frontier d) (t_seen d) (t_parts d) (t_tail d) (t_pending d) (t_pending_seq d) (t_tokens d) (t_pins d) (t_protected d) (t_events d) (t_events_seq d) (t_parents d) (t_rate d) (t_knobs d) (t_failpoints d).
Definition on_packs (f : gmap string PackSql -> gmap string PackSql) (d : Db) : Db :=
  mkDb (t_meta d) (t_refs d) (t_reflog d) (t_pushes d) (f (t_packs d)) (t_objects d) (t_jobs d) (t_jobs_seq d) (t_marked d) (t_frontier d) (t_seen d) (t_parts d) (t_tail d) (t_pending d) (t_pending_seq d) (t_tokens d) (t_pins d) (t_protected d) (t_events d) (t_events_seq d) (t_parents d) (t_rate d) (t_knobs d) (t_failpoints d).
Definition on_objects (f : gmap (string * string) ObjSql -> gmap (string * string) ObjSql) (d : Db) : Db :=
  mkDb (t_meta d) (t_refs d) (t_reflog d) (t_pushes d) (t_packs d) (f (t_objects d)) (t_jobs d) (t_jobs_seq d) (t_marked d) (t_frontier d) (t_seen d) (t_parts d) (t_tail d) (t_pending d) (t_pending_seq d) (t_tokens d) (t_pins d) (t_protected d) (t_events d) (t_events_seq d) (t_parents d) (t_rate d) (t_knobs d) (t_failpoints d).
Definition on_jobs (f : list JobSql -> list JobSql) (d : Db) : Db :=
  mkDb (t_meta d) (t_refs d) (t_reflog d) (t_pushes d) (t_packs d) (t_objects d) (f (t_jobs d)) (t_jobs_seq d) (t_marked d) (t_frontier d) (t_seen d) (t_parts d) (t_tail d) (t_pending d) (t_pending_seq d) (t_tokens d) (t_pins d) (t_protected d) (t_events d) (t_events_seq d) (t_parents d) (t_rate d) (t_knobs d) (t_failpoints d).
Definition on_jobs_seq (f : Z -> Z) (d : Db) : Db :=
  mkDb (t_meta d) (t_refs d) (t_reflog d) (t_pushes d) (t_packs d) (t_objects d) (t_jobs d) (f (t_jobs_seq d)) (t_marked d) (t_frontier d) (t_seen d) (t_parts d) (t_tail d) (t_pending d) (t_pending_seq d) (t_tokens d) (t_pins d) (t_protected d) (t_events d) (t_events_seq d) (t_parents d) (t_rate d) (t_knobs d) (t_failpoints d).
Definition on_marked (f : gmap string MarkedSql -> gmap string MarkedSql) (d : Db) : Db :=
  mkDb (t_meta d) (t_refs d) (t_reflog d) (t_pushes d) (t_packs d) (t_objects d) (t_jobs d) (t_jobs_seq d) (f (t_marked d)) (t_frontier d) (t_seen d) (t_parts d) (t_tail d) (t_pending d) (t_pending_seq d) (t_tokens d) (t_pins d) (t_protected d) (t_events d) (t_events_seq d) (t_parents d) (t_rate d) (t_knobs d) (t_failpoints d).
Definition on_frontier (f : gmap string Z -> gmap string Z) (d : Db) : Db :=
  mkDb (t_meta d) (t_refs d) (t_reflog d) (t_pushes d) (t_packs d) (t_objects d) (t_jobs d) (t_jobs_seq d) (t_marked d) (f (t_frontier d)) (t_seen d) (t_parts d) (t_tail d) (t_pending d) (t_pending_seq d) (t_tokens d) (t_pins d) (t_protected d) (t_events d) (t_events_seq d) (t_parents d) (t_rate d) (t_knobs d) (t_failpoints d).
Definition on_seen (f : gset string -> gset string) (d : Db) : Db :=
  mkDb (t_meta d) (t_refs d) (t_reflog d) (t_pushes d) (t_packs d) (t_objects d) (t_jobs d) (t_jobs_seq d) (t_marked d) (t_frontier d) (f (t_seen d)) (t_parts d) (t_tail d) (t_pending d) (t_pending_seq d) (t_tokens d) (t_pins d) (t_protected d) (t_events d) (t_events_seq d) (t_parents d) (t_rate d) (t_knobs d) (t_failpoints d).
Definition on_parts (f : gmap Z string -> gmap Z string) (d : Db) : Db :=
  mkDb (t_meta d) (t_refs d) (t_reflog d) (t_pushes d) (t_packs d) (t_objects d) (t_jobs d) (t_jobs_seq d) (t_marked d) (t_frontier d) (t_seen d) (f (t_parts d)) (t_tail d) (t_pending d) (t_pending_seq d) (t_tokens d) (t_pins d) (t_protected d) (t_events d) (t_events_seq d) (t_parents d) (t_rate d) (t_knobs d) (t_failpoints d).
Definition on_tail (f : gmap Z (list Z) -> gmap Z (list Z)) (d : Db) : Db :=
  mkDb (t_meta d) (t_refs d) (t_reflog d) (t_pushes d) (t_packs d) (t_objects d) (t_jobs d) (t_jobs_seq d) (t_marked d) (t_frontier d) (t_seen d) (t_parts d) (f (t_tail d)) (t_pending d) (t_pending_seq d) (t_tokens d) (t_pins d) (t_protected d) (t_events d) (t_events_seq d) (t_parents d) (t_rate d) (t_knobs d) (t_failpoints d).
Definition on_pending (f : list PendingSql -> list PendingSql) (d : Db) : Db :=
  mkDb (t_meta d) (t_refs d) (t_reflog d) (t_pushes d) (t_packs d) (t_objects d) (t_jobs d) (t_jobs_seq d) (t_marked d) (t_frontier d) (t_seen d) (t_parts d) (t_tail d) (f (t_pending d)) (t_pending_seq d) (t_tokens d) (t_pins d) (t_protected d) (t_events d) (t_events_seq d) (t_parents d) (t_rate d) (t_knobs d) (t_failpoints d).
Definition on_pending_seq (f : Z -> Z) (d : Db) : Db :=
  mkDb (t_meta d) (t_refs d) (t_reflog d) (t_pushes d) (t_packs d) (t_objects d) (t_jobs d) (t_jobs_seq d) (t_marked d) (t_frontier d) (t_seen d) (t_parts d) (t_tail d) (t_pending d) (f (t_pending_seq d)) (t_tokens d) (t_pins d) (t_protected d) (t_events d) (t_events_seq d) (t_parents d) (t_rate d) (t_knobs d) (t_failpoints d).
Definition on_tokens (f : gmap string TokenSql -> gmap string TokenSql) (d : Db) : Db :=
  mkDb (t_meta d) (t_refs d) (t_reflog d) (t_pushes d) (t_packs d) (t_objects d) (t_jobs d) (t_jobs_seq d) (t_marked d) (t_frontier d) (t_seen d) (t_parts d) (t_tail d) (t_pending d) (t_pending_seq d) (f (t_tokens d)) (t_pins d) (t_protected d) (t_events d) (t_events_seq d) (t_parents d) (t_rate d) (t_knobs d) (t_failpoints d).
Definition on_pins (f : gmap string PinSql -> gmap string PinSql) (d : Db) : Db :=
  mkDb (t_meta d) (t_refs d) (t_reflog d) (t_pushes d) (t_packs d) (t_objects d) (t_jobs d) (t_jobs_seq d) (t_marked d) (t_frontier d) (t_seen d) (t_parts d) (t_tail d) (t_pending d) (t_pending_seq d) (t_tokens d) (f (t_pins d)) (t_protected d) (t_events d) (t_events_seq d) (t_parents d) (t_rate d) (t_knobs d) (t_failpoints d).
Definition on_protected (f : gmap string Z -> gmap string Z) (d : Db) : Db :=
  mkDb (t_meta d) (t_refs d) (t_reflog d) (t_pushes d) (t_packs d) (t_objects d) (t_jobs d) (t_jobs_seq d) (t_marked d) (t_frontier d) (t_seen d) (t_parts d) (t_tail d) (t_pending d) (t_pending_seq d) (t_tokens d) (t_pins d) (f (t_protected d)) (t_events d) (t_events_seq d) (t_parents d) (t_rate d) (t_knobs d) (t_failpoints d).
Definition on_events (f : list EventSql -> list EventSql) (d : Db) : Db :=
  mkDb (t_meta d) (t_refs d) (t_reflog d) (t_pushes d) (t_packs d) (t_objects d) (t_jobs d) (t_jobs_seq d) (t_marked d) (t_frontier d) (t_seen d) (t_parts d) (t_tail d) (t_pending d) (t_pending_seq d) (t_tokens d) (t_pins d) (t_protected d) (f (t_events d)) (t_events_seq d) (t_parents d) (t_rate d) (t_knobs d) (t_failpoints d).
Definition on_events_seq (f : Z -> Z) (d : Db) : Db :=
  mkDb (t_meta d) (t_refs d) (t_reflog d) (t_pushes d) (t_packs d) (t_objects d) (t_jobs d) (t_jobs_seq d) (t_marked d) (t_frontier d) (t_seen d) (t_parts d) (t_tail d) (t_pending d) (t_pending_seq d) (t_tokens d) (t_pins d) (t_protected d) (t_events d) (f (t_events_seq d)) (t_parents d) (t_rate d) (t_knobs d) (t_failpoints d).
Definition on_parents (f : gmap (string * Z) (option string) -> gmap (string * Z) (option string)) (d : Db) : Db :=
  mkDb (t_meta d) (t_refs d) (t_reflog d) (t_pushes d) (t_packs d) (t_objects d) (t_jobs d) (t_jobs_seq d) (t_marked d) (t_frontier d) (t_seen d) (t_parts d) (t_tail d) (t_pending d) (t_pending_seq d) (t_tokens d) (t_pins d) (t_protected d) (t_events d) (t_events_seq d) (f (t_parents d)) (t_rate d) (t_knobs d) (t_failpoints d).
Definition on_rate (f : gmap (string * Z) Z -> gmap (string * Z) Z) (d : Db) : Db :=
  mkDb (t_meta d) (t_refs d) (t_reflog d) (t_pushes d) (t_packs d) (t_objects d) (t_jobs d) (t_jobs_seq d) (t_marked d) (t_frontier d) (t_seen d) (t_parts d) (t_tail d) (t_pending d) (t_pending_seq d) (t_tokens d) (t_pins d) (t_protected d) (t_events d) (t_events_seq d) (t_parents d) (f (t_rate d)) (t_knobs d) (t_failpoints d).
Definition on_knobs (f : gmap string Z -> gmap string Z) (d : Db) : Db :=
  mkDb (t_meta d) (t_refs d) (t_reflog d) (t_pushes d) (t_packs d) (t_objects d) (t_jobs d) (t_jobs_seq d) (t_marked d) (t_frontier d) (t_seen d) (t_parts d) (t_tail d) (t_pending d) (t_pending_seq d) (t_tokens d) (t_pins d) (t_protected d) (t_events d) (t_events_seq d) (t_parents d) (t_rate d) (f (t_knobs d)) (t_failpoints d).
Definition on_failpoints (f : gmap string (string * Z) -> gmap string (string * Z)) (d : Db) : Db :=
  mkDb (t_meta d) (t_refs d) (t_reflog d) (t_pushes d) (t_packs d) (t_objects d) (t_jobs d) (t_jobs_seq d) (t_marked d) (t_frontier d) (t_seen d) (t_parts d) (t_tail d) (t_pending d) (t_pending_seq d) (t_tokens d) (t_pins d) (t_protected d) (t_events d) (t_events_seq d) (t_parents d) (t_rate d) (t_knobs d) (f (t_failpoints d)).

Abbreviation DoM := (M Db Error).
Lemma bind_run {A B} (m : DoM A) (f : A -> DoM B) d d1 a :
  m d = (d1, Ok a) -> (m ≫= f) d = f a d1.
Proof. intros E. unfold mbind, M_bind. by rewrite E. Qed.

(** ** The platform and third-party code the handlers call

    [env_var] and [env_secret] are the deployment's configuration; [oid_from_hex]
    is gix_hash's hex parser followed by its canonical hex text; [gix_name] and
    [gix_name_partial] are gix_validate's reference-name checks; [token_hash] is
    the hex SHA-1 of a token; [json_chain] is SQLite's
    [json_extract(payload,'$.chain')]; [quarantine_parse] and [quarantine_encode]
    are serde_json on the strike map, [json_retire_ids] serde_json on a retire
    intent (its pack ids), [json_job_chain] serde_json on a job payload. *)
Class Platform : Type := {
  env_var : string -> option string;
  env_secret : string -> option string;
  oid_from_hex : string -> option string;
  gix_name : string -> bool;
  gix_name_partial : string -> bool;
  token_hash : string -> string;
  json_chain : string -> option string;
  quarantine_parse : string -> option (list (string * Z));
  quarantine_encode : list (string * Z) -> string;
  json_retire_ids : string -> option (list string);
  json_job_chain : string -> option string
}.
(** serde_json reads back the strike map it wrote. *)
Class QuarantineLaw `{Platform} : Prop :=
  quarantine_roundtrip : forall q, Forall (fun e => in_i64 e.2) q ->
    quarantine_parse (quarantine_encode q) = Some q.

Section Store.
Context `{Platform}.

(** ** env knobs and test hooks *)

Definition env_i64 (name : string) (default : Z) : Z :=
  match env_var name with
  | Some v => unwrap_or default (parse_i64 v)
  | None => default
  end.
Definition flag_on (v : option string) : bool :=
  match v with Some s => String.eqb s "1" | None => false end.
Definition hooks_enabled : bool := flag_on (env_var "GE_TEST_HOOKS").

Definition knob (d : Db) (name : string) : option Z :=
  if hooks_enabled then t_knobs d !! name else None.

Definition CRASH_MARK : string := "failpoint-crash:".
Definition failpoint (name : string) : DoM unit := fun d =>
  if negb hooks_enabled then (d, Ok tt)
  else match t_failpoints d !! name with
       | Some (action, remaining) =>
           if negb (String.eqb action "pause") && (0 <? remaining) then
             let d' := on_failpoints (insert name (action, remaining - 1)) d in
             if String.eqb action "crash" then (d', Err (Internal (CRASH_MARK +:+ name)))
             else (d', Err (Internal ("failpoint " +:+ name)))
           else (d, Ok tt)
       | None => (d, Ok tt)
       end.
Definition is_crash (e : Error) : bool :=
  match e with Internal m => starts_with CRASH_MARK m | _ => false end.

(** ** meta *)

Definition meta_opt (key : string) : DoM (option string) := gets (fun d => t_meta d !! key).
Definition meta (key : string) : DoM string :=
  fun d => (d, of_option (Storage ("meta." +:+ key +:+ " missing")) (t_meta d !! key)).
Definition meta_i64 (key : string) : DoM Z :=
  v ← meta key;
  lift (of_option (Internal ("meta." +:+ key)) (parse_i64 v)).
(** [INSERT … ON CONFLICT(key) DO UPDATE]; [… DO NOTHING]; [DELETE]. *)
Definition put (k v : string) : DoM unit := modify (on_meta (insert k v)).
Definition meta_insert_ignore (k v : string) (d : Db) : Db :=
  match t_meta d !! k with Some _ => d | None => on_meta (insert k v) d end.
Definition meta_delete (k : string) (d : Db) : Db := on_meta (delete k) d.
(** [UPDATE meta SET value=value+1 WHERE key=?] *)
Definition meta_incr (k : string) (d : Db) : Db :=
  on_meta (alter (fun v => z_to_string (sql_int v + 1)) k) d.
(** [DELETE FROM meta WHERE key LIKE 'gc.%'] — SQLite's LIKE ignores ASCII case. *)
Definition is_gc_key (k : string) : bool := starts_with "gc." (str_map to_lower k).
Definition wipe_gc_meta (d : Db) : Db :=
  on_meta (filter (fun kv => is_gc_key kv.1 = false)) d.
(** [gc::SCRATCH_TABLES], each emptied. *)
Definition wipe_scratch (d : Db) : Db :=
  on_pending (fun _ => []) (on_tail (fun _ => ∅) (on_parts (fun _ => ∅)
    (on_seen (fun _ => ∅) (on_frontier (fun _ => ∅) (on_marked (fun _ => ∅) d))))).

Definition meta_is (d : Db) (k v : string) : bool :=
  match t_meta d !! k with Some x => String.eqb x v | None => false end.

Definition gc_quiet_ms : Z := env_i64 "GE_GC_QUIET_MS" 600000.
Definition gc_grace_ms : Z := env_i64 "GE_GC_GRACE_MS" 3600000.

(** ** Counting and selecting *)

Definition count_packs (p : string -> PackSql -> bool) (d : Db) : Z :=
  Z.of_nat (length (List.filter (fun kv => p kv.1 kv.2) (map_to_list (t_packs d)))).
Definition pack_live (d : Db) (id : string) : bool :=
  match t_packs d !! id with Some r => bool_decide (pk_state r = Live) | None => false end.

(** ** The object index (store::Index)

    An [ObjectId] is its canonical hex text; the null id is all zeros. *)
Definition oid (hex : string) : result Error string :=
  of_option (Protocol "bad object id") (oid_from_hex hex).
Definition is_null (o : string) : bool := str_all (Ascii.eqb "0") o.

Inductive Kind : Type := Commit | Tree | Blob | Tag.
#[global] Instance Kind_eq_dec : EqDecision Kind.
Proof. solve_decision. Defined.
Definition git_kind (k : Kind) : Z :=
  match k with Commit => 1 | Tree => 2 | Blob => 3 | Tag => 4 end.
Definition kind_of (k : Z) : result Error Kind :=
  match k with
  | 1 => Ok Commit | 2 => Ok Tree | 3 => Ok Blob | 4 => Ok Tag
  | _ => Err (Internal ("bad kind " +:+ z_to_string k +:+ " in objects"))
  end.

Record ObjLoc : Type := mkLoc {
  lc_pack : string; lc_idx : Z; lc_offset : Z; lc_len : Z; lc_kind : Kind; lc_size : Z }.
Record ObjRow : Type := mkObjRow {
  or_sha : string; or_idx : Z; or_offset : Z; or_len : Z; or_kind : Kind; or_size : Z;
  or_parents : option (list string) }.

Definition row_loc (pack : string) (r : ObjSql) : result Error ObjLoc :=
  match kind_of (ob_kind r) with
  | Ok k => Ok (mkLoc pack (ob_idx r) (ob_offset r) (ob_len r) k (ob_size r))
  | Err e => Err e
  end.
(** The rows [SELECT … FROM objects o JOIN packs p … WHERE o.sha=? AND
    p.state='live'] yields; GROUP BY keeps one of them.  Which one is SQLite's choice;
    here it is the first of the map's order. *)
Definition live_rows (d : Db) (sha : string) : list ((string * string) * ObjSql) :=
  List.filter (fun kv => String.eqb kv.1.1 sha && pack_live d kv.1.2) (map_to_list (t_objects d)).
Definition lookup_one (d : Db) (sha : string) : result Error (option ObjLoc) :=
  match live_rows d sha with
  | [] => Ok None
  | kv :: _ => match row_loc kv.1.2 kv.2 with Ok l => Ok (Some l) | Err e => Err e end
  end.
Definition index_lookup (ids : list string) : DoM (list (option ObjLoc)) :=
  fun d => (d, collect (lookup_one d) ids).
Definition lookup_in_pack (id pack : string) : DoM (option ObjLoc) := gets (fun d =>
  match t_objects d !! (id, pack) with
  | Some r => Some (mkLoc pack (ob_idx r) (ob_offset r) (ob_len r)
                      (match kind_of (ob_kind r) with Ok k => k | Err _ => Blob end) (ob_size r))
  | None => None
  end).

Definition insert_parent (sha : string) (n : Z) (p : option string) (d : Db) : Db :=
  match t_parents d !! (sha, n) with
  | Some _ => d
  | None => on_parents (insert (sha, n) p) d
  end.
Fixpoint insert_parents (sha : string) (n : Z) (ps : list string) (d : Db) : Db :=
  match ps with
  | [] => d
  | p :: ps' => insert_parents sha (n + 1) ps' (insert_parent sha n (Some p) d)
  end.
(** [i(n)]: u64 to i64, Internal past the range. *)
Definition to_i64 (n : Z) : result Error Z :=
  if n <=? i64_max then Ok n else Err (Internal "u64 to i64").
Definition insert_object (pack : string) (r : ObjRow) : DoM unit :=
  off ← lift (to_i64 (or_offset r));
  size ← lift (to_i64 (or_size r));
  modify (fun d =>
    let d1 := match t_objects d !! (or_sha r, pack) with
              | Some _ => d
              | None => on_objects (insert (or_sha r, pack)
                          (mkObj (or_idx r) off (or_len r) (git_kind (or_kind r)) size)) d
              end in
    match or_kind r, or_parents r with
    | Commit, Some ps => insert_parents (or_sha r) 0 ps (insert_parent (or_sha r) (-1) None d1)
    | _, _ => d1
    end).
Definition insert_objects (pack : string) (rows : list ObjRow) : DoM unit :=
  if 10000 <? Z.of_nat (length rows) then fail (Protocol "more than 10,000 rows")
  else for_each rows (insert_object pack).
Definition set_pack_state (pack : string) (st : PackState) : DoM unit :=
  modify (on_packs (alter (fun r => mkPack st (pk_count r) (pk_bytes r) (pk_lo r) (pk_hi r)
                                      (pk_push r) (pk_created r) (pk_dead_at r)) pack)).
End Store.

(** ** A concrete platform

    Used to run the model on concrete inputs: no configuration, ids of 40 hex
    digits, every name valid, the chain id read back from [{"chain":"…"}]. *)
Definition demo_chain_open : string := "{" +:+ dq +:+ "chain" +:+ dq +:+ ":" +:+ dq.
Definition demo_json_chain (s : string) : option string :=
  match strip_prefix demo_chain_open s with
  | Some r => strip_suffix (dq +:+ "}") r
  | None => None
  end.
Definition demo_encode (q : list (string * Z)) : string := z_to_string (Z.pos (encode q)).
Definition demo_parse (s : string) : option (list (string * Z)) :=
  match parse_signed s with Some (Z.pos p) => decode p | _ => None end.
Definition demo_env (env : string -> option string) : Platform := {|
  env_var := env;
  env_secret := fun _ => None;
  oid_from_hex := fun s => if (String.length s =? 40)%nat && str_all is_hexdigit s
                           then Some (str_map to_lower s) else None;
  gix_name := fun s => negb (str_empty s);
  gix_name_partial := fun s => negb (str_empty s);
  token_hash := fun s => "hash-" +:+ s;
  json_chain := demo_json_chain;
  quarantine_parse := demo_parse;
  quarantine_encode := demo_encode;
  json_retire_ids := fun _ => None;
  json_job_chain := demo_json_chain
|}.
Definition demo_platform : Platform := demo_env (fun _ => None).
Lemma demo_quarantine : @QuarantineLaw demo_platform.
Proof.
  intros q _. simpl. unfold demo_parse, demo_encode. rewrite parse_signed_to_string.
  apply decode_encode.
Qed.
