(* ===== verification/Scope.v ===== *)
(** * Ref scopes, credentials and protected refs: the pure access rules

    The rule functions of [server/src/repo_do/mod.rs] that decide who may move
    which ref: [scope_pattern_ok], [scope_allows], [mint_scope], [mint_expiry],
    [token_live], [push_scope], [commit_auth] and [protected_verdict]. *)
From S2P Require Import Prelude Errors Db.
Open Scope Z_scope.

Definition ALL_REFS : string := "refs/*".
Definition ADMIN_AUTH : string := "admin".
Definition TOKEN_INVALID : string := "token no longer valid".
Definition MAX_TOKEN_TTL_S : Z := 366 * 24 * 3600.

(** [o.map(str::trim).filter(|s| !s.is_empty())] *)
Definition nonblank (o : option string) : option string :=
  match o with
  | Some s => if str_empty (trim s) then None else Some (trim s)
  | None => None
  end.

Section Rules.
Context `{Platform}.

Definition valid_ref (name : string) : bool := starts_with "refs/" name && gix_name name.

Definition scope_pattern_ok (p0 : string) : bool :=
  let p := unwrap_or p0 (strip_suffix "*" p0) in
  if negb (starts_with "refs/" p) || contains_char "*" p then false
  else
    let name := unwrap_or p (strip_suffix "/" p) in
    negb (str_empty name) && gix_name_partial name.

(** One pattern covers a name: exact match, or prefix when it ends in [*]. *)
Definition pattern_covers (p name : string) : bool :=
  match strip_suffix "*" p with
  | Some prefix => starts_with prefix name
  | None => String.eqb name p
  end.
Definition scope_allows (scope : option string) (name : string) : bool :=
  match nonblank scope with
  | None => false
  | Some s =>
      existsb (fun p => pattern_covers p name)
        (List.filter (fun p => negb (str_empty p)) (map trim (split_on "," s)))
  end.

Definition mint_scope (scope : option string) : result Error string :=
  match nonblank scope with
  | None => Ok ALL_REFS
  | Some s =>
      if (256 <? str_len s) || existsb (fun p => negb (scope_pattern_ok p)) (map trim (split_on "," s))
      then Err (Protocol "scope must be <=256 bytes of refs/… patterns (trailing * only)")
      else Ok s
  end.

Definition token_live (expires_at : option Z) (now : Z) : bool :=
  match expires_at with None => true | Some e => now <? e end.
Definition mint_expiry (ttl_s : option Z) (now : Z) : result Error (option Z) :=
  match ttl_s with
  | None => Ok None
  | Some t =>
      if (1 <=? t) && (t <=? MAX_TOKEN_TTL_S) then Ok (Some (add64 now (wrap64 (t * 1000))))
      else Err (Protocol ("ttl_s must be 1..=" +:+ z_to_string MAX_TOKEN_TTL_S))
  end.

(** [row] is the presenting token's (level, scope). *)
Definition push_scope (admin : bool) (key : string) (row : option (string * option string))
  : result Error string :=
  if admin then Ok ALL_REFS
  else if str_empty key then Err Auth
  else match row with
       | None => Err Auth
       | Some (level, scope) =>
           if negb (String.eqb level "write") then Err Forbidden
           else of_option Forbidden (nonblank scope)
       end.

Definition commit_auth (auth : option string) (row : option (string * option string))
  : result string (option string) :=
  match nonblank auth with
  | None => Err TOKEN_INVALID
  | Some a =>
      if String.eqb a ADMIN_AUTH then Ok None
      else match row with
           | None => Err TOKEN_INVALID
           | Some (level, scope) =>
               if negb (String.eqb level "write") then Err TOKEN_INVALID
               else match nonblank scope with
                    | Some s => Ok (Some s)
                    | None => Err TOKEN_INVALID
                    end
           end
  end.

Definition protected_verdict (old_null new_null : bool) (ff : option bool) : option string :=
  if new_null then Some "protected ref: deletion refused"
  else if old_null then None
  else match ff with
       | Some true => None
       | Some false => Some "protected ref: non-fast-forward"
       | None => Some "protected ref: cannot prove fast-forward"
       end.

End Rules.

(** ** [trim] is idempotent *)

Lemma strip_any_some ps s r :
  strip_any ps s = Some r -> exists p, In p ps /\ s = p +:+ r.
Proof.
  induction ps as [|p ps IH]; simpl; [done|].
  destruct (strip_prefix p s) as [x|] eqn:E; intros H.
  - simplify_eq. apply strip_prefix_spec in E. eauto.
  - destruct (IH H) as (q & ? & ?). eauto.
Qed.
Lemma strip_any_none ps s :
  strip_any ps s = None <-> forall p, In p ps -> starts_with p s = false.
Proof.
  induction ps as [|p ps IH]; simpl; [done|]. unfold starts_with.
  destruct (strip_prefix p s) as [x|] eqn:E.
  - split; [done|]. intros H. specialize (H p (or_introl eq_refl)). by rewrite E in H.
  - rewrite IH. split; [|eauto]. intros H q [<-|Hq]; [by rewrite E|by apply H].
Qed.
Lemma starts_with_app p a b : starts_with p a = true -> starts_with p (a +:+ b) = true.
Proof.
  rewrite !starts_with_spec. intros [r ->]. exists (r +:+ b). by rewrite app_assoc_s.
Qed.

Lemma trim_fuel_none n ps s :
  Forall (fun p => p <> "") ps -> (String.length s <= n)%nat ->
  strip_any ps (trim_start_fuel n ps s) = None.
Proof.
  intros Hne. revert s; induction n as [|n IH]; intros s Hl.
  - destruct s; [|simpl in Hl; lia]. simpl. apply strip_any_none. intros p Hp.
    rewrite Forall_forall in Hne. apply list_elem_of_In, Hne in Hp. by destruct p.
  - simpl. destruct (strip_any ps s) as [r|] eqn:E; [|done]. apply IH.
    apply strip_any_some in E as (p & Hp & ->). rewrite Forall_forall in Hne.
    apply list_elem_of_In, Hne in Hp. rewrite length_app_s in Hl.
    destruct p; [done|]. simpl in Hl. lia.
Qed.
Lemma trim_with_none ps s : Forall (fun p => p <> "") ps -> strip_any ps (trim_with ps s) = None.
Proof. intros. by apply trim_fuel_none. Qed.
Lemma trim_with_id ps s : strip_any ps s = None -> trim_with ps s = s.
Proof. unfold trim_with. destruct (String.length s); simpl; [done|]. by intros ->. Qed.
Lemma trim_fuel_suffix n ps s : exists a, s = a +:+ trim_start_fuel n ps s.
Proof.
  revert s; induction n as [|n IH]; intros s; simpl; [by exists ""|].
  destruct (strip_any ps s) as [r|] eqn:E; [|by exists ""].
  apply strip_any_some in E as (p & _ & ->). destruct (IH r) as [a Ha].
  exists (p +:+ a). by rewrite app_assoc_s, <- Ha.
Qed.

Lemma white_space_nonempty : Forall (fun p => p <> "") white_space.
Proof. vm_compute. repeat constructor; discriminate. Qed.
Lemma white_space_rev_nonempty : Forall (fun p => p <> "") (map String.rev white_space).
Proof. vm_compute. repeat constructor; discriminate. Qed.

Lemma trim_end_prefix s : exists b, s = trim_end s +:+ b.
Proof.
  unfold trim_end. destruct (trim_fuel_suffix (String.length (String.rev s))
    (map String.rev white_space) (String.rev s)) as [a Ha].
  exists (String.rev a). apply (f_equal String.rev) in Ha.
  rewrite rev_involutive_s, rev_app_distr_s in Ha. exact Ha.
Qed.
Lemma trim_idem s : trim (trim s) = trim s.
Proof.
  unfold trim. set (a := trim_start s).
  assert (strip_any white_space a = None) as Ha by apply trim_with_none, white_space_nonempty.
  destruct (trim_end_prefix a) as [b Hb].
  assert (strip_any white_space (trim_end a) = None) as Hs.
  { apply strip_any_none. intros p Hp. destruct (starts_with p (trim_end a)) eqn:E; [|done].
    apply (starts_with_app p _ b) in E. rewrite <- Hb in E.
    rewrite strip_any_none in Ha. rewrite Ha in E; done. }
  unfold trim_start at 1. rewrite trim_with_id by exact Hs.
  unfold trim_end. rewrite rev_involutive_s, (trim_with_id _ (trim_with _ _)); [done|].
  apply trim_with_none, white_space_rev_nonempty.
Qed.

(** ** What a scope grants *)

Lemma nonblank_some o s : nonblank o = Some s -> exists s0, o = Some s0 /\ s = trim s0 /\ s <> "".
Proof.
  unfold nonblank. destruct o as [s0|]; [|done]. destruct (str_empty (trim s0)) eqn:E; [done|].
  intros; simplify_eq. exists s0. split; [done|]. split; [done|]. by apply String.eqb_neq in E.
Qed.
Lemma nonblank_trimmed o s : nonblank o = Some s -> nonblank (Some s) = Some s.
Proof.
  intros (s0 & -> & -> & Hne)%nonblank_some. unfold nonblank. rewrite trim_idem.
  unfold str_empty. apply String.eqb_neq in Hne. by rewrite Hne.
Qed.

Lemma pattern_covers_spec p name :
  pattern_covers p name = true <->
  (exists pre r, p = pre +:+ "*" /\ name = pre +:+ r) \/
  ((forall pre, p <> pre +:+ "*") /\ name = p).
Proof.
  unfold pattern_covers. destruct (strip_suffix "*" p) as [pre|] eqn:E.
  - apply strip_suffix_spec in E as ->. rewrite starts_with_spec. split.
    + intros [r ->]. left. by exists pre, r.
    + intros [(pre' & r & Heq & ->)|[Hn ->]].
      * assert (Some pre = Some pre') as [=<-]; [|by exists r].
        rewrite <- (proj2 (strip_suffix_spec "*" (pre +:+ "*") pre) eq_refl).
        by apply strip_suffix_spec.
      * by destruct (Hn pre).
  - assert (forall pre, p <> pre +:+ "*") as Hn.
    { intros pre Hp. apply strip_suffix_spec in Hp. congruence. }
    rewrite String.eqb_eq. split; [by right|]. intros [(pre & r & -> & _)|[_ ->]]; [by destruct (Hn pre)|done].
Qed.

Section ScopeFacts.
Context `{Platform}.

(** A scope grants a name exactly when it is non-blank and one of its comma
    patterns is the name itself or a prefix of it written with a final star. *)
Theorem scope_allows_spec (scope : option string) (name : string) :
  scope_allows scope name = true <->
  exists s p, nonblank scope = Some s /\ In p (map trim (split_on "," s)) /\ p <> ""
    /\ ((exists pre r, p = pre +:+ "*" /\ name = pre +:+ r) \/
        ((forall pre, p <> pre +:+ "*") /\ name = p)).
Proof.
  unfold scope_allows. destruct (nonblank scope) as [s|] eqn:E.
  - rewrite existsb_exists. split.
    + intros (p & Hp & Hc). apply filter_In in Hp as [Hp Hne]. bsimp.
      apply String.eqb_neq in Hne. exists s, p. by rewrite <- pattern_covers_spec.
    + intros (s' & p & Hs & Hp & Hne & Hc). simplify_eq. exists p.
      rewrite filter_In, pattern_covers_spec. apply String.eqb_neq in Hne.
      unfold str_empty. by rewrite Hne.
  - split; [done|]. by intros (? & ? & ? & _).
Qed.

Lemma pattern_ok_refs p name :
  scope_pattern_ok p = true -> pattern_covers p name = true -> starts_with "refs/" name = true.
Proof.
  unfold scope_pattern_ok, pattern_covers.
  destruct (strip_suffix "*" p) as [pre|] eqn:E; simpl;
    destruct (starts_with "refs/" _) eqn:E2; simpl; try done; intros _ Hc.
  - apply starts_with_spec in E2 as [r ->]. apply starts_with_spec in Hc as [r' ->].
    apply starts_with_spec. exists (r +:+ r'). by rewrite app_assoc_s.
  - apply String.eqb_eq in Hc. by subst.
Qed.

(** Minting: the stored scope is never blank, so a missing or blank scope at
    check time can only deny, and it never reaches a name outside refs/. *)
Theorem mint_scope_sound (scope : option string) (s : string) :
  mint_scope scope = Ok s ->
  nonblank (Some s) = Some s
  /\ (forall name, scope_allows (Some s) name = true -> starts_with "refs/" name = true)
  /\ (nonblank scope = None -> forall name, scope_allows (Some s) name = starts_with "refs/" name)
  /\ scope_allows None s = false.
Proof.
  unfold mint_scope. destruct (nonblank scope) as [s0|] eqn:E.
  - destruct (_ || _) eqn:Eb; [done|]. intros; simplify_eq. bsimp.
    pose proof (nonblank_trimmed _ _ E) as Hnb.
    split; [done|]. split; [|done].
    intros name. unfold scope_allows. rewrite Hnb, existsb_exists.
    intros (p & Hp & Hc). apply filter_In in Hp as [Hp _].
    eapply pattern_ok_refs; [|exact Hc].
    destruct (scope_pattern_ok p) eqn:Ep; [done|].
    assert (existsb (fun p => negb (scope_pattern_ok p)) (map trim (split_on "," s)) = true) as Hx;
      [|congruence].
    apply existsb_exists. exists p. by rewrite Ep.
  - intros; simplify_eq.
    assert (forall name, scope_allows (Some ALL_REFS) name = starts_with "refs/" name) as Hall.
    { intros name. unfold scope_allows.
      replace (nonblank (Some ALL_REFS)) with (Some ALL_REFS) by (vm_compute; done).
      replace (List.filter (fun p => negb (str_empty p)) (map trim (split_on "," ALL_REFS)))
        with [ALL_REFS] by (vm_compute; done).
      simpl. rewrite orb_false_r. unfold pattern_covers.
      by replace (strip_suffix "*" ALL_REFS) with (Some "refs/") by (vm_compute; done). }
    split; [vm_compute; done|]. split; [intros name; by rewrite Hall|]. done.
Qed.

(** Begin and commit fail closed: only the deployment admin, or a token that
    still exists, is write-level and carries a non-blank scope, passes — and the
    scope handed on is that token's own. *)
Theorem credential_gates_fail_closed
    (admin : bool) (key : string) (auth : option string) (row : option (string * option string)) :
  (forall s, push_scope admin key row = Ok s ->
     (admin = true /\ s = ALL_REFS) \/
     (admin = false /\ key <> "" /\ exists sc, row = Some ("write", sc) /\ nonblank sc = Some s))
  /\ (forall r, commit_auth auth row = Ok r ->
     (nonblank auth = Some ADMIN_AUTH /\ r = None) \/
     (exists a sc s, nonblank auth = Some a /\ a <> ADMIN_AUTH /\ row = Some ("write", sc)
        /\ nonblank sc = Some s /\ r = Some s)).
Proof.
  split.
  - intros s. unfold push_scope. destruct admin; [intros; simplify_eq; by left|].
    destruct (str_empty key) eqn:Ek; [done|]. destruct row as [[level sc]|]; [|done].
    destruct (String.eqb_spec level "write") as [->|]; [|done]. simpl.
    destruct (nonblank sc) eqn:En; [|done]. simpl. intros; simplify_eq. right.
    split; [done|]. split; [by apply String.eqb_neq|]. eauto.
  - intros r. unfold commit_auth. destruct (nonblank auth) as [a|] eqn:Ea; [|done].
    destruct (String.eqb_spec a ADMIN_AUTH) as [->|Hn]; [intros; simplify_eq; by left|].
    destruct row as [[level sc]|]; [|done].
    destruct (String.eqb_spec level "write") as [->|]; [|done]. simpl.
    destruct (nonblank sc) eqn:En; [|done]. intros; simplify_eq. right. eauto 10.
Qed.

(** A minted lifetime is never longer than asked: the token is live strictly
    before [now + ttl] seconds and dead from then on. *)
Theorem mint_expiry_exact (ttl now : Z) (r : option Z) :
  mint_expiry (Some ttl) now = Ok r -> 0 <= now < 2 ^ 62 ->
  1 <= ttl <= MAX_TOKEN_TTL_S /\ r = Some (now + ttl * 1000)
  /\ token_live r now = true
  /\ (forall t, token_live r t = true <-> t < now + ttl * 1000).
Proof.
  unfold mint_expiry. destruct ((1 <=? ttl) && (ttl <=? MAX_TOKEN_TTL_S)) eqn:E; [|done].
  intros; simplify_eq. bsimp. unfold add64.
  rewrite !wrap64_id by (unfold in_i64, i64_min, i64_max, MAX_TOKEN_TTL_S in *;
    rewrite ?wrap64_id; unfold in_i64, i64_min, i64_max; lia).
  unfold token_live. rewrite Z.ltb_lt. split; [lia|]. split; [done|]. split; [lia|].
  intros t. by rewrite Z.ltb_lt.
Qed.
End ScopeFacts.
