(* ===== verification/Jobs.v ===== *)
(** * The job queue and its dispatcher

    [server/src/jobs/mod.rs]: the jobs table, [enqueue], the lease fence
    ([heartbeat], [lease_held]), boot [repair], [pick_row], the claim and the
    outcome span of a dispatched slice, and the pack admission cap the outcome
    span consults ([at_pack_cap] of repo_do/mod.rs).  A slice runs between the
    claim and the outcome span, while other spans may interleave: the slice is
    an argument of [dispatch_inner], and [Step] below is the interleaving. *)
From S2P Require Import Prelude Errors Db.
Open Scope Z_scope.

Inductive JobKind : Type :=
| Janitor | GcMark | GcConsolidate | GcSweep | GcCompact | PurgeRepo | ImportPack | PushEvent.
#[global] Instance JobKind_eq_dec : EqDecision JobKind.
Proof. solve_decision. Defined.

Definition as_str (k : JobKind) : string :=
  match k with
  | Janitor => "janitor"
  | GcMark => "gc_mark"
  | GcConsolidate => "gc_consolidate"
  | GcSweep => "gc_sweep"
  | GcCompact => "gc_compact"
  | PurgeRepo => "purge_repo"
  | ImportPack => "import_pack"
  | PushEvent => "push_event"
  end.
Definition kind_of_str (s : string) : result Error JobKind :=
  if String.eqb s "janitor" then Ok Janitor
  else if String.eqb s "gc_mark" then Ok GcMark
  else if String.eqb s "gc_consolidate" then Ok GcConsolidate
  else if String.eqb s "gc_sweep" then Ok GcSweep
  else if String.eqb s "gc_compact" then Ok GcCompact
  else if String.eqb s "purge_repo" then Ok PurgeRepo
  else if String.eqb s "import_pack" then Ok ImportPack
  else if String.eqb s "push_event" then Ok PushEvent
  else Err (Internal ("unknown job kind " +:+ s)).

Record Job : Type := mkJobRec {
  job_id : Z; job_kind : JobKind; job_run_at : Z; job_attempts : Z;
  job_cursor : option string; job_payload : string; job_lease : string }.

Inductive SliceOutcome : Type :=
| Done
| Continue (cursor : string)
| Reschedule (run_at : Z).

Definition in_state (s : JobState) (r : JobSql) : bool := bool_decide (jb_state r = s).
Definition is_kind (k : JobKind) (r : JobSql) : bool := String.eqb (jb_kind r) (as_str k).
Definition active (r : JobSql) : bool := in_state Queued r || in_state Running r.
Definition count_jobs (p : JobSql -> bool) (d : Db) : Z :=
  Z.of_nat (length (List.filter p (t_jobs d))).

(** [UPDATE jobs SET … WHERE p] and [DELETE FROM jobs WHERE p]. *)
Definition update_jobs (p : JobSql -> bool) (f : JobSql -> JobSql) (d : Db) : Db :=
  on_jobs (map (fun r => if p r then f r else r)) d.
Definition delete_jobs (p : JobSql -> bool) (d : Db) : Db :=
  on_jobs (List.filter (fun r => negb (p r))) d.
(** The row a plain INSERT writes: the other columns take their defaults. *)
Definition insert_job (kind : string) (run_at : Z) (payload : string) (cursor : option string) (d : Db) : Db :=
  let id := t_jobs_seq d + 1 in
  on_jobs (fun l => l ++ [mkJob id kind run_at 0 cursor payload Queued None None None 0])
    (on_jobs_seq (fun _ => id) d).

Definition enqueue_db (kind : JobKind) (run_at : Z) (payload : string) (d : Db) : Db :=
  if existsb (fun r => is_kind kind r && in_state Queued r) (t_jobs d) then d
  else insert_job (as_str kind) run_at payload None d.
Definition enqueue (kind : JobKind) (run_at : Z) (payload : string) : DoM unit :=
  modify (enqueue_db kind run_at payload).

(** ** The lease fence *)

Definition holds (id : Z) (lease : string) (r : JobSql) : bool :=
  (jb_id r =? id) && in_state Running r && bool_decide (jb_lease r = Some lease).
Definition set_started (now : Z) (r : JobSql) : JobSql :=
  mkJob (jb_id r) (jb_kind r) (jb_run_at r) (jb_attempts r) (jb_cursor r) (jb_payload r)
    (jb_state r) (jb_error r) (Some now) (jb_lease r) (jb_strands r).
Definition heartbeat (now : Z) (job : Job) : DoM bool := fun d =>
  let p := holds (job_id job) (job_lease job) in
  (update_jobs p (set_started now) d, Ok (count_jobs p d =? 1)).
Definition lease_held (job : Job) : DoM bool :=
  gets (fun d => 0 <? count_jobs (holds (job_id job) (job_lease job)) d).
Definition stale_lease : Error := Internal "stale job lease".

(** ** Selecting the next row *)

Definition before (a b : JobSql) : bool :=
  (jb_run_at a <? jb_run_at b) || ((jb_run_at a =? jb_run_at b) && (jb_id a <? jb_id b)).
(** [ORDER BY run_at, id LIMIT 1] *)
Fixpoint first_row (l : list JobSql) : option JobSql :=
  match l with
  | [] => None
  | r :: l' => match first_row l' with
               | Some r' => if before r' r then Some r' else Some r
               | None => Some r
               end
  end.
Inductive Pick : Type := Due | AnyKind (kind : option JobKind).
Definition pick_row (now : Z) (pick : Pick) (d : Db) : option JobSql :=
  first_row (List.filter (fun r =>
    in_state Queued r &&
    match pick with
    | Due => jb_run_at r <=? now
    | AnyKind None => true
    | AnyKind (Some k) => is_kind k r
    end) (t_jobs d)).

(** [rearm]: the alarm is the least queued [run_at], or cleared. *)
Definition rearm (d : Db) : option Z :=
  option_map jb_run_at (first_row (List.filter (in_state Queued) (t_jobs d))).

(** ** Boot repair *)

Definition stranded (now : Z) (r : JobSql) : bool :=
  in_state Running r &&
  match jb_started r with Some s => s <? sat_sub64 now 60000 | None => false end.
Definition kill_stranded (r : JobSql) : JobSql :=
  mkJob (jb_id r) (jb_kind r) (jb_run_at r) (jb_attempts r) (jb_cursor r) (jb_payload r)
    JDead (Some "stranded: isolate died 64x without a completed slice")
    (jb_started r) (jb_lease r) (jb_strands r).
Definition requeue_stranded (now : Z) (r : JobSql) : JobSql :=
  mkJob (jb_id r) (jb_kind r) now (jb_attempts r) (jb_cursor r) (jb_payload r)
    Queued (Some "stranded mid-slice") (jb_started r) None (jb_strands r + 1).

(** The newest dead row's [last_error] that is not NULL. *)
Definition last_dead_error (k : JobKind) (d : Db) : option string :=
  match List.filter (fun r => is_kind k r && in_state JDead r && is_some (jb_error r)) (rev (t_jobs d)) with
  | r :: _ => jb_error r
  | [] => None
  end.
Definition resurrect_key (k : JobKind) (d : Db) : string :=
  if bool_decide (k = GcConsolidate) && meta_is d "gc.mode" "compact"
  then "resurrected.gc_compact" else "resurrected." +:+ as_str k.
Definition resurrect_tries (key : string) (d : Db) : Z :=
  match t_meta d !! key with Some v => unwrap_or 0 (parse_i64 v) | None => 0 end.
Definition repair_kind (now : Z) (k : JobKind) (d : Db) : Db :=
  let dead r := is_kind k r && in_state JDead r in
  if 0 <? count_jobs dead d then
    let d1 := match last_dead_error k d with
              | Some e => on_meta (insert ("dead." +:+ as_str k) e) d
              | None => d
              end in
    let key := resurrect_key k d1 in
    let tries := resurrect_tries key d1 in
    if 3 <=? tries then d1
    else
      let d2 := enqueue_db k now "{}" (delete_jobs dead d1) in
      on_meta (insert key (z_to_string (add64 tries 1))) d2
  else d.
Definition repair (now : Z) (d : Db) : Db :=
  let d1 := update_jobs (fun r => stranded now r && (64 <=? jb_strands r)) kill_stranded d in
  let d2 := update_jobs (fun r => stranded now r && (jb_strands r <? 64)) (requeue_stranded now) d1 in
  let d3 := if count_jobs (fun r => is_kind Janitor r && active r) d2 =? 0
            then enqueue_db Janitor now "{}" d2 else d2 in
  fold_left (fun d k => repair_kind now k d) [GcMark; GcConsolidate; GcSweep; GcCompact] d3.

Section Dispatch.
Context `{Platform}.

(** ** The live-pack admission cap *)

Definition DEFAULT_MAX_LIVE_PACKS : Z := 1000.
Definition at_pack_cap (d : Db) : bool :=
  let check cap :=
    if cap <=? 0 then false
    else cap <=? count_packs (fun _ r => bool_decide (pk_state r = Live) || bool_decide (pk_state r = Ingesting)) d in
  match knob d "max_live_packs" with
  | Some v => check v
  | None =>
      let v := env_i64 "GE_MAX_LIVE_PACKS" DEFAULT_MAX_LIVE_PACKS in
      if v <=? 0 then false else check (Z.max v 2)
  end.

(** ** One dispatched slice *)

Definition claim_row (now : Z) (lease : string) (r : JobSql) : JobSql :=
  mkJob (jb_id r) (jb_kind r) (jb_run_at r) (jb_attempts r) (jb_cursor r) (jb_payload r)
    Running (jb_error r) (Some now) (Some lease) (jb_strands r).
(** The span before the slice: pick, mark running under a fresh lease. *)
Definition claim (now : Z) (lease : string) (pick : Pick) : DoM (option Job) := fun d =>
  match pick_row now pick d with
  | None => (d, Ok None)
  | Some r =>
      let p x := (jb_id x =? jb_id r) && in_state Queued x in
      let d' := update_jobs p (claim_row now lease) d in
      if negb (count_jobs p d =? 1) then (d', Ok None)
      else match kind_of_str (jb_kind r) with
           | Err e => (d', Err e)
           | Ok k => (d', Ok (Some (mkJobRec (jb_id r) k (jb_run_at r)
                       (if (0 <=? jb_attempts r) && (jb_attempts r <=? u32_max) then jb_attempts r else 0)
                       (jb_cursor r) (jb_payload r) lease)))
           end
  end.

Record Report : Type := mkReport {
  rp_id : Z; rp_kind : string; rp_outcome : string; rp_error : option string }.

Definition back_to_queue (run_at : Z) (cursor : option string) (r : JobSql) : JobSql :=
  mkJob (jb_id r) (jb_kind r) run_at (jb_attempts r) cursor (jb_payload r)
    Queued (jb_error r) (jb_started r) None 0.
Definition to_dead (err : string) (r : JobSql) : JobSql :=
  mkJob (jb_id r) (jb_kind r) (jb_run_at r) (jb_attempts r) (jb_cursor r) (jb_payload r)
    JDead (Some err) (jb_started r) (jb_lease r) (jb_strands r).
Definition to_retry (attempt : Z) (err : string) (next : Z) (r : JobSql) : JobSql :=
  mkJob (jb_id r) (jb_kind r) next attempt (jb_cursor r) (jb_payload r)
    Queued (Some err) (jb_started r) None (jb_strands r).

Definition backoff (attempt : Z) : Z :=
  sat_mul64 30000 (Z.shiftl 1 (Z.min attempt 20)).
Definition next_run (now attempt : Z) : Z := sat_add64 now (Z.min (backoff attempt) 3600000).

(** The Done side effects of a finished janitor. *)
Definition janitor_done (now : Z) (d : Db) : Db :=
  let d1 := enqueue_db Janitor (add64 now (15 * 60 * 1000)) "{}" d in
  let gc_in_flight := 0 <? count_jobs (fun r => is_kind GcMark r && active r) d1 in
  if at_pack_cap d1 && negb gc_in_flight then enqueue_db GcMark now "{}" d1 else d1.

(** The outcome span, fenced on the lease the claim wrote. *)
Definition land_outcome (job : Job) (lease : string) (attempt now : Z)
    (out : result Error SliceOutcome) (d : Db) : Db * Report :=
  let mine := holds (job_id job) lease in
  let landed := count_jobs mine d =? 1 in
  let rep outcome err := mkReport (job_id job) (as_str (job_kind job)) outcome err in
  match out with
  | Ok Done =>
      let d1 := delete_jobs mine d in
      if landed then
        ((if bool_decide (job_kind job = Janitor) then janitor_done now d1 else d1), rep "done" None)
      else (d1, rep "stale" None)
  | Ok (Continue cursor) =>
      (update_jobs mine (back_to_queue now (Some cursor)) d,
       rep (if landed then "continue" else "stale") None)
  | Ok (Reschedule run_at) =>
      (update_jobs mine (back_to_queue run_at None) d,
       rep (if landed then "reschedule" else "stale") None)
  | Err e =>
      let next := next_run now attempt in
      if 8 <=? attempt then
        (update_jobs mine (to_dead (display e)) d,
         rep (if landed then "dead" else "stale") (Some (display e)))
      else
        (update_jobs mine (to_retry attempt (display e) next) d,
         rep (if landed then "retry" else "stale") (Some (display e)))
  end.

(** [dispatch_inner]: claim, run the slice, land.  [slice] is everything that
    happens to the store between the two spans. *)
Definition dispatch_inner (now : Z) (lease : string) (pick : Pick)
    (slice : Job -> Db -> Db * result Error SliceOutcome) : DoM (option Report) := fun d =>
  match claim now lease pick d with
  | (d1, Err e) => (d1, Err e)
  | (d1, Ok None) => (d1, Ok None)
  | (d1, Ok (Some job)) =>
      let (d2, out) := slice job d1 in
      let crashed := match out with
                     | Err e => hooks_enabled && is_crash e
                     | Ok _ => false
                     end in
      if crashed then
        (d2, Ok (Some (mkReport (job_id job) (as_str (job_kind job)) "crashed"
                  (match out with Err e => Some (display e) | Ok _ => None end))))
      else
        let (d3, r) := land_outcome job lease (sat_addu32 (job_attempts job) 1) now out d2 in
        (d3, Ok (Some r))
  end.
End Dispatch.

(** ** Kinds and ids *)

Lemma kind_roundtrip (k : JobKind) : kind_of_str (as_str k) = Ok k.
Proof. by destruct k. Qed.
Lemma as_str_inj a b : as_str a = as_str b -> a = b.
Proof.
  intros E. pose proof (kind_roundtrip a) as Ha. rewrite E, kind_roundtrip in Ha. by simplify_eq.
Qed.

(** The table is its rows in id order, all issued by its sequence. *)
Definition JobsWf (d : Db) : Prop :=
  StronglySorted Z.lt (map jb_id (t_jobs d)) /\ Forall (fun r => jb_id r <= t_jobs_seq d) (t_jobs d).

Lemma sorted_filter {A} (R : A -> A -> Prop) (p : A -> bool) l :
  StronglySorted R l -> StronglySorted R (List.filter p l).
Proof.
  induction 1 as [|x l Hs IH Hf]; simpl; [constructor|]. destruct (p x); [|done].
  constructor; [done|]. rewrite Forall_forall in *. intros y Hy. apply Hf.
  apply list_elem_of_In in Hy. apply filter_In in Hy as [? _]. by apply list_elem_of_In.
Qed.
Lemma sorted_map_filter {A B} (R : B -> B -> Prop) (f : A -> B) (p : A -> bool) l :
  StronglySorted R (map f l) -> StronglySorted R (map f (List.filter p l)).
Proof.
  induction l as [|x l IH]; simpl; [done|]. intros Hs. inversion Hs as [|? ? Hs' Hf]; subst.
  destruct (p x); simpl; [|by apply IH]. constructor; [by apply IH|].
  rewrite Forall_forall in *. intros y Hy. apply Hf. rewrite list_elem_of_In in *.
  apply in_map_iff in Hy as (z & <- & Hz). apply filter_In in Hz as [Hz _]. by apply in_map.
Qed.
Lemma sorted_snoc (l : list Z) x :
  StronglySorted Z.lt l -> Forall (fun y => y < x) l -> StronglySorted Z.lt (l ++ [x]).
Proof.
  induction 1 as [|y l Hs IH Hf]; simpl; intros Hx; [repeat constructor|].
  inversion Hx; subst. constructor; [by apply IH|]. apply Forall_app. split; [done|]. by constructor.
Qed.
Lemma sorted_nodup (l : list Z) : StronglySorted Z.lt l -> NoDup l.
Proof.
  induction 1 as [|y l Hs IH Hf]; constructor; [|done]. intros Hy.
  rewrite Forall_forall in Hf. specialize (Hf _ Hy). lia.
Qed.

Lemma update_jobs_ids p f d :
  (forall r, jb_id (f r) = jb_id r) ->
  map jb_id (t_jobs (update_jobs p f d)) = map jb_id (t_jobs d).
Proof.
  intros Hf. simpl. rewrite map_map. apply map_ext. intros r. by destruct (p r).
Qed.
Lemma update_jobs_wf p f d :
  (forall r, jb_id (f r) = jb_id r) -> JobsWf d -> JobsWf (update_jobs p f d).
Proof.
  intros Hf [Hs Hb]. split; [by rewrite update_jobs_ids|].
  simpl. rewrite Forall_forall in *. intros x Hx. rewrite list_elem_of_In in Hx.
  apply in_map_iff in Hx as (r & <- & Hr). apply list_elem_of_In in Hr.
  destruct (p r); rewrite ?Hf; by apply Hb.
Qed.
Lemma delete_jobs_wf p d : JobsWf d -> JobsWf (delete_jobs p d).
Proof.
  intros [Hs Hb]. split; simpl; [by apply sorted_map_filter|].
  rewrite Forall_forall in *. intros x Hx. apply Hb. rewrite list_elem_of_In in *.
  by apply filter_In in Hx as [? _].
Qed.
Lemma insert_job_wf k t p c d : JobsWf d -> JobsWf (insert_job k t p c d).
Proof.
  intros [Hs Hb]. split; simpl.
  - rewrite map_app. apply sorted_snoc; [done|]. rewrite Forall_forall in Hb. apply Forall_forall.
    intros y Hy. rewrite list_elem_of_In in Hy. apply in_map_iff in Hy as (r & <- & Hr).
    apply list_elem_of_In, Hb in Hr. simpl in *. lia.
  - apply Forall_app. split; [|constructor; [simpl; lia|done]].
    eapply Forall_impl; [exact Hb|]. simpl. intros; lia.
Qed.
Lemma enqueue_wf k t p d : JobsWf d -> JobsWf (enqueue_db k t p d).
Proof. unfold enqueue_db. destruct (existsb _ _); [done|]. apply insert_job_wf. Qed.
#[export] Hint Resolve delete_jobs_wf insert_job_wf enqueue_wf : git_edge.

Lemma JobsWf_ext d d' :
  t_jobs d' = t_jobs d -> t_jobs_seq d' = t_jobs_seq d -> JobsWf d -> JobsWf d'.
Proof. unfold JobsWf. by intros -> ->. Qed.

Lemma wf_row_unique d r1 r2 :
  JobsWf d -> r1 ∈ t_jobs d -> r2 ∈ t_jobs d -> jb_id r1 = jb_id r2 -> r1 = r2.
Proof.
  intros [Hs%sorted_nodup _]. revert Hs. induction (t_jobs d) as [|r l IH]; simpl; [by intros _ ?%not_elem_of_nil|].
  inversion 1 as [|? ? Hn Hl]; subst. rewrite !elem_of_cons.
  intros [->|H1] [->|H2] E; [done| | |by apply IH].
  - destruct Hn. rewrite E. apply elem_of_map. eauto.
  - destruct Hn. rewrite <- E. apply elem_of_map. eauto.
Qed.

Lemma count_jobs_pos p d : 0 < count_jobs p d <-> exists r, r ∈ t_jobs d /\ p r = true.
Proof.
  unfold count_jobs. split.
  - intros Hc. destruct (List.filter p (t_jobs d)) as [|r l] eqn:E; [simpl in Hc; lia|].
    exists r. rewrite list_elem_of_In, <- filter_In, E. by left.
  - intros (r & Hr & Hp). rewrite list_elem_of_In in Hr.
    pose proof (proj2 (filter_In p r (t_jobs d)) (conj Hr Hp)) as Hin.
    destruct (List.filter p (t_jobs d)); [done|]. simpl. lia.
Qed.
Lemma count_jobs_zero p d : count_jobs p d = 0 <-> forall r, r ∈ t_jobs d -> p r = false.
Proof.
  split.
  - intros Hc r Hr. destruct (p r) eqn:E; [|done].
    assert (0 < count_jobs p d) by (apply count_jobs_pos; eauto). lia.
  - intros Hf. assert (~ 0 < count_jobs p d); [|unfold count_jobs in *; lia].
    intros (r & Hr & Hp)%count_jobs_pos. rewrite Hf in Hp; done.
Qed.

Lemma count_jobs_id_le1 (p : JobSql -> bool) id d :
  JobsWf d -> (forall r, p r = true -> jb_id r = id) -> count_jobs p d <= 1.
Proof.
  intros [Hs%sorted_nodup _] Hp. unfold count_jobs. revert Hs.
  induction (t_jobs d) as [|r l IH]; [done|]. inversion 1 as [|? ? Hn Hl]; subst.
  simpl. destruct (p r) eqn:E; [|by apply IH].
  rewrite filter_false; [simpl; lia|].
  intros x Hx. destruct (p x) eqn:Ex; [|done]. destruct Hn.
  rewrite (Hp _ E), <- (Hp _ Ex). apply elem_of_map. eauto.
Qed.
Lemma holds_id id lease r : holds id lease r = true -> jb_id r = id.
Proof. unfold holds. intros. bsimp. done. Qed.

(** The fence passes exactly when the row is running under the token. *)
Definition owns (d : Db) (j : Job) : Prop :=
  exists r, r ∈ t_jobs d /\ holds (job_id j) (job_lease j) r = true.
Lemma landed_iff d j : JobsWf d ->
  (count_jobs (holds (job_id j) (job_lease j)) d =? 1) = true <-> owns d j.
Proof.
  intros Hwf. rewrite Z.eqb_eq. unfold owns. rewrite <- count_jobs_pos.
  pose proof (count_jobs_id_le1 (holds (job_id j) (job_lease j)) (job_id j) d Hwf
    (holds_id _ _)). lia.
Qed.
Lemma not_owns_rows d j : ~ owns d j ->
  forall r, r ∈ t_jobs d -> holds (job_id j) (job_lease j) r = false.
Proof. intros Hn r Hr. destruct (holds _ _ r) eqn:E; [|done]. destruct Hn. by exists r. Qed.
Lemma update_jobs_none p f d :
  (forall r, r ∈ t_jobs d -> p r = false) -> update_jobs p f d = d.
Proof. intros Hf. unfold update_jobs, on_jobs. rewrite map_if_id by done. by destruct d. Qed.
Lemma delete_jobs_none p d :
  (forall r, r ∈ t_jobs d -> p r = false) -> delete_jobs p d = d.
Proof. intros Hf. unfold delete_jobs, on_jobs. rewrite filter_negb_id by done. by destruct d. Qed.

(** ** A slice that lost its lease writes nothing *)

Section Fence.
Context `{Platform}.

Lemma land_stale (job : Job) (attempt now : Z) (out : result Error SliceOutcome) (d : Db) :
  ~ owns d job ->
  land_outcome job (job_lease job) attempt now out d
  = (d, mkReport (job_id job) (as_str (job_kind job)) "stale"
          (match out with Ok _ => None | Err e => Some (display e) end)).
Proof.
  intros Hn. pose proof (not_owns_rows _ _ Hn) as Hr. unfold land_outcome.
  rewrite (proj2 (count_jobs_zero _ _) Hr). change (0 =? 1) with false. cbv beta iota zeta.
  rewrite delete_jobs_none by done.
  destruct out as [[|c|t]|e]; [done| | |destruct (8 <=? attempt)];
    by rewrite update_jobs_none by done.
Qed.

(** The outcome span touches no row but its own (and the rows it enqueues). *)
Lemma land_other_rows job attempt now out d r :
  r ∈ t_jobs d -> holds (job_id job) (job_lease job) r = false ->
  r ∈ t_jobs (land_outcome job (job_lease job) attempt now out d).1.
Proof.
  intros Hr Hh.
  assert (forall d k t p, r ∈ t_jobs d -> r ∈ t_jobs (enqueue_db k t p d)) as Henq.
  { intros d' k t p Hin. unfold enqueue_db. destruct (existsb _ _); [done|].
    simpl. apply elem_of_app. by left. }
  assert (forall f, r ∈ t_jobs (update_jobs (holds (job_id job) (job_lease job)) f d)) as Hupd.
  { intros f. simpl. apply elem_of_map. exists r. by rewrite Hh. }
  assert (r ∈ t_jobs (delete_jobs (holds (job_id job) (job_lease job)) d)) as Hdel.
  { simpl. apply elem_of_filter_b. by rewrite Hh. }
  unfold land_outcome. destruct out as [[|c|t]|e]; simpl; try apply Hupd.
  - destruct (_ =? 1); [|exact Hdel]. destruct (bool_decide _); [|exact Hdel].
    unfold janitor_done. destruct (_ && _); repeat apply Henq; exact Hdel.
  - destruct (8 <=? attempt); apply Hupd.
Qed.

Lemma land_outcome_wf job lease attempt now out d :
  JobsWf d -> JobsWf (land_outcome job lease attempt now out d).1.
Proof.
  intros Hwf. unfold land_outcome. destruct out as [[|c|t]|e]; simpl.
  - destruct (_ =? 1); [|by apply delete_jobs_wf]. destruct (bool_decide _); [|by apply delete_jobs_wf].
    unfold janitor_done. destruct (_ && _); repeat apply enqueue_wf; by apply delete_jobs_wf.
  - by apply update_jobs_wf.
  - by apply update_jobs_wf.
  - destruct (8 <=? attempt); by apply update_jobs_wf.
Qed.

(** ** The interleaving of spans

    [flying] are the slices that were claimed and have not landed; [used] the
    lease tokens drawn so far.  A claim draws a token never drawn before. *)
Record Sys : Type := mkSys { sys_db : Db; flying : list Job; used_leases : gset string }.

Inductive Step : Sys -> Sys -> Prop :=
| StClaim now lease pick d fl us d' job :
    lease ∉ us -> claim now lease pick d = (d', Ok (Some job)) ->
    Step (mkSys d fl us) (mkSys d' (job :: fl) ({[lease]} ∪ us))
| StClaimNone now lease pick d fl us d' r :
    lease ∉ us -> claim now lease pick d = (d', r) -> (forall job, r <> Ok (Some job)) ->
    Step (mkSys d fl us) (mkSys d' fl ({[lease]} ∪ us))
| StBeat now d fl us job :
    job ∈ fl -> Step (mkSys d fl us) (mkSys (heartbeat now job d).1 fl us)
| StLand attempt now out d l1 l2 us job :
    Step (mkSys d (l1 ++ job :: l2) us)
         (mkSys (land_outcome job (job_lease job) attempt now out d).1 (l1 ++ l2) us)
| StCrash d l1 l2 us job : Step (mkSys d (l1 ++ job :: l2) us) (mkSys d (l1 ++ l2) us)
| StRepair now d fl us : Step (mkSys d fl us) (mkSys (repair now d) fl us)
| StEnqueue k t p d fl us : Step (mkSys d fl us) (mkSys (enqueue_db k t p d) fl us)
| StInsert k t p c d fl us : Step (mkSys d fl us) (mkSys (insert_job k t p c d) fl us)
| StTouch p f d fl us :
    (forall r, jb_id (f r) = jb_id r /\ jb_state (f r) = jb_state r /\ jb_lease (f r) = jb_lease r) ->
    Step (mkSys d fl us) (mkSys (update_jobs p f d) fl us)
| StDelete p d fl us : Step (mkSys d fl us) (mkSys (delete_jobs p d) fl us)
| StOther d d' fl us :
    t_jobs d' = t_jobs d -> t_jobs_seq d' = t_jobs_seq d -> Step (mkSys d fl us) (mkSys d' fl us).

Inductive Reachable : Sys -> Prop :=
| RInit d : t_jobs d = [] -> Reachable (mkSys d [] ∅)
| RStep s s' : Reachable s -> Step s s' -> Reachable s'.

Definition row_leases_in (us : gset string) (d : Db) : Prop :=
  forall r l, r ∈ t_jobs d -> jb_lease r = Some l -> l ∈ us.
Definition leases_distinct (fl : list Job) : Prop := NoDup (map job_lease fl).
Record SysInv (s : Sys) : Prop := {
  inv_wf : JobsWf (sys_db s);
  inv_rows : row_leases_in (used_leases s) (sys_db s);
  inv_fly : leases_distinct (flying s);
  inv_used : forall j, j ∈ flying s -> job_lease j ∈ used_leases s
}.

Lemma row_leases_mono us us' d : us ⊆ us' -> row_leases_in us d -> row_leases_in us' d.
Proof. intros Hs Hr r l Hin Hl. by eapply Hs, Hr. Qed.
Lemma row_leases_update us p f d :
  (forall r, jb_lease (f r) = jb_lease r \/ jb_lease (f r) = None \/ exists l, jb_lease (f r) = Some l /\ l ∈ us) ->
  row_leases_in us d -> row_leases_in us (update_jobs p f d).
Proof.
  intros Hf Hr x l Hx Hl. simpl in Hx. apply elem_of_map in Hx as (r & <- & Hin).
  destruct (p r); [|by eapply Hr].
  destruct (Hf r) as [E|[E|(l' & E & Hl')]]; rewrite E in Hl; simplify_eq; [by eapply Hr|done].
Qed.
Lemma row_leases_delete us p d : row_leases_in us d -> row_leases_in us (delete_jobs p d).
Proof. intros Hr x l Hx Hl. simpl in Hx. apply elem_of_filter_b in Hx as [Hx _]. by eapply Hr. Qed.
Lemma row_leases_insert us k t p c d : row_leases_in us d -> row_leases_in us (insert_job k t p c d).
Proof.
  intros Hr x l Hx Hl. simpl in Hx. apply elem_of_app in Hx as [Hx|Hx]; [by eapply Hr|].
  apply list_elem_of_singleton in Hx. by subst.
Qed.
Lemma row_leases_enqueue us k t p d : row_leases_in us d -> row_leases_in us (enqueue_db k t p d).
Proof. unfold enqueue_db. destruct (existsb _ _); [done|]. apply row_leases_insert. Qed.
Lemma row_leases_ext us d d' : t_jobs d' = t_jobs d -> row_leases_in us d -> row_leases_in us d'.
Proof. unfold row_leases_in. by intros ->. Qed.

Lemma repair_kind_wf now k d : JobsWf d -> JobsWf (repair_kind now k d).
Proof.
  intros Hwf. unfold repair_kind. destruct (0 <? _); [|done].
  set (d1 := match last_dead_error k d with Some e => _ | None => d end).
  assert (JobsWf d1) as H1 by (unfold d1; destruct (last_dead_error k d); done).
  destruct (3 <=? _); [done|].
  apply (JobsWf_ext (enqueue_db k now "{}" (delete_jobs (fun r => is_kind k r && in_state JDead r) d1)));
    auto with git_edge.
Qed.
Lemma repair_kind_leases us now k d : row_leases_in us d -> row_leases_in us (repair_kind now k d).
Proof.
  intros Hr. unfold repair_kind. destruct (0 <? _); [|done].
  set (d1 := match last_dead_error k d with Some e => _ | None => d end).
  assert (row_leases_in us d1) as H1 by (unfold d1; destruct (last_dead_error k d); done).
  destruct (3 <=? _); [done|].
  apply (row_leases_ext us (enqueue_db k now "{}" (delete_jobs (fun r => is_kind k r && in_state JDead r) d1)));
    [done|]. by apply row_leases_enqueue, row_leases_delete.
Qed.
Lemma repair_wf now d : JobsWf d -> JobsWf (repair now d).
Proof.
  intros Hwf. unfold repair. simpl. do 4 apply repair_kind_wf.
  destruct (_ =? 0); [apply enqueue_wf|]; by do 2 (apply update_jobs_wf; [done|]).
Qed.
Lemma repair_leases us now d : row_leases_in us d -> row_leases_in us (repair now d).
Proof.
  intros Hr. unfold repair. simpl. do 4 apply repair_kind_leases.
  destruct (_ =? 0); [apply row_leases_enqueue|];
    do 2 (apply row_leases_update; [simpl; eauto|]); done.
Qed.
Lemma land_leases us job lease attempt now out d :
  row_leases_in us d -> row_leases_in us (land_outcome job lease attempt now out d).1.
Proof.
  intros Hr. unfold land_outcome. destruct out as [[|c|t]|e]; simpl.
  - pose proof (row_leases_delete us (holds (job_id job) lease) d Hr).
    destruct (_ =? 1); [|done]. destruct (bool_decide _); [|done].
    unfold janitor_done. destruct (_ && _); repeat apply row_leases_enqueue; done.
  - by apply row_leases_update; [simpl; eauto|].
  - by apply row_leases_update; [simpl; eauto|].
  - destruct (8 <=? attempt); apply row_leases_update; simpl; eauto.
Qed.
Lemma claim_cases now lease pick d d' r :
  claim now lease pick d = (d', r) ->
  (d' = d \/ exists p, d' = update_jobs p (claim_row now lease) d)
  /\ (forall job, r = Ok (Some job) -> job_lease job = lease).
Proof.
  unfold claim. destruct (pick_row now pick d) as [x|]; [|intros; simplify_eq; by split; [left|]].
  destruct (negb _); [intros; simplify_eq; split; [eauto|done]|].
  destruct (kind_of_str _); intros; simplify_eq; split; eauto; intros; by simplify_eq.
Qed.

Lemma claim_inv now lease pick d d' r us :
  claim now lease pick d = (d', r) -> JobsWf d -> row_leases_in us d ->
  JobsWf d' /\ row_leases_in ({[lease]} ∪ us) d'.
Proof.
  intros [Hd _]%claim_cases Hwf Hr.
  assert (row_leases_in ({[lease]} ∪ us) d) as Hr' by (eapply row_leases_mono; [apply union_subseteq_r|done]).
  destruct Hd as [->|[p ->]]; [done|]. split; [by apply update_jobs_wf|].
  apply row_leases_update; [|done]. intros x. right; right. exists lease. split; [done|set_solver].
Qed.
Lemma fly_remove l1 l2 (job : Job) (us : gset string) :
  leases_distinct (l1 ++ job :: l2) -> (forall j, j ∈ l1 ++ job :: l2 -> job_lease j ∈ us) ->
  leases_distinct (l1 ++ l2) /\ (forall j, j ∈ l1 ++ l2 -> job_lease j ∈ us).
Proof.
  unfold leases_distinct. rewrite !map_app. simpl. intros Hn%NoDup_app_remove_mid Hu. split; [done|].
  intros j Hj. apply Hu. rewrite elem_of_app, elem_of_cons. apply elem_of_app in Hj. tauto.
Qed.

Lemma step_inv s s' : SysInv s -> Step s s' -> SysInv s'.
Proof.
  intros [Hwf Hrow Hfly Hused] Hst.
  destruct Hst as [now lease pick d fl us d' job Hfr Hc|now lease pick d fl us d' r Hfr Hc Hn|now d fl us job Hj
    |attempt now out d l1 l2 us job|d l1 l2 us job|now d fl us|k t p d fl us|k t p c d fl us|p f d fl us Hf
    |p d fl us|d d' fl us E1 E2]; simpl in *.
  - destruct (claim_inv _ _ _ _ _ _ us Hc Hwf Hrow) as [Hwf' Hrow'].
    destruct (claim_cases _ _ _ _ _ _ Hc) as [_ Hl]. specialize (Hl job eq_refl).
    split; simpl; [done|done| |].
    + unfold leases_distinct. simpl. constructor; [|done]. intros Hin.
      apply elem_of_map in Hin as (j & Ej & Hj). destruct Hfr. rewrite <- Hl, <- Ej. by apply Hused.
    + intros j [->|Hj]%elem_of_cons; [rewrite Hl|specialize (Hused j Hj)]; clear Hc; set_solver.
  - destruct (claim_inv _ _ _ _ _ _ us Hc Hwf Hrow) as [Hwf' Hrow'].
    split; simpl; [done|done|done|]. intros j Hj. specialize (Hused j Hj). clear Hc Hn. set_solver.
  - split; simpl; [by apply update_jobs_wf|by apply row_leases_update; [simpl; eauto|]|done|done].
  - destruct (fly_remove _ _ _ _ Hfly Hused).
    split; simpl; [by apply land_outcome_wf|by apply land_leases|done|done].
  - destruct (fly_remove _ _ _ _ Hfly Hused). by split.
  - split; simpl; [by apply repair_wf|by apply repair_leases|done|done].
  - split; simpl; [by apply enqueue_wf|by apply row_leases_enqueue|done|done].
  - split; simpl; [by apply insert_job_wf|by apply row_leases_insert|done|done].
  - split; simpl; [| |done|done].
    + apply update_jobs_wf; [|done]. intros r. by destruct (Hf r).
    + apply row_leases_update; [|done]. intros r. left. by destruct (Hf r) as (_ & _ & ?).
  - split; simpl; [by apply delete_jobs_wf|by apply row_leases_delete|done|done].
  - split; simpl; [by eapply JobsWf_ext|by eapply row_leases_ext|done|done].
Qed.

Lemma reachable_inv s : Reachable s -> SysInv s.
Proof.
  induction 1 as [d E|s s' _ IH Hst]; [|by eapply step_inv].
  split; simpl; [|by intros r l Hr; rewrite E in Hr; inversion Hr|constructor|by intros j ?%not_elem_of_nil].
  unfold JobsWf. rewrite E. split; constructor.
Qed.

Lemma lease_determines_slice fl j1 j2 :
  leases_distinct fl -> j1 ∈ fl -> j2 ∈ fl -> job_lease j1 = job_lease j2 -> j1 = j2.
Proof.
  unfold leases_distinct. induction fl as [|j fl IH]; simpl; [by intros _ ?%not_elem_of_nil|].
  inversion 1 as [|? ? Hn Hl]; subst. rewrite !elem_of_cons.
  intros [->|H1] [->|H2] E; [done| | |by apply IH].
  - destruct Hn. rewrite E. apply elem_of_map. eauto.
  - destruct Hn. rewrite <- E. apply elem_of_map. eauto.
Qed.

(** C29: However claims, heartbeats, landings, crashes, repairs and enqueues
    interleave, two live slices of one job row never both hold its lease, and a
    slice that does not hold it lands as [stale] with the store unchanged: an
    outcome is applied by the row's current owner and by nobody else. *)
Theorem outcome_single_owner (s : Sys) (j1 j2 : Job) (attempt now : Z) (out : result Error SliceOutcome) :
  Reachable s -> j1 ∈ flying s -> j2 ∈ flying s -> job_id j1 = job_id j2 -> j1 <> j2 ->
  owns (sys_db s) j1 ->
  land_outcome j2 (job_lease j2) attempt now out (sys_db s)
  = (sys_db s, mkReport (job_id j2) (as_str (job_kind j2)) "stale"
                 (match out with Ok _ => None | Err e => Some (display e) end)).
Proof.
  intros Hr%reachable_inv H1 H2 Eid Hne (r1 & Hr1 & Hh1). apply land_stale.
  intros (r2 & Hr2 & Hh2). apply Hne. eapply lease_determines_slice; [apply Hr|done|done|].
  assert (r1 = r2) as <-.
  { eapply wf_row_unique; [apply Hr|done|done|]. by rewrite (holds_id _ _ _ Hh1), (holds_id _ _ _ Hh2). }
  unfold holds in Hh1, Hh2. bsimp. congruence.
Qed.
End Fence.

Module LeaseDemo.
Definition d0 : Db := enqueue_db Janitor 0 "{}" empty_db.
Definition d1 : Db := (claim 0 "L1" Due d0).1.
Definition d2 : Db := repair 100000 d1.
Definition d3 : Db := (claim 100000 "L2" Due d2).1.
Definition slice (lease : string) (run : Z) : Job := mkJobRec 1 Janitor run 0 None "{}" lease.
End LeaseDemo.

Lemma outcome_single_owner_witness :
  @land_outcome demo_platform (LeaseDemo.slice "L1" 0) "L1" 1 100001 (Ok Done) LeaseDemo.d3
  = (LeaseDemo.d3, mkReport 1 "janitor" "stale" None).
Proof.
  apply (@outcome_single_owner demo_platform
           (mkSys LeaseDemo.d3 [LeaseDemo.slice "L2" 100000; LeaseDemo.slice "L1" 0]
              ({["L2"]} ∪ ({["L1"]} ∪ ∅)))
           (LeaseDemo.slice "L2" 100000) (LeaseDemo.slice "L1" 0) 1 100001 (Ok Done)).
  - eapply RStep; [|apply (StClaim 100000 "L2" Due LeaseDemo.d2); [set_solver|reflexivity]].
    eapply RStep; [|apply (StRepair 100000 LeaseDemo.d1)].
    eapply RStep; [|apply (StClaim 0 "L1" Due LeaseDemo.d0); [set_solver|reflexivity]].
    eapply RStep; [|apply (StEnqueue Janitor 0 "{}" empty_db)].
    by apply RInit.
  - simpl; set_solver.
  - simpl; set_solver.
  - reflexivity.
  - discriminate.
  - exists (mkJob 1 "janitor" 100000 0 None "{}" Running (Some "stranded mid-slice") (Some 100000) (Some "L2") 1).
    split; [vm_compute; left|reflexivity].
Defined.

(** ** Selection, enqueue and repair *)

Lemma before_irrefl a : before a a = false.
Proof. unfold before. rewrite !Z.ltb_irrefl. by rewrite andb_false_r. Qed.
Lemma before_trans_neg a b c : before b a = false -> before c b = false -> before c a = false.
Proof. unfold before. intros. lia. Qed.
Lemma first_row_least l r :
  first_row l = Some r -> r ∈ l /\ forall x, x ∈ l -> before x r = false.
Proof.
  revert r; induction l as [|y l IH]; simpl; intros r Hr; [done|].
  destruct (first_row l) as [r'|] eqn:E.
  - destruct (IH r' eq_refl) as [Hin Hl]. destruct (before r' y) eqn:Eb; simplify_eq.
    + split; [by apply elem_of_cons; right|]. intros x [->|Hx]%elem_of_cons; [|by apply Hl].
      unfold before in *. lia.
    + split; [by apply elem_of_cons; left|]. intros x [->|Hx]%elem_of_cons; [apply before_irrefl|].
      eapply before_trans_neg; [exact Eb|by apply Hl].
  - simplify_eq. destruct l; [|simpl in E; repeat case_match; simplify_eq].
    split; [by left|]. intros x Hx%list_elem_of_singleton. subst. apply before_irrefl.
Qed.
Lemma first_row_none l : first_row l = None <-> l = [].
Proof.
  destruct l as [|y l]; simpl; [done|]. split; [|done].
  destruct (first_row l); [destruct (before _ _)|]; done.
Qed.

(** The alarm dispatches the oldest due queued row: the claimed row was queued
    and due, no due queued row precedes it in (run_at, id) order, and nothing is
    claimed only when no queued row is due. *)
Theorem pick_due_is_least (now : Z) (d : Db) :
  match pick_row now Due d with
  | Some r => r ∈ t_jobs d /\ jb_state r = Queued /\ jb_run_at r <= now
              /\ (forall x, x ∈ t_jobs d -> jb_state x = Queued -> jb_run_at x <= now -> before x r = false)
  | None => forall x, x ∈ t_jobs d -> jb_state x = Queued -> now < jb_run_at x
  end.
Proof.
  unfold pick_row. set (p := fun r => _).
  destruct (first_row (List.filter p (t_jobs d))) as [r|] eqn:E.
  - destruct (first_row_least _ _ E) as [Hin Hl]. apply elem_of_filter_b in Hin as [Hin Hp].
    unfold p, in_state in Hp. bsimp. split; [done|]. split; [done|]. split; [done|].
    intros x Hx Hq Ht. apply Hl, elem_of_filter_b. split; [done|].
    unfold p, in_state. rewrite bool_decide_eq_true_2 by done. simpl. lia.
  - apply first_row_none in E. intros x Hx Hq.
    destruct (Z.lt_ge_cases now (jb_run_at x)) as [?|Hge]; [done|]. exfalso.
    assert (x ∈ List.filter p (t_jobs d)) as Hin; [|by rewrite E in Hin; inversion Hin].
    apply elem_of_filter_b. split; [done|]. unfold p, in_state.
    rewrite bool_decide_eq_true_2 by done. simpl. lia.
Qed.

Definition queued_of (k : JobKind) (r : JobSql) : bool := is_kind k r && in_state Queued r.
Lemma enqueue_spec k t p d :
  1 <= count_jobs (queued_of k) (enqueue_db k t p d)
  /\ count_jobs (queued_of k) (enqueue_db k t p d) = Z.max 1 (count_jobs (queued_of k) d)
  /\ (forall r, r ∈ t_jobs d -> r ∈ t_jobs (enqueue_db k t p d)).
Proof.
  unfold enqueue_db. change (fun r => is_kind k r && in_state Queued r) with (queued_of k).
  destruct (existsb (queued_of k) (t_jobs d)) eqn:E.
  - assert (0 < count_jobs (queued_of k) d); [|split; [lia|split; [lia|done]]].
    apply existsb_exists in E as (r & Hr & Hq). apply count_jobs_pos. exists r.
    by rewrite list_elem_of_In.
  - assert (count_jobs (queued_of k) d = 0) as H0.
    { apply count_jobs_zero. intros r Hr. destruct (queued_of k r) eqn:Eq; [|done].
      rewrite <- E. symmetry. apply existsb_exists. exists r. by rewrite <- list_elem_of_In. }
    assert (count_jobs (queued_of k) (insert_job (as_str k) t p None d) = 1) as H1.
    { unfold count_jobs in *. simpl. rewrite List.filter_app, length_app. simpl.
      unfold queued_of at 2. unfold is_kind, in_state. simpl. rewrite String.eqb_refl. simpl. lia. }
    rewrite H1, H0. split; [lia|]. split; [done|]. intros r Hr. simpl. apply elem_of_app. by left.
Qed.

(** Retry schedule: the first seven failures requeue the row between one minute
    and one hour later, the eighth kills it. *)
Lemma next_run_bounds now attempt :
  1 <= attempt -> in_i64 now -> now <= i64_max - 3600000 ->
  now + 60000 <= next_run now attempt <= now + 3600000.
Proof.
  intros Ha Hn Hm. unfold next_run, backoff, sat_add64, sat_mul64.
  assert (60000 <= 30000 * Z.shiftl 1 (Z.min attempt 20) <= 30000 * 2 ^ 20) as Hb.
  { rewrite Z.shiftl_1_l. assert (2 ^ 1 <= 2 ^ Z.min attempt 20 <= 2 ^ 20); [|lia].
    split; apply Z.pow_le_mono_r; lia. }
  unfold sat64, in_i64, i64_min, i64_max in *. lia.
Qed.

(** A failing slice: its own row is requeued with the attempt counted and a
    bounded backoff while fewer than eight attempts failed, and is dead, out of
    every future pick, from the eighth on. *)
Theorem error_outcome `{Platform} (job : Job) (e : Error) (attempt now : Z) (d : Db) (r : JobSql) :
  JobsWf d -> r ∈ t_jobs d -> holds (job_id job) (job_lease job) r = true ->
  1 <= attempt -> in_i64 now -> now <= i64_max - 3600000 ->
  exists r', r' ∈ t_jobs (land_outcome job (job_lease job) attempt now (Err e) d).1
    /\ jb_id r' = job_id job /\ jb_error r' = Some (display e)
    /\ (attempt < 8 -> jb_state r' = Queued /\ jb_attempts r' = attempt /\ jb_lease r' = None
          /\ now + 60000 <= jb_run_at r' <= now + 3600000
          /\ rp_outcome (land_outcome job (job_lease job) attempt now (Err e) d).2 = "retry")
    /\ (8 <= attempt -> jb_state r' = JDead
          /\ rp_outcome (land_outcome job (job_lease job) attempt now (Err e) d).2 = "dead").
Proof.
  intros Hwf Hr Hh Ha Hn Hm.
  assert ((count_jobs (holds (job_id job) (job_lease job)) d =? 1) = true) as Hl
    by (apply landed_iff; [done|by exists r]).
  pose proof (holds_id _ _ _ Hh) as Hid.
  unfold land_outcome. rewrite Hl. destruct (Z.leb_spec 8 attempt) as [H8|H8].
  - exists (to_dead (display e) r). split; [apply elem_of_map; exists r; by rewrite Hh|].
    split; [done|]. split; [done|]. split; [intros; lia|done].
  - exists (to_retry attempt (display e) (next_run now attempt) r).
    split; [apply elem_of_map; exists r; by rewrite Hh|].
    split; [done|]. split; [done|]. split; [|intros; lia].
    intros _. split; [done|]. split; [done|]. split; [done|]. split; [|done].
    by apply next_run_bounds.
Qed.

(** ** What boot repair guarantees *)

Definition gc_kinds : list JobKind := [GcMark; GcConsolidate; GcSweep; GcCompact].
Definition dead_of (k : JobKind) (r : JobSql) : bool := is_kind k r && in_state JDead r.
Definition exhausted (k : JobKind) (d : Db) : Prop :=
  (exists r, r ∈ t_jobs d /\ dead_of k r = true) -> 3 <= resurrect_tries (resurrect_key k d) d.

Lemma resurrect_key_meta k d d' :
  t_meta d' !! "gc.mode" = t_meta d !! "gc.mode" -> resurrect_key k d' = resurrect_key k d.
Proof. unfold resurrect_key, meta_is. by intros ->. Qed.
Lemma resurrect_key_not_mode k d : resurrect_key k d <> "gc.mode".
Proof. unfold resurrect_key. destruct (_ && _); [done|]. by destruct k. Qed.
Lemma resurrect_key_not_dead k k' d : resurrect_key k d <> "dead." +:+ as_str k'.
Proof. unfold resurrect_key. destruct (_ && _); by destruct k, k'. Qed.

Definition note_error (k : JobKind) (d : Db) : Db :=
  match last_dead_error k d with
  | Some e => on_meta (insert ("dead." +:+ as_str k) e) d
  | None => d
  end.
Lemma note_error_key k k' d : resurrect_key k (note_error k' d) = resurrect_key k d.
Proof.
  unfold note_error. destruct (last_dead_error k' d); [|done]. apply resurrect_key_meta.
  simpl. rewrite lookup_insert_ne; [done|]. by destruct k'.
Qed.
Lemma note_error_tries k k' d :
  resurrect_tries (resurrect_key k d) (note_error k' d) = resurrect_tries (resurrect_key k d) d.
Proof.
  unfold note_error, resurrect_tries. destruct (last_dead_error k' d); [|done].
  simpl. rewrite lookup_insert_ne; [done|]. intros E. symmetry in E. by apply resurrect_key_not_dead in E.
Qed.
Lemma note_error_jobs k d : t_jobs (note_error k d) = t_jobs d.
Proof. unfold note_error. by destruct (last_dead_error k d). Qed.
Lemma enqueue_meta k t p d : t_meta (enqueue_db k t p d) = t_meta d.
Proof. unfold enqueue_db. by destruct (existsb _ _). Qed.
Lemma enqueue_new k t p d r :
  r ∈ t_jobs (enqueue_db k t p d) -> r ∈ t_jobs d \/ (jb_state r = Queued /\ jb_kind r = as_str k
    /\ jb_strands r = 0 /\ jb_lease r = None).
Proof.
  unfold enqueue_db. destruct (existsb _ _); [by left|]. simpl.
  intros [?|Hx%list_elem_of_singleton]%elem_of_app; [by left|]. right. by subst.
Qed.

Lemma repair_kind_unfold now k d :
  repair_kind now k d =
  if 0 <? count_jobs (dead_of k) d then
    if 3 <=? resurrect_tries (resurrect_key k d) d then note_error k d
    else on_meta (insert (resurrect_key k d) (z_to_string (add64 (resurrect_tries (resurrect_key k d) d) 1)))
           (enqueue_db k now "{}" (delete_jobs (dead_of k) (note_error k d)))
  else d.
Proof.
  unfold repair_kind. fold (note_error k d). rewrite note_error_key, note_error_tries. done.
Qed.

Lemma repair_kind_rows now k d r :
  r ∈ t_jobs (repair_kind now k d) ->
  r ∈ t_jobs d \/ (jb_state r = Queued /\ jb_kind r = as_str k /\ jb_strands r = 0 /\ jb_lease r = None).
Proof.
  rewrite repair_kind_unfold. destruct (0 <? _); [|by left].
  destruct (3 <=? _); [rewrite note_error_jobs; by left|]. simpl.
  intros [Hr|?]%enqueue_new; [|by right]. simpl in Hr. rewrite note_error_jobs in Hr.
  apply elem_of_filter_b in Hr as [? _]. by left.
Qed.
Lemma repair_kind_keeps now k d r :
  r ∈ t_jobs d -> dead_of k r = false -> r ∈ t_jobs (repair_kind now k d).
Proof.
  intros Hr Hd. rewrite repair_kind_unfold. destruct (0 <? _); [|done].
  destruct (3 <=? _); [by rewrite note_error_jobs|]. simpl.
  apply enqueue_spec. simpl. rewrite note_error_jobs. apply elem_of_filter_b. by rewrite Hd.
Qed.
Lemma repair_kind_mode now k d : t_meta (repair_kind now k d) !! "gc.mode" = t_meta d !! "gc.mode".
Proof.
  rewrite repair_kind_unfold. destruct (0 <? _); [|done].
  assert (t_meta (note_error k d) !! "gc.mode" = t_meta d !! "gc.mode") as Hn.
  { unfold note_error. destruct (last_dead_error k d); [|done]. simpl.
    rewrite lookup_insert_ne; [done|]. by destruct k. }
  destruct (3 <=? _); [done|]. simpl.
  rewrite lookup_insert_ne by apply resurrect_key_not_mode. by rewrite enqueue_meta.
Qed.
Lemma repair_kind_tries now k k' d :
  3 <= resurrect_tries (resurrect_key k d) d ->
  3 <= resurrect_tries (resurrect_key k d) (repair_kind now k' d).
Proof.
  intros Ht. rewrite repair_kind_unfold. destruct (0 <? _); [|done].
  destruct (Z.leb_spec 3 (resurrect_tries (resurrect_key k' d) d)) as [?|Hlt];
    [by rewrite note_error_tries|].
  unfold resurrect_tries at 1. simpl. rewrite lookup_insert_ne; [|intros E; rewrite E in *; lia].
  rewrite enqueue_meta. simpl. fold (resurrect_tries (resurrect_key k d) (note_error k' d)).
  by rewrite note_error_tries.
Qed.
Lemma repair_kind_exhausted now k d : exhausted k (repair_kind now k d).
Proof.
  intros (r & Hr & Hd).
  rewrite (resurrect_key_meta k d) by apply repair_kind_mode.
  revert Hr. rewrite repair_kind_unfold. destruct (0 <? count_jobs (dead_of k) d) eqn:Ec.
  - destruct (Z.leb_spec 3 (resurrect_tries (resurrect_key k d) d)); [by rewrite note_error_tries|].
    simpl. intros [Hr|(Hq & _)]%enqueue_new.
    + simpl in Hr. apply elem_of_filter_b in Hr as [_ Hr]. by rewrite Hd in Hr.
    + unfold dead_of, in_state in Hd. rewrite Hq in Hd. bsimp. done.
  - intros Hr. bsimp. assert (0 < count_jobs (dead_of k) d) by (apply count_jobs_pos; eauto). lia.
Qed.
Lemma repair_kind_exhausted_other now k k' d :
  k <> k' -> exhausted k d -> exhausted k (repair_kind now k' d).
Proof.
  intros Hne He (r & Hr & Hd). rewrite (resurrect_key_meta k d) by apply repair_kind_mode.
  apply repair_kind_tries, He. exists r. split; [|done].
  destruct (repair_kind_rows _ _ _ _ Hr) as [?|(Hq & _)]; [done|].
  unfold dead_of, in_state in Hd. rewrite Hq in Hd. bsimp. done.
Qed.

Definition unstrand_row (now : Z) (r : JobSql) : JobSql :=
  if stranded now r then
    if 64 <=? jb_strands r then kill_stranded r else requeue_stranded now r
  else r.
Definition unstrand (now : Z) (d : Db) : Db :=
  update_jobs (fun r => stranded now r && (jb_strands r <? 64)) (requeue_stranded now)
    (update_jobs (fun r => stranded now r && (64 <=? jb_strands r)) kill_stranded d).
Lemma unstrand_jobs now d : t_jobs (unstrand now d) = map (unstrand_row now) (t_jobs d).
Proof.
  simpl. rewrite map_map. apply map_ext. intros r. unfold unstrand_row.
  destruct (stranded now r) eqn:E; simpl; [|by rewrite E].
  destruct (Z.leb_spec 64 (jb_strands r)) as [Hs|Hs].
  - unfold stranded, in_state. simpl. done.
  - rewrite E, (proj2 (Z.ltb_lt _ _) Hs). done.
Qed.
Lemma unstrand_row_ok now r :
  stranded now (unstrand_row now r) = false /\ (jb_strands r <= 64 -> jb_strands (unstrand_row now r) <= 64).
Proof.
  unfold unstrand_row. destruct (stranded now r) eqn:E; [|done].
  destruct (Z.leb_spec 64 (jb_strands r)) as [Hs|Hs]; split; simpl; try done. lia.
Qed.

Definition strand_ok (now : Z) (r : JobSql) : Prop := stranded now r = false /\ jb_strands r <= 64.
Lemma queued_strand_ok now r : jb_state r = Queued -> jb_strands r = 0 -> strand_ok now r.
Proof. intros Hq Hs. unfold strand_ok, stranded, in_state. rewrite Hq, Hs. simpl. done. Qed.
Lemma repair_kind_strand_ok now k d :
  (forall r, r ∈ t_jobs d -> strand_ok now r) ->
  forall r, r ∈ t_jobs (repair_kind now k d) -> strand_ok now r.
Proof.
  intros Hd r [?|(Hq & _ & Hs & _)]%repair_kind_rows; [by apply Hd|by apply queued_strand_ok].
Qed.
Definition ensure_janitor (now : Z) (d : Db) : Db :=
  if count_jobs (fun r => is_kind Janitor r && active r) d =? 0 then enqueue_db Janitor now "{}" d else d.
Lemma ensure_janitor_some now d :
  exists r, r ∈ t_jobs (ensure_janitor now d) /\ (is_kind Janitor r && active r) = true.
Proof.
  unfold ensure_janitor. set (p := fun r => is_kind Janitor r && active r).
  destruct (Z.eqb_spec (count_jobs p d) 0) as [E|E].
  - destruct (enqueue_spec Janitor now "{}" d) as (Hc & _).
    assert (0 < count_jobs (queued_of Janitor) (enqueue_db Janitor now "{}" d)) as Hpos by lia.
    apply count_jobs_pos in Hpos as (r & Hr & Hq). exists r. split; [done|].
    unfold queued_of in Hq. unfold p, active. bsimp. by rewrite H, H0.
  - apply (count_jobs_pos p d). unfold count_jobs in *. lia.
Qed.
Lemma active_not_dead k r : active r = true -> dead_of k r = false.
Proof.
  unfold active, dead_of, in_state. intros Ha. destruct (jb_state r); simpl in *; try done;
    by rewrite andb_false_r.
Qed.

(** After boot repair, whatever a killed isolate left: no row stands running
    past its lease and no strand count exceeds 64, a janitor is queued or
    running, live slices keep their rows, and a maintenance kind stays dead only
    once its three resurrections are spent. *)
Theorem repair_post (now : Z) (d : Db) :
  Forall (fun r => jb_strands r <= 64) (t_jobs d) ->
  (forall r, r ∈ t_jobs (repair now d) -> strand_ok now r)
  /\ (exists r, r ∈ t_jobs (repair now d) /\ is_kind Janitor r = true /\ active r = true)
  /\ (forall k, k ∈ gc_kinds -> exhausted k (repair now d))
  /\ (forall r, r ∈ t_jobs d -> jb_state r = Running -> stranded now r = false -> r ∈ t_jobs (repair now d)).
Proof.
  intros Hs. unfold repair. fold (unstrand now d). fold (ensure_janitor now (unstrand now d)).
  set (d3 := ensure_janitor now (unstrand now d)).
  assert (forall r, r ∈ t_jobs d3 -> r ∈ t_jobs (unstrand now d) \/ (jb_state r = Queued /\ jb_strands r = 0)) as Hd3.
  { intros r. unfold d3, ensure_janitor. destruct (_ =? 0); [|by left].
    intros [?|(? & _ & ? & _)]%enqueue_new; [by left|by right]. }
  assert (forall r, r ∈ t_jobs (unstrand now d) -> r ∈ t_jobs d3) as Hd3'.
  { intros r Hr. unfold d3, ensure_janitor. destruct (_ =? 0); [|done]. by apply enqueue_spec. }
  cbn [fold_left]. split; [|split; [|split]].
  - do 4 apply repair_kind_strand_ok. intros r [Hr|[? ?]]%Hd3; [|by apply queued_strand_ok].
    rewrite unstrand_jobs in Hr. apply elem_of_map in Hr as (x & <- & Hx).
    destruct (unstrand_row_ok now x). split; [done|]. rewrite Forall_forall in Hs. by auto.
  - destruct (ensure_janitor_some now (unstrand now d)) as (r & Hr & Hp). bsimp.
    exists r. split; [|done]. do 4 (apply repair_kind_keeps; [|by apply active_not_dead]). done.
  - intros k. unfold gc_kinds. rewrite !elem_of_cons. intros Hk.
    destruct_or! Hk; subst; [| | | |by apply not_elem_of_nil in Hk];
      repeat (first [apply repair_kind_exhausted|apply repair_kind_exhausted_other; [done|]]).
  - intros r Hr Hrun Hst. do 4 (apply repair_kind_keeps;
      [|unfold dead_of, in_state; rewrite Hrun; by rewrite andb_false_r]).
    apply Hd3'. rewrite unstrand_jobs. apply elem_of_map. exists r.
    unfold unstrand_row. by rewrite Hst.
Qed.

Module RepairDemo.
Definition stuck : JobSql := mkJob 3 "gc_mark" 5 0 None "{}" Running None (Some 10) (Some "L") 64.
Definition d : Db := on_jobs_seq (fun _ => 3) (on_jobs (fun _ => [stuck]) empty_db).
End RepairDemo.
Lemma repair_post_witness :
  exists r, r ∈ t_jobs (repair 1000000 RepairDemo.d) /\ is_kind Janitor r = true /\ active r = true.
Proof. apply (repair_post 1000000 RepairDemo.d). repeat constructor; simpl; lia. Defined.

Lemma error_outcome_witness :
  exists r', r' ∈ t_jobs (@land_outcome demo_platform (LeaseDemo.slice "L2" 100000) "L2" 8 100001
                            (Err Budget) LeaseDemo.d3).1 /\ jb_state r' = JDead.
Proof.
  destruct (@error_outcome demo_platform (LeaseDemo.slice "L2" 100000) Budget 8 100001 LeaseDemo.d3
    (mkJob 1 "janitor" 100000 0 None "{}" Running (Some "stranded mid-slice") (Some 100000) (Some "L2") 1))
    as (r' & Hin & _ & _ & _ & Hd).
  - vm_compute. split; repeat constructor. discriminate.
  - vm_compute; left.
  - reflexivity.
  - lia.
  - vm_compute. split; discriminate.
  - vm_compute; discriminate.
  - exists r'. split; [exact Hin|]. apply Hd. lia.
Defined.
