(* ===== verification/Cohort.v ===== *)
(** * Choosing a compaction cohort

    The pure selector of [server/src/jobs/compact.rs]: the tier ladder,
    eligibility, [select_cohort] and [next_wake].  [usize] is 32 bits wide on
    the wasm target. *)
From S2P Require Import Prelude Errors Db.
Open Scope Z_scope.

Definition BASE_N : Z := 8.
Definition LADDER : Z := 16.
Definition TIERS : nat := 5.
Definition MAX_BYTES : Z := Z.shiftl 64 20.
Definition COHORT_BYTES : Z := Z.shiftl 256 20.

Record Knobs : Type := mkKnobs { fanin : Z; min_age_ms : Z; max_rows : Z }.
Record LivePack : Type := mkLivePack { lp_id : string; lp_count : Z; lp_bytes : Z; lp_created : Z }.

(** [while count >= bound && t < TIERS - 1]; [k] is what is left of [TIERS - 1 - t]. *)
Fixpoint tier_loop (k : nat) (count : Z) (t : nat) (bound : Z) : nat :=
  match k with
  | O => t
  | S k' => if bound <=? count then tier_loop k' count (S t) (sat_mul64 bound LADDER) else t
  end.
Definition tier (count : Z) : nat := tier_loop (TIERS - 1) count 0 BASE_N.

(** The gates that do not depend on the clock, shared with [next_wake]. *)
Definition eligible_shape (p : LivePack) (quarantined : gset string) (k : Knobs) : bool :=
  (1 <=? lp_count p) && (lp_count p <=? Z.quot (max_rows k) 2) && (lp_bytes p <? MAX_BYTES)
  && negb (bool_decide (lp_id p ∈ quarantined)).
Definition eligible (p : LivePack) (quarantined : gset string) (cutoff : Z) (k : Knobs) : bool :=
  (1 <=? lp_count p) && (lp_count p <=? Z.quot (max_rows k) 2) && (lp_bytes p <? MAX_BYTES)
  && (lp_created p <=? cutoff) && negb (bool_decide (lp_id p ∈ quarantined)).

(** [usize::try_from(knobs.fanin).unwrap_or(2).max(2)] *)
Definition fanin_usize (k : Knobs) : Z :=
  Z.max 2 (if (0 <=? fanin k) && (fanin k <=? u32_max) then fanin k else 2).

Definition cohort_le (a b : LivePack) : Prop :=
  lp_created a < lp_created b \/ (lp_created a = lp_created b /\ String.le (lp_id a) (lp_id b)).
#[global] Instance cohort_le_dec : RelDecision cohort_le.
Proof. intros a b. unfold cohort_le. apply _. Defined.

Definition in_tier (i : nat) (p : LivePack) : bool := (tier (lp_count p) =? i)%nat.
Definition tier_packs (packs : list LivePack) (q : gset string) (cutoff : Z) (k : Knobs) (i : nat)
  : list LivePack :=
  List.filter (fun p => eligible p q cutoff k && in_tier i p) packs.

(** The first tier with the most packs among those that hold at least [t]. *)
Definition pick_tier (len : nat -> Z) (t : Z) : option nat :=
  fold_left (fun best i =>
      if (t <=? len i) && match best with Some b => len b <? len i | None => true end
      then Some i else best)
    (seq 0 TIERS) None.

Fixpoint take_cohort (l : list LivePack) (t maxr : Z) (n rows bytes : Z) : list LivePack :=
  match l with
  | [] => []
  | p :: l' =>
      if ((2 * t) mod 2 ^ 32 <=? n)
         || (maxr <? sat_add64 rows (lp_count p))
         || (COHORT_BYTES <? sat_add64 bytes (lp_bytes p))
      then []
      else p :: take_cohort l' t maxr (n + 1) (sat_add64 rows (lp_count p)) (sat_add64 bytes (lp_bytes p))
  end.

Definition select_cohort (packs : list LivePack) (q : gset string) (now : Z) (k : Knobs)
  : option (list LivePack) :=
  let cutoff := sat_sub64 now (min_age_ms k) in
  let per_tier := tier_packs packs q cutoff k in
  let t := fanin_usize k in
  match pick_tier (fun i => Z.of_nat (length (per_tier i))) t with
  | None => None
  | Some b =>
      let out := take_cohort (merge_sort cohort_le (per_tier b)) t (max_rows k) 0 0 0 in
      if 2 <=? Z.of_nat (length out) then Some out else None
  end.

Definition wake_time (k : Knobs) (p : LivePack) : Z := sat_add64 (lp_created p) (min_age_ms k).
Definition tier_times (packs : list LivePack) (q : gset string) (k : Knobs) (i : nat) : list Z :=
  map (wake_time k) (List.filter (fun p => eligible_shape p q k && in_tier i p) packs).
Definition opt_min (a b : option Z) : option Z :=
  match a, b with
  | Some x, Some y => Some (Z.min x y)
  | Some x, None => Some x
  | None, y => y
  end.
Definition next_wake (packs : list LivePack) (q : gset string) (k : Knobs) : option Z :=
  let t := Z.to_nat (fanin_usize k) in
  fold_right opt_min None
    (map (fun i => merge_sort Z.le (tier_times packs q k i) !! (t - 1)%nat) (seq 0 TIERS)).

(** ** Facts *)

Lemma MAX_BYTES_val : MAX_BYTES = 67108864.
Proof. reflexivity. Qed.
Lemma COHORT_BYTES_val : COHORT_BYTES = 268435456.
Proof. reflexivity. Qed.

Lemma tier_bounds c :
  tier c = if c <? 8 then 0%nat else if c <? 128 then 1%nat else if c <? 2048 then 2%nat
           else if c <? 32768 then 3%nat else 4%nat.
Proof.
  unfold tier, TIERS, BASE_N. cbn [Nat.sub tier_loop]. unfold LADDER.
  replace (sat_mul64 8 16) with 128 by (vm_compute; done).
  replace (sat_mul64 128 16) with 2048 by (vm_compute; done).
  replace (sat_mul64 2048 16) with 32768 by (vm_compute; done).
  repeat match goal with |- context [?a <=? ?b] => destruct (Z.leb_spec a b) end;
  repeat match goal with |- context [?a <? ?b] => destruct (Z.ltb_spec a b) end; lia.
Qed.
Lemma tier_lt c : (tier c < TIERS)%nat.
Proof. rewrite tier_bounds. unfold TIERS. repeat case_match; lia. Qed.

#[global] Instance cohort_le_trans : Transitive cohort_le.
Proof.
  intros a b c [H1|[H1 H1']] [H2|[H2 H2']]; unfold cohort_le; [left; lia|left; lia|left; lia|].
  right. split; [lia|]. by etrans.
Qed.
#[global] Instance cohort_le_total : Total cohort_le.
Proof.
  intros a b. unfold cohort_le. destruct (Z.lt_total (lp_created a) (lp_created b)) as [?|[?|?]];
    [left; by left| |right; by left].
  destruct (total String.le (lp_id a) (lp_id b)); [left; right|right; right]; split; done.
Qed.

Section PickTier.
Variables (len : nat -> Z) (t : Z).
Let stepf := fun best i =>
  if (t <=? len i) && match best with Some b => len b <? len i | None => true end
  then Some i else best.
Lemma pick_tier_fold l best :
  match fold_left stepf l best with
  | Some b => (Some b = best \/ (b ∈ l /\ t <= len b)) /\ (forall i, i ∈ l -> t <= len i -> len i <= len b)
              /\ (forall b0, best = Some b0 -> len b0 <= len b)
  | None => best = None /\ forall i, i ∈ l -> len i < t
  end.
Proof.
  revert best; induction l as [|i l IH]; intros best; simpl.
  - destruct best; [|split; [done|by intros ? ?%not_elem_of_nil]].
    split; [by left|]. split; [by intros ? ?%not_elem_of_nil|]. intros; by simplify_eq.
  - specialize (IH (stepf best i)). destruct (fold_left stepf l (stepf best i)) as [b|].
    + destruct IH as (Hb & Hmax & Hprev). unfold stepf in *.
      destruct (Z.leb_spec t (len i)) as [Ht|Ht]; simpl in *.
      * destruct best as [b0|]; [destruct (Z.ltb_spec (len b0) (len i)) as [Hl|Hl]|].
        -- specialize (Hprev i eq_refl). split; [right|split].
           ++ destruct Hb as [?|[? ?]]; simplify_eq; [split; [by left|done]|split; [by right|done]].
           ++ intros x [->|Hx]%elem_of_cons ?; [lia|by apply Hmax].
           ++ intros b1 ?; simplify_eq. lia.
        -- specialize (Hprev b0 eq_refl). split; [|split].
           ++ destruct Hb as [?|[? ?]]; [by left|right; split; [by right|done]].
           ++ intros x [->|Hx]%elem_of_cons ?; [lia|by apply Hmax].
           ++ intros b1 ?; by simplify_eq.
        -- specialize (Hprev i eq_refl). split; [right|split; [|done]].
           ++ destruct Hb as [?|[? ?]]; simplify_eq; [split; [by left|done]|split; [by right|done]].
           ++ intros x [->|Hx]%elem_of_cons ?; [lia|by apply Hmax].
      * split; [|split; [|done]].
        -- destruct Hb as [?|[? ?]]; [by left|right; split; [by right|done]].
        -- intros x [->|Hx]%elem_of_cons ?; [lia|by apply Hmax].
    + destruct IH as [Hn Hl]. unfold stepf in Hn.
      destruct (Z.leb_spec t (len i)) as [Ht|Ht]; simpl in Hn.
      * destruct best as [b0|]; [destruct (len b0 <? len i)|]; done.
      * split; [done|]. intros x [->|Hx]%elem_of_cons; [done|by apply Hl].
Qed.
Lemma pick_tier_spec :
  match pick_tier len t with
  | Some b => (b < TIERS)%nat /\ t <= len b /\ forall i, (i < TIERS)%nat -> t <= len i -> len i <= len b
  | None => forall i, (i < TIERS)%nat -> len i < t
  end.
Proof.
  unfold pick_tier. pose proof (pick_tier_fold (seq 0 TIERS) None) as Hf. fold stepf.
  destruct (fold_left stepf (seq 0 TIERS) None) as [b|].
  - destruct Hf as ([?|[Hin Ht]] & Hmax & _); [done|]. apply elem_of_seq in Hin.
    split; [lia|]. split; [done|]. intros i Hi. apply Hmax, elem_of_seq. lia.
  - destruct Hf as [_ Hl]. intros i Hi. apply Hl, elem_of_seq. lia.
Qed.
End PickTier.

Lemma pick_tier_ext f g t : (forall i, f i = g i) -> pick_tier f t = pick_tier g t.
Proof.
  intros E. unfold pick_tier. generalize (@None nat) as best.
  induction (seq 0 TIERS) as [|i l IH]; intros best; simpl; [done|].
  rewrite (E i). destruct best as [b|]; [rewrite (E b)|]; apply IH.
Qed.

(** ** The greedy prefix *)

Definition sum_count (l : list LivePack) : Z := fold_right (fun p a => lp_count p + a) 0 l.
Definition sum_bytes (l : list LivePack) : Z := fold_right (fun p a => lp_bytes p + a) 0 l.

Lemma take_cohort_prefix l t m n r b : exists rest, l = take_cohort l t m n r b ++ rest.
Proof.
  revert n r b; induction l as [|p l IH]; intros n r b; simpl; [by exists []|].
  destruct (_ || _ || _); [by exists (p :: l)|].
  destruct (IH (n + 1) (sat_add64 r (lp_count p)) (sat_add64 b (lp_bytes p))) as [rest Hr].
  exists rest. simpl. by rewrite <- Hr.
Qed.
Lemma take_cohort_bounds l t m n r b :
  0 <= t < 2 ^ 31 -> 0 <= n -> m < i64_max -> 0 <= r -> 0 <= b ->
  Forall (fun p => 0 <= lp_count p /\ 0 <= lp_bytes p) l ->
  let o := take_cohort l t m n r b in
  n + Z.of_nat (length o) <= Z.max n (2 * t)
  /\ (r <= m -> r + sum_count o <= m) /\ (b <= COHORT_BYTES -> b + sum_bytes o <= COHORT_BYTES).
Proof.
  intros Ht. revert n r b. induction l as [|p l IH]; intros n r b Hn Hm Hr Hb Hf; simpl; [lia|].
  inversion Hf as [|? ? [Hp1 Hp2] Hf']; subst. rewrite Z.mod_small by lia.
  destruct (Z.leb_spec (2 * t) n); simpl; [lia|].
  destruct (Z.ltb_spec m (sat_add64 r (lp_count p))) as [|Hc]; simpl; [lia|].
  destruct (Z.ltb_spec COHORT_BYTES (sat_add64 b (lp_bytes p))) as [|Hd]; simpl; [lia|].
  assert (sat_add64 r (lp_count p) = r + lp_count p) as Er
    by (unfold sat_add64, sat64, i64_min, i64_max in *; lia).
  assert (sat_add64 b (lp_bytes p) = b + lp_bytes p) as Eb
    by (rewrite COHORT_BYTES_val in *; unfold sat_add64, sat64, i64_min, i64_max in *; lia).
  rewrite Er, Eb in *.
  specialize (IH (n + 1) (r + lp_count p) (b + lp_bytes p)
    ltac:(lia) Hm ltac:(lia) ltac:(lia) Hf').
  destruct IH as (H1 & H2 & H3). lia.
Qed.

Lemma eligible_spec p q c k :
  eligible p q c k = true <->
  1 <= lp_count p <= Z.quot (max_rows k) 2 /\ lp_bytes p < MAX_BYTES /\ lp_created p <= c
  /\ lp_id p ∉ q.
Proof.
  unfold eligible. rewrite !andb_true_iff, negb_true_iff, bool_decide_eq_false.
  rewrite !Z.leb_le, Z.ltb_lt. tauto.
Qed.
Lemma eligible_split p q c k :
  eligible p q c k = eligible_shape p q k && (lp_created p <=? c).
Proof. unfold eligible, eligible_shape. 
  by destruct (1 <=? lp_count p), (lp_count p <=? _), (lp_bytes p <? _), (lp_created p <=? c), (bool_decide _).
Qed.

Definition knobs_ok (k : Knobs) : Prop :=
  2 <= fanin k < 2 ^ 31 /\ 0 <= max_rows k < i64_max.
Definition packs_ok (packs : list LivePack) : Prop :=
  Forall (fun p => 0 <= lp_count p /\ 0 <= lp_bytes p) packs.
Lemma fanin_usize_id k : knobs_ok k -> fanin_usize k = fanin k.
Proof.
  intros [? _]. unfold fanin_usize, u32_max.
  rewrite (proj2 (andb_true_iff _ _)) by (rewrite !Z.leb_le; lia). lia.
Qed.

Lemma two_fit p1 p2 l q c k :
  knobs_ok k -> eligible p1 q c k = true -> eligible p2 q c k = true ->
  0 <= lp_bytes p1 -> 0 <= lp_bytes p2 ->
  exists o, take_cohort (p1 :: p2 :: l) (fanin_usize k) (max_rows k) 0 0 0 = p1 :: p2 :: o.
Proof.
  intros Hk H1 H2 B1 B2. rewrite fanin_usize_id by done. destruct Hk as [Hf Hm].
  apply eligible_spec in H1 as (C1 & D1 & _), H2 as (C2 & D2 & _).
  pose proof (Z.quot_le_upper_bound (max_rows k) 2 (max_rows k)).
  pose proof (Z.mul_quot_le (max_rows k) 2 ltac:(lia) ltac:(lia)).
  rewrite MAX_BYTES_val in *.
  assert (sat_add64 0 (lp_count p1) = lp_count p1) as E1 by (unfold sat_add64, sat64, i64_min, i64_max in *; lia).
  assert (sat_add64 (lp_count p1) (lp_count p2) = lp_count p1 + lp_count p2) as E2
    by (unfold sat_add64, sat64, i64_min, i64_max in *; lia).
  assert (sat_add64 0 (lp_bytes p1) = lp_bytes p1) as E3
    by (unfold sat_add64, sat64, i64_min, i64_max in *; lia).
  assert (sat_add64 (lp_bytes p1) (lp_bytes p2) = lp_bytes p1 + lp_bytes p2) as E4
    by (unfold sat_add64, sat64, i64_min, i64_max in *; lia).
  cbn [take_cohort]. rewrite E1, E2, E3, E4. rewrite (Z.mod_small (2 * fanin k)) by lia.
  rewrite COHORT_BYTES_val.
  repeat match goal with
  | |- context [?a <=? ?b] => rewrite (proj2 (Z.leb_gt a b)) by lia
  | |- context [?a <? ?b] => rewrite (proj2 (Z.ltb_ge a b)) by lia
  end. simpl. eauto.
Qed.

(** ** What the selector promises *)

(** A cohort is the oldest prefix of the fullest tier that holds at least the
    fan-in: all its packs are live inputs that pass every gate and share the
    tier, it has between two and twice the fan-in packs, and it respects the
    row budget and the 256 MiB byte budget. *)
Theorem select_cohort_sound (packs : list LivePack) (q : gset string) (now : Z) (k : Knobs) (c : list LivePack) :
  knobs_ok k -> packs_ok packs -> select_cohort packs q now k = Some c ->
  let cutoff := sat_sub64 now (min_age_ms k) in
  exists i rest,
    (i < TIERS)%nat
    /\ c ++ rest ≡ₚ tier_packs packs q cutoff k i /\ StronglySorted cohort_le (c ++ rest)
    /\ Forall (fun p => p ∈ packs /\ eligible p q cutoff k = true /\ tier (lp_count p) = i) c
    /\ fanin k <= Z.of_nat (length (tier_packs packs q cutoff k i))
    /\ (forall j, (j < TIERS)%nat ->
          fanin k <= Z.of_nat (length (tier_packs packs q cutoff k j)) ->
          (length (tier_packs packs q cutoff k j) <= length (tier_packs packs q cutoff k i))%nat)
    /\ 2 <= Z.of_nat (length c) <= 2 * fanin k
    /\ sum_count c <= max_rows k /\ sum_bytes c <= COHORT_BYTES.
Proof.
  intros Hk Hp Hs cutoff. unfold select_cohort in Hs. fold cutoff in Hs.
  set (pt := tier_packs packs q cutoff k) in *.
  pose proof (pick_tier_spec (fun i => Z.of_nat (length (pt i))) (fanin_usize k)) as Ht.
  rewrite fanin_usize_id in * by done.
  destruct (pick_tier _ _) as [b|]; [|done]. destruct Ht as (Hb & Hlen & Hmax).
  set (l := merge_sort cohort_le (pt b)) in *.
  set (o := take_cohort l (fanin k) (max_rows k) 0 0 0) in *.
  destruct (Z.leb_spec 2 (Z.of_nat (length o))) as [H2|]; [|done]. injection Hs as <-.
  destruct (take_cohort_prefix l (fanin k) (max_rows k) 0 0 0) as [rest Hrest]. fold o in Hrest.
  assert (l ≡ₚ pt b) as Hperm by apply merge_sort_Permutation.
  assert (StronglySorted cohort_le l) as Hsort by apply (StronglySorted_merge_sort cohort_le).
  assert (forall p, p ∈ l -> p ∈ packs /\ eligible p q cutoff k = true /\ tier (lp_count p) = b) as Hin.
  { intros p. rewrite Hperm. unfold pt, tier_packs, in_tier. rewrite elem_of_filter_b.
    intros [? ?]. bsimp. apply Nat.eqb_eq in H1. done. }
  assert (packs_ok l) as Hpl.
  { apply Forall_forall. intros p Hpin. unfold packs_ok in Hp. rewrite Forall_forall in Hp.
    apply Hp. by apply Hin. }
  destruct Hk as [Hf Hm].
  destruct (take_cohort_bounds l (fanin k) (max_rows k) 0 0 0) as (B1 & B2 & B3); try lia; try done.
  fold o in B1, B2, B3. exists b, rest. rewrite <- Hrest. split; [done|]. split; [done|]. split; [done|].
  split; [|split; [done|split; [|rewrite COHORT_BYTES_val in *; lia]]].
  - apply Forall_forall. intros p Hpo. apply Hin. rewrite Hrest. apply elem_of_app. by left.
  - intros j Hj Hfj. apply Nat2Z.inj_le. by apply Hmax.
Qed.

Lemma filter_split {A} (p : A -> bool) l :
  List.filter p l ++ List.filter (fun x => negb (p x)) l ≡ₚ l.
Proof.
  induction l as [|x l IH]; simpl; [done|]. destruct (p x); simpl; [by rewrite IH|].
  by rewrite <- Permutation_middle, IH.
Qed.
Lemma select_cohort_sub packs q now k c :
  select_cohort packs q now k = Some c -> exists rest, c ++ rest ≡ₚ packs.
Proof.
  unfold select_cohort. destruct (pick_tier _ _) as [b|]; [|done]. case_match; [|done]. intros [= <-].
  set (l := merge_sort cohort_le _). destruct (take_cohort_prefix l (fanin_usize k) (max_rows k) 0 0 0) as [r Hr].
  unfold tier_packs in l. eexists (r ++ _). rewrite (assoc_L (++)). rewrite <- Hr.
  unfold l. rewrite merge_sort_Permutation. apply filter_split.
Qed.

Lemma select_cohort_some packs q now k :
  knobs_ok k -> packs_ok packs ->
  is_some (select_cohort packs q now k) = true <->
  exists i, (i < TIERS)%nat /\
    fanin k <= Z.of_nat (length (tier_packs packs q (sat_sub64 now (min_age_ms k)) k i)).
Proof.
  intros Hk Hp. unfold select_cohort. set (cutoff := sat_sub64 now (min_age_ms k)).
  set (pt := tier_packs packs q cutoff k).
  pose proof (pick_tier_spec (fun i => Z.of_nat (length (pt i))) (fanin_usize k)) as Ht.
  rewrite fanin_usize_id in Ht |- * by done.
  destruct (pick_tier _ _) as [b|].
  - destruct Ht as (Hb & Hlen & _). split; [by exists b|]. intros _.
    set (l := merge_sort cohort_le (pt b)).
    assert (l ≡ₚ pt b) as Hperm by apply merge_sort_Permutation.
    assert (forall p, p ∈ l -> eligible p q cutoff k = true /\ 0 <= lp_bytes p) as Hin.
    { intros p. rewrite Hperm. unfold pt, tier_packs. rewrite elem_of_filter_b. intros [? ?].
      bsimp. split; [done|]. unfold packs_ok in Hp. rewrite Forall_forall in Hp. by apply Hp. }
    assert (length l = length (pt b)) as Hll by (by rewrite Hperm).
    destruct Hk as [Hf Hm].
    destruct l as [|p1 [|p2 l']]; [simpl in Hll; lia|simpl in Hll; lia|].
    destruct (Hin p1) as [E1 B1]; [left|]. destruct (Hin p2) as [E2 B2]; [right; left|].
    destruct (two_fit p1 p2 l' q cutoff k (conj Hf Hm) E1 E2 B1 B2) as [o Ho].
    rewrite fanin_usize_id in Ho by done. rewrite Ho. simpl length.
    rewrite (proj2 (Z.leb_le _ _)) by lia. done.
  - split; [done|]. intros (i & Hi & Hl). specialize (Ht i Hi). lia.
Qed.

(** The selector reads the live packs as a set: the order in which SQLite
    returns them cannot change the cohort. *)
Theorem select_cohort_order_independent (p1 p2 : list LivePack) (q : gset string) (now : Z) (k : Knobs) :
  NoDup (map lp_id p1) -> p1 ≡ₚ p2 -> select_cohort p1 q now k = select_cohort p2 q now k.
Proof.
  intros Hnd Hperm. unfold select_cohort. set (cutoff := sat_sub64 now (min_age_ms k)).
  assert (forall i, tier_packs p1 q cutoff k i ≡ₚ tier_packs p2 q cutoff k i) as Ht.
  { intros i. unfold tier_packs. by rewrite Hperm. }
  assert (forall i, merge_sort cohort_le (tier_packs p1 q cutoff k i)
                    = merge_sort cohort_le (tier_packs p2 q cutoff k i)) as Hsort.
  { intros i. apply (StronglySorted_unique_strong cohort_le).
    - intros x y Hx Hy Hxy Hyx. rewrite merge_sort_Permutation in Hx, Hy.
      unfold tier_packs in Hx, Hy. apply elem_of_filter_b in Hx as [Hx _], Hy as [Hy _].
      rewrite <- Hperm in Hy. assert (lp_id x = lp_id y) as Eid.
      { destruct Hxy as [?|[? ?]], Hyx as [?|[? ?]]; try lia. by apply (anti_symm String.le). }
      clear -Hnd Hx Hy Eid. induction p1 as [|z l IH]; [by apply not_elem_of_nil in Hx|].
      simpl in Hnd. apply NoDup_cons in Hnd as [Hn Hnd].
      apply elem_of_cons in Hx as [->|Hx], Hy as [->|Hy]; [done| | |by apply IH].
      + destruct Hn. rewrite Eid. apply elem_of_map. eauto.
      + destruct Hn. rewrite <- Eid. apply elem_of_map. eauto.
    - apply (StronglySorted_merge_sort cohort_le).
    - apply (StronglySorted_merge_sort cohort_le).
    - by rewrite !merge_sort_Permutation. }
  assert (pick_tier (fun i => Z.of_nat (length (tier_packs p1 q cutoff k i))) (fanin_usize k)
          = pick_tier (fun i => Z.of_nat (length (tier_packs p2 q cutoff k i))) (fanin_usize k)) as ->.
  { apply pick_tier_ext. intros i. by rewrite (Ht i). }
  destruct (pick_tier _ _) as [b|]; [|done]. by rewrite Hsort.
Qed.

(** ** The deferred wake-up *)

Lemma sorted_nth_count (v : list Z) (n : nat) (now : Z) :
  StronglySorted Z.le v ->
  (exists x, v !! n = Some x /\ x <= now) <-> (n < length (List.filter (fun x => (x <=? now)%Z) v))%nat.
Proof.
  intros Hs. revert n; induction Hs as [|x v Hs IH Hf]; intros n; simpl.
  - split; [by intros (? & ? & _)|lia].
  - destruct (Z.leb_spec x now) as [Hx|Hx]; simpl.
    + destruct n as [|n]; simpl; [split; [lia|eauto]|]. rewrite IH. lia.
    + rewrite filter_false.
      * split; [|simpl; lia]. intros (y & Hy & Hle). exfalso.
        destruct n as [|n]; simpl in Hy; simplify_eq; [lia|].
        rewrite Forall_forall in Hf. apply list_elem_of_lookup_2, Hf in Hy. lia.
      * intros y Hy. rewrite Forall_forall in Hf. specialize (Hf y Hy). lia.
Qed.

Lemma filter_map_length {A} (f : A -> Z) (p : A -> bool) (g : Z -> bool) l :
  length (List.filter g (map f (List.filter p l))) = length (List.filter (fun x => p x && g (f x)) l).
Proof.
  induction l as [|x l IH]; simpl; [done|]. destruct (p x); simpl; [|done].
  destruct (g (f x)); simpl; by rewrite IH.
Qed.
Lemma filter_length_ext {A} (p g : A -> bool) l :
  (forall x, x ∈ l -> p x = g x) -> length (List.filter p l) = length (List.filter g l).
Proof.
  induction l as [|x l IH]; simpl; intros E; [done|].
  rewrite (E x) by left. destruct (g x); simpl; rewrite IH; auto; intros; apply E; by right.
Qed.

Lemma opt_min_fold l now :
  (match fold_right opt_min None l with Some w => w <=? now | None => false end) = true <->
  exists x, Some x ∈ l /\ x <= now.
Proof.
  induction l as [|o l IH]; simpl.
  - split; [done|]. by intros (? & ?%not_elem_of_nil & _).
  - destruct o as [x|]; [destruct (fold_right opt_min None l) as [w|]|]; simpl in *.
    + rewrite Z.leb_le in *. split.
      * intros Hm. destruct (Z.le_gt_cases x now); [exists x; split; [left|done]|].
        destruct IH as [(y & ? & ?) _]; [lia|]. exists y. split; [by right|done].
      * intros (y & [?|Hy]%elem_of_cons & Hle); simplify_eq; [lia|].
        assert (w <= now) by (apply IH; eauto). lia.
    + rewrite Z.leb_le. split; [intros; exists x; split; [left|done]|].
      intros (y & [?|Hy]%elem_of_cons & Hle); simplify_eq; [done|].
      destruct IH as [_ IH]. discriminate IH. eauto.
    + rewrite IH. split; intros (y & Hy & Hle); exists y; (split; [|done]).
      * by right.
      * apply elem_of_cons in Hy as [?|?]; [done|done].
Qed.

(** [next_wake] is exact: at every instant, a cohort exists if and only if the
    wake time it computes has been reached — so a job queued at that time finds
    work, and none queued means no instant ever will. *)
Theorem next_wake_exact (packs : list LivePack) (q : gset string) (k : Knobs) (now : Z) :
  knobs_ok k -> packs_ok packs ->
  Forall (fun p => in_i64 (lp_created p + min_age_ms k)) packs -> in_i64 (now - min_age_ms k) ->
  is_some (select_cohort packs q now k)
  = match next_wake packs q k with Some w => w <=? now | None => false end.
Proof.
  intros Hk Hp Hr Hn. apply eq_true_iff_eq. rewrite select_cohort_some by done.
  unfold next_wake. rewrite opt_min_fold, fanin_usize_id by done.
  set (t := Z.to_nat (fanin k)).
  assert (forall i, fanin k <= Z.of_nat (length (tier_packs packs q (sat_sub64 now (min_age_ms k)) k i))
    <-> exists x, merge_sort Z.le (tier_times packs q k i) !! (t - 1)%nat = Some x /\ x <= now) as Hi.
  { intros i. rewrite sorted_nth_count by apply (StronglySorted_merge_sort Z.le).
    rewrite merge_sort_Permutation. unfold tier_times. rewrite filter_map_length.
    unfold tier_packs. rewrite (filter_length_ext _
      (fun p => eligible_shape p q k && in_tier i p && (wake_time k p <=? now))).
    { destruct Hk as [[? ?] _]. unfold t. lia. }
    intros p Hpin. rewrite Forall_forall in Hr. specialize (Hr p Hpin). simpl in Hr.
    rewrite eligible_split. unfold wake_time, sat_add64, sat_sub64.
    rewrite !sat64_id by done.
    replace (lp_created p <=? now - min_age_ms k) with (lp_created p + min_age_ms k <=? now) by lia.
    by destruct (eligible_shape p q k), (in_tier i p), (_ <=? now). }
  split.
  - intros (i & Hlt & Hl). apply Hi in Hl as (x & Hx & Hle). exists x. split; [|done].
    apply elem_of_map. exists i. split; [done|]. apply elem_of_seq. lia.
  - intros (x & Hx & Hle). apply elem_of_map in Hx as (i & Hx & Hin). apply elem_of_seq in Hin.
    exists i. split; [lia|]. apply Hi. eauto.
Qed.

(** ** Concrete runs *)

Module CohortDemo.
Definition k : Knobs := mkKnobs 4 60000 100000.
Definition mk (id : string) (count created : Z) : LivePack := mkLivePack id count 100 created.
Definition packs : list LivePack :=
  [mk "s0" 4 0; mk "s1" 4 1; mk "b0" 100 0; mk "s2" 4 2; mk "s3" 4 3; mk "b1" 100 0].
Definition cohort : list LivePack := [mk "s0" 4 0; mk "s1" 4 1; mk "s2" 4 2; mk "s3" 4 3].
Lemma knobs_fine : knobs_ok k.
Proof. unfold knobs_ok, i64_max; simpl; lia. Qed.
Lemma packs_fine : packs_ok packs.
Proof. repeat constructor; simpl; lia. Qed.
Lemma select : select_cohort packs ∅ 1000000 k = Some cohort.
Proof. vm_compute. reflexivity. Qed.
End CohortDemo.

Lemma select_cohort_sound_witness :
  sum_count CohortDemo.cohort <= 100000
  /\ exists i, Forall (fun p => tier (lp_count p) = i) CohortDemo.cohort.
Proof.
  destruct (select_cohort_sound CohortDemo.packs ∅ 1000000 CohortDemo.k CohortDemo.cohort
    CohortDemo.knobs_fine CohortDemo.packs_fine CohortDemo.select)
    as (i & rest & _ & _ & _ & Hf & _ & _ & _ & Hc & _).
  split; [exact Hc|]. exists i. eapply Forall_impl; [exact Hf|]. simpl. tauto.
Defined.
Lemma select_cohort_order_independent_witness :
  select_cohort (rev CohortDemo.packs) ∅ 1000000 CohortDemo.k = Some CohortDemo.cohort.
Proof.
  rewrite <- CohortDemo.select. symmetry.
  apply (select_cohort_order_independent CohortDemo.packs).
  - apply (bool_decide_unpack _). vm_compute. exact I.
  - apply Permutation_rev.
Defined.
Lemma next_wake_exact_witness :
  is_some (select_cohort CohortDemo.packs ∅ 60002 CohortDemo.k) = false
  /\ is_some (select_cohort CohortDemo.packs ∅ 60003 CohortDemo.k) = true.
Proof.
  assert (Forall (fun p => in_i64 (lp_created p + min_age_ms CohortDemo.k)) CohortDemo.packs) as Hf.
  { repeat constructor; simpl; unfold i64_min, i64_max; lia. }
  split; (rewrite (next_wake_exact CohortDemo.packs ∅ CohortDemo.k _
                     CohortDemo.knobs_fine CohortDemo.packs_fine Hf);
          [vm_compute; reflexivity|split; simpl; unfold i64_min, i64_max; lia]).
Defined.
