(* ===== verification/GcBase.v ===== *)
(** * Chain state shared by the collector and the compactor

    The helpers of [server/src/jobs/gc.rs] that every chain arm uses: the
    [gc.*] meta keys that describe the chain in flight, the mark bitmaps, the
    cohort-live guard (of [jobs/compact.rs]), the fence every write after an
    await passes, and [wipe_all], the kill helper with its keep rule.  The
    theorem is that the kill never loses an object: what some live pack held
    before it, some live pack holds after. *)
From S2P Require Import Prelude Errors Db Jobs.
Open Scope Z_scope.

(** ** Statements on packs, objects and marked *)

Definition in_marked (d : Db) (pack : string) : bool := is_some (t_marked d !! pack).
(** [SELECT pack_id FROM marked]: the table is scanned in key order. *)
Definition marked_ids (d : Db) : list string := merge_sort String.le (map fst (map_to_list (t_marked d))).
(** [DELETE FROM objects WHERE p pack_id]. *)
Definition delete_objects (p : string -> bool) (d : Db) : Db :=
  on_objects (filter (fun kv => p kv.1.2 = false)) d.
(** [UPDATE packs SET state='dead', dead_at=? WHERE p]. *)
Definition kill_row (now : Z) (r : PackSql) : PackSql :=
  mkPack Dead (pk_count r) (pk_bytes r) (pk_lo r) (pk_hi r) (pk_push r) (pk_created r) (Some now).
Definition kill_packs (p : string -> PackSql -> bool) (now : Z) (d : Db) : Db :=
  on_packs (map_imap (fun id r => Some (if p id r then kill_row now r else r))) d.

Section Gc.
Context `{Platform}.

(** ** Chain identity *)

Definition chain_json (c : string) : string :=
  "{" +:+ dq +:+ "chain" +:+ dq +:+ ":" +:+ dq +:+ c +:+ dq +:+ "}".
Definition chain_payload : DoM string :=
  c ← meta_opt "gc.chain";
  mret (match c with Some c => chain_json c | None => "{}" end).
Definition stray (job : Job) : DoM bool :=
  match json_job_chain (job_payload job) with
  | Some c => m ← meta_opt "gc.chain"; mret (negb (bool_decide (m = Some c)))
  | None => mret false
  end.
Definition legacy_chain : DoM bool := gets (fun d =>
  negb (is_some (t_meta d !! "gc.phase")) && negb (is_some (t_meta d !! "gc.chain"))
  && is_some (t_meta d !! "gc.started_at")).
Definition barrier_active : DoM bool := gets (fun d =>
  is_some (t_meta d !! "gc.chain") && is_some (t_meta d !! "gc.started_at")
  && meta_is d "gc.barrier" "1" && negb (meta_is d "gc.mode" "compact")).
Definition barrier_capture (d : Db) : bool :=
  match knob d "gc_barrier" with
  | Some v => negb (v =? 0)
  | None => negb (env_i64 "GE_GC_BARRIER" 0 =? 0)
  end.
Definition refs_moved : DoM bool :=
  a ← meta_i64 "refs_version"; b ← meta_i64 "gc.refs_version"; mret (negb (a =? b)).
Definition refs_frozen_moved : DoM bool :=
  old ← meta_opt "gc.refs_version";
  match old with
  | Some old => match parse_i64 old with
                | Some o => v ← meta_i64 "refs_version"; mret (negb (o =? v))
                | None => mret false
                end
  | None => mret false
  end.

(** ** The cohort-live guard and the kill helper *)

Definition count_marked (d : Db) : Z := Z.of_nat (length (map_to_list (t_marked d))).
Definition cohort_live : DoM bool := gets (fun d =>
  let m := count_marked d in
  if m =? 0 then false
  else count_packs (fun id r => in_marked d id && bool_decide (pk_state r = Live)) d =? m).

Definition open_or_live (r : PackSql) : bool :=
  bool_decide (pk_state r = Ingesting) || bool_decide (pk_state r = Live).
(** A retirement interrupted mid-flight drops the rows of its dead packs. *)
Definition wipe_retired : DoM unit :=
  it ← meta_opt "gc.retire";
  match it ≫= json_retire_ids with
  | Some ids => modify (fun d => delete_objects
      (fun p => bool_decide (p ∈ ids) && negb (pack_live d p)) d)
  | None => mret tt
  end.
(** The keep rule on the build pack. *)
Definition wipe_new_pack (now : Z) : DoM unit :=
  np ← meta_opt "gc.new_pack";
  match np with
  | None => mret tt
  | Some p =>
      live ← gets (fun d => pack_live d p);
      cl ← cohort_live;
      if live && negb cl
      then modify (fun d => delete_objects (fun q => in_marked d q && negb (pack_live d q)) d)
      else modify (delete_objects (String.eqb p)) ≫= fun _ =>
           modify (kill_packs (fun id r => String.eqb id p && open_or_live r) now)
  end.
Definition wipe_all (now : Z) : DoM unit :=
  wipe_retired ≫= fun _ =>
  wipe_new_pack now ≫= fun _ =>
  modify wipe_gc_meta ≫= fun _ =>
  modify wipe_scratch.

(** ** The fence and the abort *)

Definition chain_fence (now : Z) (job : Job) (chain : option string) (pack : string) : DoM bool :=
  hb ← heartbeat now job;
  if negb hb then fail stale_lease
  else c ← meta_opt "gc.chain";
       if negb (bool_decide (c = chain)) then mret false
       else m ← meta_opt "gc.mode";
            np ← meta_opt "gc.new_pack";
            mret (negb (bool_decide (m = Some "compact") && negb (bool_decide (np = Some pack)))).
Definition abort (now : Z) : DoM SliceOutcome :=
  compact ← gets (fun d => meta_is d "gc.mode" "compact");
  wipe_all now ≫= fun _ =>
  (if (compact : bool) then mret tt
   else enqueue GcMark (add64 now gc_quiet_ms) "{}") ≫= fun _ =>
  mret Done.
Inductive Flow : Type := FYield | FDone | FRetry (e : Error) | FRebuild.

(** ** Mark bitmaps: one bit per entry index, lowest bit first *)

Definition bm_set (bm : list Z) (i : Z) : result Error (list Z) :=
  match bm !! Z.to_nat (i / 8) with
  | Some b => Ok (<[Z.to_nat (i / 8) := Z.lor b (Z.shiftl 1 (i mod 8))]> bm)
  | None => Err (Internal "idx past pack count")
  end.
Definition bm_get (bm : list Z) (i : Z) : bool :=
  match bm !! Z.to_nat (i / 8) with Some b => Z.testbit b (i mod 8) | None => false end.
(** The scan stops at the bitmap's end or at [limit] hits; [fuel] counts the
    bits left to scan, and [8 * length bm] of them are enough. *)
Fixpoint bm_scan (fuel : nat) (bm : list Z) (i : Z) (limit : nat) : list Z :=
  match fuel, limit with
  | S fuel', S limit' =>
      if (Z.to_nat (i / 8) <? length bm)%nat then
        if bm_get bm i then i :: bm_scan fuel' bm (sat_addu32 i 1) limit'
        else bm_scan fuel' bm (sat_addu32 i 1) limit
      else []
  | _, _ => []
  end.
Definition bm_idxs_from (bm : list Z) (from : Z) (limit : nat) : list Z :=
  bm_scan (8 * length bm) bm from limit.
Definition bm_popcount (bm : list Z) : nat :=
  fold_right (fun b n => (length (List.filter (Z.testbit b) (map Z.of_nat (seq 0 8))) + n)%nat) 0%nat bm.
End Gc.

(** ** No object is lost

    An object is live when some live pack's index holds it: what
    [Index::lookup] can answer. *)

Definition live_sha (d : Db) (sha : string) : Prop :=
  exists p, is_Some (t_objects d !! (sha, p)) /\ pack_live d p = true.
(** Every object readable in [d] is readable in [d'], and no ref changed. *)
Definition lossless (d d' : Db) : Prop :=
  (forall sha, live_sha d sha -> live_sha d' sha) /\ t_refs d' = t_refs d.
#[global] Instance lossless_preorder : PreOrder lossless.
Proof.
  split; [by split|]. intros d1 d2 d3 [H1 H1'] [H2 H2']. split; [auto|congruence].
Qed.
Lemma lossless_ext d d' :
  t_objects d' = t_objects d -> t_packs d' = t_packs d -> t_refs d' = t_refs d -> lossless d d'.
Proof.
  intros Ho Hp Hr. split; [|done]. intros s (p & Hs & Hl). exists p.
  unfold pack_live in *. by rewrite Ho, Hp.
Qed.

Lemma delete_objects_lookup P d s p :
  t_objects (delete_objects P d) !! (s, p)
  = if P p then None else t_objects d !! (s, p).
Proof.
  unfold delete_objects. simpl. destruct (P p) eqn:E.
  - apply map_lookup_filter_None_2. right. intros r _. simpl. by rewrite E.
  - destruct (t_objects d !! (s, p)) as [r|] eqn:Er.
    + by apply map_lookup_filter_Some_2.
    + apply map_lookup_filter_None_2. by left.
Qed.
Lemma delete_objects_lossless P d :
  (forall p, P p = true -> pack_live d p = false) -> lossless d (delete_objects P d).
Proof.
  intros HP. split; [|done]. intros s (p & Hs & Hl). exists p. rewrite delete_objects_lookup.
  destruct (P p) eqn:E; [by rewrite HP in Hl|done].
Qed.
Lemma kill_packs_lookup P now d p :
  t_packs (kill_packs P now d) !! p
  = (fun r => if P p r then kill_row now r else r) <$> t_packs d !! p.
Proof. unfold kill_packs. simpl. rewrite map_lookup_imap. by destruct (t_packs d !! p). Qed.
Lemma kill_packs_live P now d p :
  pack_live (kill_packs P now d) p
  = pack_live d p && negb (match t_packs d !! p with Some r => P p r | None => false end).
Proof.
  unfold pack_live. rewrite kill_packs_lookup. destruct (t_packs d !! p) as [r|]; [|done].
  simpl. destruct (P p r); simpl; [|by rewrite andb_true_r]. by rewrite andb_false_r.
Qed.

Lemma wipe_meta_lookup d k :
  t_meta (wipe_gc_meta d) !! k = if is_gc_key k then None else t_meta d !! k.
Proof.
  unfold wipe_gc_meta. simpl. destruct (is_gc_key k) eqn:E.
  - apply map_lookup_filter_None_2. right. intros r _. simpl. by rewrite E.
  - destruct (t_meta d !! k) as [r|] eqn:Er.
    + by apply map_lookup_filter_Some_2.
    + apply map_lookup_filter_None_2. by left.
Qed.

Lemma count_marked_size d : count_marked d = Z.of_nat (size (t_marked d)).
Proof. unfold count_marked. by rewrite length_map_to_list. Qed.
Definition live_marked (d : Db) : gmap string PackSql :=
  filter (fun kv => in_marked d kv.1 && bool_decide (pk_state kv.2 = Live) = true) (t_packs d).
Lemma NoDup_filter_b {A} (p : A -> bool) (l : list A) : NoDup l -> NoDup (List.filter p l).
Proof. rewrite !NoDup_ListNoDup. apply List.NoDup_filter. Qed.
Lemma count_packs_size p d :
  count_packs p d = Z.of_nat (size (filter (fun kv => p kv.1 kv.2 = true) (t_packs d))).
Proof.
  unfold count_packs. rewrite <- length_map_to_list. f_equal. apply Permutation_length, NoDup_Permutation.
  - apply NoDup_filter_b, NoDup_map_to_list.
  - apply NoDup_map_to_list.
  - intros [k r]. rewrite elem_of_filter_b, !elem_of_map_to_list, map_lookup_filter_Some. naive_solver.
Qed.
Lemma live_marked_lookup d c : is_Some (live_marked d !! c) <-> in_marked d c = true /\ pack_live d c = true.
Proof.
  unfold live_marked, pack_live. split.
  - intros [r [Hr Hp]%map_lookup_filter_Some]. simpl in Hp. bsimp. rewrite Hr. split; [done|].
    by apply bool_decide_eq_true.
  - intros [Hm Hl]. destruct (t_packs d !! c) as [r|] eqn:E; [|done]. exists r.
    apply map_lookup_filter_Some. split; [done|]. simpl. by rewrite Hm, Hl.
Qed.
Lemma cohort_live_iff d : (cohort_live d).2 = Ok true <->
  t_marked d <> ∅ /\ forall c, in_marked d c = true -> pack_live d c = true.
Proof.
  assert (dom (live_marked d) ⊆ dom (t_marked d)) as Hsub.
  { intros c. rewrite !elem_of_dom, live_marked_lookup. intros [Hm _]. unfold in_marked in Hm.
    by destruct (t_marked d !! c). }
  unfold cohort_live, gets. cbn [snd]. rewrite count_packs_size. change (filter _ (t_packs d)) with (live_marked d).
  rewrite count_marked_size. transitivity (t_marked d <> ∅ /\ size (live_marked d) = size (t_marked d)).
  - destruct (Z.eqb_spec (Z.of_nat (size (t_marked d))) 0) as [E|E].
    + split; [done|]. intros [Hne _]. exfalso. apply Hne. apply map_size_empty_inv. lia.
    + split.
      * intros [= Hq%Z.eqb_eq]. split; [intros Hz; rewrite Hz, map_size_empty in E; lia|lia].
      * intros [_ Hq]. f_equal. apply Z.eqb_eq. lia.
  - apply and_iff_compat_l. rewrite <- !size_dom. split.
    + intros Hq c Hc. assert (c ∈ dom (live_marked d)) as [_ ?]%elem_of_dom%live_marked_lookup; [|done].
      rewrite (set_subseteq_size_eq _ _ Hsub) by lia. apply elem_of_dom. unfold in_marked in Hc.
      by destruct (t_marked d !! c).
    + intros Hall. f_equal. apply set_eq. intros c. split; [apply Hsub|]. intros Hc%elem_of_dom.
      assert (in_marked d c = true) by (unfold in_marked; by destruct Hc as [? ->]).
      apply elem_of_dom, live_marked_lookup. auto.
Qed.
Lemma cohort_live_all d : (cohort_live d).2 = Ok true ->
  forall c, in_marked d c = true -> pack_live d c = true.
Proof. by intros [_ ?]%cohort_live_iff. Qed.

(** What the build guarantees of the pack it writes: every object of
    [gc.new_pack] is also held by a pack of the marked cohort. *)
Definition copy_inv (d : Db) : Prop :=
  forall p s, t_meta d !! "gc.new_pack" = Some p -> is_Some (t_objects d !! (s, p)) ->
  exists c, in_marked d c = true /\ c <> p /\ is_Some (t_objects d !! (s, c)).

Section GcFacts.
Context `{Platform}.

Lemma drop_build_lossless p now d :
  (pack_live d p = true -> forall s, is_Some (t_objects d !! (s, p)) ->
     exists c, pack_live d c = true /\ c <> p /\ is_Some (t_objects d !! (s, c))) ->
  lossless d (kill_packs (fun id r => String.eqb id p && open_or_live r) now
                (delete_objects (String.eqb p) d)).
Proof.
  intros Hc. split; [|done].
  assert (forall q s, q <> p -> is_Some (t_objects d !! (s, q)) -> pack_live d q = true ->
            live_sha (kill_packs (fun id r => String.eqb id p && open_or_live r) now
                        (delete_objects (String.eqb p) d)) s) as Hq.
  { intros q s Hne Hs Hl. exists q. change (t_objects (kill_packs _ _ ?x)) with (t_objects x).
    rewrite delete_objects_lookup, kill_packs_live.
    assert (String.eqb p q = false) as -> by (apply String.eqb_neq; congruence).
    split; [done|]. change (t_packs (delete_objects _ _)) with (t_packs d).
    change (pack_live (delete_objects _ _) q) with (pack_live d q). rewrite Hl. simpl.
    apply String.eqb_neq in Hne. rewrite Hne. by destruct (t_packs d !! q). }
  intros s (q & Hs & Hl). destruct (String.eqb_spec q p) as [->|Hne]; [|by apply (Hq q)].
  destruct (Hc Hl s Hs) as (c & Hcl & Hne & Hcs). by apply (Hq c).
Qed.

(** The tables neither of the two row-dropping steps writes. *)
Definition same_chain (d e : Db) : Prop :=
  t_meta e = t_meta d /\ t_jobs e = t_jobs d /\ t_marked e = t_marked d.

Lemma wipe_retired_run d : exists e, wipe_retired d = (e, Ok tt) /\ same_chain d e /\ lossless d e
  /\ t_packs e = t_packs d
  /\ forall s p, t_objects e !! (s, p) = t_objects d !! (s, p)
       \/ t_objects e !! (s, p) = None /\ pack_live d p = false.
Proof.
  unfold wipe_retired, meta_opt. m_unfold.
  destruct (match t_meta d !! "gc.retire" with Some s => json_retire_ids s | None => None end)
    as [ids|] eqn:E; unfold mbind, option_bind; rewrite E; eexists; (split; [reflexivity|]).
  - do 2 (split; [done || (apply delete_objects_lossless; intros p Hp; by bsimp)|]).
    split; [done|].
    intros s p. rewrite delete_objects_lookup. destruct (bool_decide (p ∈ ids)); [|by left].
    destruct (pack_live d p); simpl; [by left|by right].
  - do 2 (split; [done|]). split; [done|]. by left.
Qed.

Lemma wipe_new_pack_run now d : exists e, wipe_new_pack now d = (e, Ok tt) /\ same_chain d e
  /\ (((cohort_live d).2 = Ok true -> copy_inv d) -> lossless d e).
Proof.
  unfold wipe_new_pack, meta_opt. m_unfold.
  destruct (t_meta d !! "gc.new_pack") as [p|] eqn:Enp; [|by exists d].
  match goal with |- context [if pack_live d p && negb ?b then _ else _] =>
    destruct (pack_live d p && negb b) eqn:Eb end;
    eexists; (split; [reflexivity|]); (split; [done|]).
  - intros _. apply delete_objects_lossless. intros q Hq. by bsimp.
  - intros Hci. apply drop_build_lossless. intros Hlp s Hs. rewrite Hlp in Eb.
    apply negb_false_iff in Eb.
    assert ((cohort_live d).2 = Ok true) as Hcl by (unfold cohort_live, gets; simpl; by rewrite Eb).
    destruct (Hci Hcl p s Enp Hs) as (c & Hcm & Hne & Hcs). exists c.
    split; [|done]. by apply cohort_live_all.
Qed.

Lemma copy_inv_retired d e :
  ((cohort_live d).2 = Ok true -> copy_inv d) -> same_chain d e -> t_packs e = t_packs d ->
  (forall s p, t_objects e !! (s, p) = t_objects d !! (s, p)
     \/ t_objects e !! (s, p) = None /\ pack_live d p = false) ->
  (cohort_live e).2 = Ok true -> copy_inv e.
Proof.
  intros Hci (Hm & _ & Hk) Hp Ho Hl p s Hnp Hs. rewrite Hm in Hnp.
  assert (Hl' := cohort_live_all e Hl).
  assert ((cohort_live d).2 = Ok true) as Hl0.
  { apply cohort_live_iff. apply cohort_live_iff in Hl as [Hne Hall]. unfold in_marked, pack_live in *. by rewrite <- Hk, <- Hp. }
  specialize (Hci Hl0). destruct (Ho s p) as [E|[E _]]; rewrite E in Hs; [|by destruct Hs].
  destruct (Hci p s Hnp Hs) as (c & Hc & Hne & Hcs). exists c. unfold in_marked in *. rewrite Hk.
  split; [done|]. split; [done|]. destruct (Ho s c) as [->|[_ Hd]]; [done|].
  unfold in_marked, pack_live in Hl', Hd. rewrite Hk, Hp in Hl'. by rewrite (Hl' c Hc) in Hd.
Qed.
Lemma wipe_all_run now d : exists d1,
  wipe_all now d = (wipe_scratch (wipe_gc_meta d1), Ok tt)
  /\ t_meta d1 = t_meta d /\ t_jobs d1 = t_jobs d
  /\ (((cohort_live d).2 = Ok true -> copy_inv d) -> lossless d d1).
Proof.
  unfold wipe_all. destruct (wipe_retired_run d) as (e & He & Hc & Hl & Hp & Ho).
  destruct (wipe_new_pack_run now e) as (e' & He' & Hc' & Hl'). exists e'. m_unfold. rewrite He, He'.
  destruct Hc as (? & ? & ?), Hc' as (? & ? & ?). split; [done|]. split; [congruence|].
  split; [congruence|]. intros Hci. etrans; [exact Hl|]. apply Hl'. by apply copy_inv_retired with d.
Qed.

(** The kill helper always succeeds, removes every trace of the chain (each
    [gc.*] key and each scratch row), leaves the other keys and the queue alone,
    and loses no readable object, whatever point the chain had reached. *)
Theorem wipe_all_lossless (now : Z) (d : Db) :
  copy_inv d -> exists d', wipe_all now d = (d', Ok tt) /\ lossless d d'
  /\ (forall k, t_meta d' !! k = if is_gc_key k then None else t_meta d !! k)
  /\ t_jobs d' = t_jobs d
  /\ t_marked d' = ∅ /\ t_frontier d' = ∅ /\ t_seen d' = ∅ /\ t_parts d' = ∅
  /\ t_tail d' = ∅ /\ t_pending d' = [].
Proof.
  intros Hci. destruct (wipe_all_run now d) as (d1 & E & Hm & Hj & Hl).
  exists (wipe_scratch (wipe_gc_meta d1)). split; [exact E|]. split; [etrans; [by apply Hl; intros _|by apply lossless_ext]|]. split; [|by split].
  intros k. rewrite <- Hm. apply (wipe_meta_lookup d1 k).
Qed.

(** ** Bitmaps *)

Lemma bm_get_set bm i j bm' :
  0 <= i -> 0 <= j -> bm_set bm i = Ok bm' -> bm_get bm' j = (i =? j) || bm_get bm j.
Proof.
  intros Hi Hj. unfold bm_set. destruct (bm !! Z.to_nat (i / 8)) as [b|] eqn:Eb; [|done].
  intros [= <-]. unfold bm_get.
  destruct (decide (Z.to_nat (i / 8) = Z.to_nat (j / 8))) as [E|E].
  - rewrite <- E, list_lookup_insert_eq, Eb by by eapply lookup_lt_Some.
    rewrite Z.lor_spec, Z.shiftl_spec by (apply Z.mod_pos_bound; lia).
    assert (i / 8 = j / 8) by (apply Z2Nat.inj; [apply Z.div_pos; lia..|done]).
    destruct (Z.eqb_spec i j) as [->|Hne].
    + rewrite Z.sub_diag. by rewrite orb_comm.
    + assert (j mod 8 - i mod 8 <> 0).
      { assert (Hdi := Z.div_mod i 8). assert (Hdj := Z.div_mod j 8). lia. }
      replace (Z.testbit 1 (j mod 8 - i mod 8)) with false; [by rewrite orb_false_r|].
      symmetry. destruct (Z.lt_total 0 (j mod 8 - i mod 8)) as [Hp|[?|Hn]]; [|done|].
      * by apply Z.bits_above_log2; simpl; lia.
      * by rewrite Z.testbit_neg_r.
  - rewrite list_lookup_insert_ne by done. destruct (Z.eqb_spec i j); [congruence|done].
Qed.
Lemma bm_set_length bm i bm' : bm_set bm i = Ok bm' -> length bm' = length bm.
Proof. unfold bm_set. case_match; [|done]. intros [= <-]. by rewrite length_insert. Qed.
Lemma bm_set_total bm i : 0 <= i < 8 * Z.of_nat (length bm) -> is_ok (bm_set bm i) = true.
Proof.
  intros Hi. unfold bm_set.
  destruct (lookup_lt_is_Some_2 bm (Z.to_nat (i / 8))) as [b ->]; [|done].
  assert (i / 8 < Z.of_nat (length bm)) by (apply Z.div_lt_upper_bound; lia).
  assert (0 <= i / 8) by (apply Z.div_pos; lia). lia.
Qed.
End GcFacts.
