(* ===== verification/Compact.v ===== *)
(** * Lossless tiered compaction

    [server/src/jobs/compact.rs] without the pure selector (file Cohort): the
    strike map, the trigger, the orphan predicate and its abort, the
    [gc_compact] slice (entry guard, prune, corruption gate, dedup bitmaps,
    staking) and the swap span.  The theorems: a cohort's bitmaps select each
    object exactly once; no branch of the slice or of the swap, failures
    included, loses a readable object; the strike map stays bounded. *)
From S2P Require Import Prelude Errors Db Jobs Cohort GcBase.
Open Scope Z_scope.

Definition RETRY_MS : Z := 30000.
Definition QUAR_CAP : nat := 256.
Definition Strikes : Type := list (string * Z).

Section Compact.
Context `{Platform}.

Definition knobs (d : Db) : Knobs :=
  let k name env def := match knob d name with Some v => v | None => env_i64 env def end in
  mkKnobs (Z.max (k "compact_fanin" "GE_COMPACT_FANIN" 16) 2)
    (k "compact_min_age_ms" "GE_COMPACT_MIN_AGE_MS" 60000)
    (k "compact_max_rows" "GE_COMPACT_MAX_ROWS" 100000).

Definition live_pack (kv : string * PackSql) : LivePack :=
  mkLivePack kv.1 (pk_count kv.2) (pk_bytes kv.2) (pk_created kv.2).
Definition live_packs (d : Db) : list LivePack :=
  map live_pack (List.filter (fun kv => bool_decide (pk_state kv.2 = Live)) (map_to_list (t_packs d))).

(** ** compact.quarantine *)

Definition quarantine_read : DoM (option Strikes) :=
  v ← meta_opt "compact.quarantine";
  mret (match v with None => Some [] | Some s => quarantine_parse s end).
Definition quarantine_load : DoM Strikes := q ← quarantine_read; mret (unwrap_or [] q).
Definition quarantine_save (q : Strikes) : DoM unit := put "compact.quarantine" (quarantine_encode q).
Definition quarantine_corrupt : DoM Strikes :=
  v ← meta_opt "compact.quarantine";
  match v with
  | Some raw => modify (meta_insert_ignore "compact.quarantine.corrupt" raw)
  | None => mret tt
  end ≫= fun _ => mret [].
Definition quarantine_for_write : DoM Strikes :=
  q ← quarantine_read;
  match q with Some q => mret q | None => quarantine_corrupt end.
Definition quarantine_ids (q : Strikes) : gset string :=
  list_to_set (map fst (List.filter (fun e => 2 <=? e.2) q)).
(** Adds to the first entry of [id], or appends one. *)
Fixpoint strike (q : Strikes) (id : string) (n : Z) : Strikes :=
  match q with
  | [] => [(id, n)]
  | e :: q' => if String.eqb e.1 id then (e.1, sat_add64 e.2 n) :: q' else e :: strike q' id n
  end.
Definition quarantine_bump (q : Strikes) (id : string) (n : Z) : Strikes :=
  let q' := strike q id n in
  if (QUAR_CAP <? length q')%nat then tail q' else q'.

(** ** The trigger *)

Definition fresh_compact (r : JobSql) : bool :=
  is_kind GcCompact r && in_state Queued r && (jb_attempts r =? 0)
  && negb (is_some (jb_error r)) && negb (is_some (jb_started r)).
Definition set_run_at (f : Z -> Z) (r : JobSql) : JobSql :=
  mkJob (jb_id r) (jb_kind r) (f (jb_run_at r)) (jb_attempts r) (jb_cursor r) (jb_payload r)
    (jb_state r) (jb_error r) (jb_started r) (jb_lease r) (jb_strands r).
Definition trigger (now : Z) : DoM unit :=
  packs ← gets live_packs;
  q ← quarantine_load;
  k ← gets knobs;
  let run_at := if is_some (select_cohort packs (quarantine_ids q) now k) then Some now
                else next_wake packs (quarantine_ids q) k in
  match run_at with
  | Some t => enqueue GcCompact t "{}" ≫= fun _ =>
              modify (update_jobs fresh_compact (set_run_at (fun r => Z.min r t)))
  | None => mret tt
  end.

(** ** Orphaned chains *)

Definition owner_kind (mode phase : option string) : JobKind :=
  if bool_decide (phase = Some "sweep") then GcSweep
  else if bool_decide (phase = Some "build") then GcConsolidate
  else if bool_decide (mode = Some "compact") then GcConsolidate
  else GcMark.
(** [COALESCE(json_extract(payload,'$.chain'), ?) = ?] *)
Definition of_chain (chain : string) (r : JobSql) : bool :=
  String.eqb (unwrap_or chain (json_chain (jb_payload r))) chain.
Definition orphaned : DoM bool := gets (fun d =>
  match t_meta d !! "gc.chain" with
  | None => false
  | Some chain =>
      if negb (is_some (t_meta d !! "gc.started_at")) then false
      else if negb (is_some (t_meta d !! "gc.phase")) && negb (is_some (t_meta d !! "gc.chain"))
              && is_some (t_meta d !! "gc.started_at") then false
      else count_jobs (fun r => is_kind (owner_kind (t_meta d !! "gc.mode") (t_meta d !! "gc.phase")) r
                                && active r && of_chain chain r) d =? 0
  end).

Definition is_gc_job (r : JobSql) : bool :=
  is_kind GcMark r || is_kind GcConsolidate r || is_kind GcSweep r || is_kind GcCompact r.
Definition dead_of_chain (chain : string) (r : JobSql) : bool :=
  in_state JDead r && is_gc_job r && of_chain chain r.
Definition preserve_dead_errors (chain : string) : DoM unit :=
  dead ← gets (fun d => List.filter (dead_of_chain chain) (t_jobs d));
  for_each dead (fun r => match jb_error r with
                          | Some e => put ("dead." +:+ jb_kind r) e
                          | None => mret tt
                          end) ≫= fun _ =>
  modify (delete_jobs (dead_of_chain chain)).
Definition quarantine_strikes (cohort : list string) : DoM unit :=
  q ← quarantine_for_write;
  quarantine_save (fold_left (fun q id => quarantine_bump q id 1) cohort q).
Definition orphan_abort (now : Z) : DoM unit :=
  compact ← gets (fun d => meta_is d "gc.mode" "compact");
  chain ← gets (fun d => unwrap_or "" (t_meta d !! "gc.chain"));
  cohort ← gets (fun d => if (compact : bool) then marked_ids d else []);
  wipe_all now ≫= fun _ =>
  preserve_dead_errors chain ≫= fun _ =>
  match cohort with [] => mret tt | _ => quarantine_strikes cohort end.

(** ** The gc_compact slice *)

Definition busy_row (r : JobSql) : bool := (is_kind GcConsolidate r || is_kind GcSweep r) && active r.
Definition entry_guard (now : Z) : DoM (option SliceOutcome) :=
  started ← meta_opt "gc.started_at";
  if is_some started then
    o ← orphaned;
    if (o : bool) then orphan_abort now ≫= fun _ => mret None
    else mret (Some (Reschedule (add64 now RETRY_MS)))
  else
    busy ← gets (fun d => existsb busy_row (t_jobs d));
    mret (if (busy : bool) then Some (Reschedule (add64 now RETRY_MS)) else None).

Definition prune_quarantine (packs : list LivePack) : DoM Strikes :=
  quar ← quarantine_for_write;
  let q' := List.filter (fun e => bool_decide (e.1 ∈ map lp_id packs)) quar in
  (if (length q' =? length quar)%nat then mret tt else quarantine_save q') ≫= fun _ => mret q'.

Definition pack_rows (d : Db) (pack : string) : list (string * ObjSql) :=
  map (fun kv => (kv.1.1, kv.2)) (List.filter (fun kv => String.eqb kv.1.2 pack) (map_to_list (t_objects d))).
(** [SELECT COUNT] over [… LIMIT lim]: a negative limit is none. *)
Definition sql_limit (lim n : Z) : Z := if lim <? 0 then n else Z.min n lim.
Definition poisoned (d : Db) (p : LivePack) : bool :=
  lp_count p <? sql_limit (sat_add64 (lp_count p) 1) (Z.of_nat (length (pack_rows d (lp_id p)))).
Definition t5_filter (cohort : list LivePack) (quar : Strikes) : DoM (list LivePack * Strikes * bool) :=
  d ← gets (fun d => d);
  let good := List.filter (fun p => negb (poisoned d p)) cohort in
  let bad := List.filter (poisoned d) cohort in
  let quar' := fold_left (fun q p => quarantine_bump q (lp_id p) 2) bad quar in
  (match bad with [] => mret tt | _ => quarantine_save quar' end) ≫= fun _ =>
  mret (good, quar', (length good <? 2)%nat).

(** Rows in (idx, sha) order, the order of the index the query reads. *)
Definition row_le (a b : string * ObjSql) : Prop :=
  ob_idx a.2 < ob_idx b.2 \/ (ob_idx a.2 = ob_idx b.2 /\ String.le a.1 b.1).
#[global] Instance row_le_dec : RelDecision row_le.
Proof. intros a b. unfold row_le. apply _. Defined.
Definition id_le (a b : LivePack) : Prop := String.le (lp_id a) (lp_id b).
#[global] Instance id_le_dec : RelDecision id_le.
Proof. intros a b. unfold id_le. apply _. Defined.

Definition to_usize (e : string) (n : Z) : result Error Z :=
  if (0 <=? n) && (n <=? u32_max) then Ok n else Err (Internal e).
(** [*bm.get_mut(idx / 8)? |= 1u8 << (idx % 8)]; a release build masks the shift. *)
Definition set_bit (bm : list Z) (idx : Z) : result Error (list Z) :=
  byte ← to_usize "idx" (Z.quot idx 8);
  match bm !! Z.to_nat byte with
  | Some b => Ok (<[Z.to_nat byte := Z.lor b (Z.shiftl 1 (Z.land (Z.rem idx 8) 7))]> bm)
  | None => Err (Internal "idx past pack count")
  end.
Fixpoint mark_rows (rows : list (string * ObjSql)) (seen : gset string) (bm : list Z)
  : result Error (gset string * list Z) :=
  match rows with
  | [] => Ok (seen, bm)
  | r :: rows' =>
      if bool_decide (r.1 ∈ seen) then mark_rows rows' seen bm
      else bm' ← set_bit bm (ob_idx r.2); mark_rows rows' ({[r.1]} ∪ seen) bm'
  end.
Definition max_idx (rows : list (string * ObjSql)) : Z :=
  match map (fun r => ob_idx r.2) rows with
  | [] => -1
  | i :: l => fold_left Z.max l i
  end.
Definition blank_bitmap (p : LivePack) (rows : list (string * ObjSql)) : result Error (list Z) :=
  bits ← to_usize "count" (Z.max (lp_count p) (sat_add64 (max_idx rows) 1));
  Ok (repeat 0 (Z.to_nat ((bits + 7) / 8))).
Fixpoint dedup_loop (d : Db) (good : list LivePack) (seen : gset string)
  : result Error (list (string * list Z)) :=
  match good with
  | [] => Ok []
  | p :: good' =>
      let rows := merge_sort row_le (pack_rows d (lp_id p)) in
      bm0 ← blank_bitmap p rows;
      r ← mark_rows rows seen bm0;
      rest ← dedup_loop d good' r.1;
      Ok ((lp_id p, r.2) :: rest)
  end.
Definition dedup_bitmaps (good : list LivePack) : DoM (list (string * list Z)) :=
  fun d => (d, dedup_loop d (merge_sort id_le good) ∅).

(** [INSERT INTO marked] — the pack id is its primary key. *)
Definition insert_marked (id : string) (bm : list Z) : DoM unit := fun d =>
  match t_marked d !! id with
  | Some _ => (d, Err (Storage "UNIQUE constraint failed: marked.pack_id"))
  | None => (on_marked (insert id (mkMarked bm None)) d, Ok tt)
  end.
Definition stake_chain (now : Z) (hex : string) (bitmaps : list (string * list Z)) : DoM unit :=
  modify wipe_scratch ≫= fun _ =>
  modify wipe_gc_meta ≫= fun _ =>
  put "gc.mode" "compact" ≫= fun _ =>
  put "gc.chain" hex ≫= fun _ =>
  put "gc.started_at" (z_to_string now) ≫= fun _ =>
  put "gc.phase" "build" ≫= fun _ =>
  for_each bitmaps (fun e => insert_marked e.1 e.2) ≫= fun _ =>
  payload ← chain_payload;
  enqueue GcConsolidate now payload.

Definition gc_compact (now : Z) (hex : string) : DoM SliceOutcome :=
  g ← entry_guard now;
  match g with
  | Some out => mret out
  | None =>
      packs ← gets live_packs;
      quar ← prune_quarantine packs;
      k ← gets knobs;
      match select_cohort packs (quarantine_ids quar) now k with
      | None => mret Done
      | Some cohort =>
          t5_filter cohort quar ≫= fun g =>
          if (g : list LivePack * Strikes * bool).2 then mret Done
          else bitmaps ← dedup_bitmaps g.1.1;
               stake_chain now hex bitmaps ≫= fun _ =>
               failpoint "gc.compact.init" ≫= fun _ =>
               mret Done
      end
  end.

(** ** The swap span *)

Definition max_created (d : Db) : option Z :=
  match List.filter (fun kv => in_marked d kv.1) (map_to_list (t_packs d)) with
  | [] => None
  | kv :: l => Some (fold_left Z.max (map (fun kv => pk_created kv.2) l) (pk_created kv.2))
  end.
Definition promote_row (pack : string) (count bytes lo hi : Z) : DoM unit := fun d =>
  match t_packs d !! pack with
  | Some r =>
      if open_or_live r then
        match max_created d with
        | Some c => (on_packs (insert pack (mkPack Live count bytes lo hi (pk_push r) c (pk_dead_at r))) d, Ok tt)
        | None => (d, Err (Storage "NOT NULL constraint failed: packs.created_at"))
        end
      else (d, Err (Internal "build pack row"))
  | None => (d, Err (Internal "build pack row"))
  end.
Definition promote_output (pack : string) (m : PackMeta) : DoM unit :=
  bytes ← lift (if pm_bytes m <=? i64_max then Ok (pm_bytes m) else Err (Internal "bytes"));
  promote_row pack (pm_count m) bytes
    (if pm_lo m <=? i64_max then pm_lo m else 2 ^ 53 - 1)
    (if pm_hi m <=? i64_max then pm_hi m else 0).
Definition retire_cohort (now : Z) : DoM unit :=
  modify (fun d => kill_packs (fun id _ => in_marked d id) now d) ≫= fun _ =>
  failpoint "gc.compact.after_deadmark" ≫= fun _ =>
  modify (fun d => delete_objects (in_marked d) d).
Definition swap (now : Z) (pack : string) (m : PackMeta) (job : Job) (chain : option string) : DoM Flow :=
  f ← chain_fence now job chain pack;
  if negb f then mret FDone
  else cl ← cohort_live;
       if negb cl then wipe_all now ≫= fun _ => mret FDone
       else promote_output pack m ≫= fun _ =>
            retire_cohort now ≫= fun _ =>
            modify wipe_gc_meta ≫= fun _ =>
            modify wipe_scratch ≫= fun _ =>
            modify (meta_delete "resurrected.gc_compact") ≫= fun _ =>
            trigger now ≫= fun _ =>
            mret FDone.

Definition idle_compact (r : JobSql) : bool :=
  is_kind GcCompact r && in_state Queued r && (jb_attempts r =? 0) && negb (is_some (jb_error r)).
Definition release_hold (now : Z) : DoM unit :=
  modify (update_jobs idle_compact (set_run_at (fun _ => now))) ≫= fun _ =>
  due ← gets (fun d => 0 <? count_jobs (fun r => is_kind GcCompact r && in_state Queued r
                                                 && (jb_run_at r <=? now)) d);
  if (due : bool) then
    let hold := sat_add64 now (Z.max gc_quiet_ms 1) in
    modify (update_jobs (fun r => is_kind GcMark r && in_state Queued r)
              (set_run_at (fun r => Z.max r hold)))
  else mret tt.
End Compact.

(** ** The strike map *)

Fixpoint strikes_of (q : Strikes) (id : string) : option Z :=
  match q with
  | [] => None
  | e :: q' => if String.eqb e.1 id then Some e.2 else strikes_of q' id
  end.
Lemma strikes_of_None q id : strikes_of q id = None <-> id ∉ map fst q.
Proof.
  induction q as [|[j m] q IH]; simpl; [set_solver|].
  destruct (String.eqb_spec j id) as [->|Hne]; [set_solver|]. rewrite IH, not_elem_of_cons.
  naive_solver.
Qed.
Lemma strike_same q id n :
  strikes_of (strike q id n) id
  = Some (match strikes_of q id with Some m => sat_add64 m n | None => n end).
Proof.
  induction q as [|[j m] q IH]; simpl; [by rewrite String.eqb_refl|].
  destruct (String.eqb_spec j id) as [->|Hne]; simpl; [by rewrite String.eqb_refl|].
  apply String.eqb_neq in Hne. by rewrite Hne.
Qed.
Lemma strike_other q id n j : j <> id -> strikes_of (strike q id n) j = strikes_of q j.
Proof.
  intros Hj. apply not_eq_sym, String.eqb_neq in Hj.
  induction q as [|[i m] q IH]; simpl; [by rewrite Hj|].
  destruct (String.eqb_spec i id) as [->|Hne]; simpl; [by rewrite Hj|by rewrite IH].
Qed.
Lemma strike_ids q id n :
  map fst (strike q id n) = map fst q \/ (strikes_of q id = None /\ strike q id n = q ++ [(id, n)]).
Proof.
  induction q as [|[i m] q IH]; simpl; [by right|].
  destruct (String.eqb_spec i id) as [->|Hne]; simpl; [by left|].
  destruct IH as [->|[-> ->]]; [by left|by right].
Qed.

(** Recording a strike: the map keeps distinct ids and never more than
    [QUAR_CAP] entries; the struck pack's count goes up by [n] (saturating); no
    other count changes, except that a full map that gains a new id forgets its
    oldest entry. *)
Theorem quarantine_bump_spec (q : Strikes) (id : string) (n : Z) :
  NoDup (map fst q) -> (length q <= QUAR_CAP)%nat ->
  let q' := quarantine_bump q id n in
  NoDup (map fst q') /\ (length q' <= QUAR_CAP)%nat
  /\ strikes_of q' id = Some (match strikes_of q id with Some m => sat_add64 m n | None => n end)
  /\ (forall j, j <> id -> strikes_of q' j = strikes_of q j
        \/ (strikes_of q' j = None /\ strikes_of q id = None /\ length q = QUAR_CAP
            /\ exists m, head q = Some (j, m))).
Proof.
  intros Hnd Hlen q'. subst q'. unfold quarantine_bump.
  assert (Hs := strike_same q id n). assert (Ho := fun j => strike_other q id n j).
  destruct (strike_ids q id n) as [Hi|[Hn Hi]].
  - assert (length (strike q id n) = length q) as Hl by (by rewrite <- !(length_map fst), Hi).
    destruct (Nat.ltb_spec QUAR_CAP (length (strike q id n))); [lia|].
    rewrite Hi. split; [done|]. split; [lia|]. split; [done|]. intros j Hj. left. by apply Ho.
  - assert (length (strike q id n) = S (length q)) as Hl by (rewrite Hi, length_app; simpl; lia).
    assert (NoDup (map fst (strike q id n))) as Hnd'.
    { rewrite Hi, map_app. apply NoDup_app. split; [done|]. split; [|apply NoDup_singleton].
      intros x Hx Hx'. apply list_elem_of_singleton in Hx'. simpl in Hx'. subst x.
      by apply strikes_of_None in Hn. }
    destruct (Nat.ltb_spec QUAR_CAP (length (strike q id n))) as [Hc|Hc].
    2:{ split; [done|]. split; [lia|]. split; [done|]. intros j Hj. left. by apply Ho. }
    rewrite Hi in *. destruct q as [|[i m] q]; [by unfold QUAR_CAP in *; simpl in *; lia|].
    simpl in *. destruct (String.eqb_spec i id) as [->|Hne]; [done|]. rewrite NoDup_cons in Hnd'.
    split; [apply Hnd'|]. split; [lia|]. split; [done|]. intros j Hj.
    destruct (String.eqb_spec i j) as [->|Hij].
    + right. split; [|split; [done|split; [lia|eauto]]]. apply strikes_of_None. apply Hnd'.
    + left. specialize (Ho j Hj). apply String.eqb_neq in Hij. by rewrite Hij in Ho.
Qed.
Lemma quarantine_ids_spec q id : NoDup (map fst q) ->
  id ∈ quarantine_ids q <-> exists n, strikes_of q id = Some n /\ 2 <= n.
Proof.
  intros Hnd. unfold quarantine_ids. rewrite elem_of_list_to_set, elem_of_map.
  induction q as [|[i m] q IH]; simpl in *.
  { split; [intros ([] & _ & ?%not_elem_of_nil); done|by intros (? & ? & _)]. }
  apply NoDup_cons in Hnd as [Hni Hnd]. specialize (IH Hnd).
  destruct (String.eqb_spec i id) as [->|Hne].
  - split.
    + intros ([j m'] & Hj & Hin). simpl in Hj. subst j. exists m. split; [done|].
      destruct (Z.leb_spec 2 m); [done|]. exfalso. apply Hni. apply elem_of_map.
      apply elem_of_filter_b in Hin as [Hin _]. by exists (id, m').
    + intros (n & [= ->] & Hn). exists (id, n). split; [done|]. apply Z.leb_le in Hn. rewrite Hn. left.
  - rewrite <- IH. destruct (2 <=? m); [|done]. split.
    + intros ([j m'] & Hj & [?|Hin]%elem_of_cons); simpl in *; simplify_eq. by exists (id, m').
    + intros (e & He & Hin). exists e. split; [done|by right].
Qed.

(** ** Loss freedom *)

Section CompactFacts.
Context `{Platform}.

Lemma lossless_modify (f : Db -> Db) :
  (forall d, t_objects (f d) = t_objects d /\ t_packs (f d) = t_packs d /\ t_refs (f d) = t_refs d) ->
  rel_ok lossless (modify f : DoM unit).
Proof. intros Hf. apply rel_ok_modify; intros d. destruct (Hf d) as (? & ? & ?). by apply lossless_ext. Qed.
Lemma put_lossless k v : rel_ok lossless (put k v).
Proof. by apply lossless_modify. Qed.
Lemma meta_opt_lossless k : rel_ok lossless (meta_opt k).
Proof. apply rel_ok_gets, _. Qed.
Lemma failpoint_lossless name : rel_ok lossless (failpoint name).
Proof. intros d. unfold failpoint. repeat case_match; by apply lossless_ext. Qed.
Lemma meta_insert_ignore_lossless k v : rel_ok lossless (modify (meta_insert_ignore k v) : DoM unit).
Proof. apply lossless_modify. intros d. unfold meta_insert_ignore. by case_match. Qed.
Lemma enqueue_lossless k t p : rel_ok lossless (enqueue k t p).
Proof. apply lossless_modify. intros d. unfold enqueue_db. by case_match. Qed.
Lemma jobs_lossless f p : rel_ok lossless (modify (update_jobs p f) : DoM unit).
Proof. by apply lossless_modify. Qed.
Lemma wipe_scratch_lossless : rel_ok lossless (modify wipe_scratch : DoM unit).
Proof. by apply lossless_modify. Qed.
Lemma wipe_gc_meta_lossless : rel_ok lossless (modify wipe_gc_meta : DoM unit).
Proof. by apply lossless_modify. Qed.
Lemma insert_marked_lossless id bm : rel_ok lossless (insert_marked id bm).
Proof. intros d. unfold insert_marked. case_match; by apply lossless_ext. Qed.
Lemma dedup_lossless good : rel_ok lossless (dedup_bitmaps good).
Proof. intros d. by apply lossless_ext. Qed.
#[local] Hint Resolve put_lossless meta_opt_lossless failpoint_lossless meta_insert_ignore_lossless
  enqueue_lossless jobs_lossless wipe_scratch_lossless wipe_gc_meta_lossless insert_marked_lossless
  dedup_lossless : git_edge.

Lemma quarantine_for_write_lossless : rel_ok lossless quarantine_for_write.
Proof. unfold quarantine_for_write, quarantine_read, quarantine_corrupt. rel_tac. Qed.
Lemma quarantine_save_lossless q : rel_ok lossless (quarantine_save q).
Proof. apply put_lossless. Qed.
#[local] Hint Resolve quarantine_for_write_lossless quarantine_save_lossless : git_edge.
Lemma trigger_lossless now : rel_ok lossless (trigger now).
Proof. unfold trigger, quarantine_load, quarantine_read. rel_tac. Qed.
Lemma preserve_dead_errors_lossless c : rel_ok lossless (preserve_dead_errors c).
Proof. unfold preserve_dead_errors. rel_tac. Qed.
Lemma prune_lossless packs : rel_ok lossless (prune_quarantine packs).
Proof. unfold prune_quarantine. rel_tac. Qed.
Lemma t5_lossless cohort q : rel_ok lossless (t5_filter cohort q).
Proof. unfold t5_filter. rel_tac. Qed.
Lemma stake_lossless now hex bms : rel_ok lossless (stake_chain now hex bms).
Proof. unfold stake_chain, chain_payload. rel_tac. Qed.
Lemma strikes_lossless cohort : rel_ok lossless (quarantine_strikes cohort).
Proof. unfold quarantine_strikes. rel_tac. Qed.
#[local] Hint Resolve trigger_lossless preserve_dead_errors_lossless prune_lossless t5_lossless
  stake_lossless strikes_lossless : git_edge.

Lemma wipe_all_ok now d : copy_inv d -> exists d', wipe_all now d = (d', Ok tt) /\ lossless d d'.
Proof.
  intros Hc. destruct (wipe_all_run now d) as (d1 & -> & _ & _ & Hl). eexists. split; [done|].
  etrans; [by apply Hl; intros _|by apply lossless_ext].
Qed.
Lemma orphan_abort_lossless now d : copy_inv d -> lossless d (orphan_abort now d).1.
Proof.
  intros Hc. unfold orphan_abort. unfold gets. rewrite !(bind_run _ _ d d _ eq_refl).
  destruct (wipe_all_ok now d Hc) as (d' & E & Hl). rewrite (bind_run _ _ d d' tt E).
  etrans; [exact Hl|].
  match goal with |- lossless d' (?m d').1 => enough (rel_ok lossless m) as Hm by apply Hm end.
  rel_tac.
Qed.
Lemma entry_guard_lossless now d : copy_inv d -> lossless d (entry_guard now d).1.
Proof.
  intros Hc. unfold entry_guard, meta_opt, gets. rewrite (bind_run _ _ d d _ eq_refl).
  destruct (is_some _); [|done]. rewrite (bind_run _ _ d d _ eq_refl).
  match goal with |- context [if ?b then _ else _] => destruct b end; [|done].
  assert (Hl := orphan_abort_lossless now d Hc). unfold mbind, M_bind.
  destruct (orphan_abort now d) as [d' [u|e]]; exact Hl.
Qed.

(** C12: A gc_compact slice never loses a readable object and never moves a ref,
    whichever of its outcomes it reaches: rescheduled, nothing to do, a staked
    chain, an aborted orphan or an error.  It is stated from a store in which every
    object of the build under way, if there is one, is still held by a pack of the
    marked cohort ([copy_inv]); that is what lets an orphan's build be dropped. *)
Theorem gc_compact_lossless (now : Z) (hex : string) (d : Db) :
  copy_inv d -> lossless d (gc_compact now hex d).1.
Proof.
  intros Hc. unfold gc_compact. assert (Hg := entry_guard_lossless now d Hc).
  unfold mbind at 1, M_bind at 1. destruct (entry_guard now d) as [d1 [g|e]]; [|exact Hg].
  etrans; [exact Hg|].
  match goal with |- lossless _ (?m d1).1 => enough (rel_ok lossless m) as Hm by apply Hm end.
  rel_tac.
Qed.

(** The build is complete: the output pack is outside the cohort and holds every
    object of it. *)
Definition covers (d : Db) (pack : string) : Prop :=
  in_marked d pack = false
  /\ forall c s, in_marked d c = true -> is_Some (t_objects d !! (s, c)) -> is_Some (t_objects d !! (s, pack)).

Lemma promote_output_run pack m d :
  (exists e, promote_output pack m d = (d, Err e))
  \/ exists r, promote_output pack m d = (on_packs (insert pack r) d, Ok tt) /\ pk_state r = Live.
Proof.
  unfold promote_output. m_unfold. destruct (pm_bytes m <=? i64_max); [|eauto]. unfold promote_row.
  destruct (t_packs d !! pack) as [r|]; [|eauto]. destruct (open_or_live r); [|eauto].
  destruct (max_created d); [|eauto]. right. eexists. split; [done|done].
Qed.

(** The state right after the cohort is dead-marked, rows still standing. *)
Lemma deadmark_lossless pack r now d :
  pk_state r = Live -> covers d pack ->
  let d1 := on_packs (insert pack r) d in
  let d2 := kill_packs (fun id _ => in_marked d1 id) now d1 in
  lossless d d2 /\ covers d2 pack /\ pack_live d2 pack = true
  /\ (forall c, in_marked d c = true -> pack_live d2 c = false).
Proof.
  intros Hr [Hnm Hcov] d1 d2.
  assert (forall c, pack_live d2 c = pack_live d1 c && negb (in_marked d c)) as Hl.
  { intros c. unfold d2. rewrite kill_packs_live. unfold pack_live.
    change (in_marked d1 c) with (in_marked d c). by destruct (t_packs d1 !! c). }
  assert (pack_live d2 pack = true) as Hp.
  { rewrite Hl, Hnm. unfold pack_live, d1. simpl. rewrite lookup_insert_eq, andb_true_r.
    by apply bool_decide_eq_true. }
  assert (forall c, in_marked d c = true -> pack_live d2 c = false) as Hdead.
  { intros c Hc. by rewrite Hl, Hc, andb_false_r. }
  split; [|by split; [split; [exact Hnm|exact Hcov]|]].
  split; [|done]. intros s (p & Hs & Hpl).
  destruct (in_marked d p) eqn:Em; [exists pack; split; [by apply (Hcov p)|done]|].
  destruct (String.eqb_spec p pack) as [->|Hne]; [by exists pack|].
  exists p. split; [exact Hs|]. rewrite Hl, Em, andb_true_r. unfold pack_live, d1. simpl.
  by rewrite lookup_insert_ne.
Qed.

Lemma failpoint_run name d : exists d1 r, failpoint name d = (d1, r)
  /\ exists f, d1 = on_failpoints f d.
Proof.
  unfold failpoint. repeat case_match; eexists _, _; (split; [reflexivity|]);
    (by eexists) || (exists (fun x => x); by destruct d).
Qed.

Lemma retire_lossless pack r now d :
  pk_state r = Live -> covers d pack ->
  lossless d (retire_cohort now (on_packs (insert pack r) d)).1.
Proof.
  intros Hr Hcov. destruct (deadmark_lossless pack r now d Hr Hcov) as (Hl & _ & _ & Hdead).
  unfold retire_cohort. rewrite (bind_run _ _ _ _ tt eq_refl).
  set (d2 := kill_packs _ _ _) in *.
  destruct (failpoint_run "gc.compact.after_deadmark" d2) as (d3 & o & E & f & ->).
  unfold mbind, M_bind. rewrite E. destruct o as [u|e]; [|exact Hl].
  etrans; [exact Hl|]. apply (delete_objects_lossless (in_marked d2) d2). exact Hdead.
Qed.

Lemma chain_fence_run now job chain pack d :
  (exists d1 e, chain_fence now job chain pack d = (d1, Err e) /\ lossless d d1)
  \/ exists b, chain_fence now job chain pack d
       = (update_jobs (holds (job_id job) (job_lease job)) (set_started now) d, Ok b).
Proof.
  unfold chain_fence, heartbeat, meta_opt. m_unfold.
  destruct (count_jobs _ d =? 1); simpl.
  - right. destruct (bool_decide _); simpl; eauto.
  - left. eexists _, _. split; [done|by apply lossless_ext].
Qed.

(** C13: The swap span never loses a readable object: not when the fence has moved
    on, not when a cohort pack died meanwhile and the build is dropped, not when
    the output row is missing or a failure interrupts it between the dead-mark
    and the row delete, and not on success.  It is stated for a build whose objects
    the marked cohort still holds ([copy_inv], which dropping it needs) and which is
    complete: the output pack lies outside the cohort and holds every object of it
    ([covers], which retiring the cohort needs). *)
Theorem swap_lossless (now : Z) (pack : string) (m : PackMeta) (job : Job) (chain : option string) (d : Db) :
  copy_inv d -> covers d pack -> lossless d (swap now pack m job chain d).1.
Proof.
  intros Hci Hcov. unfold swap.
  destruct (chain_fence_run now job chain pack d) as [(d1 & e & E & Hl)|(b & E)].
  { unfold mbind, M_bind. by rewrite E. }
  rewrite (bind_run _ _ _ _ b E). set (d1 := update_jobs _ _ _) in *.
  assert (lossless d d1) as Hd1 by by apply lossless_ext.
  destruct b; [|exact Hd1]. cbv beta iota delta [negb].
  unfold cohort_live, gets. rewrite (bind_run _ _ _ _ _ eq_refl).
  match goal with |- context [if ?c then false else true] => destruct c end; cbv iota.
  2:{ destruct (wipe_all_ok now d1) as (d2 & E2 & Hl2); [exact Hci|].
      rewrite (bind_run _ _ _ _ tt E2). by etrans. }
  destruct (promote_output_run pack m d1) as [[e Ep]|(r & Ep & Hr)].
  { unfold mbind, M_bind. by rewrite Ep. }
  rewrite (bind_run _ _ _ _ tt Ep). assert (Hret := retire_lossless pack r now d1 Hr Hcov).
  unfold mbind at 1, M_bind at 1.
  destruct (retire_cohort now _) as [d3 [u|e]]; [|by etrans].
  etrans; [exact Hd1|]. etrans; [exact Hret|]. cbn [fst].
  match goal with |- lossless d3 (?m d3).1 => enough (rel_ok lossless m) as Hm by apply Hm end.
  rel_tac.
Qed.
End CompactFacts.

(** ** When a chain may be taken *)

Section Stake.
Context `{Platform}.

(** A chain in flight is never aborted while a queued or running job of its
    owner kind still carries it: the slice steps aside and changes nothing. *)
Theorem gc_compact_respects_owner (now : Z) (hex chain : string) (d : Db) (r : JobSql) :
  t_meta d !! "gc.chain" = Some chain -> is_some (t_meta d !! "gc.started_at") = true ->
  r ∈ t_jobs d -> active r = true ->
  is_kind (owner_kind (t_meta d !! "gc.mode") (t_meta d !! "gc.phase")) r = true ->
  of_chain chain r = true ->
  gc_compact now hex d = (d, Ok (Reschedule (add64 now RETRY_MS))).
Proof.
  intros Hc Hs Hr Ha Hk Ho. unfold gc_compact, entry_guard, meta_opt, gets.
  unfold mbind, M_bind. rewrite Hs. unfold orphaned, gets. rewrite Hc, Hs. simpl is_some. simpl negb.
  rewrite andb_false_r, andb_false_l. cbn match.
  match goal with |- context [count_jobs ?p d =? 0] => assert ((count_jobs p d =? 0) = false) as -> end; [|done].
  apply Z.eqb_neq. intros E. rewrite count_jobs_zero in E. specialize (E r Hr). simpl in E.
  by rewrite Hk, Ha, Ho in E.
Qed.

Lemma meta_on_meta f d : t_meta (on_meta f d) = f (t_meta d).
Proof. done. Qed.
Lemma insert_marked_all bms d :
  NoDup (map fst bms) -> (forall id, id ∈ map fst bms -> in_marked d id = false) ->
  exists f, for_each bms (fun e => insert_marked e.1 e.2) d = (on_marked f d, Ok tt)
  /\ forall id, is_some (f (t_marked d) !! id) = in_marked d id || bool_decide (id ∈ map fst bms).
Proof.
  revert d. induction bms as [|[i bm] bms IH]; intros d Hnd Hni; simpl in *.
  { exists (fun x => x). split; [by destruct d|]. intros id. unfold in_marked.
    by rewrite orb_false_r. }
  apply NoDup_cons in Hnd as [Hi Hnd].
  assert (t_marked d !! i = None) as E.
  { assert (Hd := Hni i ltac:(left)). unfold in_marked in Hd. by destruct (t_marked d !! i). }
  rewrite (bind_run _ _ d (on_marked (insert i (mkMarked bm None)) d) tt)
    by (unfold insert_marked; by rewrite E).
  destruct (IH (on_marked (insert i (mkMarked bm None)) d) Hnd) as (f & -> & Hf).
  { intros id Hid. unfold in_marked. simpl. rewrite lookup_insert_ne by congruence. apply Hni. by right. }
  exists (fun m => f (insert i (mkMarked bm None) m)). split; [done|]. intros id. rewrite Hf.
  unfold in_marked. simpl. destruct (String.eqb_spec i id) as [->|Hne].
  - rewrite lookup_insert_eq. rewrite (bool_decide_eq_true_2 (id ∈ _ :: _)) by left. by rewrite orb_true_r.
  - rewrite lookup_insert_ne by done. f_equal. apply bool_decide_ext. rewrite elem_of_cons. naive_solver.
Qed.

(** The row the staked chain hands its build to. *)
Definition build_job (now : Z) (hex : string) (r : JobSql) : Prop :=
  jb_kind r = as_str GcConsolidate /\ jb_state r = Queued /\ jb_run_at r = now
  /\ jb_payload r = chain_json hex.
Definition staked (now : Z) (hex : string) (d : Db) : Prop :=
  t_meta d !! "gc.mode" = Some "compact" /\ t_meta d !! "gc.chain" = Some hex
  /\ t_meta d !! "gc.phase" = Some "build" /\ t_meta d !! "gc.started_at" = Some (z_to_string now).
Lemma stake_puts {A} now hex (m : DoM A) d : exists d1,
  (modify wipe_scratch ≫= fun _ => modify wipe_gc_meta ≫= fun _ =>
   put "gc.mode" "compact" ≫= fun _ => put "gc.chain" hex ≫= fun _ =>
   put "gc.started_at" (z_to_string now) ≫= fun _ => put "gc.phase" "build" ≫= fun _ => m) d = m d1
  /\ staked now hex d1 /\ t_jobs d1 = t_jobs d /\ t_packs d1 = t_packs d /\ t_marked d1 = ∅.
Proof.
  unfold mbind, M_bind, put, modify. eexists. split; [reflexivity|].
  unfold staked. rewrite !meta_on_meta. split; [by map_simp|done].
Qed.
Lemma stake_run now hex bms d :
  NoDup (map fst bms) ->
  existsb (fun r => is_kind GcConsolidate r && in_state Queued r) (t_jobs d) = false ->
  exists d', stake_chain now hex bms d = (d', Ok tt) /\ staked now hex d'
  /\ t_packs d' = t_packs d /\ (forall id, in_marked d' id = bool_decide (id ∈ map fst bms))
  /\ exists r, r ∈ t_jobs d' /\ build_job now hex r.
Proof.
  intros Hnd Hb. unfold stake_chain.
  match goal with |- context [put "gc.phase" "build" ≫= fun _ => ?m] =>
    destruct (stake_puts now hex m d) as (d1 & E1 & Hm & Hj & Hp & Hk) end. rewrite E1. clear E1.
  destruct (insert_marked_all bms d1 Hnd) as (f & E & Hf).
  { intros id _. unfold in_marked. by rewrite Hk. }
  rewrite (bind_run _ _ _ _ tt E). destruct Hm as (Hm1 & Hm2 & Hm3 & Hm4).
  rewrite (bind_run _ _ _ (on_marked f d1) (chain_json hex)).
  2:{ unfold chain_payload, meta_opt, gets, mbind, M_bind, mret, M_ret.
      change (t_meta (on_marked f d1)) with (t_meta d1). by rewrite Hm2. }
  exists (insert_job (as_str GcConsolidate) now (chain_json hex) None (on_marked f d1)).
  split. { unfold enqueue, modify, enqueue_db. change (t_jobs (on_marked f d1)) with (t_jobs d1).
           by rewrite Hj, Hb. }
  split; [by split|]. split; [exact Hp|]. split.
  { intros id. specialize (Hf id). unfold in_marked in *. rewrite Hk in Hf at 2. exact Hf. }
  eexists. split; [apply elem_of_app; right; left|]. done.
Qed.
End Stake.

(** ** The dedup bitmaps *)

Definition has_row (d : Db) (s p : string) : Prop := is_Some (t_objects d !! (s, p)).
(** The entry of [s] in pack [p] is one the build copies. *)
Definition picked (d : Db) (bms : list (string * list Z)) (s p : string) : Prop :=
  exists bm r, (p, bm) ∈ bms /\ t_objects d !! (s, p) = Some r /\ bm_get bm (ob_idx r) = true.
(** A pack's index rows as ingest writes them: distinct entry numbers in u32 range. *)
Definition rows_ok (d : Db) (p : string) : Prop :=
  (forall s r, t_objects d !! (s, p) = Some r -> 0 <= ob_idx r < u32_max)
  /\ (forall s s' r r', t_objects d !! (s, p) = Some r -> t_objects d !! (s', p) = Some r' ->
        ob_idx r = ob_idx r' -> s = s').

Lemma set_bit_bm_set bm i : 0 <= i <= u32_max -> set_bit bm i = bm_set bm i.
Proof.
  intros Hi. unfold set_bit, to_usize, bm_set. unfold mbind, result_bind.
  rewrite Z.quot_div_nonneg, Z.rem_mod_nonneg by lia.
  assert (0 <= i / 8 <= u32_max).
  { split; [apply Z.div_pos; lia|]. etrans; [apply Z.div_le_mono; [lia|apply Hi]|]. by vm_compute. }
  destruct (Z.leb_spec 0 (i / 8)); [|lia]. destruct (Z.leb_spec (i / 8) u32_max); [|lia]. simpl.
  replace (Z.land (i mod 8) 7) with (i mod 8); [done|].
  change 7 with (Z.ones 3). rewrite Z.land_ones by lia.
  by rewrite (Z.mod_small (i mod 8)) by (apply Z.mod_pos_bound; lia).
Qed.

Lemma pack_rows_elem d p s r : (s, r) ∈ pack_rows d p <-> t_objects d !! (s, p) = Some r.
Proof.
  unfold pack_rows. rewrite elem_of_map. split.
  - intros ([[s' p'] r'] & Heq & Hin). simplify_eq/=. apply elem_of_filter_b in Hin as [Hin Hp].
    simpl in Hp. bsimp. subst. by apply elem_of_map_to_list.
  - intros Hr. exists ((s, p), r). split; [done|]. apply elem_of_filter_b.
    split; [by apply elem_of_map_to_list|apply String.eqb_refl].
Qed.
Lemma pack_rows_nodup d p : NoDup (map fst (pack_rows d p)).
Proof.
  unfold pack_rows. rewrite map_map. simpl. assert (Hn := NoDup_map_to_list (t_objects d)).
  assert (forall k r r', (k, r) ∈ map_to_list (t_objects d) -> (k, r') ∈ map_to_list (t_objects d) -> r = r') as Hf.
  { intros k r r' H1%elem_of_map_to_list H2%elem_of_map_to_list. congruence. }
  revert Hn Hf. generalize (map_to_list (t_objects d)). induction l as [|[[s q] r] l IH]; simpl; [constructor|].
  rewrite NoDup_cons. intros [Hni Hn] Hf.
  assert (NoDup (map (fun x => x.1.1) (List.filter (fun kv => String.eqb kv.1.2 p) l))) as Hl.
  { apply IH; [done|]. intros; eapply Hf; by right. }
  destruct (String.eqb_spec q p) as [->|Hq]; simpl; [|done]. apply NoDup_cons. split; [|done].
  intros ([[s' q'] r'] & Hs & Hin)%elem_of_map. simpl in Hs. subst s'.
  apply elem_of_filter_b in Hin as [Hin Hq]. simpl in Hq. bsimp. subst q'. apply Hni.
  assert (r = r') as -> by (eapply (Hf (s, p)); [left|by right]). done.
Qed.

Lemma ok_pair_set {B} (a a' : gset string) (b : B) :
  a ≡ a' -> Ok (a, b) = (Ok (a', b) : result Error (gset string * B)).
Proof. intros H. by rewrite (leibniz_equiv _ _ H). Qed.
Lemma mark_rows_spec rows seen bm :
  NoDup (map fst rows) ->
  Forall (fun r => 0 <= ob_idx r.2 < u32_max /\ ob_idx r.2 < 8 * Z.of_nat (length bm)) rows ->
  exists bm', mark_rows rows seen bm = Ok (list_to_set (map fst rows) ∪ seen, bm')
  /\ length bm' = length bm
  /\ forall i, 0 <= i -> bm_get bm' i = true <->
       bm_get bm i = true \/ exists r, r ∈ rows /\ r.1 ∉ seen /\ ob_idx r.2 = i.
Proof.
  revert seen bm. induction rows as [|[s r] rows IH]; intros seen bm Hnd Hf; simpl in *.
  { exists bm. split; [by rewrite (left_id_L ∅ (∪))|]. split; [done|]. intros i _. set_solver. }
  apply NoDup_cons in Hnd as [Hni Hnd]. apply Forall_cons in Hf as [[Hr Hr'] Hf].
  case_bool_decide as Hs.
  - destruct (IH seen bm Hnd Hf) as (bm' & -> & Hl & Hg). exists bm'.
    split; [apply ok_pair_set; set_solver|]. split; [done|]. intros i Hi. rewrite Hg by done. set_solver.
  - simpl in Hr. rewrite set_bit_bm_set by lia.
    destruct (bm_set bm (ob_idx r)) as [bm1|e] eqn:E.
    2:{ assert (Ht := bm_set_total bm (ob_idx r)). rewrite E in Ht. simpl in *. by discriminate Ht; lia. }
    unfold mbind, result_bind. assert (Hl1 := bm_set_length _ _ _ E).
    destruct (IH ({[s]} ∪ seen) bm1 Hnd) as (bm' & -> & Hl & Hg); [by rewrite Hl1|].
    exists bm'. split; [apply ok_pair_set; set_solver|]. split; [congruence|]. intros i Hi.
    rewrite Hg by done. rewrite (bm_get_set bm (ob_idx r) i bm1) by (done || lia).
    rewrite orb_true_iff, Z.eqb_eq. split.
    + intros [[<-|?]|(x & Hx & Hxs & <-)]; [right|by left|right].
      * exists (s, r). split; [left|done].
      * exists x. split; [by right|]. set_solver.
    + intros [?|(x & [->|Hx]%elem_of_cons & Hxs & <-)]; [by left; right|by left; left|].
      right. exists x. split; [done|]. split; [|done]. intros [?%elem_of_singleton|?]%elem_of_union; [|done].
      apply Hni. apply elem_of_map. by exists x.
Qed.

Lemma fold_max_ge l a : a <= fold_left Z.max l a /\ Forall (fun x => x <= fold_left Z.max l a) l.
Proof.
  revert a. induction l as [|x l IH]; intros a; simpl; [split; [lia|done]|].
  destruct (IH (Z.max a x)) as [H1 H2]. split; [lia|]. constructor; [lia|done].
Qed.
Lemma max_idx_ge rows r : r ∈ rows -> ob_idx r.2 <= max_idx rows.
Proof.
  unfold max_idx. destruct rows as [|r0 rows]; simpl; [by intros ?%not_elem_of_nil|].
  destruct (fold_max_ge (map (fun r => ob_idx r.2) rows) (ob_idx r0.2)) as [H1 H2].
  intros [->|Hr]%elem_of_cons; [done|]. rewrite Forall_forall in H2. apply H2. apply elem_of_map. eauto.
Qed.
Lemma max_idx_lt rows b : -1 < b -> (forall r, r ∈ rows -> ob_idx r.2 < b) -> max_idx rows < b.
Proof.
  intros Hb. unfold max_idx. destruct rows as [|r0 rows]; simpl; [done|]. intros Hr.
  assert (forall l a, a < b -> Forall (fun x => x < b) l -> fold_left Z.max l a < b) as Hf.
  { induction l as [|x l IH]; simpl; intros a Ha Hl; [done|]. apply Forall_cons in Hl as [? ?]. apply IH; [lia|done]. }
  apply Hf; [apply Hr; left|]. apply Forall_forall. intros x (r & <- & ?)%elem_of_map. apply Hr. by right.
Qed.
Lemma blank_bitmap_spec p rows :
  lp_count p <= u32_max -> (forall r, r ∈ rows -> 0 <= ob_idx r.2 < u32_max) ->
  0 <= lp_count p ->
  exists bm, blank_bitmap p rows = Ok bm /\ (forall i, bm_get bm i = false)
  /\ Forall (fun r => 0 <= ob_idx r.2 < u32_max /\ ob_idx r.2 < 8 * Z.of_nat (length bm)) rows.
Proof.
  intros Hc Hr H0. unfold blank_bitmap, to_usize.
  assert (max_idx rows < u32_max) as Hm by (apply max_idx_lt; [by vm_compute|apply Hr]).
  assert (-1 <= max_idx rows) as Hm0.
  { destruct rows as [|r rows]; [done|]. etrans; [|apply (max_idx_ge _ r); left].
    destruct (Hr r) as [? _]; [left|]. lia. }
  assert (u32_max = 4294967295) as Hu by done.
  unfold sat_add64. rewrite sat64_id by (unfold in_i64, i64_min, i64_max; lia).
  set (b := Z.max _ _). destruct (Z.leb_spec 0 b); [|unfold b in *; lia].
  destruct (Z.leb_spec b u32_max); [|unfold b in *; lia]. unfold mbind, result_bind. simpl.
  eexists. split; [done|]. split.
  - intros i. unfold bm_get. destruct (_ !! _) as [x|] eqn:E; [|done].
    apply list_elem_of_lookup_2, list_elem_of_In, repeat_spec in E. subst. apply Z.bits_0.
  - apply Forall_forall. intros r Hin. split; [by apply Hr|]. rewrite repeat_length.
    assert (Hmi := max_idx_ge rows r Hin). assert (Hd := Z.div_mod (b + 7) 8 ltac:(lia)).
    assert (Hmod := Z.mod_pos_bound (b + 7) 8 ltac:(lia)). assert (0 <= (b + 7) / 8) by (apply Z.div_pos; lia).
    rewrite Z2Nat.id by lia. unfold b in *. lia.
Qed.

Lemma picked_cons d p bm bms s q : p ∉ map fst bms ->
  picked d ((p, bm) :: bms) s q <->
  (q = p /\ exists r, t_objects d !! (s, p) = Some r /\ bm_get bm (ob_idx r) = true) \/ picked d bms s q.
Proof.
  intros Hni. unfold picked. split.
  - intros (b & r & [?|Hin]%elem_of_cons & Hr & Hg); simplify_eq; [left|right]; eauto 8.
  - intros [(-> & r & Hr & Hg)|(b & r & Hin & Hr & Hg)].
    + exists bm, r. split; [left|done].
    + exists b, r. split; [by right|done].
Qed.
Lemma picked_in d bms s q : picked d bms s q -> q ∈ map fst bms.
Proof. intros (b & r & Hin & _). apply elem_of_map. by exists (q, b). Qed.

Definition cohort_ok (d : Db) (good : list LivePack) : Prop :=
  NoDup (map lp_id good) /\ Forall (fun p => rows_ok d (lp_id p) /\ 0 <= lp_count p <= u32_max) good.

(** One pack's turn: the bits set are exactly those of its unseen objects. *)
Lemma dedup_pack_spec d p seen :
  rows_ok d (lp_id p) -> 0 <= lp_count p <= u32_max ->
  let rows := merge_sort row_le (pack_rows d (lp_id p)) in
  exists bm0 seen' bm, blank_bitmap p rows = Ok bm0 /\ mark_rows rows seen bm0 = Ok (seen', bm)
  /\ (forall s, s ∈ seen' <-> s ∈ seen \/ has_row d s (lp_id p))
  /\ (forall s r, t_objects d !! (s, lp_id p) = Some r -> (bm_get bm (ob_idx r) = true <-> s ∉ seen)).
Proof.
  intros [Hi Hu] Hc rows.
  assert (forall s r, (s, r) ∈ rows <-> t_objects d !! (s, lp_id p) = Some r) as Hrows.
  { intros s r. unfold rows. rewrite merge_sort_Permutation. apply pack_rows_elem. }
  destruct (blank_bitmap_spec p rows) as (bm0 & E0 & Hb & Hf); [lia|intros [s r] Hin; by eapply Hi, Hrows|lia|].
  destruct (mark_rows_spec rows seen bm0) as (bm & E1 & _ & Hg); [|done|].
  { unfold rows. rewrite merge_sort_Permutation. apply pack_rows_nodup. }
  exists bm0, (list_to_set (map fst rows) ∪ seen), bm. split; [done|]. split; [done|]. split.
  - intros s. rewrite elem_of_union, elem_of_list_to_set, elem_of_map. split.
    + intros [([s' r] & <- & Hr%Hrows)|?]; [right|by left]. by exists r.
    + intros [?|[r Hr]]; [by right|left]. exists (s, r). split; [done|by apply Hrows].
  - intros s r Hr. rewrite Hg by (destruct (Hi s r Hr); lia). rewrite Hb. split.
    + intros [?|([s' r'] & Hin%Hrows & Hns & Heq)]; [done|]. simpl in *. by rewrite (Hu s s' r r').
    + intros Hns. right. exists (s, r). split; [by apply Hrows|done].
Qed.
Lemma dedup_loop_spec d good seen : cohort_ok d good ->
  exists bms, dedup_loop d good seen = Ok bms /\ map fst bms = map lp_id good
  /\ forall s, (s ∈ seen -> forall q, ~ picked d bms s q)
     /\ (s ∉ seen -> (exists p, p ∈ good /\ has_row d s (lp_id p)) ->
         exists q, picked d bms s q /\ forall q', picked d bms s q' -> q' = q).
Proof.
  revert seen. induction good as [|p good IH]; intros seen [Hnd Hf]; simpl in *.
  { exists []. split; [done|]. split; [done|]. intros s. split.
    - intros _ q (? & ? & ?%not_elem_of_nil & _). done.
    - by intros _ (? & ?%not_elem_of_nil & _). }
  apply NoDup_cons in Hnd as [Hni Hnd]. apply Forall_cons in Hf as [[Hr Hc] Hf].
  destruct (dedup_pack_spec d p seen Hr Hc) as (bm0 & seen' & bm & E0 & E1 & Hs & Hb).
  destruct (IH seen') as (bms & E2 & Hm & Hall); [by split|].
  exists ((lp_id p, bm) :: bms). unfold mbind, result_bind. rewrite E0, E1. cbn [fst snd]. rewrite E2.
  split; [done|]. split; [simpl; by rewrite Hm|]. rewrite <- Hm in Hni.
  intros s. destruct (Hall s) as [Hin Hout]. 
  assert (Hpc := fun q => picked_cons d (lp_id p) bm bms s q Hni). setoid_rewrite Hpc. split.
  - intros Hss q [(-> & r & Ho & Hg)|Hp]; [by apply (Hb s r Ho) in Hg|].
    eapply Hin; [|exact Hp]. apply Hs. by left.
  - intros Hns Hex. destruct (t_objects d !! (s, lp_id p)) as [r|] eqn:Eo.
    + exists (lp_id p). split; [left; split; [done|]; exists r; split; [done|by apply (Hb s r Eo)]|].
      intros q' [[-> _]|Hp]; [done|]. exfalso. eapply Hin; [|exact Hp]. apply Hs. right. by exists r.
    + destruct Hout as (q & Hq & Huq).
      * rewrite Hs. intros [?|[? ?]]; [done|congruence].
      * destruct Hex as (p' & [->|Hp']%elem_of_cons & Hr'); [|eauto]. destruct Hr'. congruence.
      * exists q. split; [by right|]. intros q' [(-> & r & ? & _)|Hp]; [congruence|by apply Huq].
Qed.

(** The build copies each object of the cohort exactly once: the bitmaps are
    computed without error, one per cohort pack, and every object indexed in
    some cohort pack is selected in exactly one of them. *)
Theorem dedup_bitmaps_once (d : Db) (good : list LivePack) :
  cohort_ok d good ->
  exists bms, dedup_bitmaps good d = (d, Ok bms)
  /\ map fst bms ≡ₚ map lp_id good
  /\ forall s, (exists p, p ∈ good /\ has_row d s (lp_id p)) ->
       exists q, picked d bms s q /\ forall q', picked d bms s q' -> q' = q.
Proof.
  intros [Hnd Hf]. assert (Hp := merge_sort_Permutation id_le good).
  destruct (dedup_loop_spec d (merge_sort id_le good) ∅) as (bms & E & Hm & Hall).
  { split; [by rewrite Hp|by rewrite Hp]. }
  exists bms. unfold dedup_bitmaps. rewrite E. split; [done|]. split; [by rewrite Hm, Hp|].
  intros s (p & Hin & Hr). apply (Hall s); [set_solver|]. exists p. by rewrite Hp.
Qed.

(** ** Staking a chain *)

Section Stakes.
Context `{Platform}.

Definition live_strikes (d : Db) (q : Strikes) : Strikes :=
  List.filter (fun e => bool_decide (e.1 ∈ map lp_id (live_packs d))) q.

Lemma live_packs_live d p : p ∈ live_packs d -> pack_live d (lp_id p) = true.
Proof.
  unfold live_packs, pack_live. intros ([id r] & <- & [Hin%elem_of_map_to_list Hl]%elem_of_filter_b)%elem_of_map.
  simpl in *. by rewrite Hin.
Qed.
Lemma prune_run d q : (quarantine_read d).2 = Ok (Some q) ->
  exists f, prune_quarantine (live_packs d) d = (on_meta f d, Ok (live_strikes d q)).
Proof.
  unfold prune_quarantine, quarantine_for_write, quarantine_read, meta_opt, gets, mbind, M_bind, mret, M_ret.
  intros [= Hq]. rewrite Hq. fold (live_strikes d q).
  destruct (length (live_strikes d q) =? length q)%nat; [exists (fun m => m); by destruct d|].
  by eexists.
Qed.
Lemma t5_run cohort q d : Forall (fun p => poisoned d p = false) cohort ->
  t5_filter cohort q d = (d, Ok (cohort, q, (length cohort <? 2)%nat)).
Proof.
  intros Hf. unfold t5_filter, gets, mbind, M_bind, mret, M_ret. rewrite Forall_forall in Hf.
  rewrite (filter_negb_id (poisoned d)), (filter_false (poisoned d)) by done. done.
Qed.

(** On an idle repository whose healthy packs form a cohort, the slice stakes a
    compaction chain: the gc.* keys name it, [marked] holds exactly the cohort
    and is the frozen set the swap will find live, and a build job of that chain
    is queued for now. *)
Theorem gc_compact_stakes (now : Z) (hex : string) (d : Db) (q : Strikes) (cohort : list LivePack) :
  t_meta d !! "gc.started_at" = None -> existsb busy_row (t_jobs d) = false ->
  (quarantine_read d).2 = Ok (Some q) ->
  select_cohort (live_packs d) (quarantine_ids (live_strikes d q)) now (knobs d) = Some cohort ->
  Forall (fun p => poisoned d p = false) cohort -> cohort_ok d cohort -> (2 <= length cohort)%nat ->
  let d' := (gc_compact now hex d).1 in
  staked now hex d' /\ (forall id, in_marked d' id = bool_decide (id ∈ map lp_id cohort))
  /\ (cohort_live d').2 = Ok true /\ exists r, r ∈ t_jobs d' /\ build_job now hex r.
Proof.
  intros Hs Hb Hq Hsel Hp Hok Hlen. unfold gc_compact.
  rewrite (bind_run _ _ d d None).
  2:{ unfold entry_guard, meta_opt, gets, mbind, M_bind. rewrite Hs.
      cbv beta iota delta [is_some]. by rewrite Hb. }
  rewrite (bind_run _ _ d d (live_packs d) eq_refl).
  destruct (prune_run d q Hq) as [f Ef]. rewrite (bind_run _ _ _ _ _ Ef).
  set (d1 := on_meta f d). rewrite (bind_run _ _ d1 d1 (knobs d1) eq_refl).
  change (knobs d1) with (knobs d). rewrite Hsel.
  rewrite (bind_run _ _ _ _ _ (t5_run cohort _ d1 Hp)). cbn [fst snd].
  destruct (Nat.ltb_spec (length cohort) 2); [lia|].
  destruct (dedup_loop_spec d1 (merge_sort id_le cohort) ∅) as (bms & E & Hm & _).
  { destruct Hok as [? ?]. split; by rewrite merge_sort_Permutation. }
  rewrite (bind_run _ _ d1 d1 bms) by (unfold dedup_bitmaps; by rewrite E).
  assert (map fst bms ≡ₚ map lp_id cohort) as Hperm by (by rewrite Hm, merge_sort_Permutation).
  destruct (stake_run now hex bms d1) as (d2 & E2 & Hst & Hpk & Hin & Hj).
  { rewrite Hperm. apply Hok. }
  { apply not_true_is_false. intros (r & Hr & [Hk1 Hk2]%andb_prop)%existsb_exists.
    apply Bool.not_true_iff_false in Hb. apply Hb, existsb_exists. exists r. split; [done|].
    unfold busy_row, active. by rewrite Hk1, Hk2. }
  rewrite (bind_run _ _ _ _ tt E2).
  destruct (failpoint_run "gc.compact.init" d2) as (d3 & o & Ef3 & g & ->).
  match goal with |- context [(?m d2).1] => assert ((m d2).1 = on_failpoints g d2) as -> end.
  { unfold mbind, M_bind. rewrite Ef3. by destruct o. }
  assert (forall id, in_marked d2 id = bool_decide (id ∈ map lp_id cohort)) as Hin'.
  { intros id. rewrite Hin. apply bool_decide_ext. by rewrite Hperm. }
  split; [exact Hst|]. split; [exact Hin'|]. split; [|exact Hj].
  apply (cohort_live_iff d2). split.
  - destruct cohort as [|p c]; [simpl in *; lia|]. intros Hz. specialize (Hin' (lp_id p)).
    unfold in_marked in Hin'. rewrite Hz, lookup_empty in Hin'. simpl is_some in Hin'. symmetry in Hin'.
    apply bool_decide_eq_false in Hin'. apply Hin'. left.
  - intros c Hc. rewrite Hin' in Hc. apply bool_decide_eq_true in Hc as (p & <- & Hpc)%elem_of_map.
    unfold pack_live. rewrite Hpk. apply (live_packs_live d).
    destruct (select_cohort_sub _ _ _ _ _ Hsel) as [rest Hrest]. rewrite <- Hrest. apply elem_of_app. by left.
Qed.
End Stakes.

(** ** Concrete runs *)

Module CompactDemo.
Definition platform : Platform :=
  demo_env (fun k => if String.eqb k "GE_COMPACT_FANIN" then Some "2" else None).
#[local] Existing Instance platform.
Definition pack (created : Z) : PackSql := mkPack Live 1 100 0 0 None created None.
Definition obj (idx : Z) : ObjSql := mkObj idx 12 30 3 20.
(** Two live packs that both hold [a]; [b] is only in the second. *)
Definition d : Db :=
  on_packs (fun _ => {["P1" := pack 0; "P2" := mkPack Live 2 100 0 0 None 1 None]})
    (on_objects (fun _ => {[("a", "P1") := obj 0; ("a", "P2") := obj 0; ("b", "P2") := obj 1]}) empty_db).
Definition cohort : list LivePack := [mkLivePack "P1" 1 100 0; mkLivePack "P2" 2 100 1].
Definition now : Z := 1000000.

(** The staked chain, and the chain with its output pack [N] written by the
    slice that claimed the build job. *)
Definition d1 : Db := (gc_compact now "c0" d).1.
Definition d2 : Db :=
  update_jobs (fun _ => true) (claim_row now "L") (on_meta (insert "gc.new_pack" "N")
    (on_packs (insert "N" (mkPack Ingesting 0 0 0 0 None 5 None))
       (on_objects (fun o => <[("a", "N") := obj 0]> (<[("b", "N") := obj 1]> o)) d1))).

Lemma rows_of s p r : t_objects d !! (s, p) = Some r ->
  (s = "a" /\ p = "P1" /\ r = obj 0) \/ (s = "a" /\ p = "P2" /\ r = obj 0) \/ (s = "b" /\ p = "P2" /\ r = obj 1).
Proof.
  unfold d. cbn [t_objects on_objects on_packs].
  intros [[E ?]|[_ [[E ?]|[_ Hr]]%lookup_insert_Some]]%lookup_insert_Some; [..|];
    [injection E as ? ?; simplify_eq; naive_solver..|].
  apply lookup_singleton_Some in Hr as [E ?]. injection E as ? ?. naive_solver.
Qed.
Ltac rows := intros;
  repeat match goal with H : t_objects d !! _ = Some _ |- _ =>
    apply rows_of in H as [(?&?&?)|[(?&?&?)|(?&?&?)]] end; simplify_eq; try done.
Lemma rows_fine p : rows_ok d p.
Proof. split; rows; by vm_compute. Qed.
Lemma ok : cohort_ok d cohort.
Proof.
  split; [apply (bool_decide_unpack _); vm_compute; exact I|].
  apply Forall_cons; split; [split; [apply rows_fine|split; by vm_compute]|].
  apply Forall_cons; split; [split; [apply rows_fine|split; by vm_compute]|]. constructor.
Qed.
Lemma no_chain : copy_inv d.
Proof. intros p s E. discriminate E. Qed.
Lemma d1_objects : t_objects d1 = t_objects d.
Proof. vm_compute. reflexivity. Qed.
Lemma d2_rows s p : is_Some (t_objects d2 !! (s, p)) -> s = "a" \/ s = "b".
Proof.
  unfold d2, update_jobs. cbn [t_objects on_objects on_packs on_meta on_jobs]. rewrite d1_objects.
  intros [r [[E _]|[_ [[E _]|[_ Hr]]%lookup_insert_Some]]%lookup_insert_Some];
    [injection E as ? ?; subst; auto..|].
  apply rows_of in Hr as [(-> & _)|[(-> & _)|(-> & _)]]; auto.
Qed.
Lemma d2_new s : s = "a" \/ s = "b" -> is_Some (t_objects d2 !! (s, "N")) /\ is_Some (t_objects d2 !! (s, "P2")).
Proof. intros [->| ->]; split; apply (bool_decide_unpack _); vm_compute; exact I. Qed.
Lemma d2_new_pack : t_meta d2 !! "gc.new_pack" = Some "N".
Proof. vm_compute. reflexivity. Qed.
Lemma d2_copy : copy_inv d2.
Proof.
  intros p s Hp Hs. rewrite d2_new_pack in Hp. injection Hp as <-.
  exists "P2". split; [by vm_compute|]. split; [done|].
  apply d2_rows in Hs. by apply d2_new.
Qed.
Lemma d2_covers : covers d2 "N".
Proof.
  split; [by vm_compute|]. intros c s Hc Hs. apply d2_new. by eapply d2_rows.
Qed.
Definition job : Job := mkJobRec 1 GcConsolidate now 0 None "{}" "L".
(** The chain after its job is gone: an orphan. *)
Definition d3 : Db := on_jobs (fun _ => []) d2.
Lemma d3_copy : copy_inv d3.
Proof. unfold d3. generalize d2_copy. generalize d2. intros x H p s. apply H. Qed.
End CompactDemo.

Lemma wipe_all_lossless_witness : exists d',
  @wipe_all CompactDemo.platform 5 CompactDemo.d2 = (d', Ok tt) /\ lossless CompactDemo.d2 d'.
Proof.
  destruct (@wipe_all_lossless CompactDemo.platform 5 CompactDemo.d2 CompactDemo.d2_copy) as (d' & E & Hl & _).
  exists d'. by split.
Defined.
Lemma quarantine_bump_spec_witness :
  strikes_of (quarantine_bump [("p", 1)] "p" 1) "p" = Some 2.
Proof.
  destruct (quarantine_bump_spec [("p", 1)] "p" 1) as (_ & _ & E & _).
  - apply NoDup_singleton.
  - unfold QUAR_CAP. simpl. lia.
  - rewrite E. reflexivity.
Defined.
(** The orphan's build is dropped, its rows with it, and both objects stay readable. *)
Lemma gc_compact_lossless_witness :
  let run := @gc_compact CompactDemo.platform CompactDemo.now "c1" CompactDemo.d3 in
  live_sha run.1 "a" /\ live_sha run.1 "b" /\ t_objects CompactDemo.d3 !! ("b", "N") <> None /\ t_objects run.1 !! ("b", "N") = None.
Proof.
  intros run. assert (lossless CompactDemo.d3 run.1) as [Hl _].
  { apply (@gc_compact_lossless CompactDemo.platform). exact CompactDemo.d3_copy. }
  split; [|split; [|split; vm_compute; [intros E; discriminate E|reflexivity]]]; apply Hl; exists "P2";
    (split; [apply (bool_decide_unpack _); vm_compute; exact I|by vm_compute]).
Defined.
(** The swap of the demo chain: the cohort is retired and both objects stay readable. *)
Lemma swap_lossless_witness :
  let run := @swap CompactDemo.platform 7 "N" (mkPackMeta "N" None 2 90 0 0 5) CompactDemo.job (Some "c0") CompactDemo.d2 in
  live_sha run.1 "a" /\ live_sha run.1 "b" /\ run.2 = Ok FDone /\ pack_live run.1 "P1" = false.
Proof.
  intros run. assert (lossless CompactDemo.d2 run.1) as [Hl _].
  { apply (@swap_lossless CompactDemo.platform); [exact CompactDemo.d2_copy|exact CompactDemo.d2_covers]. }
  split; [|split; [|split; vm_compute; reflexivity]]; apply Hl; exists "P2";
    (split; [apply (bool_decide_unpack _); vm_compute; exact I|by vm_compute]).
Defined.
Lemma dedup_bitmaps_once_witness : exists bms q,
  dedup_bitmaps CompactDemo.cohort CompactDemo.d = (CompactDemo.d, Ok bms)
  /\ map fst bms ≡ₚ ["P1"; "P2"] /\ picked CompactDemo.d bms "b" q.
Proof.
  destruct (dedup_bitmaps_once CompactDemo.d CompactDemo.cohort CompactDemo.ok) as (bms & E & Hp & Hs).
  destruct (Hs "b") as (q & Hq & _).
  { exists (mkLivePack "P2" 2 100 1). split; [right; left|].
    apply (bool_decide_unpack _). vm_compute. exact I. }
  exists bms, q. split; [exact E|]. by split.
Defined.
Lemma gc_compact_respects_owner_witness :
  @gc_compact CompactDemo.platform CompactDemo.now "c1" CompactDemo.d1
  = (CompactDemo.d1, Ok (Reschedule (add64 CompactDemo.now RETRY_MS))).
Proof.
  apply (@gc_compact_respects_owner CompactDemo.platform CompactDemo.now "c1" "c0" CompactDemo.d1
    (mkJob 1 "gc_consolidate" CompactDemo.now 0 None (chain_json "c0") Queued None None None 0));
    try (vm_compute; reflexivity).
  apply list_elem_of_In. vm_compute. auto.
Defined.
Lemma gc_compact_stakes_witness :
  staked CompactDemo.now "c0" (@gc_compact CompactDemo.platform CompactDemo.now "c0" CompactDemo.d).1.
Proof.
  refine (proj1 (@gc_compact_stakes CompactDemo.platform CompactDemo.now "c0" CompactDemo.d []
    CompactDemo.cohort _ _ _ _ _ CompactDemo.ok _)).
  1-4: vm_compute; reflexivity.
  - repeat (apply Forall_cons; split; [vm_compute; reflexivity|]). constructor.
  - simpl. lia.
Defined.
