(* ===== verification/Refs.v ===== *)
(** * One ref command

    The per-command half of a push, from [server/src/repo_do/mod.rs]: the pin,
    protection and fast-forward queries, the compare-and-swap predicate, the
    write barrier's feed, and [apply_one], which decides and applies a single
    create, update or delete.  The theorems: the fast-forward walk answers the
    ancestry question it is asked; [apply_one] writes exactly what its
    compare-and-swap allows and only after every gate has passed. *)
From S2P Require Import Prelude Errors Db Scope Jobs GcBase.
Open Scope Z_scope.

Definition MAX_REFS : Z := 65536.
Definition FF_WALK_MAX : Z := 200000.

Record Cmd : Type := mkCmd { c_old : string; c_new : string; c_name : string; c_peeled : option string }.

Section Refs.
Context `{Platform}.

Definition ref_count (d : Db) : Z := Z.of_nat (size (t_refs d)).
Definition pin_sha (d : Db) (name : string) : option string := pin_target <$> t_pins d !! name.
Definition is_protected (d : Db) (name : string) : bool :=
  existsb (fun kv => scope_allows (Some kv.1) name) (map_to_list (t_protected d)).

(** ** The ancestry walk

    The recursive query is SQLite's queue: a row is taken from the front, its
    unseen parents (in parent order) join the back, and [LIMIT] bounds how many
    rows are ever taken; [fuel] is that limit. *)
Definition key_n_le (a b : Z * option string) : Prop := a.1 <= b.1.
#[global] Instance key_n_le_dec : RelDecision key_n_le.
Proof. intros a b. unfold key_n_le. apply _. Defined.
Definition parents_of (d : Db) (sha : string) : list string :=
  omap snd (merge_sort key_n_le
    (map (fun kv => (kv.1.2, kv.2))
       (List.filter (fun kv => String.eqb kv.1.1 sha && (0 <=? kv.1.2)) (map_to_list (t_parents d))))).
Definition recorded (d : Db) (sha : string) : bool := is_some (t_parents d !! (sha, -1)).
Fixpoint add_new (ps : list string) (seen : gset string) : list string * gset string :=
  match ps with
  | [] => ([], seen)
  | p :: ps' =>
      if bool_decide (p ∈ seen) then add_new ps' seen
      else let r := add_new ps' ({[p]} ∪ seen) in (p :: r.1, r.2)
  end.
Fixpoint anc_walk (fuel : nat) (d : Db) (queue : list string) (seen : gset string) : list string :=
  match fuel, queue with
  | S fuel', s :: queue' =>
      let r := add_new (parents_of d s) seen in
      s :: anc_walk fuel' d (queue' ++ r.1) r.2
  | _, _ => []
  end.
Definition anc (d : Db) (limit : Z) (new : string) : list string :=
  anc_walk (Z.to_nat limit) d [new] {[new]}.
Definition ff_walk (d : Db) (limit : Z) (old new : string) : option bool :=
  let a := anc d limit new in
  if bool_decide (old ∈ a) then Some true
  else if existsb (fun s => negb (recorded d s)) a || (limit <=? Z.of_nat (length a)) then None
  else Some false.
Definition ff_ancestor (d : Db) (old new : string) : option bool := ff_walk d FF_WALK_MAX old new.

(** ** Writing a ref *)

Definition ref_cas_ok (d : Db) (name : string) (old_null : bool) (old : string) : bool :=
  match t_refs d !! name, old_null with
  | None, true => true
  | Some r, false => String.eqb (rf_target r) old
  | _, _ => false
  end.
(** The INSERT, DELETE or UPDATE of one command, with [changes()]. *)
Definition write_ref (now : Z) (c : Cmd) (d : Db) : Db * Z :=
  if is_null (c_old c) then
    match t_refs d !! c_name c with
    | None => (on_refs (insert (c_name c) (mkRef (c_new c) (c_peeled c) now)) d, 1)
    | Some _ => (d, 0)
    end
  else
    match t_refs d !! c_name c with
    | Some r =>
        if String.eqb (rf_target r) (c_old c) then
          if is_null (c_new c) then (on_refs (delete (c_name c)) d, 1)
          else (on_refs (insert (c_name c) (mkRef (c_new c) (c_peeled c) now)) d, 1)
        else (d, 0)
    | None => (d, 0)
    end.

Definition feed_one (d0 : Db) (sha : string) (m : gmap string Z) : gmap string Z :=
  if bool_decide (sha ∈ t_seen d0) then m
  else match m !! sha with
       | Some g => insert sha (Z.min g 1) m
       | None => insert sha 1 m
       end.
Definition feed_frontier (feeds : list string) (d : Db) : Db :=
  on_frontier (fun m => fold_left (fun m s => feed_one d s m) feeds m) d.
Definition barrier_feed_landing (feeds : list string) : DoM unit :=
  failpoint "gc.barrier.landing" ≫= fun _ => modify (feed_frontier feeds).
Definition feeds_of (c : Cmd) : list string :=
  c_new c :: match c_peeled c with
             | Some p => if str_any (fun b => negb (Ascii.eqb b "0")) p then [p] else []
             | None => []
             end.
Definition bump_refs_version : DoM unit := modify (meta_incr "refs_version").

(** ** apply_one *)

Definition refname_ok (name : string) : bool := starts_with "refs/" name && gix_name name.
(** The gates before the target checks: name, scope, no-op, pin, head, protection. *)
Definition gate (d : Db) (head : string) (scopes : list (option string)) (c : Cmd) : option string :=
  if negb (refname_ok (c_name c)) then Some "funny refname"
  else if negb (forallb (fun s => scope_allows s (c_name c)) scopes) then Some "ref outside token scope"
  else if is_null (c_old c) && is_null (c_new c) then Some "funny refname"
  else if is_some (pin_sha d (c_name c)) then Some "ref is pinned"
  else if is_null (c_new c) && String.eqb (c_name c) head
       then Some "deletion of the current branch prohibited"
  else if is_protected d (c_name c) then
    protected_verdict (is_null (c_old c)) (is_null (c_new c))
      (if is_null (c_old c) || is_null (c_new c) then None else ff_ancestor d (c_old c) (c_new c))
  else None.
(** The tip must be live now, and a create must fit under the ref cap. *)
Definition target_gate (d : Db) (c : Cmd) : result Error (option string) :=
  if is_null (c_new c) then Ok None
  else loc ← lookup_one d (c_new c);
       Ok (if negb (is_some loc) then Some "missing necessary objects"
           else if is_null (c_old c) && (MAX_REFS <=? ref_count d) then Some "too many refs"
           else None).
Definition write_landing (push who : string) (now : Z) (barrier : bool) (c : Cmd) : DoM (option string) := fun d =>
  let w := write_ref now c d in
  if negb (w.2 =? 1) then
    (w.1, if barrier then Err (Internal "ref write after landing pre-check")
          else Ok (Some "failed to update ref"))
  else
    (modify (on_reflog (fun l => l ++ [mkReflog (c_name c) (c_old c) (c_new c) push who now])) ≫= fun _ =>
     (if barrier then failpoint "gc.barrier.after" else mret tt) ≫= fun _ => mret None) w.1.
Definition apply_one (head : string) (c : Cmd) (push who : string) (now : Z) (write barrier : bool)
    (scopes : list (option string)) : DoM (option string) :=
  d ← gets (fun d => d);
  match gate d head scopes c with
  | Some why => mret (Some why)
  | None =>
      t ← lift (target_gate d c);
      match t with
      | Some why => mret (Some why)
      | None =>
          let cas := ref_cas_ok d (c_name c) (is_null (c_old c)) (c_old c) in
          if negb write then mret (if cas then None else Some "failed to update ref")
          else if barrier then
            if negb cas then mret (Some "failed to update ref")
            else (if is_null (c_new c) then mret tt else barrier_feed_landing (feeds_of c)) ≫= fun _ =>
                 bump_refs_version ≫= fun _ =>
                 write_landing push who now barrier c
          else write_landing push who now barrier c
      end
  end.
End Refs.

(** ** The ancestry walk is right *)

Section Walk.
Context (d : Db).
(** [b] is recorded as a parent of commit [a]. *)
Definition parent (a b : string) : Prop := exists n, 0 <= n /\ t_parents d !! (a, n) = Some (Some b).
Lemma parents_of_elem a b : b ∈ parents_of d a <-> parent a b.
Proof.
  unfold parents_of, parent. rewrite list_elem_of_omap. setoid_rewrite merge_sort_Permutation.
  setoid_rewrite elem_of_map. split.
  - intros ([n o] & ([[a' n'] o'] & E & [Hin%elem_of_map_to_list Hb]%elem_of_filter_b) & Ho).
    simpl in *. simplify_eq. bsimp. subst. eauto.
  - intros (n & Hn & Hr). exists (n, Some b). split; [|done]. exists ((a, n), Some b). split; [done|].
    apply elem_of_filter_b. split; [by apply elem_of_map_to_list|]. simpl. rewrite String.eqb_refl.
    by apply Z.leb_le in Hn as ->.
Qed.

Lemma add_new_spec ps seen :
  (forall x, x ∈ (add_new ps seen).1 <-> x ∈ ps /\ x ∉ seen)
  /\ (forall x, x ∈ (add_new ps seen).2 <-> x ∈ ps \/ x ∈ seen) /\ NoDup (add_new ps seen).1.
Proof.
  revert seen. induction ps as [|p ps IH]; intros seen; simpl.
  { split; [set_solver|]. split; [set_solver|constructor]. }
  case_bool_decide as Hp; simpl.
  - destruct (IH seen) as (H1 & H2 & H3). split; [|split; [|done]]; intros x; rewrite ?H1, ?H2, elem_of_cons; naive_solver.
  - destruct (IH ({[p]} ∪ seen)) as (H1 & H2 & H3).
    split; [intros x; rewrite !elem_of_cons, H1, elem_of_union, elem_of_singleton|
            split; [intros x; rewrite !elem_of_cons, H2, elem_of_union, elem_of_singleton|]].
    + destruct (decide (x = p)); naive_solver.
    + naive_solver.
    + apply NoDup_cons. split; [|done]. rewrite H1. set_solver.
Qed.

Lemma walk_sound fuel queue seen x :
  x ∈ anc_walk fuel d queue seen -> exists q, q ∈ queue /\ rtc parent q x.
Proof.
  revert queue seen. induction fuel as [|fuel IH]; intros queue seen; simpl; [by intros ?%not_elem_of_nil|].
  destruct queue as [|s queue]; [by intros ?%not_elem_of_nil|]. intros [->|Hx]%elem_of_cons.
  { exists s. split; [left|reflexivity]. }
  apply IH in Hx as (q & [Hq|Hq]%elem_of_app & Hr).
  - exists q. split; [by right|done].
  - exists s. split; [left|]. apply (proj1 (add_new_spec _ _)) in Hq as [Hq _].
    eapply rtc_l; [by apply parents_of_elem|exact Hr].
Qed.
Lemma walk_length fuel queue seen : (length (anc_walk fuel d queue seen) <= fuel)%nat.
Proof.
  revert queue seen. induction fuel as [|fuel IH]; intros queue seen; simpl; [done|].
  destruct queue; simpl; [lia|]. specialize (IH (queue ++ (add_new (parents_of d s) seen).1) (add_new (parents_of d s) seen).2). lia.
Qed.
(** A walk that stops before the limit has drained its queue. *)
Lemma walk_complete fuel queue seen :
  let out := anc_walk fuel d queue seen in
  (length out < fuel)%nat ->
  (forall q, q ∈ queue -> q ∈ out)
  /\ (forall x y, x ∈ out -> parent x y -> y ∈ out \/ (y ∈ seen /\ y ∉ queue)).
Proof.
  revert queue seen. induction fuel as [|fuel IH]; intros queue seen out Hlen; [simpl in *; lia|].
  destruct queue as [|s queue]; simpl in *; subst out.
  { split; [by intros ? ?%not_elem_of_nil|by intros ? ? ?%not_elem_of_nil]. }
  destruct (add_new_spec (parents_of d s) seen) as (H1 & H2 & _). set (r := add_new _ _) in *.
  destruct (IH (queue ++ r.1) r.2) as [Hq Hc]; [simpl in *; lia|]. split.
  - intros q [->|Hin]%elem_of_cons; [left|right]. apply Hq, elem_of_app. by left.
  - intros x y [->|Hx]%elem_of_cons Hp.
    + destruct (decide (y ∈ seen)) as [Hy|Hy].
      * destruct (decide (y ∈ s :: queue)) as [[->|Hyq]%elem_of_cons|Hyq]; [left; left| |by right].
        left. right. apply Hq, elem_of_app. by left.
      * left. right. apply Hq, elem_of_app. right. apply H1. split; [by apply parents_of_elem|done].
    + destruct (Hc x y Hx Hp) as [Hy|[Hy Hnq]]; [left; by right|].
      rewrite elem_of_app in Hnq. destruct (decide (y ∈ seen)) as [Hys|Hys].
      * destruct (decide (y = s)) as [->|Hne]; [left; left|]. right. split; [done|].
        rewrite elem_of_cons. naive_solver.
      * exfalso. apply Hnq. right. apply H1. split; [|done]. by apply H2 in Hy as [?|?].
Qed.
Lemma walk_nodup fuel queue seen :
  NoDup queue -> (forall q, q ∈ queue -> q ∈ seen) ->
  NoDup (anc_walk fuel d queue seen)
  /\ (forall y, y ∈ seen -> y ∉ queue -> y ∉ anc_walk fuel d queue seen).
Proof.
  revert queue seen. induction fuel as [|fuel IH]; intros queue seen Hnd Hsub; simpl.
  { split; [constructor|intros ? ? ?; apply not_elem_of_nil]. }
  destruct queue as [|s queue]; [split; [constructor|intros ? ? ?; apply not_elem_of_nil]|].
  apply NoDup_cons in Hnd as [Hs Hnd].
  destruct (add_new_spec (parents_of d s) seen) as (H1 & H2 & H3). set (r := add_new _ _) in *.
  assert (s ∈ seen) as Hss by (apply Hsub; left).
  destruct (IH (queue ++ r.1) r.2) as [Hn Hd].
  { apply NoDup_app. split; [done|]. split; [|done]. intros x Hx [_ Hx']%H1. apply Hx', Hsub. by right. }
  { intros q [Hq|Hq]%elem_of_app; apply H2; [right; apply Hsub; by right|left; by apply H1 in Hq as [? _]]. }
  split.
  - apply NoDup_cons. split; [|done]. apply Hd; [apply H2; by right|]. rewrite elem_of_app, H1. tauto.
  - intros y Hy Hnq. rewrite elem_of_cons in Hnq |- *. intros [->|Hin]; [tauto|].
    revert Hin. apply Hd; [apply H2; by right|]. rewrite elem_of_app, H1. tauto.
Qed.

Lemma anc_sound limit new x : x ∈ anc d limit new -> rtc parent new x.
Proof. intros (q & Hq & Hr)%walk_sound. apply list_elem_of_singleton in Hq. by subst. Qed.
Lemma anc_complete limit new x : Z.of_nat (length (anc d limit new)) < limit ->
  rtc parent new x -> x ∈ anc d limit new.
Proof.
  intros Hlen. destruct (walk_complete (Z.to_nat limit) [new] {[new]}) as [Hq Hc]; [unfold anc in Hlen; lia|].
  revert x. apply (rtc_ind_r (fun x => x ∈ anc d limit new)); [apply Hq; left|].
  intros x y _ Hp IH. destruct (Hc x y IH Hp) as [?|[? Hn]]; [done|]. exfalso. apply Hn.
  apply list_elem_of_singleton. set_solver.
Qed.

Lemma ff_walk_yes limit old new : ff_walk d limit old new = Some true -> rtc parent new old.
Proof.
  unfold ff_walk. case_bool_decide as Hin; [intros _; by eapply anc_sound|]. by case_match.
Qed.

(** C16: The fast-forward answer, for any walk limit: a yes means [old] is [new] or
    an ancestor of it in the recorded graph; a no means it is not and the graph
    above [new] is completely recorded; and whenever that graph is recorded and
    smaller than the limit the walk does answer. *)
Theorem ff_walk_correct (limit : Z) (old new : string) :
  (ff_walk d limit old new = Some true -> rtc parent new old)
  /\ (ff_walk d limit old new = Some false ->
        ~ rtc parent new old /\ forall x, rtc parent new x -> recorded d x = true)
  /\ (forall X : gset string, (forall x, rtc parent new x -> x ∈ X /\ recorded d x = true) ->
        Z.of_nat (size X) < limit -> is_some (ff_walk d limit old new) = true).
Proof.
  split; [apply ff_walk_yes|]. unfold ff_walk. set (a := anc d limit new). split.
  - case_bool_decide as Hin; [done|]. destruct (existsb _ a) eqn:Ee; [done|]. simpl.
    destruct (Z.leb_spec limit (Z.of_nat (length a))) as [|Hl]; [done|]. intros _.
    split; [intros Hr; by apply Hin, anc_complete|]. intros x Hx. apply (anc_complete limit) in Hx; [|done].
    destruct (recorded d x) eqn:Er; [done|]. exfalso. apply Bool.not_true_iff_false in Ee.
    apply Ee, existsb_exists. exists x.
    split; [by apply list_elem_of_In|by rewrite Er].
  - intros X HX Hs. case_bool_decide as Hin; [done|].
    assert (existsb (fun s => negb (recorded d s)) a = false) as ->.
    { apply not_true_is_false. intros (x & Hx & Hr)%existsb_exists. apply list_elem_of_In in Hx.
      destruct (HX x (anc_sound limit new x Hx)) as [_ Hx']. by rewrite Hx' in Hr. }
    destruct (Z.leb_spec limit (Z.of_nat (length a))) as [Hl|]; [|done]. exfalso.
    assert (NoDup a) as Hnd.
    { apply (walk_nodup (Z.to_nat limit) [new] {[new]}); [apply NoDup_singleton|].
      intros q ->%list_elem_of_singleton. set_solver. }
    assert (length a <= size X)%nat; [|lia]. rewrite <- (size_list_to_set (C := gset string) a) by done.
    apply subseteq_size. intros x Hx%elem_of_list_to_set. apply HX. by apply (anc_sound limit).
Qed.
End Walk.

(** ** What a command may write *)

Section Apply.
Context `{Platform}.

(** The ref table a landed command leaves. *)
Definition land_ref (now : Z) (c : Cmd) (m : gmap string RefSql) : gmap string RefSql :=
  if is_null (c_new c) then delete (c_name c) m
  else insert (c_name c) (mkRef (c_new c) (c_peeled c) now) m.
Definition cas (d : Db) (c : Cmd) : bool := ref_cas_ok d (c_name c) (is_null (c_old c)) (c_old c).

Lemma write_ref_spec now c d : is_null (c_old c) && is_null (c_new c) = false ->
  write_ref now c d = if cas d c then (on_refs (land_ref now c) d, 1) else (d, 0).
Proof.
  intros Hn. unfold write_ref, cas, ref_cas_ok, land_ref.
  destruct (is_null (c_old c)), (t_refs d !! c_name c) as [r|] eqn:E; simpl in *; try done.
  - by rewrite Hn.
  - destruct (String.eqb _ _), (is_null (c_new c)); done.
Qed.
Lemma failpoint_off name d : hooks_enabled = false -> failpoint name d = (d, Ok tt).
Proof. intros Hh. unfold failpoint. by rewrite Hh. Qed.
Lemma gate_none d head scopes c : gate d head scopes c = None ->
  refname_ok (c_name c) = true /\ forallb (fun s => scope_allows s (c_name c)) scopes = true
  /\ is_null (c_old c) && is_null (c_new c) = false /\ t_pins d !! c_name c = None
  /\ (is_null (c_new c) = true -> c_name c <> head)
  /\ (is_protected d (c_name c) = true -> is_null (c_new c) = false
      /\ (is_null (c_old c) = false -> ff_ancestor d (c_old c) (c_new c) = Some true)).
Proof.
  unfold gate, pin_sha. destruct (refname_ok (c_name c)); [|done]. simpl.
  destruct (forallb _ scopes); [|done]. simpl.
  destruct (is_null (c_old c) && is_null (c_new c)) eqn:E; [done|].
  destruct (t_pins d !! c_name c); [done|]. simpl.
  destruct (is_null (c_new c) && (c_name c =? head)%string) eqn:Eh; [done|]. intros Hp.
  do 4 (split; [done|]). split.
  - intros Hn Hc. by rewrite Hn, Hc, String.eqb_refl in Eh.
  - intros Hpr. rewrite Hpr in Hp. unfold protected_verdict in Hp.
    destruct (is_null (c_new c)); [done|]. split; [done|]. intros Ho. rewrite Ho in Hp. simpl in Hp.
    by destruct (ff_ancestor d (c_old c) (c_new c)) as [[]|].
Qed.
Lemma lookup_one_live d s l : lookup_one d s = Ok (Some l) -> live_sha d s.
Proof.
  unfold lookup_one. destruct (live_rows d s) as [|[[s' p] r] rows] eqn:E; [done|]. intros _.
  assert (((s', p), r) ∈ live_rows d s) as Hin by (rewrite E; left).
  apply elem_of_filter_b in Hin as [Hin%elem_of_map_to_list Hb]. simpl in Hb. bsimp. subst s'.
  exists p. split; [by exists r|done].
Qed.
Lemma target_gate_none d c : target_gate d c = Ok None ->
  is_null (c_new c) = false -> live_sha d (c_new c)
  /\ (is_null (c_old c) = true -> ref_count d < MAX_REFS).
Proof.
  unfold target_gate. intros Ht Hn. rewrite Hn in Ht. unfold mbind, result_bind in Ht.
  destruct (lookup_one d (c_new c)) as [[l|]|] eqn:El; simplify_eq/=. split; [by eapply lookup_one_live|].
  intros Ho. rewrite Ho in Ht. simpl in Ht. by destruct (Z.leb_spec MAX_REFS (ref_count d)).
Qed.

(** The command's fate, with test hooks off: the decision is made from the
    pre-state alone, in the order gates, target, compare-and-swap. *)
Definition verdict (d : Db) (head : string) (scopes : list (option string)) (c : Cmd)
  : result Error (option string) :=
  match gate d head scopes c with
  | Some why => Ok (Some why)
  | None => match target_gate d c with
            | Err e => Err e
            | Ok (Some why) => Ok (Some why)
            | Ok None => Ok (if cas d c then None else Some "failed to update ref")
            end
  end.
(** The state a landed command leaves: the ref, its reflog line and, under a
    write barrier, the frontier feed and the version bump that precede it. *)
Definition landed (push who : string) (now : Z) (barrier : bool) (c : Cmd) (d : Db) : Db :=
  let d1 := if barrier then
              meta_incr "refs_version" (if is_null (c_new c) then d else feed_frontier (feeds_of c) d)
            else d in
  on_reflog (fun l => l ++ [mkReflog (c_name c) (c_old c) (c_new c) push who now])
    (on_refs (land_ref now c) d1).

Lemma write_landing_ok push who now barrier c d : hooks_enabled = false ->
  is_null (c_old c) && is_null (c_new c) = false -> cas d c = true ->
  write_landing push who now barrier c d
  = (on_reflog (fun l => l ++ [mkReflog (c_name c) (c_old c) (c_new c) push who now])
       (on_refs (land_ref now c) d), Ok None).
Proof.
  intros Hh Hn Hc. unfold write_landing. rewrite write_ref_spec, Hc by done. simpl.
  unfold mbind, M_bind, modify. destruct barrier; [by rewrite failpoint_off|done].
Qed.

Lemma apply_one_run head c push who now write barrier scopes d :
  hooks_enabled = false ->
  apply_one head c push who now write barrier scopes d
  = ((match verdict d head scopes c with
      | Ok None => if write then landed push who now barrier c d else d
      | _ => d
      end), verdict d head scopes c).
Proof.
  intros Hh. unfold apply_one, verdict, gets, lift. unfold mbind at 1, M_bind at 1.
  destruct (gate d head scopes c) as [why|] eqn:Eg; [done|].
  unfold mbind at 1, M_bind at 1. destruct (target_gate d c) as [[why|]|e]; [done| |done].
  fold (cas d c). destruct (gate_none _ _ _ _ Eg) as (_ & _ & Hn & _).
  destruct write; cbv beta iota delta [negb]; [|by destruct (cas d c)].
  destruct barrier.
  - destruct (cas d c) eqn:Ec; [|done].
    unfold landed. set (d1 := if is_null (c_new c) then d else _).
    assert ((if is_null (c_new c) then mret () else barrier_feed_landing (feeds_of c)) d = (d1, Ok tt)) as E1.
    { unfold d1. destruct (is_null (c_new c)); [done|]. unfold barrier_feed_landing, mbind, M_bind.
      by rewrite failpoint_off. }
    rewrite (bind_run _ _ _ _ tt E1). unfold mbind, M_bind, bump_refs_version, modify.
    assert (cas (meta_incr "refs_version" d1) c = true) as Ec1.
    { rewrite <- Ec. unfold cas, ref_cas_ok, d1. by destruct (is_null (c_new c)). }
    by rewrite write_landing_ok.
  - destruct (cas d c) eqn:Ec; [by rewrite write_landing_ok|].
    unfold write_landing. by rewrite write_ref_spec, Ec.
Qed.

(** C15: [apply_one] refines the compare-and-swap specification.  Its dry run writes
    nothing and returns exactly what the real run will; the real run changes
    nothing at all unless the command lands; and a landing replaces the one ref
    (or removes it), appends one reflog line, and touches no other ref. *)
Theorem apply_one_refines (head : string) (c : Cmd) (push who : string) (now : Z) (barrier : bool)
    (scopes : list (option string)) (d : Db) :
  hooks_enabled = false ->
  let dry := apply_one head c push who now false barrier scopes d in
  let run := apply_one head c push who now true barrier scopes d in
  dry = (d, run.2) /\ (run.2 <> Ok None -> run.1 = d)
  /\ (run.2 = Ok None ->
       t_refs run.1 = land_ref now c (t_refs d)
       /\ t_reflog run.1 = t_reflog d ++ [mkReflog (c_name c) (c_old c) (c_new c) push who now]
       /\ t_objects run.1 = t_objects d /\ t_packs run.1 = t_packs d
       /\ t_meta run.1 = (if barrier then alter (fun v => z_to_string (sql_int v + 1)) "refs_version" (t_meta d)
                         else t_meta d)).
Proof.
  intros Hh dry run. subst dry run. rewrite !apply_one_run by done. cbn [fst snd].
  destruct (verdict d head scopes c) as [[why|]|e]; [done| |done]. split; [done|]. split; [done|]. intros _.
  unfold landed. destruct barrier, (is_null (c_new c)); done.
Qed.

(** Authorization and integrity of a landing: the name is a valid refname every
    scope in force covers; the ref is not pinned; the current branch is not
    deleted; a protected ref is neither deleted nor moved except to a descendant;
    the stored value was the expected one; and the new target is an object a
    live pack holds. *)
Theorem landing_authorized (head : string) (c : Cmd) (scopes : list (option string)) (d : Db) :
  verdict d head scopes c = Ok None ->
  refname_ok (c_name c) = true
  /\ Forall (fun s => scope_allows s (c_name c) = true) scopes
  /\ t_pins d !! c_name c = None
  /\ (is_null (c_new c) = true -> c_name c <> head)
  /\ (forall pat, is_Some (t_protected d !! pat) -> scope_allows (Some pat) (c_name c) = true ->
        is_null (c_new c) = false /\ (is_null (c_old c) = false -> rtc (parent d) (c_new c) (c_old c)))
  /\ (if is_null (c_old c) then t_refs d !! c_name c = None
      else exists r, t_refs d !! c_name c = Some r /\ rf_target r = c_old c)
  /\ (is_null (c_new c) = false -> live_sha d (c_new c)).
Proof.
  unfold verdict. destruct (gate d head scopes c) eqn:Eg; [done|].
  destruct (target_gate d c) as [[|]|] eqn:Et; [done| |done]. destruct (cas d c) eqn:Ec; [intros _|done].
  destruct (gate_none _ _ _ _ Eg) as (Hr & Hs & _ & Hp & Hh & Hpr).
  split; [done|]. split; [by apply Forall_forall; intros s Hin; eapply forallb_forall in Hs; [|by apply list_elem_of_In]|].
  split; [done|]. split; [done|]. split; [|split].
  - intros pat [v Hv] Hsa. destruct Hpr as [Hn Hff].
    { unfold is_protected. apply existsb_exists. exists (pat, v). split; [|done].
      by apply list_elem_of_In, elem_of_map_to_list. }
    split; [done|]. intros Ho. apply (ff_walk_yes d FF_WALK_MAX). by apply Hff.
  - unfold cas, ref_cas_ok in Ec. destruct (is_null (c_old c)), (t_refs d !! c_name c) as [r|]; try done.
    exists r. split; [done|by bsimp].
  - intros Hn. by apply (target_gate_none d c).
Qed.
End Apply.
