(* ===== verification/Push.v ===== *)
(** * Pushes

    The push protocol of [server/src/repo_do/mod.rs]: object-format pinning, the
    pack-cap admission, the sliding-window throttle, [push_begin],
    [push_abort], [push_lookup], [push_index], and [commit_push] with its
    helpers.  One handler is one synchronous span over the store. *)
From S2P Require Import Prelude Errors Db Scope Jobs Cohort GcBase Compact Refs.
From Stdlib Require Import Floats.SpecFloat.
Open Scope Z_scope.

Definition BUSY_RETRY_S : Z := 60.
Definition DEFAULT_MAX_OBJECTS : Z := 2000000.
Definition DEFAULT_MAX_BYTES : Z := Z.shiftl 4 30.
Definition DEFAULT_PUSHES_PER_MIN : Z := 30.
Definition MAX_PENDING : Z := 10000.
Definition MAX_OPEN_PUSHES : Z := 64.


Record Meta : Type := mkMeta {
  m_repo_id : string; m_owner : string; m_repo : string; m_head : string;
  m_refs_version : Z; m_gc_epoch : Z; m_deleted : bool }.
Record BeginDto : Type := mkBegin {
  bg_push : string; bg_principal : string; bg_key : string; bg_format : option string; bg_admin : bool }.
Record BeginResp : Type := mkBeginResp {
  br_repo_id : string; br_refs_version : Z; br_gc_epoch : Z; br_claimed : bool }.
Record IndexPack : Type := mkIndexPack {
  ip_id : string; ip_count : Z; ip_bytes : Z; ip_lo : Z; ip_hi : Z; ip_push : string }.
Record CmdDto : Type := mkCmdDto { cd_old : string; cd_new : string; cd_name : string; cd_peeled : option string }.
Record CommitRequest : Type := mkCommit {
  cr_push : string; cr_pack : option string; cr_principal : string; cr_cmds : list CmdDto; cr_atomic : bool }.
Definition Results : Type := list (string * option string).

(** Rows of a keyed table in key order. *)
Definition key_le {A} (a b : string * A) : Prop := String.le a.1 b.1.
#[global] Instance key_le_dec {A} : RelDecision (@key_le A).
Proof. intros a b. unfold key_le. apply _. Defined.

Definition win_le (a b : Z * Z) : Prop := a.1 <= b.1.
#[global] Instance win_le_dec : RelDecision win_le.
Proof. intros a b. unfold win_le. apply _. Defined.

Section Push.
Context `{Platform}.

(** ** Object format *)

Definition kind_name (k : HashKind) : string := match k with Sha256 => "sha256" | Sha1 => "sha1" end.
Definition parse_kind (s : option string) : result Error (option HashKind) :=
  match s with
  | None => Ok None
  | Some s =>
      if String.eqb s "sha1" then Ok (Some Sha1)
      else if String.eqb s "sha256" then Ok (Some Sha256)
      else Err (Protocol ("object-format " +:+ s +:+ " unsupported"))
  end.
Definition obj_kind (d : Db) : HashKind := if meta_is d "obj_format" "sha256" then Sha256 else Sha1.
Definition obj_format_pinned (d : Db) : bool := is_some (t_meta d !! "obj_format").
Definition check_object_format (client : HashKind) : DoM HashKind := fun d =>
  let repo := obj_kind d in
  (d, if negb (obj_format_pinned d) then Ok client
      else if bool_decide (client = repo) then Ok repo
      else Err (Protocol ("object-format " +:+ kind_name client +:+ " does not match repo " +:+ kind_name repo))).
Definition pin_obj_format (kind : HashKind) : DoM unit :=
  modify (meta_insert_ignore "obj_format" (kind_name kind)) ≫= fun _ =>
  k ← gets obj_kind;
  if bool_decide (k = kind) then mret tt
  else fail (Conflict ("repo is " +:+ (if bool_decide (kind = Sha1) then "sha256" else "sha1")
                       +:+ bytes [32; 226; 128; 148; 32]%nat +:+ "cannot accept " +:+ kind_name kind +:+ " objects")).

(** ** Admission and throttle *)

Definition admit_pack : DoM unit := fun d =>
  (d, if at_pack_cap d then Err (Busy BUSY_RETRY_S) else Ok tt).

(** [n as f64] and the f64 operations of the estimate [cur + prev*(1-frac)]. *)
Definition f64 (n : Z) : spec_float := binary_normalize 53 1024 n 0 false.
Definition over_limit (now cur prev limit : Z) : bool :=
  let frac := SFdiv 53 1024 (f64 (now mod 60000)) (f64 60000) in
  let est := SFadd 53 1024 (f64 cur) (SFmul 53 1024 (f64 prev) (SFsub 53 1024 (f64 1) frac)) in
  SFltb (f64 limit) est.
Definition rate_count (d : Db) (bucket : string) (win : Z) : Z := unwrap_or 0 (t_rate d !! (bucket, win)).
(** Rows of the bucket with [window >= win - 1] other than [win]: the last one
    read in key order wins. *)
Definition rate_prev (d : Db) (bucket : string) (win : Z) : Z :=
  unwrap_or 0 (snd <$> last (merge_sort win_le
    (map (fun kv => (kv.1.2, kv.2))
      (List.filter (fun kv => String.eqb kv.1.1 bucket && (win - 1 <=? kv.1.2) && negb (kv.1.2 =? win))
         (map_to_list (t_rate d)))))).
Definition rate_check (now : Z) (key : string) : DoM unit :=
  let limit := env_i64 "GE_RATE_PUSHES_PER_MIN" DEFAULT_PUSHES_PER_MIN in
  if limit <=? 0 then mret tt
  else
    let win := now / 60000 in
    let bucket := "push:" +:+ key in
    modify (on_rate (fun m => insert (bucket, win) (unwrap_or 0 (m !! (bucket, win)) + 1) m)) ≫= fun _ =>
    cur ← gets (fun d => rate_count d bucket win);
    prev ← gets (fun d => rate_prev d bucket win);
    modify (on_rate (filter (fun kv => negb (String.eqb kv.1.1 bucket && (kv.1.2 <? win - 1)) = true))) ≫= fun _ =>
    if over_limit now cur prev limit then fail (RateLimit (Z.max 1 ((60000 - now mod 60000) / 1000)))
    else mret tt.

(** ** Beginning and aborting a push *)

(** The first row of [tokens] with this hash, if it has not expired. *)
Definition live_token (d : Db) (now : Z) (hash : string) : option TokenSql :=
  match merge_sort key_le (List.filter (fun kv => String.eqb (tk_hash kv.2) hash) (map_to_list (t_tokens d))) with
  | kv :: _ => if token_live (tk_expires kv.2) now then Some kv.2 else None
  | [] => None
  end.
Definition token_row (t : TokenSql) : string * option string := (tk_level t, tk_scope t).
Definition auth_of (b : BeginDto) : string := if bg_admin b then ADMIN_AUTH else bg_key b.
Definition count_open (d : Db) : Z :=
  Z.of_nat (length (List.filter (fun kv => bool_decide (ps_state kv.2 = POpen)) (map_to_list (t_pushes d)))).
Definition open_push (now epoch : Z) (b : BeginDto) : DoM unit :=
  open ← gets count_open;
  if MAX_OPEN_PUSHES <=? open then fail (Limit "too many open pushes")
  else
    row ← gets (fun d => if bg_admin b || str_empty (bg_key b) then None
                         else token_row <$> live_token d now (bg_key b));
    scope ← lift (push_scope (bg_admin b) (bg_key b) row);
    modify (on_pushes (insert (bg_push b)
      (mkPush POpen None (bg_principal b) now None epoch None None (Some scope) (Some (auth_of b))))).
Definition push_begin (now : Z) (meta : Meta) (b : BeginDto) : DoM BeginResp :=
  existing ← gets (fun d => t_pushes d !! bg_push b);
  (if is_some existing then mret tt else admit_pack) ≫= fun _ =>
  rate_check now (bg_key b) ≫= fun _ =>
  kind ← lift (parse_kind (bg_format b));
  match kind with Some k => pin_obj_format k | None => mret tt end ≫= fun _ =>
  match existing with
  | Some e =>
      if bool_decide (ps_state e = POpen) then
        if String.eqb (ps_principal e) (bg_principal b) && bool_decide (ps_auth e = Some (auth_of b))
        then mret tt else fail Forbidden
      else fail (Conflict ("push is " +:+ push_state_str (ps_state e)))
  | None => open_push now (m_gc_epoch meta) b
  end ≫= fun _ =>
  claimed ← gets (fun d => 0 <? count_packs (fun _ r => negb (bool_decide (pk_state r = Ingesting))) d);
  mret (mkBeginResp (m_repo_id meta) (m_refs_version meta) (m_gc_epoch meta) claimed).

Definition set_push_state (st : PushState) (p : PushSql) : PushSql :=
  mkPush st (ps_pack p) (ps_principal p) (ps_began p) (ps_ended p) (ps_epoch p) (ps_result p)
    (ps_swept p) (ps_scope p) (ps_auth p).
Definition push_abort (id : option string) : DoM unit :=
  match id with
  | None => fail (Protocol "push_id")
  | Some id => modify (on_pushes (alter (fun p =>
      if bool_decide (ps_state p = POpen) then set_push_state PDead p else p) id))
  end.

(** ** Lookup and index *)

Definition fill_loc (pack : string) (p : string * option ObjLoc) : DoM (option ObjLoc) :=
  match p.2 with Some l => mret (Some l) | None => lookup_in_pack p.1 pack end.
Fixpoint fill_locs (pack : string) (l : list (string * option ObjLoc)) : DoM (list (option ObjLoc)) :=
  match l with
  | [] => mret []
  | p :: l' => x ← fill_loc pack p; xs ← fill_locs pack l'; mret (x :: xs)
  end.
Definition push_lookup (hexes : list string) (pack : option string) : DoM (list (option ObjLoc)) :=
  if 1000 <? Z.of_nat (length hexes) then fail (Internal "lookup > 1000 ids")
  else
    ids ← lift (collect oid hexes);
    locs ← index_lookup ids;
    match pack with
    | Some p => fill_locs p (zip ids locs)
    | None => mret locs
    end.

(** [INSERT … ON CONFLICT(id) DO UPDATE … WHERE state='ingesting' AND push_id=excluded.push_id],
    with [changes()]. *)
Definition upsert_pack (now : Z) (m : IndexPack) (d : Db) : Db * Z :=
  match t_packs d !! ip_id m with
  | None => (on_packs (insert (ip_id m)
               (mkPack Ingesting (ip_count m) (ip_bytes m) (ip_lo m) (ip_hi m) (Some (ip_push m)) now None)) d, 1)
  | Some r =>
      if bool_decide (pk_state r = Ingesting) && bool_decide (pk_push r = Some (ip_push m)) then
        (on_packs (insert (ip_id m)
           (mkPack Ingesting (ip_count m) (ip_bytes m) (ip_lo m) (ip_hi m) (pk_push r) (pk_created r) (pk_dead_at r))) d, 1)
      else (d, 0)
  end.
Definition push_index (now : Z) (m : IndexPack) (rows : list ObjRow) : DoM unit :=
  if 10000 <? Z.of_nat (length rows) then fail (Internal "index > 10000 rows")
  else
    st ← gets (fun d => ps_state <$> t_pushes d !! ip_push m);
    if negb (bool_decide (st = Some POpen)) then fail (Conflict "push not open")
    else
      n ← (fun d => ((upsert_pack now m d).1, Ok (upsert_pack now m d).2)) : DoM Z;
      if negb (n =? 1) then fail (Conflict "pack not ingesting for this push")
      else insert_objects (ip_id m) rows.

(** ** Committing a push *)

Definition to_cmd (c : CmdDto) : result Error Cmd :=
  o ← oid (cd_old c); n ← oid (cd_new c); Ok (mkCmd o n (cd_name c) (cd_peeled c)).
Definition finish_push (req : CommitRequest) (st : PushState) (now : Z) (results : Results) : DoM Results :=
  modify (on_pushes (alter (fun p =>
    mkPush st (cr_pack req) (ps_principal p) (ps_began p) (Some now) (ps_epoch p) (Some results)
      (ps_swept p) (ps_scope p) (ps_auth p)) (cr_push req))) ≫= fun _ =>
  mret results.
Definition reject_all (why : string) (cmds : list Cmd) : Results := map (fun c => (c_name c, Some why)) cmds.

(** The credential is re-read in the committing span. *)
Definition current_scope (d : Db) (now : Z) (p : PushSql) : result string (option string) :=
  let row := match ps_auth p with
             | Some a => if negb (String.eqb a ADMIN_AUTH) && negb (str_empty a)
                         then token_row <$> live_token d now a else None
             | None => None
             end in
  commit_auth (ps_auth p) row.

Definition sum_packs (f : PackSql -> Z) (p : PackSql -> bool) (d : Db) : Z :=
  fold_right (fun kv n => f kv.2 + n) 0 (List.filter (fun kv => p kv.2) (map_to_list (t_packs d))).
Definition counted (push : string) (r : PackSql) : bool :=
  bool_decide (pk_state r = Live)
  || (bool_decide (pk_state r = Ingesting) && bool_decide (pk_push r = Some push)).
Definition storage_totals (d : Db) (push : string) : Z * Z :=
  (sum_packs pk_count (counted push) d, sum_packs pk_bytes (counted push) d).
Definition over_quota (d : Db) (push : string) : option string :=
  let t := storage_totals d push in
  let max_obj := env_i64 "GE_QUOTA_MAX_OBJECTS" DEFAULT_MAX_OBJECTS in
  let max_bytes := env_i64 "GE_QUOTA_MAX_BYTES" DEFAULT_MAX_BYTES in
  if (0 <? max_obj) && (max_obj <? t.1)
  then Some ("objects " +:+ z_to_string t.1 +:+ " > GE_QUOTA_MAX_OBJECTS=" +:+ z_to_string max_obj)
  else if (0 <? max_bytes) && (max_bytes <? t.2)
  then Some ("bytes " +:+ z_to_string t.2 +:+ " > GE_QUOTA_MAX_BYTES=" +:+ z_to_string max_bytes)
  else None.

Definition insert_pending (pack : string) (d : Db) : Db :=
  if existsb (fun r => String.eqb (pd_pack r) pack) (t_pending d) then d
  else let seq := t_pending_seq d + 1 in
       on_pending (fun l => l ++ [mkPending seq pack (-1)]) (on_pending_seq (fun _ => seq) d).
Definition barrier_write_pending_before_promote (pack : string) : DoM unit :=
  failpoint "gc.barrier.pending" ≫= fun _ =>
  modify (insert_pending pack) ≫= fun _ =>
  bump_refs_version ≫= fun _ =>
  failpoint "gc.barrier.before_promote".
Definition set_state (st : PackState) (r : PackSql) : PackSql :=
  mkPack st (pk_count r) (pk_bytes r) (pk_lo r) (pk_hi r) (pk_push r) (pk_created r) (pk_dead_at r).
Definition promote (pack push : string) (d : Db) : Db * Z :=
  match t_packs d !! pack with
  | Some r =>
      if bool_decide (pk_state r = Ingesting) && bool_decide (pk_push r = Some push)
      then (on_packs (insert pack (set_state Live r)) d, 1) else (d, 0)
  | None => (d, 0)
  end.
Definition demote (pack push : string) (d : Db) : Db :=
  on_packs (alter (fun r => if bool_decide (pk_push r = Some push) then set_state Ingesting r else r) pack) d.

(** Quota, write-ahead, promotion and the best-effort compaction trigger; the
    quota's refusal is the [Some] answer. *)
Definition land_pack (now : Z) (barrier : bool) (push pack : string) : DoM (option string) :=
  over ← gets (fun d => over_quota d push);
  match over with
  | Some m => mret (Some m)
  | None =>
      (if barrier then barrier_write_pending_before_promote pack else mret tt) ≫= fun _ =>
      n ← (fun d => ((promote pack push d).1, Ok (promote pack push d).2)) : DoM Z;
      if negb (n =? 1) then fail (Conflict "pack not in state ingesting")
      else (fun d => ((trigger now d).1, Ok None)) : DoM (option string)
  end.

Fixpoint run_cmds (cmds : list Cmd) (f : Cmd -> DoM (option string)) : DoM Results :=
  match cmds with
  | [] => mret []
  | c :: cmds' => r ← f c; rs ← run_cmds cmds' f; mret ((c_name c, r) :: rs)
  end.
Definition is_reject (r : string * option string) : bool := is_some r.2.

Definition is_branch (name : string) : bool := starts_with "refs/heads/" (str_map to_lower name).
Definition first_branch (d : Db) : option string :=
  head (merge_sort String.le (List.filter is_branch (map fst (map_to_list (t_refs d))))).
Definition adopt_head (d : Db) : Db :=
  match t_meta d !! "head", first_branch d with
  | Some h, Some b => if is_some (t_refs d !! h) then d else on_meta (insert "head" b) d
  | _, _ => d
  end.

Definition events_config : option (string * string) :=
  match env_var "GE_PUSH_WEBHOOK_URL" with
  | Some url =>
      if str_empty url then None
      else match (match env_secret "GE_PUSH_WEBHOOK_SECRET" with
                  | Some s => Some s
                  | None => env_var "GE_PUSH_WEBHOOK_SECRET"
                  end) with
           | Some s => if 32 <=? str_len s then Some (url, s) else None
           | None => None
           end
  | None => None
  end.
Definition moved_refs (cmds : list Cmd) (results : Results) : list (string * string * string) :=
  map (fun p => (c_name p.1, c_old p.1, c_new p.1))
    (List.filter (fun p => negb (is_reject p.2)) (zip cmds results)).
Definition insert_event (push : string) (at_ : Z) (body : EventBody) (d : Db) : Db :=
  let seq := t_events_seq d + 1 in
  on_events (fun l => l ++ [mkEvent seq push at_ body 0 None]) (on_events_seq (fun _ => seq) d).
Definition record_push_event (req : CommitRequest) (cmds : list Cmd) (results : Results) (now : Z) : DoM unit :=
  match events_config with
  | None => mret tt
  | Some _ =>
      pending ← gets (fun d => Z.of_nat (length (t_events d)));
      if MAX_PENDING <=? pending then
        modify (on_meta (fun m => insert "push_events_dropped"
          (match m !! "push_events_dropped" with Some v => z_to_string (sql_int v + 1) | None => "1" end) m))
      else
        owner ← meta "owner"; repo ← meta "repo"; repo_id ← meta "repo_id";
        modify (insert_event (cr_push req) now
          (mkEventBody owner repo repo_id (cr_push req) (cr_principal req) now (moved_refs cmds results))) ≫= fun _ =>
        enqueue PushEvent now "{}"
  end.

(** Step 4 onwards: every command is applied, then the version, the head, the
    mark job and the event follow. *)
Definition commit_land (now : Z) (req : CommitRequest) (cmds : list Cmd)
    (apply : bool -> Cmd -> DoM (option string)) : DoM Results :=
  results ← run_cmds cmds (apply true);
  let any_ok := existsb (fun r => negb (is_reject r)) results in
  (if any_ok || is_some (cr_pack req) then bump_refs_version else mret tt) ≫= fun _ =>
  (if any_ok then
     modify adopt_head ≫= fun _ =>
     enqueue GcMark (add64 now gc_quiet_ms) "{}" ≫= fun _ =>
     record_push_event req cmds results now
   else mret tt) ≫= fun _ =>
  finish_push req PCommitted now results.
(** The --atomic refusal: demote the pack, drop its pending row. *)
Definition atomic_refuse (now : Z) (barrier : bool) (req : CommitRequest) (results : Results) : DoM Results :=
  match cr_pack req with
  | Some pack =>
      modify (demote pack (cr_push req)) ≫= fun _ =>
      if barrier then modify (on_pending (List.filter (fun r => negb (String.eqb (pd_pack r) pack)))) else mret tt
  | None => mret tt
  end ≫= fun _ =>
  finish_push req PRejected now
    (map (fun r => (r.1, Some (unwrap_or "atomic push failed" r.2))) results).
Definition commit_apply (now : Z) (barrier : bool) (req : CommitRequest) (cmds : list Cmd)
    (scopes : list (option string)) : DoM Results :=
  head ← meta "head";
  let apply write c := apply_one head c (cr_push req) (cr_principal req) now write barrier scopes in
  if cr_atomic req then
    dry ← run_cmds cmds (apply false);
    if existsb is_reject dry then atomic_refuse now barrier req dry
    else commit_land now req cmds apply
  else commit_land now req cmds apply.
Definition commit_push (now : Z) (req : CommitRequest) : DoM Results :=
  cmds ← lift (collect to_cmd (cr_cmds req));
  push ← gets (fun d => t_pushes d !! cr_push req);
  match push with
  | None => fail (Conflict "unknown push")
  | Some p =>
      if negb (bool_decide (ps_state p = POpen))
      then fail (Conflict ("push is " +:+ push_state_str (ps_state p)))
      else
        auth ← gets (fun d => current_scope d now p);
        match (auth : result string (option string)) with
        | Err why => finish_push req PRejected now (reject_all why cmds)
        | Ok cur =>
            let scopes := [ps_scope p; match cur with Some s => Some s | None => ps_scope p end] in
            epoch ← meta_i64 "gc_epoch";
            if negb (epoch =? ps_epoch p)
            then finish_push req PRejected now (reject_all "gc ran during push, retry" cmds)
            else
              barrier ← barrier_active;
              over ← (match cr_pack req with
                      | Some pack => land_pack now barrier (cr_push req) pack
                      | None => mret None
                      end);
              match over with
              | Some m =>
                  finish_push req PRejected now (reject_all "over repo quota" cmds) ≫= fun _ =>
                  fail (Limit ("repo quota exceeded: " +:+ m))
              | None => commit_apply now barrier req cmds scopes
              end
        end
  end.
End Push.

(** ** What the steps of a commit leave alone *)

Definition version (d : Db) : Z := sql_int (unwrap_or "0" (t_meta d !! "refs_version")).
Definition version_le (d d' : Db) : Prop :=
  is_Some (t_meta d !! "refs_version") ->
  is_Some (t_meta d' !! "refs_version") /\ version d <= version d'.
#[global] Instance version_le_preorder : PreOrder version_le.
Proof.
  split; [intros d Hd; split; [done|lia]|]. intros d1 d2 d3 H1 H2 Hd. destruct (H1 Hd) as [Hd2 ?].
  destruct (H2 Hd2) as [? ?]. split; [done|lia].
Qed.
Lemma version_le_same d d' : t_meta d' !! "refs_version" = t_meta d !! "refs_version" -> version_le d d'.
Proof. intros E Hd. unfold version. rewrite E. split; [done|lia]. Qed.
Lemma meta_incr_version d : is_Some (t_meta d !! "refs_version") ->
  is_Some (t_meta (meta_incr "refs_version" d) !! "refs_version")
  /\ version (meta_incr "refs_version" d) = version d + 1.
Proof.
  intros [v Hv]. unfold version, meta_incr. cbn [t_meta on_meta]. rewrite lookup_alter_eq, Hv. simpl.
  split; [eauto|]. by rewrite sql_int_to_string.
Qed.

(** The tables the gates read, and the version counter. *)
Record frame (d d' : Db) : Prop := {
  fr_pins : t_pins d' = t_pins d; fr_prot : t_protected d' = t_protected d;
  fr_parents : t_parents d' = t_parents d; fr_objects : t_objects d' = t_objects d;
  fr_tokens : t_tokens d' = t_tokens d; fr_pushes : t_pushes d' = t_pushes d;
  fr_version : version_le d d' }.
#[global] Instance frame_preorder : PreOrder frame.
Proof.
  split; [by split|]. intros d1 d2 d3 [] []. split; try congruence. by etrans.
Qed.
Definition refs_eq (d d' : Db) : Prop := t_refs d' = t_refs d.
Definition packs_eq (d d' : Db) : Prop := t_packs d' = t_packs d.
#[global] Instance refs_eq_preorder : PreOrder refs_eq.
Proof. split; [done|]. unfold refs_eq. intros d1 d2 d3. congruence. Qed.
#[global] Instance packs_eq_preorder : PreOrder packs_eq.
Proof. split; [done|]. unfold packs_eq. intros d1 d2 d3. congruence. Qed.

(** A step that only moves jobs, failpoints or the collector's tables. *)
Definition quiet (d d' : Db) : Prop := frame d d' /\ refs_eq d d' /\ packs_eq d d'.
#[global] Instance quiet_preorder : PreOrder quiet.
Proof.
  split; [by intros d|]. intros d1 d2 d3 (?&?&?) (?&?&?).
  split; [by transitivity d2|]. by split; transitivity d2.
Qed.

Section Frames.
Context `{Platform}.
Lemma quiet_modify (f : Db -> Db) : (forall d, quiet d (f d)) -> rel_ok quiet (modify f : DoM unit).
Proof. intros Hf d. apply Hf. Qed.
Ltac quiet_tac := split; [split; try done; by apply version_le_same|done].
Lemma failpoint_quiet name : rel_ok quiet (failpoint name).
Proof. intros d. unfold failpoint. repeat case_match; quiet_tac. Qed.
Lemma enqueue_quiet k t p : rel_ok quiet (enqueue k t p).
Proof. apply quiet_modify. intros d. unfold enqueue_db. case_match; quiet_tac. Qed.
Lemma update_jobs_quiet p f : rel_ok quiet (modify (update_jobs p f) : DoM unit).
Proof. apply quiet_modify. intros d. quiet_tac. Qed.
Lemma bump_quiet : rel_ok quiet bump_refs_version.
Proof.
  apply quiet_modify. intros d. split; [split; try done|done]. intros Hd.
  destruct (meta_incr_version d Hd) as [? ->]. split; [done|lia].
Qed.
Lemma pending_quiet pack : rel_ok quiet (modify (insert_pending pack) : DoM unit).
Proof. apply quiet_modify. intros d. unfold insert_pending. case_match; quiet_tac. Qed.
Lemma adopt_head_quiet : rel_ok quiet (modify adopt_head : DoM unit).
Proof.
  apply quiet_modify. intros d. unfold adopt_head. repeat case_match; try quiet_tac.
  split; [split; try done; apply version_le_same; cbn [t_meta on_meta]; by rewrite lookup_insert_ne|done].
Qed.
Lemma insert_event_quiet push at_ body : rel_ok quiet (modify (insert_event push at_ body) : DoM unit).
Proof. apply quiet_modify. intros d. quiet_tac. Qed.
Lemma dropped_quiet g : rel_ok quiet
  (modify (on_meta (fun m => insert "push_events_dropped" (g m) m)) : DoM unit).
Proof.
  apply quiet_modify. intros d. split; [split; try done; apply version_le_same|done].
  cbn [t_meta on_meta]. by rewrite lookup_insert_ne.
Qed.
Lemma meta_quiet k : rel_ok quiet (meta k).
Proof. apply rel_ok_pure, _. Qed.
#[local] Hint Resolve failpoint_quiet enqueue_quiet update_jobs_quiet bump_quiet pending_quiet adopt_head_quiet
  insert_event_quiet dropped_quiet meta_quiet : git_edge.
Lemma trigger_quiet now : rel_ok quiet (trigger now).
Proof. unfold trigger, quarantine_load, quarantine_read, meta_opt. rel_tac. Qed.
Lemma write_pending_quiet pack : rel_ok quiet (barrier_write_pending_before_promote pack).
Proof. unfold barrier_write_pending_before_promote. rel_tac. Qed.
Lemma record_event_quiet req cmds rs now : rel_ok quiet (record_push_event req cmds rs now).
Proof. unfold record_push_event. rel_tac. Qed.
End Frames.
#[export] Hint Resolve failpoint_quiet enqueue_quiet bump_quiet adopt_head_quiet trigger_quiet
  write_pending_quiet record_event_quiet : git_edge.

(** ** The shape of a successful commit *)

Definition close_row (req : CommitRequest) (st : PushState) (now : Z) (rs : Results) (p : PushSql) : PushSql :=
  mkPush st (cr_pack req) (ps_principal p) (ps_began p) (Some now) (ps_epoch p) (Some rs)
    (ps_swept p) (ps_scope p) (ps_auth p).
Definition close (req : CommitRequest) (st : PushState) (now : Z) (rs : Results) (d : Db) : Db :=
  on_pushes (alter (close_row req st now rs) (cr_push req)) d.
Definition framed (d d' : Db) : Prop := frame d d' /\ packs_eq d d'.
#[global] Instance framed_preorder : PreOrder framed.
Proof. split; [by intros d|]. intros d1 d2 d3 [? ?] [? ?]. by split; transitivity d2. Qed.
Lemma quiet_framed d d' : quiet d d' -> framed d d'.
Proof. by intros (? & _ & ?). Qed.

#[global] Instance RefSql_eq_dec : EqDecision RefSql.
Proof. solve_decision. Defined.

Section Commit.
Context `{Platform}.
Hypothesis hooks_off : hooks_enabled = false.

Lemma finish_push_run req st now rs d : finish_push req st now rs d = (close req st now rs d, Ok rs).
Proof. done. Qed.

Lemma landed_framed push who now barrier c d : framed d (landed push who now barrier c d).
Proof.
  unfold landed. set (d1 := if barrier then _ else d).
  assert (framed d d1) as Hd1.
  { unfold d1. destruct barrier; [|done]. split; [split|].
    1-6: by destruct (is_null (c_new c)). 2: by destruct (is_null (c_new c)).
    etrans; [|apply (proj1 (bump_quiet (if is_null (c_new c) then d else feed_frontier (feeds_of c) d)))].
    apply version_le_same. by destruct (is_null (c_new c)). }
  etrans; [exact Hd1|]. split; [split; try done; by apply version_le_same|done].
Qed.
Lemma landed_refs push who now barrier c d :
  t_refs (landed push who now barrier c d) = land_ref now c (t_refs d).
Proof. unfold landed. by destruct barrier, (is_null (c_new c)). Qed.
Lemma land_ref_other now c m n : n <> c_name c -> land_ref now c m !! n = m !! n.
Proof. intros Hn. unfold land_ref. case_match; [by rewrite lookup_delete_ne|by rewrite lookup_insert_ne]. Qed.

(** A command that landed did so in a state that agrees with the span's first
    one on everything the gates read, refs apart. *)
Definition landed_in (head : string) (scopes : list (option string)) (d : Db) (c : Cmd) : Prop :=
  exists d1, framed d d1 /\ verdict d1 head scopes c = Ok None.

Lemma run_cmds_landed head push who now barrier scopes cmds d d' rs :
  run_cmds cmds (fun c => apply_one head c push who now true barrier scopes) d = (d', Ok rs) ->
  framed d d' /\ Forall2 (fun c r => r.1 = c_name c /\ (r.2 = None -> landed_in head scopes d c)) cmds rs
  /\ (forallb is_reject rs = true -> d' = d)
  /\ (forall n, t_refs d' !! n <> t_refs d !! n -> exists c, c ∈ cmds /\ c_name c = n /\ landed_in head scopes d c).
Proof.
  revert d rs. induction cmds as [|c cmds IH]; intros d rs Hr; simpl in Hr.
  { injection Hr as <- <-. split; [done|]. split; [constructor|]. split; [done|]. done. }
  apply bind_ok in Hr as (r & d1 & Hr1 & Hr). apply bind_ok in Hr as (rs' & d2 & Hr2 & Hr).
  injection Hr as <- <-. rewrite apply_one_run in Hr1 by done. injection Hr1 as Hd1 Hv.
  destruct (IH _ _ Hr2) as (Hf & Hall & Hrej & Hch).
  assert (framed d d1) as Hf1.
  { subst d1. destruct (verdict d head scopes c) as [[]|]; [done|apply landed_framed|done]. }
  assert (forall c', landed_in head scopes d1 c' -> landed_in head scopes d c') as Hmono.
  { intros c' (d3 & Hd3 & ?). exists d3. split; [by etrans|done]. }
  assert (r = None -> landed_in head scopes d c) as Hl by (intros ->; exists d; split; done).
  split; [by etrans|]. split; [|split].
  - constructor; [done|]. eapply Forall2_impl; [exact Hall|]. naive_solver.
  - simpl. intros [Hrr Hrs]%andb_prop. rewrite (Hrej Hrs). destruct r; [|done]. by rewrite Hv in Hd1.
  - intros n Hn. destruct (decide (t_refs d2 !! n = t_refs d1 !! n)) as [E|E].
    + exists c. rewrite E in Hn. destruct r as [why|]; [by rewrite Hv in Hd1; subst d1|].
      rewrite Hv in Hd1. subst d1. rewrite landed_refs in Hn.
      split; [left|]. split; [|by apply Hl]. destruct (decide (n = c_name c)) as [->|Hne]; [done|].
      by rewrite land_ref_other in Hn.
    + destruct (Hch n E) as (c' & Hin & Hc' & Hl'). exists c'. split; [by right|]. split; [done|auto].
Qed.

Lemma run_cmds_dry head push who now barrier scopes cmds d d' rs :
  run_cmds cmds (fun c => apply_one head c push who now false barrier scopes) d = (d', rs) ->
  d' = d /\ (forall l, rs = Ok l -> Forall2 (fun c r => r.1 = c_name c /\ verdict d head scopes c = Ok r.2) cmds l).
Proof.
  revert d' rs. induction cmds as [|c cmds IH]; intros d' rs; simpl.
  { intros [= <- <-]. split; [done|]. by intros l [= <-]. }
  unfold mbind at 1, M_bind at 1. rewrite apply_one_run by done.
  destruct (verdict d head scopes c) as [v|e] eqn:Ev.
  2:{ intros [= <- <-]. done. }
  assert ((match v with None => if false then landed push who now barrier c d else d | Some _ => d end) = d) as E
    by (by destruct v). rewrite E. unfold mbind, M_bind.
  destruct (run_cmds cmds _ d) as [d1 r1] eqn:E1. destruct (IH _ _ eq_refl) as [-> Hl].
  destruct r1 as [l1|e1]; intros [= <- <-]; [|done]. split; [done|]. intros l [= <-].
  constructor; [done|]. by apply Hl.
Qed.

(** What landing the pack did: nothing if the quota refused it, else the push's
    own ingesting pack went live. *)
Lemma land_pack_run now barrier push pack d d1 o :
  land_pack now barrier push pack d = (d1, Ok o) ->
  match o with
  | Some m => d1 = d /\ over_quota d push = Some m
  | None => over_quota d push = None /\ frame d d1 /\ refs_eq d d1
      /\ exists r, t_packs d !! pack = Some r /\ pk_state r = Ingesting /\ pk_push r = Some push
         /\ t_packs d1 = <[pack := set_state Live r]> (t_packs d)
  end.
Proof.
  unfold land_pack. intros (o' & d0 & [= <- <-] & Hr)%bind_ok.
  destruct (over_quota d push) as [m|] eqn:Eq; [by injection Hr as <- <-|].
  apply bind_ok in Hr as (u & d2 & Hb & Hr).
  assert (quiet d d2) as Hq.
  { assert (rel_ok quiet (if barrier then barrier_write_pending_before_promote pack else mret tt)) as Hrel
      by (rel_tac). specialize (Hrel d). by rewrite Hb in Hrel. }
  clear Hb u. apply bind_ok in Hr as (n & d3 & [= <- <-] & Hr).
  destruct ((promote pack push d2).2 =? 1) eqn:En; simpl in Hr; [|done]. injection Hr as <- <-.
  unfold promote in *. destruct Hq as (Hf & Href & Hp). unfold packs_eq in Hp. rewrite Hp in *.
  destruct (t_packs d !! pack) as [r|] eqn:Er; [|done].
  destruct (_ && _) eqn:Eb; [|done]. bsimp. simpl fst.
  set (d3 := on_packs _ d2). destruct (trigger_quiet now d3) as (Hf3 & Hr3 & Hp3).
  split; [done|]. split; [|split].
  - transitivity d2; [done|]. transitivity d3; [|done]. split; done.
  - transitivity d2; [done|]. by transitivity d3.
  - exists r. do 3 (split; [done|]). unfold packs_eq in Hp3. rewrite Hp3. unfold d3. simpl. by rewrite Hp.
Qed.

Definition any_ok (rs : Results) : bool := existsb (fun r => negb (is_reject r)) rs.
Lemma commit_land_run now req cmds apply d d' rs :
  commit_land now req cmds apply d = (d', Ok rs) ->
  exists d2 d3, run_cmds cmds (apply true) d = (d2, Ok rs) /\ quiet d2 d3 /\ d' = close req PCommitted now rs d3
  /\ (any_ok rs || is_some (cr_pack req) = true -> is_Some (t_meta d2 !! "refs_version") -> version d2 < version d3).
Proof.
  unfold commit_land. intros (rs' & d2 & Hrun & Hr)%bind_ok. fold (any_ok rs') in Hr.
  apply bind_ok in Hr as (u & d3 & Hb & Hr). apply bind_ok in Hr as (u' & d4 & Ht & Hr).
  rewrite finish_push_run in Hr. injection Hr as <- <-. exists d2, d4. split; [done|].
  assert (quiet d2 d3) as H23.
  { assert (rel_ok quiet (if any_ok rs' || is_some (cr_pack req) then bump_refs_version else mret tt)) as Hrel
      by rel_tac. specialize (Hrel d2). by rewrite Hb in Hrel. }
  assert (quiet d3 d4) as H34.
  { match type of Ht with ?m d3 = _ => assert (rel_ok quiet m) as Hrel by rel_tac end.
    specialize (Hrel d3). by rewrite Ht in Hrel. }
  split; [by etrans|]. split; [done|]. intros Hok Hv. rewrite Hok in Hb.
  assert (d3 = meta_incr "refs_version" d2) as -> by (unfold bump_refs_version, modify in Hb; congruence).
  destruct (meta_incr_version d2 Hv) as [Hv3 E3].
  destruct (fr_version _ _ (proj1 H34) Hv3) as [_ Hle]. lia.
Qed.

Lemma demote_promoted pack push r (m : gmap string PackSql) : pk_state r = Ingesting -> pk_push r = Some push -> m !! pack = Some r ->
  alter (fun r => if bool_decide (pk_push r = Some push) then set_state Ingesting r else r) pack
    (<[pack := set_state Live r]> m) = m.
Proof.
  intros Hs Hp Hr. apply map_eq. intros i. destruct (decide (i = pack)) as [->|Hne].
  - rewrite lookup_alter_eq, lookup_insert_eq. simpl. rewrite bool_decide_eq_true_2 by done. rewrite Hr.
    destruct r. simpl in *. by subst.
  - by rewrite lookup_alter_ne, lookup_insert_ne.
Qed.

(** The two ways a commit answers: every command refused and the push closed
    'rejected' over an untouched repository; or the commands run in order from a
    state that differs by the promoted pack, and the push closed 'committed'. *)
Definition rejected_run (now : Z) (req : CommitRequest) (d d' : Db) (rs : Results) : Prop :=
  exists d1, quiet d d1 /\ d' = close req PRejected now rs d1 /\ forallb is_reject rs = true.
Definition committed_run (now : Z) (req : CommitRequest) (cmds : list Cmd) (p : PushSql) (d d' : Db) (rs : Results) : Prop :=
  exists cur barrier head d1 d2 d3,
    current_scope d now p = Ok cur
    /\ frame d d1 /\ refs_eq d d1
    /\ match cr_pack req with
       | Some pack => over_quota d (cr_push req) = None /\ exists r, t_packs d !! pack = Some r
           /\ pk_state r = Ingesting /\ pk_push r = Some (cr_push req)
           /\ t_packs d1 = <[pack := set_state Live r]> (t_packs d)
       | None => t_packs d1 = t_packs d
       end
    /\ (let scopes := [ps_scope p; match cur with Some s => Some s | None => ps_scope p end] in
        (cr_atomic req = true -> Forall (fun c => verdict d1 head scopes c = Ok None) cmds)
        /\ run_cmds cmds (fun c => apply_one head c (cr_push req) (cr_principal req) now true barrier scopes) d1
            = (d2, Ok rs))
    /\ quiet d2 d3 /\ d' = close req PCommitted now rs d3
    /\ (any_ok rs || is_some (cr_pack req) = true -> is_Some (t_meta d2 !! "refs_version") -> version d2 < version d3).

Lemma reject_all_rejects why cmds : forallb is_reject (reject_all why cmds) = true.
Proof. unfold reject_all. induction cmds; simpl; [done|]. done. Qed.

Lemma atomic_refuse_run now barrier req rs d d1 d' rs' :
  frame d d1 -> refs_eq d d1 ->
  match cr_pack req with
  | Some pack => exists r, t_packs d !! pack = Some r /\ pk_state r = Ingesting /\ pk_push r = Some (cr_push req)
      /\ t_packs d1 = <[pack := set_state Live r]> (t_packs d)
  | None => t_packs d1 = t_packs d
  end ->
  atomic_refuse now barrier req rs d1 = (d', Ok rs') -> rejected_run now req d d' rs'.
Proof.
  intros Hf Hre Hp. unfold atomic_refuse. intros (u & d2 & Hd & Hr)%bind_ok.
  rewrite finish_push_run in Hr. injection Hr as <- <-. exists d2.
  split; [|split; [done|]].
  - assert (frame d1 d2 /\ refs_eq d1 d2 /\ packs_eq d d2) as (Hf2 & Hr2 & Hp2).
    { destruct (cr_pack req) as [pack|].
      - destruct Hp as (r & Hr & Hs & Hpu & Hp1). apply bind_ok in Hd as (u' & d3 & Hm & Hd).
        assert (d3 = demote pack (cr_push req) d1) as -> by (unfold modify in Hm; congruence).
        assert (packs_eq d (demote pack (cr_push req) d1)) as Hpe.
        { unfold packs_eq, demote. simpl. rewrite Hp1. by apply demote_promoted. }
        destruct barrier; injection Hd as <-; (split; [split; try done; by apply version_le_same|done]).
      - injection Hd as <-. by repeat split. }
    split; [by transitivity d1|]. split; [by transitivity d1|done].
  - clear. induction rs as [|r rs IH]; [done|]. done.
Qed.
Lemma rejects_forall rs : existsb is_reject rs = false -> Forall (fun r => r.2 = None) rs.
Proof.
  induction rs as [|[n [w|]] rs IH]; simpl; intros Hr; [constructor|done|]. constructor; [done|by apply IH].
Qed.

Lemma commit_apply_run now barrier req cmds scopes d d' rs :
  commit_apply now barrier req cmds scopes d = (d', Ok rs) ->
  (exists dry, atomic_refuse now barrier req dry d = (d', Ok rs))
  \/ exists head d2 d3,
    (cr_atomic req = true -> Forall (fun c => verdict d head scopes c = Ok None) cmds)
    /\ run_cmds cmds (fun c => apply_one head c (cr_push req) (cr_principal req) now true barrier scopes) d = (d2, Ok rs)
    /\ quiet d2 d3 /\ d' = close req PCommitted now rs d3
    /\ (any_ok rs || is_some (cr_pack req) = true -> is_Some (t_meta d2 !! "refs_version") -> version d2 < version d3).
Proof.
  unfold commit_apply. intros (head & d0 & Hm & Hr)%bind_ok.
  assert (d0 = d) as -> by (revert Hm; unfold meta; congruence). clear Hm.
  destruct (cr_atomic req).
  2:{ right. exists head. apply commit_land_run in Hr as (d2 & d3 & H1 & H2 & H3 & H4).
      exists d2, d3. done. }
  apply bind_ok in Hr as (dry & d0 & Hdry & Hr). apply run_cmds_dry in Hdry as [-> Hdry].
  specialize (Hdry dry eq_refl). destruct (existsb is_reject dry) eqn:Ed; [left; by exists dry|].
  right. exists head. apply commit_land_run in Hr as (d2 & d3 & H1 & H2 & H3 & H4).
  exists d2, d3. split; [|done]. intros _. apply rejects_forall in Ed.
  clear - Hdry Ed. induction Hdry as [|c r cmds dry [_ Hv] _ IH]; [constructor|].
  apply Forall_cons in Ed as [E1 E2]. constructor; [by rewrite <- E1|by apply IH].
Qed.

Lemma commit_inv now req d d' rs :
  commit_push now req d = (d', Ok rs) ->
  exists cmds p, collect to_cmd (cr_cmds req) = Ok cmds /\ t_pushes d !! cr_push req = Some p
  /\ ps_state p = POpen /\ (rejected_run now req d d' rs \/ committed_run now req cmds p d d' rs).
Proof.
  unfold commit_push. intros (cmds & d0 & [= <- Hcmds] & Hr)%bind_ok.
  apply bind_ok in Hr as (push & d0 & [= <- <-] & Hr).
  destruct (t_pushes d !! cr_push req) as [p|] eqn:Ep; [|done].
  destruct (bool_decide (ps_state p = POpen)) eqn:Eo; cbv beta iota delta [negb] in Hr; [|done].
  bsimp. exists cmds, p. do 3 (split; [done|]).
  assert (forall why, rejected_run now req d (close req PRejected now (reject_all why cmds) d) (reject_all why cmds)) as Hrej.
  { intros why. exists d. split; [done|]. split; [done|]. apply reject_all_rejects. }
  apply bind_ok in Hr as (auth & d0 & [= <- <-] & Hr).
  destruct (current_scope d now p) as [cur|why] eqn:Ec.
  2:{ left. rewrite finish_push_run in Hr. injection Hr as <- <-. apply Hrej. }
  set (scopes := [_; _]) in Hr. apply bind_ok in Hr as (epoch & d0 & Hm & Hr). cbv beta in Hr.
  assert (d0 = d) as ->.
  { revert Hm. unfold meta_i64, meta, mbind, M_bind, lift. repeat case_match; congruence. } clear Hm.
  destruct (epoch =? ps_epoch p); cbv beta iota delta [negb] in Hr.
  2:{ left. rewrite finish_push_run in Hr. injection Hr as <- <-. apply Hrej. }
  apply bind_ok in Hr as (barrier & d0 & [= <- _] & Hr).
  apply bind_ok in Hr as (over & d1 & Hl & Hr). destruct over as [m|].
  { apply bind_ok in Hr as (? & ? & _ & Hr). done. }
  assert (frame d d1 /\ refs_eq d d1 /\ match cr_pack req with
    | Some pack => over_quota d (cr_push req) = None /\ exists r, t_packs d !! pack = Some r
        /\ pk_state r = Ingesting /\ pk_push r = Some (cr_push req) /\ t_packs d1 = <[pack := set_state Live r]> (t_packs d)
    | None => t_packs d1 = t_packs d end) as (Hf & Hre & Hp).
  { destruct (cr_pack req) as [pack|]; [|by injection Hl as <-].
    apply land_pack_run in Hl as (? & ? & ? & ?). done. }
  apply commit_apply_run in Hr as [(dry & Hr)|(head & d2 & d3 & Hv & Hrun & Hq & Hd' & Hver)].
  - left. eapply atomic_refuse_run; [exact Hf|exact Hre| |exact Hr].
    destruct (cr_pack req); [by destruct Hp|done].
  - right. exists cur, barrier, head, d1, d2, d3. split; [done|]. split; [done|]. split; [done|].
    done.
Qed.

Lemma close_pushes req st now rs d p : t_pushes d !! cr_push req = Some p ->
  t_pushes (close req st now rs d) !! cr_push req = Some (close_row req st now rs p).
Proof. intros Hp. unfold close. cbn [t_pushes on_pushes]. by rewrite lookup_alter_eq, Hp. Qed.
Lemma closed_refuses now req d p cmds : collect to_cmd (cr_cmds req) = Ok cmds ->
  t_pushes d !! cr_push req = Some p -> ps_state p <> POpen ->
  commit_push now req d = (d, Err (Conflict ("push is " +:+ push_state_str (ps_state p)))).
Proof.
  intros Hc Hp Hs. unfold commit_push, lift, gets. unfold mbind, M_bind. rewrite Hc, Hp.
  rewrite bool_decide_eq_false_2 by done. done.
Qed.

(** An answer closes the row. *)
Lemma commit_closes now req d d' rs : commit_push now req d = (d', Ok rs) ->
  exists p st d1, t_pushes d !! cr_push req = Some p /\ ps_state p = POpen /\ d' = close req st now rs d1 /\ t_pushes d1 = t_pushes d
  /\ (st = PCommitted \/ st = PRejected).
Proof.
  intros Hr. apply commit_inv in Hr as (cmds & p & _ & Hp & Ho & Hrun). exists p.
  destruct Hrun as [(d1 & Hq & -> & _)|(cur & b & h & d1 & d2 & d3 & _ & Hf & _ & _ & [_ Hrun] & Hq & -> & _)].
  - exists PRejected, d1. do 3 (split; [done|]). split; [apply Hq|by right].
  - exists PCommitted, d3. do 3 (split; [done|]). split; [|by left].
    apply run_cmds_landed in Hrun as ([Hf2 _] & _).
    rewrite (fr_pushes _ _ (proj1 Hq)), (fr_pushes _ _ Hf2). apply Hf.
Qed.
(** C20: A push commits at most once: an answer closes its row as committed or
    rejected with exactly the results it reports, and every later commit of the
    same push is refused and changes nothing. *)
Theorem commit_once (now : Z) (req : CommitRequest) (d d' : Db) (rs : Results) :
  commit_push now req d = (d', Ok rs) ->
  exists p p', t_pushes d !! cr_push req = Some p /\ ps_state p = POpen
  /\ t_pushes d' !! cr_push req = Some p' /\ ps_state p' ∈ [PCommitted; PRejected]
  /\ ps_result p' = Some rs /\ ps_ended p' = Some now
  /\ (forall id, id <> cr_push req -> t_pushes d' !! id = t_pushes d !! id)
  /\ forall now2 req2 cmds2, cr_push req2 = cr_push req -> collect to_cmd (cr_cmds req2) = Ok cmds2 ->
       exists e, commit_push now2 req2 d' = (d', Err (Conflict e)).
Proof.
  intros Hr. apply commit_closes in Hr as (p & st & d1 & Hp & Ho & -> & Hd1 & Hst).
  assert (t_pushes d1 !! cr_push req = Some p) as Hp1 by (by rewrite Hd1).
  exists p, (close_row req st now rs p). do 2 (split; [done|]). split; [by apply close_pushes|].
  split; [destruct Hst; subst; set_solver|]. do 2 (split; [done|]). split.
  - intros id Hid. unfold close. cbn [t_pushes on_pushes]. rewrite lookup_alter_ne by done. by rewrite Hd1.
  - intros now2 req2 cmds2 Heq Hc2. eexists. eapply closed_refuses; [exact Hc2|rewrite Heq; by apply close_pushes|].
    simpl. by destruct Hst; subst.
Qed.

Lemma scopes_allow d1 head p cur c :
  landed_in head [ps_scope p; match cur with Some s => Some s | None => ps_scope p end] d1 c ->
  scope_allows (ps_scope p) (c_name c) = true
  /\ (forall s, cur = Some s -> scope_allows (Some s) (c_name c) = true) /\ t_pins d1 !! c_name c = None.
Proof.
  intros (d2 & [Hf _] & Hv). unfold verdict in Hv. destruct (gate _ _ _ _) eqn:Eg; [done|].
  apply gate_none in Eg as (_ & Hs & _ & Hp & _). simpl in Hs. bsimp.
  split; [done|]. split; [by intros s ->|]. by rewrite <- (fr_pins _ _ Hf).
Qed.

Lemma to_cmd_name x y : to_cmd x = Ok y -> c_name y = cd_name x.
Proof.
  unfold to_cmd, mbind, result_bind. destruct (oid (cd_old x)); [|done]. destruct (oid (cd_new x)); [|done].
  by intros [= <-].
Qed.

(** C1: Every ref a commit changes was named by one of its commands, is covered by
    the scope captured at begin and by the scope the credential has at commit
    time, and is not pinned; and the credential itself was still valid in the
    committing span. *)
Theorem commit_changes_authorized (now : Z) (req : CommitRequest) (d d' : Db) (rs : Results) (n : string) :
  commit_push now req d = (d', Ok rs) -> t_refs d' !! n <> t_refs d !! n ->
  exists p cur, t_pushes d !! cr_push req = Some p
  /\ current_scope d now p = Ok cur
  /\ scope_allows (ps_scope p) n = true /\ (forall s, cur = Some s -> scope_allows (Some s) n = true)
  /\ t_pins d !! n = None /\ n ∈ map cd_name (cr_cmds req).
Proof.
  intros Hr Hn. apply commit_inv in Hr as (cmds & p & Hcmds & Hp & _ & Hrun).
  destruct Hrun as [(d1 & Hq & -> & _)|(cur & b & h & d1 & d2 & d3 & Hc & Hf & Hre & _ & [_ Hrun] & Hq & -> & _)].
  { exfalso. apply Hn. change (t_refs (close _ _ _ _ d1)) with (t_refs d1). by rewrite (proj1 (proj2 Hq)). }
  change (t_refs (close _ _ _ _ d3)) with (t_refs d3) in Hn. rewrite (proj1 (proj2 Hq)) in Hn.
  unfold refs_eq in Hre. rewrite <- Hre in Hn.
  apply run_cmds_landed in Hrun as (_ & _ & _ & Hch). destruct (Hch n Hn) as (c & Hin & <- & Hl).
  apply scopes_allow in Hl as (H1 & H2 & H3). exists p, cur. do 4 (split; [done|]).
  split; [by rewrite <- (fr_pins _ _ Hf)|]. clear - Hcmds Hin. apply collect_Forall2 in Hcmds.
  induction Hcmds as [|x y l l' Hxy _ IH]; [by apply not_elem_of_nil in Hin|].
  apply elem_of_cons in Hin as [->|Hin]; [|simpl; right; by apply IH]. rewrite (to_cmd_name x y Hxy). left.
Qed.

Lemma any_ok_false rs : any_ok rs = false <-> forallb is_reject rs = true.
Proof.
  unfold any_ok. induction rs as [|r rs IH]; [done|]. simpl.
  rewrite orb_false_iff, andb_true_iff, IH, negb_false_iff. done.
Qed.
(** What an answered commit does to the version and the refs. *)
Lemma commit_effects now req d d' rs :
  commit_push now req d = (d', Ok rs) -> is_Some (t_meta d !! "refs_version") ->
  version d <= version d' /\ (any_ok rs = true -> version d < version d') /\ (any_ok rs = false -> refs_eq d d').
Proof.
  intros Hr Hv. apply commit_inv in Hr as (cmds & p & _ & _ & _ & Hrun).
  destruct Hrun as [(d1 & Hq & -> & Hrej)|(cur & b & h & d1 & d2 & d3 & _ & Hf & Hre & _ & [_ Hrun] & Hq & -> & Hb)].
  - destruct (fr_version _ _ (proj1 Hq) Hv) as [_ ?]. split; [done|]. apply any_ok_false in Hrej.
    split; [congruence|]. by destruct Hq as (_ & ? & _).
  - destruct (fr_version _ _ Hf Hv) as [Hv1 L1]. apply run_cmds_landed in Hrun as ([Hf2 _] & _ & Hrej & _).
    destruct (fr_version _ _ Hf2 Hv1) as [Hv2 L2]. destruct (fr_version _ _ (proj1 Hq) Hv2) as [_ L3].
    change (version (close _ _ _ _ d3)) with (version d3).
    split; [lia|]. split; [intros Ho|intros Ho%any_ok_false].
    + enough (version d2 < version d3) by lia. apply Hb; [by rewrite Ho|done].
    + destruct Hq as (_ & Hq & _). unfold refs_eq in *. cbn [close t_refs on_pushes]. rewrite Hq, Hrej, Hre; done.
Qed.

(** Whenever a commit changes a ref, [refs_version] has strictly increased, so a
    reader that compares versions never mistakes the new refs for the old. *)
Theorem commit_bumps_version (now : Z) (req : CommitRequest) (d d' : Db) (rs : Results) :
  commit_push now req d = (d', Ok rs) -> is_Some (t_meta d !! "refs_version") ->
  version d <= version d' /\ (t_refs d' <> t_refs d -> version d < version d').
Proof.
  intros Hr Hv. destruct (commit_effects _ _ _ _ _ Hr Hv) as (Hle & Hlt & Heq). split; [done|].
  intros Hne. destruct (any_ok rs); [by apply Hlt|]. by destruct Hne, Heq.
Qed.

(** ** --atomic *)

Lemma parents_of_ext d d1 : t_parents d1 = t_parents d -> parents_of d1 = parents_of d.
Proof. intros E. unfold parents_of. by rewrite E. Qed.
Lemma ff_ancestor_ext d d1 a b : t_parents d1 = t_parents d -> ff_ancestor d1 a b = ff_ancestor d a b.
Proof.
  intros E. unfold ff_ancestor, ff_walk.
  assert (anc d1 FF_WALK_MAX b = anc d FF_WALK_MAX b) as ->.
  { unfold anc. generalize (Z.to_nat FF_WALK_MAX) [b] ({[b]} : gset string).
    induction n as [|n IH]; intros q seen; [done|]. simpl. destruct q as [|s q]; [done|].
    rewrite (parents_of_ext _ _ E). by rewrite IH. }
  unfold recorded. by rewrite E.
Qed.
Lemma verdict_stable d d1 head scopes c :
  framed d d1 -> t_refs d1 !! c_name c = t_refs d !! c_name c -> ref_count d1 < MAX_REFS ->
  verdict d head scopes c = Ok None -> verdict d1 head scopes c = Ok None.
Proof.
  intros [[Hp1 Hp2 Hp3 Ho _ _ _] Hpk] Hr Hc. unfold verdict.
  assert (gate d1 head scopes c = gate d head scopes c) as ->.
  { unfold gate, pin_sha, is_protected. by rewrite Hp1, Hp2, (ff_ancestor_ext d d1) by done. }
  destruct (gate d head scopes c); [done|].
  assert (lookup_one d1 (c_new c) = lookup_one d (c_new c)) as El.
  { unfold lookup_one, live_rows, pack_live. by rewrite Ho, Hpk. }
  assert (cas d1 c = cas d c) as -> by (unfold cas, ref_cas_ok; by rewrite Hr).
  unfold target_gate. rewrite El. destruct (is_null (c_new c)); [done|]. unfold mbind, result_bind.
  destruct (lookup_one d (c_new c)) as [[l|]|]; simpl; [|done|done].
  destruct (Z.leb_spec MAX_REFS (ref_count d1)) as [|_]; [lia|]. rewrite andb_false_r.
  by destruct (is_null (c_old c) && _).
Qed.
Lemma landed_count push who now barrier c d : ref_count (landed push who now barrier c d) <= ref_count d + 1.
Proof.
  unfold ref_count. rewrite landed_refs. unfold land_ref. destruct (is_null (c_new c)).
  - rewrite map_size_delete. destruct (t_refs d !! c_name c); unfold id; lia.
  - rewrite map_size_insert. destruct (t_refs d !! c_name c); unfold id; lia.
Qed.
Lemma run_cmds_all head push who now barrier scopes cmds d :
  Forall (fun c => verdict d head scopes c = Ok None) cmds -> NoDup (map c_name cmds) ->
  ref_count d + Z.of_nat (length cmds) <= MAX_REFS ->
  exists d', run_cmds cmds (fun c => apply_one head c push who now true barrier scopes) d
    = (d', Ok (map (fun c => (c_name c, None)) cmds)).
Proof.
  revert d. induction cmds as [|c cmds IH]; intros d Hv Hnd Hc; simpl in *; [by exists d|].
  apply Forall_cons in Hv as [Hv Hvs]. apply NoDup_cons in Hnd as [Hni Hnd].
  assert (Hlc := landed_count push who now barrier c d).
  destruct (IH (landed push who now barrier c d)) as [d' Hd']; [|done|lia|].
  - rewrite Forall_forall in Hvs |- *. intros c' Hc'.
    assert (0 < Z.of_nat (length cmds)) by (destruct cmds; [by apply not_elem_of_nil in Hc'|simpl; lia]).
    apply (verdict_stable d); [apply landed_framed| |lia|by apply Hvs].
    rewrite landed_refs. apply land_ref_other. intros E. apply Hni. rewrite <- E. apply elem_of_map. eauto.
  - exists d'. rewrite (bind_run _ _ _ (landed push who now barrier c d) None).
    2:{ rewrite apply_one_run by done. by rewrite Hv. }
    by rewrite (bind_run _ _ _ _ _ Hd').
Qed.

(** C21: An --atomic push whose commands name distinct refs, in a repository with
    room for them, lands all of its commands or none: either every command
    reports ok, or every one reports a reason and no ref moved. *)
Theorem atomic_all_or_nothing (now : Z) (req : CommitRequest) (d d' : Db) (rs : Results) :
  commit_push now req d = (d', Ok rs) -> cr_atomic req = true ->
  NoDup (map cd_name (cr_cmds req)) -> ref_count d + Z.of_nat (length (cr_cmds req)) <= MAX_REFS ->
  Forall (fun r => r.2 = None) rs
  \/ (Forall (fun r => is_reject r = true) rs /\ t_refs d' = t_refs d).
Proof.
  intros Hr Ha Hnd Hc. apply commit_inv in Hr as (cmds & p & Hcmds & _ & _ & Hrun).
  destruct Hrun as [(d1 & Hq & -> & Hrej)|(cur & b & h & d1 & d2 & d3 & _ & _ & Hre & _ & [Hv Hrun] & _)].
  { right. split; [|apply (proj1 (proj2 Hq))]. apply Forall_forall. intros r Hin.
    eapply forallb_forall in Hrej; [exact Hrej|]. by apply list_elem_of_In. }
  left. assert (length cmds = length (cr_cmds req)) as Hlen by (by eapply collect_length).
  assert (map c_name cmds = map cd_name (cr_cmds req)) as Hnames.
  { apply collect_Forall2 in Hcmds. clear - Hcmds. induction Hcmds as [|x y l l' Hxy _ IH]; [done|].
    simpl. by rewrite IH, (to_cmd_name _ _ Hxy). }
  edestruct run_cmds_all as [d4 E]; [by apply Hv|by rewrite Hnames| |].
  { rewrite Hlen. unfold ref_count in *. rewrite Hre. exact Hc. }
  rewrite E in Hrun. injection Hrun as _ <-. clear. induction cmds; constructor; done.
Qed.

(** ** Quota *)

Lemma sum_filter_le f (p q : PackSql -> bool) (l : list (string * PackSql)) :
  (forall kv, kv ∈ l -> 0 <= f kv.2 /\ (p kv.2 = true -> q kv.2 = true)) ->
  fold_right (fun kv n => f kv.2 + n) 0 (List.filter (fun kv => p kv.2) l)
  <= fold_right (fun kv n => f kv.2 + n) 0 (List.filter (fun kv => q kv.2) l).
Proof.
  induction l as [|kv l IH]; simpl; intros Hl; [lia|].
  assert (Hkv := Hl kv ltac:(left)). specialize (IH ltac:(intros; apply Hl; by right)).
  destruct (p kv.2) eqn:Ep; [rewrite (proj2 Hkv eq_refl); simpl; lia|].
  destruct (q kv.2); simpl; lia.
Qed.

Definition live_pack_row (r : PackSql) : bool := bool_decide (pk_state r = Live).
(** A sum over the packs splits off one pack's row. *)
Lemma sum_packs_split f p d i r : t_packs d !! i = Some r ->
  sum_packs f p d = (if p r then f r else 0)
    + fold_right (fun kv n => f kv.2 + n) 0 (List.filter (fun kv => p kv.2) (map_to_list (delete i (t_packs d)))).
Proof.
  intros Hr. unfold sum_packs. assert (map_to_list (t_packs d) ≡ₚ (i, r) :: map_to_list (delete i (t_packs d))) as Hp.
  { rewrite <- map_to_list_insert by apply lookup_delete_eq. by rewrite insert_delete_id. }
  revert Hp. generalize (map_to_list (t_packs d)) (map_to_list (delete i (t_packs d))). intros l l' Hp.
  transitivity (fold_right (fun kv n => f kv.2 + n) 0 (List.filter (fun kv => p kv.2) ((i, r) :: l'))).
  - assert (List.filter (fun kv : string * PackSql => p kv.2) l ≡ₚ List.filter (fun kv => p kv.2) ((i, r) :: l')) as Hq
      by (by rewrite Hp).
    induction Hq; simpl; lia.
  - simpl. destruct (p r); simpl; lia.
Qed.
Lemma live_after_promote f d d1 pack push r :
  (forall i r, t_packs d !! i = Some r -> 0 <= f r) ->
  (forall st r, f (set_state st r) = f r) ->
  t_packs d !! pack = Some r -> pk_state r = Ingesting -> pk_push r = Some push ->
  t_packs d1 = <[pack := set_state Live r]> (t_packs d) ->
  sum_packs f live_pack_row d1 <= sum_packs f (counted push) d.
Proof.
  intros Hpos Hset Hr Hs Hp H1.
  rewrite (sum_packs_split f _ d pack r Hr), (sum_packs_split f _ d1 pack (set_state Live r))
    by (rewrite H1; apply lookup_insert_eq).
  rewrite H1, delete_insert_eq. assert (counted push r = true) as ->.
  { unfold counted. rewrite Hs, Hp. apply orb_true_iff. right. by rewrite !bool_decide_eq_true_2. }
  assert (live_pack_row (set_state Live r) = true) as -> by done. rewrite Hset.
  apply Z.add_le_mono_l. apply sum_filter_le. intros [i r'] Hin%elem_of_map_to_list.
  apply lookup_delete_Some in Hin as [_ Hin]. split; [by eapply Hpos|]. simpl.
  unfold live_pack_row, counted. intros ->. done.
Qed.

(** Quotas hold after a commit: when a push with a pack is committed, the live
    packs together hold no more objects and no more bytes than the configured
    limits, which counted the new pack before it went live. *)
Theorem commit_within_quota (now : Z) (req : CommitRequest) (d d' : Db) (rs : Results) (pack : string) (p' : PushSql) :
  commit_push now req d = (d', Ok rs) -> cr_pack req = Some pack ->
  t_pushes d' !! cr_push req = Some p' -> ps_state p' = PCommitted ->
  (forall i r, t_packs d !! i = Some r -> 0 <= pk_count r /\ 0 <= pk_bytes r) ->
  let max_obj := env_i64 "GE_QUOTA_MAX_OBJECTS" DEFAULT_MAX_OBJECTS in
  let max_bytes := env_i64 "GE_QUOTA_MAX_BYTES" DEFAULT_MAX_BYTES in
  pack_live d' pack = true
  /\ (0 < max_obj -> sum_packs pk_count live_pack_row d' <= max_obj)
  /\ (0 < max_bytes -> sum_packs pk_bytes live_pack_row d' <= max_bytes).
Proof.
  intros Hr Hpack Hp' Hst Hpos max_obj max_bytes. apply commit_inv in Hr as (cmds & p & _ & Hp & _ & Hrun).
  destruct Hrun as [(d1 & Hq & -> & _)|(cur & b & h & d1 & d2 & d3 & _ & _ & _ & Hpk & [_ Hrun] & Hq & -> & _)].
  { rewrite (close_pushes _ _ _ _ _ p) in Hp' by (by rewrite (fr_pushes _ _ (proj1 Hq))).
    injection Hp' as <-. discriminate Hst. }
  rewrite Hpack in Hpk. destruct Hpk as (Hover & r & Hr & Hs & Hpu & Hd1).
  assert (t_packs (close req PCommitted now rs d3) = <[pack := set_state Live r]> (t_packs d)) as Hfin.
  { apply run_cmds_landed in Hrun as ([_ Hp2] & _). destruct Hq as (_ & _ & Hp3). unfold packs_eq in *.
    change (t_packs (close _ _ _ _ d3)) with (t_packs d3). congruence. }
  split; [unfold pack_live; by rewrite Hfin, lookup_insert_eq|].
  assert (Hc := live_after_promote pk_count d _ pack (cr_push req) r
    (fun i r Hi => proj1 (Hpos i r Hi)) (fun _ _ => eq_refl) Hr Hs Hpu Hfin).
  assert (Hb := live_after_promote pk_bytes d _ pack (cr_push req) r
    (fun i r Hi => proj2 (Hpos i r Hi)) (fun _ _ => eq_refl) Hr Hs Hpu Hfin).
  unfold over_quota, storage_totals in Hover. cbn [fst snd] in Hover. fold max_obj max_bytes in Hover.
  destruct (Z.ltb_spec 0 max_obj), (Z.ltb_spec max_obj (sum_packs pk_count (counted (cr_push req)) d)); try done;
    destruct (Z.ltb_spec 0 max_bytes), (Z.ltb_spec max_bytes (sum_packs pk_bytes (counted (cr_push req)) d)); try done;
    split; lia.
Qed.
End Commit.
