(* ===== verification/PushFacts.v ===== *)
(** * The life of a push before and around its commit

    Facts about [push_begin], [push_abort], [push_index], the format pin and the
    throttle, the bound on open pushes over every interleaving of push requests,
    and concrete runs of the push protocol. *)
From S2P Require Import Prelude Errors Db Scope Jobs Cohort GcBase Compact Refs Push.
Open Scope Z_scope.

(** ** Indexing is invisible until the commit *)

Definition only_pack (pack : string) (d d' : Db) : Prop :=
  t_packs d' = t_packs d /\ t_refs d' = t_refs d /\ t_pushes d' = t_pushes d
  /\ forall s p, p <> pack -> t_objects d' !! (s, p) = t_objects d !! (s, p).
#[global] Instance only_pack_preorder pack : PreOrder (only_pack pack).
Proof.
  split; [by intros d|]. intros d1 d2 d3 (?&?&?&Hab) (?&?&?&Hbc). split; [congruence|].
  split; [congruence|]. split; [congruence|]. intros s p Hp. by rewrite Hbc, Hab.
Qed.
Lemma insert_parents_objects sha n ps d : t_objects (insert_parents sha n ps d) = t_objects d
  /\ t_packs (insert_parents sha n ps d) = t_packs d /\ t_refs (insert_parents sha n ps d) = t_refs d
  /\ t_pushes (insert_parents sha n ps d) = t_pushes d.
Proof.
  revert n d. induction ps as [|p ps IH]; intros n d; simpl; [done|].
  destruct (IH (n + 1) (insert_parent sha n (Some p) d)) as (-> & -> & -> & ->). unfold insert_parent. by case_match.
Qed.
Lemma insert_object_only pack r : rel_ok (only_pack pack) (insert_object pack r).
Proof.
  unfold insert_object. rel_tac. apply rel_ok_modify. intros d.
  set (d1 := match t_objects d !! _ with Some _ => d | None => _ end).
  assert (only_pack pack d d1) as H1.
  { unfold d1. case_match; [done|]. split; [done|]. split; [done|]. split; [done|].
    intros s p Hp. cbn [t_objects on_objects]. rewrite lookup_insert_ne; [done|congruence]. }
  etrans; [exact H1|]. destruct (or_kind r), (or_parents r) as [ps|]; try done.
  destruct (insert_parents_objects (or_sha r) 0 ps (insert_parent (or_sha r) (-1) None d1)) as (E1 & E2 & E3 & E4).
  unfold only_pack. rewrite E1, E2, E3, E4. unfold insert_parent. by case_match.
Qed.

Section Index.
Context `{Platform}.

(** C33: Indexing rows for an uncommitted pack changes nothing a reader can see: the
    same objects are readable, no ref and no other pack moves, whether the call
    succeeds or fails part-way. *)
Theorem push_index_invisible (now : Z) (m : IndexPack) (rows : list ObjRow) (d : Db) :
  let d' := (push_index now m rows d).1 in
  (forall s, live_sha d' s <-> live_sha d s) /\ t_refs d' = t_refs d /\ t_pushes d' = t_pushes d
  /\ (forall p, p <> ip_id m -> t_packs d' !! p = t_packs d !! p)
  /\ (forall s p, p <> ip_id m -> t_objects d' !! (s, p) = t_objects d !! (s, p)).
Proof.
  unfold push_index. destruct (10000 <? _); [done|]. rewrite (bind_run _ _ d d _ eq_refl).
  destruct (negb (bool_decide _)); [done|]. unfold mbind, M_bind.
  destruct (upsert_pack now m d) as [d1 n] eqn:Eu. cbn [fst snd].
  unfold upsert_pack in Eu.
  assert ((d1 = d /\ n = 0) \/ exists r, d1 = on_packs (insert (ip_id m) r) d /\ n = 1 /\ pk_state r = Ingesting
     /\ pack_live d (ip_id m) = false) as [[-> ->]|(r & -> & -> & Hs & Hnl)]; [|done|].
  { unfold pack_live. destruct (t_packs d !! ip_id m) as [r|]; [|right; simplify_eq; eauto 6].
    destruct (_ && _) eqn:Eb; simplify_eq; [right|by left]. bsimp. eexists. split; [done|]. split; [done|].
    split; [done|]. by rewrite bool_decide_eq_false_2 by (by rewrite H0). }
  change (negb (1 =? 1)) with false. cbv iota. set (d1 := on_packs _ d).
  assert (only_pack (ip_id m) d1 (insert_objects (ip_id m) rows d1).1) as Ho.
  { unfold insert_objects. destruct (10000 <? _); [done|]. apply rel_ok_for_each; [apply _|]. apply insert_object_only. }
  destruct (insert_objects (ip_id m) rows d1) as [d2 o]. cbn [fst] in *. destruct Ho as (Hp & Hr & Hpu & Hob).
  assert (forall p, pack_live d2 p = pack_live d p) as Hl.
  { intros p. unfold pack_live at 1. rewrite Hp. unfold d1. cbn [t_packs on_packs].
    destruct (decide (p = ip_id m)) as [->|Hne]; [|by rewrite lookup_insert_ne].
    rewrite lookup_insert_eq, Hnl. by rewrite bool_decide_eq_false_2 by (by rewrite Hs). }
  split; [|split; [exact Hr|split; [exact Hpu|split; [|exact Hob]]]].
  - intros s. split; intros (p & Hsp & Hpl); exists p; rewrite Hl in *; (split; [|done]);
      destruct (decide (p = ip_id m)) as [->|Hne]; try congruence.
    + by rewrite (Hob s p Hne) in Hsp.
    + by rewrite (Hob s p Hne).
  - intros p Hne. rewrite Hp. unfold d1. cbn [t_packs on_packs]. by rewrite lookup_insert_ne.
Qed.
End Index.

(** ** The object format is decided once *)

Section Format.
Context `{Platform}.

(** The format pin is a compare-and-swap: it succeeds exactly when the repository
    is unpinned or already of that kind, afterwards the repository is of that
    kind for good, and a refusal leaves the stored pin as it was. *)
Theorem pin_obj_format_cas (kind : HashKind) (d : Db) :
  t_meta d !! "obj_format" ∈ [None; Some "sha1"; Some "sha256"] ->
  let run := pin_obj_format kind d in
  (is_ok run.2 = true <-> (obj_format_pinned d = false \/ obj_kind d = kind))
  /\ (is_ok run.2 = true -> obj_kind run.1 = kind /\ obj_format_pinned run.1 = true)
  /\ (is_ok run.2 = false -> run.1 = d)
  /\ (obj_format_pinned d = true -> run.1 = d).
Proof.
  intros Hin. unfold pin_obj_format, modify, gets. unfold mbind, M_bind.
  unfold obj_kind, obj_format_pinned, meta_insert_ignore, meta_is.
  destruct (t_meta d !! "obj_format") as [v|] eqn:E.
  - cbn [fst snd]. rewrite E. assert (v = "sha1" \/ v = "sha256") as [->| ->] by set_solver;
      destruct kind; simpl; repeat case_bool_decide; simpl; rewrite ?E; simpl; intuition congruence.
  - cbn [t_meta on_meta]. rewrite lookup_insert_eq.
    destruct kind; simpl; repeat case_bool_decide; simpl; rewrite ?lookup_insert_eq; intuition congruence.
Qed.
End Format.

(** ** Open pushes *)

Definition is_open (p : PushSql) : bool := bool_decide (ps_state p = POpen).
Definition open_ids (d : Db) : gset string := dom (filter (fun kv => is_open kv.2 = true) (t_pushes d)).
Definition shrinks (d d' : Db) : Prop := open_ids d' ⊆ open_ids d.
#[global] Instance shrinks_preorder : PreOrder shrinks.
Proof. split; [by intros d x|]. unfold shrinks. intros d1 d2 d3. set_solver. Qed.
Definition pushes_eq (d d' : Db) : Prop := t_pushes d' = t_pushes d.
#[global] Instance pushes_eq_preorder : PreOrder pushes_eq.
Proof. split; [done|]. unfold pushes_eq. intros d1 d2 d3. congruence. Qed.

Lemma open_ids_elem d id : id ∈ open_ids d <-> exists p, t_pushes d !! id = Some p /\ ps_state p = POpen.
Proof.
  unfold open_ids. rewrite elem_of_dom. split.
  - intros [p [Hp Ho]%map_lookup_filter_Some]. exists p. split; [done|]. by apply bool_decide_eq_true in Ho.
  - intros (p & Hp & Ho). exists p. apply map_lookup_filter_Some. split; [done|]. by apply bool_decide_eq_true.
Qed.
Lemma count_open_size d : count_open d = Z.of_nat (size (open_ids d)).
Proof.
  unfold count_open, open_ids. rewrite size_dom, <- length_map_to_list. f_equal.
  apply Permutation_length, NoDup_Permutation.
  - apply NoDup_filter_b, NoDup_map_to_list.
  - apply NoDup_map_to_list.
  - intros [k r]. rewrite elem_of_filter_b, !elem_of_map_to_list, map_lookup_filter_Some. naive_solver.
Qed.
Lemma pushes_shrinks d d' : pushes_eq d d' -> shrinks d d'.
Proof. intros E. unfold shrinks, open_ids. by rewrite E. Qed.
Lemma alter_shrinks f id d : (forall p, ps_state (f p) = POpen -> ps_state p = POpen) ->
  shrinks d (on_pushes (alter f id) d).
Proof.
  intros Hf x. rewrite !open_ids_elem. cbn [t_pushes on_pushes]. intros (p & Hp & Ho).
  apply lookup_alter_Some in Hp as [(-> & p0 & Hp0 & ->)|[_ Hp]]; eauto.
Qed.

Section Bound.
Context `{Platform}.
Lemma pushes_modify f : (forall d, t_pushes (f d) = t_pushes d) -> rel_ok pushes_eq (modify f : DoM unit).
Proof. intros Hf d. apply Hf. Qed.
Lemma rel_pushes_shrinks {A} (m : DoM A) : rel_ok pushes_eq m -> rel_ok shrinks m.
Proof. intros Hm d. apply pushes_shrinks, Hm. Qed.
Lemma quiet_pushes {A} (m : DoM A) : rel_ok quiet m -> rel_ok pushes_eq m.
Proof. intros Hm d. apply (fr_pushes _ _ (proj1 (Hm d))). Qed.
Lemma write_landing_pushes push who now barrier c : rel_ok pushes_eq (write_landing push who now barrier c).
Proof.
  intros d. unfold write_landing.
  assert (t_pushes (write_ref now c d).1 = t_pushes d) as Hw by (unfold write_ref; repeat case_match; done).
  destruct (negb _); [exact Hw|]. unfold pushes_eq. rewrite <- Hw.
  match goal with |- t_pushes (?m _).1 = _ => assert (rel_ok pushes_eq m) as Hm end; [|apply Hm].
  apply rel_ok_bind; [apply _|by apply pushes_modify|intros _]. apply rel_ok_bind; [apply _| |intros; apply rel_ok_ret, _].
  destruct barrier; [apply quiet_pushes, failpoint_quiet|apply rel_ok_ret, _].
Qed.
Lemma apply_one_pushes head c push who now write barrier scopes :
  rel_ok pushes_eq (apply_one head c push who now write barrier scopes).
Proof.
  assert (Hw := write_landing_pushes push who now barrier c).
  assert (rel_ok pushes_eq bump_refs_version) by (apply quiet_pushes, bump_quiet).
  assert (rel_ok pushes_eq (failpoint "gc.barrier.landing")) by (apply quiet_pushes, failpoint_quiet).
  assert (rel_ok pushes_eq (modify (feed_frontier (feeds_of c)) : DoM unit)) by by apply pushes_modify.
  unfold apply_one, barrier_feed_landing. rel_tac.
Qed.
Lemma run_cmds_pushes cmds f : (forall c, rel_ok pushes_eq (f c)) -> rel_ok pushes_eq (run_cmds cmds f).
Proof.
  intros Hf. induction cmds as [|c cmds IH]; simpl; [apply rel_ok_ret, _|]. rel_tac.
Qed.
Lemma finish_shrinks req st now rs : st <> POpen -> rel_ok shrinks (finish_push req st now rs).
Proof. intros Hst d. rewrite finish_push_run. apply alter_shrinks. by intros p. Qed.
Lemma rate_check_pushes now key : rel_ok pushes_eq (rate_check now key).
Proof. unfold rate_check. rel_tac; by apply pushes_modify. Qed.
Lemma pin_pushes k : rel_ok pushes_eq (pin_obj_format k).
Proof. unfold pin_obj_format. rel_tac. apply pushes_modify. intros d. unfold meta_insert_ignore. by case_match. Qed.
Lemma admit_pushes : rel_ok pushes_eq admit_pack.
Proof. by intros d. Qed.
Lemma meta_i64_pushes k : rel_ok pushes_eq (meta_i64 k).
Proof. apply rel_ok_bind; [apply _|apply quiet_pushes, meta_quiet|intros; apply rel_ok_lift, _]. Qed.
Lemma land_pack_pushes now barrier push pack : rel_ok pushes_eq (land_pack now barrier push pack).
Proof.
  assert (rel_ok pushes_eq (barrier_write_pending_before_promote pack)) by apply quiet_pushes, write_pending_quiet.
  assert (rel_ok pushes_eq (trigger now)) as Ht by apply quiet_pushes, trigger_quiet.
  unfold land_pack. apply rel_ok_bind; [apply _|apply rel_ok_gets, _|intros [m|]]; [apply rel_ok_ret, _|].
  apply rel_ok_bind; [apply _|rel_tac|intros _]. apply rel_ok_bind; [apply _| |intros n].
  - intros d. unfold pushes_eq, promote. destruct (t_packs d !! pack) as [r|]; [|done]. by destruct (_ && _).
  - destruct (negb _); [apply rel_ok_fail, _|exact Ht].
Qed.
#[local] Hint Resolve apply_one_pushes run_cmds_pushes admit_pushes meta_i64_pushes land_pack_pushes
  rate_check_pushes pin_pushes : git_edge.
Lemma commit_land_shrinks now req cmds apply : (forall b c, rel_ok pushes_eq (apply b c)) ->
  rel_ok shrinks (commit_land now req cmds apply).
Proof.
  intros Ha. unfold commit_land.
  apply rel_ok_bind; [apply _|apply rel_pushes_shrinks; auto with git_edge|intros rs].
  apply rel_ok_bind; [apply _|apply rel_pushes_shrinks, quiet_pushes; rel_tac|intros _].
  apply rel_ok_bind; [apply _|apply rel_pushes_shrinks, quiet_pushes; rel_tac|intros _].
  by apply finish_shrinks.
Qed.
Lemma commit_shrinks now req : rel_ok shrinks (commit_push now req).
Proof.
  assert (forall st rs, st <> POpen -> rel_ok shrinks (finish_push req st now rs)) as Hfin
    by (intros; by apply finish_shrinks).
  assert (forall k, rel_ok shrinks (meta_i64 k)) by (intros; apply rel_pushes_shrinks, meta_i64_pushes).
  assert (forall b pk, rel_ok shrinks (land_pack now b (cr_push req) pk)) by (intros; apply rel_pushes_shrinks, land_pack_pushes).
  assert (rel_ok shrinks barrier_active) by apply rel_ok_gets, _.
  assert (forall b cmds sc, rel_ok shrinks (commit_apply now b req cmds sc)) as Hca.
  { intros b cmds sc. unfold commit_apply.
    apply rel_ok_bind; [apply _|apply rel_pushes_shrinks, quiet_pushes, meta_quiet|intros head].
    assert (rel_ok shrinks (commit_land now req cmds (fun write c => apply_one head c (cr_push req) (cr_principal req) now write b sc)))
      by (apply commit_land_shrinks; auto with git_edge).
    destruct (cr_atomic req); [|done].
    apply rel_ok_bind; [apply _|apply rel_pushes_shrinks; auto with git_edge|intros dry].
    destruct (existsb is_reject dry); [|done]. unfold atomic_refuse.
    apply rel_ok_bind; [apply _| |intros; by apply Hfin].
    apply rel_pushes_shrinks. rel_tac; by apply pushes_modify. }
  unfold commit_push. rel_tac; by apply Hfin.
Qed.

(** Beginning a push opens at most the push it names, and only below the cap. *)
Definition opens (id : string) (d d' : Db) : Prop :=
  shrinks d d' \/ (count_open d < MAX_OPEN_PUSHES /\ open_ids d' ⊆ {[id]} ∪ open_ids d).
Lemma open_push_step now epoch b : rel_ok (opens (bg_push b)) (open_push now epoch b).
Proof.
  intros d. unfold open_push. unfold gets, lift. unfold mbind, M_bind.
  destruct (Z.leb_spec MAX_OPEN_PUSHES (count_open d)); [by left|].
  destruct (push_scope _ _ _); [right|by left]. split; [done|]. intros x.
  rewrite elem_of_union, elem_of_singleton, !open_ids_elem.
  cbn [fst t_pushes on_pushes modify]. intros (p & [[<- _]|[_ Hp]]%lookup_insert_Some & Ho); [by left|right; eauto].
Qed.
Lemma opens_before {A B} id (m : DoM A) (f : A -> DoM B) :
  rel_ok pushes_eq m -> (forall a, rel_ok (opens id) (f a)) -> rel_ok (opens id) (m ≫= f).
Proof.
  intros Hm Hf d. specialize (Hm d). unfold mbind, M_bind. destruct (m d) as [d1 [a|e]]; cbn [fst] in *.
  - assert (open_ids d1 = open_ids d) as E by (unfold open_ids; by rewrite Hm). specialize (Hf a d1).
    unfold opens, shrinks in *. rewrite count_open_size in *. by rewrite E in Hf.
  - left. by apply pushes_shrinks.
Qed.
Lemma opens_after {A B} id (m : DoM A) (f : A -> DoM B) :
  rel_ok (opens id) m -> (forall a, rel_ok pushes_eq (f a)) -> rel_ok (opens id) (m ≫= f).
Proof.
  intros Hm Hf d. specialize (Hm d). unfold mbind, M_bind. destruct (m d) as [d1 [a|e]]; cbn [fst] in *; [|done].
  assert (open_ids (f a d1).1 = open_ids d1) as E by (unfold open_ids; by rewrite (Hf a d1)).
  unfold opens, shrinks in *. by rewrite E.
Qed.
Lemma push_begin_step now meta b : rel_ok (opens (bg_push b)) (push_begin now meta b).
Proof.
  unfold push_begin. apply opens_before; [apply rel_ok_gets, _|intros e].
  apply opens_before; [rel_tac|intros _]. apply opens_before; [auto with git_edge|intros _].
  apply opens_before; [apply rel_ok_lift, _|intros k]. apply opens_before; [rel_tac|intros _].
  apply opens_after; [|intros; rel_tac].
  destruct e as [e|]; [|apply open_push_step]. intros d. left. repeat case_match; done.
Qed.

Lemma index_pushes now m rows : rel_ok pushes_eq (push_index now m rows).
Proof.
  assert (forall pack, rel_ok pushes_eq (insert_objects pack rows)) as Hi.
  { intros pack d. unfold insert_objects. destruct (10000 <? _); [done|].
    destruct (rel_ok_for_each (only_pack pack) rows (insert_object pack) (insert_object_only pack) d) as (_ & _ & E & _).
    exact E. }
  unfold push_index. rel_tac. intros d. unfold pushes_eq, upsert_pack.
  destruct (t_packs d !! ip_id m) as [r|]; [|done]. by destruct (_ && _).
Qed.

(** One request of the push protocol, in any order and by any client. *)
Inductive PushStep : Db -> Db -> Prop :=
| StepBegin now meta b d : PushStep d (push_begin now meta b d).1
| StepAbort id d : PushStep d (push_abort id d).1
| StepIndex now m rows d : PushStep d (push_index now m rows d).1
| StepCommit now req d : PushStep d (commit_push now req d).1.

Lemma opens_bound id d d' : opens id d d' -> count_open d <= MAX_OPEN_PUSHES -> count_open d' <= MAX_OPEN_PUSHES.
Proof.
  rewrite !count_open_size. intros [Hs|[Hlt Hs]] Hle.
  - unfold shrinks in Hs. apply subseteq_size in Hs. lia.
  - rewrite count_open_size in Hlt. apply subseteq_size in Hs.
    assert (size ({[id]} ∪ open_ids d) <= 1 + size (open_ids d))%nat; [|lia].
    rewrite size_union_alt, size_singleton. apply Nat.add_le_mono_l, subseteq_size. set_solver.
Qed.
Lemma push_step_bound d d' : PushStep d d' -> count_open d <= MAX_OPEN_PUSHES -> count_open d' <= MAX_OPEN_PUSHES.
Proof.
  intros Hs. assert (exists id, opens id d d') as [id Ho]; [|by eapply opens_bound].
  destruct Hs as [now m b d|id d|now m rows d|now req d].
  - exists (bg_push b). apply push_begin_step.
  - exists "". left. unfold push_abort. destruct id; [|done]. apply alter_shrinks. intros p.
    case_bool_decide; [by intros|done].
  - exists "". left. apply pushes_shrinks.
    apply (index_pushes now m rows d).
  - exists "". left. apply commit_shrinks.
Qed.

(** However push requests interleave, at most 64 pushes are open at once. *)
Theorem open_pushes_bounded (d d' : Db) :
  rtc PushStep d d' -> count_open d <= MAX_OPEN_PUSHES -> count_open d' <= MAX_OPEN_PUSHES.
Proof. induction 1 as [|d d1 d' Hs _ IH]; [done|]. intros Hle. apply IH. by eapply push_step_bound. Qed.

Definition creds_eq (d d' : Db) : Prop := t_pushes d' = t_pushes d /\ t_tokens d' = t_tokens d.
#[global] Instance creds_eq_preorder : PreOrder creds_eq.
Proof. split; [by intros d|]. intros d1 d2 d3 [? ?] [? ?]. split; congruence. Qed.
Lemma creds_modify f : (forall d, creds_eq d (f d)) -> rel_ok creds_eq (modify f : DoM unit).
Proof. intros Hf d. apply Hf. Qed.
Lemma rate_check_creds now key : rel_ok creds_eq (rate_check now key).
Proof. unfold rate_check. rel_tac; by apply creds_modify. Qed.
Lemma pin_creds k : rel_ok creds_eq (pin_obj_format k).
Proof. unfold pin_obj_format. rel_tac. apply creds_modify. intros d. unfold meta_insert_ignore. by case_match. Qed.

(** What a begin grants: a new push row records the scope of the credential that
    was presented, and only a global admin or an unexpired write token with a
    nonblank scope gets one; the repository was below the pack cap. *)
Theorem push_begin_grants (now : Z) (meta : Meta) (b : BeginDto) (d d' : Db) (r : BeginResp) :
  push_begin now meta b d = (d', Ok r) -> t_pushes d !! bg_push b = None ->
  exists scope, t_pushes d' = <[bg_push b := mkPush POpen None (bg_principal b) now None (m_gc_epoch meta)
                    None None (Some scope) (Some (auth_of b))]> (t_pushes d)
  /\ at_pack_cap d = false /\ count_open d < MAX_OPEN_PUSHES
  /\ (if bg_admin b then scope = ALL_REFS
      else exists t, live_token d now (bg_key b) = Some t /\ tk_level t = "write"
           /\ nonblank (tk_scope t) = Some scope).
Proof.
  unfold push_begin. intros (e & d0 & [= <- <-] & Hr)%bind_ok Hn. rewrite Hn in Hr.
  apply bind_ok in Hr as (u & d1 & Ha & Hr). unfold is_some, admit_pack in Ha. injection Ha as <- Ha.
  destruct (at_pack_cap d) eqn:Ecap; [done|].
  apply bind_ok in Hr as (u1 & d2 & Hrate & Hr). apply bind_ok in Hr as (k & d3 & [= <- _] & Hr).
  apply bind_ok in Hr as (u2 & d4 & Hpin & Hr). apply bind_ok in Hr as (u3 & d5 & Ho & Hr).
  apply bind_ok in Hr as (c & d6 & [= <- _] & Hr). injection Hr as <- _.
  assert (creds_eq d d4) as [Hp Ht].
  { transitivity d2; [assert (Hc := rate_check_creds now (bg_key b) d); by rewrite Hrate in Hc|].
    destruct k as [k|]; [assert (Hc := pin_creds k d2); by rewrite Hpin in Hc|by injection Hpin as <-]. }
  assert (count_open d4 = count_open d) as Hco by (unfold count_open; by rewrite Hp).
  assert (forall h, live_token d4 now h = live_token d now h) as Htk by (intros; unfold live_token; by rewrite Ht).
  revert Ho. unfold open_push. unfold gets, lift, modify. unfold mbind, M_bind. cbv beta iota.
  rewrite Hco.
  destruct (Z.leb_spec MAX_OPEN_PUSHES (count_open d)); [done|].
  destruct (push_scope _ _ _) as [scope|] eqn:Es; [|done]. intros [= <-]. rewrite Htk in Es. exists scope.
  cbn [t_pushes on_pushes]. rewrite Hp. do 3 (split; [done|]). unfold push_scope in Es.
  destruct (bg_admin b); [by simplify_eq|]. simpl in Es. destruct (str_empty (bg_key b)); [done|]. simpl in Es.
  destruct (live_token d now (bg_key b)) as [t|]; [|done]. simpl in Es. exists t.
  destruct (String.eqb_spec (tk_level t) "write"); [|done]. simpl in Es.
  destruct (nonblank (tk_scope t)) as [x|]; [|done]. injection Es as ->. done.
Qed.
End Bound.

(** ** The throttle *)

Section Rate.
Context `{Platform}.

(** The throttle counts the attempt before it judges it, forgets only this
    credential's windows older than the previous minute, leaves every other
    credential's counters alone, and a refusal asks for 1 to 60 seconds. *)
Theorem rate_check_counts (now : Z) (key : string) (d : Db) :
  0 < env_i64 "GE_RATE_PUSHES_PER_MIN" DEFAULT_PUSHES_PER_MIN ->
  let run := rate_check now key d in
  let bucket := "push:" +:+ key in
  let win := now / 60000 in
  (forall b w, t_rate run.1 !! (b, w)
     = if String.eqb b bucket then
         if w =? win then Some (rate_count d bucket win + 1)
         else if w <? win - 1 then None else t_rate d !! (b, w)
       else t_rate d !! (b, w))
  /\ (run.2 = Ok tt \/ exists s, run.2 = Err (RateLimit s) /\ 1 <= s <= 60).
Proof.
  intros Hl run bucket win. subst run. unfold rate_check. destruct (Z.leb_spec (env_i64 "GE_RATE_PUSHES_PER_MIN" DEFAULT_PUSHES_PER_MIN) 0); [lia|].
  fold bucket win. unfold modify, gets. unfold mbind, M_bind. cbv beta iota.
  set (d1 := on_rate _ (on_rate _ d)).
  assert (forall b w, t_rate d1 !! (b, w)
     = if String.eqb b bucket then
         if w =? win then Some (rate_count d bucket win + 1)
         else if w <? win - 1 then None else t_rate d !! (b, w)
       else t_rate d !! (b, w)) as Hlk.
  { intros b w. unfold d1. cbn [t_rate on_rate]. rewrite map_lookup_filter.
    destruct (String.eqb_spec b bucket) as [->|Hb].
    - destruct (Z.eqb_spec w win) as [->|Hw].
      + rewrite lookup_insert_eq. simpl. rewrite String.eqb_refl.
        destruct (Z.ltb_spec win (win - 1)); [lia|]. done.
      + rewrite lookup_insert_ne by congruence. destruct (t_rate d !! (bucket, w)); simpl; [|by case_match].
        rewrite String.eqb_refl. by destruct (w <? win - 1).
    - rewrite lookup_insert_ne by congruence. apply String.eqb_neq in Hb.
      destruct (t_rate d !! (b, w)); simpl; [|done]. by rewrite Hb. }
  assert (1 <= Z.max 1 ((60000 - now mod 60000) / 1000) <= 60) as Hs.
  { assert (Hm := Z.mod_pos_bound now 60000 ltac:(lia)).
    assert ((60000 - now mod 60000) / 1000 <= 60); [|lia]. apply Z.div_le_upper_bound; lia. }
  destruct (over_limit _ _ _ _); (split; [exact Hlk|]); [right; eauto|by left].
Qed.
End Rate.

(** ** Concrete runs *)

Module PushDemo.
#[local] Existing Instance demo_platform.
Definition A : string := "aaaaaaaaaaaaaaaaaaaaaaaaaaaaaaaaaaaaaaaa".
Definition B : string := "bbbbbbbbbbbbbbbbbbbbbbbbbbbbbbbbbbbbbbbb".
Definition zero : string := "0000000000000000000000000000000000000000".
Definition hash : string := "cccccccccccccccccccccccccccccccccccccccc".
Definition token : TokenSql := mkToken hash "write" "ci" 0 (Some "refs/heads/*") None.
(** A fresh repository with one write token. *)
Definition d0 : Db :=
  on_tokens (insert "t1" token)
    (on_meta (fun _ => {["refs_version" := "0"; "gc_epoch" := "0"; "head" := "refs/heads/main";
                         "repo_id" := "r1"; "owner" := "o"; "repo" := "r"]}) empty_db).
Definition meta0 : Meta := mkMeta "r1" "o" "r" "refs/heads/main" 0 0 false.
Definition begin_req : BeginDto := mkBegin "p1" "ci" hash (Some "sha1") false.
Definition d1 : Db := (push_begin 1000 meta0 begin_req d0).1.
Definition pack : IndexPack := mkIndexPack "K1" 1 100 0 0 "p1".
Definition rows : list ObjRow := [mkObjRow A 0 12 30 Commit 200 (Some [])].
Definition d2 : Db := (push_index 1100 pack rows d1).1.
Definition create (name : string) : CmdDto := mkCmdDto zero A name None.
Definition req : CommitRequest := mkCommit "p1" (Some "K1") "ci" [create "refs/heads/main"; create "refs/tags/v1"] false.
Definition d3 : Db := (commit_push 1200 req d2).1.
Definition results : Results := [("refs/heads/main", None); ("refs/tags/v1", Some "ref outside token scope")].

Lemma begin_ok : push_begin 1000 meta0 begin_req d0 = (d1, Ok (mkBeginResp "r1" 0 0 false)).
Proof. vm_compute. reflexivity. Qed.
Lemma commit_ok : commit_push 1200 req d2 = (d3, Ok results).
Proof. vm_compute. reflexivity. Qed.

(** The same push as --atomic, and one that names a ref twice. *)
Definition atomic_req : CommitRequest := mkCommit "p1" (Some "K1") "ci" [create "refs/heads/main"; create "refs/heads/dev"] true.
Definition d4 : Db := (commit_push 1200 atomic_req d2).1.
Lemma atomic_ok : commit_push 1200 atomic_req d2 = (d4, Ok [("refs/heads/main", None); ("refs/heads/dev", None)]).
Proof. vm_compute. reflexivity. Qed.
Definition twice_req : CommitRequest := mkCommit "p1" (Some "K1") "ci" [create "refs/heads/main"; create "refs/heads/main"] true.
End PushDemo.

Section Twice.
Context {PF : Platform} (hooks_off : hooks_enabled = false).
Lemma verdict_cas d head scopes c : verdict d head scopes c = Ok None -> cas d c = true /\ is_null (c_old c) && is_null (c_new c) = false.
Proof.
  unfold verdict. destruct (gate d head scopes c) eqn:Eg; [done|]. destruct (target_gate d c) as [[why|]|e]; [done| |done].
  destruct (cas d c); [|done]. intros _. split; [done|]. apply (gate_none _ _ _ _ Eg).
Qed.
(** A landing that changes the ref makes any other command for it fail its
    compare-and-swap. *)
Lemma landed_cas push who now barrier x y d : c_name y = c_name x -> c_old x <> c_new x -> cas d x = true -> cas d y = true ->
  is_null (c_old x) && is_null (c_new x) = false -> cas (landed push who now barrier x d) y = false.
Proof.
  unfold cas, ref_cas_ok. intros En Hne. rewrite En, landed_refs. unfold land_ref.
  destruct (t_refs d !! c_name x) as [r|]; destruct (is_null (c_old x)) eqn:Ex, (is_null (c_old y)) eqn:Ey; try done; intros Hx Hy Hn.
  - apply String.eqb_eq in Hx, Hy. destruct (is_null (c_new x)); [by rewrite lookup_delete_eq|]. rewrite lookup_insert_eq. cbn. apply String.eqb_neq. congruence.
  - cbn in Hn. by rewrite Hn, lookup_insert_eq.
Qed.
Lemma twice_run head push who now barrier scopes x y d d' rs : c_name y = c_name x -> c_old x <> c_new x ->
  Forall (fun c => verdict d head scopes c = Ok None) [x; y] ->
  run_cmds [x; y] (fun c => apply_one head c push who now true barrier scopes) d = (d', Ok rs) ->
  d' = landed push who now barrier x d /\ exists why, rs = [(c_name x, None); (c_name x, Some why)].
Proof.
  intros En Hne [Vx [Vy _]%Forall_cons]%Forall_cons. destruct (verdict_cas _ _ _ _ Vx) as [Cx Nx]. destruct (verdict_cas _ _ _ _ Vy) as [Cy _].
  pose proof (landed_cas push who now barrier x y d En Hne Cx Cy Nx) as Hc. cbn [run_cmds]. unfold mbind, M_bind. rewrite apply_one_run, Vx by done. cbn [fst snd].
  rewrite apply_one_run by done. assert (verdict (landed push who now barrier x d) head scopes y <> Ok None) as Hv.
  { intros Hv%verdict_cas. destruct Hv. congruence. }
  destruct (verdict (landed push who now barrier x d) head scopes y) as [[why|]|e]; [|done|done]. cbn. intros [= <- <-]. split; [done|]. exists why. by rewrite En.
Qed.
End Twice.

(** C34: An --atomic push that names a ref twice is never applied whole.  Its dry run
    checks each command against the state before the push alone: so of two commands
    for one ref, the first of which changes it, either every one is refused or the
    first lands, the second is refused, and the push is recorded as committed; the
    comment says that any failure rejects the whole push. *)
Theorem atomic_duplicate_partial {PF : Platform} (now : Z) (req : CommitRequest) (x y : CmdDto) (d d' : Db) (rs : Results) :
  hooks_enabled = false -> commit_push now req d = (d', Ok rs) -> cr_atomic req = true -> cr_cmds req = [x; y] -> cd_name y = cd_name x ->
  oid (cd_old x) <> oid (cd_new x) ->
  forallb is_reject rs = true
  \/ ((exists why, rs = [(cd_name x, None); (cd_name x, Some why)])
      /\ (exists new, oid (cd_new x) = Ok new
          /\ t_refs d' !! cd_name x = if is_null new then None else Some (mkRef new (cd_peeled x) now))
      /\ exists p, t_pushes d' !! cr_push req = Some p /\ ps_state p = PCommitted).
Proof.
  intros Hh Hr Ha Hxy En Hne. apply commit_inv in Hr as (cmds & p & Hcmds & Hp & _ & Hrun); [|done].
  destruct Hrun as [(d1 & _ & _ & Hrej)|(cur & b & h & d1 & d2 & d3 & _ & Hf & _ & _ & [Hv Hrun] & Hq & -> & _)]; [by left|right].
  rewrite Hxy in Hcmds. cbn [collect] in Hcmds. unfold mbind, result_bind in Hcmds. unfold to_cmd, mbind, result_bind in Hcmds.
  destruct (oid (cd_old x)) as [ox|]; [|done]. destruct (oid (cd_new x)) as [nx|]; [|done]. destruct (oid (cd_old y)) as [oy|]; [|done]. destruct (oid (cd_new y)) as [ny|]; [|done].
  injection Hcmds as <-. specialize (Hv Ha). pose proof Hrun as Hrun2. apply run_cmds_landed in Hrun2 as ([Hf2 _] & _); [|done].
  apply (twice_run Hh) in Hrun as [-> [why ->]]; [|done|cbn; congruence|done]. cbn [c_name]. split; [by exists why|]. split.
  - exists nx. split; [done|]. destruct Hq as (_ & Hqr & _). unfold refs_eq in Hqr. unfold close. cbn [t_refs on_pushes]. rewrite Hqr, landed_refs. unfold land_ref. cbn [c_new c_name c_peeled].
    destruct (is_null nx); [by rewrite lookup_delete_eq|by rewrite lookup_insert_eq].
  - eexists (close_row req PCommitted now _ p). split; [|reflexivity]. apply close_pushes. rewrite (fr_pushes _ _ (proj1 Hq)), (fr_pushes _ _ Hf2), (fr_pushes _ _ Hf). exact Hp.
Qed.

Lemma demo_hooks_off : @hooks_enabled demo_platform = false.
Proof. reflexivity. Qed.
Lemma atomic_duplicate_partial_witness :
  let run := @commit_push demo_platform 1200 PushDemo.twice_req PushDemo.d2 in
  exists why, run.2 = Ok [("refs/heads/main", None); ("refs/heads/main", Some why)]
  /\ (exists new, t_refs run.1 !! "refs/heads/main" = if is_null new then None else Some (mkRef new None 1200))
  /\ exists p, t_pushes run.1 !! "p1" = Some p /\ ps_state p = PCommitted.
Proof.
  set (run := @commit_push demo_platform 1200 PushDemo.twice_req PushDemo.d2). cbv zeta.
  assert (run = (run.1, Ok [("refs/heads/main", None); ("refs/heads/main", Some "failed to update ref")])) as E by (vm_compute; reflexivity).
  assert (@oid demo_platform PushDemo.zero <> @oid demo_platform PushDemo.A) as Hne.
  { intros H. apply (f_equal (fun r => match r with Ok o => is_null o | Err _ => true end)) in H. vm_compute in H. discriminate H. }
  pose proof (@atomic_duplicate_partial demo_platform 1200 PushDemo.twice_req (PushDemo.create "refs/heads/main") (PushDemo.create "refs/heads/main") PushDemo.d2
    run.1 [("refs/heads/main", None); ("refs/heads/main", Some "failed to update ref")] demo_hooks_off E eq_refl eq_refl eq_refl Hne) as H.
  clearbody run. destruct H as [H|([why Hw] & (new & _ & Hn) & Hp)]; [discriminate H|].
  exists why. split; [rewrite E; cbn [snd]; f_equal; exact Hw|]. split; [exists new; exact Hn|exact Hp].
Defined.
Definition demo_cmd : Cmd := mkCmd PushDemo.zero PushDemo.A "refs/heads/main" None.
(** The state of the demo push with its pack live, as its commands find it. *)
Definition demo_live : Db := (promote "K1" "p1" PushDemo.d2).1.
Lemma apply_one_refines_witness :
  t_refs (@apply_one demo_platform "refs/heads/main" demo_cmd "p1" "ci" 1200 true false [Some "refs/heads/*"] demo_live).1
  = {["refs/heads/main" := mkRef PushDemo.A None 1200]}.
Proof.
  destruct (@apply_one_refines demo_platform "refs/heads/main" demo_cmd "p1" "ci" 1200 false [Some "refs/heads/*"]
    demo_live demo_hooks_off) as (_ & _ & Hl).
  destruct Hl as [E _]; [vm_compute; reflexivity|]. rewrite E. vm_compute. reflexivity.
Defined.
Lemma landing_authorized_witness : live_sha demo_live PushDemo.A.
Proof.
  assert (@verdict demo_platform demo_live "refs/heads/main" [Some "refs/heads/*"] demo_cmd = Ok None) as Hv
    by (vm_compute; reflexivity).
  destruct (@landing_authorized demo_platform "refs/heads/main" demo_cmd [Some "refs/heads/*"] demo_live Hv)
    as (_ & _ & _ & _ & _ & _ & Hl).
  apply Hl. vm_compute. reflexivity.
Defined.
Lemma commit_once_witness : exists p', t_pushes PushDemo.d3 !! "p1" = Some p' /\ ps_result p' = Some PushDemo.results
  /\ exists e, @commit_push demo_platform 1300 PushDemo.req PushDemo.d3 = (PushDemo.d3, Err (Conflict e)).
Proof.
  destruct (@commit_once demo_platform demo_hooks_off 1200 PushDemo.req _ _ _ PushDemo.commit_ok)
    as (p & p' & _ & _ & Hp' & _ & Hr & _ & _ & Hagain).
  exists p'. split; [exact Hp'|]. split; [exact Hr|]. eapply Hagain; [reflexivity|]. vm_compute. reflexivity.
Defined.
Lemma commit_changes_authorized_witness : @scope_allows (Some "refs/heads/*") "refs/heads/main" = true
  /\ t_pins PushDemo.d2 !! "refs/heads/main" = None.
Proof.
  destruct (@commit_changes_authorized demo_platform demo_hooks_off 1200 PushDemo.req PushDemo.d2 PushDemo.d3
    PushDemo.results "refs/heads/main" PushDemo.commit_ok) as (p & cur & Hp & _ & Hs & _ & Hpin & _).
  - vm_compute. discriminate.
  - split; [|exact Hpin]. assert (ps_scope <$> Some p = Some (Some "refs/heads/*")) as E
      by (rewrite <- Hp; vm_compute; reflexivity).
    injection E as E. rewrite E in Hs. exact Hs.
Defined.
Lemma commit_bumps_version_witness : version PushDemo.d2 < version PushDemo.d3.
Proof.
  refine (proj2 (@commit_bumps_version demo_platform demo_hooks_off 1200 PushDemo.req _ _ _ PushDemo.commit_ok _) _).
  - apply (bool_decide_unpack _). vm_compute. exact I.
  - intros E. assert (size (t_refs PushDemo.d3) = size (t_refs PushDemo.d2)) as Es by (by rewrite E).
    vm_compute in Es. discriminate Es.
Defined.
Lemma atomic_all_or_nothing_witness :
  Forall (fun r : string * option string => r.2 = None) [("refs/heads/main", None); ("refs/heads/dev", None)].
Proof.
  destruct (@atomic_all_or_nothing demo_platform demo_hooks_off 1200 PushDemo.atomic_req _ _ _ PushDemo.atomic_ok)
    as [Hall|[Hrej _]].
  - reflexivity.
  - apply (bool_decide_unpack _). vm_compute. exact I.
  - vm_compute. discriminate.
  - exact Hall.
  - apply Forall_cons in Hrej as [Hr _]. discriminate Hr.
Defined.
Lemma commit_within_quota_witness : pack_live PushDemo.d3 "K1" = true
  /\ sum_packs pk_count live_pack_row PushDemo.d3 <= 2000000.
Proof.
  destruct (@commit_within_quota demo_platform demo_hooks_off 1200 PushDemo.req _ _ _ "K1"
    (mkPush PCommitted (Some "K1") "ci" 1000 (Some 1200) 0 (Some PushDemo.results) None (Some "refs/heads/*")
       (Some PushDemo.hash)) PushDemo.commit_ok) as (Hl & Hq & _).
  - reflexivity.
  - vm_compute. reflexivity.
  - reflexivity.
  - assert (t_packs PushDemo.d2 = {["K1" := mkPack Ingesting 1 100 0 0 (Some "p1") 1100 None]}) as ->
      by (vm_compute; reflexivity).
    intros i r [_ <-]%lookup_singleton_Some. simpl. lia.
  - split; [exact Hl|]. apply Hq. vm_compute. reflexivity.
Defined.
Lemma pin_obj_format_cas_witness :
  @obj_kind (@pin_obj_format Sha256 empty_db).1 = Sha256.
Proof.
  destruct (@pin_obj_format_cas Sha256 empty_db) as (_ & Hp & _); [left|].
  apply Hp. vm_compute. reflexivity.
Defined.
Lemma open_pushes_bounded_witness : count_open PushDemo.d3 <= MAX_OPEN_PUSHES.
Proof.
  apply (@open_pushes_bounded demo_platform PushDemo.d0 PushDemo.d3).
  - eapply rtc_l; [apply (@StepBegin demo_platform 1000 PushDemo.meta0 PushDemo.begin_req)|].
    eapply rtc_l; [apply (@StepIndex demo_platform 1100 PushDemo.pack PushDemo.rows)|].
    eapply rtc_l; [apply (@StepCommit demo_platform 1200 PushDemo.req)|]. reflexivity.
  - vm_compute. discriminate.
Defined.
Lemma push_begin_grants_witness : exists t,
  @live_token PushDemo.d0 1000 PushDemo.hash = Some t /\ tk_level t = "write".
Proof.
  destruct (@push_begin_grants demo_platform 1000 PushDemo.meta0 PushDemo.begin_req _ _ _ PushDemo.begin_ok)
    as (scope & _ & _ & _ & t & Ht & Hw & _); [vm_compute; reflexivity|].
  exists t. by split.
Defined.
Lemma rate_check_counts_witness :
  t_rate (@rate_check demo_platform 1000 "k" empty_db).1 !! ("push:k", 0) = Some 1.
Proof.
  destruct (@rate_check_counts demo_platform 1000 "k" empty_db) as [Hc _]; [vm_compute; reflexivity|].
  rewrite Hc. vm_compute. reflexivity.
Defined.
