(* ===== verification/Admin.v ===== *)
(** * Administration of a repository

    The token, pin, protection, visibility, format, tombstone and boot handlers
    of [server/src/repo_do/mod.rs], and the per-owner registry's claim counter.
    A handler's JSON answer is a record; [hex16]'s random strings are
    arguments. *)
From S2P Require Import Prelude Errors Db Scope Jobs GcBase Refs Push PushFacts.
Open Scope Z_scope.

Definition MAX_TOKENS : Z := 256.
Definition MAX_PINS : Z := 256.
Definition MAX_PROTECTED : Z := 64.
Definition DEFAULT_MAX_REPOS_PER_OWNER : Z := 50.

Record NewToken : Type := mkNewToken {
  nt_name : string; nt_level : string; nt_scope : option string; nt_ttl : option Z }.
Record AuthResp : Type := mkAuth {
  au_level : string; au_name : string; au_scope : option string; au_expires : option Z }.
Record TokenResp : Type := mkTokenResp {
  tr_id : string; tr_token : string; tr_level : string; tr_name : string; tr_scope : string;
  tr_expires : option Z }.
Record RepoHeaders : Type := mkHeaders { h_owner : option string; h_repo : option string }.

Section Admin.
Context `{Platform}.

(** ** Tokens *)

Definition auth_lookup (now : Z) (hash : string) : DoM AuthResp := fun d =>
  (d, match live_token d now hash with
      | Some t => Ok (mkAuth (tk_level t) (tk_name t) (tk_scope t) (tk_expires t))
      | None => Err Auth
      end).
Definition token_create (now : Z) (r1 r2 r3 : string) (b : NewToken) : DoM TokenResp :=
  if negb (String.eqb (nt_level b) "read" || String.eqb (nt_level b) "write")
  then fail (Protocol "level must be read or write")
  else if str_empty (nt_name b) || (128 <? str_len (nt_name b))
  then fail (Protocol "name must be 1-128 bytes")
  else
    scope ← lift (mint_scope (nt_scope b));
    expires ← lift (mint_expiry (nt_ttl b) now);
    n ← gets (fun d => Z.of_nat (size (t_tokens d)));
    if MAX_TOKENS <=? n then fail (Limit "too many tokens (256 max)")
    else
      let token := "ge_" +:+ r1 +:+ r2 in
      old ← gets (fun d => t_tokens d !! r3);
      if is_some old then fail (Storage "UNIQUE constraint failed: tokens.id")
      else
        modify (on_tokens (insert r3 (mkToken (token_hash token) (nt_level b) (nt_name b) now (Some scope) expires))) ≫= fun _ =>
        mret (mkTokenResp r3 token (nt_level b) (nt_name b) scope expires).
(** [GET /_do/tokens]: id, name, level, created_at, scope and expiry — never the hash. *)
Definition TokenView : Type := string * string * string * Z * option string * option Z.
Definition created_le (a b : string * TokenSql) : Prop := tk_created a.2 <= tk_created b.2.
#[global] Instance created_le_dec : RelDecision created_le.
Proof. intros a b. unfold created_le. apply _. Defined.
Definition token_view (kv : string * TokenSql) : TokenView :=
  (kv.1, tk_name kv.2, tk_level kv.2, tk_created kv.2, tk_scope kv.2, tk_expires kv.2).
Definition token_list : DoM (list TokenView) :=
  gets (fun d => map token_view (merge_sort created_le (map_to_list (t_tokens d)))).
Definition token_revoke (id : string) : DoM bool := fun d =>
  (on_tokens (delete id) d, Ok (is_some (t_tokens d !! id))).

(** ** Tombstone, visibility, format *)

Definition delete_repo (now : Z) : DoM unit :=
  put "deleted" (z_to_string now) ≫= fun _ => enqueue PurgeRepo now "{}".
Definition set_public (enabled : option bool) : DoM bool :=
  match enabled with
  | Some true => put "public" "1"
  | Some false => modify (meta_delete "public")
  | None => mret tt
  end ≫= fun _ => gets (fun d => is_some (t_meta d !! "public")).
Definition set_format (object_format : option string) : DoM (string * bool) :=
  kind ← lift (parse_kind object_format);
  match kind with
  | None => fail (Protocol "object_format required")
  | Some k => pin_obj_format k ≫= fun _ => gets (fun d => (kind_name (obj_kind d), obj_format_pinned d))
  end.

(** ** Pins and protection *)

Definition check_ref (name : string) : result Error string :=
  if valid_ref name then Ok name else Err (Protocol "bad ref name").
Definition pin (now : Z) (name sha : string) : DoM (string * string) :=
  name ← lift (check_ref name);
  target ← lift (oid sha);
  if is_null target then fail (Protocol "pin sha must be non-zero")
  else
    cur ← gets (fun d => rf_target <$> t_refs d !! name);
    if negb (bool_decide (cur = Some target)) then fail (Conflict (name +:+ " is not at " +:+ target))
    else
      n ← gets (fun d => Z.of_nat (size (delete name (t_pins d))));
      if MAX_PINS <=? n then fail (Limit "too many pins (256 max)")
      else
        modify (on_pins (fun m => insert name
          (mkPin target (match m !! name with Some p => pin_created p | None => now end)) m)) ≫= fun _ =>
        mret (name, target).
Definition unpin (name : string) : DoM bool :=
  name ← lift (check_ref name);
  (fun d => (on_pins (delete name) d, Ok (is_some (t_pins d !! name)))) : DoM bool.
Definition protect (now : Z) (pattern : string) : DoM string :=
  let p := trim pattern in
  if (256 <? str_len p) || negb (scope_pattern_ok p)
  then fail (Protocol ("ref must be a refs/" +:+ bytes [226; 128; 166]%nat +:+ " pattern (trailing * only)"))
  else
    n ← gets (fun d => Z.of_nat (size (delete p (t_protected d))));
    if MAX_PROTECTED <=? n then fail (Limit "too many protected patterns (64 max)")
    else
      modify (on_protected (fun m => match m !! p with Some _ => m | None => insert p now m end)) ≫= fun _ =>
      mret p.
Definition unprotect (pattern : string) : DoM bool := fun d =>
  (on_protected (delete (trim pattern)) d, Ok (is_some (t_protected d !! trim pattern))).

(** ** The owner registry *)

Definition is_claim_key (k : string) : bool := starts_with "claim:" (str_map to_lower k).
Definition count_claims (d : Db) : Z :=
  Z.of_nat (length (List.filter (fun kv => is_claim_key kv.1) (map_to_list (t_meta d)))).
(** The answer is (repos, cap); a cap of 0 or less answers (0, 0) without counting. *)
Definition owner_claim (now : Z) (owner repo : string) : DoM (Z * Z) :=
  let cap := env_i64 "GE_QUOTA_MAX_REPOS_PER_OWNER" DEFAULT_MAX_REPOS_PER_OWNER in
  if cap <=? 0 then mret (0, 0)
  else
    let key := "claim:" +:+ repo in
    had ← gets (fun d => is_some (t_meta d !! key));
    modify (meta_insert_ignore key (z_to_string now)) ≫= fun _ =>
    n ← gets count_claims;
    if negb had && (cap <? n) then
      modify (meta_delete key) ≫= fun _ =>
      fail (Limit ("owner " +:+ owner +:+ " has " +:+ z_to_string n
                   +:+ " repos, over GE_QUOTA_MAX_REPOS_PER_OWNER=" +:+ z_to_string cap))
    else mret (n, cap).
Definition owner_release (repo : string) : DoM bool := fun d =>
  (meta_delete ("claim:" +:+ repo) d, Ok (is_some (t_meta d !! ("claim:" +:+ repo)))).
Definition owner_route (now : Z) (hdr : RepoHeaders) (meth path : string) : DoM (Z * Z + bool) :=
  match h_owner hdr, h_repo hdr with
  | Some owner, Some repo =>
      if String.eqb meth "POST" && String.eqb path "/_owner/claim" then r ← owner_claim now owner repo; mret (inl r)
      else if String.eqb meth "POST" && String.eqb path "/_owner/release" then r ← owner_release repo; mret (inr r)
      else fail NotFound
  | _, _ => fail (Internal "owner route without identity")
  end.

(** ** Boot *)

Definition boot_keys (hex owner repo : string) (now : Z) : list (string * string) :=
  [("repo_id", hex); ("owner", owner); ("repo", repo); ("head", "refs/heads/main");
   ("refs_version", "0"); ("gc_epoch", "0"); ("created_at", z_to_string now); ("schema_version", "1")].
Definition read_meta (repo_id : string) : DoM Meta := fun d =>
  let need k := of_option (Internal ("meta." +:+ k +:+ " missing")) (t_meta d !! k) in
  let num k := v ← need k; of_option (Internal ("meta." +:+ k)) (parse_i64 v) in
  (d, owner ← need "owner"; repo ← need "repo"; head ← need "head";
      rv ← num "refs_version"; ge ← num "gc_epoch";
      Ok (mkMeta repo_id owner repo head rv ge (is_some (t_meta d !! "deleted")))).
Definition create_meta (now : Z) (hex owner repo : string) : DoM Meta :=
  modify (fun d => fold_left (fun d kv => meta_insert_ignore kv.1 kv.2 d) (boot_keys hex owner repo now) d) ≫= fun _ =>
  enqueue Janitor now "{}" ≫= fun _ =>
  mret (mkMeta hex owner repo "refs/heads/main" 0 0 false).
Definition stranded_purge (now : Z) (r : JobSql) : bool :=
  is_kind PurgeRepo r && in_state Running r
  && match jb_started r with Some s => s <? sat_sub64 now 60000 | None => false end.
Definition requeue_purge (now : Z) (r : JobSql) : JobSql :=
  mkJob (jb_id r) (jb_kind r) now (jb_attempts r + 1) (jb_cursor r) (jb_payload r) Queued
    (Some "stranded mid-slice") (jb_started r) (jb_lease r) (jb_strands r).
Definition boot_deleted (now : Z) : DoM unit :=
  modify (update_jobs (stranded_purge now) (requeue_purge now)) ≫= fun _ =>
  n ← gets (count_jobs (fun r => is_kind PurgeRepo r && active r));
  if n =? 0 then enqueue PurgeRepo now "{}" else mret tt.
Definition boot (now : Z) (hex : string) (hdr : RepoHeaders) : DoM Meta :=
  rid ← meta_opt "repo_id";
  match rid with
  | Some repo_id => read_meta repo_id
  | None => match h_owner hdr, h_repo hdr with
            | Some owner, Some repo => create_meta now hex owner repo
            | _, _ => fail (Internal "boot without headers")
            end
  end ≫= fun meta =>
  (if m_deleted meta then boot_deleted now else modify (repair now)) ≫= fun _ =>
  match h_owner hdr, h_repo hdr with
  | Some o, Some r => if String.eqb o (m_owner meta) && String.eqb r (m_repo meta) then mret meta
                      else fail (Internal "identity mismatch")
  | _, _ => mret meta
  end.
End Admin.

(** ** Tokens: mint, present, revoke *)

Section Tokens.
Context `{Platform}.

Lemma live_token_unique d now h id t :
  t_tokens d !! id = Some t -> tk_hash t = h ->
  (forall id' t', t_tokens d !! id' = Some t' -> tk_hash t' = h -> id' = id) ->
  live_token d now h = if token_live (tk_expires t) now then Some t else None.
Proof.
  intros Ht Hh Hu. unfold live_token.
  assert (List.filter (fun kv => String.eqb (tk_hash kv.2) h) (map_to_list (t_tokens d)) ≡ₚ [(id, t)]) as Hp.
  { apply NoDup_Permutation; [apply NoDup_filter_b, NoDup_map_to_list|apply NoDup_singleton|].
    intros [id' t']. rewrite elem_of_filter_b, elem_of_map_to_list, list_elem_of_singleton. simpl. split.
    - intros [Hl Heq]. bsimp. assert (id' = id) as -> by eauto. congruence.
    - intros [= -> ->]. split; [done|]. by apply String.eqb_eq. }
  rewrite <- (merge_sort_Permutation key_le) in Hp. apply Permutation_singleton_r in Hp. by rewrite Hp.
Qed.
Lemma live_token_none d now h :
  (forall id t, t_tokens d !! id = Some t -> tk_hash t <> h) -> live_token d now h = None.
Proof.
  intros Hn. unfold live_token. rewrite filter_false; [done|].
  intros [id t] Ht%elem_of_map_to_list. simpl. apply String.eqb_neq. eauto.
Qed.
Lemma token_create_run now r1 r2 r3 b d d' t :
  token_create now r1 r2 r3 b d = (d', Ok t) ->
  d' = on_tokens (insert r3 (mkToken (token_hash (tr_token t)) (tr_level t) (tr_name t) now (Some (tr_scope t)) (tr_expires t))) d
  /\ tr_id t = r3 /\ t_tokens d !! r3 = None /\ Z.of_nat (size (t_tokens d)) < MAX_TOKENS
  /\ tr_token t = "ge_" +:+ r1 +:+ r2.
Proof.
  unfold token_create. destruct (negb _); [done|]. destruct (_ || _); [done|].
  unfold lift, gets, modify. unfold mbind, M_bind. cbv beta iota.
  destruct (mint_scope (nt_scope b)) as [scope|]; [|done]. destruct (mint_expiry (nt_ttl b) now) as [ex|]; [|done].
  destruct (Z.leb_spec MAX_TOKENS (Z.of_nat (size (t_tokens d)))); [done|].
  destruct (t_tokens d !! r3) eqn:E; [done|]. simpl. intros [= <- <-]. done.
Qed.

Definition fresh_hash (d : Db) (h : string) : Prop := forall id x, t_tokens d !! id = Some x -> tk_hash x <> h.
Lemma minted_lookup now now2 r1 r2 r3 b d d' t : token_create now r1 r2 r3 b d = (d', Ok t) ->
  fresh_hash d (token_hash (tr_token t)) ->
  (auth_lookup now2 (token_hash (tr_token t)) d').2
    = (if token_live (tr_expires t) now2
       then Ok (mkAuth (tr_level t) (tr_name t) (Some (tr_scope t)) (tr_expires t)) else Err Auth).
Proof.
  intros Hr Hf. apply token_create_run in Hr as (-> & Hid & Hn & _ & _). subst r3.
  set (x := mkToken _ _ _ _ _ _). unfold auth_lookup. cbn [fst snd t_tokens on_tokens].
  rewrite (live_token_unique _ now2 (token_hash (tr_token t)) (tr_id t) x);
    [simpl; by destruct (token_live (tr_expires t) now2)|apply lookup_insert_eq|done|].
  cbn [t_tokens on_tokens]. intros id' t' [[<- _]|[_ Hl]]%lookup_insert_Some Hh; [done|]. by apply Hf in Hl.
Qed.

(** A minted token authenticates with exactly the level, name, scope and expiry
    it was minted with, for as long as it is unexpired and not a moment longer;
    revoking its id ends it at once; and minting changes no other credential. *)
Theorem token_lifecycle (now now2 : Z) (r1 r2 r3 : string) (b : NewToken) (d d' : Db) (t : TokenResp) :
  token_create now r1 r2 r3 b d = (d', Ok t) ->
  fresh_hash d (token_hash (tr_token t)) ->
  let h := token_hash (tr_token t) in
  (auth_lookup now2 h d').2
    = (if token_live (tr_expires t) now2
       then Ok (mkAuth (tr_level t) (tr_name t) (Some (tr_scope t)) (tr_expires t)) else Err Auth)
  /\ (auth_lookup now2 h (token_revoke (tr_id t) d').1).2 = Err Auth
  /\ t_tokens (token_revoke (tr_id t) d').1 = t_tokens d.
Proof.
  intros Hr Hf h. split; [by eapply minted_lookup|]. apply token_create_run in Hr as (-> & Hid & Hn & _ & _). subst r3.
  assert (t_tokens (token_revoke (tr_id t) (on_tokens (insert (tr_id t) (mkToken h (tr_level t) (tr_name t) now
    (Some (tr_scope t)) (tr_expires t))) d)).1 = t_tokens d) as Hd by by apply delete_insert_id.
  split; [|exact Hd]. unfold auth_lookup. cbn [snd]. rewrite live_token_none; [done|]. intros id x Hx. apply (Hf id x). rewrite <- Hd. exact Hx.
Qed.
End Tokens.

(** ** The caps on administrative rows *)

Definition caps_ok (d : Db) : Prop :=
  Z.of_nat (size (t_tokens d)) <= MAX_TOKENS /\ Z.of_nat (size (t_pins d)) <= MAX_PINS
  /\ Z.of_nat (size (t_protected d)) <= MAX_PROTECTED.
Lemma size_insert_delete {A} (m : gmap string A) k v : size (<[k := v]> m) = S (size (delete k m)).
Proof. rewrite <- insert_delete_eq, map_size_insert_None; [done|apply lookup_delete_eq]. Qed.
Lemma size_delete_le {A} (m : gmap string A) k : (size (delete k m) <= size m)%nat.
Proof. rewrite map_size_delete. destruct (m !! k); unfold id; lia. Qed.

Section Caps.
Context `{Platform}.

(** One administrative request. *)
Inductive AdminStep : Db -> Db -> Prop :=
| AsCreate now r1 r2 r3 b d : AdminStep d (token_create now r1 r2 r3 b d).1
| AsRevoke id d : AdminStep d (token_revoke id d).1
| AsPin now name sha d : AdminStep d (pin now name sha d).1
| AsUnpin name d : AdminStep d (unpin name d).1
| AsProtect now pat d : AdminStep d (protect now pat d).1
| AsUnprotect pat d : AdminStep d (unprotect pat d).1.

Lemma token_create_caps now r1 r2 r3 b d : caps_ok d -> caps_ok (token_create now r1 r2 r3 b d).1.
Proof.
  intros Hc. pose proof Hc as (Ht & Hp & Hr). destruct (token_create now r1 r2 r3 b d) as [d' [t|e]] eqn:E.
  - apply token_create_run in E as (-> & _ & Hn & Hlt & _). split; [|done]. cbn [fst t_tokens on_tokens].
    rewrite map_size_insert_None by done. lia.
  - revert E. unfold token_create. destruct (negb _); [by intros [= <- _]|]. destruct (_ || _); [by intros [= <- _]|].
    unfold lift, gets, modify, fail. unfold mbind, M_bind, mret, M_ret. cbv beta iota.
    repeat case_match; intros; simplify_eq; exact Hc.
Qed.
Lemma pin_caps now name sha d : caps_ok d -> caps_ok (pin now name sha d).1.
Proof.
  intros (Ht & Hp & Hr). unfold pin, lift, gets, modify. unfold mbind, M_bind. cbv beta iota.
  destruct (check_ref name) as [n|]; [|done]. destruct (oid sha) as [target|]; [|done].
  destruct (is_null target); [done|]. destruct (negb _); [done|].
  destruct (Z.leb_spec MAX_PINS (Z.of_nat (size (delete n (t_pins d))))); [done|].
  split; [done|]. split; [|done]. unfold mret, M_ret. cbn [fst t_pins on_pins]. rewrite size_insert_delete. lia.
Qed.
Lemma protect_caps now pat d : caps_ok d -> caps_ok (protect now pat d).1.
Proof.
  intros (Ht & Hp & Hr). unfold protect, gets, modify. unfold mbind, M_bind. cbv beta iota.
  destruct (_ || _); [done|]. destruct (Z.leb_spec MAX_PROTECTED (Z.of_nat (size (delete (trim pat) (t_protected d))))); [done|].
  split; [done|]. split; [done|]. unfold mret, M_ret. cbn [fst t_protected on_protected].
  destruct (t_protected d !! trim pat); [done|]. rewrite size_insert_delete. lia.
Qed.

(** Tokens, pins and protected patterns stay within their caps under every
    sequence of administrative requests. *)
Theorem admin_caps (d d' : Db) : rtc AdminStep d d' -> caps_ok d -> caps_ok d'.
Proof.
  induction 1 as [|d d1 d' Hs _ IH]; [done|]. intros Hc. apply IH. clear IH.
  destruct Hs as [| id d| |name d| |pat d]; [by apply token_create_caps| |by apply pin_caps| |by apply protect_caps|].
  - destruct Hc as (Ht & ? & ?). split; [|done]. cbn. assert (Hs := size_delete_le (t_tokens d) id). lia.
  - unfold unpin. unfold mbind, M_bind, lift. destruct (check_ref name) as [n|]; [|done].
    destruct Hc as (? & Hp & ?). split; [done|]. split; [|done]. cbn. assert (Hs := size_delete_le (t_pins d) n). lia.
  - destruct Hc as (? & ? & Hp). split; [done|]. split; [done|]. cbn.
    assert (Hs := size_delete_le (t_protected d) (trim pat)). lia.
Qed.

(** A pin asserts the present and never moves a ref: it succeeds only when the
    ref already points at the sha, which it then records. *)
Theorem pin_asserts_current (now : Z) (name sha : string) (d d' : Db) (r : string * string) :
  pin now name sha d = (d', Ok r) ->
  r.1 = name /\ oid sha = Ok r.2 /\ rf_target <$> t_refs d !! name = Some r.2
  /\ t_refs d' = t_refs d /\ pin_target <$> t_pins d' !! name = Some r.2
  /\ (forall n, n <> name -> t_pins d' !! n = t_pins d !! n).
Proof.
  unfold pin, lift, gets, modify. unfold mbind at 1, M_bind at 1. unfold check_ref.
  destruct (valid_ref name); [|done]. unfold mbind, M_bind. cbv beta iota.
  destruct (oid sha) as [target|] eqn:Eo; [|done]. destruct (is_null target); [done|].
  destruct (bool_decide _) eqn:Eb; [|done]. cbv beta iota delta [negb]. bsimp.
  destruct (MAX_PINS <=? _); [done|]. intros [= <- <-]. cbn [fst snd t_pins on_pins].
  split; [done|]. split; [done|]. split; [exact Eb|]. split; [done|].
  split; [by rewrite lookup_insert_eq|]. intros n Hn. by rewrite lookup_insert_ne.
Qed.
End Caps.

(** ** The owner registry's counter *)

Lemma count_claims_size d :
  count_claims d = Z.of_nat (size (filter (fun kv : string * string => is_claim_key kv.1 = true) (t_meta d))).
Proof.
  unfold count_claims. rewrite <- length_map_to_list. f_equal. apply Permutation_length, NoDup_Permutation.
  - apply NoDup_filter_b, NoDup_map_to_list.
  - apply NoDup_map_to_list.
  - intros [k r]. rewrite elem_of_filter_b, !elem_of_map_to_list, map_lookup_filter_Some. naive_solver.
Qed.
Lemma claim_key repo : is_claim_key ("claim:" +:+ repo) = true.
Proof. unfold is_claim_key. apply starts_with_spec. exists (str_map to_lower repo). done. Qed.
Lemma count_claims_insert repo v d : t_meta d !! ("claim:" +:+ repo) = None ->
  count_claims (on_meta (insert ("claim:" +:+ repo) v) d) = count_claims d + 1.
Proof.
  intros Hn. rewrite !count_claims_size. cbn [t_meta on_meta].
  rewrite map_filter_insert_True by apply claim_key. rewrite map_size_insert_None; [lia|].
  apply map_lookup_filter_None_2. by left.
Qed.
Lemma on_meta_undo k v d : t_meta d !! k = None -> on_meta (delete k) (on_meta (insert k v) d) = d.
Proof. intros Hn. destruct d. unfold on_meta. simpl in *. f_equal. by apply delete_insert_id. Qed.

Section Owner.
Context `{Platform}.

(** The registry admits an owner's repositories up to the cap: a repository that
    holds a slot always gets it again, a new one gets one exactly while the count
    is below the cap, a refusal leaves the registry unchanged, and the count
    never passes the cap. *)
Theorem owner_claim_spec (now : Z) (owner repo : string) (d : Db) :
  let cap := env_i64 "GE_QUOTA_MAX_REPOS_PER_OWNER" DEFAULT_MAX_REPOS_PER_OWNER in
  0 < cap -> count_claims d <= cap ->
  let key := "claim:" +:+ repo in
  let run := owner_claim now owner repo d in
  (is_ok run.2 = true <-> (is_Some (t_meta d !! key) \/ count_claims d < cap))
  /\ (is_ok run.2 = true -> is_Some (t_meta run.1 !! key))
  /\ (is_ok run.2 = false -> run.1 = d)
  /\ count_claims run.1 <= cap.
Proof.
  intros cap Hcap Hle key run. subst run. unfold owner_claim. fold cap key.
  destruct (Z.leb_spec cap 0); [lia|]. unfold gets, modify, fail. unfold mbind, M_bind, mret, M_ret. cbv beta iota.
  unfold meta_insert_ignore. destruct (t_meta d !! key) as [v|] eqn:E.
  - cbn [is_some negb andb fst snd is_ok]. rewrite E. split; [split; eauto|]. split; [eauto|]. done.
  - cbn [is_some negb andb]. rewrite (count_claims_insert repo) by done.
    destruct (Z.ltb_spec cap (count_claims d + 1)); cbn [fst snd is_ok].
    + unfold meta_delete. rewrite on_meta_undo by done. split; [split; [done|]|done].
      intros [[? ?]|?]; [done|lia].
    + split; [split; [intros _; right; lia|done]|]. split; [|split; [done|]].
      * intros _. cbn [t_meta on_meta]. rewrite lookup_insert_eq. eauto.
      * rewrite (count_claims_insert repo) by done. lia.
Qed.
End Owner.

(** ** Boot *)

Definition job_key (k : string) : bool := starts_with "dead." k || starts_with "resurrected." k.
Lemma starts_with_app_l p s : starts_with p (p +:+ s) = true.
Proof. apply starts_with_spec. by exists s. Qed.
Lemma repair_kind_meta now k d key : job_key key = false ->
  t_meta (repair_kind now k d) !! key = t_meta d !! key.
Proof.
  intros Hk. unfold job_key in Hk. apply orb_false_iff in Hk as [Hk1 Hk2].
  rewrite repair_kind_unfold. destruct (0 <? _); [|done].
  assert (t_meta (note_error k d) !! key = t_meta d !! key) as Hn.
  { unfold note_error. destruct (last_dead_error k d); [|done]. cbn [t_meta on_meta].
    rewrite lookup_insert_ne; [done|]. intros <-. by rewrite starts_with_app_l in Hk1. }
  destruct (3 <=? _); [done|]. cbn [t_meta on_meta]. rewrite lookup_insert_ne, enqueue_meta; [done|].
  intros <-. unfold resurrect_key in Hk2. destruct (_ && _); [by vm_compute in Hk2|].
  by rewrite starts_with_app_l in Hk2.
Qed.
Lemma repair_meta now d key : job_key key = false -> t_meta (repair now d) !! key = t_meta d !! key.
Proof.
  intros Hk. unfold repair. cbn [fold_left]. rewrite !repair_kind_meta by done.
  destruct (_ =? 0); [by rewrite enqueue_meta|done].
Qed.

Section Boot.
Context `{Platform}.

Definition meta_keys : list string := ["repo_id"; "owner"; "repo"; "head"; "refs_version"; "gc_epoch"; "deleted"].
Lemma read_meta_ext id d d' : (forall k, k ∈ meta_keys -> t_meta d' !! k = t_meta d !! k) ->
  (read_meta id d').2 = (read_meta id d).2.
Proof.
  intros Hk. unfold read_meta. cbn [snd]. rewrite !Hk by (unfold meta_keys; set_solver). done.
Qed.
Lemma insert_ignore_fold l d k : t_meta d = ∅ -> NoDup (map fst l) ->
  t_meta (fold_left (fun d kv => meta_insert_ignore kv.1 kv.2 d) l d) !! k = (list_to_map l : gmap string string) !! k.
Proof.
  intros Hm Hnd. transitivity (match (list_to_map l : gmap string string) !! k with Some v => Some v | None => t_meta d !! k end).
  2:{ rewrite Hm, lookup_empty. by destruct (_ !! k). }
  assert (forall x, x ∈ map fst l -> t_meta d !! x = None) as Habs by (intros; by rewrite Hm, lookup_empty).
  clear Hm. revert d Habs. induction l as [|[x v] l IH]; intros d Habs; cbn [fold_left map fst snd list_to_map foldr] in *.
  { by rewrite lookup_empty. }
  apply NoDup_cons in Hnd as [Hni Hnd]. unfold meta_insert_ignore at 2. rewrite (Habs x) by left.
  rewrite IH; [|done|].
  - cbn [t_meta on_meta uncurry]. destruct (decide (x = k)) as [->|Hne].
    + rewrite !lookup_insert_eq. rewrite not_elem_of_list_to_map_1; [done|exact Hni].
    + by rewrite !lookup_insert_ne.
  - intros y Hy. cbn [t_meta on_meta]. rewrite lookup_insert_ne; [apply Habs; by right|].
    intros ->. done.
Qed.
Lemma create_meta_run now hex owner repo d : t_meta d = ∅ ->
  exists d1, create_meta now hex owner repo d = (d1, Ok (mkMeta hex owner repo "refs/heads/main" 0 0 false))
  /\ t_meta d1 !! "repo_id" = Some hex
  /\ (read_meta hex d1).2 = Ok (mkMeta hex owner repo "refs/heads/main" 0 0 false).
Proof.
  intros Hm. unfold create_meta, modify. unfold mbind, M_bind, mret, M_ret. eexists. split; [reflexivity|].
  assert (forall k, t_meta (enqueue_db Janitor now "{}"
      (fold_left (fun d kv => meta_insert_ignore kv.1 kv.2 d) (boot_keys hex owner repo now) d)) !! k
    = (list_to_map (boot_keys hex owner repo now) : gmap string string) !! k) as Hk.
  { intros k. rewrite enqueue_meta. apply insert_ignore_fold; [done|].
    apply (bool_decide_unpack _). vm_compute. exact I. }
  unfold read_meta. cbn [snd]. rewrite !Hk. split; vm_compute; reflexivity.
Qed.

Definition check_headers (hdr : RepoHeaders) (m : Meta) : result Error Meta :=
  match h_owner hdr, h_repo hdr with
  | Some o, Some r => if String.eqb o (m_owner m) && String.eqb r (m_repo m) then Ok m
                      else Err (Internal "identity mismatch")
  | _, _ => Ok m
  end.
Lemma boot_known now hex hdr d id m : t_meta d !! "repo_id" = Some id -> (read_meta id d).2 = Ok m ->
  m_deleted m = false -> boot now hex hdr d = (repair now d, check_headers hdr m).
Proof.
  intros Hid Hr Hd. unfold boot, meta_opt, gets. unfold mbind, M_bind. rewrite Hid.
  assert (read_meta id d = (d, Ok m)) as -> by (rewrite <- Hr; done). rewrite Hd. unfold check_headers, modify.
  destruct (h_owner hdr), (h_repo hdr); try done. by destruct (_ && _).
Qed.
Lemma boot_new now hex hdr d d1 m : t_meta d = ∅ -> boot now hex hdr d = (d1, Ok m) ->
  check_headers hdr m = Ok m /\ exists d2, d1 = repair now d2 /\ t_meta d2 !! "repo_id" = Some (m_repo_id m)
  /\ (read_meta (m_repo_id m) d2).2 = Ok m.
Proof.
  intros Hm. unfold boot, meta_opt, gets. unfold mbind, M_bind. rewrite Hm, lookup_empty.
  destruct (h_owner hdr) as [o|] eqn:Eo; [|done]. destruct (h_repo hdr) as [r|] eqn:Er; [|done].
  destruct (create_meta_run now hex o r d Hm) as (d2 & -> & Hid & Hr). cbn [m_deleted m_owner m_repo].
  unfold check_headers. rewrite Eo, Er. rewrite !String.eqb_refl. intros [<- E]%pair_equal_spec.
  injection E as <-. cbn [m_owner m_repo m_repo_id]. rewrite !String.eqb_refl. split; [done|]. by exists d2.
Qed.

(** Booting settles a repository's identity: once a boot has answered for an
    undeleted repository, every later boot with the same headers answers the same
    identity, head, version and epoch, whatever fresh id it draws, and a request
    for another owner or repository is refused. *)
Theorem boot_stable (now now2 : Z) (hex hex2 : string) (hdr hdr2 : RepoHeaders) (d d1 : Db) (m : Meta) :
  (t_meta d !! "repo_id" = None -> t_meta d = ∅) ->
  boot now hex hdr d = (d1, Ok m) -> m_deleted m = false ->
  (boot now2 hex2 hdr d1).2 = Ok m
  /\ (forall o r, h_owner hdr2 = Some o -> h_repo hdr2 = Some r -> (o, r) <> (m_owner m, m_repo m) ->
        is_ok (boot now2 hex2 hdr2 d1).2 = false).
Proof.
  intros Hfresh Hb Hdel.
  assert (check_headers hdr m = Ok m /\ exists d2, d1 = repair now d2 /\ t_meta d2 !! "repo_id" = Some (m_repo_id m)
    /\ (read_meta (m_repo_id m) d2).2 = Ok m) as (Hh & d2 & -> & Hid & Hr).
  { destruct (t_meta d !! "repo_id") as [id|] eqn:Eid; [|apply (boot_new now hex hdr d); auto].
    destruct (read_meta id d).2 as [m0|] eqn:Er.
    2:{ revert Hb. unfold boot, meta_opt, gets. unfold mbind, M_bind. rewrite Eid.
        destruct (read_meta id d) as [? ?] eqn:E2. simpl in Er. by subst. }
    assert (m_repo_id m0 = id) as Hid0.
    { revert Er. unfold read_meta. cbn [snd]. unfold mbind, result_bind. repeat case_match; intros; by simplify_eq. }
    destruct (m_deleted m0) eqn:Ed.
    - exfalso. revert Hb. unfold boot, meta_opt, gets. unfold mbind, M_bind. rewrite Eid.
      assert (read_meta id d = (d, Ok m0)) as -> by (rewrite <- Er; done). rewrite Ed.
      destruct (boot_deleted now d) as [d3 [u|]]; [|done].
      unfold mret, M_ret, fail. intros Hb. assert (m = m0) by (destruct (h_owner hdr), (h_repo hdr); try destruct (_ && _); congruence). congruence.
    - rewrite (boot_known now hex hdr d id m0) in Hb by done. apply pair_equal_spec in Hb as [<- Hc].
      assert (m0 = m) as -> by (revert Hc; unfold check_headers; repeat case_match; congruence).
      split; [done|]. exists d. by rewrite Hid0. }
  assert (forall k, k ∈ meta_keys -> job_key k = false) as Hjk.
  { apply Forall_forall. by repeat constructor. }
  assert (forall h hx, boot now2 hx h (repair now d2) = (repair now2 (repair now d2), check_headers h m)) as Hboot.
  { intros h hx. apply boot_known with (m_repo_id m); [|rewrite (read_meta_ext _ d2)|]; [|done| |done].
    - by rewrite repair_meta.
    - intros k Hk. by apply repair_meta, Hjk. }
  rewrite !Hboot. split; [done|]. intros o r Ho Hrr Hne. cbn [snd]. unfold check_headers. rewrite Ho, Hrr.
  destruct (String.eqb_spec o (m_owner m)), (String.eqb_spec r (m_repo m)); simpl; try done. congruence.
Qed.

(** Once a repository is tombstoned, every boot leaves a queued or running purge,
    whatever happened to the previous ones. *)
Theorem tombstone_keeps_purging (now : Z) (hex id : string) (hdr : RepoHeaders) (d : Db) (m : Meta) :
  t_meta d !! "repo_id" = Some id -> (read_meta id d).2 = Ok m -> m_deleted m = true ->
  exists r, r ∈ t_jobs (boot now hex hdr d).1 /\ is_kind PurgeRepo r = true /\ active r = true.
Proof.
  intros Hid Hr Hd. unfold boot, meta_opt, gets. unfold mbind at 1, M_bind at 1. rewrite Hid.
  assert (read_meta id d = (d, Ok m)) as E by (rewrite <- Hr; done).
  rewrite (bind_run _ _ _ _ _ E). rewrite Hd.
  assert (exists d1, boot_deleted now d = (d1, Ok tt)
    /\ exists r, r ∈ t_jobs d1 /\ is_kind PurgeRepo r = true /\ active r = true) as (d1 & E1 & Hj).
  { unfold boot_deleted, modify, gets. unfold mbind, M_bind. set (d0 := update_jobs _ _ d).
    destruct (Z.eqb_spec (count_jobs (fun r => is_kind PurgeRepo r && active r) d0) 0) as [Hz|Hz]; eexists; (split; [reflexivity|]).
    - unfold enqueue_db. destruct (existsb _ (t_jobs d0)) eqn:Ex.
      + apply existsb_exists in Ex as (r & Hin & Hk). apply andb_prop in Hk as [Hk1 Hk2]. exists r.
        split; [by apply list_elem_of_In|]. split; [done|]. unfold active. by rewrite Hk2.
      + eexists. split; [apply elem_of_app; right; left|]. done.
    - assert (0 < count_jobs (fun r => is_kind PurgeRepo r && active r) d0) as Hp by (unfold count_jobs in *; lia).
      apply count_jobs_pos in Hp as (r & Hin & [Hk1 Hk2]%andb_prop). eauto. }
  rewrite (bind_run _ _ _ _ _ E1). unfold mret, M_ret, fail.
  destruct (h_owner hdr), (h_repo hdr); try done. by destruct (_ && _).
Qed.
End Boot.

(** ** Concrete runs *)

Module AdminDemo.
#[local] Existing Instance demo_platform.
Definition new : NewToken := mkNewToken "ci" "write" (Some "refs/heads/*") (Some 3600).
Definition d : Db := (token_create 1000 "aa" "bb" "id1" new empty_db).1.
Definition resp : TokenResp := mkTokenResp "id1" "ge_aabb" "write" "ci" "refs/heads/*" (Some 3601000).
Lemma created : token_create 1000 "aa" "bb" "id1" new empty_db = (d, Ok resp).
Proof. vm_compute. reflexivity. Qed.
Definition refs : Db := on_refs (insert "refs/heads/main" (mkRef PushDemo.A None 0)) empty_db.
Definition hdr : RepoHeaders := mkHeaders (Some "o") (Some "r").
Definition booted : Db := (boot 1000 "id0" hdr empty_db).1.
Definition meta : Meta := mkMeta "id0" "o" "r" "refs/heads/main" 0 0 false.
Lemma boots : boot 1000 "id0" hdr empty_db = (booted, Ok meta).
Proof. vm_compute. reflexivity. Qed.
Definition deleted : Db := (delete_repo 2000 booted).1.
End AdminDemo.

Lemma token_lifecycle_witness :
  (auth_lookup 5000 "hash-ge_aabb" AdminDemo.d).2 = Ok (mkAuth "write" "ci" (Some "refs/heads/*") (Some 3601000))
  /\ (auth_lookup 3601000 "hash-ge_aabb" AdminDemo.d).2 = Err Auth.
Proof.
  split.
  - exact (proj1 (@token_lifecycle demo_platform 1000 5000 "aa" "bb" "id1" AdminDemo.new empty_db AdminDemo.d
      AdminDemo.resp AdminDemo.created ltac:(intros id x E; discriminate E))).
  - exact (proj1 (@token_lifecycle demo_platform 1000 3601000 "aa" "bb" "id1" AdminDemo.new empty_db AdminDemo.d
      AdminDemo.resp AdminDemo.created ltac:(intros id x E; discriminate E))).
Defined.
Lemma admin_caps_witness : caps_ok AdminDemo.d.
Proof.
  apply (@admin_caps demo_platform empty_db).
  - eapply rtc_l; [apply (@AsCreate demo_platform 1000 "aa" "bb" "id1" AdminDemo.new)|]. reflexivity.
  - split; [|split]; vm_compute; discriminate.
Defined.
Lemma pin_asserts_current_witness :
  pin_target <$> t_pins (@pin demo_platform 7 "refs/heads/main" PushDemo.A AdminDemo.refs).1 !! "refs/heads/main"
  = Some PushDemo.A.
Proof.
  destruct (@pin_asserts_current demo_platform 7 "refs/heads/main" PushDemo.A AdminDemo.refs
    (@pin demo_platform 7 "refs/heads/main" PushDemo.A AdminDemo.refs).1 ("refs/heads/main", PushDemo.A))
    as (_ & _ & _ & _ & Hp & _); [vm_compute; reflexivity|exact Hp].
Defined.
Lemma owner_claim_spec_witness : is_Some (t_meta (@owner_claim demo_platform 5 "o" "r" empty_db).1 !! "claim:r").
Proof.
  destruct (@owner_claim_spec demo_platform 5 "o" "r" empty_db) as (_ & Hc & _); [vm_compute; reflexivity|vm_compute; discriminate|].
  apply Hc. vm_compute. reflexivity.
Defined.
Lemma boot_stable_witness : (boot 9000 "other" AdminDemo.hdr AdminDemo.booted).2 = Ok AdminDemo.meta.
Proof.
  apply (boot_stable 1000 9000 "id0" "other" AdminDemo.hdr AdminDemo.hdr empty_db AdminDemo.booted AdminDemo.meta).
  - done.
  - exact AdminDemo.boots.
  - reflexivity.
Defined.
Lemma tombstone_keeps_purging_witness : exists r,
  r ∈ t_jobs (boot 3000 "x" AdminDemo.hdr AdminDemo.deleted).1 /\ is_kind PurgeRepo r = true /\ active r = true.
Proof.
  apply (tombstone_keeps_purging 3000 "x" "id0" AdminDemo.hdr AdminDemo.deleted
    (mkMeta "id0" "o" "r" "refs/heads/main" 0 0 true)); vm_compute; reflexivity.
Defined.
