(* ===== verification/Memo.v ===== *)
(** * The refs memo

    The in-memory half of a repository object: [refs_snapshot] of
    [server/src/repo_do/mod.rs] keeps one rendered ref table per
    (refs_version, object format, pin) and every advertisement is served from
    it.  [Iso] is the live isolate: the store and the memo.  A request that ends
    in a Storage or Internal error is rolled back by the platform ([fetch]
    propagates it); every other answer commits.  The theorem is that the memo is
    never stale under commits, reads and unrelated requests; the counterexample
    is that it survives the purge of the repository it describes. *)
From S2P Require Import Prelude Errors Db Scope Jobs Cohort GcBase Compact Refs Push PushFacts Admin.
Open Scope Z_scope.

Record RefRow : Type := mkRefRow { rr_name : string; rr_target : string; rr_peeled : option string }.
Record RefsMemo : Type := mkMemo {
  mm_version : Z; mm_kind : HashKind; mm_pinned : bool; mm_head : string; mm_refs : list RefRow }.
Record Iso : Type := mkIso { iso_db : Db; iso_memo : option RefsMemo }.

Section Memo.
Context `{Platform}.

Definition ref_row (kv : string * RefSql) : result Error RefRow :=
  target ← of_option (Internal "bad oid in refs") (oid_from_hex (rf_target kv.2));
  match rf_peeled kv.2 with
  | None => Ok (mkRefRow kv.1 target None)
  | Some p => peeled ← of_option (Internal "bad peeled") (oid_from_hex p); Ok (mkRefRow kv.1 target (Some peeled))
  end.
Definition list_refs (d : Db) : result Error (string * list RefRow) :=
  head ← of_option (Storage "meta.head missing") (t_meta d !! "head");
  refs ← collect ref_row (merge_sort key_le (map_to_list (t_refs d)));
  Ok (head, refs).
Definition refs_snapshot (meta : Meta) (s : Iso) : Iso * result Error RefsMemo :=
  let kind := obj_kind (iso_db s) in
  let pinned := obj_format_pinned (iso_db s) in
  let fresh := match list_refs (iso_db s) with
               | Ok (head, refs) =>
                   let m := mkMemo (m_refs_version meta) kind pinned head refs in
                   (mkIso (iso_db s) (Some m), Ok m)
               | Err e => (s, Err e)
               end in
  match iso_memo s with
  | Some m => if (mm_version m =? m_refs_version meta) && bool_decide (mm_kind m = kind)
                 && Bool.eqb (mm_pinned m) pinned then (s, Ok m) else fresh
  | None => fresh
  end.

(** The span of a request: a fatal error undoes its writes. *)
Definition span {A} (m : DoM A) (d : Db) : Db * result Error A :=
  let r := m d in
  match r.2 with
  | Err e => if fatal e then (d, Err e) else r
  | Ok _ => r
  end.
(** [GET /_do/refs]: boot, then the snapshot. *)
Definition serve_refs (now : Z) (hex : string) (hdr : RepoHeaders) (s : Iso) : Iso * result Error RefsMemo :=
  match span (boot now hex hdr) (iso_db s) with
  | (d1, Ok meta) => if m_deleted meta then (mkIso d1 (iso_memo s), Err Gone)
                     else refs_snapshot meta (mkIso d1 (iso_memo s))
  | (d1, Err e) => (mkIso d1 (iso_memo s), Err e)
  end.
(** [POST /_do/push/commit]. *)
Definition serve_commit (now : Z) (req : CommitRequest) (s : Iso) : Iso :=
  mkIso (span (commit_push now req) (iso_db s)).1 (iso_memo s).
(** The end of [purge_repo]'s wipe: the store is gone, [unboot] clears only the
    [booted] flag. *)
Definition purge (s : Iso) : Iso := mkIso empty_db (iso_memo s).

(** ** Coherence *)

(** A step that leaves the refs, the head, the version and the id alone. *)
Definition keeps_refs (d d' : Db) : Prop :=
  t_refs d' = t_refs d /\ t_meta d' !! "head" = t_meta d !! "head"
  /\ t_meta d' !! "refs_version" = t_meta d !! "refs_version"
  /\ t_meta d' !! "repo_id" = t_meta d !! "repo_id".
Inductive MemoStep : Iso -> Iso -> Prop :=
| MsCommit now req s : MemoStep s (serve_commit now req s)
| MsRead now hex hdr s : MemoStep s (serve_refs now hex hdr s).1
| MsOther s d' : keeps_refs (iso_db s) d' -> MemoStep s (mkIso d' (iso_memo s)).

Record memo_ok (s : Iso) : Prop := {
  mo_id : is_Some (t_meta (iso_db s) !! "repo_id");
  mo_version : is_Some (t_meta (iso_db s) !! "refs_version");
  mo_memo : forall m, iso_memo s = Some m ->
    mm_version m <= version (iso_db s)
    /\ (mm_version m = version (iso_db s) -> list_refs (iso_db s) = Ok (mm_head m, mm_refs m)) }.

(** ** What a commit does to the advertised state *)

Definition key_eq (k : string) (d d' : Db) : Prop := t_meta d' !! k = t_meta d !! k.
#[global] Instance key_eq_preorder k : PreOrder (key_eq k).
Proof. split; [done|]. unfold key_eq. intros d1 d2 d3. congruence. Qed.

(** Three preorders hold along every statement of a commit before the head is
    adopted; [commit_keeps] is what each needs to be one. *)
Class CommitRel (R : Db -> Db -> Prop) : Prop := {
  cr_preorder : PreOrder R;
  cr_meta : forall d d', t_meta d' = t_meta d -> R d d';
  cr_incr : forall d, R d (meta_incr "refs_version" d) }.
#[global] Existing Instance cr_preorder.
#[global] Instance version_le_commit : CommitRel version_le.
Proof.
  split; [apply _| |].
  - intros d d' E. apply version_le_same. by rewrite E.
  - intros d Hd. destruct (meta_incr_version d Hd) as [? ->]. split; [done|lia].
Qed.
Lemma key_eq_commit k : k <> "refs_version" -> CommitRel (key_eq k).
Proof.
  intros Hk. split; [apply _| |].
  - intros d d' E. unfold key_eq. by rewrite E.
  - intros d. unfold key_eq, meta_incr. cbn [t_meta on_meta]. by rewrite lookup_alter_ne.
Qed.

Section Rel.
Context (R : Db -> Db -> Prop) `{!CommitRel R}.
Lemma meta_modify f : (forall d, t_meta (f d) = t_meta d) -> rel_ok R (modify f : DoM unit).
Proof. intros Hf d. apply cr_meta, Hf. Qed.
Lemma failpoint_cr name : rel_ok R (failpoint name).
Proof. intros d. unfold failpoint. repeat case_match; by apply cr_meta. Qed.
Lemma bump_cr : rel_ok R bump_refs_version.
Proof. intros d. apply cr_incr. Qed.
Lemma enqueue_cr k t p : rel_ok R (enqueue k t p).
Proof. intros d. apply cr_meta. apply enqueue_meta. Qed.
Lemma trigger_cr now : rel_ok R (trigger now).
Proof.
  assert (forall k t p, rel_ok R (enqueue k t p)) by apply enqueue_cr.
  assert (forall p f, rel_ok R (modify (update_jobs p f) : DoM unit)) by (intros; by apply meta_modify).
  unfold trigger, quarantine_load, quarantine_read, meta_opt. rel_tac.
Qed.
Lemma write_landing_cr push who now barrier c : rel_ok R (write_landing push who now barrier c).
Proof.
  intros d. unfold write_landing.
  assert (t_meta (write_ref now c d).1 = t_meta d) as Hw by (unfold write_ref; repeat case_match; done).
  destruct (negb _); [by apply cr_meta|]. etrans; [by apply cr_meta|].
  match goal with |- R _ (?m _).1 => assert (rel_ok R m) as Hm end; [|apply Hm].
  apply rel_ok_bind; [apply _|by apply meta_modify|intros _]. apply rel_ok_bind; [apply _| |intros; apply rel_ok_ret, _].
  destruct barrier; [apply failpoint_cr|apply rel_ok_ret, _].
Qed.
Lemma apply_one_cr head c push who now write barrier scopes :
  rel_ok R (apply_one head c push who now write barrier scopes).
Proof.
  assert (Hw := write_landing_cr push who now barrier c). assert (Hb := bump_cr).
  assert (Hf := failpoint_cr "gc.barrier.landing").
  assert (rel_ok R (modify (feed_frontier (feeds_of c)) : DoM unit)) by by apply meta_modify.
  unfold apply_one, barrier_feed_landing. rel_tac.
Qed.
Lemma run_cmds_cr cmds f : (forall c, rel_ok R (f c)) -> rel_ok R (run_cmds cmds f).
Proof. intros Hf. induction cmds as [|c cmds IH]; simpl; [apply rel_ok_ret, _|]. rel_tac. Qed.
Lemma finish_cr req st now rs : rel_ok R (finish_push req st now rs).
Proof. intros d. rewrite finish_push_run. by apply cr_meta. Qed.
Lemma meta_i64_cr k : rel_ok R (meta_i64 k).
Proof. apply rel_ok_bind; [apply _|apply rel_ok_pure, _|intros; apply rel_ok_lift, _]. Qed.
Lemma land_pack_cr now barrier push pack : rel_ok R (land_pack now barrier push pack).
Proof.
  assert (Ht := trigger_cr now). assert (Hb := bump_cr). assert (Hf := failpoint_cr).
  assert (rel_ok R (modify (insert_pending pack) : DoM unit)).
  { apply meta_modify. intros d. unfold insert_pending. by case_match. }
  unfold land_pack, barrier_write_pending_before_promote.
  apply rel_ok_bind; [apply _|apply rel_ok_gets, _|intros [m|]]; [apply rel_ok_ret, _|].
  apply rel_ok_bind; [apply _|rel_tac|intros _]. apply rel_ok_bind; [apply _| |intros n].
  - intros d. apply cr_meta. unfold promote. destruct (t_packs d !! pack) as [r|]; [|done]. by destruct (_ && _).
  - destruct (negb _); [apply rel_ok_fail, _|exact Ht].
Qed.
End Rel.

(** Reasoning about a handler's answer together with its effect. *)
Definition post {A} (Q : Db -> Db -> result Error A -> Prop) (m : DoM A) : Prop := forall d, Q d (m d).1 (m d).2.
Lemma post_bind {A B} (R : Db -> Db -> Prop) (Q : Db -> Db -> result Error B -> Prop) (m : DoM A) (f : A -> DoM B) :
  rel_ok R m -> (forall d d1 d' r, R d d1 -> Q d1 d' r -> Q d d' r) ->
  (forall d d1 e, R d d1 -> Q d d1 (Err e)) -> (forall a, post Q (f a)) -> post Q (m ≫= f).
Proof.
  intros Hm Ht He Hf d. specialize (Hm d). unfold mbind, M_bind.
  destruct (m d) as [d1 [a|e]]; cbn [fst snd] in *; [by apply (Ht d d1), Hf|by apply He].
Qed.

Definition head_post (d d' : Db) (r : result Error Results) : Prop :=
  key_eq "head" d d' \/ match r with Ok rs => any_ok rs = true | Err e => fatal e = true end.
Definition err_post (d d' : Db) (r : result Error Results) : Prop :=
  match r with Err e => fatal e = true \/ refs_eq d d' | Ok _ => True end.
Lemma head_bind {A} (m : DoM A) (f : A -> DoM Results) :
  rel_ok (key_eq "head") m -> (forall a, post head_post (f a)) -> post head_post (m ≫= f).
Proof.
  intros Hm. apply (post_bind (key_eq "head")); [done| |by left].
  intros d d1 d' r Hd [?|?]; [left; by etrans|by right].
Qed.
(** The only errors of [m] are fatal; or its answer is [b]. *)
Definition errs_fatal {A} (m : DoM A) : Prop := forall d e, (m d).2 = Err e -> fatal e = true.
Definition yields {A} (b : A) (m : DoM A) : Prop :=
  forall d, match (m d).2 with Ok b' => b' = b | Err e => fatal e = true end.
Lemma yields_bind {A B} (b : B) (m : DoM A) (f : A -> DoM B) :
  errs_fatal m -> (forall a, yields b (f a)) -> yields b (m ≫= f).
Proof.
  intros Hm Hf d. specialize (Hm d). unfold mbind, M_bind. destruct (m d) as [d1 [a|e]]; cbn [snd] in *; [apply Hf|by apply Hm].
Qed.
Lemma errs_bind {A B} (m : DoM A) (f : A -> DoM B) :
  errs_fatal m -> (forall a, errs_fatal (f a)) -> errs_fatal (m ≫= f).
Proof.
  intros Hm Hf d e. unfold mbind, M_bind. specialize (Hm d).
  destruct (m d) as [d1 [a|e1]]; cbn [snd] in *; [apply Hf|]. intros [= <-]. by apply Hm.
Qed.
Lemma errs_ok {A} (m : DoM A) : (forall d, is_ok (m d).2 = true) -> errs_fatal m.
Proof. intros Hm d e E. specialize (Hm d). by rewrite E in Hm. Qed.
Lemma meta_errs k : errs_fatal (meta k).
Proof. intros d e. unfold meta. cbn [snd]. destruct (t_meta d !! k); simpl; [done|]. by intros [= <-]. Qed.
Lemma record_event_errs req cmds rs now : errs_fatal (record_push_event req cmds rs now).
Proof.
  unfold record_push_event. destruct events_config; [|by apply errs_ok].
  apply errs_bind; [by apply errs_ok|intros n]. destruct (MAX_PENDING <=? n); [by apply errs_ok|].
  do 3 (apply errs_bind; [apply meta_errs|intros ?]). apply errs_bind; [by apply errs_ok|intros _].
  by apply errs_ok.
Qed.
(** Everything after the commands have run: it answers their results. *)
Lemma commit_tail_yields now req cmds rs :
  yields rs ((if any_ok rs || is_some (cr_pack req) then bump_refs_version else mret tt) ≫= fun _ =>
    (if any_ok rs then
       modify adopt_head ≫= fun _ => enqueue GcMark (add64 now gc_quiet_ms) "{}" ≫= fun _ =>
       record_push_event req cmds rs now
     else mret tt) ≫= fun _ => finish_push req PCommitted now rs).
Proof.
  apply yields_bind; [apply errs_ok; by destruct (_ || _)|intros _].
  apply yields_bind; [|intros _ d; by rewrite finish_push_run].
  destruct (any_ok rs); [|by apply errs_ok]. apply errs_bind; [by apply errs_ok|intros _].
  apply errs_bind; [by apply errs_ok|intros _]. apply record_event_errs.
Qed.
Lemma err_bind {A} (m : DoM A) (f : A -> DoM Results) :
  rel_ok refs_eq m -> (forall a, post err_post (f a)) -> post err_post (m ≫= f).
Proof.
  intros Hm. apply (post_bind refs_eq); [done| |by right].
  intros d d1 d' [r|e] Hd; [done|]. intros [?|?]; [by left|right; by etrans].
Qed.
#[local] Instance head_cr : CommitRel (key_eq "head") := key_eq_commit "head" ltac:(done).

Lemma record_event_head req cmds rs now : rel_ok (key_eq "head") (record_push_event req cmds rs now).
Proof.
  assert (forall k t p, rel_ok (key_eq "head") (enqueue k t p)) by (intros; apply enqueue_cr; apply _).
  assert (forall k, rel_ok (key_eq "head") (meta k)) by (intros; apply rel_ok_pure, _).
  unfold record_push_event. rel_tac.
  - intros d. unfold key_eq. cbn [modify fst t_meta on_meta]. by rewrite lookup_insert_ne.
  - by apply meta_modify; [apply _|].
Qed.
Lemma commit_head now req : post head_post (commit_push now req).
Proof.
  assert (forall st rs, post head_post (finish_push req st now rs)) as Hfin
    by (intros st rs d; left; apply finish_cr; apply _).
  assert (forall cmds apply, (forall b c, rel_ok (key_eq "head") (apply b c)) ->
            post head_post (commit_land now req cmds apply)) as Hland.
  { intros cmds apply Ha. unfold commit_land. apply head_bind; [apply run_cmds_cr; [apply _|done]|intros rs].
    fold (any_ok rs). assert (Hy := commit_tail_yields now req cmds rs).
    destruct (any_ok rs) eqn:Eo.
    - intros d. right. specialize (Hy d). destruct (_ d).2 as [rs'|e]; [by subst|done].
    - apply head_bind; [|intros _; apply head_bind; [apply rel_ok_ret, _|intros _; apply Hfin]].
      destruct (_ || _); [apply bump_cr; apply _|apply rel_ok_ret, _]. }
  unfold commit_push. apply head_bind; [apply rel_ok_lift, _|intros cmds].
  apply head_bind; [apply rel_ok_gets, _|intros [p|]]; [|intros d; by left].
  destruct (negb _); [intros d; by left|]. apply head_bind; [apply rel_ok_gets, _|intros [cur|why]]; [|apply Hfin].
  apply head_bind; [apply meta_i64_cr; apply _|intros epoch]. destruct (negb _); [apply Hfin|].
  apply head_bind; [apply rel_ok_gets, _|intros barrier]. apply head_bind; [|intros [m|]].
  - destruct (cr_pack req); [apply land_pack_cr; apply _|apply rel_ok_ret, _].
  - apply head_bind; [apply finish_cr; apply _|intros _ d; by left].
  - unfold commit_apply. apply head_bind; [apply rel_ok_pure, _|intros head].
    assert (forall b c, rel_ok (key_eq "head") (apply_one head c (cr_push req) (cr_principal req) now b barrier
      [ps_scope p; match cur with Some s => Some s | None => ps_scope p end])) by (intros; apply apply_one_cr; apply _).
    destruct (cr_atomic req); [|by apply Hland].
    apply head_bind; [by apply run_cmds_cr; [apply _|]|intros dry].
    destruct (existsb is_reject dry); [|by apply Hland]. unfold atomic_refuse.
    apply head_bind; [|intros; apply Hfin]. rel_tac; by apply meta_modify; [apply _|].
Qed.

Lemma land_pack_refs now barrier push pack : rel_ok refs_eq (land_pack now barrier push pack).
Proof.
  assert (forall A (m : DoM A), rel_ok quiet m -> rel_ok refs_eq m) as Hq by (intros A m Hm d; apply Hm).
  assert (Ht := Hq _ _ (trigger_quiet now)). assert (Hw := Hq _ _ (write_pending_quiet pack)).
  unfold land_pack. apply rel_ok_bind; [apply _|apply rel_ok_gets, _|intros [m|]]; [apply rel_ok_ret, _|].
  apply rel_ok_bind; [apply _|rel_tac|intros _]. apply rel_ok_bind; [apply _| |intros n].
  - intros d. unfold refs_eq, promote. destruct (t_packs d !! pack) as [r|]; [|done]. by destruct (_ && _).
  - destruct (negb _); [apply rel_ok_fail, _|exact Ht].
Qed.
Lemma run_cmds_errs cmds f : (forall c, errs_fatal (f c)) -> errs_fatal (run_cmds cmds f).
Proof.
  intros Hf. induction cmds as [|c cmds IH]; simpl; [by apply errs_ok|].
  apply errs_bind; [done|intros r]. apply errs_bind; [done|intros rs]. by apply errs_ok.
Qed.
Lemma verdict_errs d head scopes c e : verdict d head scopes c = Err e -> fatal e = true.
Proof.
  unfold verdict. destruct (gate d head scopes c); [done|]. unfold target_gate.
  destruct (is_null (c_new c)); [by case_match|]. unfold mbind, result_bind, lookup_one, row_loc, kind_of.
  repeat case_match; intros; simplify_eq; done.
Qed.
Lemma commit_err now req : hooks_enabled = false -> post err_post (commit_push now req).
Proof.
  intros Hh.
  assert (forall st rs, post err_post (finish_push req st now rs)) as Hfin by (by intros st rs d).
  assert (forall A (m : DoM A), rel_ok refs_eq (fun d => (d, (m d).2))) as Hpure by (intros A m d; done).
  assert (forall head barrier sc b c, errs_fatal (apply_one head c (cr_push req) (cr_principal req) now b barrier sc)) as Ha.
  { intros head barrier sc b c d e. rewrite apply_one_run by done. apply verdict_errs. }
  assert (forall cmds apply, (forall b c, errs_fatal (apply b c)) -> post err_post (commit_land now req cmds apply)) as Hland.
  { intros cmds apply Hap d. unfold err_post. destruct (commit_land now req cmds apply d) as [d' [rs|e]] eqn:E; [done|].
    left. revert E. unfold commit_land. intros [E|(rs & d1 & _ & E)]%bind_err.
    - apply (run_cmds_errs cmds (apply true) (Hap true) d). by rewrite E.
    - assert (Hy := commit_tail_yields now req cmds rs d1). fold (any_ok rs) in E. by rewrite E in Hy. }
  unfold commit_push. apply err_bind; [apply rel_ok_lift, _|intros cmds].
  apply err_bind; [apply rel_ok_gets, _|intros [p|]]; [|intros d; by right].
  destruct (negb _); [intros d; by right|]. apply err_bind; [apply rel_ok_gets, _|intros [cur|why]]; [|apply Hfin].
  apply err_bind; [|intros epoch].
  { apply rel_ok_bind; [apply _|apply rel_ok_pure, _|intros; apply rel_ok_lift, _]. }
  destruct (negb _); [apply Hfin|]. apply err_bind; [apply rel_ok_gets, _|intros barrier].
  apply err_bind; [|intros [m|]].
  - destruct (cr_pack req); [apply land_pack_refs|apply rel_ok_ret, _].
  - apply err_bind; [by intros d|intros _ d; by right].
  - unfold commit_apply. apply err_bind; [apply rel_ok_pure, _|intros head].
    destruct (cr_atomic req); [|apply Hland; auto].
    apply err_bind; [|intros dry].
    { intros d. destruct (run_cmds _ _ d) as [d1 r] eqn:E. apply run_cmds_dry in E as [-> _]; done. }
    destruct (existsb is_reject dry); [|apply Hland; auto]. unfold atomic_refuse.
    apply err_bind; [|intros; apply Hfin]. rel_tac; by intros d.
Qed.

(** ** The keys a whole commit keeps *)

Class TailRel (R : Db -> Db -> Prop) : Prop := {
  tr_commit :: CommitRel R;
  tr_put : forall k f d, k = "head" \/ k = "push_events_dropped" ->
    R d (on_meta (fun m => insert k (f m) m) d) }.
#[local] Instance key_eq_tail : TailRel (key_eq "repo_id").
Proof.
  split; [by apply key_eq_commit|]. intros k f d Hk. unfold key_eq. cbn [t_meta on_meta].
  rewrite lookup_insert_ne; [done|]. by destruct Hk as [->| ->].
Qed.
#[local] Instance version_le_tail : TailRel version_le.
Proof.
  split; [apply _|]. intros k f d Hk. apply version_le_same. cbn [t_meta on_meta].
  rewrite lookup_insert_ne; [done|]. by destruct Hk as [->| ->].
Qed.
Section Tail.
Context (R : Db -> Db -> Prop) `{!TailRel R}.
Lemma tail_cr now req cmds rs : rel_ok R
  (modify adopt_head ≫= fun _ => enqueue GcMark (add64 now gc_quiet_ms) "{}" ≫= fun _ =>
   record_push_event req cmds rs now).
Proof.
  assert (forall k t p, rel_ok R (enqueue k t p)) by (intros; apply enqueue_cr; apply _).
  assert (forall k, rel_ok R (meta k)) by (intros; apply rel_ok_pure, _).
  apply rel_ok_bind; [apply _| |intros _].
  - intros d. cbn [modify fst]. unfold adopt_head. repeat case_match; try done.
    apply (tr_put "head" (fun _ => _)); by left.
  - unfold record_push_event. rel_tac; [|by apply meta_modify; [apply _|]].
    intros d. apply tr_put. by right.
Qed.
Lemma commit_cr now req : rel_ok R (commit_push now req).
Proof.
  assert (Hfin := finish_cr R req). assert (Hrun := run_cmds_cr R). assert (Hland := land_pack_cr R now).
  assert (Hone := apply_one_cr R). assert (Htail := tail_cr now req). assert (Hb := bump_cr R).
  assert (Hi := meta_i64_cr R). assert (rel_ok R barrier_active) by apply rel_ok_gets, _.
  assert (forall k, rel_ok R (meta k)) by (intros; apply rel_ok_pure, _).
  assert (forall cmds apply, (forall b c, rel_ok R (apply b c)) -> rel_ok R (commit_land now req cmds apply)) as Hl
    by (unfold commit_land; rel_tac).
  assert (forall b rs, rel_ok R (atomic_refuse now b req rs)) as Hr.
  { intros b rs. unfold atomic_refuse. rel_tac; by apply meta_modify; [apply _|]. }
  unfold commit_push, commit_apply. rel_tac.
Qed.
End Tail.

(** ** The memo is never stale *)

Lemma list_refs_ext d d' : refs_eq d d' -> key_eq "head" d d' -> list_refs d' = list_refs d.
Proof. unfold refs_eq, key_eq, list_refs. by intros -> ->. Qed.
Lemma memo_keep s d' : memo_ok s -> version_le (iso_db s) d' -> key_eq "repo_id" (iso_db s) d' ->
  version (iso_db s) < version d' \/ (refs_eq (iso_db s) d' /\ key_eq "head" (iso_db s) d') ->
  memo_ok (mkIso d' (iso_memo s)).
Proof.
  intros [Hid Hv Hm] Hle Hk Hor. destruct (Hle Hv) as [Hv' Hle']. split; cbn [iso_db iso_memo]; [by rewrite Hk|done|].
  intros m E. destruct (Hm m E) as [H1 H2]. split; [lia|]. intros Heq. destruct Hor as [|[Hr Hh]]; [lia|].
  rewrite (list_refs_ext _ _ Hr Hh). apply H2. lia.
Qed.
Lemma commit_memo now req s : hooks_enabled = false -> memo_ok s -> memo_ok (serve_commit now req s).
Proof.
  intros Hh Hs. set (d := iso_db s). assert (Hle := commit_cr version_le now req d).
  assert (Hk := commit_cr (key_eq "repo_id") now req d). assert (Hhd := commit_head now req d).
  assert (He := commit_err now req Hh d). unfold serve_commit, span. fold d.
  destruct (commit_push now req d) as [d' [rs|e]] eqn:E; cbn [fst snd] in *.
  - destruct (commit_effects Hh _ _ _ _ _ E (mo_version _ Hs)) as (_ & Hlt & Heq). apply memo_keep; [done..|].
    destruct (any_ok rs) eqn:Eo; [left; by apply Hlt|]. right. split; [by apply Heq|].
    destruct Hhd as [?|Ho]; [done|]. congruence.
  - destruct (fatal e) eqn:Ef; [by destruct s|]. apply memo_keep; [done..|]. right.
    destruct He as [?|?]; [congruence|]. destruct Hhd as [?|?]; [done|]. congruence.
Qed.

(** Booting a known repository touches only job rows and the repair counters. *)
Definition advert (d d' : Db) : Prop := refs_eq d d' /\ forall k, job_key k = false -> key_eq k d d'.
#[global] Instance advert_preorder : PreOrder advert.
Proof.
  split; [by intros d|]. intros d1 d2 d3 [H1 H2] [H3 H4]. split; [by transitivity d2|].
  intros k Hk. transitivity d2; auto.
Qed.
Lemma enqueue_refs k t p d : t_refs (enqueue_db k t p d) = t_refs d.
Proof. unfold enqueue_db. by case_match. Qed.
Lemma repair_kind_refs now k d : t_refs (repair_kind now k d) = t_refs d.
Proof.
  assert (t_refs (note_error k d) = t_refs d) as Hn by (unfold note_error; by destruct (last_dead_error k d)).
  rewrite repair_kind_unfold. destruct (0 <? _); [|done]. destruct (3 <=? _); [done|].
  cbn [t_refs on_meta]. by rewrite enqueue_refs.
Qed.
Lemma repair_refs now d : t_refs (repair now d) = t_refs d.
Proof.
  unfold repair. cbn [fold_left]. rewrite !repair_kind_refs. destruct (_ =? 0); [by rewrite enqueue_refs|done].
Qed.
Lemma boot_present now hex hdr d : is_Some (t_meta d !! "repo_id") -> advert d (boot now hex hdr d).1.
Proof.
  intros [id Hid].
  assert (rel_ok advert (modify (repair now) : DoM unit)).
  { intros d1. split; [apply repair_refs|]. intros k Hk. by apply repair_meta. }
  assert (rel_ok advert (boot_deleted now)).
  { assert (rel_ok advert (enqueue PurgeRepo now "{}")).
    { intros d1. split; [apply enqueue_refs|]. intros k _. unfold key_eq, enqueue, modify. cbn [fst]. by rewrite enqueue_meta. }
    unfold boot_deleted. rel_tac. by intros d1. }
  assert (rel_ok advert (read_meta id)) by by intros d1.
  unfold boot, meta_opt, gets. unfold mbind at 1, M_bind at 1. rewrite Hid.
  match goal with |- advert _ (?m _).1 => assert (rel_ok advert m) as Hm by rel_tac end. apply Hm.
Qed.
Lemma parse_i64_sql v z : parse_i64 v = Some z -> sql_int v = z.
Proof. unfold parse_i64, sql_int. destruct (parse_signed v); [|done]. by destruct (in_i64b _); intros [= ->]. Qed.
Lemma boot_version now hex hdr d d' m : is_Some (t_meta d !! "repo_id") -> boot now hex hdr d = (d', Ok m) ->
  m_refs_version m = version d.
Proof.
  intros [id Hid]. unfold boot, meta_opt, gets. unfold mbind at 1, M_bind at 1. rewrite Hid.
  intros (m' & d1 & Hr & H2)%bind_ok. apply bind_ok in H2 as (u & d2 & _ & H2).
  assert (m' = m) as ->.
  { destruct (h_owner hdr), (h_repo hdr); try (by injection H2). destruct (_ && _); [by injection H2|done]. }
  apply pair_equal_spec in Hr as [_ Hr]. revert Hr. unfold mbind, result_bind, of_option, version.
  destruct (t_meta d !! "owner"); [|done]. destruct (t_meta d !! "repo"); [|done]. destruct (t_meta d !! "head"); [|done].
  destruct (t_meta d !! "refs_version") as [v|]; [|done]. destruct (parse_i64 v) as [z|] eqn:Ez; [|done].
  destruct (t_meta d !! "gc_epoch") as [g|]; [|done]. destruct (parse_i64 g); [|done]. intros [= <-].
  cbn [m_refs_version unwrap_or]. symmetry. by apply parse_i64_sql.
Qed.
(** A read keeps the memo right, and what it answers is the current table. *)
Lemma read_memo now hex hdr s : memo_ok s ->
  memo_ok (serve_refs now hex hdr s).1
  /\ forall m, (serve_refs now hex hdr s).2 = Ok m ->
     list_refs (iso_db (serve_refs now hex hdr s).1) = Ok (mm_head m, mm_refs m).
Proof.
  intros Hs. assert (Ha := boot_present now hex hdr (iso_db s) (mo_id _ Hs)).
  assert (Hv := boot_version now hex hdr (iso_db s)).
  assert (forall d1, advert (iso_db s) d1 -> memo_ok (mkIso d1 (iso_memo s)) /\ version d1 = version (iso_db s)) as Hk.
  { intros d1 [Hr Hm]. assert (key_eq "refs_version" (iso_db s) d1) as Ev by by apply Hm.
    split; [|unfold version; by rewrite Ev]. apply memo_keep; [done|by apply version_le_same|by apply Hm|].
    right. split; [done|]. by apply Hm. }
  unfold serve_refs, span. destruct (boot now hex hdr (iso_db s)) as [d1 [meta|e]]; cbn [fst snd] in *.
  2:{ destruct (fatal e); cbn [fst snd]; (split; [|done]); [by apply Hk|by apply Hk]. }
  destruct (Hk d1 Ha) as [Hok Ev]. destruct (m_deleted meta); [split; [done|done]|].
  specialize (Hv d1 meta (mo_id _ Hs) eq_refl). rewrite <- Ev in Hv.
  assert (forall r, (let fresh := match list_refs d1 with
      | Ok (head, refs) => let m := mkMemo (m_refs_version meta) (obj_kind d1) (obj_format_pinned d1) head refs in
                           (mkIso d1 (Some m), Ok m)
      | Err e => (mkIso d1 (iso_memo s), Err e) end in fresh) = r ->
    memo_ok r.1 /\ forall m, r.2 = Ok m -> list_refs (iso_db r.1) = Ok (mm_head m, mm_refs m)) as Hfresh.
  { cbv zeta. intros r <-. destruct (list_refs d1) as [[head refs]|e] eqn:El; [|split; [done|done]].
    split; [|by intros m [= <-]]. split; [apply Hok|apply Hok|]. cbn [fst iso_db iso_memo]. intros m [= <-].
    cbn [mm_version mm_head mm_refs]. split; [lia|done]. }
  unfold refs_snapshot. cbn [iso_db iso_memo]. destruct (iso_memo s) as [m0|] eqn:Em; [|by apply Hfresh].
  destruct (mm_version m0 =? m_refs_version meta) eqn:Eq; [|by apply Hfresh]. cbn [andb].
  destruct (bool_decide _ && _); [|by apply Hfresh]. split; [done|]. intros m [= <-]. bsimp.
  apply (mo_memo _ Hok); [done|]. cbn [iso_db]. lia.
Qed.
Lemma memo_step s s' : hooks_enabled = false -> memo_ok s -> MemoStep s s' -> memo_ok s'.
Proof.
  intros Hh Hs Hst. destruct Hst as [now req s0|now hex hdr s0|s0 d1 (Hr & Hhd & Hv & Hid)];
    [by apply commit_memo|by apply read_memo|].
  apply memo_keep; [done|by apply version_le_same|done|by right].
Qed.

(** C22: The refs memo is never stale: from a booted isolate without a memo, after
    any sequence of commits, reads and requests that leave the refs alone, every
    answer of [GET /_do/refs] is the head and the sorted ref table of the store. *)
Theorem served_refs_current (d : Db) (s : Iso) (now : Z) (hex : string) (hdr : RepoHeaders) (m : RefsMemo) :
  hooks_enabled = false ->
  is_Some (t_meta d !! "repo_id") -> is_Some (t_meta d !! "refs_version") ->
  rtc MemoStep (mkIso d None) s ->
  (serve_refs now hex hdr s).2 = Ok m ->
  list_refs (iso_db (serve_refs now hex hdr s).1) = Ok (mm_head m, mm_refs m).
Proof.
  intros Hh Hid Hv Hst. apply read_memo.
  assert (memo_ok (mkIso d None)) as H0 by (by split). clear Hid Hv.
  induction Hst as [s|s s1 s2 Hst _ IH]; [done|]. apply IH. by eapply memo_step.
Qed.
End Memo.

(** ** The memo outlives the repository *)

Module MemoDemo.
#[local] Existing Instance demo_platform.
Definition hdr : RepoHeaders := mkHeaders (Some "o") (Some "r").
(** An admin push of one branch into the repository of the isolate. *)
Definition begin_req : BeginDto := mkBegin "p1" "admin" "" (Some "sha1") true.
Definition rows (sha : string) : list ObjRow := [mkObjRow sha 0 12 30 Commit 200 (Some [])].
Definition req (sha name : string) : CommitRequest :=
  mkCommit "p1" (Some "K1") "admin" [mkCmdDto PushDemo.zero sha name None] false.
Definition push_db (id sha name : string) (s : Iso) : Db :=
  let d1 := (boot 1000 id hdr (iso_db s)).1 in
  let d2 := (push_begin 1000 (mkMeta id "o" "r" "refs/heads/main" 0 0 false) begin_req d1).1 in
  (push_index 1100 (mkIndexPack "K1" 1 100 0 0 "p1") (rows sha) d2).1.
Definition push (id sha name : string) (s : Iso) : Iso :=
  serve_commit 1200 (req sha name) (mkIso (push_db id sha name s) (iso_memo s)).
(** A repository with a secret branch is pushed and read; it is deleted and
    purged; its name is taken again and pushed. *)
Definition first : Iso := push "id1" PushDemo.A "refs/heads/secret" (mkIso empty_db None).
Definition read1 : Iso * result Error RefsMemo := serve_refs 1300 "x" hdr first.
Definition second : Iso := push "id2" PushDemo.B "refs/heads/main" (purge read1.1).
End MemoDemo.

(** C35: The memo outlives the repository.  Whatever the refs of a repository were when
    an isolate last answered a read of them: after the repository is purged and its
    name taken again, and whatever requests other than reads have changed the new
    store since, once it has the refs_version, the format and the pin of that answer,
    the isolate answers with it, the refs of the deleted repository, and not with
    those of the store. *)
Theorem purge_serves_deleted_refs {PF : Platform} (t t' : Z) (hex hex' : string) (hdr hdr' : RepoHeaders) (s s1 s2 : Iso) (m : RefsMemo) (d : Db) (meta : Meta) :
  serve_refs t hex hdr s = (s1, Ok m) -> iso_memo s2 = iso_memo (purge s1) ->
  boot t' hex' hdr' (iso_db s2) = (d, Ok meta) -> m_deleted meta = false ->
  m_refs_version meta = mm_version m -> obj_kind d = mm_kind m -> obj_format_pinned d = mm_pinned m ->
  serve_refs t' hex' hdr' s2 = (mkIso d (Some m), Ok m).
Proof.
  intros H1 H2 Hb Hd Hv Hk Hp. assert (iso_memo s1 = Some m) as Hm.
  { unfold serve_refs in H1. destruct (span (boot t hex hdr) (iso_db s)) as [d1 [meta1|e]]; [|done]. destruct (m_deleted meta1); [done|].
    unfold refs_snapshot in H1. cbn [iso_memo iso_db] in H1. destruct (list_refs d1) as [[head refs]|e];
      destruct (iso_memo s) as [m0|] eqn:E0; try destruct (_ && _); by simplify_eq/=. }
  cbn [purge iso_memo] in H2. rewrite Hm in H2. unfold serve_refs, span. rewrite Hb. cbn [snd]. rewrite Hd. unfold refs_snapshot. cbn [iso_memo iso_db]. rewrite H2, Hv, Hk, Hp.
  by rewrite Z.eqb_refl, bool_decide_true, eqb_reflx.
Qed.
(** A secret branch, served after its repository was purged and another made. *)
Lemma purge_serves_deleted_refs_witness :
  let run := @serve_refs demo_platform 2000 "y" MemoDemo.hdr MemoDemo.second in
  run.2 = Ok (mkMemo 1 Sha1 true "refs/heads/secret" [mkRefRow "refs/heads/secret" PushDemo.A None])
  /\ @list_refs demo_platform (iso_db run.1) = Ok ("refs/heads/main", [mkRefRow "refs/heads/main" PushDemo.B None]).
Proof.
  split; [|vm_compute; reflexivity].
  pose (m := mkMemo 1 Sha1 true "refs/heads/secret" [mkRefRow "refs/heads/secret" PushDemo.A None]).
  pose (b := boot 2000 "y" MemoDemo.hdr (iso_db MemoDemo.second)).
  assert (exists meta, b = (b.1, Ok meta) /\ m_deleted meta = false /\ m_refs_version meta = 1) as (meta & Eb & Hd & Hv).
  { eexists. split; [vm_compute; reflexivity|]. split; reflexivity. }
  assert (@serve_refs demo_platform 1300 "x" MemoDemo.hdr MemoDemo.first = (MemoDemo.read1.1, Ok m)) as E1 by (vm_compute; reflexivity).
  assert (iso_memo MemoDemo.second = iso_memo (purge MemoDemo.read1.1)) as E2 by (vm_compute; reflexivity).
  rewrite (@purge_serves_deleted_refs demo_platform 1300 2000 "x" "y" MemoDemo.hdr MemoDemo.hdr MemoDemo.first MemoDemo.read1.1 MemoDemo.second m b.1 meta E1 E2 Eb Hd Hv
    ltac:(vm_compute; reflexivity) ltac:(vm_compute; reflexivity)). reflexivity.
Defined.

Lemma served_refs_current_witness :
  @list_refs demo_platform (iso_db MemoDemo.read1.1)
  = Ok ("refs/heads/secret", [mkRefRow "refs/heads/secret" PushDemo.A None]).
Proof.
  pose proof (@served_refs_current demo_platform (MemoDemo.push_db "id1" PushDemo.A "refs/heads/secret" (mkIso empty_db None))
    MemoDemo.first 1300 "x" MemoDemo.hdr
    (mkMemo 1 Sha1 true "refs/heads/secret" [mkRefRow "refs/heads/secret" PushDemo.A None])) as Ht.
  apply Ht.
  - reflexivity.
  - apply (bool_decide_unpack _). vm_compute. exact I.
  - apply (bool_decide_unpack _). vm_compute. exact I.
  - eapply rtc_l; [|apply rtc_refl]. apply (@MsCommit demo_platform 1200 (MemoDemo.req PushDemo.A "refs/heads/secret")).
  - vm_compute. reflexivity.
Defined.
