(* ===== verification/Wire.v ===== *)
(** * The git wire protocol

    [server/src/wire/mod.rs]: the pkt-line reader and writer, the sideband, the
    receive-pack header parser, the protocol v2 command parser, and the writers
    of advertisements, ls-refs, report-status and the fetch prelude.  The
    [gix_packetline] codec is a parameter ([Packetline]) with the pkt-line format
    as its laws ([PacketlineLaws]); [demo_packetline] is a codec that has them. *)
From S2P Require Import Prelude Errors Text Db Push Memo.
Open Scope Z_scope.

Definition MAX_PKT_DATA : Z := 65516.
Definition MAX_BAND_DATA : nat := Z.to_nat 65515.
Definition AGENT : string := "agent=git-edge/0.1".

(** ** The packet-line codec *)

Inductive PacketLineRef : Type := PData (d : string) | PFlush | PDelimiter | PResponseEnd.
Inductive Channel : Type := ChData | ChProgress | ChError.
Class Packetline : Type := {
  (** [decode::streaming]: an error text, incomplete, or a line and its length. *)
  streaming : string -> result string (option (PacketLineRef * nat));
  (** What the [*_to_write] encoders append, or their error text. *)
  data_to_write : string -> result string string;
  band_to_write : Channel -> string -> result string string;
  error_to_write : string -> result string string;
  flush_to_write : string;
  delim_to_write : string;
  response_end_to_write : string }.
Definition channel_byte (c : Channel) : ascii :=
  match c with ChData => chr 1 | ChProgress => chr 2 | ChError => chr 3 end.
(** [reads x l]: the bytes [x] are the whole encoding of the line [l]: it is read
    off the front of any input that starts with it, and any strict prefix of it
    is incomplete. *)
Definition reads `{Packetline} (x : string) (l : PacketLineRef) : Prop :=
  (forall rest, streaming (x +:+ rest) = Ok (Some (l, String.length x)))
  /\ (forall p q, x = p +:+ q -> q <> "" -> streaming p = Ok None).
Class PacketlineLaws `{Packetline} : Prop := {
  pl_consumes : forall s l n, streaming s = Ok (Some (l, n)) -> (1 <= n <= String.length s)%nat;
  pl_data : forall d, d <> "" -> str_len d <= MAX_PKT_DATA ->
    exists x, data_to_write d = Ok x /\ reads x (PData d);
  pl_band : forall c d, d <> "" -> (String.length d <= MAX_BAND_DATA)%nat ->
    band_to_write c d = data_to_write (String (channel_byte c) d);
  pl_flush : reads flush_to_write PFlush;
  pl_delim : reads delim_to_write PDelimiter;
  pl_end : reads response_end_to_write PResponseEnd }.

(** ** Reader and writer *)

Inductive Pkt : Type := Data (d : string) | Flush | Delim | ResponseEnd.
Record PktReader : Type := mkReader { rd_buf : string; rd_pos : nat }.
Definition reader0 : PktReader := mkReader "" 0.
Definition RdM : Type -> Type := M PktReader Error.
(** A [PktWriter] is its [out]. *)
Definition WrM : Type -> Type := M string Error.

Record RefCommand : Type := mkRefCommand { rc_old : string; rc_new : string; rc_name : string }.
Record ReceiveCaps : Type := mkCaps {
  cp_report_status : bool; cp_report_status_v2 : bool; cp_side_band_64k : bool; cp_delete_refs : bool;
  cp_quiet : bool; cp_ofs_delta : bool; cp_atomic : bool; cp_agent : option string; cp_object_format : HashKind }.
Record ReceiveHeader : Type := mkHeader {
  hd_commands : list RefCommand; hd_caps : ReceiveCaps; hd_shallow : list string }.

Inductive Filter : Type := BlobNone | BlobLimit (n : Z).
Record LsRefsArgs : Type := mkLsRefs {
  la_symrefs : bool; la_peel : bool; la_unborn : bool; la_prefixes : list string; la_object_format : HashKind }.
Record FetchArgs : Type := mkFetch {
  fa_wants : list string; fa_want_refs : list string; fa_haves : list string; fa_done : bool;
  fa_thin_pack : bool; fa_no_progress : bool; fa_include_tag : bool; fa_ofs_delta : bool;
  fa_deepen : option Z; fa_deepen_since : option Z; fa_deepen_not : list string; fa_deepen_relative : bool;
  fa_shallow : list string; fa_filter : option Filter; fa_packfile_uris : option (list string);
  fa_object_format : HashKind }.
Inductive V2Command : Type := LsRefs (a : LsRefsArgs) | Fetch (f : FetchArgs).
Inductive Service : Type := UploadPack (v1 : bool) | ReceivePack.
Inductive RefResult : Type := RrOk (n : string) | RrNg (n why : string).

Section Wire.
Context `{Platform, Packetline}.

Definition push (bytes : string) (r : PktReader) : PktReader := mkReader (rd_buf r +:+ bytes) (rd_pos r).
Definition rest_of (r : PktReader) : string := str_drop (rd_pos r) (rd_buf r).
Definition pkt_of (l : PacketLineRef) : Pkt :=
  match l with PData d => Data d | PFlush => Flush | PDelimiter => Delim | PResponseEnd => ResponseEnd end.
Definition next : RdM (option Pkt) := fun r =>
  match streaming (rest_of r) with
  | Err e => (r, Err (Protocol ("pkt-line: " +:+ e)))
  | Ok None => (r, Ok None)
  | Ok (Some (l, used)) => (mkReader (rd_buf r) (rd_pos r + used), Ok (Some (pkt_of l)))
  end.
Definition remainder (r : PktReader) : PktReader * string :=
  (mkReader (rd_buf r) (String.length (rd_buf r)), rest_of r).

Definition emit (x : string) : WrM unit := modify (fun out => out +:+ x).
Definition wr_data (b : string) : WrM unit :=
  if MAX_PKT_DATA <? str_len b then fail (Internal "pkt-line over 65516 bytes")
  else match data_to_write b with
       | Ok x => emit x
       | Err e => fail (Internal e)
       end.
Definition wr_text (s : string) : WrM unit := if ends_with nl_s s then wr_data s else wr_data (s +:+ nl_s).
Definition wr_flush : WrM unit := emit flush_to_write.
Definition wr_delim : WrM unit := emit delim_to_write.
Definition wr_response_end : WrM unit := emit response_end_to_write.
(** [let _ = encode::…]: a failed write leaves the buffer as it is. *)
Definition ignore (r : result string string) : WrM unit :=
  match r with Ok x => emit x | Err _ => mret tt end.
Definition line (b : string) : WrM unit := fun out =>
  match wr_data b out with
  | (out', Ok _) => (out', Ok tt)
  | (out', Err _) => ignore (error_to_write "line too long") out'
  end.

Definition sb_data (b : string) : WrM unit :=
  for_each (chunks MAX_BAND_DATA b) (fun c => ignore (band_to_write ChData c)).
Definition first_chunk (s : string) : string := unwrap_or "" (head (chunks MAX_BAND_DATA s)).
Definition sb_progress (s : string) : WrM unit := ignore (band_to_write ChProgress (first_chunk s)).
Definition sb_error (s : string) : WrM unit := ignore (band_to_write ChError (first_chunk s)).

(** ** The receive-pack header *)

Definition wire_oid (hex : string) : result Error string :=
  of_option (Protocol ("bad oid " +:+ lossy hex)) (oid_from_hex hex).
Definition caps0 : ReceiveCaps := mkCaps false false false false false false false None Sha1.
Definition parse_format (f : string) : result Error HashKind :=
  if String.eqb f "sha1" then Ok Sha1
  else if String.eqb f "sha256" then Ok Sha256
  else Err (Protocol ("object-format " +:+ lossy f +:+ " unsupported")).
Definition add_cap (k : ReceiveCaps) (c : string) : result Error ReceiveCaps :=
  let 'mkCaps rs rs2 sb dr q od at_ ag fm := k in
  if String.eqb c "report-status" then Ok (mkCaps true rs2 sb dr q od at_ ag fm)
  else if String.eqb c "report-status-v2" then Ok (mkCaps rs true sb dr q od at_ ag fm)
  else if String.eqb c "side-band-64k" then Ok (mkCaps rs rs2 true dr q od at_ ag fm)
  else if String.eqb c "delete-refs" then Ok (mkCaps rs rs2 sb true q od at_ ag fm)
  else if String.eqb c "quiet" then Ok (mkCaps rs rs2 sb dr true od at_ ag fm)
  else if String.eqb c "ofs-delta" then Ok (mkCaps rs rs2 sb dr q true at_ ag fm)
  else if String.eqb c "atomic" then Ok (mkCaps rs rs2 sb dr q od true ag fm)
  else if String.eqb c "no-thin" then Ok k
  else if starts_with "agent=" c then Ok (mkCaps rs rs2 sb dr q od at_ (Some c) fm)
  else match strip_prefix "object-format=" c with
       | Some f => fm' ← parse_format f; Ok (mkCaps rs rs2 sb dr q od at_ ag fm')
       | None => Ok k
       end.
Fixpoint add_caps (k : ReceiveCaps) (cs : list string) : result Error ReceiveCaps :=
  match cs with [] => Ok k | c :: cs' => k' ← add_cap k c; add_caps k' cs' end.
Definition strip_nl (d : string) : string := unwrap_or d (strip_suffix nl_s d).
(** One data line of the header: a shallow id or a command. *)
Definition header_line (first_command : bool) (h : ReceiveHeader) (d : string) : result Error (ReceiveHeader * bool) :=
  match strip_prefix "shallow " d with
  | Some rest => o ← wire_oid rest; Ok (mkHeader (hd_commands h) (hd_caps h) (hd_shallow h ++ [o]), first_command)
  | None =>
      split ← (match split_once nul d with
               | Some (l, cs) => if negb first_command then Err (Protocol "capabilities on a later command")
                                 else Ok (l, Some cs)
               | None => Ok (d, None)
               end : result Error (string * option string));
      caps ← (match split.2 with
              | Some cs => add_caps (hd_caps h) (split_on " " cs)
              | None => Ok (hd_caps h)
              end);
      match split_once " " split.1 with
      | None => Err (Protocol "bad command")
      | Some (old_hex, rest) =>
          match split_once " " rest with
          | None => Err (Protocol "bad command")
          | Some (new_hex, name) =>
              if str_empty name then Err (Protocol "command without ref name")
              else old ← wire_oid old_hex; new ← wire_oid new_hex;
                   Ok (mkHeader (hd_commands h ++ [mkRefCommand old new name]) caps (hd_shallow h), false)
          end
      end
  end.
(** The loop; [None] is out of fuel. *)
Fixpoint header_loop (fuel : nat) (first_command : bool) (h : ReceiveHeader) (r : PktReader) :
    option (PktReader * result Error (option ReceiveHeader)) :=
  match fuel with
  | O => None
  | S f =>
      match next r with
      | (r', Err e) => Some (r', Err e)
      | (r', Ok None) => Some (r', Ok None)
      | (r', Ok (Some Flush)) => Some (r', Ok (Some h))
      | (r', Ok (Some (Data d))) =>
          match header_line first_command h (strip_nl d) with
          | Err e => Some (r', Err e)
          | Ok (h', fc) => header_loop f fc h' r'
          end
      | (r', Ok (Some (Delim | ResponseEnd))) => Some (r', Err (Protocol "delim/response-end in receive header"))
      end
  end.
Definition parse_receive_header (r : PktReader) : option (PktReader * result Error (option ReceiveHeader)) :=
  header_loop (S (String.length (rest_of r))) true (mkHeader [] caps0 []) r.

(** ** Protocol v2 commands *)

Definition bad (what x : string) : Error := Protocol (what +:+ ": unknown argument " +:+ lossy x).
(** [to_str().ok()?.parse::<u64>().ok()]: text with a non-ASCII byte is no number. *)
Definition num (b : string) : option Z := parse_u64 b.

Definition ls_refs_arg (a : LsRefsArgs) (l : string) : result Error LsRefsArgs :=
  let 'mkLsRefs s p u ps fm := a in
  if String.eqb l "symrefs" then Ok (mkLsRefs true p u ps fm)
  else if String.eqb l "peel" then Ok (mkLsRefs s true u ps fm)
  else if String.eqb l "unborn" then Ok (mkLsRefs s p true ps fm)
  else if 32 <=? Z.of_nat (length ps) then Err (bad "ls-refs" "too many ref-prefix")
  else match strip_prefix "ref-prefix " l with
       | Some x => Ok (mkLsRefs s p u (ps ++ [x]) fm)
       | None => Err (bad "ls-refs" l)
       end.
Fixpoint fold_ok {A B} (f : A -> B -> result Error A) (a : A) (l : list B) : result Error A :=
  match l with [] => Ok a | x :: l' => a' ← f a x; fold_ok f a' l' end.
Definition parse_ls_refs (args : list string) (fm : HashKind) : result Error LsRefsArgs :=
  fold_ok ls_refs_arg (mkLsRefs false false false [] fm) args.

Definition fetch_arg (f : FetchArgs) (l : string) : result Error FetchArgs :=
  let 'mkFetch ws wr hs dn tp np it od dp ds dnot dr sh fl pu fm := f in
  let kv := match split_once " " l with Some kv => kv | None => (l, "") end in
  let k := kv.1 in let v := kv.2 in
  if String.eqb k "want" then o ← wire_oid v; Ok (mkFetch (ws ++ [o]) wr hs dn tp np it od dp ds dnot dr sh fl pu fm)
  else if String.eqb k "want-ref" then
    if str_empty v then Err (bad "want-ref" v) else Ok (mkFetch ws (wr ++ [v]) hs dn tp np it od dp ds dnot dr sh fl pu fm)
  else if String.eqb k "have" then o ← wire_oid v; Ok (mkFetch ws wr (hs ++ [o]) dn tp np it od dp ds dnot dr sh fl pu fm)
  else if String.eqb k "shallow" then o ← wire_oid v; Ok (mkFetch ws wr hs dn tp np it od dp ds dnot dr (sh ++ [o]) fl pu fm)
  else if String.eqb k "done" then Ok (mkFetch ws wr hs true tp np it od dp ds dnot dr sh fl pu fm)
  else if String.eqb k "thin-pack" then Ok (mkFetch ws wr hs dn true np it od dp ds dnot dr sh fl pu fm)
  else if String.eqb k "no-progress" then Ok (mkFetch ws wr hs dn tp true it od dp ds dnot dr sh fl pu fm)
  else if String.eqb k "include-tag" then Ok (mkFetch ws wr hs dn tp np true od dp ds dnot dr sh fl pu fm)
  else if String.eqb k "ofs-delta" then Ok (mkFetch ws wr hs dn tp np it true dp ds dnot dr sh fl pu fm)
  else if String.eqb k "deepen" then
    match num v with
    | Some n => if (n <=? u32_max) && (0 <? n) then Ok (mkFetch ws wr hs dn tp np it od (Some n) ds dnot dr sh fl pu fm)
                else Err (bad "deepen" v)
    | None => Err (bad "deepen" v)
    end
  else if String.eqb k "deepen-since" then
    match num v with
    | Some n => if n <=? i64_max then Ok (mkFetch ws wr hs dn tp np it od dp (Some n) dnot dr sh fl pu fm)
                else Err (bad "deepen-since" v)
    | None => Err (bad "deepen-since" v)
    end
  else if String.eqb k "deepen-not" then
    if str_empty v then Err (bad "deepen-not" v) else Ok (mkFetch ws wr hs dn tp np it od dp ds (dnot ++ [v]) dr sh fl pu fm)
  else if String.eqb k "deepen-relative" then Ok (mkFetch ws wr hs dn tp np it od dp ds dnot true sh fl pu fm)
  else if String.eqb k "no-done" then Ok f
  else if String.eqb k "packfile-uris" then
    match pu with
    | Some _ => Err (bad "packfile-uris" v)
    | None => Ok (mkFetch ws wr hs dn tp np it od dp ds dnot dr sh fl
                    (Some (List.filter (fun s => negb (str_empty s)) (split_on "," v))) fm)
    end
  else if String.eqb k "filter" && String.eqb v "blob:none"
    then Ok (mkFetch ws wr hs dn tp np it od dp ds dnot dr sh (Some BlobNone) pu fm)
  else if String.eqb k "filter" then
    match strip_prefix "blob:limit=" v ≫= num with
    | Some n => Ok (mkFetch ws wr hs dn tp np it od dp ds dnot dr sh (Some (BlobLimit n)) pu fm)
    | None => Err (bad "filter" v)
    end
  else Err (bad "fetch" k).
Definition fetch0 (fm : HashKind) : FetchArgs :=
  mkFetch [] [] [] false false false false false None None [] false [] None None fm.
Definition null {A} (l : list A) : bool := match l with [] => true | _ => false end.
Definition parse_fetch (args : list string) (fm : HashKind) : result Error FetchArgs :=
  f ← fold_ok fetch_arg (fetch0 fm) args;
  if is_some (fa_deepen f) && (is_some (fa_deepen_since f) || negb (null (fa_deepen_not f))) then
    Err (Protocol "deepen and deepen-since (or deepen-not) cannot be used together")
  else if is_some (fa_deepen_since f) && negb (null (fa_deepen_not f)) then
    Err (Protocol "deepen-since and deepen-not cannot be used together")
  else if null (fa_wants f) && null (fa_want_refs f) then Err (Protocol "fetch: no want lines")
  else Ok f.

Record V2State : Type := mkV2 { v2_cmd : option string; v2_args : list string; v2_in_args : bool; v2_format : HashKind }.
Definition v2_line (s : V2State) (d : string) : result Error V2State :=
  let 'mkV2 cmd args in_args fm := s in
  if in_args then Ok (mkV2 cmd (args ++ [d]) in_args fm)
  else match strip_prefix "command=" d with
       | Some c => if is_some cmd then Err (Protocol "duplicate command line") else Ok (mkV2 (Some c) args in_args fm)
       | None =>
           match strip_prefix "object-format=" d with
           | Some f => fm' ← parse_format f; Ok (mkV2 cmd args in_args fm')
           | None => if starts_with "agent=" d || starts_with "session-id=" d then Ok s
                     else Err (Protocol ("unexpected pre-delim line " +:+ lossy d))
           end
       end.
Fixpoint v2_loop (fuel : nat) (s : V2State) (r : PktReader) : option (result Error V2State) :=
  match fuel with
  | O => None
  | S f =>
      match next r with
      | (_, Err e) => Some (Err e)
      | (_, Ok (None | Some ResponseEnd)) => Some (Err (Protocol "truncated v2 command"))
      | (_, Ok (Some Flush)) => Some (Ok s)
      | (r', Ok (Some Delim)) => v2_loop f (mkV2 (v2_cmd s) (v2_args s) true (v2_format s)) r'
      | (r', Ok (Some (Data d))) =>
          match v2_line s (strip_nl d) with
          | Err e => Some (Err e)
          | Ok s' => v2_loop f s' r'
          end
      end
  end.
Definition parse_v2_command (body : string) : option (result Error V2Command) :=
  match v2_loop (S (String.length body)) (mkV2 None [] false Sha1) (push body reader0) with
  | None => None
  | Some (Err e) => Some (Err e)
  | Some (Ok s) =>
      Some (match v2_cmd s with
            | Some c =>
                if String.eqb c "ls-refs" then a ← parse_ls_refs (v2_args s) (v2_format s); Ok (LsRefs a)
                else if String.eqb c "fetch" then f ← parse_fetch (v2_args s) (v2_format s); Ok (Fetch f)
                else Err (Protocol "unknown command")
            | None => Err (Protocol "unknown command")
            end)
  end.

(** ** Advertisements and answers *)

Definition format_cap (f : HashKind) : string := "object-format=" +:+ kind_name f.
Definition write_capability_advertisement_v2 (formats : list HashKind) : WrM unit :=
  for_each ["version 2"; AGENT; "ls-refs=unborn"; "fetch=shallow filter packfile-uris"]
    (fun l => line (l +:+ nl_s)) ≫= fun _ =>
  for_each formats (fun f => line (format_cap f +:+ nl_s)) ≫= fun _ =>
  wr_flush.

Definition wanted (a : LsRefsArgs) (n : string) : bool :=
  null (la_prefixes a) || existsb (fun p => starts_with p n) (la_prefixes a).
Definition peel (a : LsRefsArgs) (r : RefRow) : string :=
  if la_peel a then match rr_peeled r with Some p => " peeled:" +:+ p | None => "" end else "".
Definition find_ref (h : string) (refs : list RefRow) : option RefRow :=
  List.find (fun r => String.eqb (rr_name r) h) refs.
Definition ref_line (a : LsRefsArgs) (r : RefRow) : string :=
  rr_target r +:+ " " +:+ lossy (rr_name r) +:+ peel a r +:+ nl_s.
Definition head_line (a : LsRefsArgs) (h : string) (refs : list RefRow) : option string :=
  match find_ref h refs with
  | Some r => Some (rr_target r +:+ " HEAD" +:+ (if la_symrefs a then " symref-target:" +:+ lossy h else "")
                    +:+ peel a r +:+ nl_s)
  | None => if la_unborn a then Some ("unborn HEAD symref-target:" +:+ lossy h +:+ nl_s) else None
  end.
Definition write_ls_refs (a : LsRefsArgs) (head : option string) (refs : list RefRow) : WrM unit :=
  match head with
  | Some h => if wanted a "HEAD" then match head_line a h refs with Some l => line l | None => mret tt end else mret tt
  | None => mret tt
  end ≫= fun _ =>
  for_each (List.filter (fun r => wanted a (rr_name r)) refs) (fun r => line (ref_line a r)) ≫= fun _ =>
  wr_flush.

(** [ObjectId::null(kind)]. *)
Definition null_oid (k : HashKind) : string :=
  bytes (replicate (match k with Sha1 => 40 | Sha256 => 64 end) 48%nat).
Definition adv_caps (service : Service) (formats : list HashKind) : string * string :=
  let fmt := join " " (map format_cap formats) in
  match service with
  | UploadPack _ => ("git-upload-pack", fmt +:+ " " +:+ AGENT)
  | ReceivePack => ("git-receive-pack",
      "report-status delete-refs side-band-64k quiet ofs-delta atomic " +:+ fmt +:+ " " +:+ AGENT)
  end.
Definition adv_rows (head : option string) (refs : list RefRow) : list RefRow :=
  match head ≫= fun h => find_ref h refs with
  | Some r => [mkRefRow "HEAD" (rr_target r) None]
  | None => []
  end ++ refs.
Fixpoint adv_lines (caps : string) (first : bool) (rows : list RefRow) : list string :=
  match rows with
  | [] => []
  | r :: rows' =>
      (rr_target r +:+ " " +:+ lossy (rr_name r) +:+ (if first then nul_s +:+ caps else "") +:+ nl_s)
      :: match rr_peeled r with Some p => [p +:+ " " +:+ lossy (rr_name r) +:+ "^{}" +:+ nl_s] | None => [] end
      ++ adv_lines caps false rows'
  end.
(** [formats[0]]: the callers always pass a format; an empty list is a panic. *)
Definition write_advertisement_v0 (service : Service) (head : option string) (refs : list RefRow)
    (formats : list HashKind) : WrM unit :=
  let '(name, caps) := adv_caps service formats in
  line ("# service=" +:+ name +:+ nl_s) ≫= fun _ =>
  wr_flush ≫= fun _ =>
  (match service with UploadPack true => line ("version 1" +:+ nl_s) | _ => mret tt end) ≫= fun _ =>
  for_each (adv_lines caps true (adv_rows head refs)) line ≫= fun _ =>
  (match adv_rows head refs, formats with
   | [], f :: _ => line (null_oid f +:+ " capabilities^{}" +:+ nul_s +:+ caps +:+ nl_s)
   | [], [] => fail (Internal "panic: formats[0]")
   | _, _ => mret tt
   end) ≫= fun _ =>
  wr_flush.

Definition echo_name (n : string) : string := str_map (fun b => if is_ascii_graphic b then b else "?"%char) n.
Definition result_text (r : RefResult) : string :=
  match r with
  | RrOk n => "ok " +:+ lossy (echo_name n)
  | RrNg n why => "ng " +:+ lossy (echo_name n) +:+ " " +:+ why
  end.
Definition report_body (unpack : result string unit) (results : list RefResult) : WrM unit :=
  (match unpack with Ok _ => wr_text "unpack ok" | Err m => wr_text ("unpack " +:+ m) end) ≫= fun _ =>
  for_each results (fun r => wr_text (result_text r)) ≫= fun _ =>
  wr_flush.
Definition write_report_status (unpack : result string unit) (results : list RefResult) (caps : ReceiveCaps) : WrM unit :=
  fun out =>
    match report_body unpack results "" with
    | (_, Err e) => (out, Err e)
    | (body, Ok _) => ((if cp_side_band_64k caps then sb_data body else emit body) ≫= fun _ => wr_flush) out
    end.

(** A section: its name, its lines, a delimiter. *)
Definition section (name : string) (lines : list string) : WrM unit :=
  wr_text name ≫= fun _ => for_each lines wr_text ≫= fun _ => wr_delim.
(** What follows the acknowledgments. *)
Definition fetch_sections (wanted_refs : list (string * string)) (shallow unshallow uris : list string) : WrM bool :=
  (if negb (null shallow) || negb (null unshallow) then
     section "shallow-info" (map (fun s => "shallow " +:+ s) shallow ++ map (fun u => "unshallow " +:+ u) unshallow)
   else mret tt) ≫= fun _ =>
  (if negb (null wanted_refs) then section "wanted-refs" (map (fun p => p.1 +:+ " " +:+ lossy p.2) wanted_refs)
   else mret tt) ≫= fun _ =>
  (if negb (null uris) then section "packfile-uris" uris else mret tt) ≫= fun _ =>
  wr_text "packfile" ≫= fun _ => mret true.
Definition write_fetch_prelude (args : FetchArgs) (acks : list string) (wanted_refs : list (string * string))
    (shallow unshallow uris : list string) : WrM bool :=
  let ready := fa_done args || null (fa_haves args) || (length (fa_haves args) <=? length acks)%nat in
  if negb (null (fa_haves args)) && negb (fa_done args) then
    wr_text "acknowledgments" ≫= fun _ =>
    (if null acks then wr_text "NAK" else for_each acks (fun a => wr_text ("ACK " +:+ a))) ≫= fun _ =>
    if negb ready then wr_flush ≫= fun _ => mret false
    else wr_text "ready" ≫= fun _ => wr_delim ≫= fun _ => fetch_sections wanted_refs shallow unshallow uris
  else fetch_sections wanted_refs shallow unshallow uris.
End Wire.
