(* ===== verification/WireFacts.v ===== *)
(** * Facts on the wire protocol

    A codec with the laws of [PacketlineLaws]; reading back what the writers of
    [Wire] wrote; the parsers against the requests a client writes; the shape of
    the server's answers. *)
From S2P Require Import Prelude Errors Text Db Push Memo Wire.
Open Scope Z_scope.

(** ** A codec with the laws *)

Definition demo_streaming (s : string) : result string (option (PacketLineRef * nat)) :=
  if (String.length s <? 4)%nat then Ok None
  else match hex4_value s with
       | None => Err "bad length"
       | Some n =>
           if n =? 0 then Ok (Some (PFlush, 4%nat))
           else if n =? 1 then Ok (Some (PDelimiter, 4%nat))
           else if n =? 2 then Ok (Some (PResponseEnd, 4%nat))
           else if (n <=? 4) || (65520 <? n) then Err "bad length"
           else if (String.length s <? Z.to_nat n)%nat then Ok None
           else Ok (Some (PData (str_take (Z.to_nat n - 4) (str_drop 4 s)), Z.to_nat n))
       end.
Definition demo_data (d : string) : result string string :=
  if str_empty d then Err "empty line"
  else if MAX_PKT_DATA <? str_len d then Err "line too long"
  else Ok (hex04 (str_len d + 4) +:+ d).
Definition demo_packetline : Packetline := {|
  streaming := demo_streaming;
  data_to_write := demo_data;
  band_to_write := fun c d => demo_data (String (channel_byte c) d);
  error_to_write := fun d => demo_data ("ERR " +:+ d);
  flush_to_write := "0000"; delim_to_write := "0001"; response_end_to_write := "0002" |}.

Lemma app_length_lt (p q x : string) : x = p +:+ q -> q <> "" -> (String.length p < String.length x)%nat.
Proof. intros -> Hq. rewrite length_app_s. destruct q; [done|]. simpl. lia. Qed.
Lemma app_prefix_take p q x : x = p +:+ q -> p = str_take (String.length p) x.
Proof. intros ->. induction p as [|c p IH]; simpl; [by destruct q|]. by rewrite <- IH. Qed.
Lemma str_take_app a b : str_take (String.length a) (a +:+ b) = a.
Proof. induction a as [|c a IH]; simpl; [by destruct b|]. by rewrite IH. Qed.
Lemma demo_short p : (String.length p < 4)%nat -> demo_streaming p = Ok None.
Proof. intros Hp. unfold demo_streaming. by rewrite (proj2 (Nat.ltb_lt _ _)). Qed.
Lemma demo_control x l : String.length x = 4%nat -> (forall rest, demo_streaming (x +:+ rest) = Ok (Some (l, 4%nat))) ->
  @reads demo_packetline x l.
Proof.
  intros Hx Hr. split; [by rewrite Hx|]. intros p q E Hq. apply demo_short. rewrite <- Hx. by eapply app_length_lt.
Qed.
Lemma demo_prefix d p q : d <> "" -> str_len d <= MAX_PKT_DATA -> hex04 (str_len d + 4) +:+ d = p +:+ q -> q <> "" ->
  demo_streaming p = Ok None.
Proof.
  intros Hd Hl E Hq. unfold MAX_PKT_DATA in *. set (h := hex04 _) in *.
  assert (1 <= str_len d) as Hpos by (destruct d; [done|unfold str_len; simpl; lia]).
  destruct (hex04_value (str_len d + 4)) as [Hv Hlen]; [lia|]. fold h in Hv, Hlen.
  assert (String.length p < 4 + String.length d)%nat as Hlt.
  { apply app_length_lt in E; [|done]. rewrite length_app_s in E. lia. }
  destruct (Nat.lt_ge_cases (String.length p) 4) as [|Hge]; [by apply demo_short|].
  assert (exists p', p = h +:+ p') as [p' ->].
  { clear - E Hge Hlen. revert p E Hge. destruct h as [|a [|b [|c [|e [|? ?]]]]]; simpl in Hlen; try lia.
    intros [|a' [|b' [|c' [|e' p]]]] E Hge; simpl in Hge; try lia. simpl in E. injection E as -> -> -> -> _. by exists p. }
  unfold demo_streaming. rewrite (proj2 (Nat.ltb_ge _ _)) by lia. rewrite hex4_value_app, Hv by done.
  do 3 (rewrite (proj2 (Z.eqb_neq _ _)) by lia). rewrite (proj2 (orb_false_iff _ _)) by lia.
  rewrite (proj2 (Nat.ltb_lt _ _)); [done|]. rewrite length_app_s in Hlt |- *. unfold str_len. lia.
Qed.
#[export] Instance demo_packetline_laws : @PacketlineLaws demo_packetline.
Proof.
  split.
  - intros s l n. simpl. unfold demo_streaming. destruct (Nat.ltb_spec (String.length s) 4); [done|].
    destruct (hex4_value s) as [v|]; [|done]. do 3 (destruct (_ =? _); [intros [= _ <-]; lia|]).
    destruct (Z.leb_spec v 4); [done|]. destruct (65520 <? v); [done|]. cbn [orb].
    destruct (Nat.ltb_spec (String.length s) (Z.to_nat v)); [done|]. intros [= _ <-]. lia.
  - intros d Hd Hl. exists (hex04 (str_len d + 4) +:+ d).
    assert (1 <= str_len d) as Hpos by (destruct d; [done|unfold str_len; simpl; lia]).
    split.
    + simpl. unfold demo_data, str_empty. rewrite (proj2 (String.eqb_neq _ _)) by done.
      by rewrite (proj2 (Z.ltb_ge _ _)).
    + unfold MAX_PKT_DATA in Hl. destruct (hex04_value (str_len d + 4)) as [Hv Hlen]; [lia|].
      split; [|intros p q; by apply demo_prefix]. intros rest. simpl. unfold demo_streaming.
      rewrite app_assoc_s, !length_app_s, Hlen. rewrite (proj2 (Nat.ltb_ge _ _)) by lia. rewrite hex4_value_app, Hv by done.
      do 3 (rewrite (proj2 (Z.eqb_neq _ _)) by lia). rewrite (proj2 (orb_false_iff _ _)) by lia.
      rewrite (proj2 (Nat.ltb_ge _ _)) by (unfold str_len; lia).
      assert (str_drop 4 (hex04 (str_len d + 4) +:+ d +:+ rest) = d +:+ rest) as -> by (rewrite <- Hlen at 1; apply str_drop_app).
      assert (Z.to_nat (str_len d + 4) - 4 = String.length d)%nat as -> by (unfold str_len; lia).
      rewrite str_take_app. do 3 f_equal. unfold str_len. lia.
  - done.
  - by apply demo_control.
  - by apply demo_control.
  - by apply demo_control.
Qed.

(** ** Reading back a stream of packets *)

Section Stream.
Context `{PL : Packetline, !PacketlineLaws}.

(** The bytes [x] are the packets [ps], one after the other. *)
Inductive encodes : list Pkt -> string -> Prop :=
| enc_nil : encodes [] ""
| enc_cons l ps y x : reads y l -> encodes ps x -> encodes (pkt_of l :: ps) (y +:+ x).
Lemma encodes_app ps qs x y : encodes ps x -> encodes qs y -> encodes (ps ++ qs) (x +:+ y).
Proof.
  intros Hx Hy. induction Hx as [|l ps z x Hr _ IH]; [done|]. rewrite app_assoc_s. by constructor.
Qed.
Lemma encodes_one l y : reads y l -> encodes [pkt_of l] y.
Proof. intros Hr. rewrite <- (app_empty_r y). constructor; [done|constructor]. Qed.

Lemma next_reads r y l rest : rest_of r = y +:+ rest -> reads y l ->
  exists r', next r = (r', Ok (Some (pkt_of l))) /\ rest_of r' = rest.
Proof.
  intros Hr [Hs _]. unfold next. rewrite Hr, Hs. eexists. split; [done|].
  unfold rest_of in *. cbn [rd_buf rd_pos]. rewrite <- str_drop_drop, Hr. apply str_drop_app.
Qed.
Lemma next_short r y l p q : reads y l -> y = p +:+ q -> q <> "" -> rest_of r = p -> next r = (r, Ok None).
Proof. intros [_ Hs] E Hq Hr. unfold next. by rewrite Hr, (Hs p q). Qed.
Lemma next_shrinks r r' p : next r = (r', Ok (Some p)) -> (String.length (rest_of r') < String.length (rest_of r))%nat.
Proof.
  unfold next. destruct (streaming (rest_of r)) as [[[l n]|]|e] eqn:E; [|done|done]. intros [= <- _].
  apply pl_consumes in E. revert E. unfold rest_of. cbn [rd_buf rd_pos]. rewrite !str_drop_length. lia.
Qed.

(** What the writer appends when it succeeds. *)
Lemma wr_data_run d out out' : d <> "" -> wr_data d out = (out', Ok tt) -> exists y, out' = out +:+ y /\ encodes [Data d] y.
Proof.
  intros Hd. unfold wr_data. destruct (Z.ltb_spec MAX_PKT_DATA (str_len d)); [done|].
  destruct (pl_data d Hd) as (x & -> & Hr); [done|]. intros [= <-]. exists x. split; [done|]. by apply (encodes_one (PData d)).
Qed.
Lemma wr_data_ok d out : d <> "" -> str_len d <= MAX_PKT_DATA -> (wr_data d out).2 = Ok tt.
Proof.
  intros Hd Hl. unfold wr_data. rewrite (proj2 (Z.ltb_ge _ _)) by done. by destruct (pl_data d Hd Hl) as (x & -> & _).
Qed.
Lemma wr_each_run {A} (f : A -> string) (l : list A) out out' : Forall (fun a => f a <> "") l ->
  for_each l (fun a => wr_data (f a)) out = (out', Ok tt) ->
  exists y, out' = out +:+ y /\ encodes (map (fun a => Data (f a)) l) y.
Proof.
  intros Hl. revert out. induction Hl as [|a l Ha _ IH]; intros out Hr; simpl in Hr.
  - injection Hr as <-. exists "". rewrite app_empty_r. split; [done|constructor].
  - apply bind_ok in Hr as ([] & o1 & H1 & Hr). apply wr_data_run in H1 as (y & -> & Hy); [|done].
    destruct (IH _ Hr) as (z & -> & Hz). exists (y +:+ z). rewrite app_assoc_s. split; [done|].
    simpl. by apply (encodes_app [_]).
Qed.
Lemma wr_flush_run out out' : wr_flush out = (out', Ok tt) -> exists y, out' = out +:+ y /\ encodes [Flush] y.
Proof. intros [= <-]. eexists. split; [done|]. apply (encodes_one PFlush), pl_flush. Qed.
(** A client that writes the lines [ls] and a flush. *)
Definition write_lines (ls : list string) : WrM unit := for_each ls wr_data ≫= fun _ => wr_flush.
Lemma write_lines_run ls x : Forall (fun l => l <> "") ls -> write_lines ls "" = (x, Ok tt) ->
  encodes (map Data ls ++ [Flush]) x.
Proof.
  intros Hl Hr. apply bind_ok in Hr as ([] & o & H1 & H2). apply (wr_each_run id) in H1 as (y & -> & Hy); [|done].
  apply wr_flush_run in H2 as (z & -> & Hz). by apply encodes_app.
Qed.

(** ** The receive header *)

Context `{PF : Platform}.

Fixpoint header_fold (fc : bool) (h : ReceiveHeader) (ls : list string) : result Error (ReceiveHeader * bool) :=
  match ls with
  | [] => Ok (h, fc)
  | l :: ls' => p ← header_line fc h (strip_nl l); header_fold p.2 p.1 ls'
  end.
Lemma header_loop_reads ls : forall fuel fc h r x rest h' fc',
  encodes (map Data ls ++ [Flush]) x -> rest_of r = x +:+ rest -> (length ls < fuel)%nat ->
  header_fold fc h ls = Ok (h', fc') ->
  exists r', header_loop fuel fc h r = Some (r', Ok (Some h')) /\ rest_of r' = rest.
Proof.
  induction ls as [|d ls IH]; intros fuel fc h r x rest h' fc' He Hr Hf Hh; (destruct fuel as [|fuel]; [simpl in Hf; lia|]);
    simpl in He; inversion He as [|l ps y x' Hy Hx El Ex]; subst; rewrite app_assoc_s in Hr;
    destruct (next_reads _ _ _ _ Hr Hy) as (r' & Hn & Hr'); cbn [header_loop]; rewrite Hn.
  - destruct l; simplify_eq/=. exists r'. split; [done|]. inversion Hx. by subst.
  - destruct l; simplify_eq/=. unfold mbind, result_bind in Hh.
    destruct (header_line fc h (strip_nl d)) as [[h1 fc1]|]; [|done]. cbn [fst snd] in Hh.
    eapply IH; [exact Hx|exact Hr'|lia|exact Hh].
Qed.
Lemma header_loop_short ls : forall fuel fc h r x p q h' fc',
  encodes (map Data ls ++ [Flush]) x -> x = p +:+ q -> q <> "" -> rest_of r = p -> (length ls < fuel)%nat ->
  header_fold fc h ls = Ok (h', fc') -> exists r', header_loop fuel fc h r = Some (r', Ok None).
Proof.
  induction ls as [|d ls IH]; intros fuel fc h r x p q h' fc' He Hx Hq Hr Hf Hh; (destruct fuel as [|fuel]; [simpl in Hf; lia|]);
    simpl in He; inversion He as [|l ps y x' Hy Hx' El Ex]; subst ps; rewrite Hx in Ex; clear Hx; rename Ex into Hx;
    cbn [header_loop].
  - assert (x' = "") as -> by by inversion Hx'. rewrite app_empty_r in Hx. rewrite (next_short r y l p q) by done. by exists r.
  - destruct (Nat.lt_ge_cases (String.length p) (String.length y)) as [Hlt|Hge].
    + assert (exists z, y = p +:+ z /\ z <> "") as (z & Hz & Hne).
      { clear - Hx Hlt. revert y Hx Hlt. induction p as [|c p IHp]; intros y Hx Hlt; [by exists y; destruct y; simpl in *; [lia|]|].
        destruct y as [|c' y]; simpl in *; [lia|]. injection Hx as -> Hx. destruct (IHp _ Hx) as (z & -> & ?); [lia|]. by exists z. }
      rewrite (next_short r y l p z) by done. by exists r.
    + assert (exists z, p = y +:+ z /\ x' = z +:+ q) as (z & -> & ->).
      { clear - Hx Hge. revert p Hx Hge. induction y as [|c y IHy]; intros p Hx Hge; [by exists p|].
        destruct p as [|c' p]; simpl in *; [lia|]. injection Hx as -> Hx. destruct (IHy _ Hx) as (z & -> & ->); [lia|]. by exists z. }
      destruct (next_reads r y l z Hr Hy) as (r' & Hn & Hr'). rewrite Hn. destruct l; try done. injection El as ->. cbn [header_fold pkt_of length] in *.
      unfold mbind, result_bind in Hh. destruct (header_line fc h (strip_nl d)) as [[h1 fc1]|]; [|done]. cbn [fst snd] in Hh.
      eapply IH; [exact Hx'|done|exact Hq|exact Hr'|lia|exact Hh].
Qed.
End Stream.
