(* ===== verification/Receive.v ===== *)
(** * Receiving a push header

    The client's half of the receive-pack header as a specification, the parser
    of [Wire] against it, and [BodyReader] and [receive_header] of
    [server/src/edge/mod.rs]: the loop that feeds the parser from a body that
    arrives in arbitrary chunks. *)
From S2P Require Import Prelude Errors Text Db Push Memo Wire WireFacts.
Open Scope Z_scope.

Definition CMD_CAP : Z := Z.shiftl 1 20.
Definition FILL_STEP : Z := Z.shiftl 64 10.

(** The stream of a request body: the chunks or the error still to come. *)
Record BodyReader : Type := mkBody {
  bd_stream : list (result Error string); bd_buf : string; bd_eof : bool; bd_total : Z }.
Definition body_of (stream : list (result Error string)) : BodyReader := mkBody stream "" false 0.

Section Body.
(** [while self.buf.len() < min && !self.eof]. *)
Fixpoint fill_from (min : Z) (stream : list (result Error string)) (buf : string) (eof : bool) (total : Z) :
    BodyReader * result Error bool :=
  if (str_len buf <? min) && negb eof then
    match stream with
    | Ok chunk :: s' => fill_from min s' (buf +:+ chunk) eof (sat_addu64 total (str_len chunk))
    | Err e :: s' => (mkBody s' buf eof total, Err e)
    | [] => (mkBody [] buf true total, Ok (min <=? str_len buf))
    end
  else (mkBody stream buf eof total, Ok (min <=? str_len buf)).
Definition fill (min : Z) (b : BodyReader) : BodyReader * result Error bool :=
  fill_from min (bd_stream b) (bd_buf b) (bd_eof b) (bd_total b).
Definition buffered (b : BodyReader) : string := bd_buf b.
Definition consume_all (b : BodyReader) : BodyReader := mkBody (bd_stream b) "" (bd_eof b) (bd_total b).
Definition unread (bytes : string) (b : BodyReader) : BodyReader :=
  if str_empty bytes then b else mkBody (bd_stream b) (bytes +:+ bd_buf b) (bd_eof b) (bd_total b).
End Body.

Section Receive.
Context `{Platform, Packetline}.

(** The loop re-parses the accumulated buffer after every fill; [None] is out of
    fuel, one more than the chunks that can still arrive. *)
Fixpoint receive_loop (fuel : nat) (buf : string) (body : BodyReader) :
    option (BodyReader * result Error (ReceiveHeader * string)) :=
  match fuel with
  | O => None
  | S f =>
      match parse_receive_header (push buf reader0) with
      | None => None
      | Some (_, Err e) => Some (body, Err e)
      | Some (fresh, Ok (Some h)) => Some (body, Ok (h, (remainder fresh).2))
      | Some (_, Ok None) =>
          match fill FILL_STEP body with
          | (body', Err e) => Some (body', Err e)
          | (body', Ok _) =>
              if str_empty (buffered body') then Some (body', Err (Protocol "truncated receive header"))
              else
                let buf' := buf +:+ buffered body' in
                let body'' := consume_all body' in
                if CMD_CAP <? str_len buf' then Some (body'', Err (Protocol "receive header > 1 MiB"))
                else receive_loop f buf' body''
          end
      end
  end.
Definition receive_header (body : BodyReader) : option (BodyReader * result Error (ReceiveHeader * string)) :=
  receive_loop (2 + length (bd_stream body)) "" body.
End Receive.

(** ** The header a client writes *)

Class OidLaws `{Platform} : Prop :=
  oid_text : forall s o, oid_from_hex s = Some o -> o <> "" /\ str_all is_hexdigit o = true.
#[export] Instance demo_oid_laws env : @OidLaws (demo_env env).
Proof.
  intros s o. simpl. destruct (Nat.eqb_spec (String.length s) 40) as [Hl|]; [|done]. simpl.
  destruct (str_all is_hexdigit s) eqn:Ha; [|done]. intros [= <-]. split.
  - intros E. apply (f_equal String.length) in E. rewrite length_map_s, Hl in E. done.
  - clear Hl. induction s as [|c s IH]; [done|]. simpl in *. apply andb_true_iff in Ha as [Hc Hs].
    rewrite (IH Hs), andb_true_r. clear - Hc. revert c Hc.
    assert (forall n, (n < 256)%nat -> is_hexdigit (ascii_of_nat n) = true -> is_hexdigit (to_lower (ascii_of_nat n)) = true) as Hall.
    { intros n Hn. do 256 (destruct n as [|n]; [vm_compute; auto|]). lia. }
    intros c Hc. rewrite <- (ascii_nat_embedding c) in *. apply Hall; [apply nat_ascii_bounded|done].
Qed.

Section Client.
Context `{Platform}.
Definition canonical (o : string) : Prop := oid_from_hex o = Some o.
Definition cmd_wf (c : RefCommand) : Prop :=
  canonical (rc_old c) /\ canonical (rc_new c) /\ rc_name c <> ""
  /\ contains_char nul (rc_name c) = false /\ contains_char nl (rc_name c) = false.
Definition caps_wf (k : ReceiveCaps) : Prop :=
  match cp_agent k with Some a => starts_with "agent=" a = true /\ contains_char " " a = false | None => True end.
Definition word (b : bool) (w : string) : list string := if b then [w] else [].
(** The words of the capability list of [k]. *)
Definition cap_words (k : ReceiveCaps) : list string :=
  word (cp_report_status k) "report-status" ++ word (cp_report_status_v2 k) "report-status-v2"
  ++ word (cp_side_band_64k k) "side-band-64k" ++ word (cp_delete_refs k) "delete-refs"
  ++ word (cp_quiet k) "quiet" ++ word (cp_ofs_delta k) "ofs-delta" ++ word (cp_atomic k) "atomic"
  ++ (match cp_agent k with Some a => [a] | None => [] end) ++ [format_cap (cp_object_format k)].
Definition cmd_text (c : RefCommand) : string := rc_old c +:+ " " +:+ rc_new c +:+ " " +:+ rc_name c.
(** The lines of a push of [c] and then [cs], from a clone shallow at [sh]. *)
Definition header_lines (sh : list string) (c : RefCommand) (cs : list RefCommand) (k : ReceiveCaps) : list string :=
  map (fun o => "shallow " +:+ o) sh ++ (cmd_text c +:+ nul_s +:+ join " " (cap_words k)) :: map cmd_text cs.

Lemma str_any_app f a b : str_any f (a +:+ b) = str_any f a || str_any f b.
Proof. induction a; simpl; [done|]. by rewrite IHa, orb_assoc. Qed.
Lemma str_any_rev f s : str_any f (String.rev s) = str_any f s.
Proof. induction s as [|c s IH]; [done|]. rewrite rev_cons_s, str_any_app, IH. simpl. by rewrite orb_false_r, orb_comm. Qed.
Lemma strip_nl_app a b : b <> "" -> contains_char nl b = false -> strip_nl (a +:+ b) = a +:+ b.
Proof.
  intros Hb Hc. unfold strip_nl. destruct (strip_suffix nl_s (a +:+ b)) as [r|] eqn:E; [|done]. exfalso.
  apply strip_suffix_spec in E. apply (f_equal String.rev) in E. rewrite !rev_app_distr_s in E.
  unfold contains_char in Hc. rewrite <- str_any_rev in Hc. destruct (String.rev b) as [|x y] eqn:Er.
  - apply Hb. by rewrite <- (rev_involutive_s b), Er.
  - simpl in E. by injection E as -> _.
Qed.
Lemma hex_not_in (c : ascii) o : is_hexdigit c = false -> str_all is_hexdigit o = true -> contains_char c o = false.
Proof.
  intros Hc Ho. apply str_any_false. eapply str_all_impl; [|exact Ho]. intros x Hx. simpl.
  destruct (Ascii.eqb_spec c x) as [->|]; [congruence|done].
Qed.

Context `{!OidLaws}.
Lemma canonical_text o : canonical o -> o <> "" /\ str_all is_hexdigit o = true.
Proof. apply oid_text. Qed.
Lemma canonical_no c o : is_hexdigit c = false -> canonical o -> contains_char c o = false.
Proof. intros Hc Ho. apply hex_not_in; [done|]. by apply canonical_text. Qed.
Lemma wire_oid_ok o : canonical o -> wire_oid o = Ok o.
Proof. intros Ho. unfold wire_oid. by rewrite Ho. Qed.
Lemma shallow_line fc h o : canonical o ->
  header_line fc h (strip_nl ("shallow " +:+ o)) = Ok (mkHeader (hd_commands h) (hd_caps h) (hd_shallow h ++ [o]), fc).
Proof.
  intros Ho. rewrite strip_nl_app; [|by apply canonical_text|by apply canonical_no]. unfold header_line.
  rewrite (proj2 (strip_prefix_spec _ _ o) eq_refl). unfold mbind, result_bind. by rewrite wire_oid_ok.
Qed.
Lemma cmd_not_shallow c t : cmd_wf c -> strip_prefix "shallow " (cmd_text c +:+ t) = None.
Proof.
  intros (Ho & _). apply canonical_text in Ho as [Hne Hh]. unfold cmd_text. destruct (rc_old c) as [|x s]; [done|].
  cbn [String.append strip_prefix str_all] in *. apply andb_true_iff in Hh as [Hx _]. by destruct (Ascii.eqb_spec "s" x) as [<-|].
Qed.
Lemma cmd_split c : cmd_wf c -> split_once " " (cmd_text c) = Some (rc_old c, rc_new c +:+ " " +:+ rc_name c)
  /\ split_once " " (rc_new c +:+ " " +:+ rc_name c) = Some (rc_new c, rc_name c).
Proof.
  intros (Ho & Hn & _). split; [|apply (split_once_app " "); by apply canonical_no].
  unfold cmd_text. apply (split_once_app " "). by apply canonical_no.
Qed.
Lemma cmd_no_nul c : cmd_wf c -> contains_char nul (cmd_text c) = false.
Proof.
  intros (Ho & Hn & _ & Hz & _). unfold cmd_text, contains_char. rewrite !str_any_app.
  fold (contains_char nul (rc_old c)) (contains_char nul (rc_new c)) (contains_char nul (rc_name c)).
  by rewrite Hz, !canonical_no.
Qed.
Lemma split_once_none c s : contains_char c s = false -> split_once c s = None.
Proof.
  induction s as [|x s IH]; simpl; intros Hs; [done|]. unfold contains_char in Hs. simpl in Hs.
  apply orb_false_iff in Hs as [H1 H2]. rewrite Ascii.eqb_sym in H1. by rewrite H1, (IH H2).
Qed.
Lemma plain_line fc h c : cmd_wf c ->
  header_line fc h (strip_nl (cmd_text c)) = Ok (mkHeader (hd_commands h ++ [c]) (hd_caps h) (hd_shallow h), false).
Proof.
  intros Hc. pose proof Hc as (Ho & Hn & Hne & _ & Hnl). unfold cmd_text at 1.
  rewrite <- !app_assoc_s, strip_nl_app, !app_assoc_s by done. fold (cmd_text c).
  unfold header_line. rewrite <- (app_empty_r (cmd_text c)) at 1. rewrite cmd_not_shallow by done.
  rewrite split_once_none by by apply cmd_no_nul. unfold mbind, result_bind. cbn [fst snd].
  destruct (cmd_split c Hc) as [-> ->]. unfold str_empty. rewrite (proj2 (String.eqb_neq _ _)) by done.
  rewrite !wire_oid_ok by done. by destruct c.
Qed.
Lemma add_caps_app k l1 l2 : add_caps k (l1 ++ l2) = (add_caps k l1 ≫= fun k' => add_caps k' l2).
Proof.
  revert k. induction l1 as [|c l1 IH]; intros k; [done|]. simpl. unfold mbind, result_bind in *.
  destruct (add_cap k c); [apply IH|done].
Qed.
Lemma cap_words_parse k : caps_wf k -> add_caps caps0 (cap_words k) = Ok k.
Proof.
  unfold caps_wf, cap_words. destruct k as [rs rs2 sb dr q od at_ ag fm].
  cbn [cp_report_status cp_report_status_v2 cp_side_band_64k cp_delete_refs cp_quiet cp_ofs_delta cp_atomic
    cp_agent cp_object_format]. intros Hag.
  rewrite !app_assoc, add_caps_app, <- !app_assoc. rewrite !app_assoc, add_caps_app, <- !app_assoc.
  assert (add_caps caps0 (word rs "report-status" ++ word rs2 "report-status-v2" ++ word sb "side-band-64k"
    ++ word dr "delete-refs" ++ word q "quiet" ++ word od "ofs-delta" ++ word at_ "atomic")
    = Ok (mkCaps rs rs2 sb dr q od at_ None Sha1)) as -> by (destruct rs, rs2, sb, dr, q, od, at_; reflexivity).
  unfold mbind, result_bind. destruct ag as [a|]; cbn [add_caps]; unfold mbind, result_bind.
  - destruct Hag as [Hs _]. pose proof Hs as [r ->]%starts_with_spec. unfold add_cap at 1. rewrite Hs. by destruct fm.
  - by destruct fm.
Qed.
Lemma join_last sep ws w : exists p, join sep (ws ++ [w]) = p +:+ w.
Proof.
  induction ws as [|x ws [p IH]]; [by exists ""|]. exists (x +:+ sep +:+ p). simpl.
  rewrite IH, !app_assoc_s. by destruct ws.
Qed.
Lemma split_join c ws w : Forall (fun w => contains_char c w = false) (ws ++ [w]) ->
  split_on c (join (String c "") (ws ++ [w])) = ws ++ [w].
Proof.
  induction ws as [|x ws IH]; simpl; intros [Hx Hws]%Forall_cons; [by apply split_on_none|].
  destruct (ws ++ [w]) as [|y l] eqn:E; [by destruct ws|]. rewrite split_on_app by done. f_equal. by apply IH.
Qed.
Lemma first_line h c k : cmd_wf c -> caps_wf k -> hd_caps h = caps0 ->
  header_line true h (strip_nl (cmd_text c +:+ nul_s +:+ join " " (cap_words k)))
  = Ok (mkHeader (hd_commands h ++ [c]) k (hd_shallow h), false).
Proof.
  intros Hc Hk Hh. pose proof Hc as (Ho & Hn & Hne & _). set (js := join " " (cap_words k)).
  assert (exists ws, cap_words k = ws ++ [format_cap (cp_object_format k)]) as [ws Hws]
    by (unfold cap_words; rewrite !app_assoc; eauto).
  assert (exists p, js = p +:+ format_cap (cp_object_format k)) as [p Hp] by (unfold js; rewrite Hws; apply join_last).
  rewrite Hp, <- !app_assoc_s, strip_nl_app by (by destruct (cp_object_format k)). rewrite !app_assoc_s, <- Hp.
  unfold header_line. rewrite cmd_not_shallow by done.
  assert (split_once nul (cmd_text c +:+ nul_s +:+ js) = Some (cmd_text c, js)) as ->
    by (apply (split_once_app nul); by apply cmd_no_nul).
  cbv beta iota delta [negb]. unfold mbind, result_bind. cbn [fst snd]. rewrite Hh.
  assert (split_on " " js = cap_words k) as ->.
  { unfold js. rewrite Hws. apply (split_join " "). rewrite <- Hws. unfold cap_words, caps_wf in *.
    repeat (apply Forall_app; split); try (by destruct (cp_report_status k), (cp_report_status_v2 k), (cp_side_band_64k k),
      (cp_delete_refs k), (cp_quiet k), (cp_ofs_delta k), (cp_atomic k); repeat constructor).
    - destruct (cp_agent k) as [a|]; [constructor; [by destruct Hk|constructor]|constructor].
    - constructor; [by destruct (cp_object_format k)|constructor]. }
  rewrite cap_words_parse by done. destruct (cmd_split c Hc) as [-> ->]. unfold str_empty.
  rewrite (proj2 (String.eqb_neq _ _)) by done. rewrite !wire_oid_ok by done. by destruct c.
Qed.
Lemma fold_app fc h l1 l2 : header_fold fc h (l1 ++ l2)
  = (header_fold fc h l1 ≫= fun p : ReceiveHeader * bool => header_fold p.2 p.1 l2).
Proof.
  revert fc h. induction l1 as [|l l1 IH]; intros fc h; [done|]. simpl. unfold mbind, result_bind in *.
  destruct (header_line fc h (strip_nl l)) as [[h' fc']|]; [apply IH|done].
Qed.
Lemma header_fold_lines sh c cs k : Forall canonical sh -> cmd_wf c -> Forall cmd_wf cs -> caps_wf k ->
  header_fold true (mkHeader [] caps0 []) (header_lines sh c cs k) = Ok (mkHeader (c :: cs) k sh, false).
Proof.
  intros Hsh Hc Hcs Hk. unfold header_lines. rewrite fold_app. unfold mbind, result_bind.
  assert (forall h, header_fold true h (map (fun o => "shallow " +:+ o) sh)
    = Ok (mkHeader (hd_commands h) (hd_caps h) (hd_shallow h ++ sh), true)) as ->.
  { induction Hsh as [|o sh Ho _ IH]; intros h; cbn [map header_fold]; unfold mbind, result_bind.
    - rewrite app_nil_r. by destruct h.
    - rewrite shallow_line by done. cbn [fst snd]. rewrite IH. cbn [hd_commands hd_caps hd_shallow]. by rewrite <- app_assoc. }
  cbn [header_fold fst snd hd_commands hd_caps hd_shallow app]. unfold mbind, result_bind. rewrite first_line by done.
  cbn [fst snd hd_commands hd_caps hd_shallow app].
  assert (forall h, header_fold false h (map cmd_text cs) = Ok (mkHeader (hd_commands h ++ cs) (hd_caps h) (hd_shallow h), false)) as ->.
  { induction Hcs as [|c' cs Hc' _ IH]; intros h; cbn [map header_fold]; unfold mbind, result_bind.
    - rewrite app_nil_r. by destruct h.
    - rewrite plain_line by done. cbn [fst snd]. rewrite IH. cbn [hd_commands hd_caps hd_shallow]. by rewrite <- app_assoc. }
  done.
Qed.
Lemma header_lines_nonempty sh c cs k : cmd_wf c -> Forall cmd_wf cs -> Forall (fun l => l <> "") (header_lines sh c cs k).
Proof.
  assert (forall c t, cmd_wf c -> cmd_text c +:+ t <> "") as Hne.
  { intros c' t (Ho & _) E. apply canonical_text in Ho as [Ho _]. unfold cmd_text in E. by destruct (rc_old c'). }
  intros Hc Hcs. unfold header_lines. apply Forall_app. split.
  - apply Forall_forall. intros l (o & <- & _)%elem_of_map. done.
  - constructor; [by apply Hne|]. apply Forall_forall. intros l (c' & <- & Hin)%elem_of_map.
    rewrite <- (app_empty_r (cmd_text c')). apply Hne. rewrite Forall_forall in Hcs. by apply Hcs.
Qed.
End Client.

(** ** The loop over the body *)

(** The bytes a body still holds. *)
Definition ok_bytes (r : result Error string) : string := match r with Ok c => c | Err _ => "" end.
Definition pending (b : BodyReader) : string := bd_buf b +:+ concat_str (map ok_bytes (bd_stream b)).
Definition step_chunk (r : result Error string) : Prop :=
  match r with Ok c => str_len c <= FILL_STEP | Err _ => False end.

Lemma str_len_app a b : str_len (a +:+ b) = str_len a + str_len b.
Proof. unfold str_len. rewrite length_app_s. lia. Qed.
Lemma fill_from_spec stream : forall buf eof total b r,
  Forall step_chunk stream -> (eof = true -> stream = []) -> str_len buf <= 2 * FILL_STEP ->
  fill_from FILL_STEP stream buf eof total = (b, r) ->
  is_ok r = true /\ pending b = buf +:+ concat_str (map ok_bytes stream) /\ str_len (bd_buf b) <= 2 * FILL_STEP
  /\ Forall step_chunk (bd_stream b) /\ (bd_eof b = true -> bd_stream b = [])
  /\ (str_len (bd_buf b) < FILL_STEP -> bd_stream b = []).
Proof.
  induction stream as [|x stream IH]; intros buf eof total b r Hs He Hb Hf; cbn [fill_from] in Hf.
  - destruct (_ && _); injection Hf as <- <-; by repeat split.
  - apply Forall_cons in Hs as [Hx Hs]. destruct eof; [by discriminate He|].
    destruct (Z.ltb_spec (str_len buf) FILL_STEP) as [Hlt|Hge]; cbn [andb negb] in Hf.
    + destruct x as [c|e]; [|done]. simpl in Hx. apply IH in Hf as (? & -> & ? & ? & ? & ?); [|done|done|].
      2:{ rewrite str_len_app. lia. }
      split; [done|]. split; [by rewrite app_assoc_s|]. done.
    + injection Hf as <- <-. repeat split; try done; [by constructor|]. simpl. lia.
Qed.

(** [fill] on any stream never lengthens it, and shortens it when it buffers. *)
Lemma fill_from_le stream : forall min buf eof total,
  (length (bd_stream (fill_from min stream buf eof total).1) <= length stream)%nat.
Proof.
  induction stream as [|x stream IH]; intros min buf eof total; cbn [fill_from].
  - by destruct (_ && _).
  - destruct (_ && _); [|done]. destruct x; [|simpl; lia]. etrans; [apply IH|]. simpl. lia.
Qed.
Lemma fill_from_shrinks stream min buf eof total :
  bd_buf (fill_from min stream buf eof total).1 <> buf ->
  (length (bd_stream (fill_from min stream buf eof total).1) < length stream)%nat.
Proof.
  destruct stream as [|x stream]; cbn [fill_from]; [by destruct (_ && _)|].
  destruct (_ && _); [|done]. destruct x as [c|e]; [|done]. intros _. simpl.
  pose proof (fill_from_le stream min (buf +:+ c) eof (sat_addu64 total (str_len c))). lia.
Qed.
(** The fills that can still buffer something. *)
Definition fills_left (b : BodyReader) : nat := length (bd_stream b) + (if str_empty (bd_buf b) then 0 else 1).
Lemma fill_left b b' r : fill FILL_STEP b = (b', r) -> str_empty (buffered b') = false ->
  (fills_left (consume_all b') < fills_left b)%nat.
Proof.
  unfold fill, fills_left. intros Hf He. pose proof (fill_from_le (bd_stream b) FILL_STEP (bd_buf b) (bd_eof b) (bd_total b)) as Hle.
  pose proof (fill_from_shrinks (bd_stream b) FILL_STEP (bd_buf b) (bd_eof b) (bd_total b)) as Hs.
  rewrite Hf in Hle, Hs. cbn [fst consume_all bd_stream bd_buf str_empty String.eqb] in *.
  destruct (str_empty (bd_buf b)) eqn:Eb; [|lia]. unfold str_empty, buffered in *. bsimp.
  rewrite Eb in Hs. specialize (Hs He). lia.
Qed.

Section Theorems.
Context `{PF : Platform, !OidLaws, PL : Packetline, !PacketlineLaws}.

Lemma encodes_lines ls x : encodes (map Data ls ++ [Flush]) x -> (length ls < String.length x)%nat.
Proof.
  revert x. induction ls as [|l ls IH]; simpl; intros x He; inversion He as [|p ps y x' Hy Hx El Ex]; subst;
    rewrite length_app_s; assert (1 <= String.length y)%nat
      by (destruct Hy as [Hy _]; specialize (Hy ""); apply pl_consumes in Hy; lia); [lia|].
  specialize (IH _ Hx). lia.
Qed.
Lemma prefix_cases (a b c d : string) : a +:+ b = c +:+ d ->
  (exists z, a = c +:+ z /\ d = z +:+ b) \/ (exists z, z <> "" /\ c = a +:+ z).
Proof.
  revert c. induction a as [|x a IH]; intros [|y c] E; simpl in E.
  - left. by exists "".
  - right. by exists (String y c).
  - left. by exists (String x a).
  - injection E as -> E. destruct (IH _ E) as [(z & -> & ->)|(z & Hz & ->)]; [left|right]; by exists z.
Qed.
Lemma header_loop_total fuel : forall fc h r, (String.length (rest_of r) < fuel)%nat -> is_Some (header_loop fuel fc h r).
Proof.
  induction fuel as [|fuel IH]; intros fc h r Hf; [lia|]. cbn [header_loop].
  destruct (next r) as [r' [[p|]|e]] eqn:En; [|eauto|eauto]. assert (Hs := next_shrinks _ _ _ En).
  destruct p; try (eexists; reflexivity). destruct (header_line fc h (strip_nl d)) as [[h' fc']|]; [|eauto]. apply IH. lia.
Qed.
Lemma header_loop_mono fuel : forall fuel' fc h r v, (fuel <= fuel')%nat -> header_loop fuel fc h r = Some v ->
  header_loop fuel' fc h r = Some v.
Proof.
  induction fuel as [|fuel IH]; intros [|fuel'] fc h r v Hle Hr; try done; [lia|]. cbn [header_loop] in *.
  destruct (next r) as [r' [[p|]|e]]; [|done|done]. destruct p; try done.
  destruct (header_line fc h (strip_nl d)) as [[h' fc']|]; [|done]. apply IH; [lia|done].
Qed.
Lemma parse_fuel r v fuel : header_loop fuel true (mkHeader [] caps0 []) r = Some v -> parse_receive_header r = Some v.
Proof.
  intros Hf. unfold parse_receive_header. destruct (header_loop_total (S (String.length (rest_of r))) true
    (mkHeader [] caps0 []) r) as [w Hw]; [lia|]. rewrite Hw.
  apply (header_loop_mono _ (Nat.max fuel (S (String.length (rest_of r))))) in Hw; [|lia].
  apply (header_loop_mono _ (Nat.max fuel (S (String.length (rest_of r))))) in Hf; [|lia]. congruence.
Qed.
(** The parser on the bytes received so far: the whole header or "need more". *)
Lemma parse_received ls x buf more pack h fc : encodes (map Data ls ++ [Flush]) x ->
  header_fold true (mkHeader [] caps0 []) ls = Ok (h, fc) -> buf +:+ more = x +:+ pack ->
  (exists r, parse_receive_header (push buf reader0) = Some (r, Ok (Some h)) /\ pack = (remainder r).2 +:+ more)
  \/ (String.length buf < String.length x)%nat /\ exists r, parse_receive_header (push buf reader0) = Some (r, Ok None).
Proof.
  intros He Hh E. assert (rest_of (push buf reader0) = buf) as Hbuf by done.
  destruct (prefix_cases _ _ _ _ E) as [(z & Hb & Hz)|(z & Hz & Hx)].
  - left. destruct (header_loop_reads ls (S (length ls)) true (mkHeader [] caps0 []) (push buf reader0) x z h fc)
      as (r & Hr & Hrest); [done|by rewrite Hbuf|lia|done|].
    exists r. split; [by eapply parse_fuel|]. cbn [remainder snd]. by rewrite Hrest.
  - right. split; [by eapply app_length_lt|].
    destruct (header_loop_short ls (S (length ls)) true (mkHeader [] caps0 []) (push buf reader0) x buf z h fc)
      as (r & Hr); [done|done|done|done|lia|done|]. exists r. by eapply parse_fuel.
Qed.

Lemma receive_loop_total fuel : forall buf body, (fills_left body < fuel)%nat -> is_Some (receive_loop fuel buf body).
Proof.
  induction fuel as [|fuel IH]; intros buf body Hf; [lia|]. cbn [receive_loop].
  destruct (header_loop_total (S (String.length buf)) true (mkHeader [] caps0 []) (push buf reader0)) as [[r v] Hv];
    [cbn; lia|].
  rewrite (parse_fuel _ _ _ Hv). destruct v as [[h|]|e]; [eauto| |eauto].
  destruct (fill FILL_STEP body) as [body' [b|e]] eqn:Ef; [|eauto].
  destruct (str_empty (buffered body')) eqn:Ee; [eauto|]. destruct (CMD_CAP <? _); [eauto|].
  apply IH. pose proof (fill_left _ _ _ Ef Ee). lia.
Qed.
(** Feeding the parser terminates: for any body, read errors and garbage
    included, the loop answers. *)
Theorem receive_header_total (body : BodyReader) : is_Some (receive_header body).
Proof. apply receive_loop_total. unfold fills_left. destruct (str_empty _); lia. Qed.

Lemma pending_empty b : pending b = "" -> bd_buf b = "".
Proof. unfold pending. by destruct (bd_buf b). Qed.
Lemma receive_loop_reads ls x pack h fc : encodes (map Data ls ++ [Flush]) x ->
  header_fold true (mkHeader [] caps0 []) ls = Ok (h, fc) -> str_len x + 2 * FILL_STEP <= CMD_CAP ->
  forall fuel buf body, (length (bd_stream body) < fuel)%nat -> bd_buf body = "" -> Forall step_chunk (bd_stream body) ->
  (bd_eof body = true -> bd_stream body = []) -> buf +:+ pending body = x +:+ pack ->
  exists body' rem, receive_loop fuel buf body = Some (body', Ok (h, rem)) /\ pack = rem +:+ pending body'.
Proof.
  intros He Hh Hcap. induction fuel as [|fuel IH]; intros buf body Hf Hb Hs Heof E; [lia|]. cbn [receive_loop].
  destruct (parse_received ls x buf (pending body) pack h fc) as [(r & -> & Hp)|[Hlt [r ->]]]; [done..|by eauto|].
  destruct (fill FILL_STEP body) as [body' v] eqn:Ef. pose proof (fill_left _ _ _ Ef) as Hleft.
  assert (str_len (bd_buf body) <= 2 * FILL_STEP) as Hb0 by (rewrite Hb; done).
  destruct (fill_from_spec _ _ _ _ _ _ Hs Heof Hb0 Ef) as (Hok & Hpend & Hlen & Hs' & Heof' & Hl).
  fold (pending body) in Hpend. destruct v as [v|]; [|done].
  destruct (str_empty (buffered body')) eqn:Ee.
  - exfalso. unfold str_empty, buffered in Ee. bsimp. rewrite Ee in Hl.
    assert (pending body' = "") as Hp0 by (unfold pending; by rewrite Ee, Hl).
    rewrite Hpend in Hp0. apply (f_equal String.length) in E. rewrite Hp0, !length_app_s in E. simpl in E. lia.
  - specialize (Hleft eq_refl). unfold fills_left in Hleft. rewrite Hb in Hleft. simpl in Hleft.
    rewrite (proj2 (Z.ltb_ge _ _)).
    + apply IH; cbn [consume_all bd_stream bd_buf bd_eof]; [lia|done|done|done|].
      rewrite <- E, <- Hpend, app_assoc_s. by unfold pending.
    + rewrite str_len_app. unfold buffered, str_len in *. lia.
Qed.

(** C14: However the body is cut into chunks of at most 64 KiB, a header that a client
    wrote and that leaves 128 KiB of the header limit free is parsed into exactly its
    shallow ids, commands and capabilities, and the bytes handed on, the remainder
    put back before the rest of the body, are exactly the pack.  (A chunk is taken
    whole, so that a larger one, or a header closer to the limit, may be refused.) *)
Theorem receive_header_chunked (sh : list string) (c : RefCommand) (cs : list RefCommand) (k : ReceiveCaps)
    (x pack : string) (chunks : list string) :
  Forall canonical sh -> cmd_wf c -> Forall cmd_wf cs -> caps_wf k ->
  write_lines (header_lines sh c cs k) "" = (x, Ok tt) ->
  str_len x + 2 * FILL_STEP <= CMD_CAP ->
  concat_str chunks = x +:+ pack -> Forall (fun c => str_len c <= FILL_STEP) chunks ->
  exists body rem,
    receive_header (body_of (map Ok chunks)) = Some (body, Ok (mkHeader (c :: cs) k sh, rem))
    /\ pending (unread rem body) = pack.
Proof.
  intros Hsh Hc Hcs Hk Hw Hcap Hx Hch.
  apply write_lines_run in Hw; [|by apply header_lines_nonempty].
  destruct (receive_loop_reads _ x pack _ _ Hw (header_fold_lines sh c cs k Hsh Hc Hcs Hk) Hcap
    (2 + length (map (@Ok Error string) chunks)) "" (body_of (map Ok chunks))) as (body & rem & Hr & Hp); try done.
  - cbn [body_of bd_stream]. lia.
  - cbn [body_of bd_stream]. apply Forall_forall. intros r (ch & <- & Hin)%elem_of_map. rewrite Forall_forall in Hch. by apply Hch.
  - rewrite <- Hx. unfold pending. cbn [body_of bd_stream bd_buf String.append]. clear.
    induction chunks as [|ch chunks IH]; simpl; [done|]. by rewrite IH.
  - exists body, rem. split; [exact Hr|]. rewrite Hp. unfold unread, str_empty, pending.
    destruct (String.eqb_spec rem "") as [->|]; [done|]. cbn [bd_buf bd_stream]. by rewrite app_assoc_s.
Qed.
End Theorems.
