(* ===== verification/Answers.v ===== *)
(** * The server's answers and the client's fetch request

    Reading back what the writers of [Wire] wrote: report-status through the
    sideband, the fetch prelude, ls-refs; and the fetch request as a client
    writes it against [parse_v2_command]. *)
From S2P Require Import Prelude Errors Text Db Push Memo Wire WireFacts Receive.
From Stdlib Require Import DecimalString.
Open Scope Z_scope.

Section Answers.
Context `{PL : Packetline, !PacketlineLaws}.

(** [writes m ps]: whenever [m] succeeds it appended the packets [ps]. *)
Definition writes {A} (m : WrM A) (ps : list Pkt) : Prop :=
  forall out out' a, m out = (out', Ok a) -> exists y, out' = out +:+ y /\ encodes ps y.
Definition text_line (s : string) : string := if ends_with nl_s s then s else s +:+ nl_s.
Lemma text_line_nonempty s : text_line s <> "".
Proof.
  unfold text_line. destruct (ends_with nl_s s) eqn:E; [|by destruct s].
  intros ->. vm_compute in E. done.
Qed.
Lemma writes_text s : writes (wr_text s) [Data (text_line s)].
Proof.
  intros out out' [] Hr. apply wr_data_run; [apply text_line_nonempty|]. revert Hr. unfold wr_text, text_line.
  by destruct (ends_with nl_s s).
Qed.
Lemma writes_flush : writes wr_flush [Flush].
Proof. intros out out' []. apply wr_flush_run. Qed.
Lemma writes_delim : writes wr_delim [Delim].
Proof. intros out out' [] [= <-]. eexists. split; [done|]. apply (encodes_one PDelimiter), pl_delim. Qed.
Lemma writes_ret {A} (a : A) : writes (mret a) [].
Proof. intros out out' b [= <- _]. exists "". rewrite app_empty_r. split; [done|constructor]. Qed.
Lemma writes_bind {A B} (m : WrM A) (f : A -> WrM B) ps qs :
  writes m ps -> (forall a, writes (f a) qs) -> writes (m ≫= f) (ps ++ qs).
Proof.
  intros Hm Hf out out' b (a & o1 & H1 & H2)%bind_ok. apply Hm in H1 as (y & -> & Hy). apply Hf in H2 as (z & -> & Hz).
  exists (y +:+ z). rewrite app_assoc_s. split; [done|]. by apply encodes_app.
Qed.
Lemma writes_each {A} (l : list A) (f : A -> WrM unit) (g : A -> list Pkt) :
  (forall a, writes (f a) (g a)) -> writes (for_each l f) (concat (map g l)).
Proof.
  intros Hf. induction l as [|a l IH]; [apply writes_ret|]. simpl. apply writes_bind; [apply Hf|intros _; apply IH].
Qed.
Lemma writes_texts {A} (t : A -> string) (l : list A) :
  writes (for_each l (fun a => wr_text (t a))) (map (fun a => Data (text_line (t a))) l).
Proof.
  assert (map (fun a => Data (text_line (t a))) l = concat (map (fun a => [Data (text_line (t a))]) l)) as ->.
  { induction l as [|a l IH]; simpl; [done|]. by rewrite IH. }
  apply (writes_each l _ (fun a => [Data (text_line (t a))])). intros a. apply writes_text.
Qed.

(** ** Report-status *)

Definition status_lines (unpack : result string unit) (results : list RefResult) : list string :=
  (match unpack with Ok _ => "unpack ok" | Err m => "unpack " +:+ m end) :: map result_text results.
Lemma writes_report unpack results :
  writes (report_body unpack results) (map (fun l => Data (text_line l)) (status_lines unpack results) ++ [Flush]).
Proof.
  unfold report_body, status_lines. cbn [map app]. rewrite map_map.
  apply (writes_bind _ _ [_] (_ ++ [Flush])); [destruct unpack; apply writes_text|intros _].
  apply writes_bind; [apply (writes_texts result_text)|intros _; apply writes_flush].
Qed.
(** The frames of band 1. *)
Lemma sb_data_run b out : exists y, sb_data b out = (out +:+ y, Ok tt)
  /\ encodes (map (fun c => Data (String (chr 1) c)) (chunks MAX_BAND_DATA b)) y.
Proof.
  unfold sb_data. assert (Forall (fun c => 1 <= String.length c <= MAX_BAND_DATA)%nat (chunks MAX_BAND_DATA b)) as Hc
    by (apply chunks_sizes; unfold MAX_BAND_DATA; lia).
  revert out. induction Hc as [|c cs [H1 H2] _ IH]; intros out; cbn [for_each map].
  - exists "". rewrite app_empty_r. split; [done|constructor].
  - destruct (pl_data (String (chr 1) c)) as (x & Hx & Hr); [done|unfold MAX_PKT_DATA, MAX_BAND_DATA, str_len in *; simpl; lia|].
    unfold mbind at 1, M_bind at 1. rewrite (pl_band ChData c); [|by destruct c; simpl in *; [lia|]|done].
    cbn [channel_byte]. rewrite Hx. cbn [ignore]. unfold emit, modify.
    destruct (IH (out +:+ x)) as (y & -> & Hy). exists (x +:+ y). rewrite app_assoc_s. split; [done|].
    by apply (enc_cons (PData (String (chr 1) c))).
Qed.
Lemma echo_name_graphic n : str_all is_ascii_graphic (echo_name n) = true.
Proof. apply str_all_map. intros c. by destruct (is_ascii_graphic c) eqn:E. Qed.
Lemma echo_name_lossy n : lossy (echo_name n) = echo_name n.
Proof.
  apply lossy_ascii. eapply str_all_impl; [|apply echo_name_graphic]. intros c. unfold is_ascii_graphic, is_ascii, between. intros. bsimp.
  apply andb_true_iff. split; lia.
Qed.

(** A report-status that was written is read back by the client line for line:
    under side-band-64k the frames of band 1, put together, are the pkt-lines of
    the unpack status, of each command's verdict in order, and a flush, and an
    outer flush ends the response; otherwise those pkt-lines come bare.  A ref
    name is echoed as graphic ASCII only, so it cannot add a line or a field. *)
Theorem report_status_demux (unpack : result string unit) (results : list RefResult) (caps : ReceiveCaps) (out out' : string) :
  write_report_status unpack results caps out = (out', Ok tt) ->
  exists body y, out' = out +:+ y
  /\ encodes (map (fun l => Data (text_line l)) (status_lines unpack results) ++ [Flush]) body
  /\ (if cp_side_band_64k caps
      then exists frames, concat_str frames = body /\ encodes (map (fun c => Data (String (chr 1) c)) frames ++ [Flush]) y
      else encodes (map (fun l => Data (text_line l)) (status_lines unpack results) ++ [Flush; Flush]) y)
  /\ Forall (fun r => match r with
       | RrOk n => result_text r = "ok " +:+ echo_name n /\ str_all is_ascii_graphic (echo_name n) = true
       | RrNg n why => result_text r = "ng " +:+ echo_name n +:+ " " +:+ why /\ str_all is_ascii_graphic (echo_name n) = true
       end) results.
Proof.
  unfold write_report_status. destruct (report_body unpack results "") as [body [[]|e]] eqn:Eb; [|done].
  apply writes_report in Eb as (b & Hb & He). assert (body = b) as -> by (by rewrite Hb). clear Hb. intros Hr. exists b.
  assert (Forall (fun r => match r with
       | RrOk n => result_text r = "ok " +:+ echo_name n /\ str_all is_ascii_graphic (echo_name n) = true
       | RrNg n why => result_text r = "ng " +:+ echo_name n +:+ " " +:+ why /\ str_all is_ascii_graphic (echo_name n) = true
       end) results) as Hn.
  { apply Forall_forall. intros [n|n why] _; cbn [result_text]; rewrite echo_name_lossy; (split; [done|apply echo_name_graphic]). }
  destruct (cp_side_band_64k caps).
  - apply bind_ok in Hr as ([] & o & Hs & Hf). destruct (sb_data_run b out) as (y & Hy & Hfr). rewrite Hy in Hs.
    injection Hs as <-. apply wr_flush_run in Hf as (z & -> & Hz). exists (y +:+ z). rewrite app_assoc_s.
    split; [done|]. split; [done|]. split; [|done]. exists (chunks MAX_BAND_DATA b).
    split; [apply chunks_concat; unfold MAX_BAND_DATA; lia|]. by apply encodes_app.
  - apply bind_ok in Hr as ([] & o & [= <-] & Hf). apply wr_flush_run in Hf as (z & -> & Hz). exists (b +:+ z).
    rewrite app_assoc_s. split; [done|]. split; [done|]. split; [|done].
    change [Flush; Flush] with ([Flush] ++ [Flush]). rewrite app_assoc. by apply encodes_app.
Qed.

(** ** The fetch prelude *)

Definition section_pkts (name : string) (lines : list string) : list Pkt :=
  if null lines then [] else Data (text_line name) :: map (fun l => Data (text_line l)) lines ++ [Delim].
Definition ack_lines (acks : list string) : list string := if null acks then ["NAK"] else map (fun a => "ACK " +:+ a) acks.
(** The packets after the acknowledgments, in protocol order. *)
Definition prelude_tail (wanted_refs : list (string * string)) (shallow unshallow uris : list string) : list Pkt :=
  section_pkts "shallow-info" (map (fun s => "shallow " +:+ s) shallow ++ map (fun u => "unshallow " +:+ u) unshallow)
  ++ section_pkts "wanted-refs" (map (fun p => p.1 +:+ " " +:+ lossy p.2) wanted_refs)
  ++ section_pkts "packfile-uris" uris ++ [Data (text_line "packfile")].
Definition negotiated (args : FetchArgs) : bool := negb (null (fa_haves args)) && negb (fa_done args).
Definition prelude_pkts (args : FetchArgs) (acks : list string) (wanted_refs : list (string * string))
    (shallow unshallow uris : list string) (pack : bool) : list Pkt :=
  (if negotiated args then
     Data (text_line "acknowledgments") :: map (fun l => Data (text_line l)) (ack_lines acks)
     ++ if pack then [Data (text_line "ready"); Delim] else [Flush]
   else [])
  ++ if pack then prelude_tail wanted_refs shallow unshallow uris else [].

Lemma writes_section name lines : lines <> [] -> writes (section name lines) (section_pkts name lines).
Proof.
  intros Hne. unfold section, section_pkts. destruct lines as [|l ls]; [done|]. cbn [null].
  apply (writes_bind _ _ [_]); [apply writes_text|intros _]. apply writes_bind; [apply (writes_texts id)|intros _].
  apply writes_delim.
Qed.
Lemma writes_section_if name lines (b : bool) : b = negb (null lines) ->
  writes (if b then section name lines else mret tt) (section_pkts name lines).
Proof.
  intros ->. destruct lines as [|l ls]; [apply writes_ret|]. by apply writes_section.
Qed.
Lemma null_map {A B} (f : A -> B) l : null (map f l) = null l.
Proof. by destruct l. Qed.
Lemma null_app {A} (l1 l2 : list A) : null (l1 ++ l2) = null l1 && null l2.
Proof. by destruct l1. Qed.

Lemma writes_sections wanted_refs shallow unshallow uris :
  writes (fetch_sections wanted_refs shallow unshallow uris) (prelude_tail wanted_refs shallow unshallow uris)
  /\ forall o o' b, fetch_sections wanted_refs shallow unshallow uris o = (o', Ok b) -> b = true.
Proof.
  unfold fetch_sections. split.
  - apply writes_bind; [apply writes_section_if; by rewrite null_app, !null_map, negb_andb|intros _].
    apply writes_bind; [apply writes_section_if; by rewrite null_map|intros _].
    apply writes_bind; [by apply writes_section_if|intros _].
    rewrite <- (app_nil_r [_]). apply writes_bind; [apply writes_text|intros _; apply writes_ret].
  - intros o o' b Hb. do 4 (apply bind_ok in Hb as (? & ? & _ & Hb)). by injection Hb.
Qed.

(** The fetch prelude, read back: it ends without a pack exactly when the client
    negotiated (sent haves, no done) and fewer haves were acknowledged than were
    sent; and its packets are the protocol's sections in their order, the
    acknowledgments only for a negotiating client, every other section only when
    it has lines, with [ready] and a delimiter before them and the packfile line
    last. *)
Theorem fetch_prelude_shape (args : FetchArgs) (acks : list string) (wanted_refs : list (string * string))
    (shallow unshallow uris : list string) (out out' : string) (pack : bool) :
  write_fetch_prelude args acks wanted_refs shallow unshallow uris out = (out', Ok pack) ->
  (pack = false <-> negotiated args = true /\ (length acks < length (fa_haves args))%nat)
  /\ exists y, out' = out +:+ y /\ encodes (prelude_pkts args acks wanted_refs shallow unshallow uris pack) y.
Proof.
  unfold write_fetch_prelude. pose proof (writes_sections wanted_refs shallow unshallow uris) as [Htail Htrue].
  unfold prelude_pkts, negotiated. destruct (negb (null (fa_haves args)) && negb (fa_done args)) eqn:En.
  2:{ intros Hr. pose proof (Htrue _ _ _ Hr) as ->. split; [split; [done|intros [? _]; done]|]. by apply (Htail out out' true). }
  assert (fa_done args || null (fa_haves args) = false) as -> by (revert En; by destruct (fa_done args), (fa_haves args)).
  cbn [orb]. intros (u1 & o1 & H1 & Hr)%bind_ok. apply bind_ok in Hr as (u2 & o2 & H2 & Hr).
  apply writes_text in H1 as (y1 & -> & E1).
  assert (writes (if null acks then wr_text "NAK" else for_each acks (fun a => wr_text ("ACK " +:+ a)))
    (map (fun l => Data (text_line l)) (ack_lines acks))) as Hack.
  { unfold ack_lines. destruct (null acks); [apply writes_text|]. rewrite map_map. apply writes_texts. }
  apply Hack in H2 as (y2 & -> & E2). destruct (Nat.leb_spec (length (fa_haves args)) (length acks)) as [Hle|Hlt]; cbn [negb] in Hr.
  - apply bind_ok in Hr as (u3 & o3 & H3 & Hr). apply writes_text in H3 as (y3 & -> & E3).
    apply bind_ok in Hr as (u4 & o4 & H4 & Hr). apply writes_delim in H4 as (y4 & -> & E4).
    pose proof (Htrue _ _ _ Hr) as ->. split; [split; [done|lia]|]. apply Htail in Hr as (y5 & -> & E5).
    exists (y1 +:+ y2 +:+ y3 +:+ y4 +:+ y5). rewrite !app_assoc_s. split; [done|]. cbn [app].
    rewrite <- app_assoc. apply (encodes_app [_]); [done|]. apply encodes_app; [done|]. cbn [app].
    apply (encodes_app [_]); [done|]. by apply (encodes_app [_]).
  - apply bind_ok in Hr as (u3 & o3 & H3 & Hr). injection Hr as <- <-. apply writes_flush in H3 as (y3 & -> & E3).
    split; [done|]. exists (y1 +:+ y2 +:+ y3). rewrite !app_assoc_s. split; [done|]. rewrite app_nil_r.
    apply (encodes_app [_]); [done|]. by apply encodes_app.
Qed.

(** ** ls-refs *)

Definition fits (l : string) : Prop := l <> "" /\ str_len l <= MAX_PKT_DATA.
Lemma line_run l out : fits l -> exists y, line l out = (out +:+ y, Ok tt) /\ encodes [Data l] y.
Proof.
  intros [Hne Hl]. unfold line. pose proof (wr_data_ok l out Hne Hl) as Hok.
  destruct (wr_data l out) as [o r] eqn:E. cbn [snd] in Hok. subst r. destruct (wr_data_run _ _ _ Hne E) as (y & -> & He). eauto.
Qed.
Lemma lines_run {A} (f : A -> string) (l : list A) : Forall (fun a => fits (f a)) l -> forall out,
  exists y, for_each l (fun a => line (f a)) out = (out +:+ y, Ok tt) /\ encodes (map (fun a => Data (f a)) l) y.
Proof.
  induction 1 as [|a l Ha _ IH]; intros out; cbn [for_each map].
  - exists "". rewrite app_empty_r. split; [done|constructor].
  - destruct (line_run (f a) out Ha) as (y & Hy & Ey). unfold mbind, M_bind. rewrite Hy.
    destruct (IH (out +:+ y)) as (z & -> & Ez). exists (y +:+ z). rewrite app_assoc_s. split; [done|].
    by apply (encodes_app [_]).
Qed.
(** The HEAD line an ls-refs answer starts with, if any. *)
Definition head_lines (a : LsRefsArgs) (head : option string) (refs : list RefRow) : list string :=
  match head with
  | Some h => if wanted a "HEAD" then match head_line a h refs with Some l => [l] | None => [] end else []
  | None => []
  end.

(** An ls-refs answer always ends in a flush and, when its lines fit in packets,
    holds exactly: HEAD first if it is wanted and resolves (or is reported
    unborn), then one line per ref of the table whose name has a requested
    prefix, in table order, and nothing else. *)
Theorem ls_refs_exact (a : LsRefsArgs) (head : option string) (refs : list RefRow) (out : string) :
  Forall fits (head_lines a head refs) -> Forall (fun r => fits (ref_line a r)) refs ->
  exists y, write_ls_refs a head refs out = (out +:+ y, Ok tt)
  /\ encodes (map Data (head_lines a head refs)
       ++ map (fun r => Data (ref_line a r)) (List.filter (fun r => wanted a (rr_name r)) refs) ++ [Flush]) y.
Proof.
  intros Hh Hr. unfold write_ls_refs.
  assert (exists y, match head with
    | Some h => if wanted a "HEAD" then match head_line a h refs with Some l => line l | None => mret tt end else mret tt
    | None => mret tt end out = (out +:+ y, Ok tt) /\ encodes (map Data (head_lines a head refs)) y) as (y1 & H1 & E1).
  { assert (exists y, (mret tt : WrM unit) out = (out +:+ y, Ok tt) /\ encodes [] y) as Hret
      by (exists ""; rewrite app_empty_r; split; [done|constructor]).
    unfold head_lines in *. destruct head as [h|]; [|done]. destruct (wanted a "HEAD"); [|done].
    destruct (head_line a h refs) as [l|]; [|done]. apply Forall_cons in Hh as [Hl _]. by apply line_run. }
  unfold mbind, M_bind. rewrite H1.
  destruct (lines_run (ref_line a) (List.filter (fun r => wanted a (rr_name r)) refs)) with (out := out +:+ y1)
    as (y2 & H2 & E2).
  { apply Forall_forall. intros r [Hin _]%elem_of_filter_b. rewrite Forall_forall in Hr. by apply Hr. }
  rewrite H2. exists (y1 +:+ y2 +:+ flush_to_write). split; [unfold wr_flush, emit, modify; by rewrite !app_assoc_s|].
  apply encodes_app; [done|]. apply encodes_app; [done|]. apply (encodes_one PFlush), pl_flush.
Qed.
End Answers.

(** ** The fetch request *)

Lemma parse_u64_to_string n : 0 <= n <= u64_max -> parse_u64 (z_to_string n) = Some n.
Proof.
  intros Hn. unfold parse_u64, parse_unsigned. pose proof (parse_signed_to_string n) as P. unfold parse_signed in P.
  destruct (z_to_string n) as [|c r] eqn:E; [done|].
  assert (Ascii.eqb c "-" = false) as Hc.
  { apply Ascii.eqb_neq. intros ->. unfold z_to_string in E. destruct n as [|p|p]; [done| |lia]. simpl in E.
    by apply uint_string_digit_head in E as [_ []]. }
  rewrite Hc in P. destruct (Ascii.eqb c "+"); rewrite P; by rewrite (proj2 (Z.leb_le n u64_max)) by lia.
Qed.

Lemma filter_true_all {A} (p : A -> bool) l : (forall x, x ∈ l -> p x = true) -> List.filter p l = l.
Proof.
  induction l as [|x l IH]; simpl; intros Hp; [done|]. rewrite Hp by left. f_equal. apply IH. intros. apply Hp. by right.
Qed.
Lemma exists_last_or_nil {A} (l : list A) : l = [] \/ exists l' x, l = l' ++ [x].
Proof. destruct l as [|y l _] using rev_ind; [by left|right; eauto]. Qed.

Section FetchRequest.
Context `{PF : Platform}.

(** What a request must satisfy to be one. *)
Record fetch_ok (f : FetchArgs) : Prop := {
  fo_wants : Forall (fun o => exists s, oid_from_hex s = Some o) (fa_wants f ++ fa_haves f ++ fa_shallow f);
  fo_names : Forall (fun n => n <> "") (fa_want_refs f ++ fa_deepen_not f);
  fo_deepen : match fa_deepen f with Some n => 0 < n <= u32_max | None => True end;
  fo_since : match fa_deepen_since f with Some n => 0 <= n <= i64_max | None => True end;
  fo_limit : match fa_filter f with Some (BlobLimit n) => 0 <= n <= u64_max | _ => True end;
  fo_uris : match fa_packfile_uris f with
            | Some l => Forall (fun u => u <> "" /\ contains_char "," u = false) l | None => True end }.
Definition cuts_ok (f : FetchArgs) : Prop :=
  (fa_deepen f <> None -> fa_deepen_since f = None /\ fa_deepen_not f = [])
  /\ (fa_deepen_since f <> None -> fa_deepen_not f = []) /\ (fa_wants f <> [] \/ fa_want_refs f <> []).
Lemma fold_ok_inv {A B} (I : A -> Prop) (f : A -> B -> result Error A) l a b :
  (forall a x a', f a x = Ok a' -> I a -> I a') -> fold_ok f a l = Ok b -> I a -> I b.
Proof.
  intros Hf. revert a. induction l as [|x l IH]; intros a Hr Ha; simpl in Hr; [by simplify_eq|].
  unfold mbind, result_bind in Hr. destruct (f a x) eqn:E; [|done]. eapply IH; [exact Hr|]. by eapply Hf.
Qed.
Lemma parse_u64_range s n : parse_u64 s = Some n -> 0 <= n <= u64_max.
Proof.
  assert (forall s z, parse_digits s = Some z -> 0 <= z) as Hd.
  { intros s' z. unfold parse_digits. destruct (NilZero.uint_of_string s') as [d|]; simpl; intros [= <-].
    unfold Z.of_uint. lia. }
  unfold parse_u64, parse_unsigned. destruct s as [|c r]; [done|]. destruct (Ascii.eqb c "+");
    (destruct (parse_digits _) as [z|] eqn:E; [|done]); apply Hd in E; destruct (Z.leb_spec z u64_max); intros; simplify_eq; lia.
Qed.
Lemma split_filter v : Forall (fun u => u <> "" /\ contains_char "," u = false)
  (List.filter (fun s => negb (str_empty s)) (split_on "," v)).
Proof.
  apply Forall_forall. intros u [Hin Hne]%elem_of_filter_b. unfold str_empty in Hne. bsimp. split; [done|].
  pose proof (split_on_no_sep "," v) as Hs. rewrite Forall_forall in Hs. by apply Hs.
Qed.
Lemma fetch_arg_ok f l f' : fetch_arg f l = Ok f' -> fetch_ok f -> fetch_ok f'.
Proof.
  destruct f as [ws wr hs dn tp np it od dp ds dnot dr sh fl pu fm]. intros Hf [H1 H2 H3 H4 H5 H6].
  unfold fetch_arg in Hf. destruct (match split_once " " l with Some kv => kv | None => (l, "") end) as [k v].
  cbn [fst snd] in Hf. unfold mbind, result_bind, wire_oid, of_option, option_bind in Hf.
  cbn [fa_wants fa_want_refs fa_haves fa_deepen fa_deepen_since fa_deepen_not fa_shallow fa_filter fa_packfile_uris] in *.
  apply Forall_app in H1 as [? [? ?]%Forall_app]. apply Forall_app in H2 as [? ?].
  assert (forall n, num v = Some n -> 0 <= n) as Hnum by (intros n Hn; apply parse_u64_range in Hn; lia).
  assert (forall x n, num x = Some n -> 0 <= n <= u64_max) as Hlim by (intros x n; apply parse_u64_range).
  repeat match type of Hf with
    | context [if String.eqb k ?w then _ else _] => destruct (String.eqb k w)
    | context [if _ && _ then _ else _] => destruct (_ && _) eqn:?
    | context [match oid_from_hex v with _ => _ end] => destruct (oid_from_hex v) eqn:?
    | context [if str_empty v then _ else _] => destruct (str_empty v) eqn:?
    | context [match num v with _ => _ end] => destruct (num v) eqn:?
    | context [if ?a <=? ?b then _ else _] => destruct (Z.leb_spec a b)
    | context [match pu with _ => _ end] => destruct pu
    | context [match strip_prefix _ v with _ => _ end] => destruct (strip_prefix _ v)
    | context [match num ?x with _ => _ end] => destruct (num x) eqn:?
    end; try done; injection Hf as <-; bsimp;
  (split; cbn [fa_wants fa_want_refs fa_haves fa_deepen fa_deepen_since fa_deepen_not fa_shallow fa_filter fa_packfile_uris];
   rewrite ?Forall_app; repeat split; auto; try (apply split_filter);
   try (constructor; [by eauto|constructor]); try (constructor; [unfold str_empty in *; by bsimp|constructor]);
   try (eapply Hlim; eassumption); try lia; try (by apply Hnum)).
Qed.

(** The parser of fetch arguments is sound: an accepted request asks for
    something, every id in it is a well-formed object id, its depth is in
    1..2^32-1, its date in 0..2^63-1, a blob limit in 0..2^64-1, and it has at most one kind of
    shallow cut. *)
Theorem parse_fetch_sound (args : list string) (fm : HashKind) (f : FetchArgs) :
  parse_fetch args fm = Ok f -> fetch_ok f /\ cuts_ok f.
Proof.
  unfold parse_fetch. unfold mbind, result_bind. destruct (fold_ok fetch_arg (fetch0 fm) args) as [g|] eqn:E; [|done].
  intros Hf. assert (f = g) as -> by (revert Hf; repeat (destruct (_ && _); [done|]); by intros [= ->]).
  split.
  - eapply (fold_ok_inv fetch_ok); [|exact E|]; [intros a x a'; apply fetch_arg_ok|]. by split; simpl; try constructor.
  - unfold cuts_ok. destruct g as [ws wr hs dn tp np it od dp ds dnot dr sh fl pu fm']. cbn in *.
    destruct dp, ds, dnot, ws, wr; cbn in Hf; try done; repeat split; auto; try done; try (by left); try (by right).
Qed.

(** The argument lines of a client that makes the request [f]. *)
Definition opt_line {A} (f : A -> string) (o : option A) : list string := match o with Some a => [f a] | None => [] end.
Definition filter_text (f : Filter) : string :=
  match f with BlobNone => "filter blob:none" | BlobLimit n => "filter blob:limit=" +:+ z_to_string n end.
Definition fetch_lines (f : FetchArgs) : list string :=
  word (fa_thin_pack f) "thin-pack" ++ word (fa_no_progress f) "no-progress" ++ word (fa_include_tag f) "include-tag"
  ++ word (fa_ofs_delta f) "ofs-delta" ++ map (fun o => "shallow " +:+ o) (fa_shallow f)
  ++ opt_line (fun n => "deepen " +:+ z_to_string n) (fa_deepen f)
  ++ opt_line (fun n => "deepen-since " +:+ z_to_string n) (fa_deepen_since f)
  ++ word (fa_deepen_relative f) "deepen-relative" ++ map (fun n => "deepen-not " +:+ n) (fa_deepen_not f)
  ++ map (fun o => "want " +:+ o) (fa_wants f) ++ map (fun n => "want-ref " +:+ n) (fa_want_refs f)
  ++ opt_line filter_text (fa_filter f) ++ opt_line (fun l => "packfile-uris " +:+ join "," l) (fa_packfile_uris f)
  ++ map (fun o => "have " +:+ o) (fa_haves f) ++ word (fa_done f) "done".
Lemma fold_ok_app {A B} (f : A -> B -> result Error A) a l1 l2 :
  fold_ok f a (l1 ++ l2) = (fold_ok f a l1 ≫= fun a' => fold_ok f a' l2).
Proof.
  revert a. induction l1 as [|x l1 IH]; intros a; [done|]. simpl. unfold mbind, result_bind in *. destruct (f a x); [apply IH|done].
Qed.
Definition args_wf (f : FetchArgs) : Prop :=
  Forall canonical (fa_wants f ++ fa_haves f ++ fa_shallow f) /\ fetch_ok f /\ cuts_ok f.

Section Segments.
Context (ws wr hs : list string) (dn tp np it od : bool) (dp ds : option Z) (dnot : list string) (dr : bool)
  (sh : list string) (fl : option Filter) (pu : option (list string)) (fm : HashKind).
Abbreviation req := (mkFetch ws wr hs dn tp np it od dp ds dnot dr sh fl pu fm).
Lemma arg_want o : canonical o -> fetch_arg req ("want " +:+ o) = Ok (mkFetch (ws ++ [o]) wr hs dn tp np it od dp ds dnot dr sh fl pu fm).
Proof. intros Ho. unfold fetch_arg. cbn. by rewrite wire_oid_ok. Qed.
Lemma arg_have o : canonical o -> fetch_arg req ("have " +:+ o) = Ok (mkFetch ws wr (hs ++ [o]) dn tp np it od dp ds dnot dr sh fl pu fm).
Proof. intros Ho. unfold fetch_arg. cbn. by rewrite wire_oid_ok. Qed.
Lemma arg_shallow o : canonical o -> fetch_arg req ("shallow " +:+ o) = Ok (mkFetch ws wr hs dn tp np it od dp ds dnot dr (sh ++ [o]) fl pu fm).
Proof. intros Ho. unfold fetch_arg. cbn. by rewrite wire_oid_ok. Qed.
Lemma arg_want_ref n : n <> "" -> fetch_arg req ("want-ref " +:+ n) = Ok (mkFetch ws (wr ++ [n]) hs dn tp np it od dp ds dnot dr sh fl pu fm).
Proof. intros Hn. unfold fetch_arg. cbn. unfold str_empty. by rewrite (proj2 (String.eqb_neq _ _)). Qed.
Lemma arg_deepen_not n : n <> "" -> fetch_arg req ("deepen-not " +:+ n) = Ok (mkFetch ws wr hs dn tp np it od dp ds (dnot ++ [n]) dr sh fl pu fm).
Proof. intros Hn. unfold fetch_arg. cbn. unfold str_empty. by rewrite (proj2 (String.eqb_neq _ _)). Qed.
Lemma arg_deepen n : 0 < n <= u32_max -> fetch_arg req ("deepen " +:+ z_to_string n) = Ok (mkFetch ws wr hs dn tp np it od (Some n) ds dnot dr sh fl pu fm).
Proof.
  intros Hn. unfold fetch_arg. cbn -[z_to_string]. unfold num. rewrite parse_u64_to_string by (unfold u32_max, u64_max in *; lia).
  by rewrite (proj2 (andb_true_iff _ _)) by lia.
Qed.
Lemma arg_since n : 0 <= n <= i64_max -> fetch_arg req ("deepen-since " +:+ z_to_string n) = Ok (mkFetch ws wr hs dn tp np it od dp (Some n) dnot dr sh fl pu fm).
Proof.
  intros Hn. unfold fetch_arg. cbn -[z_to_string]. unfold num. rewrite parse_u64_to_string by (unfold i64_max, u64_max in *; lia).
  by rewrite (proj2 (Z.leb_le _ _)) by lia.
Qed.
Lemma arg_filter x : match x with BlobLimit n => 0 <= n <= u64_max | BlobNone => True end ->
  fetch_arg req (filter_text x) = Ok (mkFetch ws wr hs dn tp np it od dp ds dnot dr sh (Some x) pu fm).
Proof.
  destruct x as [|n]; [done|]. intros Hn. unfold filter_text, fetch_arg. cbn -[z_to_string]. unfold num.
  by rewrite parse_u64_to_string.
Qed.
Lemma join_split l : Forall (fun u => u <> "" /\ contains_char "," u = false) l ->
  List.filter (fun s => negb (str_empty s)) (split_on "," (join "," l)) = l.
Proof.
  intros Hl. destruct (exists_last_or_nil l) as [->|(l' & w & ->)]; [done|]. rewrite (split_join ",").
  - apply filter_true_all. intros x Hx. rewrite Forall_forall in Hl. destruct (Hl x Hx) as [Hne _].
    unfold str_empty. by rewrite (proj2 (String.eqb_neq _ _)).
  - eapply Forall_impl; [exact Hl|]. by intros x [_ ?].
Qed.
Lemma arg_uris l : pu = None -> Forall (fun u => u <> "" /\ contains_char "," u = false) l ->
  fetch_arg req ("packfile-uris " +:+ join "," l) = Ok (mkFetch ws wr hs dn tp np it od dp ds dnot dr sh fl (Some l) fm).
Proof. intros -> Hl. unfold fetch_arg. cbn -[join split_on]. by rewrite join_split. Qed.
End Segments.

(** A segment of argument lines, given what one line does. *)
Ltac segment arg_lemma :=
  induction 1 as [|o l Ho _ IH]; intros; cbn [map fold_ok]; unfold mbind, result_bind;
  [by rewrite app_nil_r|rewrite arg_lemma by done; rewrite IH; by rewrite <- app_assoc].
Lemma seg_want l : Forall canonical l -> forall ws wr hs dn tp np it od dp ds dnot dr sh fl pu fm,
  fold_ok fetch_arg (mkFetch ws wr hs dn tp np it od dp ds dnot dr sh fl pu fm) (map (fun o => "want " +:+ o) l)
  = Ok (mkFetch (ws ++ l) wr hs dn tp np it od dp ds dnot dr sh fl pu fm).
Proof. segment arg_want. Qed.
Lemma seg_have l : Forall canonical l -> forall ws wr hs dn tp np it od dp ds dnot dr sh fl pu fm,
  fold_ok fetch_arg (mkFetch ws wr hs dn tp np it od dp ds dnot dr sh fl pu fm) (map (fun o => "have " +:+ o) l)
  = Ok (mkFetch ws wr (hs ++ l) dn tp np it od dp ds dnot dr sh fl pu fm).
Proof. segment arg_have. Qed.
Lemma seg_shallow l : Forall canonical l -> forall ws wr hs dn tp np it od dp ds dnot dr sh fl pu fm,
  fold_ok fetch_arg (mkFetch ws wr hs dn tp np it od dp ds dnot dr sh fl pu fm) (map (fun o => "shallow " +:+ o) l)
  = Ok (mkFetch ws wr hs dn tp np it od dp ds dnot dr (sh ++ l) fl pu fm).
Proof. segment arg_shallow. Qed.
Lemma seg_want_ref l : Forall (fun n => n <> "") l -> forall ws wr hs dn tp np it od dp ds dnot dr sh fl pu fm,
  fold_ok fetch_arg (mkFetch ws wr hs dn tp np it od dp ds dnot dr sh fl pu fm) (map (fun n => "want-ref " +:+ n) l)
  = Ok (mkFetch ws (wr ++ l) hs dn tp np it od dp ds dnot dr sh fl pu fm).
Proof. segment arg_want_ref. Qed.
Lemma seg_deepen_not l : Forall (fun n => n <> "") l -> forall ws wr hs dn tp np it od dp ds dnot dr sh fl pu fm,
  fold_ok fetch_arg (mkFetch ws wr hs dn tp np it od dp ds dnot dr sh fl pu fm) (map (fun n => "deepen-not " +:+ n) l)
  = Ok (mkFetch ws wr hs dn tp np it od dp ds (dnot ++ l) dr sh fl pu fm).
Proof. segment arg_deepen_not. Qed.
Lemma fold_ok_step {A B} (f : A -> B -> result Error A) a a' l1 l2 :
  fold_ok f a l1 = Ok a' -> fold_ok f a (l1 ++ l2) = fold_ok f a' l2.
Proof. intros Hl. rewrite fold_ok_app. unfold mbind, result_bind. by rewrite Hl. Qed.
Lemma fold_ok_one {A B} (f : A -> B -> result Error A) a x a' : f a x = Ok a' -> fold_ok f a [x] = Ok a'.
Proof. intros E. simpl. unfold mbind, result_bind. by rewrite E. Qed.
Lemma fetch_lines_fold f : Forall canonical (fa_wants f ++ fa_haves f ++ fa_shallow f) -> fetch_ok f ->
  fold_ok fetch_arg (fetch0 (fa_object_format f)) (fetch_lines f) = Ok f.
Proof.
  destruct f as [ws wr hs dn tp np it od dp ds dnot dr sh fl pu fm]. intros Hc [_ H2 H3 H4 H5 H6].
  apply Forall_app in Hc as [Hws [Hhs Hsh]%Forall_app]. apply Forall_app in H2 as [Hwr Hnot]. unfold fetch_lines, fetch0.
  cbn [fa_wants fa_want_refs fa_haves fa_done fa_thin_pack fa_no_progress fa_include_tag fa_ofs_delta fa_deepen fa_deepen_since
    fa_deepen_not fa_deepen_relative fa_shallow fa_filter fa_packfile_uris fa_object_format] in *.
  erewrite fold_ok_step; [|instantiate (1 := mkFetch [] [] [] false tp false false false None None [] false [] None None fm); by destruct tp].
  erewrite fold_ok_step; [|instantiate (1 := mkFetch [] [] [] false tp np false false None None [] false [] None None fm); by destruct np].
  erewrite fold_ok_step; [|instantiate (1 := mkFetch [] [] [] false tp np it false None None [] false [] None None fm); by destruct it].
  erewrite fold_ok_step; [|instantiate (1 := mkFetch [] [] [] false tp np it od None None [] false [] None None fm); by destruct od].
  erewrite fold_ok_step; [|by apply seg_shallow]. cbn [app].
  erewrite fold_ok_step; [|instantiate (1 := mkFetch [] [] [] false tp np it od dp None [] false sh None None fm);
    destruct dp; [by apply fold_ok_one, arg_deepen|done]].
  erewrite fold_ok_step; [|instantiate (1 := mkFetch [] [] [] false tp np it od dp ds [] false sh None None fm);
    destruct ds; [by apply fold_ok_one, arg_since|done]].
  erewrite fold_ok_step; [|instantiate (1 := mkFetch [] [] [] false tp np it od dp ds [] dr sh None None fm); by destruct dr].
  erewrite fold_ok_step; [|by apply seg_deepen_not]. erewrite fold_ok_step; [|by apply seg_want].
  erewrite fold_ok_step; [|by apply seg_want_ref]. cbn [app].
  erewrite fold_ok_step; [|instantiate (1 := mkFetch ws wr [] false tp np it od dp ds dnot dr sh fl None fm);
    destruct fl as [x|]; [apply fold_ok_one, arg_filter; by destruct x|done]].
  erewrite fold_ok_step; [|instantiate (1 := mkFetch ws wr [] false tp np it od dp ds dnot dr sh fl pu fm);
    destruct pu; [by apply fold_ok_one, arg_uris|done]].
  erewrite fold_ok_step; [|by apply seg_have]. cbn [app]. by destruct dn.
Qed.
Lemma parse_fetch_lines f : args_wf f -> parse_fetch (fetch_lines f) (fa_object_format f) = Ok f.
Proof.
  intros (Hc & Hok & Hcut & Hsince & Hw). unfold parse_fetch. unfold mbind, result_bind. rewrite fetch_lines_fold by done.
  destruct (fa_deepen f) as [n|]; [destruct Hcut as [Hs Hn]; [done|]; rewrite Hs, Hn|].
  - destruct Hw; by destruct (fa_wants f), (fa_want_refs f).
  - cbn [is_some andb]. destruct (fa_deepen_since f) as [m|]; [rewrite Hsince by done|].
    + destruct Hw; by destruct (fa_wants f), (fa_want_refs f).
    + destruct Hw; by destruct (fa_wants f), (fa_want_refs f).
Qed.
End FetchRequest.

(** ** The whole v2 request *)

Section V2.
Context `{PF : Platform, !OidLaws, PL : Packetline, !PacketlineLaws}.

Fixpoint v2_run (s : V2State) (ps : list Pkt) : result Error V2State :=
  match ps with
  | [] => Ok s
  | Data d :: ps' => s' ← v2_line s (strip_nl d); v2_run s' ps'
  | Delim :: ps' => v2_run (mkV2 (v2_cmd s) (v2_args s) true (v2_format s)) ps'
  | _ => Err (Protocol "truncated v2 command")
  end.
Lemma v2_loop_reads ps : forall fuel s r x rest s', encodes (ps ++ [Flush]) x -> rest_of r = x +:+ rest ->
  (length ps < fuel)%nat -> v2_run s ps = Ok s' -> v2_loop fuel s r = Some (Ok s').
Proof.
  induction ps as [|p ps IH]; intros fuel s r x rest s' He Hr Hf Hs; (destruct fuel as [|fuel]; [simpl in Hf; lia|]);
    simpl in He; inversion He as [|l qs y x' Hy Hx El Ex]; subst; rewrite app_assoc_s in Hr;
    destruct (next_reads _ _ _ _ Hr Hy) as (r' & Hn & Hr'); cbn [v2_loop]; rewrite Hn.
  - destruct l; try done. simpl in Hs. by simplify_eq.
  - simpl in Hf. destruct l; cbn [pkt_of v2_run] in *; try done; unfold mbind, result_bind in Hs.
    + destruct (v2_line s (strip_nl d)) as [s1|]; [|done]. eapply IH; [exact Hx|exact Hr'|lia|exact Hs].
    + eapply IH; [exact Hx|exact Hr'|lia|exact Hs].
Qed.
Lemma encodes_length ps x : encodes ps x -> (length ps <= String.length x)%nat.
Proof.
  induction 1 as [|l ps y x [Hy _] _ IH]; [done|]. specialize (Hy ""). apply pl_consumes in Hy. rewrite length_app_s. simpl. lia.
Qed.
Lemma v2_loop_total fuel : forall s r, (String.length (rest_of r) < fuel)%nat -> is_Some (v2_loop fuel s r).
Proof.
  induction fuel as [|fuel IH]; intros s r Hf; [lia|]. cbn [v2_loop].
  destruct (next r) as [r' [[p|]|e]] eqn:En; [|eauto|eauto]. assert (Hsh := next_shrinks _ _ _ En).
  destruct p; try (eexists; reflexivity); [|apply IH; lia]. destruct (v2_line s (strip_nl d)); [apply IH; lia|eauto].
Qed.

(** A v2 request as a client writes it: the command, its agent and format, a
    delimiter, the arguments, a flush. *)
Definition request_lines (command agent : string) (fm : HashKind) : list string :=
  ["command=" +:+ command; "agent=" +:+ agent; format_cap fm].
Definition write_request (command agent : string) (fm : HashKind) (args : list string) : WrM unit :=
  for_each (request_lines command agent fm) (fun l => wr_data (l +:+ nl_s)) ≫= fun _ =>
  wr_delim ≫= fun _ => for_each args (fun l => wr_data (l +:+ nl_s)) ≫= fun _ => wr_flush.
Lemma strip_nl_line l : strip_nl (l +:+ nl_s) = l.
Proof. unfold strip_nl. by rewrite (proj2 (strip_suffix_spec _ _ l) eq_refl). Qed.
Lemma write_request_run command agent fm args x : write_request command agent fm args "" = (x, Ok tt) ->
  encodes ((map (fun l => Data (l +:+ nl_s)) (request_lines command agent fm) ++ [Delim]
            ++ map (fun l => Data (l +:+ nl_s)) args) ++ [Flush]) x.
Proof.
  assert (forall ls, Forall (fun l => l +:+ nl_s <> "") ls) as Hne by (intros ls; apply Forall_forall; by intros []).
  intros Hr. apply bind_ok in Hr as ([] & o1 & H1 & Hr). apply bind_ok in Hr as ([] & o2 & H2 & Hr).
  apply bind_ok in Hr as ([] & o3 & H3 & H4). apply wr_each_run in H1 as (y1 & -> & E1); [|done].
  apply writes_delim in H2 as (y2 & -> & E2). apply wr_each_run in H3 as (y3 & -> & E3); [|done].
  apply wr_flush_run in H4 as (y4 & -> & E4). cbn [String.append]. rewrite <- !app_assoc, !app_assoc_s.
  do 3 (apply encodes_app; [done|]). done.
Qed.
Lemma v2_args_run args : forall s, v2_in_args s = true ->
  v2_run s (map (fun l => Data (l +:+ nl_s)) args) = Ok (mkV2 (v2_cmd s) (v2_args s ++ args) true (v2_format s)).
Proof.
  induction args as [|l args IH]; intros [c a i fm] Hi; cbn [v2_in_args] in Hi; subst i; cbn [map v2_run v2_cmd v2_args v2_format].
  - by rewrite app_nil_r.
  - rewrite strip_nl_line. cbn [v2_line]. unfold mbind, result_bind. rewrite IH by done.
    cbn [v2_cmd v2_args v2_format]. by rewrite <- app_assoc.
Qed.
Lemma v2_run_request command agent fm args :
  v2_run (mkV2 None [] false Sha1) (map (fun l => Data (l +:+ nl_s)) (request_lines command agent fm) ++ [Delim]
    ++ map (fun l => Data (l +:+ nl_s)) args) = Ok (mkV2 (Some command) args true fm).
Proof.
  unfold request_lines. cbn [map app v2_run]. unfold mbind, result_bind. rewrite !strip_nl_line.
  cbn -[strip_nl nl_s String.append]. change (strip_prefix "command=" ("command=" +:+ command)) with (Some command).
  cbn -[strip_nl nl_s]. destruct fm; cbn -[strip_nl nl_s]; by rewrite v2_args_run.
Qed.
Lemma parse_request command agent fm args x : write_request command agent fm args "" = (x, Ok tt) ->
  parse_v2_command x =
    Some (if String.eqb command "ls-refs" then a ← parse_ls_refs args fm; Ok (LsRefs a)
          else if String.eqb command "fetch" then f ← parse_fetch args fm; Ok (Fetch f)
          else Err (Protocol "unknown command")).
Proof.
  intros Hw. apply write_request_run in Hw. unfold parse_v2_command.
  assert (Hl := encodes_length _ _ Hw). rewrite length_app in Hl. simpl length in Hl at 2.
  rewrite (v2_loop_reads _ _ _ _ x "" (mkV2 (Some command) args true fm) Hw);
    [done|by rewrite app_empty_r|lia|apply v2_run_request].
Qed.

(** C30: A fetch request survives the wire: the request a client writes as a protocol
    v2 command is parsed back into exactly the arguments it meant, whatever
    agent it names. *)
Theorem fetch_request_roundtrip (f : FetchArgs) (agent x : string) :
  args_wf f -> write_request "fetch" agent (fa_object_format f) (fetch_lines f) "" = (x, Ok tt) ->
  parse_v2_command x = Some (Ok (Fetch f)).
Proof.
  intros Hf Hw. rewrite (parse_request _ _ _ _ _ Hw). cbn [String.eqb Ascii.eqb Bool.eqb]. unfold mbind, result_bind.
  by rewrite parse_fetch_lines.
Qed.

(** The v2 command parser answers on every body. *)
Theorem parse_v2_total (body : string) : is_Some (parse_v2_command body).
Proof.
  unfold parse_v2_command. destruct (v2_loop_total (S (String.length body)) (mkV2 None [] false Sha1) (push body reader0)) as [v ->].
  - cbn. lia.
  - destruct v; eauto.
Qed.
End V2.
