(* ===== verification/WireDemo.v ===== *)
(** * Concrete wire traffic

    The theorems of [Receive] and [Answers] applied to a push header, a fetch
    request and answers on the concrete codec [demo_packetline]. *)
From S2P Require Import Prelude Errors Text Db Push PushFacts Memo Wire WireFacts Receive Answers.
Open Scope Z_scope.

Module WireDemo.
#[local] Existing Instance demo_platform.
#[local] Existing Instance demo_packetline.
Definition caps : ReceiveCaps := mkCaps true false true false false true true (Some "agent=git/2.44") Sha1.
Definition cmd1 : RefCommand := mkRefCommand PushDemo.zero PushDemo.A "refs/heads/main".
Definition cmd2 : RefCommand := mkRefCommand PushDemo.A PushDemo.B "refs/heads/dev".
Definition header : string := (write_lines (header_lines [PushDemo.B] cmd1 [cmd2] caps) "").1.
Definition fetch_req : FetchArgs :=
  mkFetch [PushDemo.A] ["refs/heads/main"] [PushDemo.B] false true false false true (Some 3) None [] false [PushDemo.B]
    (Some (BlobLimit 1024)) (Some ["https"]) Sha1.
Definition request : string := (write_request "fetch" "git/2.44" Sha1 (fetch_lines fetch_req) "").1.
Definition results : list RefResult := [RrOk "refs/heads/main"; RrNg "refs/heads/x y" "non-fast-forward"].
Definition report : string := (write_report_status (Ok tt) results caps "").1.
Definition rows : list RefRow := [mkRefRow "refs/heads/dev" PushDemo.B None; mkRefRow "refs/heads/main" PushDemo.A None].
Definition ls_args : LsRefsArgs := mkLsRefs true true true ["refs/heads/m"; "HEAD"] Sha1.
End WireDemo.
Import WireDemo.

Lemma demo_canonical o : String.length o = 40%nat -> str_all is_hexdigit o = true -> str_map to_lower o = o ->
  @canonical demo_platform o.
Proof. intros H1 H2 H3. unfold canonical. simpl. rewrite H1, H2. simpl. by rewrite H3. Qed.
Ltac canon := apply demo_canonical; reflexivity.

Lemma receive_header_total_witness : is_Some (@receive_header demo_platform demo_packetline (body_of [Ok "0004"; Err Budget])).
Proof. apply (@receive_header_total demo_platform demo_packetline demo_packetline_laws). Defined.
Lemma receive_header_chunked_witness : exists body rem,
  @receive_header demo_platform demo_packetline (body_of (map Ok (chunks 7 (header +:+ "PACK"))))
    = Some (body, Ok (mkHeader [cmd1; cmd2] caps [PushDemo.B], rem))
  /\ pending (unread rem body) = "PACK".
Proof.
  apply (@receive_header_chunked demo_platform (demo_oid_laws _) demo_packetline demo_packetline_laws
    [PushDemo.B] cmd1 [cmd2] caps header "PACK" (chunks 7 (header +:+ "PACK"))).
  - constructor; [canon|constructor].
  - split; [canon|]. split; [canon|]. split; [done|]. split; reflexivity.
  - constructor; [|constructor]. split; [canon|]. split; [canon|]. split; [done|]. split; reflexivity.
  - split; reflexivity.
  - vm_compute. reflexivity.
  - vm_compute. discriminate.
  - apply chunks_concat. lia.
  - apply (Forall_impl (fun c => 1 <= String.length c <= 7)%nat); [apply chunks_sizes; lia|].
    intros c Hc. change FILL_STEP with 65536. unfold str_len. lia.
Defined.
Lemma report_status_demux_witness : exists body y, report = "" +:+ y
  /\ @encodes demo_packetline (map (fun l => Data (text_line l)) (status_lines (Ok tt) results) ++ [Flush]) body.
Proof.
  destruct (@report_status_demux demo_packetline demo_packetline_laws (Ok tt) results caps "" report)
    as (body & y & Hy & He & _); [vm_compute; reflexivity|]. exists body, y. split; [exact Hy|exact He].
Defined.
Lemma fetch_prelude_shape_witness :
  let run := @write_fetch_prelude demo_packetline fetch_req [PushDemo.B] [] [PushDemo.A] [] [] "" in
  exists y, run.1 = "" +:+ y
  /\ @encodes demo_packetline (prelude_pkts fetch_req [PushDemo.B] [] [PushDemo.A] [] [] true) y.
Proof.
  refine (proj2 (@fetch_prelude_shape demo_packetline demo_packetline_laws fetch_req [PushDemo.B] [] [PushDemo.A] [] [] ""
    (@write_fetch_prelude demo_packetline fetch_req [PushDemo.B] [] [PushDemo.A] [] [] "").1 true _)).
  vm_compute. reflexivity.
Defined.
Lemma ls_refs_exact_witness : exists y, @write_ls_refs demo_packetline ls_args (Some "refs/heads/main") rows "" = ("" +:+ y, Ok tt)
  /\ @encodes demo_packetline
      [Data (PushDemo.A +:+ " HEAD symref-target:refs/heads/main" +:+ nl_s); Data (PushDemo.A +:+ " refs/heads/main" +:+ nl_s); Flush] y.
Proof.
  apply (@ls_refs_exact demo_packetline demo_packetline_laws ls_args (Some "refs/heads/main") rows "").
  - repeat (constructor; [split; [done|vm_compute; discriminate]|]). constructor.
  - repeat (constructor; [split; [done|vm_compute; discriminate]|]). constructor.
Defined.
Lemma parse_fetch_sound_witness : @fetch_ok demo_platform fetch_req.
Proof.
  apply (@parse_fetch_sound demo_platform (fetch_lines fetch_req) Sha1 fetch_req). vm_compute. reflexivity.
Defined.
Lemma fetch_request_roundtrip_witness :
  @parse_v2_command demo_platform demo_packetline request = Some (Ok (Fetch fetch_req)).
Proof.
  apply (@fetch_request_roundtrip demo_platform demo_packetline demo_packetline_laws fetch_req "git/2.44" request).
  - split; [|split].
    + repeat (constructor; [canon|]). constructor.
    + split; [repeat (constructor; [eexists; canon|]); constructor|by repeat constructor|by vm_compute|done|by vm_compute|].
      by repeat constructor.
    + split; [done|]. split; [done|]. by left.
  - vm_compute. reflexivity.
Defined.
Lemma parse_v2_total_witness : is_Some (@parse_v2_command demo_platform demo_packetline "0000").
Proof. apply (@parse_v2_total demo_platform demo_packetline demo_packetline_laws). Defined.
