(* ===== verification/Auth.v ===== *)
(** * Routes and credentials at the edge

    [RepoRoute] of [server/src/wire/http.rs], and [server/src/auth/mod.rs]: the
    Authorization header, the global secrets, the per-repository tokens and the
    anonymous fallback.  The repository object's two answers ([/_do/auth],
    [/_do/public]) are arguments; [stub_auth] and [stub_public] are those answers
    as the handlers of [Admin] give them, seen through the edge's error mapping. *)
From S2P Require Import Prelude Errors Text Db Scope Push PushFacts Admin.
Open Scope Z_scope.

(** ** Routes *)

Record RepoRoute : Type := mkRoute { rt_owner : string; rt_repo : string }.
Definition seg_byte (c : ascii) : bool := is_alnum c || Ascii.eqb c "." || Ascii.eqb c "_" || Ascii.eqb c "-".
Definition seg_ok (s : string) : bool :=
  (1 <=? str_len s) && (str_len s <=? 64) && str_all seg_byte s && negb (String.eqb s ".") && negb (String.eqb s "..").
(** [splitn(3, '/')], each piece defaulting to the empty string. *)
Definition splitn3 (s : string) : string * string * string :=
  match split_once "/" s with
  | None => (s, "", "")
  | Some (a, r) => match split_once "/" r with
                   | None => (a, r, "")
                   | Some (b, rest) => (a, b, rest)
                   end
  end.
Definition parse_route (path : string) : result Error (RepoRoute * string) :=
  p ← of_option NotFound (strip_prefix "/" path);
  let '(owner, repo, rest) := splitn3 p in
  let repo := unwrap_or repo (strip_suffix ".git" repo) in
  if negb (seg_ok owner) || negb (seg_ok repo) then Err NotFound
  else Ok (mkRoute owner repo, rest).
Definition route_name (r : RepoRoute) : string := rt_owner r +:+ "/" +:+ rt_repo r.
(** The name of an owner's registry object (edge/mod.rs). *)
Definition owner_registry (r : RepoRoute) : string := "owner!" +:+ rt_owner r.

(** ** Credentials *)

Inductive Level : Type := LRead | LWrite.
Definition eq_ignore_ascii_case (a b : string) : bool := String.eqb (str_map to_lower a) (str_map to_lower b).
(** [split_at_checked] at a byte that is not a character boundary is [None]; such
    a prefix holds a non-ASCII byte and equals no scheme name. *)
Definition scheme (hdr name : string) : option string :=
  let n := String.length name in
  if (String.length hdr <? n)%nat then None
  else if eq_ignore_ascii_case (str_take n hdr) name then strip_prefix " " (str_drop n hdr)
  else None.

Definition b64_val (c : ascii) : option Z :=
  let b := byte_val c in
  if is_upper c then Some (b - 65)
  else if is_lower c then Some (b - 97 + 26)
  else if is_digit c then Some (b - 48 + 52)
  else if Ascii.eqb c "+" then Some 62
  else if Ascii.eqb c "/" then Some 63
  else None.
Definition b64_or0 (c : ascii) : Z := unwrap_or 0 (b64_val c).
Fixpoint trim_eq_rev (s : string) : string :=
  match s with String c s' => if Ascii.eqb c "=" then trim_eq_rev s' else s | EmptyString => s end.
Definition trim_end_eq (s : string) : string := String.rev (trim_eq_rev (String.rev s)).
(** The bytes of a group: [(a << 2) | (b >> 4)], [(b << 4) | (c >> 2)],
    [(c << 6) | d] on [u8]. *)
Definition b64_1 (a b : Z) : ascii := byte_of (Z.lor (Z.shiftl a 2) (Z.shiftr b 4)).
Definition b64_2 (b c : Z) : ascii := byte_of (Z.lor (Z.shiftl b 4) (Z.shiftr c 2)).
Definition b64_3 (c d : Z) : ascii := byte_of (Z.lor (Z.shiftl c 6) d).
Fixpoint b64_groups (s : string) : option string :=
  match s with
  | EmptyString => Some EmptyString
  | String ca s1 =>
      match b64_val ca with
      | None => None
      | Some a =>
          match s1 with
          | EmptyString => None
          | String cb EmptyString => Some (String (b64_1 a (b64_or0 cb)) EmptyString)
          | String cb (String cc EmptyString) =>
              Some (String (b64_1 a (b64_or0 cb)) (String (b64_2 (b64_or0 cb) (b64_or0 cc)) EmptyString))
          | String cb (String cc (String cd rest)) =>
              match b64_groups rest with
              | Some out => Some (String (b64_1 a (b64_or0 cb)) (String (b64_2 (b64_or0 cb) (b64_or0 cc))
                                    (String (b64_3 (b64_or0 cc) (b64_or0 cd)) out)))
              | None => None
              end
          end
      end
  end.
Definition b64_decode (s : string) : option string := b64_groups (trim_end_eq s).

Fixpoint xor_fold (acc : Z) (a b : string) : Z :=
  match a, b with
  | String x a', String y b' => xor_fold (Z.lor acc (Z.lxor (byte_val x) (byte_val y))) a' b'
  | _, _ => acc
  end.
Definition ct_eq (a b : string) : bool :=
  if negb (str_len a =? str_len b) then false else xor_fold 0 a b =? 0.
Definition is_repo_token (token : string) : bool :=
  (str_len token =? 67) && starts_with "ge_" token
  && str_all (fun b => is_hexdigit b && negb (is_upper b)) (str_drop 3 token).

(** [req.headers().get("authorization")]: a header error, or the value if any. *)
Definition credentials (hdr : result string (option string)) : result Error (string * string) :=
  h ← match hdr with Err e => Err (Internal e) | Ok None => Err Auth | Ok (Some h) => Ok h end;
  tp ← match scheme h "Bearer" with
       | Some t => Ok (trim t, "bearer")
       | None =>
           match scheme h "Basic" with
           | Some b =>
               decoded ← of_option Auth (b64_decode (trim b));
               let s := lossy decoded in
               Ok (match split_once ":" s with
                   | Some (u, p) => (p, if str_empty u then "basic" else u)
                   | None => (s, "basic")
                   end)
           | None => Err Auth
           end
       end;
  if str_empty tp.1 then Err Auth else Ok tp.

Record AuthRow : Type := mkAuthRow { ar_level : string; ar_name : string }.

Section Auth.
Context `{Platform}.

Definition secret_is (name token : string) : bool :=
  match env_secret name with Some w => ct_eq token w | None => false end.
Definition authenticate_admin (hdr : result string (option string)) : result Error string :=
  tp ← credentials hdr; if secret_is "GE_WRITE_TOKEN" tp.1 then Ok tp.2 else Err Auth.
Definition is_admin (hdr : result string (option string)) : bool :=
  match credentials hdr with Ok tp => secret_is "GE_WRITE_TOKEN" tp.1 | Err _ => false end.
Definition anonymous (do_public : result Error bool) : result Error string :=
  public ← do_public; if (public : bool) then Ok "anonymous" else Err Auth.
Definition authenticate (hdr : result string (option string)) (need : Level)
    (do_auth : string -> result Error AuthRow) (do_public : result Error bool) : result Error string :=
  match credentials hdr, need with
  | Err Auth, LRead => anonymous do_public
  | Err e, _ => Err e
  | Ok (token, principal), _ =>
      if secret_is "GE_WRITE_TOKEN" token then Ok principal
      else if secret_is "GE_READ_TOKEN" token then match need with LRead => Ok principal | LWrite => Err Forbidden end
      else if negb (is_repo_token token) then Err Auth
      else match do_auth (token_hash token) with
           | Ok r => if String.eqb (ar_level r) "write" then Ok (ar_name r)
                     else match need with
                          | LRead => if String.eqb (ar_level r) "read" then Ok (ar_name r) else Err Forbidden
                          | LWrite => Err Forbidden
                          end
           | Err (Auth | NotFound) => Err Auth
           | Err e => Err e
           end
  end.
Definition presented_hash (hdr : result string (option string)) : result Error string :=
  tp ← credentials hdr; Ok (token_hash tp.1).

(** The repository's answers, through [do_error_response] and [from_do_response]. *)
Definition stub_auth (now : Z) (d : Db) (hash : string) : result Error AuthRow :=
  match (auth_lookup now hash d).2 with
  | Ok r => Ok (mkAuthRow (au_level r) (au_name r))
  | Err e => Err (edge_view e)
  end.
Definition stub_public (d : Db) : result Error bool :=
  match (set_public None d).2 with Ok b => Ok b | Err e => Err (edge_view e) end.
End Auth.

(** ** Facts on routes *)

Lemma seg_no_slash s : seg_ok s = true -> contains_char "/" s = false.
Proof.
  unfold seg_ok. intros Hs. bsimp. apply str_any_false. eapply str_all_impl; [|eassumption].
  intros c. destruct (Ascii.eqb_spec "/" c) as [<-|]; done.
Qed.
Lemma seg_no_bang s : seg_ok s = true -> contains_char "!" s = false.
Proof.
  unfold seg_ok. intros Hs. bsimp. apply str_any_false. eapply str_all_impl; [|eassumption].
  intros c. destruct (Ascii.eqb_spec "!" c) as [<-|]; done.
Qed.
Lemma parse_route_segs p r rest : parse_route p = Ok (r, rest) -> seg_ok (rt_owner r) = true /\ seg_ok (rt_repo r) = true.
Proof.
  unfold parse_route. unfold mbind, result_bind, of_option. destruct (strip_prefix "/" p) as [q|]; [|done].
  destruct (splitn3 q) as [[owner repo] rest']. destruct (seg_ok owner) eqn:E1; [|done]. cbn [negb orb].
  destruct (seg_ok (unwrap_or repo _)) eqn:E2; [|done]. by intros [= <- _].
Qed.
Lemma contains_app c a b : contains_char c (a +:+ b) = contains_char c a || contains_char c b.
Proof. unfold contains_char. induction a; simpl; [done|]. by rewrite IHa, orb_assoc. Qed.

(** Two requests reach the same repository object exactly when they name the
    same owner and repository; no repository shares a name with an owner's
    registry object; and [/owner/repo/rest] and [/owner/repo.git/rest] both parse
    back to their parts. *)
Theorem route_identifies (p1 p2 rest1 rest2 : string) (r1 r2 : RepoRoute) :
  parse_route p1 = Ok (r1, rest1) -> parse_route p2 = Ok (r2, rest2) ->
  (route_name r1 = route_name r2 <-> r1 = r2)
  /\ route_name r1 <> owner_registry r2
  /\ (strip_suffix ".git" (rt_repo r1) = None -> forall rest,
       parse_route ("/" +:+ rt_owner r1 +:+ "/" +:+ rt_repo r1 +:+ "/" +:+ rest) = Ok (r1, rest)
       /\ parse_route ("/" +:+ rt_owner r1 +:+ "/" +:+ rt_repo r1 +:+ ".git/" +:+ rest) = Ok (r1, rest)).
Proof.
  intros [Ho1 Hr1]%parse_route_segs [Ho2 Hr2]%parse_route_segs. destruct r1 as [o1 x1], r2 as [o2 x2].
  cbn [rt_owner rt_repo] in *. unfold route_name, owner_registry. cbn [rt_owner rt_repo]. split; [|split].
  - split; [|by intros [= -> ->]]. intros E.
    assert (split_once "/" (o1 +:+ "/" +:+ x1) = Some (o1, x1)) as E1 by (apply (split_once_app "/"); by apply seg_no_slash).
    assert (split_once "/" (o2 +:+ "/" +:+ x2) = Some (o2, x2)) as E2 by (apply (split_once_app "/"); by apply seg_no_slash).
    rewrite E, E2 in E1. by injection E1 as -> ->.
  - intros E. apply (f_equal (contains_char "!")) in E. rewrite !contains_app in E.
    rewrite (seg_no_bang o1), (seg_no_bang x1) in E by done. by vm_compute in E.
  - intros Hg rest. unfold parse_route, splitn3. cbn [strip_prefix String.append Ascii.eqb Bool.eqb].
    unfold mbind, result_bind, of_option.
    assert (forall t, split_once "/" (o1 +:+ String "/" t) = Some (o1, t)) as Ha
      by (intros t; apply split_once_app; by apply seg_no_slash).
    assert (split_once "/" (x1 +:+ String "/" rest) = Some (x1, rest)) as Hb by (apply split_once_app; by apply seg_no_slash).
    assert (split_once "/" ((x1 +:+ ".git") +:+ String "/" rest) = Some (x1 +:+ ".git", rest)) as Hc
      by (apply split_once_app; rewrite contains_app, (seg_no_slash x1) by done; done).
    rewrite app_assoc_s in Hc. cbn [String.append] in Hc.
    rewrite !Ha, Hb, Hc, Hg. rewrite (proj2 (strip_suffix_spec ".git" _ x1) eq_refl). cbn [unwrap_or].
    by rewrite Ho1, Hr1.
Qed.

(** ** Constant-time comparison *)

Lemma byte_val_inj a b : byte_val a = byte_val b -> a = b.
Proof. intros E. by rewrite <- (byte_of_val a), <- (byte_of_val b), E. Qed.
Lemma xor_fold_zero a : forall b acc, String.length a = String.length b ->
  xor_fold acc a b = 0 <-> acc = 0 /\ a = b.
Proof.
  induction a as [|x a IH]; intros [|y b] acc Hl; simpl in *; try done; [naive_solver|].
  rewrite IH by lia. rewrite Z.lor_eq_0_iff, Z.lxor_eq_0_iff. split.
  - intros [[-> E] ->]. by apply byte_val_inj in E as ->.
  - by intros [-> [= -> ->]].
Qed.
Lemma ct_eq_spec a b : ct_eq a b = true <-> a = b.
Proof.
  unfold ct_eq, str_len. destruct (Z.eqb_spec (Z.of_nat (String.length a)) (Z.of_nat (String.length b))) as [E|E]; cbn [negb].
  - rewrite Z.eqb_eq, xor_fold_zero by lia. naive_solver.
  - split; [done|]. intros ->. done.
Qed.

(** ** Base64 *)

Definition b64_alphabet : string := "ABCDEFGHIJKLMNOPQRSTUVWXYZabcdefghijklmnopqrstuvwxyz0123456789+/".
Definition b64_char (n : Z) : ascii := unwrap_or "A"%char (String.get (Z.to_nat n) b64_alphabet).
(** RFC 4648 encoding, the reference for the decoder. *)
Fixpoint b64_encode (s : string) : string :=
  match s with
  | EmptyString => ""
  | String x EmptyString =>
      let a := byte_val x in String (b64_char (a / 4)) (String (b64_char (a mod 4 * 16)) "==")
  | String x (String y EmptyString) =>
      let a := byte_val x in let b := byte_val y in
      String (b64_char (a / 4)) (String (b64_char (a mod 4 * 16 + b / 16)) (String (b64_char (b mod 16 * 4)) "="))
  | String x (String y (String z rest)) =>
      let a := byte_val x in let b := byte_val y in let c := byte_val z in
      String (b64_char (a / 4)) (String (b64_char (a mod 4 * 16 + b / 16)) (String (b64_char (b mod 16 * 4 + c / 64))
        (String (b64_char (c mod 64)) (b64_encode rest))))
  end.
Definition b64_char_ok (n : Z) : bool :=
  bool_decide (b64_val (b64_char n) = Some n) && negb (Ascii.eqb (b64_char n) "=") && is_ascii_graphic (b64_char n).
Lemma b64_char_spec n : 0 <= n < 64 -> b64_val (b64_char n) = Some n /\ b64_char n <> "="%char /\ is_ascii_graphic (b64_char n) = true.
Proof.
  intros Hn. assert (forallb (fun i => b64_char_ok (Z.of_nat i)) (seq 0 64) = true) as F by (vm_compute; done).
  rewrite forallb_forall in F. specialize (F (Z.to_nat n)). rewrite Z2Nat.id in F by lia.
  assert (In (Z.to_nat n) (seq 0 64)) as Hin by (apply in_seq; lia). specialize (F Hin). unfold b64_char_ok in F. bsimp.
  split; [done|]. split; [by apply Ascii.eqb_neq|done].
Qed.
Lemma b64_or0_char n : 0 <= n < 64 -> b64_or0 (b64_char n) = n.
Proof. intros Hn. unfold b64_or0. by destruct (b64_char_spec n Hn) as [-> _]. Qed.
Lemma lor_shiftl a n r : 0 <= n -> 0 <= r < 2 ^ n -> Z.lor (Z.shiftl a n) r = a * 2 ^ n + r.
Proof.
  intros Hn Hr. rewrite <- Z.shiftl_mul_pow2 by done. symmetry.
  assert (Z.land (Z.shiftl a n) r = 0) as Hz.
  { apply Z.bits_inj'. intros i Hi. rewrite Z.land_spec, Z.bits_0, Z.shiftl_spec by done.
    destruct (Z.ltb_spec i n); [by rewrite Z.testbit_neg_r by lia|].
    assert (Z.testbit r i = false) as ->; [|by rewrite andb_false_r].
    destruct (Z.eq_dec r 0) as [->|]; [apply Z.bits_0|]. apply Z.bits_above_log2; [lia|].
    apply Z.log2_lt_pow2; [lia|]. eapply Z.lt_le_trans; [apply Hr|]. apply Z.pow_le_mono_r; lia. }
  rewrite Z.add_nocarry_lxor by done. by apply Z.lxor_lor.
Qed.
Lemma byte_of_eq n c : n mod 256 = byte_val c -> byte_of n = c.
Proof. intros E. unfold byte_of. rewrite E. unfold byte_val. rewrite N2Z.id. apply ascii_N_embedding. Qed.
Lemma b64_first x t : 0 <= t < 16 -> b64_1 (byte_val x / 4) (byte_val x mod 4 * 16 + t) = x.
Proof.
  intros Ht. unfold b64_1. pose proof (byte_val_range x). pose proof (Z.mod_pos_bound (byte_val x) 4 ltac:(lia)).
  assert (Z.shiftr (byte_val x mod 4 * 16 + t) 4 = byte_val x mod 4) as ->.
  { rewrite Z.shiftr_div_pow2 by lia. change (2 ^ 4) with 16. rewrite Z.div_add_l by lia. rewrite (Z.div_small t) by lia. lia. }
  rewrite lor_shiftl by (change (2 ^ 2) with 4; lia). apply byte_of_eq. change (2 ^ 2) with 4.
  rewrite Z.mul_comm, <- Z.div_mod by lia. by apply Z.mod_small.
Qed.
Lemma b64_second y h t : 0 <= t < 4 -> b64_2 (h * 16 + byte_val y / 16) (byte_val y mod 16 * 4 + t) = y.
Proof.
  intros Ht. unfold b64_2. pose proof (byte_val_range y). pose proof (Z.mod_pos_bound (byte_val y) 16 ltac:(lia)).
  assert (Z.shiftr (byte_val y mod 16 * 4 + t) 2 = byte_val y mod 16) as ->.
  { rewrite Z.shiftr_div_pow2 by lia. change (2 ^ 2) with 4. rewrite Z.div_add_l by lia. rewrite (Z.div_small t) by lia. lia. }
  rewrite lor_shiftl by (change (2 ^ 4) with 16; lia). apply byte_of_eq. change (2 ^ 4) with 16.
  replace ((h * 16 + byte_val y / 16) * 16 + byte_val y mod 16) with (byte_val y + h * 256)
    by (pose proof (Z.div_mod (byte_val y) 16 ltac:(lia)); lia).
  rewrite Z.mod_add by lia. by apply Z.mod_small.
Qed.
Lemma b64_third z h : b64_3 (h * 4 + byte_val z / 64) (byte_val z mod 64) = z.
Proof.
  unfold b64_3. pose proof (byte_val_range z). pose proof (Z.mod_pos_bound (byte_val z) 64 ltac:(lia)).
  rewrite lor_shiftl by (change (2 ^ 6) with 64; lia). apply byte_of_eq. change (2 ^ 6) with 64.
  replace ((h * 4 + byte_val z / 64) * 64 + byte_val z mod 64) with (byte_val z + h * 256)
    by (pose proof (Z.div_mod (byte_val z) 64 ltac:(lia)); lia).
  rewrite Z.mod_add by lia. by apply Z.mod_small.
Qed.
Lemma triples_ind (P : string -> Prop) : P "" -> (forall x, P (String x "")) -> (forall x y, P (String x (String y ""))) ->
  (forall x y z s, P s -> P (String x (String y (String z s)))) -> forall s, P s.
Proof.
  intros H0 H1 H2 H3. fix IH 1. intros [|x [|y [|z s]]]; [exact H0|apply H1|apply H2|]. apply H3, IH.
Qed.
(** The encoding without its padding. *)
Fixpoint b64_body (s : string) : string :=
  match s with
  | EmptyString => ""
  | String x EmptyString =>
      let a := byte_val x in String (b64_char (a / 4)) (String (b64_char (a mod 4 * 16)) "")
  | String x (String y EmptyString) =>
      let a := byte_val x in let b := byte_val y in
      String (b64_char (a / 4)) (String (b64_char (a mod 4 * 16 + b / 16)) (String (b64_char (b mod 16 * 4)) ""))
  | String x (String y (String z rest)) =>
      let a := byte_val x in let b := byte_val y in let c := byte_val z in
      String (b64_char (a / 4)) (String (b64_char (a mod 4 * 16 + b / 16)) (String (b64_char (b mod 16 * 4 + c / 64))
        (String (b64_char (c mod 64)) (b64_body rest))))
  end.
Lemma sextets x y : let a := byte_val x in let b := byte_val y in
  0 <= a / 4 < 64 /\ 0 <= a mod 4 * 16 < 64 /\ 0 <= a mod 4 * 16 + b / 16 < 64 /\ 0 <= a mod 16 * 4 < 64
  /\ 0 <= a mod 16 * 4 + b / 64 < 64 /\ 0 <= a mod 64 < 64.
Proof.
  cbv zeta. pose proof (byte_val_range x). pose proof (byte_val_range y).
  assert (forall v n m, 0 <= v < 256 -> 0 < n -> m = 256 / n -> 256 = n * m -> 0 <= v / n < m) as Hd.
  { intros v n m Hv Hn _ E. split; [apply Z.div_pos; lia|apply Z.div_lt_upper_bound; lia]. }
  pose proof (Hd (byte_val x) 4 64 ltac:(lia) ltac:(lia) eq_refl eq_refl).
  pose proof (Hd (byte_val y) 16 16 ltac:(lia) ltac:(lia) eq_refl eq_refl).
  pose proof (Hd (byte_val y) 64 4 ltac:(lia) ltac:(lia) eq_refl eq_refl).
  pose proof (Z.mod_pos_bound (byte_val x) 4 ltac:(lia)). pose proof (Z.mod_pos_bound (byte_val x) 16 ltac:(lia)).
  pose proof (Z.mod_pos_bound (byte_val x) 64 ltac:(lia)). lia.
Qed.
Definition b64_text (c : ascii) : bool := is_ascii_graphic c && negb (Ascii.eqb c "=").
Lemma b64_char_text n : 0 <= n < 64 -> b64_text (b64_char n) = true.
Proof.
  intros Hn. destruct (b64_char_spec n Hn) as (_ & He & Hg). unfold b64_text. rewrite Hg. by apply Ascii.eqb_neq in He as ->.
Qed.
Lemma b64_encode_body s : str_all b64_text (b64_body s) = true
  /\ exists p, b64_encode s = b64_body s +:+ p /\ str_all (Ascii.eqb "=") p = true.
Proof.
  induction s as [|x|x y|x y z s [IHb (p & IHe & IHp)]] using triples_ind.
  - split; [done|]. by exists "".
  - destruct (sextets x x) as (? & ? & _). split; [cbn [b64_body str_all]; by rewrite !b64_char_text|]. by exists "==".
  - destruct (sextets x y) as (? & _ & ? & _). destruct (sextets y y) as (_ & _ & _ & ? & _).
    split; [cbn [b64_body str_all]; by rewrite !b64_char_text|]. by exists "=".
  - destruct (sextets x y) as (? & _ & ? & _). destruct (sextets y z) as (_ & _ & _ & _ & ? & _).
    destruct (sextets z z) as (_ & _ & _ & _ & _ & ?).
    split; [cbn [b64_body str_all]; by rewrite !b64_char_text, IHb|]. exists p. cbn [b64_encode b64_body String.append].
    by rewrite IHe.
Qed.
Lemma b64_groups_body s : b64_groups (b64_body s) = Some s.
Proof.
  induction s as [|x|x y|x y z s IH] using triples_ind.
  - done.
  - destruct (sextets x x) as (H1 & H2 & _). cbn [b64_body b64_groups]. rewrite (proj1 (b64_char_spec _ H1)), b64_or0_char by done.
    do 2 f_equal. rewrite <- (Z.add_0_r (_ * 16)). by apply b64_first.
  - destruct (sextets x y) as (H1 & _ & H2 & _). destruct (sextets y y) as (_ & _ & _ & H3 & _).
    cbn [b64_body b64_groups]. rewrite (proj1 (b64_char_spec _ H1)), !b64_or0_char by done.
    rewrite b64_first, <- (Z.add_0_r (byte_val y mod 16 * 4)), b64_second; [done|lia|].
    pose proof (byte_val_range y). split; [apply Z.div_pos; lia|apply Z.div_lt_upper_bound; lia].
  - destruct (sextets x y) as (H1 & _ & H2 & _). destruct (sextets y z) as (_ & _ & _ & _ & H3 & _).
    destruct (sextets z z) as (_ & _ & _ & _ & _ & H4). cbn [b64_body b64_groups].
    rewrite (proj1 (b64_char_spec _ H1)), !b64_or0_char, IH by done. pose proof (byte_val_range y). pose proof (byte_val_range z).
    rewrite b64_first, b64_second, b64_third; [done|..]; (split; [apply Z.div_pos; lia|apply Z.div_lt_upper_bound; lia]).
Qed.
Lemma str_all_rev f s : str_all f (String.rev s) = str_all f s.
Proof. induction s as [|c s IH]; [done|]. rewrite rev_cons_s, str_all_app, IH. simpl. by rewrite andb_true_r, andb_comm. Qed.
Lemma trim_end_eq_app b p : str_all b64_text b = true -> str_all (Ascii.eqb "=") p = true -> trim_end_eq (b +:+ p) = b.
Proof.
  intros Hb Hp. unfold trim_end_eq. rewrite rev_app_distr_s. rewrite <- (str_all_rev _ p) in Hp. rewrite <- (str_all_rev _ b) in Hb.
  rewrite <- (rev_involutive_s b) at 2. f_equal. induction (String.rev p) as [|c q IH]; cbn [String.append].
  - destruct (String.rev b) as [|c s]; [done|]. cbn [str_all trim_eq_rev] in *. apply andb_true_iff in Hb as [Hc _].
    unfold b64_text in Hc. apply andb_true_iff in Hc as [_ Hc]. apply negb_true_iff in Hc. by rewrite Hc.
  - cbn [str_all trim_eq_rev] in *. apply andb_true_iff in Hp as [Hc Hq]. rewrite Ascii.eqb_sym in Hc. rewrite Hc. by apply IH.
Qed.
Lemma b64_roundtrip s : b64_decode (b64_encode s) = Some s.
Proof.
  destruct (b64_encode_body s) as [Hb (p & -> & Hp)]. unfold b64_decode. rewrite trim_end_eq_app by done. apply b64_groups_body.
Qed.

(** ** Trimming text without white space *)

Lemma strip_any_head (ps : list string) c s :
  Forall (fun p => match p with String a _ => is_ascii_graphic a = false | EmptyString => False end) ps ->
  is_ascii_graphic c = true -> strip_any ps (String c s) = None.
Proof.
  intros Hp Hc. unfold strip_any. induction Hp as [|p ps Hp _ IH]; [done|]. simpl. destruct p as [|a p]; [done|].
  simpl. destruct (Ascii.eqb_spec a c) as [->|]; [congruence|exact IH].
Qed.
Lemma trim_with_graphic ps s :
  Forall (fun p => match p with String a _ => is_ascii_graphic a = false | EmptyString => False end) ps ->
  str_all is_ascii_graphic s = true -> trim_with ps s = s.
Proof.
  intros Hp Hs. unfold trim_with. destruct s as [|c s]; [done|]. simpl in Hs. apply andb_true_iff in Hs as [Hc _].
  cbn [String.length trim_start_fuel]. by rewrite strip_any_head.
Qed.
Lemma trim_graphic s : str_all is_ascii_graphic s = true -> trim s = s.
Proof.
  intros Hs. assert (trim_start s = s) as Hst.
  { apply trim_with_graphic; [|done]. apply Forall_forall. intros p Hp.
    assert (forallb (fun p => match p with String a _ => negb (is_ascii_graphic a) | EmptyString => false end) white_space = true) as F
      by (vm_compute; done).
    rewrite forallb_forall in F. apply list_elem_of_In in Hp. specialize (F p Hp). destruct p; [done|]. by apply negb_true_iff. }
  unfold trim. rewrite Hst. unfold trim_end. rewrite trim_with_graphic, rev_involutive_s; [done| |by rewrite str_all_rev].
  apply Forall_forall. intros p Hp.
  assert (forallb (fun p => match p with String a _ => negb (is_ascii_graphic a) | EmptyString => false end) (map String.rev white_space)
    = true) as F by (vm_compute; done).
  rewrite forallb_forall in F. apply list_elem_of_In in Hp. specialize (F p Hp). destruct p; [done|]. by apply negb_true_iff.
Qed.

(** ** What a request presents *)

Lemma graphic_text s : str_all b64_text s = true -> str_all is_ascii_graphic s = true.
Proof. apply str_all_impl. unfold b64_text. intros c Hc. by bsimp. Qed.
Lemma b64_encode_graphic s : str_all is_ascii_graphic (b64_encode s) = true.
Proof.
  destruct (b64_encode_body s) as [Hb (p & -> & Hp)]. rewrite str_all_app, (graphic_text _ Hb). cbn [andb].
  eapply str_all_impl; [|exact Hp]. intros c Hc. by apply Ascii.eqb_eq in Hc as <-.
Qed.

(** What git sends is what the server reads: the Basic header of a user and a
    token, base64 over RFC 4648, yields that token and that user as the principal
    ("basic" when it names none); and a Bearer header yields its token. *)
Theorem presented_credentials (user token : string) :
  contains_char ":" user = false -> token <> "" -> lossy (user +:+ ":" +:+ token) = user +:+ ":" +:+ token ->
  credentials (Ok (Some ("Basic " +:+ b64_encode (user +:+ ":" +:+ token))))
    = Ok (token, if str_empty user then "basic" else user)
  /\ (str_all is_ascii_graphic token = true -> credentials (Ok (Some ("Bearer " +:+ token))) = Ok (token, "bearer")).
Proof.
  intros Hu Ht Hl. assert (str_empty token = false) as Hne by (by apply String.eqb_neq). split.
  - unfold credentials. unfold mbind, result_bind.
    assert (scheme ("Basic " +:+ b64_encode (user +:+ ":" +:+ token)) "Bearer" = None) as -> by done.
    assert (scheme ("Basic " +:+ b64_encode (user +:+ ":" +:+ token)) "Basic" = Some (b64_encode (user +:+ ":" +:+ token))) as -> by done.
    rewrite trim_graphic by apply b64_encode_graphic. rewrite b64_roundtrip. cbn [of_option]. rewrite Hl.
    assert (split_once ":" (user +:+ ":" +:+ token) = Some (user, token)) as -> by (by apply (split_once_app ":")).
    cbn [fst]. by rewrite Hne.
  - intros Hg. unfold credentials. unfold mbind, result_bind.
    assert (scheme ("Bearer " +:+ token) "Bearer" = Some token) as -> by done. rewrite trim_graphic by done. cbn [fst]. by rewrite Hne.
Qed.

(** ** Who is let in *)

Section Sound.
Context `{Platform}.

Lemma secret_is_spec name token : secret_is name token = true <-> env_secret name = Some token.
Proof.
  unfold secret_is. destruct (env_secret name) as [w|]; [|done]. rewrite ct_eq_spec. naive_solver.
Qed.

(** C28: A request is let in only on a credential that holds: the deployment's write
    secret; the read secret on a read route; a live token of this repository,
    whose level covers the route, in which case the principal is the token's own
    name; or, on a read route and with no usable credential, the repository's
    public flag.  So a missing or empty secret, an expired or revoked token, and a
    token of another repository admit nobody. *)
Theorem authenticate_sound (hdr : result string (option string)) (need : Level) (now : Z) (d : Db) (who : string) :
  authenticate hdr need (stub_auth now d) (stub_public d) = Ok who ->
  (exists token principal, credentials hdr = Ok (token, principal) /\ token <> ""
     /\ ((env_secret "GE_WRITE_TOKEN" = Some token /\ who = principal)
         \/ (need = LRead /\ env_secret "GE_READ_TOKEN" = Some token /\ who = principal)
         \/ exists t, live_token d now (token_hash token) = Some t /\ who = tk_name t
              /\ is_repo_token token = true /\ (tk_level t = "write" \/ need = LRead /\ tk_level t = "read")))
  \/ (need = LRead /\ credentials hdr = Err Auth /\ who = "anonymous" /\ is_Some (t_meta d !! "public")).
Proof.
  unfold authenticate. destruct (credentials hdr) as [[token principal]|e] eqn:Ec.
  - intros Ha. left. exists token, principal. split; [done|].
    assert (token <> "") as Hne.
    { intros ->. revert Ec. unfold credentials. unfold mbind, result_bind. repeat (case_match; try done); by intros [= ->]. }
    split; [done|]. destruct (secret_is "GE_WRITE_TOKEN" token) eqn:E1; [left; apply secret_is_spec in E1; by injection Ha as ->|].
    destruct (secret_is "GE_READ_TOKEN" token) eqn:E2.
    { right. left. apply secret_is_spec in E2. destruct need; [by injection Ha as ->|done]. }
    destruct (is_repo_token token) eqn:E3; [|done]. cbn [negb] in Ha. right. right.
    unfold stub_auth, auth_lookup in Ha. cbn [snd] in Ha. destruct (live_token d now (token_hash token)) as [t|]; [|done].
    cbn [ar_level ar_name au_level au_name] in Ha. exists t. split; [done|].
    destruct (String.eqb_spec (tk_level t) "write") as [Hw|_]; [injection Ha as ->; by auto|].
    destruct need; [|done]. destruct (String.eqb_spec (tk_level t) "read") as [Hr|]; [|done]. injection Ha as ->. by auto.
  - intros Ha. right. destruct e; try (by destruct need). destruct need; [|done]. split; [done|]. split; [done|].
    revert Ha. unfold anonymous, stub_public, set_public, gets. unfold mbind, M_bind, result_bind, mret, M_ret. cbn [snd].
    destruct (t_meta d !! "public") as [v|]; cbn [is_some]; [|done]. intros [= <-]. split; [done|eauto].
Qed.

(** From mint to use: the write token an administrator mints is let in on every
    route under its own name until it expires, and the read token on read routes
    only; after expiry neither is. *)
Theorem minted_token_authenticates (now now2 : Z) (r1 r2 r3 : string) (b : NewToken) (d d' : Db) (t : TokenResp) :
  token_create now r1 r2 r3 b d = (d', Ok t) -> fresh_hash d (token_hash (tr_token t)) ->
  is_repo_token (tr_token t) = true ->
  env_secret "GE_WRITE_TOKEN" <> Some (tr_token t) -> env_secret "GE_READ_TOKEN" <> Some (tr_token t) ->
  let ask need := authenticate (Ok (Some ("Bearer " +:+ tr_token t))) need (stub_auth now2 d') (stub_public d') in
  (token_live (tr_expires t) now2 = true ->
     ask LRead = Ok (tr_name t) /\ ask LWrite = if String.eqb (tr_level t) "write" then Ok (tr_name t) else Err Forbidden)
  /\ (token_live (tr_expires t) now2 = false -> ask LRead = Err Auth /\ ask LWrite = Err Auth).
Proof.
  intros Hc Hf Ht Hw Hr ask. assert (credentials (Ok (Some ("Bearer " +:+ tr_token t))) = Ok (tr_token t, "bearer")) as Hcred.
  { unfold is_repo_token in Ht. bsimp. apply starts_with_spec in H2 as [x Hx]. rewrite Hx in H1 |- *. cbn [str_drop String.append] in H1.
    unfold credentials. unfold mbind, result_bind.
    assert (scheme ("Bearer " +:+ "ge_" +:+ x) "Bearer" = Some ("ge_" +:+ x)) as -> by done. rewrite trim_graphic; [done|].
    rewrite str_all_app. cbn [andb str_all]. eapply str_all_impl; [|exact H1]. intros c Hc'. bsimp.
    unfold is_hexdigit, is_digit, is_ascii_graphic in *. destruct (Z.leb_spec 33 (byte_val c)), (Z.leb_spec (byte_val c) 126); try done;
      repeat match goal with H : context [?a <=? ?b] |- _ => destruct (Z.leb_spec a b) end; simpl in *; done || lia. }
  assert (tr_level t = "read" \/ tr_level t = "write") as Hlev.
  { revert Hc. unfold token_create. destruct (String.eqb_spec (nt_level b) "read") as [El|_];
      [|destruct (String.eqb_spec (nt_level b) "write") as [El|_]]; cbn [orb negb]; try done;
      (destruct (_ || _); [done|]); unfold lift, gets, modify; unfold mbind, M_bind; cbv beta iota;
      repeat (case_match; try done); intros [= _ <-]; cbn [tr_level]; auto. }
  assert (forall need, ask need = match stub_auth now2 d' (token_hash (tr_token t)) with
    | Ok r => if String.eqb (ar_level r) "write" then Ok (ar_name r)
              else match need with LRead => if String.eqb (ar_level r) "read" then Ok (ar_name r) else Err Forbidden
                   | LWrite => Err Forbidden end
    | Err (Auth | NotFound) => Err Auth | Err e => Err e end) as Hask.
  { intros need. unfold ask, authenticate. rewrite Hcred.
    assert (secret_is "GE_WRITE_TOKEN" (tr_token t) = false) as -> by (apply not_true_iff_false; by rewrite secret_is_spec).
    assert (secret_is "GE_READ_TOKEN" (tr_token t) = false) as -> by (apply not_true_iff_false; by rewrite secret_is_spec).
    by rewrite Ht. }
  assert (Hm := minted_lookup now now2 r1 r2 r3 b d d' t Hc Hf).
  split; intros Hl; rewrite !Hask; unfold stub_auth; rewrite Hm, Hl; cbn [ar_level ar_name au_level au_name edge_view fatal]; [|done].
  destruct Hlev as [-> | ->]; done.
Qed.
End Sound.

(** A request that presents an unusable credential (an unknown scheme, undecodable
    base64, an empty token) is treated like one that presents none: on a public
    repository it reads anonymously instead of getting the challenge. *)
Theorem unusable_credential_is_anonymous :
  let public := on_meta (insert "public" "1") empty_db in
  let ask hdr := @authenticate demo_platform (Ok (Some hdr)) LRead (stub_auth 0 public) (stub_public public) in
  ask "Digest username=x" = Ok "anonymous" /\ ask "Basic *" = Ok "anonymous" /\ ask "Bearer " = Ok "anonymous"
  /\ ask "Bearer wrong" = Err Auth.
Proof. vm_compute. auto. Qed.
(** The base64 decoder rejects a foreign byte only in the first place of a group;
    elsewhere it reads it as a zero. *)
Theorem b64_reads_foreign_bytes : b64_decode "Y*!~" = b64_decode "YAAA" /\ b64_decode "*AAA" = None.
Proof. vm_compute. auto. Qed.

Lemma route_identifies_witness :
  parse_route "/o/r.git/info/refs" = Ok (mkRoute "o" "r", "info/refs")
  /\ route_name (mkRoute "o" "r") <> owner_registry (mkRoute "o" "r").
Proof.
  split; [reflexivity|].
  apply (route_identifies "/o/r/x" "/o/r.git/y" "x" "y" (mkRoute "o" "r") (mkRoute "o" "r")); reflexivity.
Defined.
Lemma presented_credentials_witness :
  credentials (Ok (Some "Basic Y2k6c2VjcmV0")) = Ok ("secret", "ci").
Proof.
  apply (presented_credentials "ci" "secret"); [reflexivity|discriminate|reflexivity].
Defined.
Module AuthDemo.
#[local] Existing Instance demo_platform.
Definition h1 : string := "aaaaaaaaaaaaaaaaaaaaaaaaaaaaaaaa".
Definition h2 : string := "0123456789abcdef0123456789abcdef".
Definition token : string := "ge_" +:+ h1 +:+ h2.
Definition d : Db := (token_create 1000 h1 h2 "id1" AdminDemo.new empty_db).1.
Definition resp : TokenResp := mkTokenResp "id1" token "write" "ci" "refs/heads/*" (Some 3601000).
End AuthDemo.
Lemma authenticate_sound_witness : exists t,
  live_token AuthDemo.d 2000 ("hash-" +:+ AuthDemo.token) = Some t /\ tk_level t = "write".
Proof.
  destruct (@authenticate_sound demo_platform (Ok (Some ("Bearer " +:+ AuthDemo.token))) LWrite 2000 AuthDemo.d "ci")
    as [(token & p & Hc & _ & [[Hs _]|[[Hn _]|(t & Hl & _ & _ & [Hw|[Hn _]])]])|(Hn & _)].
  - vm_compute. reflexivity.
  - discriminate Hs.
  - discriminate Hn.
  - assert (token = AuthDemo.token) as -> by (vm_compute in Hc; by injection Hc as <- _). exists t. by split.
  - discriminate Hn.
  - discriminate Hn.
Defined.
Lemma minted_token_authenticates_witness :
  @authenticate demo_platform (Ok (Some ("Bearer " +:+ AuthDemo.token))) LWrite (stub_auth 2000 AuthDemo.d) (stub_public AuthDemo.d)
  = Ok "ci".
Proof.
  apply (@minted_token_authenticates demo_platform 1000 2000 AuthDemo.h1 AuthDemo.h2 "id1" AdminDemo.new empty_db AuthDemo.d AuthDemo.resp).
  - vm_compute. reflexivity.
  - intros id x E. discriminate E.
  - vm_compute. reflexivity.
  - discriminate.
  - discriminate.
  - vm_compute. reflexivity.
Defined.
