(* ===== verification/Sign.v ===== *)
(** * Signed URLs and webhooks

    [server/src/sign.rs]: the HMAC-SHA256 capabilities of pack and LFS URLs and
    the signature of push-event deliveries.  The HMAC is a parameter ([Hmac]);
    no secrecy is claimed of it: the theorems say what a signature binds, up to a
    collision of the HMAC under that key. *)
From S2P Require Import Prelude Errors Text Db Auth.
Open Scope Z_scope.

(** [Hmac::new_from_slice] may refuse a key; otherwise [finalize] is the tag and
    [verify_slice] compares with it. *)
Class Hmac : Type := hmac : string -> string -> option string.
Class HmacLaw `{Hmac} : Prop := hmac_size : forall k m t, hmac k m = Some t -> String.length t = 32%nat.

Section Sign.
Context `{Hmac}.

Definition msg (repo pack : string) (exp : Z) : string :=
  "v1" +:+ nl_s +:+ repo +:+ nl_s +:+ pack +:+ nl_s +:+ z_to_string exp.
Definition lmsg (repo oid : string) (exp : Z) (op : string) : string :=
  "v1" +:+ nl_s +:+ "lfs" +:+ nl_s +:+ repo +:+ nl_s +:+ oid +:+ nl_s +:+ z_to_string exp +:+ nl_s +:+ op.
Definition emsg (ts : Z) (delivery body : string) : string :=
  "v1" +:+ nl_s +:+ z_to_string ts +:+ nl_s +:+ delivery +:+ nl_s +:+ body.
Definition mac (key m : string) : result Error string := of_option (Internal "bad signing key") (hmac key m).
Definition tag_ok (key m sig : string) : bool :=
  match mac key m with Ok t => String.eqb t sig | Err _ => false end.
(** The decoding the three checks share: 64 characters, pairs of hex digits. *)
Definition sig_ok (key m sig : string) : bool :=
  if negb (str_len sig =? 64) then false
  else match unhex sig with Some s => tag_ok key m s | None => false end.

Definition pack_sig (key repo pack : string) (exp : Z) : result Error string :=
  t ← mac key (msg repo pack exp); Ok (hex_bytes t).
Definition pack_sig_ok (key repo pack : string) (exp : Z) (sig : string) : bool := sig_ok key (msg repo pack exp) sig.
Definition lfs_sig (key repo oid : string) (exp : Z) (op : string) : result Error string :=
  t ← mac key (lmsg repo oid exp op); Ok (hex_bytes t).
Definition lfs_sig_ok (key repo oid : string) (exp : Z) (op sig : string) : bool := sig_ok key (lmsg repo oid exp op) sig.
Definition event_sig (key : string) (ts : Z) (delivery body : string) : result Error string :=
  if contains_char nl delivery then Err (Internal "delivery id contains a newline")
  else t ← mac key (emsg ts delivery body); Ok (hex_bytes t).
Definition event_sig_ok (key : string) (ts : Z) (delivery body sig : string) : bool :=
  if negb (str_len sig =? 64) || contains_char nl delivery then false
  else match unhex sig with Some s => tag_ok key (emsg ts delivery body) s | None => false end.
Definition signing_key `{Platform} : option string :=
  match env_var "GE_URL_SIGNING_KEY" with
  | Some k => if 32 <=? str_len k then Some k else None
  | None => None
  end.

(** ** What a signature grants *)

Inductive Grant : Type :=
| GPack (repo pack : string) (exp : Z)
| GLfs (repo oid : string) (exp : Z) (op : string).
Definition grant_sig (key : string) (g : Grant) : result Error string :=
  match g with GPack r p e => pack_sig key r p e | GLfs r o e op => lfs_sig key r o e op end.
Definition grant_check (key : string) (g : Grant) (sig : string) : bool :=
  match g with GPack r p e => pack_sig_ok key r p e sig | GLfs r o e op => lfs_sig_ok key r o e op sig end.
Definition one_line (s : string) : Prop := contains_char nl s = false.
Definition grant_wf (g : Grant) : Prop :=
  match g with GPack r p _ => one_line r /\ one_line p | GLfs r o _ op => one_line r /\ one_line o /\ one_line op end.
Definition grant_msg (g : Grant) : string :=
  match g with GPack r p e => msg r p e | GLfs r o e op => lmsg r o e op end.
(** Two messages with one tag. *)
Definition collision (key : string) : Prop := exists m m' t, m <> m' /\ hmac key m = Some t /\ hmac key m' = Some t.

Lemma z_one_line z : one_line (z_to_string z).
Proof.
  apply str_any_false. eapply str_all_impl; [|apply z_to_string_chars]. intros c. destruct (Ascii.eqb_spec nl c) as [<-|]; done.
Qed.
Lemma split_nl a b : one_line a -> split_on nl (a +:+ nl_s +:+ b) = a :: split_on nl b.
Proof. apply split_on_app. Qed.
Definition grant_fields (g : Grant) : list string :=
  match g with GPack r p e => ["v1"; r; p; z_to_string e] | GLfs r o e op => ["v1"; "lfs"; r; o; z_to_string e; op] end.
Lemma grant_split g : grant_wf g -> split_on nl (grant_msg g) = grant_fields g.
Proof.
  destruct g as [r p e|r o e op]; cbn [grant_wf grant_msg grant_fields]; unfold msg, lmsg.
  - intros [Hr Hp]. rewrite !split_nl by done. by rewrite (split_on_none nl) by apply z_one_line.
  - intros (Hr & Ho & Hop). rewrite !split_nl by (done || apply z_one_line). by rewrite (split_on_none nl).
Qed.
Lemma grant_inj g g' : grant_wf g -> grant_wf g' -> grant_msg g = grant_msg g' -> g = g'.
Proof.
  intros Hg Hg' E. apply (f_equal (split_on nl)) in E. rewrite !grant_split in E by done.
  destruct g, g'; simpl in E; simplify_eq; match goal with H : z_to_string _ = z_to_string _ |- _ => apply z_to_string_inj in H as -> end; done.
Qed.
Lemma tag_ok_spec key m s : tag_ok key m s = true <-> hmac key m = Some s.
Proof. unfold tag_ok, mac. destruct (hmac key m); simpl; [|done]. rewrite String.eqb_eq. naive_solver. Qed.
Lemma sig_ok_spec key m sig : sig_ok key m sig = true <-> str_len sig = 64 /\ exists t, unhex sig = Some t /\ hmac key m = Some t.
Proof.
  unfold sig_ok. destruct (Z.eqb_spec (str_len sig) 64); simpl; [|naive_solver].
  destruct (unhex sig) as [s|]; [|naive_solver]. rewrite tag_ok_spec. naive_solver.
Qed.
Lemma grant_check_msg key g sig : grant_check key g sig = sig_ok key (grant_msg g) sig.
Proof. by destruct g. Qed.
Context `{!HmacLaw}.
Lemma sig_minted key m t : mac key m = Ok t -> sig_ok key m (hex_bytes t) = true.
Proof.
  unfold mac. destruct (hmac key m) as [t'|] eqn:E; [|done]. intros [= ->]. apply sig_ok_spec. split.
  - unfold str_len. rewrite hex_bytes_length, (hmac_size _ _ _ E). done.
  - exists t. by rewrite unhex_hex.
Qed.

(** A signed URL is accepted for the very repository, object, expiry, domain and
    direction it was minted for, and a signature accepted for two different ones
    exhibits two messages with one HMAC tag: a pack signature opens no LFS object,
    a get no put, and no expiry can be moved. *)
Theorem grants_bind (key sig : string) (g : Grant) :
  (grant_sig key g = Ok sig -> grant_check key g sig = true)
  /\ forall g', grant_wf g -> grant_wf g' -> grant_check key g sig = true -> grant_check key g' sig = true ->
     g = g' \/ collision key.
Proof.
  split.
  - rewrite grant_check_msg. unfold grant_sig, pack_sig, lfs_sig. destruct g; cbn [grant_msg]; unfold mbind, result_bind;
      (destruct (mac key _) as [t|] eqn:E; [|done]); intros [= <-]; by apply sig_minted.
  - intros g' Hg Hg'. rewrite !grant_check_msg, !sig_ok_spec. intros (_ & t & Hu & Ht) (_ & t' & Hu' & Ht').
    assert (t' = t) as -> by congruence. destruct (decide (grant_msg g = grant_msg g')) as [E|E].
    + left. by apply grant_inj.
    + right. by exists (grant_msg g), (grant_msg g'), t.
Qed.
Lemma emsg_inj ts del body ts' del' body' : one_line del -> one_line del' ->
  emsg ts del body = emsg ts' del' body' -> ts = ts' /\ del = del' /\ body = body'.
Proof.
  intros Hd Hd' E. assert (z_to_string ts +:+ nl_s +:+ del +:+ nl_s +:+ body = z_to_string ts' +:+ nl_s +:+ del' +:+ nl_s +:+ body') as E0
    by (apply (app_inj_l ("v1" +:+ nl_s)); exact E). clear E. rename E0 into E.
  assert (forall a b, one_line a -> split_once nl (a +:+ nl_s +:+ b) = Some (a, b)) as Hs by (intros a b; apply split_once_app).
  assert (Some (z_to_string ts, del +:+ nl_s +:+ body) = Some (z_to_string ts', del' +:+ nl_s +:+ body')) as E1.
  { rewrite <- (Hs (z_to_string ts)), <- (Hs (z_to_string ts')) by apply z_one_line. by rewrite E. }
  apply Some_inj, pair_equal_spec in E1 as [Hz E1]. apply z_to_string_inj in Hz as ->.
  assert (Some (del, body) = Some (del', body')) as E2 by (rewrite <- !Hs by done; by rewrite E1). by injection E2 as -> ->.
Qed.

(** A webhook signature is accepted by the receiver's check and binds the
    timestamp, the delivery id and every byte of the body; an id with a newline is
    never signed nor accepted, so no field can run into the next. *)
Theorem event_sig_binds (key sig : string) (ts ts' : Z) (delivery delivery' body body' : string) :
  event_sig key ts delivery body = Ok sig ->
  event_sig_ok key ts delivery body sig = true
  /\ (event_sig_ok key ts' delivery' body' sig = true ->
      (ts' = ts /\ delivery' = delivery /\ body' = body) \/ collision key).
Proof.
  unfold event_sig. destruct (contains_char nl delivery) eqn:Hd; [done|]. unfold mbind, result_bind.
  destruct (mac key (emsg ts delivery body)) as [t|] eqn:E; [|done]. intros [= <-].
  assert (forall ts delivery body, contains_char nl delivery = false ->
    event_sig_ok key ts delivery body (hex_bytes t) = sig_ok key (emsg ts delivery body) (hex_bytes t)) as Hc.
  { intros ts0 d0 b0 Hn. unfold event_sig_ok, sig_ok. by rewrite Hn, orb_false_r. }
  pose proof (sig_minted _ _ _ E) as Hm. split; [by rewrite Hc|]. intros Hok.
  destruct (contains_char nl delivery') eqn:Hd'; [unfold event_sig_ok in Hok; by rewrite Hd', orb_true_r in Hok|].
  rewrite Hc in Hok by done. apply sig_ok_spec in Hm as (_ & x & Hx & Hm). apply sig_ok_spec in Hok as (_ & y & Hy & Hok).
  assert (y = x) as -> by congruence.
  destruct (decide (emsg ts' delivery' body' = emsg ts delivery body)) as [Ee|Ee].
  - left. by apply emsg_inj in Ee.
  - right. by exists (emsg ts' delivery' body'), (emsg ts delivery body), x.
Qed.
End Sign.

(** ** A concrete HMAC *)

(** A toy tag of 32 bytes, enough to run the checks. *)
Definition demo_tag (k m : string) : string := str_take 32 (k +:+ m +:+ bytes (replicate 32 48%nat)).
Definition demo_hmac : Hmac := fun k m => Some (demo_tag k m).
Lemma str_take_exact n s : (n <= String.length s)%nat -> String.length (str_take n s) = n.
Proof. revert s; induction n as [|n IH]; intros [|c s] Hl; simpl in *; try done; [lia|]. rewrite IH; lia. Qed.
Lemma demo_hmac_law : @HmacLaw demo_hmac.
Proof.
  intros k m t Ht. apply Some_inj in Ht as <-. unfold demo_tag. apply str_take_exact. rewrite !length_app_s.
  change (String.length (bytes (replicate 32 48%nat))) with 32%nat. lia.
Qed.
Definition demo_key : string := "0123".
Lemma grants_bind_witness :
  @grant_check demo_hmac demo_key (GPack "rid" "pid" 123) (hex_bytes (demo_tag demo_key (msg "rid" "pid" 123))) = true.
Proof.
  apply (proj1 (@grants_bind demo_hmac demo_hmac_law demo_key
    (hex_bytes (demo_tag demo_key (msg "rid" "pid" 123))) (GPack "rid" "pid" 123))).
  reflexivity.
Defined.
Lemma event_sig_binds_witness :
  @event_sig_ok demo_hmac demo_key 1700 "r:1" "{}" (hex_bytes (demo_tag demo_key (emsg 1700 "r:1" "{}"))) = true.
Proof.
  apply (proj1 (@event_sig_binds demo_hmac demo_hmac_law demo_key
    (hex_bytes (demo_tag demo_key (emsg 1700 "r:1" "{}"))) 1700 1700 "r:1" "r:1" "{}" "{}" eq_refl)).
Defined.
