(* ===== verification/Sha.v ===== *)
(** * Resumable pack hashes

    [CkptSha1], [CkptSha256], [CkptHash] and [WriterCkpt] of
    [server/src/store/mod.rs]: hash states that can be written into a checkpoint
    and resumed in a later slice.  A byte or a u32 is a [Z] in range, an array a
    list.  The two structs have the same streaming code around different block
    functions, so the streaming operations are defined once over the block
    function, as a section variable, and instantiated twice.

    The theorems: streaming in any pieces, with any checkpoints between them,
    computes the padded one-shot hash of FIPS 180-4, and the block functions give
    the published digests. *)
From S2P Require Import Prelude Errors Db.
Open Scope Z_scope.

(** ** u32 arithmetic *)

Definition wrap32 (x : Z) : Z := x mod 2 ^ 32.
Definition wadd (a b : Z) : Z := wrap32 (a + b).
Definition not32 (x : Z) : Z := Z.lxor x u32_max.
Definition rotl (x n : Z) : Z := Z.lor (wrap32 (Z.shiftl x n)) (Z.shiftr x (32 - n)).
Definition rotr (x n : Z) : Z := rotl x (32 - n).
Definition at_ (l : list Z) (i : nat) : Z := nth i l 0.
(** [to_be_bytes] and [from_be_bytes] of an [n]-byte integer. *)
Fixpoint be_bytes (n : nat) (x : Z) : list Z :=
  match n with
  | O => []
  | S n' => be_bytes n' (x / 256) ++ [x mod 256]
  end.
Definition from_be_bytes (l : list Z) : Z := fold_left (fun a b => 256 * a + b) l 0.
(** [b.chunks_exact(4)] as u32 words. *)
Fixpoint be_words (b : list Z) : list Z :=
  match b with
  | b0 :: b1 :: b2 :: b3 :: b' => from_be_bytes [b0; b1; b2; b3] :: be_words b'
  | _ => []
  end.

(** ** Streaming, around a block function *)

Record Ckpt : Type := mkCkpt { ck_h : list Z; ck_len : Z; ck_buf : list Z }.

Section Stream.
Variable block : list Z -> list Z -> list Z.

(** The loop eats at least one byte per turn while the buffer is short of a
    block, so the input's length is enough fuel. *)
Fixpoint update_loop (fuel : nat) (s : Ckpt) (d : list Z) : Ckpt :=
  match fuel with
  | O => s
  | S f =>
      match d with
      | [] => s
      | _ :: _ =>
          let n := Nat.min (64 - length (ck_buf s)) (length d) in
          let buf := ck_buf s ++ take n d in
          update_loop f
            (if (length buf =? 64)%nat then mkCkpt (block (ck_h s) buf) (ck_len s) []
             else mkCkpt (ck_h s) (ck_len s) buf)
            (drop n d)
      end
  end.
Definition update (s : Ckpt) (d : list Z) : Ckpt :=
  update_loop (length d)
    (mkCkpt (ck_h s) ((ck_len s + Z.of_nat (length d)) mod 2 ^ 64) (ck_buf s)) d.
(** [while self.buf.len() != 56 { self.update(&[0]) }]. *)
Fixpoint pad_loop (fuel : nat) (s : Ckpt) : Ckpt :=
  match fuel with
  | O => s
  | S f => if (length (ck_buf s) =? 56)%nat then s else pad_loop f (update s [0])
  end.
Definition fin (s : Ckpt) : list Z :=
  let bits := (ck_len s * 8) mod 2 ^ 64 in
  flat_map (be_bytes 4) (ck_h (update (pad_loop 64 (update s [128])) (be_bytes 8 bits))).

(** The one-shot reference (FIPS 180-4, 5.1.1 and 6): pad to whole blocks, fold
    the block function over them. *)
Fixpoint blocks (n : nat) (d : list Z) : list (list Z) :=
  match n with O => [] | S n' => take 64 d :: blocks n' (drop 64 d) end.
Definition pad (m : list Z) : list Z :=
  m ++ 128 :: replicate ((119 - length m mod 64) mod 64) 0 ++ be_bytes 8 (8 * Z.of_nat (length m)).
Definition fips (h0 : list Z) (m : list Z) : list Z :=
  flat_map (be_bytes 4) (fold_left block (blocks (length (pad m) / 64) (pad m)) h0).
End Stream.

(** ** SHA-1 *)

Definition sha1_new : Ckpt := mkCkpt [1732584193; 4023233417; 2562383102; 271733878; 3285377520] 0 [].
(** [w] grows from the 16 words of the block to 80. *)
Fixpoint sha1_schedule (n : nat) (w : list Z) : list Z :=
  match n with
  | O => w
  | S n' =>
      let i := length w in
      sha1_schedule n' (w ++ [rotl (Z.lxor (Z.lxor (Z.lxor (at_ w (i - 3)) (at_ w (i - 8))) (at_ w (i - 14))) (at_ w (i - 16))) 1])
  end.
Definition sha1_fk (i : nat) (s : list Z) : Z * Z :=
  let b := at_ s 1 in let c := at_ s 2 in let d := at_ s 3 in
  if (i <? 20)%nat then (Z.lor (Z.land b c) (Z.land (not32 b) d), 1518500249)
  else if (i <? 40)%nat then (Z.lxor (Z.lxor b c) d, 1859775393)
  else if (i <? 60)%nat then (Z.lor (Z.lor (Z.land b c) (Z.land b d)) (Z.land c d), 2400959708)
  else (Z.lxor (Z.lxor b c) d, 3395469782).
Fixpoint sha1_rounds (i : nat) (w : list Z) (s : list Z) : list Z :=
  match w with
  | [] => s
  | wi :: w' =>
      let fk := sha1_fk i s in
      sha1_rounds (S i) w'
        [wadd (wadd (wadd (wadd (rotl (at_ s 0) 5) fk.1) (at_ s 4)) fk.2) wi;
         at_ s 0; rotl (at_ s 1) 30; at_ s 2; at_ s 3]
  end.
Definition sha1_block (h b : list Z) : list Z :=
  zip_with wadd h (sha1_rounds 0 (sha1_schedule 64 (be_words b)) h).
Definition sha1_update : Ckpt -> list Z -> Ckpt := update sha1_block.
Definition sha1_fin : Ckpt -> list Z := fin sha1_block.

(** ** SHA-256 *)

Definition sha256_new : Ckpt :=
  mkCkpt [1779033703; 3144134277; 1013904242; 2773480762; 1359893119; 2600822924; 528734635; 1541459225] 0 [].
Definition sha256_k : list Z :=
  [1116352408; 1899447441; 3049323471; 3921009573; 961987163; 1508970993; 2453635748;
   2870763221; 3624381080; 310598401; 607225278; 1426881987; 1925078388; 2162078206;
   2614888103; 3248222580; 3835390401; 4022224774; 264347078; 604807628; 770255983;
   1249150122; 1555081692; 1996064986; 2554220882; 2821834349; 2952996808; 3210313671;
   3336571891; 3584528711; 113926993; 338241895; 666307205; 773529912; 1294757372;
   1396182291; 1695183700; 1986661051; 2177026350; 2456956037; 2730485921; 2820302411;
   3259730800; 3345764771; 3516065817; 3600352804; 4094571909; 275423344; 430227734;
   506948616; 659060556; 883997877; 958139571; 1322822218; 1537002063; 1747873779;
   1955562222; 2024104815; 2227730452; 2361852424; 2428436474; 2756734187; 3204031479;
   3329325298].
Fixpoint sha256_schedule (n : nat) (w : list Z) : list Z :=
  match n with
  | O => w
  | S n' =>
      let i := length w in
      let x := at_ w (i - 15) in
      let y := at_ w (i - 2) in
      let s0 := Z.lxor (Z.lxor (rotr x 7) (rotr x 18)) (Z.shiftr x 3) in
      let s1 := Z.lxor (Z.lxor (rotr y 17) (rotr y 19)) (Z.shiftr y 10) in
      sha256_schedule n' (w ++ [wadd (wadd (wadd (at_ w (i - 16)) s0) (at_ w (i - 7))) s1])
  end.
Fixpoint sha256_rounds (k w : list Z) (s : list Z) : list Z :=
  match k, w with
  | ki :: k', wi :: w' =>
      let e := at_ s 4 in
      let e1 := Z.lxor (Z.lxor (rotr e 6) (rotr e 11)) (rotr e 25) in
      let ch := Z.lxor (Z.land e (at_ s 5)) (Z.land (not32 e) (at_ s 6)) in
      let t1 := wadd (wadd (wadd (wadd (at_ s 7) e1) ch) ki) wi in
      let a := at_ s 0 in
      let e0 := Z.lxor (Z.lxor (rotr a 2) (rotr a 13)) (rotr a 22) in
      let mj := Z.lxor (Z.lxor (Z.land a (at_ s 1)) (Z.land a (at_ s 2))) (Z.land (at_ s 1) (at_ s 2)) in
      let t2 := wadd e0 mj in
      sha256_rounds k' w'
        [wadd t1 t2; at_ s 0; at_ s 1; at_ s 2; wadd (at_ s 3) t1; at_ s 4; at_ s 5; at_ s 6]
  | _, _ => s
  end.
Definition sha256_block (h b : list Z) : list Z :=
  zip_with wadd h (sha256_rounds sha256_k (sha256_schedule 48 (be_words b)) h).
Definition sha256_update : Ckpt -> list Z -> Ckpt := update sha256_block.
Definition sha256_fin : Ckpt -> list Z := fin sha256_block.

(** ** The hasher a pack writer carries *)

Inductive CkptHash : Type := CSha1 (h : Ckpt) | CSha256 (h : Ckpt).
Definition ckpt_hash_new (kind : HashKind) : CkptHash :=
  match kind with Sha256 => CSha256 sha256_new | Sha1 => CSha1 sha1_new end.
Definition ckpt_hash_update (h : CkptHash) (d : list Z) : CkptHash :=
  match h with CSha1 s => CSha1 (sha1_update s d) | CSha256 s => CSha256 (sha256_update s d) end.
Definition ckpt_hash_fin (h : CkptHash) : list Z :=
  match h with CSha1 s => sha1_fin s | CSha256 s => sha256_fin s end.

Record WriterCkpt : Type := mkWriterCkpt {
  wc_pos : Z; wc_sha : option Ckpt; wc_sha256 : option Ckpt;
  wc_count : Z; wc_expected : Z; wc_commit_lo : Z; wc_commit_hi : Z }.
Definition ckpt_hash (c : WriterCkpt) : result Error CkptHash :=
  match wc_sha256 c with
  | Some h => Ok (CSha256 h)
  | None => match wc_sha c with
            | Some h => Ok (CSha1 h)
            | None => Err (Internal "checkpoint without hash state")
            end
  end.
Definition ckpt_set_hash (c : WriterCkpt) (h : CkptHash) : WriterCkpt :=
  match h with
  | CSha1 s => mkWriterCkpt (wc_pos c) (Some s) None (wc_count c) (wc_expected c) (wc_commit_lo c) (wc_commit_hi c)
  | CSha256 s => mkWriterCkpt (wc_pos c) None (Some s) (wc_count c) (wc_expected c) (wc_commit_lo c) (wc_commit_hi c)
  end.

(** ** Streaming computes the one-shot hash *)

Lemma be_bytes_length n x : length (be_bytes n x) = n.
Proof. revert x; induction n as [|n IH]; intros x; simpl; [done|]. rewrite length_app, IH. simpl. lia. Qed.
Lemma be_bytes_mod n x y : x mod 256 ^ Z.of_nat n = y mod 256 ^ Z.of_nat n -> be_bytes n x = be_bytes n y.
Proof.
  revert x y; induction n as [|n IH]; intros x y H; [done|]. cbn [be_bytes].
  rewrite Nat2Z.inj_succ, Z.pow_succ_r in H by lia.
  assert (0 < 256 ^ Z.of_nat n) by (apply Z.pow_pos_nonneg; lia).
  rewrite !Z.rem_mul_r in H by lia.
  assert (forall a b c d, 0 <= a < 256 -> 0 <= c < 256 -> a + 256 * b = c + 256 * d -> a = c /\ b = d) as Hd by lia.
  apply Hd in H as [H1 H2]; [|apply Z.mod_pos_bound; lia..].
  by rewrite H1, (IH (x / 256) (y / 256) H2).
Qed.

Section StreamFacts.
Variable block : list Z -> list Z -> list Z.
Variable h0 : list Z.

Lemma blocks_app k j pre x : length pre = (64 * k)%nat -> blocks (k + j) (pre ++ x) = blocks k pre ++ blocks j x.
Proof.
  revert pre; induction k as [|k IH]; intros pre Hl.
  - destruct pre; [done|simpl in Hl; lia].
  - change (blocks (S k + j) (pre ++ x)) with (take 64 (pre ++ x) :: blocks (k + j) (drop 64 (pre ++ x))).
    rewrite take_app_le, drop_app_le by lia.
    rewrite IH by (rewrite length_drop; lia). done.
Qed.
(** [s] is the state after the message [m]. *)
Definition absorbed (s : Ckpt) (m : list Z) : Prop :=
  exists k pre, m = pre ++ ck_buf s /\ length pre = (64 * k)%nat /\ (length (ck_buf s) < 64)%nat
  /\ ck_h s = fold_left block (blocks k pre) h0 /\ ck_len s = Z.of_nat (length m) mod 2 ^ 64.

Lemma update_loop_absorbed f s m d l :
  (length d <= f)%nat -> absorbed (mkCkpt (ck_h s) (Z.of_nat (length m) mod 2 ^ 64) (ck_buf s)) m ->
  l = Z.of_nat (length (m ++ d)) mod 2 ^ 64 ->
  absorbed (update_loop block f (mkCkpt (ck_h s) l (ck_buf s)) d) (m ++ d).
Proof.
  revert s m d; induction f as [|f IH]; intros s m d Hf (k & pre & Hm & Hk & Hb & Hh & _) Hl; simpl in Hm, Hb, Hh.
  - destruct d; [|simpl in Hf; lia]. rewrite app_nil_r in *. by exists k, pre.
  - destruct d as [|c d']; [rewrite app_nil_r in *; by exists k, pre|].
    cbn [update_loop ck_buf ck_h ck_len]. set (d := c :: d') in *.
    set (n := Nat.min (64 - length (ck_buf s)) (length d)).
    assert (1 <= n <= length d)%nat as Hn by (unfold n, d; simpl; lia).
    replace (m ++ d) with ((m ++ take n d) ++ drop n d) by (by rewrite <- app_assoc, take_drop).
    assert (length (ck_buf s ++ take n d) = (length (ck_buf s) + n)%nat) as Hlb by (rewrite length_app, length_take; lia).
    destruct (Nat.eqb_spec (length (ck_buf s ++ take n d)) 64) as [E|E].
    + apply (IH (mkCkpt (block (ck_h s) (ck_buf s ++ take n d)) 0 [])).
      * rewrite length_drop. lia.
      * exists (k + 1)%nat, (pre ++ (ck_buf s ++ take n d)). simpl. rewrite app_nil_r, Hm, <- app_assoc.
        split; [done|]. split; [rewrite length_app; lia|]. split; [lia|]. split; [|done].
        rewrite blocks_app, fold_left_app by done. cbn [blocks fold_left].
        rewrite <- Hh, (take_ge (ck_buf s ++ take n d)); [done|lia].
      * by rewrite <- app_assoc, take_drop.
    + apply (IH (mkCkpt (ck_h s) 0 (ck_buf s ++ take n d))).
      * rewrite length_drop. lia.
      * exists k, pre. simpl. rewrite Hm, <- app_assoc. split; [done|]. split; [done|].
        split; [lia|]. split; [done|]. done.
      * by rewrite <- app_assoc, take_drop.
Qed.
Lemma update_absorbed s m d : absorbed s m -> absorbed (update block s d) (m ++ d).
Proof.
  intros H. unfold update. destruct H as (k & pre & Hm & Hk & Hb & Hh & Hl).
  apply update_loop_absorbed; [done|by exists k, pre|].
  by rewrite Hl, length_app, Nat2Z.inj_add, Zplus_mod_idemp_l.
Qed.
Lemma updates_absorbed s m ds : absorbed s m -> absorbed (fold_left (update block) ds s) (m ++ concat ds).
Proof.
  revert s m; induction ds as [|d ds IH]; intros s m H; simpl; [by rewrite app_nil_r|].
  rewrite app_assoc. apply IH. by apply update_absorbed.
Qed.
Lemma new_absorbed : absorbed (mkCkpt h0 0 []) [].
Proof. exists 0%nat, []. simpl. repeat split; try done; lia. Qed.
Lemma absorbed_buf s m : absorbed s m -> length (ck_buf s) = (length m mod 64)%nat.
Proof.
  intros (k & pre & -> & Hk & Hb & _). rewrite length_app, Hk, Nat.mul_comm, Nat.add_comm, Nat.Div0.mod_add.
  by rewrite Nat.mod_small.
Qed.
Lemma pad_loop_absorbed f z s m :
  absorbed s m -> (z <= f)%nat -> ((length m + z) mod 64 = 56)%nat ->
  (forall z', (z' < z)%nat -> ((length m + z') mod 64 <> 56)%nat) ->
  absorbed (pad_loop block f s) (m ++ replicate z 0).
Proof.
  revert f s m; induction z as [|z IH]; intros f s m Hs Hf Hz Hmin.
  - rewrite app_nil_r. destruct f; [done|]. simpl. rewrite (absorbed_buf _ _ Hs).
    rewrite Nat.add_0_r in Hz. by rewrite Hz.
  - destruct f as [|f]; [lia|]. simpl. rewrite (absorbed_buf _ _ Hs).
    specialize (Hmin 0%nat) as H0. rewrite Nat.add_0_r in H0.
    destruct (Nat.eqb_spec (length m mod 64) 56) as [E|_]; [destruct H0; [lia|done]|].
    change (0 :: replicate z 0) with ([0] ++ replicate z 0). rewrite app_assoc. apply IH.
    + by apply update_absorbed.
    + lia.
    + rewrite length_app. simpl. by replace (length m + 1 + z)%nat with (length m + S z)%nat by lia.
    + intros z' Hz'. rewrite length_app. simpl. replace (length m + 1 + z')%nat with (length m + S z')%nat by lia.
      apply Hmin. lia.
Qed.
Lemma pad_zeros l : let z := ((119 - l mod 64) mod 64)%nat in
  ((l + 1 + z) mod 64 = 56)%nat /\ (z <= 64)%nat /\ forall z', (z' < z)%nat -> ((l + 1 + z') mod 64 <> 56)%nat.
Proof.
  intros z. assert (Hz : (z < 64)%nat) by (apply Nat.mod_upper_bound; lia).
  assert (Hr : (l mod 64 < 64)%nat) by (apply Nat.mod_upper_bound; lia).
  assert (Hl : l = (64 * (l / 64) + l mod 64)%nat) by (apply Nat.div_mod_eq).
  set (r := (l mod 64)%nat) in *. set (q := (l / 64)%nat) in *.
  assert ((r + 1 + z = 56 \/ r + 1 + z = 120)%nat) as Hrz.
  { unfold z. destruct (Nat.le_gt_cases 56 r).
    - rewrite Nat.mod_small by lia. lia.
    - replace (119 - r)%nat with ((55 - r) + 1 * 64)%nat by lia. rewrite Nat.Div0.mod_add, Nat.mod_small by lia. lia. }
  assert (forall a, ((l + 1 + a) mod 64 = (r + 1 + a) mod 64)%nat) as Hmod.
  { intros a. rewrite Hl at 1. replace (64 * q + r + 1 + a)%nat with ((r + 1 + a) + q * 64)%nat by lia. apply Nat.Div0.mod_add. }
  split; [|split; [lia|]].
  - rewrite Hmod. by destruct Hrz as [->| ->].
  - intros z' Hz'. rewrite Hmod. intros E.
    assert (r + 1 + z' < 120 /\ r + 1 + z' <> 56)%nat as [Hlt Hne] by lia.
    rewrite (Nat.div_mod_eq (r + 1 + z') 64), E in Hlt, Hne.
    assert ((r + 1 + z') / 64 = 0 \/ (r + 1 + z') / 64 = 1)%nat as [Hq|Hq] by lia; rewrite Hq in *; lia.
Qed.
Lemma fin_absorbed s m : absorbed s m -> fin block s = fips block h0 m.
Proof.
  intros Hs. unfold fin. assert (ck_len s = Z.of_nat (length m) mod 2 ^ 64) as Hl by (by destruct Hs as (? & ? & _ & _ & _ & _ & ?)).
  destruct (pad_zeros (length m)) as (Hz & Hf & Hmin). set (z := ((119 - length m mod 64) mod 64)%nat) in *.
  assert (absorbed (pad_loop block 64 (update block s [128])) ((m ++ [128]) ++ replicate z 0)) as Hp.
  { apply pad_loop_absorbed; [by apply update_absorbed|done|by rewrite length_app|intros; rewrite length_app; auto]. }
  apply (update_absorbed _ _ (be_bytes 8 ((ck_len s * 8) mod 2 ^ 64))) in Hp.
  rewrite (be_bytes_mod 8 _ (8 * Z.of_nat (length m))) in Hp |- *.
  2,3: rewrite Hl; change (256 ^ Z.of_nat 8) with (2 ^ 64);
       by rewrite Zmod_mod, Zmult_mod_idemp_l, Z.mul_comm.
  unfold fips. f_equal. replace (pad m) with (((m ++ [128]) ++ replicate z 0) ++ be_bytes 8 (8 * Z.of_nat (length m))).
  2:{ unfold pad. fold z. by rewrite <- !app_assoc. }
  destruct Hp as (k & pre & Hm & Hk & Hb & Hh & _).
  assert (ck_buf (update block (pad_loop block 64 (update block s [128])) (be_bytes 8 (8 * Z.of_nat (length m)))) = []) as E.
  { apply nil_length_inv. rewrite (absorbed_buf _ (((m ++ [128]) ++ replicate z 0) ++ be_bytes 8 (8 * Z.of_nat (length m)))).
    - rewrite !length_app, be_bytes_length, length_replicate. cbn [length].
      rewrite <- Nat.Div0.add_mod_idemp_l, Hz. done.
    - apply update_absorbed, pad_loop_absorbed; [by apply update_absorbed|done|by rewrite length_app|intros; rewrite length_app; auto]. }
  rewrite E, app_nil_r in Hm. rewrite Hm, Hh, Hk, Nat.mul_comm, Nat.div_mul by done. done.
Qed.
End StreamFacts.

Lemma ckpt_hash_fin_pieces (kind : HashKind) (pieces : list (list Z)) :
  ckpt_hash_fin (fold_left ckpt_hash_update pieces (ckpt_hash_new kind))
  = match kind with
    | Sha1 => fips sha1_block (ck_h sha1_new) (concat pieces)
    | Sha256 => fips sha256_block (ck_h sha256_new) (concat pieces)
    end.
Proof.
  destruct kind; simpl.
  - assert (forall s, fold_left ckpt_hash_update pieces (CSha1 s) = CSha1 (fold_left sha1_update pieces s)) as ->
      by (induction pieces; simpl; auto).
    apply fin_absorbed. apply (updates_absorbed _ _ _ []). apply new_absorbed.
  - assert (forall s, fold_left ckpt_hash_update pieces (CSha256 s) = CSha256 (fold_left sha256_update pieces s)) as ->
      by (induction pieces; simpl; auto).
    apply fin_absorbed. apply (updates_absorbed _ _ _ []). apply new_absorbed.
Qed.
(** Streaming a pack through the resumable hasher, cut into any pieces, gives
    the padded one-shot digest of the whole, whichever format the repository
    has; and a checkpoint taken anywhere and resumed is the very same hasher. *)
Theorem ckpt_hash_streams (kind : HashKind) (pieces : list (list Z)) (c : WriterCkpt) :
  let h := fold_left ckpt_hash_update pieces (ckpt_hash_new kind) in
  ckpt_hash_fin h = (match kind with
                     | Sha1 => fips sha1_block (ck_h sha1_new) (concat pieces)
                     | Sha256 => fips sha256_block (ck_h sha256_new) (concat pieces)
                     end)
  /\ ckpt_hash (ckpt_set_hash c h) = Ok h.
Proof. intros h. split; [apply ckpt_hash_fin_pieces|]. by destruct h. Qed.

(** The published digests of the empty message and of 'abc'. *)
Definition digest_hex (l : list Z) : Z := from_be_bytes l.
Theorem sha_known_answers :
  digest_hex (sha1_fin sha1_new) = 0xda39a3ee5e6b4b0d3255bfef95601890afd80709
  /\ digest_hex (sha1_fin (sha1_update sha1_new [97; 98; 99])) = 0xa9993e364706816aba3e25717850c26c9cd0d89d
  /\ digest_hex (sha256_fin sha256_new) = 0xe3b0c44298fc1c149afbf4c8996fb92427ae41e4649b934ca495991b7852b855
  /\ digest_hex (sha256_fin (sha256_update sha256_new [97; 98; 99]))
     = 0xba7816bf8f01cfea414140de5dae2223b00361a396177a9cb410ff61f20015ad.
Proof. vm_compute. auto. Qed.
