(* ===== verification/Writer.v ===== *)
(** * Pack entries and the multipart pack writer

    [codec], [RawWriter] and [PackWriter] of [server/src/store/mod.rs].  A pack is
    built as one R2 multipart upload whose non-final parts all have one size; the
    bytes not yet uploaded sit in [part], and the running hash covers exactly the
    uploaded ones, so that [snapshot] describes the durable prefix.

    gix's entry header and zlib, and R2's multipart upload, are interfaces
    ([PackCodec], [Multipart]) with the behaviour their documentation gives as
    laws.  A budget is any type with a [charge1]; [Errors.charge] at a time of the
    clock is one.  Bytes are lists of [Z]. *)
From S2P Require Import Prelude Errors Db Sha.
Open Scope Z_scope.

(** ** Interfaces *)

(** What gix_pack and gix_zlib are used for: the 12-byte pack header, the header
    of a full entry, what an entry header says (kind, [None] for a delta; inflated
    size; header length), deflate, and one-shot inflate into a buffer of the given
    size (reached the end of the stream; bytes read; output). *)
Class PackCodec : Type := {
  pack_header : Z -> list Z;
  header_write : Kind -> Z -> list Z;
  entry_from_bytes : list Z -> option (option Kind * Z * Z);
  deflate : list Z -> list Z;
  inflate_once : list Z -> Z -> option (bool * Z * list Z)
}.
Class PackCodecLaws `{PackCodec} : Prop := {
  pack_header_length : forall n, length (pack_header n) = 12%nat;
  header_roundtrip : forall k n rest, entry_from_bytes (header_write k n ++ rest)
    = Some (Some k, n, Z.of_nat (length (header_write k n)));
  inflate_deflate : forall d rest, inflate_once (deflate d ++ rest) (Z.of_nat (length d))
    = Some (true, Z.of_nat (length (deflate d)), d)
}.
(** A multipart upload: [part_of] is what it holds for a part number and etag. *)
Class Multipart : Type := {
  Mpu : Type;
  part_of : Mpu -> Z -> string -> option (list Z);
  upload_part : Mpu -> Z -> list Z -> Mpu * result Error string;
  complete : Mpu -> list (Z * string) -> result Error (list Z);
  abort_upload : Mpu -> Mpu
}.
Class MultipartLaws `{Multipart} : Prop := {
  upload_stores : forall m n c m' e, upload_part m n c = (m', Ok e) -> part_of m' n e = Some c;
  upload_keeps : forall m n c m' r n' e', upload_part m n c = (m', r) -> n' <> n ->
    part_of m' n' e' = part_of m n' e';
  complete_concat : forall m ps chunks o, complete m ps = Ok o ->
    Forall2 (fun ne c => part_of m ne.1 ne.2 = Some c) ps chunks -> o = concat chunks
}.

(** ** codec *)

Definition PART : Z := 8 * 2 ^ 20.
Definition PART_MIN : Z := 5 * 2 ^ 20.
Definition MAX_OBJECT : Z := 16 * 2 ^ 20.

Section Codec.
Context `{PackCodec}.
Definition encode_entry (kind : Kind) (data out : list Z) : list Z :=
  out ++ header_write kind (Z.of_nat (length data)) ++ deflate data.
Definition entry_header (bs : list Z) : result Error (Kind * Z * Z) :=
  match entry_from_bytes bs with
  | None => Err (Storage "entry")
  | Some (None, _, _) => Err (Internal "delta entry in a normalized pack")
  | Some (Some k, size, hlen) => Ok (k, size, hlen)
  end.
Definition decode_entry_counted (bs : list Z) : result Error (Kind * list Z * Z) :=
  h ← entry_header bs;
  let '(kind, size, hlen) := h in
  if MAX_OBJECT <? size then Err (Limit "object too large (16 MiB max)")
  else if Z.of_nat (length bs) <? hlen then Err (Storage "truncated entry")
  else match inflate_once (drop (Z.to_nat hlen) bs) size with
       | None => Err (Storage "inflate")
       | Some (ended, used, out) =>
           if negb ended || negb (Z.of_nat (length out) =? size)
           then Err (Storage "entry size does not match its header")
           else Ok (kind, out, hlen + used)
       end.
Definition decode_entry (bs : list Z) : result Error (Kind * list Z) :=
  r ← decode_entry_counted bs; Ok r.1.
End Codec.

(** ** Key names *)

Definition key_pack (repo pack : string) : string := "r/" +:+ repo +:+ "/packs/" +:+ pack +:+ ".pack".
Definition key_pending (repo push : string) : string := "r/" +:+ repo +:+ "/pending/" +:+ push +:+ ".pack".
Definition key_pending_part (repo push part : string) : string :=
  "r/" +:+ repo +:+ "/pending/" +:+ push +:+ ".part-" +:+ part.
Definition key_lfs (repo oid : string) : string := "r/" +:+ repo +:+ "/lfs/" +:+ oid.
(** [key.rsplit('/').next()], then without [.pack]. *)
Definition pack_name (key : string) : option string :=
  match last (split_on "/" key) with Some f => strip_suffix ".pack" f | None => None end.

(** ** The writers *)

Section Writer.
Context `{PackCodec, Multipart}.
Context (B : Type) (charge1 : B -> B * result Error unit).

Record PackWriter : Type := mkWriter {
  pw_mpu : Mpu; pw_pack : string; pw_part : list Z; pw_parts : list (Z * string);
  pw_offset : Z; pw_count : Z; pw_expected : Z; pw_hash : CkptHash; pw_kind : HashKind;
  pw_lo : Z; pw_hi : Z; pw_created : Z; pw_part_size : Z }.
Abbreviation WM := (M (PackWriter * B) Error).

Definition wcharge : WM unit := fun s =>
  let r := charge1 s.2 in ((s.1, r.1), r.2).
Definition on_writer (f : PackWriter -> PackWriter) : WM unit := modify (fun s => (f s.1, s.2)).
Definition the_writer : WM PackWriter := gets fst.

(** [create]: the name from the key, one charge, the upload R2 opens, the 12-byte
    header buffered. *)
Definition create_writer (m : result Error Mpu) (key : string) (expected : Z) (kind : HashKind) (now : Z) (b : B) :
    B * result Error PackWriter :=
  match pack_name key with
  | None => (b, Err (Internal ("not a pack key: " +:+ key)))
  | Some name =>
      match charge1 b with
      | (b', Err e) => (b', Err e)
      | (b', Ok _) =>
          (b', m ← m;
               Ok (mkWriter m name (pack_header expected) [] 12 0 expected (ckpt_hash_new kind) kind u64_max 0 now PART))
      end
  end.
(** An entry of [len] bytes of the buffer, [start] being its offset. *)
Definition count_entry (kind : Kind) (start : Z) (w : PackWriter) : PackWriter :=
  mkWriter (pw_mpu w) (pw_pack w) (pw_part w) (pw_parts w) (pw_offset w) (sat_addu32 (pw_count w) 1) (pw_expected w)
    (pw_hash w) (pw_kind w)
    (match kind with Commit => Z.min (pw_lo w) start | _ => pw_lo w end)
    (match kind with Commit => pw_offset w | _ => pw_hi w end) (pw_created w) (pw_part_size w).
Definition raw_extend (bs : list Z) (w : PackWriter) : PackWriter :=
  mkWriter (pw_mpu w) (pw_pack w) (pw_part w ++ bs) (pw_parts w) (sat_addu64 (pw_offset w) (Z.of_nat (length bs)))
    (pw_count w) (pw_expected w) (pw_hash w) (pw_kind w) (pw_lo w) (pw_hi w) (pw_created w) (pw_part_size w).
Definition append_entry (kind : Kind) (data : list Z) : WM (Z * Z) :=
  w ← the_writer;
  let entry := encode_entry kind data [] in
  let len := Z.of_nat (length entry) in
  if u32_max <? len then on_writer (fun w => mkWriter (pw_mpu w) (pw_pack w) (pw_part w ++ entry) (pw_parts w) (pw_offset w)
      (pw_count w) (pw_expected w) (pw_hash w) (pw_kind w) (pw_lo w) (pw_hi w) (pw_created w) (pw_part_size w)) ≫= fun _ =>
    fail (Limit "entry too long")
  else on_writer (raw_extend entry) ≫= fun _ =>
       on_writer (count_entry kind (pw_offset w)) ≫= fun _ =>
       mret (pw_offset w, len).
Definition append_stored (entry : list Z) : WM (Z * Z) :=
  w ← the_writer;
  h ← lift (entry_header entry);
  let len := Z.of_nat (length entry) in
  if u32_max <? len then fail (Limit "entry too long")
  else on_writer (raw_extend entry) ≫= fun _ =>
       on_writer (count_entry h.1.1 (pw_offset w)) ≫= fun _ =>
       mret (pw_offset w, len).
Definition raw_entry_done (kind : Kind) (start : Z) : WM (Z * Z) :=
  w ← the_writer;
  let len := sat_subu64 (pw_offset w) start in
  if u32_max <? len then fail (Limit "entry too long")
  else on_writer (count_entry kind start) ≫= fun _ => mret (start, len).
Definition resume_tail (bs : list Z) (extra lo hi : Z) (w : PackWriter) : PackWriter :=
  mkWriter (pw_mpu w) (pw_pack w) bs (pw_parts w)
    (sat_addu64 (sat_subu64 (pw_offset w) (Z.of_nat (length (pw_part w)))) (Z.of_nat (length bs)))
    (sat_addu32 (pw_count w) extra) (pw_expected w) (pw_hash w) (pw_kind w)
    (Z.min (pw_lo w) lo) (Z.max (pw_hi w) hi) (pw_created w) (pw_part_size w).

Definition set_upload (part : list Z) (h : CkptHash) (w : PackWriter) : PackWriter :=
  mkWriter (pw_mpu w) (pw_pack w) part (pw_parts w) (pw_offset w) (pw_count w) (pw_expected w) h
    (pw_kind w) (pw_lo w) (pw_hi w) (pw_created w) (pw_part_size w).
(** Upload of the next part; its number is a u16. *)
Definition push_part (chunk : list Z) : WM (Z * string) := fun s =>
  let w := s.1 in
  let n := Z.of_nat (length (pw_parts w)) + 1 in
  let r := upload_part (pw_mpu w) n chunk in
  let put parts := mkWriter r.1 (pw_pack w) (pw_part w) parts (pw_offset w) (pw_count w) (pw_expected w) (pw_hash w)
                     (pw_kind w) (pw_lo w) (pw_hi w) (pw_created w) (pw_part_size w) in
  match r.2 with
  | Ok e => ((put (pw_parts w ++ [(n, e)]), s.2), Ok (n, e))
  | Err e => ((put (pw_parts w), s.2), Err e)
  end.
Definition part_number : WM unit :=
  w ← the_writer;
  if 65535 <? Z.of_nat (length (pw_parts w)) + 1 then fail (Limit "too many parts") else mret tt.
(** Drain one whole part: number, charge, hash, upload. *)
Definition drain_part : WM (Z * string) :=
  w ← the_writer;
  let chunk := take (Z.to_nat (pw_part_size w)) (pw_part w) in
  on_writer (fun w => set_upload (drop (Z.to_nat (pw_part_size w)) (pw_part w)) (pw_hash w) w) ≫= fun _ =>
  part_number ≫= fun _ =>
  wcharge ≫= fun _ =>
  on_writer (fun w => set_upload (pw_part w) (ckpt_hash_update (pw_hash w) chunk) w) ≫= fun _ =>
  push_part chunk.
(** Each turn uploads [part_size >= 1] bytes: the buffer's length is enough fuel. *)
Fixpoint flush_loop (fuel : nat) : WM unit :=
  match fuel with
  | O => mret tt
  | S f =>
      w ← the_writer;
      if Z.of_nat (length (pw_part w)) <? pw_part_size w then mret tt
      else drain_part ≫= fun _ => flush_loop f
  end.
Definition flush_if_full : WM unit := w ← the_writer; flush_loop (length (pw_part w)).

Definition hash_len (k : HashKind) : Z := match k with Sha1 => 20 | Sha256 => 32 end.
Definition finish_inner : WM unit :=
  w ← the_writer;
  if negb (pw_count w =? pw_expected w)
  then fail (Internal ("wrote " +:+ z_to_string (pw_count w) +:+ " entries, header says " +:+ z_to_string (pw_expected w)))
  else
    let trailer := ckpt_hash_fin (ckpt_hash_update (pw_hash w) (pw_part w)) in
    on_writer (fun w => set_upload (pw_part w ++ trailer) (pw_hash w) w) ≫= fun _ =>
    flush_if_full ≫= fun _ =>
    w1 ← the_writer;
    match pw_part w1 with
    | [] => mret tt
    | last =>
        on_writer (fun w => set_upload [] (pw_hash w) w) ≫= fun _ =>
        part_number ≫= fun _ =>
        wcharge ≫= fun _ =>
        push_part last ≫= fun _ => mret tt
    end.
(** [seal] answers the finished pack; the object R2 holds is returned beside it. *)
Definition seal : WM (PackMeta * list Z) :=
  w ← the_writer;
  let bs := sat_addu64 (pw_offset w) (hash_len (pw_kind w)) in
  wcharge ≫= fun _ =>
  obj ← lift (complete (pw_mpu w) (pw_parts w));
  if negb (Z.of_nat (length obj) =? bs)
  then fail (Storage ("R2 holds " +:+ z_to_string (Z.of_nat (length obj)) +:+ " bytes, wrote " +:+ z_to_string bs))
  else mret (mkPackMeta (pw_pack w) None (pw_count w) bs (pw_lo w) (pw_hi w) (pw_created w), obj).
Definition abort_writer (w : PackWriter) : PackWriter :=
  mkWriter (abort_upload (pw_mpu w)) (pw_pack w) (pw_part w) (pw_parts w) (pw_offset w) (pw_count w) (pw_expected w)
    (pw_hash w) (pw_kind w) (pw_lo w) (pw_hi w) (pw_created w) (pw_part_size w).
(** [finish] aborts the upload when the last parts fail; [finish_resumable]
    leaves it for the retry. *)
Definition finish_resumable : WM (PackMeta * list Z) := finish_inner ≫= fun _ => seal.
Definition finish : WM (PackMeta * list Z) := fun s =>
  match finish_inner s with
  | (s', Err e) => ((abort_writer s'.1, s'.2), Err e)
  | (s', Ok _) => seal s'
  end.

Definition snapshot (w : PackWriter) : WriterCkpt :=
  ckpt_set_hash
    (mkWriterCkpt (sat_subu64 (pw_offset w) (Z.of_nat (length (pw_part w)))) None None (pw_count w) (pw_expected w) (pw_lo w) (pw_hi w))
    (pw_hash w).
Definition checkpoint : WM (option (Z * string * WriterCkpt)) :=
  w ← the_writer;
  if Z.of_nat (length (pw_part w)) <? pw_part_size w then mret None
  else rec ← drain_part;
       w' ← the_writer;
       mret (Some (rec, snapshot w')).
Definition set_part_size (n : Z) (w : PackWriter) : PackWriter :=
  mkWriter (pw_mpu w) (pw_pack w) (pw_part w) (pw_parts w) (pw_offset w) (pw_count w) (pw_expected w) (pw_hash w)
    (pw_kind w) (pw_lo w) (pw_hi w) (pw_created w) n.
Definition etags (w : PackWriter) : list string := map snd (pw_parts w).
(** Part numbers from the position; those past u16 are skipped. *)
Fixpoint number_parts (i : Z) (es : list string) : list (Z * string) :=
  match es with
  | [] => []
  | e :: es' => (if i <=? 65535 then [(i, e)] else []) ++ number_parts (i + 1) es'
  end.
Definition resume (m : Mpu) (key : string) (es : list string) (st : WriterCkpt) (now : Z) : result Error PackWriter :=
  h ← ckpt_hash st;
  let fresh := wc_pos st =? 0 in
  Ok (mkWriter m (unwrap_or "" (pack_name key))
        (if fresh then pack_header (wc_expected st) else [])
        (number_parts 1 es)
        (if fresh then 12 else wc_pos st)
        (wc_count st) (wc_expected st) h (match h with CSha256 _ => Sha256 | CSha1 _ => Sha1 end)
        (wc_commit_lo st) (wc_commit_hi st) now PART).

(** ** RawWriter: the bytes as received *)

Record RawWriter : Type := mkRaw { rw_mpu : Mpu; rw_part : list Z; rw_parts : list (Z * string) }.
Abbreviation RM := (M (RawWriter * B) Error).
Definition rcharge : RM unit := fun s => let r := charge1 s.2 in ((s.1, r.1), r.2).
(** [create]: one charge, then an upload that R2 has opened. *)
Definition raw_create (m : result Error Mpu) (b : B) : B * result Error RawWriter :=
  match charge1 b with
  | (b', Err e) => (b', Err e)
  | (b', Ok _) => (b', m ← m; Ok (mkRaw m [] []))
  end.
Definition raw_append (bs : list Z) (w : RawWriter) : RawWriter := mkRaw (rw_mpu w) (rw_part w ++ bs) (rw_parts w).
(** Number, charge, upload of [chunk]; [rest] is what stays buffered. *)
Definition raw_upload (chunk rest : list Z) : RM unit := fun s =>
  let w := s.1 in
  let n := Z.of_nat (length (rw_parts w)) + 1 in
  if 65535 <? n then ((mkRaw (rw_mpu w) rest (rw_parts w), s.2), Err (Limit "too many parts"))
  else match charge1 s.2 with
       | (b, Err e) => ((mkRaw (rw_mpu w) rest (rw_parts w), b), Err e)
       | (b, Ok _) =>
           match upload_part (rw_mpu w) n chunk with
           | (m, Ok e) => ((mkRaw m rest (rw_parts w ++ [(n, e)]), b), Ok tt)
           | (m, Err e) => ((mkRaw m rest (rw_parts w), b), Err e)
           end
       end.
Fixpoint raw_flush_loop (fuel : nat) : RM unit :=
  match fuel with
  | O => mret tt
  | S f =>
      w ← gets fst;
      if Z.of_nat (length (rw_part w)) <? PART then mret tt
      else raw_upload (take (Z.to_nat PART) (rw_part w)) (drop (Z.to_nat PART) (rw_part w)) ≫= fun _ =>
           raw_flush_loop f
  end.
Definition raw_flush_if_full : RM unit := w ← gets fst; raw_flush_loop (length (rw_part w)).
Definition raw_finish_inner : RM unit :=
  w ← gets fst;
  match rw_part w with [] => mret tt | last => raw_upload last [] end.
Definition raw_abort (w : RawWriter) : RawWriter := mkRaw (abort_upload (rw_mpu w)) (rw_part w) (rw_parts w).
(** As [finish]: the upload is aborted when the last part fails.  R2's object is
    the answer. *)
Definition raw_seal : RM (list Z) :=
  rcharge ≫= fun _ =>
  w ← gets fst;
  lift (complete (rw_mpu w) (rw_parts w)).
Definition raw_finish : RM (list Z) := fun s =>
  match raw_finish_inner s with
  | (s', Err e) => ((raw_abort s'.1, s'.2), Err e)
  | (s', Ok _) => raw_seal s'
  end.
End Writer.
Arguments PackWriter {_}.
Arguments RawWriter {_}.

(** ** A codec round trip *)

Section CodecFacts.
Context `{PackCodecLaws}.
Lemma decode_encode_entry k d rest :
  Z.of_nat (length d) <= MAX_OBJECT ->
  decode_entry_counted (encode_entry k d [] ++ rest) = Ok (k, d, Z.of_nat (length (encode_entry k d []))).
Proof.
  intros Hl. unfold decode_entry_counted, entry_header, encode_entry. rewrite app_nil_l, <- app_assoc, header_roundtrip.
  unfold mbind, result_bind. rewrite (proj2 (Z.ltb_ge _ _)) by lia.
  rewrite (proj2 (Z.ltb_ge _ _)) by (rewrite length_app; lia).
  rewrite Nat2Z.id, drop_app_length, inflate_deflate, Z.eqb_refl. simpl. rewrite length_app. do 2 f_equal. lia.
Qed.
End CodecFacts.

(** ** The writer's invariant *)

Lemma Forall2_keep {A C} (P Q : A -> C -> Prop) l k :
  Forall2 P l k -> Forall (fun x => forall c, P x c -> Q x c) l -> Forall2 Q l k.
Proof. induction 1 as [|x c l k Hp Hl IH]; intros Hq; [done|]. apply Forall_cons in Hq as [Hx Hq]. constructor; auto. Qed.

Section WriterFacts.
Context `{PackCodecLaws, MultipartLaws}.
Context {B : Type} (charge1 : B -> B * result Error unit).

(** [stream] is everything written so far: the uploaded parts, all of one size
    and numbered from one, then the buffer; the hash has absorbed the parts. *)
Definition uploaded (m : Mpu) (ps : list (Z * string)) (chunks : list (list Z)) : Prop :=
  Forall2 (fun ne c => part_of m ne.1 ne.2 = Some c) ps chunks
  /\ map fst ps = map Z.of_nat (seq 1 (length ps)).
Definition wrote (w : PackWriter) (stream : list Z) : Prop :=
  exists chunks, stream = concat chunks ++ pw_part w /\ uploaded (pw_mpu w) (pw_parts w) chunks
  /\ Forall (fun c => Z.of_nat (length c) = pw_part_size w) chunks
  /\ pw_hash w = fold_left ckpt_hash_update chunks (ckpt_hash_new (pw_kind w)).
(** The fields uploading leaves alone. *)
Definition kept (w w' : PackWriter) : Prop :=
  pw_pack w' = pw_pack w /\ pw_offset w' = pw_offset w /\ pw_count w' = pw_count w /\ pw_expected w' = pw_expected w
  /\ pw_kind w' = pw_kind w /\ pw_lo w' = pw_lo w /\ pw_hi w' = pw_hi w /\ pw_created w' = pw_created w
  /\ pw_part_size w' = pw_part_size w.
#[local] Instance kept_trans : PreOrder kept.
Proof. split; [by repeat split|]. intros a b c Hab Hbc. unfold kept in *. destruct_and!. repeat split; congruence. Qed.

Lemma uploaded_push m ps chunks m' e c :
  uploaded m ps chunks -> upload_part m (Z.of_nat (length ps) + 1) c = (m', Ok e) ->
  uploaded m' (ps ++ [(Z.of_nat (length ps) + 1, e)]) (chunks ++ [c]).
Proof.
  intros [Hf Hn] Hu. split.
  - apply Forall2_app; [|constructor; [by apply (upload_stores _ _ _ _ _ Hu)|done]].
    apply (Forall2_keep _ _ _ _ Hf), Forall_forall. intros ne Hne c0 Hp.
    assert (ne.1 ∈ map fst ps) as Hin by (apply list_elem_of_fmap; eauto).
    rewrite Hn in Hin. apply list_elem_of_fmap in Hin as (i & Ei & Hi%elem_of_seq).
    rewrite (upload_keeps _ _ _ _ _ _ _ Hu); [done|lia].
  - rewrite map_app, Hn, length_app. simpl. rewrite Nat.add_1_r, seq_S, map_app. simpl. do 3 f_equal. lia.
Qed.

Lemma push_part_run c w b s r : push_part B c (w, b) = (s, Ok r) ->
  exists m e, upload_part (pw_mpu w) (Z.of_nat (length (pw_parts w)) + 1) c = (m, Ok e)
  /\ s = (mkWriter m (pw_pack w) (pw_part w) (pw_parts w ++ [(Z.of_nat (length (pw_parts w)) + 1, e)]) (pw_offset w) (pw_count w)
            (pw_expected w) (pw_hash w) (pw_kind w) (pw_lo w) (pw_hi w) (pw_created w) (pw_part_size w), b).
Proof.
  unfold push_part. cbn [fst snd]. destruct (upload_part _ _ _) as [m [e|e]] eqn:Eu; [|done].
  intros [= <- <-]. by exists m, e.
Qed.
Lemma part_number_run w b s u : part_number B (w, b) = (s, Ok u) -> s = (w, b).
Proof. unfold part_number, the_writer, gets. m_unfold. destruct (65535 <? _); intros; by simplify_eq. Qed.
Lemma wcharge_run w b s u : wcharge B charge1 (w, b) = (s, Ok u) -> exists b', s = (w, b').
Proof. unfold wcharge. cbn [fst snd]. intros [= <- _]. eauto. Qed.

(** A whole part moves from the buffer to the upload. *)
Lemma drain_part_run w b stream s rec :
  wrote w stream -> 1 <= pw_part_size w -> pw_part_size w <= Z.of_nat (length (pw_part w)) ->
  drain_part B charge1 (w, b) = (s, Ok rec) ->
  wrote s.1 stream /\ kept w s.1 /\ (length (pw_part s.1) < length (pw_part w))%nat.
Proof.
  intros (chunks & Hst & Hup & Hun & Hh) Hps Hl. unfold drain_part.
  intros (w0 & s0 & [= <- <-] & Hr)%bind_ok. apply bind_ok in Hr as ([] & s1 & [= <-] & Hr). cbn [fst snd] in Hr.
  apply bind_ok in Hr as ([] & s2 & ->%part_number_run & Hr).
  apply bind_ok in Hr as ([] & s3 & [b' ->]%wcharge_run & Hr).
  apply bind_ok in Hr as ([] & s4 & [= <-] & Hr). cbn [fst snd set_upload pw_part pw_hash] in Hr.
  apply push_part_run in Hr as (m & e & Hu & ->). cbn [fst].
  set (n := Z.to_nat (pw_part_size w)) in *.
  split; [|split; [by repeat split|cbn; rewrite length_drop; lia]].
  exists (chunks ++ [take n (pw_part w)]). cbn. split; [|split; [|split]].
  - rewrite concat_app, Hst, <- app_assoc. cbn. by rewrite app_nil_r, take_drop.
  - by apply (uploaded_push (pw_mpu w)).
  - apply Forall_app. split; [done|]. constructor; [rewrite length_take; lia|done].
  - by rewrite fold_left_app, <- Hh.
Qed.
Lemma flush_loop_run f w b stream s u :
  wrote w stream -> 1 <= pw_part_size w -> flush_loop B charge1 f (w, b) = (s, Ok u) ->
  wrote s.1 stream /\ kept w s.1
  /\ ((length (pw_part w) <= f)%nat -> Z.of_nat (length (pw_part s.1)) < pw_part_size w).
Proof.
  revert w b; induction f as [|f IH]; intros w b Hw Hps.
  - intros [= <- _]. cbn. split; [done|]. split; [by repeat split|]. lia.
  - cbn [flush_loop]. intros (w0 & s0 & [= <- <-] & Hr)%bind_ok. cbn [fst] in Hr.
    destruct (Z.ltb_spec (Z.of_nat (length (pw_part w))) (pw_part_size w)) as [Hlt|Hge].
    + injection Hr as <- _. split; [done|]. split; [by repeat split|]. done.
    + apply bind_ok in Hr as (rec & [w1 b1] & Hd & Hr).
      destruct (drain_part_run _ _ _ _ _ Hw Hps Hge Hd) as (Hw1 & Hk & Hl). cbn [fst] in *.
      assert (pw_part_size w1 = pw_part_size w) as Eps by apply Hk.
      destruct (IH w1 b1 Hw1) as (Hw2 & Hk2 & Hf); [lia|exact Hr|].
      split; [done|]. split; [by etrans|]. intros. rewrite <- Eps. apply Hf. lia.
Qed.
Lemma flush_if_full_run w b stream s u :
  wrote w stream -> 1 <= pw_part_size w -> flush_if_full B charge1 (w, b) = (s, Ok u) ->
  wrote s.1 stream /\ kept w s.1 /\ Z.of_nat (length (pw_part s.1)) < pw_part_size w.
Proof.
  intros Hw Hps (w0 & s0 & [= <- <-] & Hr)%bind_ok.
  destruct (flush_loop_run _ _ _ _ _ _ Hw Hps Hr) as (? & ? & Hf). auto.
Qed.

(** The digest of a stream, whatever parts it was uploaded in. *)
Definition digest (kind : HashKind) (stream : list Z) : list Z :=
  match kind with
  | Sha1 => fips sha1_block (ck_h sha1_new) stream
  | Sha256 => fips sha256_block (ck_h sha256_new) stream
  end.
Lemma hash_pieces_fin kind pieces :
  ckpt_hash_fin (fold_left ckpt_hash_update pieces (ckpt_hash_new kind)) = digest kind (concat pieces).
Proof. apply ckpt_hash_fin_pieces. Qed.

(** After the trailer every byte is uploaded, in order. *)
Lemma finish_inner_run w b stream s u :
  wrote w stream -> 1 <= pw_part_size w -> finish_inner B charge1 (w, b) = (s, Ok u) ->
  kept w s.1 /\ pw_count w = pw_expected w
  /\ exists chunks, uploaded (pw_mpu s.1) (pw_parts s.1) chunks /\ concat chunks = stream ++ digest (pw_kind w) stream.
Proof.
  intros Hw Hps. unfold finish_inner. intros (w0 & s0 & [= <- <-] & Hr)%bind_ok. cbn [fst] in Hr.
  destruct (Z.eqb_spec (pw_count w) (pw_expected w)) as [Ec|]; [|done]. cbn [negb] in Hr.
  apply bind_ok in Hr as ([] & s1 & [= <-] & Hr). cbn [fst snd] in Hr.
  apply bind_ok in Hr as ([] & [w2 b2] & Hf & Hr).
  assert (wrote (set_upload (pw_part w ++ ckpt_hash_fin (ckpt_hash_update (pw_hash w) (pw_part w))) (pw_hash w) w)
            (stream ++ digest (pw_kind w) stream)) as Hw1.
  { destruct Hw as (chunks & -> & Hup & Hun & Hh). exists chunks. cbn. split; [|done].
    change (ckpt_hash_update (pw_hash w) (pw_part w)) with (fold_left ckpt_hash_update [pw_part w] (pw_hash w)).
    rewrite Hh, <- fold_left_app, hash_pieces_fin, concat_app. cbn. by rewrite app_nil_r, app_assoc. }
  destruct (flush_if_full_run _ _ _ _ _ Hw1 Hps Hf) as ((chunks & Hst & Hup & Hun & Hh) & Hk & Hl). cbn [fst] in *.
  apply bind_ok in Hr as (w3 & s3 & [= <- <-] & Hr). cbn [fst] in Hr.
  destruct (pw_part w2) as [|z zs] eqn:Ep.
  - injection Hr as <- _. cbn [fst]. rewrite app_nil_r in Hst. split; [done|]. split; [done|]. by exists chunks.
  - apply bind_ok in Hr as ([] & s4 & [= <-] & Hr). cbn [fst snd] in Hr.
    apply bind_ok in Hr as ([] & s5 & ->%part_number_run & Hr).
    apply bind_ok in Hr as ([] & s6 & [b' ->]%wcharge_run & Hr).
    apply bind_ok in Hr as (rec & s7 & Hp & Hr). injection Hr as <- _.
    apply push_part_run in Hp as (m & e & Hu & ->). cbn [fst]. cbn in Hu |- *.
    split; [by etrans; [exact Hk|repeat split]|]. split; [done|].
    exists (chunks ++ [z :: zs]). split; [by apply (uploaded_push (pw_mpu w2))|].
    rewrite concat_app. cbn. by rewrite app_nil_r.
Qed.

(** ** A pack reads back entry by entry *)

Definition at_offset (w : PackWriter) (stream : list Z) : Prop :=
  pw_offset w = Z.min u64_max (Z.of_nat (length stream)).
(** What appending leaves alone. *)
Definition same_pack (w w' : PackWriter) : Prop :=
  pw_expected w' = pw_expected w /\ pw_kind w' = pw_kind w /\ pw_part_size w' = pw_part_size w.

Lemma append_entry_run k d w b stream s off len :
  wrote w stream -> at_offset w stream -> append_entry B k d (w, b) = (s, Ok (off, len)) ->
  wrote s.1 (stream ++ encode_entry k d []) /\ at_offset s.1 (stream ++ encode_entry k d []) /\ same_pack w s.1
  /\ pw_count s.1 = sat_addu32 (pw_count w) 1
  /\ off = Z.min u64_max (Z.of_nat (length stream)) /\ len = Z.of_nat (length (encode_entry k d [])).
Proof.
  intros (chunks & Hst & Hup & Hun & Hh) Hoff. unfold append_entry. set (e := encode_entry k d []).
  intros (w0 & s0 & [= <- <-] & Hr)%bind_ok. cbn [fst] in Hr.
  destruct (u32_max <? _); [by apply bind_ok in Hr as (? & ? & _ & ?)|].
  apply bind_ok in Hr as ([] & s1 & [= <-] & Hr). apply bind_ok in Hr as ([] & s2 & [= <-] & Hr).
  injection Hr as <- <- <-. cbn [fst snd]. split; [|split; [|split; [by repeat split|split; [done|by rewrite Hoff]]]].
  - exists chunks. split; [|done]. by rewrite Hst, <- app_assoc.
  - unfold at_offset in *. cbn [pw_offset count_entry raw_extend fst]. rewrite Hoff, length_app.
    unfold sat_addu64, u64_max. lia.
Qed.
(** The calls of the resolve loop: append each object, upload what is full. *)
Fixpoint write_entries (es : list (Kind * list Z)) : M (PackWriter * B) Error (list (Z * Z)) :=
  match es with
  | [] => mret []
  | (k, d) :: es' =>
      r ← append_entry B k d;
      flush_if_full B charge1 ≫= fun _ =>
      rs ← write_entries es';
      mret (r :: rs)
  end.
Definition entries_bytes (es : list (Kind * list Z)) : list Z := concat (map (fun kd => encode_entry kd.1 kd.2 []) es).
(** [r] is the extent of entry [kd] in [obj]. *)
Definition extent (obj : list Z) (kd : Kind * list Z) (r : Z * Z) : Prop :=
  exists pre post, obj = pre ++ encode_entry kd.1 kd.2 [] ++ post
  /\ r = (Z.min u64_max (Z.of_nat (length pre)), Z.of_nat (length (encode_entry kd.1 kd.2 []))).
Lemma write_entries_run es w b stream s rows :
  wrote w stream -> at_offset w stream -> 1 <= pw_part_size w -> 0 <= pw_count w ->
  write_entries es (w, b) = (s, Ok rows) ->
  wrote s.1 (stream ++ entries_bytes es) /\ at_offset s.1 (stream ++ entries_bytes es) /\ same_pack w s.1
  /\ (pw_count w <= u32_max -> pw_count s.1 = Z.min u32_max (pw_count w + Z.of_nat (length es)))
  /\ forall tail, Forall2 (extent (stream ++ entries_bytes es ++ tail)) es rows.
Proof.
  revert w b stream rows; induction es as [|[k d] es IH]; intros w b stream rows Hw Ho Hps Hc.
  - intros [= <- <-]. unfold entries_bytes. cbn. rewrite app_nil_r. repeat split; try done; lia.
  - cbn [write_entries]. intros (r & [w1 b1] & Ha & Hr)%bind_ok. destruct r as [off len].
    destruct (append_entry_run _ _ _ _ _ _ _ _ Hw Ho Ha) as (Hw1 & Ho1 & (He1 & Hk1 & Hp1) & Hc1 & -> & ->). cbn [fst] in *.
    apply bind_ok in Hr as ([] & [w2 b2] & Hf & Hr).
    destruct (flush_if_full_run _ _ _ _ _ Hw1 ltac:(lia) Hf) as (Hw2 & Hk2 & _). cbn [fst] in *.
    destruct Hk2 as (_ & Eo & Ec & Ee & Ek & _ & _ & _ & Ep).
    apply bind_ok in Hr as (rs & s3 & Hes & Hr). injection Hr as <- <-.
    assert (at_offset w2 (stream ++ encode_entry k d [])) as Ho2 by (unfold at_offset; by rewrite Eo).
    assert (0 <= pw_count w2) as Hc2 by (rewrite Ec, Hc1; unfold sat_addu32, u32_max; lia).
    destruct (IH w2 b2 _ rs Hw2 Ho2 ltac:(lia) Hc2 Hes) as (Hw3 & Ho3 & Hs3 & Hc3 & Hx).
    assert (stream ++ entries_bytes ((k, d) :: es) = (stream ++ encode_entry k d []) ++ entries_bytes es) as Eb
      by (unfold entries_bytes; cbn [map concat fst snd]; by rewrite app_assoc).
    rewrite Eb. split; [done|]. split; [done|]. split; [unfold same_pack in *; destruct_and!; repeat split; congruence|].
    split.
    + intros Hle. rewrite Hc3, Ec, Hc1; unfold sat_addu32, u32_max in *; cbn [length]; lia.
    + intros tail. rewrite app_assoc, Eb, <- app_assoc. constructor; [|apply Hx].
      exists stream, (entries_bytes es ++ tail). split; [by rewrite <- app_assoc|done].
Qed.
Lemma extent_decode obj k d off len :
  extent obj (k, d) (off, len) -> Z.of_nat (length obj) <= u64_max -> Z.of_nat (length d) <= MAX_OBJECT ->
  decode_entry (take (Z.to_nat len) (drop (Z.to_nat off) obj)) = Ok (k, d) /\ off + len <= Z.of_nat (length obj).
Proof.
  intros (pre & post & -> & [= -> ->]) Hl Hd. cbn [fst snd] in *. rewrite !length_app in *.
  rewrite Z.min_r by lia. rewrite !Nat2Z.id, drop_app_length, take_app_length. split; [|lia].
  unfold decode_entry. rewrite <- (app_nil_r (encode_entry k d [])) at 1. by rewrite decode_encode_entry.
Qed.
Lemma create_wrote m key n kind now b b1 w :
  create_writer B charge1 (Ok m) key n kind now b = (b1, Ok w) ->
  wrote w (pack_header n) /\ at_offset w (pack_header n) /\ pw_part_size w = PART /\ pw_count w = 0
  /\ pw_expected w = n /\ pw_kind w = kind.
Proof.
  unfold create_writer. destruct (pack_name key); [|done]. destruct (charge1 b) as [b' [[]|e]]; [|done].
  intros [= <- <-]. cbn. split; [|split; [|done]].
  - exists []. cbn. repeat split; constructor.
  - unfold at_offset. cbn. rewrite pack_header_length. done.
Qed.
Lemma seal_run w b s meta obj : seal B charge1 (w, b) = (s, Ok (meta, obj)) ->
  complete (pw_mpu w) (pw_parts w) = Ok obj /\ pm_count meta = pw_count w /\ pm_bytes meta = Z.of_nat (length obj).
Proof.
  unfold seal. intros (w0 & s0 & [= <- <-] & Hr)%bind_ok. apply bind_ok in Hr as ([] & s1 & [b' ->]%wcharge_run & Hr).
  apply bind_ok in Hr as (o & s2 & Hc & Hr). unfold lift in Hc. injection Hc as <- Hc. cbn [fst] in *.
  destruct (Z.eqb_spec (Z.of_nat (length o)) (sat_addu64 (pw_offset w) (hash_len (pw_kind w)))) as [E|]; [|done].
  injection Hr as <- <- <-. cbn. auto.
Qed.

(** C18: A pack written entry by entry is read back entry by entry: the object R2
    holds is the header for the entry count, the entries, and the digest of all
    of that; every extent handed to the index decodes to the very object that was
    appended there; and the recorded count and size are the pack's. *)
Theorem pack_roundtrip (m : Mpu) (key : string) (kind : HashKind) (now : Z) (b b1 : B) (w : PackWriter)
    (es : list (Kind * list Z)) (s : PackWriter * B) (rows : list (Z * Z)) (meta : PackMeta) (obj : list Z) :
  create_writer B charge1 (Ok m) key (Z.of_nat (length es)) kind now b = (b1, Ok w) ->
  (rs ← write_entries es; r ← finish B charge1; mret (rs, r)) (w, b1) = (s, Ok (rows, (meta, obj))) ->
  Forall (fun kd => Z.of_nat (length kd.2) <= MAX_OBJECT) es -> Z.of_nat (length obj) <= u64_max ->
  let body := pack_header (Z.of_nat (length es)) ++ entries_bytes es in
  obj = body ++ digest kind body
  /\ Forall2 (fun kd r => decode_entry (take (Z.to_nat r.2) (drop (Z.to_nat r.1) obj)) = Ok kd
                /\ r.1 + r.2 <= Z.of_nat (length obj)) es rows
  /\ pm_count meta = Z.of_nat (length es) /\ pm_bytes meta = Z.of_nat (length obj).
Proof.
  intros Hc Hr Hm Hl body. destruct (create_wrote _ _ _ _ _ _ _ _ Hc) as (Hw & Ho & Hp & Hn & He & Hk).
  apply bind_ok in Hr as (rs & [w1 b2] & Hes & Hr). apply bind_ok in Hr as (r & s2 & Hf & Hr). injection Hr as <- <- ->.
  destruct (write_entries_run es w b1 _ _ rs Hw Ho ltac:(by rewrite Hp) ltac:(lia) Hes)
    as (Hw1 & Ho1 & (Ee & Ek & Ep) & Hcnt & Hx). cbn [fst] in *. fold body in Hw1.
  unfold finish in Hf. destruct (finish_inner B charge1 (w1, b2)) as [[w3 b3] [[]|e]] eqn:Ef; [|done].
  destruct (finish_inner_run _ _ _ _ _ Hw1 ltac:(rewrite Ep, Hp; done) Ef) as (Hk3 & Hce & chunks & [Hup _] & Hcc).
  destruct (seal_run _ _ _ _ _ Hf) as (Hcm & Hmc & Hmb). cbn [fst] in *.
  assert (obj = body ++ digest kind body) as Eo.
  { rewrite (complete_concat _ _ _ _ Hcm Hup), Hcc. by rewrite Ek, Hk. }
  split; [done|]. split; [|split; [|done]].
  - specialize (Hx (digest kind body)). subst body. rewrite app_assoc, <- Eo in Hx.
    eapply Forall2_keep; [exact Hx|]. eapply Forall_impl; [exact Hm|]. intros [k d] Hd [off len] He'. by apply extent_decode.
  - rewrite Hmc. destruct Hk3 as (_ & _ & -> & _). rewrite Hce, Ee. done.
Qed.

(** ** Resuming from a checkpoint *)

Lemma number_parts_etags i ps :
  map fst ps = map Z.of_nat (seq i (length ps)) -> Z.of_nat (i + length ps) <= 65536 ->
  number_parts (Z.of_nat i) (map snd ps) = ps.
Proof.
  revert i; induction ps as [|[n e] ps IH]; intros i Hn Hl; [done|]. cbn in Hn, Hl |- *. injection Hn as -> Hn.
  rewrite (proj2 (Z.leb_le _ _)) by lia. cbn. f_equal. replace (Z.of_nat i + 1) with (Z.of_nat (S i)) by lia.
  apply IH; [done|lia].
Qed.
Lemma snapshot_hash w : ckpt_hash (snapshot w) = Ok (pw_hash w).
Proof. unfold snapshot. by destruct (pw_hash w). Qed.
Lemma snapshot_fields w : wc_pos (snapshot w) = sat_subu64 (pw_offset w) (Z.of_nat (length (pw_part w)))
  /\ wc_count (snapshot w) = pw_count w /\ wc_expected (snapshot w) = pw_expected w
  /\ wc_commit_lo (snapshot w) = pw_lo w /\ wc_commit_hi (snapshot w) = pw_hi w.
Proof. unfold snapshot. by destruct (pw_hash w). Qed.
Lemma hash_variant chunks kind :
  match fold_left ckpt_hash_update chunks (ckpt_hash_new kind) with CSha256 _ => Sha256 | CSha1 _ => Sha1 end = kind.
Proof.
  assert (forall h, match fold_left ckpt_hash_update chunks h with CSha256 _ => Sha256 | CSha1 _ => Sha1 end
            = match h with CSha256 _ => Sha256 | CSha1 _ => Sha1 end) as E.
  { induction chunks as [|c chunks IH]; intros h; cbn; [done|]. rewrite IH. by destruct h. }
  rewrite E. by destruct kind.
Qed.
Lemma uniform_concat_nil (chunks : list (list Z)) n :
  1 <= n -> Forall (fun c => Z.of_nat (length c) = n) chunks -> length (concat chunks) = 0%nat -> chunks = [].
Proof. intros Hn Hf Hl. destruct Hf as [|c chunks Hc _]; [done|]. cbn in Hl. rewrite length_app in Hl. lia. Qed.

(** The writer as it was, but for the creation time a resume stamps. *)
Definition restamp (now : Z) (w : PackWriter) : PackWriter :=
  mkWriter (pw_mpu w) (pw_pack w) (pw_part w) (pw_parts w) (pw_offset w) (pw_count w) (pw_expected w) (pw_hash w)
    (pw_kind w) (pw_lo w) (pw_hi w) now (pw_part_size w).
Definition writer_ok (w : PackWriter) : Prop :=
  1 <= pw_part_size w /\ Z.of_nat (length (pw_parts w)) <= 65535 /\ 0 <= pw_count w <= u32_max
  /\ 0 <= pw_lo w <= u64_max /\ 0 <= pw_hi w.

(** A writer resumed from a checkpoint is the writer that took it: with the
    persisted tail every field is the same but the creation time, so the pack
    continues as if nothing had happened; and without the tail it stands exactly
    at the end of the uploaded bytes (or at a fresh header when none were), ready
    for a replay. *)
Theorem resume_exact (w : PackWriter) (stream : list Z) (key : string) (now : Z) :
  wrote w stream -> at_offset w stream -> Z.of_nat (length stream) <= u64_max -> writer_ok w ->
  pack_name key = Some (pw_pack w) ->
  exists w1, resume (pw_mpu w) key (etags w) (snapshot w) now = Ok w1
  /\ set_part_size (pw_part_size w) (resume_tail (pw_part w) 0 u64_max 0 w1) = restamp now w
  /\ let durable := take (length stream - length (pw_part w)) stream in
     let start := if (length durable =? 0)%nat then pack_header (pw_expected w) else durable in
     wrote (set_part_size (pw_part_size w) w1) start /\ at_offset (set_part_size (pw_part_size w) w1) start.
Proof.
  intros (chunks & Hst & [Hup Hn] & Hun & Hh) Ho Hl (Hps & Hnp & Hct & Hlo & Hhi) Hk.
  unfold resume. rewrite snapshot_hash. unfold mbind, result_bind.
  destruct (snapshot_fields w) as (Ep & -> & -> & -> & ->). rewrite Ep. unfold etags.
  change 1 with (Z.of_nat 1). rewrite number_parts_etags by (done || lia). rewrite Hk. cbn [unwrap_or].
  assert (Hs := f_equal length Hst). rewrite length_app in Hs.
  assert (pw_offset w = Z.of_nat (length (concat chunks)) + Z.of_nat (length (pw_part w))) as Eo.
  { unfold at_offset in Ho. lia. }
  rewrite Eo. unfold sat_subu64. rewrite Z.add_simpl_r, Z.max_r by lia.
  assert (take (length stream - length (pw_part w)) stream = concat chunks) as Ed.
  { rewrite Hst, length_app, Nat.add_sub. apply take_app_length. }
  assert (match pw_hash w with CSha256 _ => Sha256 | CSha1 _ => Sha1 end = pw_kind w) as -> by (rewrite Hh; apply hash_variant).
  eexists. split; [reflexivity|]. split.
  - unfold resume_tail, set_part_size, restamp. cbn. f_equal.
    + destruct (Z.eqb_spec (Z.of_nat (length (concat chunks))) 0) as [E|E];
        rewrite ?pack_header_length; unfold sat_addu64, sat_subu64, u64_max in *; cbn [length]; lia.
    + unfold sat_addu32. lia.
    + lia.
    + lia.
  - rewrite Ed. cbn zeta.
    destruct (Nat.eqb_spec (length (concat chunks)) 0) as [E|E].
    + rewrite E. cbn [Z.eqb Z.of_nat]. assert (chunks = []) as -> by (by apply (uniform_concat_nil _ (pw_part_size w))).
      inversion Hup. split; [by exists []; repeat split|]. unfold at_offset. cbn. by rewrite pack_header_length.
    + rewrite (proj2 (Z.eqb_neq _ _)) by lia. split.
      * exists chunks. cbn. rewrite app_nil_r. done.
      * unfold at_offset. cbn. rewrite Hst, length_app in Hl. lia.
Qed.

(** ** RawWriter *)

Definition raw_wrote (w : RawWriter) (stream : list Z) : Prop :=
  exists chunks, stream = concat chunks ++ rw_part w /\ uploaded (rw_mpu w) (rw_parts w) chunks.
Lemma raw_upload_run c rest w b stream s u :
  raw_wrote w stream -> rw_part w = c ++ rest -> raw_upload B charge1 c rest (w, b) = (s, Ok u) ->
  raw_wrote s.1 stream /\ rw_part s.1 = rest.
Proof.
  intros (chunks & Hst & Hup) Ec. unfold raw_upload. cbn [fst snd]. destruct (65535 <? _); [done|].
  destruct (charge1 b) as [b' [[]|e]]; [|done]. destruct (upload_part _ _ _) as [m [e|e]] eqn:Eu; [|done].
  intros [= <- _]. cbn. split; [|done]. exists (chunks ++ [c]). cbn. split.
  - rewrite concat_app, Hst, Ec. cbn. by rewrite app_nil_r, app_assoc.
  - by apply (uploaded_push (rw_mpu w)).
Qed.
Lemma raw_flush_run f w b stream s u :
  raw_wrote w stream -> raw_flush_loop B charge1 f (w, b) = (s, Ok u) -> raw_wrote s.1 stream.
Proof.
  revert w b; induction f as [|f IH]; intros w b Hw; [by intros [= <- _]|].
  cbn [raw_flush_loop]. intros (w0 & s0 & [= <- <-] & Hr)%bind_ok. cbn [fst] in Hr.
  destruct (_ <? PART); [by injection Hr as <- _|]. apply bind_ok in Hr as ([] & [w1 b1] & Hu & Hr).
  apply (raw_upload_run _ _ _ _ stream) in Hu as [Hu _]; [|done|by rewrite take_drop]. by apply (IH w1 b1).
Qed.
(** Pass A's calls: append what arrived, upload what is full. *)
Fixpoint raw_write (ds : list (list Z)) : M (RawWriter * B) Error unit :=
  match ds with
  | [] => mret tt
  | d :: ds' => modify (fun s => (raw_append d s.1, s.2)) ≫= fun _ => raw_flush_if_full B charge1 ≫= fun _ => raw_write ds'
  end.
Lemma raw_write_run ds w b stream s u :
  raw_wrote w stream -> raw_write ds (w, b) = (s, Ok u) -> raw_wrote s.1 (stream ++ concat ds).
Proof.
  revert w b stream; induction ds as [|d ds IH]; intros w b stream Hw; [intros [= <- _]; cbn; by rewrite app_nil_r|].
  cbn [raw_write]. intros ([] & s2 & [= <-] & Hr)%bind_ok. apply bind_ok in Hr as ([] & [w3 b3] & Hfl & Hr).
  apply bind_ok in Hfl as (w0 & s0 & [= <- <-] & Hfl). cbn. rewrite app_assoc. apply (IH w3 b3 _); [|done].
  apply raw_flush_run with (stream := stream ++ d) in Hfl; [done|]. destruct Hw as (chunks & -> & Hup).
  exists chunks. split; [by rewrite <- app_assoc|done].
Qed.
Lemma raw_finish_run w b stream s obj : raw_wrote w stream -> raw_finish B charge1 (w, b) = (s, Ok obj) -> obj = stream.
Proof.
  intros Hw. unfold raw_finish. destruct (raw_finish_inner B charge1 (w, b)) as [[w2 b2] [[]|e]] eqn:Hfi; [|done].
  unfold raw_seal. intros ([] & s3 & Hc & Hf)%bind_ok. unfold rcharge in Hc. injection Hc as <- _.
  apply bind_ok in Hf as (w4 & s4 & [= <- <-] & Hf). unfold lift in Hf. injection Hf as _ Hf. cbn [fst] in Hf.
  apply bind_ok in Hfi as (w5 & s5 & [= <- <-] & Hfi). cbn [fst] in Hfi.
  assert (raw_wrote w2 stream /\ rw_part w2 = []) as [(chunks & -> & Hup) Ep].
  { destruct (rw_part w) eqn:Ep; [by injection Hfi as <- _|].
    apply (raw_upload_run _ _ _ _ stream) in Hfi; [done|done|by rewrite app_nil_r]. }
  rewrite Ep, app_nil_r. destruct Hup. by apply (complete_concat _ _ _ _ Hf).
Qed.
(** The staged copy of a push is byte for byte what was received, in whatever
    pieces it came. *)
Theorem raw_writer_verbatim (m : Mpu) (ds : list (list Z)) (b : B) (s : RawWriter * B) (obj : list Z) :
  (raw_write ds ≫= fun _ => raw_finish B charge1) (mkRaw m [] [], b) = (s, Ok obj) -> obj = concat ds.
Proof.
  intros ([] & [w1 b1] & Hw & Hf)%bind_ok.
  apply (raw_write_run _ _ _ []) in Hw; [|exists []; repeat split; constructor]. by apply raw_finish_run with (stream := concat ds) in Hf.
Qed.
End WriterFacts.

(** ** A concrete codec and upload *)

#[export] Instance demo_codec : PackCodec := {|
  pack_header := fun n => [80; 65; 67; 75; 0; 0; 0; 2; 0; 0; 0; n];
  header_write := fun k n => [git_kind k; n];
  entry_from_bytes := fun bs => match bs with
    | k :: n :: _ => Some (match kind_of k with Ok k => Some k | Err _ => None end, n, 2)
    | _ => None end;
  deflate := fun d => Z.of_nat (length d) :: d;
  inflate_once := fun bs size => match bs with
    | l :: r => Some (l =? size, l + 1, take (Z.to_nat l) r)
    | [] => None end
|}.
#[export] Instance demo_codec_laws : PackCodecLaws.
Proof.
  split.
  - done.
  - intros k n rest. by destruct k.
  - intros d rest. cbn. rewrite Z.eqb_refl, Nat2Z.id, take_app_length. do 2 f_equal. f_equal. lia.
Qed.
#[export] Instance demo_multipart : Multipart := {|
  Mpu := gmap Z (list Z);
  part_of := fun m n _ => m !! n;
  upload_part := fun m n c => (<[n := c]> m, Ok "etag");
  complete := fun m ps => match collect (fun ne => of_option (Storage "no such part") (m !! ne.1)) ps with
    | Ok chunks => Ok (concat chunks)
    | Err e => Err e end;
  abort_upload := fun m => ∅
|}.
#[export] Instance demo_multipart_laws : MultipartLaws.
Proof.
  split.
  - intros m n c m' e [= <- _]. apply lookup_insert_eq.
  - intros m n c m' r n' e' [= <- _] Hne. cbn. by rewrite lookup_insert_ne.
  - intros m ps chunks o. cbn. destruct (collect _ ps) as [cs|e] eqn:Ec; [|done]. intros [= <-] Hf.
    apply collect_Forall2 in Ec. f_equal. revert chunks Hf. induction Ec as [|ne c ps cs Hc Ec IH]; intros chunks Hf.
    + by inversion Hf.
    + inversion Hf as [|? c' ? chunks' Hp Hf' E1 E2]; subst. f_equal; [|by apply IH].
      cbn in Hp. rewrite Hp in Hc. by injection Hc as ->.
Qed.
Module WriterDemo.
(** A budget of [n] subrequests. *)
Definition charge1 (b : nat) : nat * result Error unit :=
  match b with O => (O, Err Budget) | S b' => (b', Ok tt) end.
Definition es : list (Kind * list Z) := [(Commit, [99; 49]); (Blob, [98])].
Definition key : string := "r/repo/packs/p1.pack".
Definition w : PackWriter :=
  match (create_writer nat charge1 (Ok (∅ : gmap Z (list Z))) key 2 Sha1 7 9%nat).2 with
  | Ok w => w
  | Err _ => mkWriter ∅ "" [] [] 0 0 0 (ckpt_hash_new Sha1) Sha1 0 0 0 1
  end.
Definition run : (PackWriter * nat) * result Error (list (Z * Z) * (PackMeta * list Z)) :=
  Eval vm_compute in (rs ← write_entries charge1 es; r ← finish nat charge1; mret (rs, r)) (w, 8%nat).
Definition final : PackWriter * nat := Eval vm_compute in run.1.
Definition meta : PackMeta := Eval vm_compute in
  match run.2 with Ok r => r.2.1 | Err _ => mkPackMeta "" None 0 0 0 0 0 end.
Definition obj : list Z := Eval vm_compute in match run.2 with Ok r => r.2.2 | Err _ => [] end.
(** With parts of five bytes: the header is uploaded in two and a tail stays. *)
Definition small : PackWriter :=
  (flush_if_full nat charge1 (set_part_size 5 w, 9%nat)).1.1.
End WriterDemo.
Lemma demo_run : (rs ← write_entries WriterDemo.charge1 WriterDemo.es; r ← finish nat WriterDemo.charge1; mret (rs, r)) (WriterDemo.w, 8%nat)
  = (WriterDemo.final, Ok ([(12, 5); (17, 4)], (WriterDemo.meta, WriterDemo.obj))).
Proof. vm_compute. reflexivity. Qed.
Lemma pack_roundtrip_witness :
  Forall2 (fun kd r => decode_entry (take (Z.to_nat r.2) (drop (Z.to_nat r.1) WriterDemo.obj)) = Ok kd
                /\ r.1 + r.2 <= Z.of_nat (length WriterDemo.obj)) WriterDemo.es [(12, 5); (17, 4)].
Proof.
  apply (pack_roundtrip WriterDemo.charge1 ∅ WriterDemo.key Sha1 7 9%nat 8%nat WriterDemo.w WriterDemo.es
    WriterDemo.final [(12, 5); (17, 4)] WriterDemo.meta WriterDemo.obj).
  - vm_compute. reflexivity.
  - exact demo_run.
  - repeat constructor; vm_compute; discriminate.
  - vm_compute. discriminate.
Defined.
Lemma resume_exact_witness : exists w1,
  resume (pw_mpu WriterDemo.small) WriterDemo.key (etags WriterDemo.small) (snapshot WriterDemo.small) 50 = Ok w1
  /\ set_part_size 5 (resume_tail (pw_part WriterDemo.small) 0 u64_max 0 w1) = restamp 50 WriterDemo.small.
Proof.
  destruct (resume_exact WriterDemo.small (pack_header 2) WriterDemo.key 50) as (w1 & H1 & H2 & _).
  - exists [[80; 65; 67; 75; 0]; [0; 0; 2; 0; 0]]. vm_compute. repeat constructor; done.
  - vm_compute. reflexivity.
  - vm_compute. discriminate.
  - unfold writer_ok. vm_compute. repeat split; discriminate.
  - vm_compute. reflexivity.
  - by exists w1.
Defined.
Lemma raw_writer_verbatim_witness : [1; 2; 3] = concat [[1; 2]; [3]].
Proof.
  apply (@raw_writer_verbatim demo_multipart _ nat WriterDemo.charge1 (∅ : gmap Z (list Z)) [[1; 2]; [3]] 5%nat
    (@mkRaw demo_multipart ({[1 := [1; 2; 3]]} : gmap Z (list Z)) [] [(1, "etag")], 3%nat)). vm_compute. reflexivity.
Defined.
