(* ===== verification/Reads.v ===== *)
(** * Range reads from R2

    [Bucket::read_range], [read_entries] and [read_entries_chunked] of
    [server/src/store/mod.rs], [Source::read] and [Window::entry] of
    [server/src/pack/ingest.rs], and [chunks] of [server/src/jobs/gc.rs]: the
    routines that turn many small reads into few large ones.  R2's ranged get is
    an interface; the laws are that a full answer is the requested slice of the
    stored object.  The theorems: coalescing, splitting, staging in parts and the
    sliding window all return exactly the bytes a direct read would. *)
From S2P Require Import Prelude Errors Db Sha Writer.
Open Scope Z_scope.

(** [range_get key off len]: the bytes R2 answers with, [None] for a missing key. *)
Class R2 : Type := {
  range_get : string -> Z -> Z -> result Error (option (list Z))
}.
Definition slice (o : list Z) (off len : Z) : list Z := take (Z.to_nat len) (drop (Z.to_nat off) o).
(** What the bucket holds, and that a ranged get answers with it. *)
Class R2Laws `{R2} (object : string -> option (list Z)) : Prop :=
  range_get_slice : forall key off len bs, 0 <= off -> 0 <= len -> range_get key off len = Ok (Some bs) ->
    exists o, object key = Some o /\ bs = slice o off len.

Definition GAP : Z := 256 * 1024.
Definition SPAN : Z := 8 * 2 ^ 20.
Definition MAX_READ : Z := 48 * 2 ^ 20.

Definition loc_end (l : string * ObjLoc) : Z := sat_addu64 (lc_offset l.2) (lc_len l.2).
Definition loc_le (a b : string * ObjLoc) : Prop :=
  String.le (lc_pack a.2) (lc_pack b.2) /\ (lc_pack a.2 = lc_pack b.2 -> lc_offset a.2 <= lc_offset b.2).
#[local] Instance loc_le_dec a b : Decision (loc_le a b).
Proof.
  unfold loc_le. destruct (decide (String.le (lc_pack a.2) (lc_pack b.2))) as [H1|H1]; [|right; naive_solver].
  destruct (decide (lc_pack a.2 = lc_pack b.2)) as [H2|H2]; [|left; naive_solver].
  destruct (decide (lc_offset a.2 <= lc_offset b.2)) as [H3|H3]; [left; naive_solver|right; naive_solver].
Defined.

Section Reads.
Context `{R2}.
Context (B : Type) (charge1 : B -> B * result Error unit) (repo : string).
Abbreviation BM := (M B Error).

Definition bcharge : BM unit := charge1.
Definition read_range (key : string) (off len : Z) : BM (list Z) :=
  bcharge ≫= fun _ =>
  r ← lift (range_get key off len);
  match r with
  | None => fail (Storage ("missing " +:+ key))
  | Some bs => if Z.of_nat (length bs) =? len then mret bs else fail (Storage ("short read on " +:+ key))
  end.

(** ** Coalesced reads *)

Abbreviation Loc := (string * ObjLoc)%type.
(** The inner loop: how far the span that starts at [start] grows. *)
Fixpoint grow (pack : string) (start e : Z) (l : list Loc) : Z * list Loc * list Loc :=
  match l with
  | [] => (e, [], [])
  | n :: l' =>
      if negb (String.eqb (lc_pack n.2) pack) || (GAP <=? sat_subu64 (lc_offset n.2) e)
         || (SPAN <? sat_subu64 (loc_end n) start)
      then (e, [], l)
      else let r := grow pack start (Z.max e (loc_end n)) l' in (r.1.1, n :: r.1.2, r.2)
  end.
(** One entry out of the span's bytes. *)
Definition cut (key : string) (start : Z) (bs : list Z) (l : Loc) : result Error (string * list Z) :=
  let lo := sat_subu64 (lc_offset l.2) start in
  if lo + lc_len l.2 <=? Z.of_nat (length bs) then Ok (l.1, slice bs lo (lc_len l.2))
  else Err (Storage ("entry outside span in " +:+ key)).
(** The outer loop; a span takes at least one entry, so the entries' number is
    enough fuel. *)
Fixpoint read_spans (fuel : nat) (total : Z) (l : list Loc) : BM (list (string * list Z)) :=
  match fuel, l with
  | S f, first :: l' =>
      let start := lc_offset first.2 in
      let g := grow (lc_pack first.2) start (loc_end first) l' in
      let '(e, taken, rest) := g in
      let total' := sat_addu64 total (sat_subu64 e start) in
      if MAX_READ <? total' then fail (Limit "read batch exceeds memory budget")
      else
        let key := key_pack repo (lc_pack first.2) in
        bs ← read_range key start (sat_subu64 e start);
        out ← lift (collect (cut key start bs) (first :: taken));
        more ← read_spans f total' rest;
        mret (out ++ more)
  | _, _ => mret []
  end.
Definition read_entries (locs : list Loc) : BM (list (string * list Z)) :=
  let sorted := merge_sort loc_le locs in read_spans (length sorted) 0 sorted.
(** The work stack, top first; every turn removes a chunk or splits one in two,
    so twice the entries and one is enough fuel. *)
Fixpoint chunked_loop (fuel : nat) (stack : list (list Loc)) (out : list (string * list Z)) :
    BM (option (list (string * list Z))) :=
  match fuel, stack with
  | _, [] => mret (Some out)
  | O, _ => mret None
  | S f, chunk :: stack' => fun b =>
      match read_entries chunk b with
      | (b', Ok r) => chunked_loop f stack' (out ++ r) b'
      | (b', Err (Limit m)) =>
          if (1 <? length chunk)%nat then
            let h := (length chunk / 2)%nat in
            chunked_loop f (take h chunk :: drop h chunk :: stack') out b'
          else (b', Err (Limit m))
      | (b', Err e) => (b', Err e)
      end
  end.
Definition read_entries_chunked (locs : list Loc) : BM (option (list (string * list Z))) :=
  chunked_loop (2 * length locs + 1) [locs] [].

(** ** Staged parts and the window *)

Fixpoint read_parts (parts : list (string * Z)) (base off want_end : Z) (out : list Z) : BM (list Z) :=
  match parts with
  | [] => mret out
  | (key, len) :: parts' =>
      let e := sat_addu64 base len in
      let a := Z.max off base in
      let b := Z.min want_end e in
      out' ← (if a <? b then bs ← read_range key (a - base) (b - a); mret (out ++ bs) else mret out);
      if want_end <=? b then mret out' else read_parts parts' e off want_end out'
  end.
Inductive Source : Type := SKey (key : string) | SParts (parts : list (string * Z)).
Definition source_read (s : Source) (off n : Z) : BM (list Z) :=
  match s with
  | SKey k => read_range k off n
  | SParts parts =>
      out ← read_parts parts 0 off (sat_addu64 off n) [];
      if Z.of_nat (length out) =? n then mret out else fail (Storage "read past staged parts")
  end.

Definition MAX_ENTRY_WIRE : Z := 32 * 2 ^ 20.
Definition WINDOW : Z := 8 * 2 ^ 20.
Record Window : Type := mkWindow { wn_src : Source; wn_pack_len : Z; wn_start : Z; wn_buf : list Z }.
(** Raw bytes of one entry of [hlen] header and [clen] compressed bytes. *)
Definition window_entry (offset hlen clen : Z) : M (Window * B) Error (list Z) := fun s =>
  let w := s.1 in
  let len := sat_addu64 hlen clen in
  if MAX_ENTRY_WIRE + 64 <? len then (s, Err (Unpack "entry window too large"))
  else
    let lo := offset - wn_start w in
    let cut w b lo := if lo + len <=? Z.of_nat (length (wn_buf w))
                      then ((w, b), Ok (slice (wn_buf w) lo len))
                      else ((w, b), Err (Storage "entry outside window")) in
    if (wn_start w <=? offset) && (sat_addu64 lo len <=? Z.of_nat (length (wn_buf w))) then cut w s.2 lo
    else
      let n := Z.min (Z.max len WINDOW) (sat_subu64 (wn_pack_len w) offset) in
      match source_read (wn_src w) offset n s.2 with
      | (b, Err e) => ((w, b), Err e)
      | (b, Ok bs) => cut (mkWindow (wn_src w) (wn_pack_len w) offset bs) b 0
      end.
End Reads.

(** ** gc's grouping of loads *)

Definition SPANS : nat := 64.
Definition LOAD : Z := 32 * 2 ^ 20.
Fixpoint chunks_loop (cur : list (string * ObjLoc)) (bytes : Z) (l : list (string * ObjLoc)) : list (list (string * ObjLoc)) :=
  match l with
  | [] => match cur with [] => [] | _ => [cur] end
  | x :: l' =>
      if (SPANS <=? length cur)%nat || (LOAD <? sat_addu64 bytes (lc_size x.2))
      then cur :: chunks_loop [x] (sat_addu64 0 (lc_size x.2)) l'
      else chunks_loop (cur ++ [x]) (sat_addu64 bytes (lc_size x.2)) l'
  end.
Definition chunks (loads : list (string * ObjLoc)) : list (list (string * ObjLoc)) := chunks_loop [] 0 loads.

(** * Facts *)

Lemma slice_length o off len :
  0 <= off -> 0 <= len -> off + len <= Z.of_nat (length o) -> Z.of_nat (length (slice o off len)) = len.
Proof. intros. unfold slice. rewrite length_take, length_drop. lia. Qed.
Lemma slice_slice o a n lo len :
  0 <= a -> 0 <= lo -> 0 <= len -> lo + len <= n -> slice (slice o a n) lo len = slice o (a + lo) len.
Proof.
  intros. unfold slice. rewrite skipn_firstn_comm, drop_drop, take_take.
  f_equal; [lia|]. f_equal. lia.
Qed.
Lemma slice_inside o off len :
  0 < len -> 0 <= off -> Z.of_nat (length (slice o off len)) = len -> off + len <= Z.of_nat (length o).
Proof. unfold slice. rewrite length_take, length_drop. lia. Qed.
(** Cutting a slice in two. *)
Lemma slice_split o off a b :
  0 <= off -> 0 <= a -> 0 <= b -> slice o off (a + b) = slice o off a ++ slice o (off + a) b.
Proof.
  intros. unfold slice. rewrite Z2Nat.inj_add, <- take_take_drop by lia.
  f_equal. rewrite drop_drop. f_equal. f_equal. lia.
Qed.

#[local] Instance loc_le_trans : Transitive loc_le.
Proof.
  intros a b c [H1 H2] [H3 H4]. split; [by etrans|]. intros E.
  assert (lc_pack a.2 = lc_pack b.2) as E2
    by (apply (anti_symm String.le); [done|rewrite E; done]).
  rewrite E2 in *. specialize (H2 eq_refl). specialize (H4 E). lia.
Qed.
#[local] Instance loc_le_total : Total loc_le.
Proof.
  intros a b. unfold loc_le. destruct (total String.le (lc_pack a.2) (lc_pack b.2)) as [H|H];
    destruct (decide (lc_pack a.2 = lc_pack b.2)) as [E|E];
    try (left; split; [done|intros; done]); try (right; split; [done|intros; done]).
  all: destruct (Z.le_ge_cases (lc_offset a.2) (lc_offset b.2));
    [left|right]; (split; [by rewrite E|intros; lia]).
Qed.

Lemma grow_spec pack start e l :
  let '(e', taken, rest) := grow pack start e l in
  l = taken ++ rest /\ e <= e' /\ Forall (fun n => lc_pack n.2 = pack /\ loc_end n <= e') taken /\
  e' - start <= Z.max (e - start) SPAN /\
  (forall b, e <= b -> Forall (fun n => lc_pack n.2 = pack -> loc_end n <= b) l -> e' <= b).
Proof.
  revert e; induction l as [|n l IH]; intros e; simpl; [split_and!; auto; lia|].
  destruct (negb _ || _ || _) eqn:E; [split_and!; auto; lia|].
  apply orb_false_iff in E as [E E3]. apply orb_false_iff in E as [E1 E2].
  apply negb_false_iff, String.eqb_eq in E1. unfold sat_subu64 in E3.
  specialize (IH (Z.max e (loc_end n))).
  destruct (grow pack start (Z.max e (loc_end n)) l) as [[e' taken] rest]; simpl in *.
  destruct IH as (-> & H1 & H2 & H3 & H4). split_and!; [done|lia| |lia|].
  - constructor; [split; [done|lia]|done].
  - intros b Hb Hl. apply Forall_cons in Hl as [Hn Hl]. specialize (Hn E1). apply H4; [lia|done].
Qed.

(** A location a [u32] length and a [u64] offset can hold. *)
Definition loc_ok (l : string * ObjLoc) : Prop :=
  0 <= lc_offset l.2 /\ 0 < lc_len l.2 /\ lc_offset l.2 + lc_len l.2 <= u64_max.
Lemma loc_end_eq l : loc_ok l -> loc_end l = lc_offset l.2 + lc_len l.2.
Proof. unfold loc_ok, loc_end, sat_addu64. lia. Qed.

Section Exact.
Context `{R2} (object : string -> option (list Z)) `{!R2Laws object}.
Context (B : Type) (charge1 : B -> B * result Error unit) (repo : string).

(** The bytes of an entry: the slice of its pack at its location. *)
Definition entry_at (l : string * ObjLoc) (r : string * list Z) : Prop :=
  r.1 = l.1 /\ exists o, object (key_pack repo (lc_pack l.2)) = Some o /\
    lc_offset l.2 + lc_len l.2 <= Z.of_nat (length o) /\ r.2 = slice o (lc_offset l.2) (lc_len l.2).

Lemma read_range_ok key off len b b' bs :
  0 <= off -> 0 < len -> read_range B charge1 key off len b = (b', Ok bs) ->
  exists o, object key = Some o /\ off + len <= Z.of_nat (length o) /\ bs = slice o off len.
Proof.
  unfold read_range, bcharge, mbind, M_bind, lift, mret, M_ret, fail. intros Ho Hl E.
  destruct (charge1 b) as [b1 [[]|]]; [|done].
  destruct (range_get key off len) as [[bs1|]|] eqn:E1; try done.
  destruct (Z.eqb_spec (Z.of_nat (length bs1)) len) as [E2|]; [|done]. injection E as <- <-.
  destruct (range_get_slice key off len bs1 Ho ltac:(lia) E1) as (o & Ho2 & ->).
  exists o. split_and!; [done| |done]. by apply slice_inside.
Qed.

Lemma cut_entries key o start e ls out :
  0 <= start -> object key = Some o -> e <= Z.of_nat (length o) ->
  Forall (fun l => loc_ok l /\ key_pack repo (lc_pack l.2) = key /\ start <= lc_offset l.2 /\ loc_end l <= e) ls ->
  collect (cut key start (slice o start (e - start))) ls = Ok out -> Forall2 entry_at ls out.
Proof.
  intros Hs Hk He Hls Hc. apply collect_Forall2 in Hc. revert Hls.
  induction Hc as [|l r ls out Hx _ IH]; intros Hls; [constructor|].
  apply Forall_cons in Hls as [(Hok & Hkey & Hst & Hend) Hls]. constructor; [|by apply IH].
  rewrite (loc_end_eq _ Hok) in Hend. destruct Hok as (H1 & H2 & H3).
  unfold cut in Hx. case_match eqn:Hlo; [|done]. injection Hx as <-. split; [done|]. exists o. simpl.
  rewrite Hkey. split_and!; [done|lia|].
  unfold sat_subu64. rewrite slice_slice by lia. f_equal. lia.
Qed.

Lemma read_spans_cons f total a l :
  read_spans B charge1 repo (S f) total (a :: l) =
  (let '(e, taken, rest) := grow (lc_pack a.2) (lc_offset a.2) (loc_end a) l in
   let total' := sat_addu64 total (sat_subu64 e (lc_offset a.2)) in
   if MAX_READ <? total' then fail (Limit "read batch exceeds memory budget")
   else let key := key_pack repo (lc_pack a.2) in
     bs ← read_range B charge1 key (lc_offset a.2) (sat_subu64 e (lc_offset a.2));
     out ← lift (collect (cut key (lc_offset a.2) bs) (a :: taken));
     more ← read_spans B charge1 repo f total' rest;
     mret (out ++ more)).
Proof. reflexivity. Qed.
Lemma read_spans_exact fuel total l b b' out :
  (length l <= fuel)%nat -> StronglySorted loc_le l -> Forall loc_ok l ->
  read_spans B charge1 repo fuel total l b = (b', Ok out) -> Forall2 entry_at l out.
Proof.
  revert total l b b' out; induction fuel as [|f IH]; intros total [|a l] b b' out Hf Hs Hok;
    try (intros E; injection E as <- <-; constructor); simpl in Hf; [lia|]. rewrite read_spans_cons.
  apply StronglySorted_inv in Hs as [Hs Ha]. apply Forall_cons in Hok as [Hoka Hok].
  pose proof (grow_spec (lc_pack a.2) (lc_offset a.2) (loc_end a) l) as G.
  destruct (grow _ _ _ l) as [[e taken] rest]. destruct G as (-> & Ge & Gt & _ & _).
  apply StronglySorted_app in Hs as (_ & _ & Hs).
  apply Forall_app in Ha as [Ha _]. apply Forall_app in Hok as [Hokt Hokr].
  cbv zeta. case_match; [done|]. unfold mbind, M_bind, lift, mret, M_ret.
  destruct (read_range _ _ _ _ _ _) as [b1 [bs|]] eqn:Er; [|done].
  destruct (collect _ _) as [xs|] eqn:Ec; [|done].
  destruct (read_spans _ _ _ f _ rest b1) as [b2 [ys|]] eqn:Es; [|done].
  intros E; injection E as <- <-. rewrite app_comm_cons. apply Forall2_app.
  2: { eapply IH; [|done|done|exact Es]. rewrite length_app in Hf. simpl in Hf. lia. }
  pose proof Hoka as (H1 & H2 & H3). rewrite (loc_end_eq _ Hoka) in Ge.
  apply read_range_ok in Er as (o & Ho & Hl & ->); [|lia|unfold sat_subu64; lia].
  unfold sat_subu64 in *. rewrite Z.max_r in Ec, Hl by lia.
  eapply (cut_entries _ o (lc_offset a.2) e); [lia|done|lia| |exact Ec].
  constructor; [split_and!; [done|done|lia|rewrite (loc_end_eq _ Hoka); lia]|].
  apply Forall_forall. intros x Hx. rewrite Forall_forall in Gt, Ha, Hokt.
  destruct (Gt x Hx) as [Hp Hx2]. split_and!; [auto|by rewrite Hp| |done].
  destruct (Ha x Hx) as [_ Ho2]. by apply Ho2.
Qed.

Lemma read_entries_exact_aux locs b b' out :
  Forall loc_ok locs -> read_entries B charge1 repo locs b = (b', Ok out) ->
  exists ls, ls ≡ₚ locs /\ Forall2 entry_at ls out.
Proof.
  intros Hok E. exists (merge_sort loc_le locs). pose proof (merge_sort_Permutation loc_le locs) as P.
  split; [done|]. eapply read_spans_exact; [reflexivity| |by rewrite P|exact E].
  apply Sorted_StronglySorted; [apply _|]. apply Sorted_merge_sort. apply _.
Qed.

(** What a stack of chunks may still cost: a chunk of [n] entries is split at
    most [n - 1] times. *)
Definition stack_cost (stack : list (list (string * ObjLoc))) : nat :=
  sum_list_with (fun c => Nat.max 1 (2 * length c - 1)) stack.
Lemma stack_cost_split c stack :
  (1 < length c)%nat ->
  (stack_cost (take (length c / 2) c :: drop (length c / 2) c :: stack) < stack_cost (c :: stack))%nat.
Proof.
  intros Hc. unfold stack_cost. cbn -[Nat.mul Nat.div Nat.sub Nat.max]. rewrite length_take, length_drop.
  pose proof (Nat.div_mod_eq (length c) 2). pose proof (Nat.mod_upper_bound (length c) 2 ltac:(lia)).
  assert (1 <= length c / 2)%nat by lia. lia.
Qed.

Lemma chunked_loop_exact fuel stack out b b' r :
  (stack_cost stack <= fuel)%nat -> Forall (Forall loc_ok) stack ->
  chunked_loop B charge1 repo fuel stack out b = (b', Ok r) ->
  exists ls new, r = Some (out ++ new) /\ ls ≡ₚ concat stack /\ Forall2 entry_at ls new.
Proof.
  revert stack out b; induction fuel as [|f IH]; intros [|c stack] out b Hf Hok;
    try (intros E; injection E as <- <-; exists [], []; rewrite app_nil_r; split_and!; [done..|constructor]).
  { unfold stack_cost in Hf. cbn -[Nat.mul Nat.sub Nat.max] in Hf. lia. }
  cbn [chunked_loop]. apply Forall_cons in Hok as [Hc Hok].
  destruct (read_entries _ _ _ c b) as [b1 [x|e]] eqn:Er.
  - intros E. apply read_entries_exact_aux in Er as (l1 & P1 & F1); [|done].
    apply IH in E as (l2 & new & -> & P2 & F2); [|unfold stack_cost in *; simpl in *; lia|done].
    exists (l1 ++ l2), (x ++ new). rewrite app_assoc. split_and!; [done|by rewrite P1, P2|by apply Forall2_app].
  - destruct e; try done. destruct (Nat.ltb_spec 1 (length c)) as [Hl|]; [|done]. intros E.
    apply IH in E as (l2 & new & -> & P2 & F2).
    + exists l2, new. split_and!; [done| |done]. rewrite P2. simpl. by rewrite app_assoc, take_drop.
    + pose proof (stack_cost_split c stack Hl). lia.
    + by repeat constructor; [apply Forall_take|apply Forall_drop|].
Qed.

(** The environment does its part: the budget is not spent and R2 answers every
    read inside an object. *)
Class Serves : Prop := {
  serves_charge : forall b, exists b', charge1 b = (b', Ok tt);
  serves_get : forall key off len o, object key = Some o -> 0 <= off -> 0 < len ->
    off + len <= Z.of_nat (length o) -> range_get key off len = Ok (Some (slice o off len))
}.
Definition placed (l : string * ObjLoc) : Prop :=
  loc_ok l /\ exists o, object (key_pack repo (lc_pack l.2)) = Some o /\
    lc_offset l.2 + lc_len l.2 <= Z.of_nat (length o).

Section Total.
Context `{!Serves}.
Lemma read_range_serves key off len o b :
  object key = Some o -> 0 <= off -> 0 < len -> off + len <= Z.of_nat (length o) ->
  exists b', read_range B charge1 key off len b = (b', Ok (slice o off len)).
Proof.
  intros Hk Ho Hl Hb. destruct (serves_charge b) as [b' Hc]. exists b'.
  unfold read_range, bcharge, mbind, M_bind, lift, mret, M_ret. rewrite Hc.
  rewrite (serves_get key off len o) by done. rewrite slice_length by lia. by rewrite Z.eqb_refl.
Qed.
Lemma cut_total key o start e ls :
  0 <= start -> e <= Z.of_nat (length o) -> start <= e ->
  Forall (fun l => loc_ok l /\ start <= lc_offset l.2 /\ loc_end l <= e) ls ->
  exists out, collect (cut key start (slice o start (e - start))) ls = Ok out.
Proof.
  intros Hs He Hse Hls. induction Hls as [|l ls (Hok & Hst & Hend) _ [out IH]]; [by exists []|].
  rewrite (loc_end_eq _ Hok) in Hend. destruct Hok as (H1 & H2 & H3). cbn [collect]. unfold cut at 1.
  rewrite slice_length by lia. unfold sat_subu64. rewrite (proj2 (Z.leb_le _ _)) by lia. rewrite IH. eauto.
Qed.

(** Only the memory bound can refuse, and never a batch that fits in it. *)
Lemma read_spans_total fuel total l b :
  (length l <= fuel)%nat -> StronglySorted loc_le l -> Forall placed l ->
  (exists b' out, read_spans B charge1 repo fuel total l b = (b', Ok out)) \/
  (exists b' m, read_spans B charge1 repo fuel total l b = (b', Err (Limit m))).
Proof.
  revert total l b; induction fuel as [|f IH]; intros total [|a l] b Hf Hs Hok;
    try (left; by repeat eexists). simpl in Hf. rewrite read_spans_cons.
  apply StronglySorted_inv in Hs as [Hs Ha]. apply Forall_cons in Hok as [[Hoka (o & Ho & Hao)] Hok].
  pose proof (grow_spec (lc_pack a.2) (lc_offset a.2) (loc_end a) l) as G.
  destruct (grow _ _ _ l) as [[e taken] rest]. destruct G as (-> & Ge & Gt & _ & Gb).
  cbv zeta. case_match; [right; unfold fail; eauto|].
  pose proof Hoka as (Ha1 & Ha2 & Ha3). rewrite (loc_end_eq _ Hoka) in Ge, Gb.
  assert (e <= Z.of_nat (length o)) as He.
  { apply Gb; [done|]. eapply Forall_impl; [exact Hok|]. intros n [Hn (o' & Ho' & Hno)] Hp.
    rewrite Hp, Ho in Ho'. injection Ho' as <-. rewrite (loc_end_eq _ Hn). lia. }
  apply StronglySorted_app in Hs as (_ & _ & Hs). apply Forall_app in Hok as [Hokt Hokr].
  unfold mbind, M_bind, lift, mret, M_ret, sat_subu64. rewrite Z.max_r by lia.
  destruct (read_range_serves (key_pack repo (lc_pack a.2)) (lc_offset a.2) (e - lc_offset a.2) o b)
    as [b1 ->]; [done|lia..|].
  destruct (cut_total (key_pack repo (lc_pack a.2)) o (lc_offset a.2) e (a :: taken)) as [out ->]; [lia..| |].
  { constructor; [split_and!; [done|lia|rewrite (loc_end_eq _ Hoka); lia]|].
    apply Forall_app in Ha as [Ha _]. rewrite Forall_forall in *. intros x Hx.
    destruct (Gt x Hx) as [Hp He2], (Ha x Hx) as [_ Hx2]. destruct (Hokt x Hx). split_and!; auto. }
  destruct (IH (sat_addu64 total (e - lc_offset a.2)) rest b1) as [(b2 & out2 & ->)|(b2 & m & ->)];
    [rewrite length_app in Hf; lia|done|done|left; eauto|right; eauto].
Qed.
Lemma read_one_total l b :
  placed l -> lc_len l.2 <= MAX_READ -> exists b' out, read_entries B charge1 repo [l] b = (b', Ok out).
Proof.
  intros [Hok (o & Ho & Hl)] Hm. unfold read_entries. change (merge_sort loc_le [l]) with [l]. cbn [length].
  rewrite read_spans_cons. cbn [grow]. rewrite (loc_end_eq _ Hok). destruct Hok as (? & ? & ?).
  cbv zeta. unfold sat_subu64, sat_addu64. rewrite (Z.max_r 0) by lia.
  replace (lc_offset l.2 + lc_len l.2 - lc_offset l.2) with (lc_len l.2) by lia.
  rewrite (proj2 (Z.ltb_ge _ _)) by lia. unfold mbind, M_bind, lift, mret, M_ret.
  destruct (read_range_serves (key_pack repo (lc_pack l.2)) (lc_offset l.2) (lc_len l.2) o b) as [b1 ->]; [done|lia..|].
  cbn [collect]. unfold cut, sat_subu64. rewrite slice_length by lia. rewrite Z.sub_diag.
  rewrite (proj2 (Z.leb_le _ _)) by lia. simpl. eauto.
Qed.
Lemma read_entries_total c b :
  Forall placed c ->
  (exists b' out, read_entries B charge1 repo c b = (b', Ok out)) \/
  (exists b' m, read_entries B charge1 repo c b = (b', Err (Limit m))).
Proof.
  intros Hc. apply read_spans_total; [done| |by rewrite (merge_sort_Permutation loc_le c)].
  apply Sorted_StronglySorted; [apply _|]. apply Sorted_merge_sort. apply _.
Qed.
Lemma chunked_loop_total fuel stack out b :
  (stack_cost stack <= fuel)%nat -> Forall (Forall (fun l => placed l /\ lc_len l.2 <= MAX_READ)) stack ->
  exists b' r, chunked_loop B charge1 repo fuel stack out b = (b', Ok r).
Proof.
  revert stack out b; induction fuel as [|f IH]; intros [|c stack] out b Hf Hok; try (by repeat eexists).
  cbn [chunked_loop]. apply Forall_cons in Hok as [Hc Hok].
  destruct (read_entries_total c b) as [(b1 & x & Er)|(b1 & m & Er)];
    [eapply Forall_impl; [exact Hc|naive_solver]|rewrite Er..].
  - apply IH; [unfold stack_cost in *; simpl in *; lia|done].
  - destruct (Nat.ltb_spec 1 (length c)) as [Hl|Hl].
    + apply IH; [pose proof (stack_cost_split c stack Hl); lia|].
      by repeat constructor; [apply Forall_take|apply Forall_drop|].
    + destruct c as [|l [|]]; [by compute in Er| |simpl in Hl; lia].
      apply Forall_cons in Hc as [[Hp Hm] _]. destruct (read_one_total l b Hp Hm) as (b2 & x & E2). congruence.
Qed.
End Total.

(** C19: coalesced reads are exact.  Whatever [read_entries] merges, over-reads
    and cuts, a successful answer pairs every requested location, once each,
    with the slice of its pack at its offset and length. *)
Theorem read_entries_exact locs b b' out :
  Forall loc_ok locs -> read_entries B charge1 repo locs b = (b', Ok out) ->
  exists ls, ls ≡ₚ locs /\ Forall2 entry_at ls out.
Proof. apply read_entries_exact_aux. Qed.

(** C32: splitting on the memory bound always finishes with every entry.  When R2
    answers and the budget lasts, and no single entry exceeds the bound,
    [read_entries_chunked] succeeds on any number of entries, and its answer is
    every requested location once with the slice of its pack. *)
Theorem read_chunked_complete `{!Serves} locs b :
  Forall (fun l => placed l /\ lc_len l.2 <= MAX_READ) locs ->
  exists b' out ls, read_entries_chunked B charge1 repo locs b = (b', Ok (Some out)) /\
    ls ≡ₚ locs /\ Forall2 entry_at ls out.
Proof.
  intros Hl. assert (stack_cost [locs] <= 2 * length locs + 1)%nat as Hc
    by (unfold stack_cost; cbn -[Nat.mul Nat.sub Nat.max]; lia).
  destruct (chunked_loop_total (2 * length locs + 1) [locs] [] b Hc) as (b' & r & E); [by repeat constructor|].
  pose proof E as E2. apply chunked_loop_exact in E2 as (ls & new & -> & P & F); [|done|].
  - exists b', new, ls. simpl in P. rewrite app_nil_r in P. by split_and!.
  - repeat constructor. eapply Forall_impl; [exact Hl|]. unfold placed. naive_solver.
Qed.
End Exact.

(** ** Staged parts and the window *)

Lemma slice_app_l a b off len : 0 <= off -> off + len <= Z.of_nat (length a) -> slice (a ++ b) off len = slice a off len.
Proof.
  intros. unfold slice. destruct (Z.le_gt_cases len 0) as [Hl|Hl].
  - replace (Z.to_nat len) with 0%nat by lia. by rewrite !take_0.
  - rewrite drop_app_le by lia. rewrite take_app_le; [done|]. rewrite length_drop. lia.
Qed.
Lemma slice_app_r a b off len :
  Z.of_nat (length a) <= off -> slice (a ++ b) off len = slice b (off - Z.of_nat (length a)) len.
Proof. intros. unfold slice. rewrite drop_app_ge by lia. f_equal. f_equal. lia. Qed.
Lemma slice_empty o off len : len <= 0 -> slice o off len = [].
Proof. intros. unfold slice. by replace (Z.to_nat len) with 0%nat by lia. Qed.
Lemma slice_app_mid a b off len :
  0 <= off <= Z.of_nat (length a) -> Z.of_nat (length a) <= off + len ->
  slice (a ++ b) off len = slice a off (Z.of_nat (length a) - off) ++ slice b 0 (off + len - Z.of_nat (length a)).
Proof.
  intros. replace len with ((Z.of_nat (length a) - off) + (off + len - Z.of_nat (length a))) at 1 by lia.
  rewrite slice_split by lia. rewrite slice_app_l by lia. rewrite slice_app_r by lia. do 2 f_equal. lia.
Qed.

Section Staged.
Context `{R2} (object : string -> option (list Z)) `{!R2Laws object}.
Context (B : Type) (charge1 : B -> B * result Error unit).

Definition holds (p : string * Z) (o : list Z) : Prop := object p.1 = Some o /\ Z.of_nat (length o) = p.2.
(** The pack a source stands for. *)
Definition content (s : Source) (c : list Z) : Prop :=
  match s with
  | SKey k => object k = Some c
  | SParts parts => exists os, Forall2 holds parts os /\ c = concat os
  end.

Lemma read_parts_ok parts os base off want_end out b b' r :
  Forall2 holds parts os -> 0 <= base -> 0 <= off -> base + Z.of_nat (length (concat os)) <= u64_max ->
  read_parts B charge1 parts base off want_end out b = (b', Ok r) ->
  r = out ++ slice (concat os) (Z.max off base - base) (want_end - Z.max off base).
Proof.
  intros F. revert base out b. induction F as [|[k len] o parts os [Hk Hlen] F IH]; intros base out b Hb Ho Hu.
  { intros E; injection E as <- <-. unfold slice. cbn [concat]. by rewrite drop_nil, take_nil, app_nil_r. }
  cbn [read_parts concat] in *. rewrite length_app in Hu. simpl in Hlen.
  replace (sat_addu64 base len) with (base + len) by (unfold sat_addu64; lia).
  unfold mbind, M_bind, mret, M_ret. destruct (Z.ltb_spec (Z.max off base) (Z.min want_end (base + len))) as [Hab|Hab].
  - destruct (read_range _ _ _ _ _ b) as [b1 [bs|]] eqn:Er; [|done].
    apply (read_range_ok object) in Er as (o' & Ho' & Hl & ->); [|lia..]. simpl in Hk. rewrite Hk in Ho'.
    injection Ho' as <-. destruct (Z.leb_spec want_end (Z.min want_end (base + len))) as [Hw|Hw].
    + intros E; injection E as <- <-. rewrite slice_app_l by lia. do 2 f_equal. lia.
    + intros E. apply IH in E; [|lia..]. rewrite E, <- app_assoc. rewrite slice_app_mid by lia.
      f_equal. do 2 f_equal; lia.
  - destruct (Z.leb_spec want_end (Z.min want_end (base + len))) as [Hw|Hw].
    + intros E; injection E as <- <-. by rewrite slice_empty, app_nil_r by lia.
    + intros E. apply IH in E; [|lia..]. rewrite E. rewrite slice_app_r by lia. do 2 f_equal; lia.
Qed.
Lemma source_read_ok s c off n b b' r :
  content s c -> Z.of_nat (length c) <= u64_max -> 0 <= off -> 0 <= n -> off + n <= u64_max ->
  source_read B charge1 s off n b = (b', Ok r) -> r = slice c off n /\ Z.of_nat (length r) = n.
Proof.
  intros Hc Hu Ho Hn Hon. destruct s as [k|parts]; simpl in *.
  - unfold read_range, bcharge, mbind, M_bind, lift, mret, M_ret, fail.
    destruct (charge1 b) as [? [[]|]]; [|done]. destruct (range_get k off n) as [[bs|]|] eqn:E; try done.
    apply range_get_slice in E as (o & Hk & ->); [|done..]. rewrite Hc in Hk. injection Hk as <-.
    case_match eqn:E2; [|done]. intros E; injection E as <- <-. split; [done|lia].
  - destruct Hc as (os & F & ->). unfold mbind, M_bind, mret, M_ret.
    destruct (read_parts _ _ _ _ _ _ _ b) as [b1 [x|]] eqn:E; [|done].
    apply (read_parts_ok _ os) in E; [|done|lia..]. case_match eqn:E2; [|done].
    intros E3; injection E3 as <- <-. split; [|lia]. rewrite E. unfold sat_addu64.
    rewrite (Z.max_l off 0) by lia. rewrite Z.min_r by lia. simpl. f_equal; lia.
Qed.

(** The buffer is a stretch of the pack. *)
Definition window_ok (c : list Z) (w : Window) : Prop :=
  content (wn_src w) c /\ wn_pack_len w = Z.of_nat (length c) /\ 0 <= wn_start w /\
  wn_buf w = slice c (wn_start w) (Z.of_nat (length (wn_buf w))).

Lemma window_entry_ok c w b offset hlen clen s' r :
  window_ok c w -> Z.of_nat (length c) <= u64_max -> 0 <= offset <= u64_max -> 0 < hlen -> 0 <= clen ->
  window_entry B charge1 offset hlen clen (w, b) = (s', r) ->
  window_ok c s'.1 /\ forall bs, r = Ok bs -> bs = slice c offset (hlen + clen).
Proof.
  intros Hw Hu Ho Hh Hc. destruct Hw as (H1 & H2 & H3 & H4) eqn:Ew. clear Ew.
  unfold window_entry. cbn [fst snd]. case_match eqn:El; [intros E; injection E as <- <-; done|].
  unfold MAX_ENTRY_WIRE in El. assert (sat_addu64 hlen clen = hlen + clen) as Es
    by (unfold sat_addu64, u64_max in *; lia). rewrite Es in *. clear Es.
  destruct ((wn_start w <=? offset) && _) eqn:E1.
  - apply andb_true_iff in E1 as [E1 E2]. case_match eqn:E3; intros E; injection E as <- <-; (split; [done|]);
      intros bs E4; [|done]. injection E4 as <-. rewrite H4 at 1. rewrite slice_slice by lia. f_equal; lia.
  - destruct (source_read _ _ _ _ _ b) as [b1 [x|e]] eqn:Er; [|intros E; injection E as <- <-; done].
    apply (source_read_ok _ c) in Er as [-> Hl]; [|done|done|lia| |unfold sat_subu64; rewrite H2; lia].
    2: unfold sat_subu64; lia.
    case_match eqn:E3; intros E; injection E as <- <-; (split; [split_and!; simpl; [done|done|lia|by rewrite Hl]|]);
      intros bs E4; [|done]. injection E4 as <-. simpl in *. rewrite slice_slice by lia. f_equal; lia.
Qed.

(** staging in parts and the sliding window change nothing.  A window over
    any source returns for an entry exactly the bytes of the pack at its offset,
    and stays a window over that pack, whatever entries were read before. *)
Theorem window_transparent c w b offset hlen clen w' b' bs :
  window_ok c w -> Z.of_nat (length c) <= u64_max -> 0 <= offset <= u64_max -> 0 < hlen -> 0 <= clen ->
  window_entry B charge1 offset hlen clen (w, b) = ((w', b'), Ok bs) ->
  bs = slice c offset (hlen + clen) /\ window_ok c w'.
Proof.
  intros Hw Hu Ho Hh Hc E. destruct (window_entry_ok c w b offset hlen clen _ _ Hw Hu Ho Hh Hc E) as [H1 H2].
  split; [by apply H2|done].
Qed.
End Staged.

(** ** Load groups *)

Definition sizes (c : list (string * ObjLoc)) : Z := foldr (fun l n => lc_size l.2 + n) 0 c.
Definition group_ok (c : list (string * ObjLoc)) : Prop :=
  (length c <= SPANS)%nat /\ ((length c <= 1)%nat \/ sizes c <= LOAD).
Lemma sizes_snoc c x : sizes (c ++ [x]) = sizes c + lc_size x.2.
Proof. unfold sizes. induction c as [|y c IH]; simpl; [lia|]. rewrite IH. lia. Qed.
Lemma chunks_loop_concat cur bytes l : concat (chunks_loop cur bytes l) = cur ++ l.
Proof.
  revert cur bytes; induction l as [|x l IH]; intros cur bytes; cbn [chunks_loop].
  - rewrite app_nil_r. destruct cur; [done|]. cbn [concat]. by rewrite app_nil_r.
  - destruct (_ || _); [cbn [concat]; by rewrite IH|]. by rewrite IH, <- app_assoc.
Qed.
Lemma chunks_loop_ok cur bytes l :
  Forall (fun x => 0 <= lc_size x.2) (cur ++ l) -> group_ok cur -> bytes = Z.min u64_max (sizes cur) ->
  Forall group_ok (chunks_loop cur bytes l).
Proof.
  revert cur bytes; induction l as [|x l IH]; intros cur bytes Hs Hg Hb; cbn [chunks_loop].
  { destruct cur; by constructor. }
  assert (0 <= lc_size x.2) as Hx by (apply Forall_app in Hs as [_ Hs]; by apply Forall_cons in Hs as [? _]).
  destruct (_ || _) eqn:E.
  - constructor; [done|]. apply IH.
    + by apply Forall_app in Hs as [_ Hs].
    + split; [simpl; unfold SPANS; lia|left; done].
    + unfold sizes, sat_addu64. simpl. f_equal. lia.
  - apply orb_false_iff in E as [E1 E2]. apply Nat.leb_gt in E1. apply Z.ltb_ge in E2.
    unfold sat_addu64, LOAD, u64_max in *.
    apply IH.
    + by rewrite <- app_assoc.
    + split; [rewrite length_app; simpl; lia|right]. rewrite sizes_snoc. unfold LOAD. lia.
    + rewrite sizes_snoc. unfold u64_max. lia.
Qed.
(** gc's loads are grouped without loss: in order, nothing dropped or read
    twice, at most [SPANS] entries a group, and at most [LOAD] bytes unless the
    group is one object. *)
Theorem chunks_partition loads :
  Forall (fun x => 0 <= lc_size x.2) loads ->
  concat (chunks loads) = loads /\ Forall group_ok (chunks loads).
Proof.
  intros Hs. split; [apply chunks_loop_concat|]. apply (chunks_loop_ok [] 0); [done| |done].
  split; [unfold SPANS; simpl; lia|left; simpl; lia].
Qed.

(** ** A bucket of two objects *)

Module Bucket.
Definition p1 : list Z := [0; 1; 2; 3; 4; 5; 6; 7; 8; 9].
Definition p2 : list Z := [10; 11; 12; 13].
Definition object (k : string) : option (list Z) :=
  if String.eqb k (key_pack "r" "p1") then Some p1
  else if String.eqb k (key_pack "r" "p2") then Some p2 else None.
#[local] Instance r2 : R2 := {| range_get k off len := Ok (option_map (fun o => slice o off len) (object k)) |}.
#[local] Instance r2_laws : R2Laws object.
Proof.
  intros key off len bs _ _ E. simpl in E. destruct (object key) as [o|]; [|done].
  injection E as <-. by exists o.
Qed.
(** A budget of whole requests. *)
Definition charge1 (b : nat) : nat * result Error unit := (S b, Ok tt).
#[local] Instance serves : Serves object nat charge1.
Proof. split; [intros b; by exists (S b)|]. intros key off len o Ho _ _ _. simpl. by rewrite Ho. Qed.
Definition at_loc (sha pack : string) (off len : Z) : string * ObjLoc := (sha, mkLoc pack 0 off len Blob len).
Definition locs : list (string * ObjLoc) := [at_loc "c" "p2" 1 2; at_loc "b" "p1" 5 3; at_loc "a" "p1" 2 4].
Definition answer : list (string * list Z) := [("a", [2; 3; 4; 5]); ("b", [5; 6; 7]); ("c", [11; 12])].

Lemma read_answer : read_entries nat charge1 "r" locs 0%nat = (2%nat, Ok answer).
Proof. vm_compute. reflexivity. Qed.
Lemma locs_ok : Forall loc_ok locs.
Proof. repeat constructor; unfold loc_ok, u64_max; simpl; lia. Qed.
Lemma locs_placed : Forall (fun l => placed object "r" l /\ lc_len l.2 <= MAX_READ) locs.
Proof.
  pose proof locs_ok as H. unfold locs in *. repeat apply Forall_cons in H as [? H].
  repeat constructor; try done; try (eexists; split; [vm_compute; reflexivity|simpl; lia]).
Qed.

Lemma read_entries_exact_witness : exists ls, ls ≡ₚ locs /\ Forall2 (entry_at object "r") ls answer.
Proof. exact (read_entries_exact object nat charge1 "r" locs 0%nat 2%nat answer locs_ok read_answer). Defined.
Lemma read_chunked_complete_witness :
  exists b' out ls, read_entries_chunked nat charge1 "r" locs 0%nat = (b', Ok (Some out)) /\
    ls ≡ₚ locs /\ Forall2 (entry_at object "r") ls out.
Proof. exact (read_chunked_complete object nat charge1 "r" locs 0%nat locs_placed). Defined.

Definition src : Source := SParts [(key_pack "r" "p1", 10); (key_pack "r" "p2", 4)].
Definition w0 : Window := mkWindow src 14 0 [].
Definition w1 : Window := mkWindow src 14 8 [8; 9; 10; 11; 12; 13].
Lemma w0_ok : window_ok object (p1 ++ p2) w0.
Proof.
  split_and!; [|done..]. exists [p1; p2]. split; [|done].
  repeat constructor.
Qed.
Lemma window_run : window_entry nat charge1 8 1 3 (w0, 0%nat) = ((w1, 2%nat), Ok [8; 9; 10; 11]).
Proof. vm_compute. reflexivity. Qed.
Lemma window_transparent_witness :
  [8; 9; 10; 11] = slice (p1 ++ p2) 8 (1 + 3) /\ window_ok object (p1 ++ p2) w1.
Proof.
  apply (window_transparent object nat charge1 (p1 ++ p2) w0 0%nat 8 1 3 w1 2%nat);
    [exact w0_ok|vm_compute; discriminate|split; vm_compute; discriminate|done|done|exact window_run].
Defined.
Lemma chunks_partition_witness : concat (chunks locs) = locs /\ Forall group_ok (chunks locs).
Proof. apply chunks_partition. repeat constructor; simpl; lia. Defined.
End Bucket.
