(* ===== verification/Mark.v ===== *)
(** * The mark

    [gc_mark], [walk_step], [commit_ids], [phase_fence], [delta_round],
    [pending_page] and the barrier handoff of [server/src/jobs/gc.rs], and
    [extract_links] of [server/src/pack/ingest.rs].

    The walk reads objects from R2 and the store is open to other requests while
    it waits.  [Await] is one such wait: given the time and the locations of a
    chunk it answers with the entries, the time and whether the slice budget is
    spent, and it may change the store in any way; what the other handlers are
    allowed to do is a hypothesis of the theorems, not of the definitions.  One
    synchronous span lies between two waits and its time does not move. *)
From S2P Require Import Prelude Errors Db Jobs Cohort GcBase Compact Refs Push Sha Writer Reads.
Open Scope Z_scope.

(** gix_object's readers: the tree and parents of a commit, the entries of a tree
    (whether an entry is a gitlink, and its id), the target of a tag. *)
Class GitObjects : Type := {
  commit_tree_id : HashKind -> list Z -> result string string;
  commit_parent_ids : HashKind -> list Z -> list string;
  tree_entries : HashKind -> list Z -> list (result string (bool * string));
  tag_target : HashKind -> list Z -> result string string
}.

Section Mark.
Context `{Platform} `{PackCodec} `{GitObjects}.

(** ** Object references *)

Definition unpack_err {A} (r : result string A) : result Error A :=
  match r with Ok a => Ok a | Err m => Err (Unpack m) end.
Definition extract_links (kind : Kind) (data : list Z) (obj_kind : HashKind) : result Error (list string) :=
  match kind with
  | Commit => t ← unpack_err (commit_tree_id obj_kind data); Ok (t :: commit_parent_ids obj_kind data)
  | Tree => es ← collect unpack_err (tree_entries obj_kind data);
            Ok (map snd (List.filter (fun e : bool * string => negb e.1) es))
  | Tag => t ← unpack_err (tag_target obj_kind data); Ok [t]
  | Blob => Ok []
  end.

(** ** The fence *)

Definition phase_fence (now : Z) (job : Job) (chain want_phase : option string) : DoM bool :=
  c ← meta_opt "gc.chain";
  if negb (bool_decide (c = chain)) then mret false
  else p ← meta_opt "gc.phase";
       if negb (bool_decide (p = want_phase)) then mret false
       else hb ← heartbeat now job;
            if (hb : bool) then mret true else fail stale_lease.
Definition mark_fence (now : Z) (job : Job) (chain : option string) : DoM bool := phase_fence now job chain None.

(** [CAST(value AS INTEGER)+1]. *)
Definition delta_round : DoM unit := modify (on_meta (fun m =>
  insert "gc.delta_rounds"
    (match m !! "gc.delta_rounds" with Some v => z_to_string (sql_int v + 1) | None => "1" end) m)).

(** ** Admission to the frontier

    One row of the two inserts: the barrier's upsert keeps the least
    generation, the legacy insert ignores a row that is there. *)
Definition admit_one (merge : Z -> Z) (gen : Z) (seen : gset string) (m : gmap string Z) (s : string) : gmap string Z :=
  if bool_decide (s ∈ seen) then m
  else insert s (match m !! s with Some g => merge g | None => gen end) m.
Definition admit_all (merge : Z -> Z) (gen : Z) (shas : list string) (d : Db) : Db :=
  on_frontier (fun m => fold_left (admit_one merge gen (t_seen d)) shas m) d.
Definition upsert_gen (gen : Z) : list string -> Db -> Db := admit_all (fun g => Z.min g gen) gen.
Definition insert_gen0 : list string -> Db -> Db := admit_all (fun g => g) 0.

(** ** One pending page *)

Definition page_rows (d : Db) (pack : string) (lo hi : Z) : list (string * ObjSql) :=
  merge_sort row_le (List.filter (fun r => (lo <? ob_idx r.2) && (ob_idx r.2 <=? hi) && negb (ob_kind r.2 =? 3))
                       (pack_rows d pack)).
Definition drop_dead_pending (d : Db) : Db :=
  on_pending (List.filter (fun r => pack_live d (pd_pack r))) d.
Definition set_cursor (seq cursor : Z) (d : Db) : Db :=
  on_pending (map (fun r => if pd_seq r =? seq then mkPending (pd_seq r) (pd_pack r) cursor else r)) d.
(** [ORDER BY seq LIMIT 1]: AUTOINCREMENT rows are listed in [seq] order. *)
Definition first_pending (d : Db) : option PendingSql := head (t_pending d).
(** A full page resumes at its last row; a short one has covered its window. *)
Definition page_cursor (limit hi : Z) (page : list (string * ObjSql)) : Z :=
  if limit <=? Z.of_nat (length page) then match last page with Some r => ob_idx r.2 | None => hi end else hi.
Definition pending_page (now : Z) (job : Job) (chain want_phase : option string) : DoM bool :=
  n ← gets (fun d => length (t_pending d));
  if (n =? 0)%nat then mret true
  else
    f ← phase_fence now job chain want_phase;
    if negb f then mret false
    else
      modify drop_dead_pending ≫= fun _ =>
      row ← gets first_pending;
      match row with
      | None => delta_round ≫= fun _ => mret true
      | Some row =>
          window ← gets (fun d => Z.max 1 (unwrap_or 50000 (knob d "pending_window")));
          limit ← gets (fun d => Z.max 1 (unwrap_or 5000 (knob d "pending_page")));
          let hi := sat_add64 (pd_cursor row) window in
          page ← gets (fun d => take (Z.to_nat limit) (page_rows d (pd_pack row) (pd_cursor row) hi));
          modify (upsert_gen 1 (map fst page)) ≫= fun _ =>
          failpoint "gc.mark.page.after_frontier" ≫= fun _ =>
          let cursor := page_cursor limit hi page in
          modify (set_cursor (pd_seq row) cursor) ≫= fun _ =>
          failpoint "gc.mark.page.after_cursor" ≫= fun _ =>
          top ← gets (fun d => max_idx (pack_rows d (pd_pack row)));
          (if negb (limit <=? Z.of_nat (length page)) && (top <=? cursor)
           then modify (on_pending (List.filter (fun r => negb (pd_seq r =? pd_seq row))))
           else mret tt) ≫= fun _ =>
          delta_round ≫= fun _ => mret true
      end.

(** ** Committing an expansion *)

(** [resize] to the longer, then byte-wise or. *)
Fixpoint or_bits (bm old : list Z) : list Z :=
  match bm, old with
  | [], _ => old
  | _, [] => bm
  | a :: bm', b :: old' => Z.lor a b :: or_bits bm' old'
  end.
Abbreviation Bits := (gmap string (list Z)).
Definition flush_one (d : Db) (e : string * list Z) : Db :=
  on_marked (alter (fun r => mkMarked (or_bits e.2 (mk_bitmap r)) (mk_built r)) e.1) d.
(** [bits.drain()]: each touched bitmap is merged into its row, if it is there. *)
Definition flush_bits (bits : Bits) (d : Db) : Db := fold_left flush_one (map_to_list bits) d.
Definition has_live_row (d : Db) (s : string) : bool := match live_rows d s with [] => false | _ => true end.
Definition drop_frontier (p : string -> bool) (d : Db) : Db :=
  on_frontier (filter (fun kv => p kv.1 = false)) d.
Definition commit_ids (ids misses kids : list string) (bits : Bits) (gen : Z) (barrier : bool) : DoM unit :=
  modify (flush_bits bits) ≫= fun _ =>
  failpoint "gc.mark.commit_ids.after_bits" ≫= fun _ =>
  modify (on_seen (fun s => s ∪ list_to_set ids)) ≫= fun _ =>
  failpoint "gc.mark.commit_ids.after_seen" ≫= fun _ =>
  modify (if barrier then upsert_gen gen kids else insert_gen0 kids) ≫= fun _ =>
  failpoint "gc.mark.commit_ids.after_kids" ≫= fun _ =>
  modify (drop_frontier (fun s => bool_decide (s ∈ ids))) ≫= fun _ =>
  if barrier
  then modify (fun d => drop_frontier (fun s => bool_decide (s ∈ misses) && negb (has_live_row d s)) d)
  else mret tt.

(** ** Span A: pop a batch, plan the marks and the loads *)

Definition ROUND : nat := 512.
Definition min_frontier_gen (d : Db) : option Z :=
  fold_right (fun kv acc => opt_min (Some kv.2) acc) None (map_to_list (t_frontier d)).
(** [LIMIT] with no [ORDER BY]: some rows; with the barrier, of the least generation. *)
Definition pop_batch (barrier : bool) (d : Db) : list string * Z :=
  if barrier then
    let rows := take ROUND (List.filter (fun kv => bool_decide (Some kv.2 = min_frontier_gen d))
                              (map_to_list (t_frontier d))) in
    (map fst rows, match rows with kv :: _ => kv.2 | [] => 0 end)
  else (map fst (take ROUND (map_to_list (t_frontier d))), 0).
Abbreviation Row := ((string * string) * ObjSql)%type.
(** One live row per id of the batch, in id order. *)
Definition batch_rows (d : Db) (batch : list string) : list Row :=
  omap (fun s => head (live_rows d s)) (merge_sort String.le batch).
Definition narrow (max : Z) (what : string) (n : Z) : result Error Z :=
  if (0 <=? n) && (n <=? max) then Ok n else Err (Internal what).
Definition to_u32 : Z -> result Error Z := narrow u32_max "idx".
(** [ObjSqlRow::loc]: the row's id and place, every column checked. *)
Definition sql_loc (r : Row) : result Error (string * ObjLoc) :=
  id ← oid r.1.1;
  idx ← to_u32 (ob_idx r.2);
  off ← narrow u64_max "negative integer in objects" (ob_offset r.2);
  len ← narrow u32_max "len" (ob_len r.2);
  k ← narrow 255 "kind" (ob_kind r.2);
  kind ← kind_of k;
  size ← narrow u64_max "negative integer in objects" (ob_size r.2);
  Ok (id, mkLoc r.1.2 idx off len kind size).
Definition plan_bit (d : Db) (cand : gset string) (r : Row) (bits : Bits) : result Error Bits :=
  if bool_decide (r.1.2 ∈ cand) then
    let bm := match bits !! r.1.2 with
              | Some bm => bm
              | None => match t_marked d !! r.1.2 with Some m => mk_bitmap m | None => [] end
              end in
    i ← to_u32 (ob_idx r.2);
    bm' ← bm_set bm i;
    Ok (insert r.1.2 bm' bits)
  else Ok bits.
Fixpoint plan_rows (d : Db) (cand : gset string) (rows : list Row) (bits : Bits)
  : result Error (list (string * ObjLoc) * Bits) :=
  match rows with
  | [] => Ok ([], bits)
  | r :: rows' =>
      load ← (if ob_kind r.2 =? 3 then Ok [] else l ← sql_loc r; Ok [l]);
      bits1 ← plan_bit d cand r bits;
      rest ← plan_rows d cand rows' bits1;
      Ok (load ++ rest.1, rest.2)
  end.

(** ** Span B: the links of a chunk's entries *)

Definition KIDS : Z := 50000.
(** A chunk with too many links flushes what it has gathered. *)
Fixpoint admit_entries (barrier : bool) (gen : Z) (entries : list (string * list Z)) (kids : list string) (bits : Bits)
  : DoM (list string * Bits) :=
  match entries with
  | [] => mret (kids, bits)
  | e :: entries' =>
      lift (decode_entry e.2) ≫= fun o : Kind * list Z =>
      hash ← gets obj_kind;
      ls ← lift (extract_links o.1 o.2 hash);
      let kids' := kids ++ ls in
      if KIDS <? Z.of_nat (length kids')
      then commit_ids [] [] kids' bits gen barrier ≫= fun _ => admit_entries barrier gen entries' [] ∅
      else admit_entries barrier gen entries' kids' bits
  end.

Abbreviation Await := (Z -> list (string * ObjLoc) -> DoM (Z * bool * list (string * list Z))).
Inductive Step : Type := SDone | SEmpty | SStepped.
(** The clock and the budget after a step. *)
Record Tick : Type := mkTick { tk_now : Z; tk_spent : bool }.

Section Walk.
Context (await : Await) (job : Job) (chain want_phase : option string) (barrier : bool).
Definition is_mark : bool := negb (is_some want_phase).

(** The chunk loop; [None]: a fence failed.  The bits still unflushed are its
    answer. *)
Fixpoint walk_chunks (gen : Z) (cs : list (list (string * ObjLoc))) (bits : Bits) (t : Tick)
  : DoM (option (Bits * Tick)) :=
  match cs with
  | [] => mret (Some (bits, t))
  | chunk :: cs' =>
      await (tk_now t) chunk ≫= fun r : Z * bool * list (string * list Z) =>
      failpoint (if is_mark then "gc.mark.after_read" else "gc.drain.after_read") ≫= fun _ =>
      f ← phase_fence r.1.1 job chain want_phase;
      if negb f then mret None
      else
        admit_entries barrier gen r.2 [] bits ≫= fun kb : list string * Bits =>
        commit_ids (map fst chunk) [] kb.1 kb.2 gen barrier ≫= fun _ =>
        (if is_mark then failpoint "gc.mark.after_commit" else mret tt) ≫= fun _ =>
        if r.1.2 then mret (Some (∅, mkTick r.1.1 r.1.2))
        else walk_chunks gen cs' ∅ (mkTick r.1.1 r.1.2)
  end.
(** Blobs and ids with no live row: nothing to read. *)
Definition commit_rest (gen : Z) (rest live : list string) (bits : Bits) (t : Tick) : DoM (Step * Bits) :=
  match rest with
  | [] => mret (SStepped, bits)
  | _ =>
      f ← phase_fence (tk_now t) job chain want_phase;
      if negb f then mret (SDone, bits)
      else
        (if barrier
         then commit_ids (List.filter (fun s => bool_decide (s ∈ live)) rest)
                (List.filter (fun s => negb (bool_decide (s ∈ live))) rest) [] bits gen true
         else commit_ids rest [] [] bits 0 false) ≫= fun _ =>
        (if is_mark then failpoint "gc.mark.after_commit" else mret tt) ≫= fun _ => mret (SStepped, ∅)
  end.
(** The generation-1 pop is a delta round, counted under the fence. *)
Definition count_round (gen : Z) (t : Tick) : DoM bool :=
  if barrier && (gen =? 1) then
    f ← phase_fence (tk_now t) job chain want_phase;
    if negb f then mret false else delta_round ≫= fun _ => mret true
  else mret true.
Definition walk_step (cand : gset string) (bits : Bits) (t : Tick) : DoM (Step * Bits * Tick) :=
  ok ← (if barrier then pending_page (tk_now t) job chain want_phase else mret true);
  if negb ok then mret (SDone, bits, t)
  else
    gets (pop_batch barrier) ≫= fun b : list string * Z =>
    match b.1 with
    | [] => mret (SEmpty, bits, t)
    | _ =>
        counted ← count_round b.2 t;
        if negb counted then mret (SDone, bits, t)
        else
          rows ← gets (fun d => batch_rows d b.1);
          ((fun d => (d, plan_rows d cand rows bits)) : DoM (list (string * ObjLoc) * Bits))
            ≫= fun plan : list (string * ObjLoc) * Bits =>
          res ← walk_chunks b.2 (chunks plan.1) plan.2 t;
          match res with
          | None => mret (SDone, bits, t)
          | Some (bits', t') =>
              let rest := List.filter (fun s => negb (bool_decide (s ∈ map fst plan.1))) b.1 in
              st ← commit_rest b.2 rest (map (fun r : Row => r.1.1) rows) bits' t';
              mret (st, t')
          end
    end.
End Walk.

(** ** The slice: guards, init, loop *)

Definition mark_guard (now : Z) : DoM (option SliceOutcome) :=
  legacy ← legacy_chain;
  if (legacy : bool) then out ← abort now; mret (Some out)
  else
    compact ← gets (fun d => meta_is d "gc.mode" "compact");
    held ← (if (compact : bool) then
              o ← orphaned;
              if (o : bool) then orphan_abort now ≫= fun _ => mret None
              else mret (Some (Reschedule (add64 now gc_quiet_ms)))
            else mret None);
    match held with
    | Some out => mret (Some out)
    | None =>
        late ← gets (fun d => meta_is d "gc.phase" "build" || meta_is d "gc.phase" "sweep");
        if negb late then mret None
        else
          barrier ← barrier_active;
          if (barrier : bool) then
            o ← orphaned;
            if (o : bool) then orphan_abort now ≫= fun _ => mret None
            else mret (Some (Reschedule (add64 now gc_quiet_ms)))
          else
            moved ← refs_frozen_moved;
            if (moved : bool) then out ← abort now; mret (Some out) else mret (Some Done)
    end.

Definition candidate (cutoff : Z) (r : PackSql) : bool :=
  bool_decide (pk_state r = Live) && (pk_created r <? cutoff).
(** [zeroblob((count+7)/8)], in SQL's truncating division. *)
Definition zero_bitmap (count : Z) : list Z := repeat 0 (Z.to_nat (Z.quot (count + 7) 8)).
Definition seed_marked (cutoff : Z) (d : Db) : Db :=
  on_marked (fun m => m ∪ omap (fun r => if candidate cutoff r then Some (mkMarked (zero_bitmap (pk_count r)) None)
                                         else None) (t_packs d)) d.
Definition seed_one (m : gmap string Z) (s : string) : gmap string Z :=
  match m !! s with Some _ => m | None => insert s 0 m end.
Definition seed_frontier (shas : list string) (d : Db) : Db := on_frontier (fun m => fold_left seed_one shas m) d.
Definition roots (d : Db) : list string :=
  map (fun kv => rf_target kv.2) (map_to_list (t_refs d))
  ++ omap (fun kv => rf_peeled kv.2) (map_to_list (t_refs d))
  ++ map (fun kv => pin_target kv.2) (map_to_list (t_pins d)).
Definition young_row (d : Db) (kv : (string * string) * ObjSql) : bool :=
  pack_live d kv.1.2 && negb (ob_kind kv.2 =? 3) && negb (in_marked d kv.1.2).
Definition young_ids (d : Db) : list string :=
  map (fun kv => kv.1.1) (List.filter (young_row d) (map_to_list (t_objects d))).
Definition mark_init (now : Z) (hex : string) : DoM (option SliceOutcome) :=
  busy ← gets (fun d => existsb busy_row (t_jobs d));
  if (busy : bool) then mret (Some (Reschedule (add64 now gc_quiet_ms)))
  else
    modify wipe_scratch ≫= fun _ =>
    modify wipe_gc_meta ≫= fun _ =>
    put "gc.chain" hex ≫= fun _ =>
    v ← meta "refs_version";
    put "gc.refs_version" v ≫= fun _ =>
    barrier ← gets barrier_capture;
    cutoff ← gets (fun d => unwrap_or (sat_sub64 now gc_grace_ms) (knob d "gc_candidate_before_ms"));
    modify (seed_marked cutoff) ≫= fun _ =>
    n ← gets count_marked;
    if n =? 0 then wipe_all now ≫= fun _ => mret (Some Done)
    else
      modify (fun d => seed_frontier (roots d) d) ≫= fun _ =>
      modify (fun d => seed_frontier (young_ids d) d) ≫= fun _ =>
      put "gc.started_at" (z_to_string now) ≫= fun _ =>
      failpoint "gc.mark.init_barrier" ≫= fun _ =>
      (if (barrier : bool) then put "gc.barrier" "1" else mret tt) ≫= fun _ =>
      failpoint "gc.mark.init" ≫= fun _ => mret None.

Definition barrier_handoff_if_ready (now : Z) (job : Job) (chain : option string) (min_gen : option Z)
  : DoM (option SliceOutcome) :=
  if match min_gen with None => false | Some g => g <? 1 end then mret None
  else
    f ← mark_fence now job chain;
    if negb f then mret (Some Done)
    else
      pending_n ← gets (fun d => length (t_pending d));
      rounds ← gets (fun d => unwrap_or 0 (t_meta d !! "gc.delta_rounds" ≫= parse_i64));
      cap ← gets (fun d => unwrap_or 8 (knob d "mark_delta_rounds"));
      let both_empty := (pending_n =? 0)%nat && negb (is_some min_gen) in
      ready ← (if both_empty then mret true else if cap <=? rounds then refs_moved else mret false);
      if (ready : bool) then
        payload ← chain_payload;
        enqueue GcConsolidate now payload ≫= fun _ =>
        put "gc.phase" "build" ≫= fun _ => mret (Some Done)
      else mret None.

(** The legacy handoff: an empty frontier is the only one. *)
Definition legacy_handoff (now : Z) : DoM SliceOutcome :=
  modify (on_seen (fun _ => ∅)) ≫= fun _ =>
  payload ← chain_payload;
  enqueue GcConsolidate now payload ≫= fun _ =>
  put "gc.phase" "build" ≫= fun _ => mret Done.

Section Loop.
Context (await : Await) (job : Job) (chain : option string) (barrier : bool) (cand : gset string).
(** [None]: [fuel] turns did not end the slice. *)
Fixpoint mark_loop (fuel : nat) (bits : Bits) (t : Tick) : DoM (option SliceOutcome) :=
  match fuel with
  | O => mret None
  | S fuel' =>
      if tk_spent t then mret (Some (Continue "{}"))
      else
        moved ← (if barrier then mret false else refs_moved);
        if (moved : bool) then
          f ← mark_fence (tk_now t) job chain;
          if negb f then mret (Some Done) else out ← abort (tk_now t); mret (Some out)
        else
          handed ← (if barrier then g ← gets min_frontier_gen; barrier_handoff_if_ready (tk_now t) job chain g
                    else mret None);
          match handed with
          | Some out => mret (Some out)
          | None =>
              walk_step await job chain None barrier cand bits t ≫= fun r : Step * Bits * Tick =>
              match r.1.1 with
              | SDone => mret (Some Done)
              | SStepped => mark_loop fuel' r.1.2 r.2
              | SEmpty =>
                  f ← mark_fence (tk_now r.2) job chain;
                  if negb f then mret (Some Done)
                  else if barrier then mark_loop fuel' r.1.2 r.2
                  else out ← legacy_handoff (tk_now r.2); mret (Some out)
              end
          end
  end.
End Loop.

Definition gc_mark (fuel : nat) (await : Await) (job : Job) (hex : string) (t : Tick) : DoM (option SliceOutcome) :=
  g ← mark_guard (tk_now t);
  match g with
  | Some out => mret (Some out)
  | None =>
      started ← meta_opt "gc.started_at";
      i ← (if is_some started then mret None else mark_init (tk_now t) hex);
      match i with
      | Some out => mret (Some out)
      | None =>
          cand ← gets (fun d => dom (t_marked d));
          barrier ← barrier_active;
          chain ← meta_opt "gc.chain";
          mark_loop await job chain barrier cand fuel ∅ t
      end
  end.
End Mark.
