(* ===== verification/MarkFacts.v ===== *)
(** * The mark is a snapshot that never misses an object

    The invariant of a barrier chain's mark, in the manner of an incremental
    collector: every ref target and every link of an expanded object is
    [covered] (expanded, waiting in the frontier, waiting in a pending page, not
    stored at all, or a leaf of a pack the chain will not retire), and every
    expanded object is [kept] (held outside the cohort, or its mark bit is set).
    The walk preserves it on every path, errors and crashes included, whatever
    the other handlers do while it waits for R2 within the stated limits. *)
From S2P Require Import Prelude Errors Db Jobs Cohort GcBase Compact Refs Push Sha Writer Reads Mark.
Open Scope Z_scope.

(** ** Bitmaps *)

Lemma bm_get_or a b i : bm_get (or_bits a b) i = bm_get a i || bm_get b i.
Proof.
  unfold bm_get. generalize (Z.to_nat (i / 8)) as k. revert b.
  induction a as [|x a IH]; intros [|y b] [|k]; simpl; rewrite ?orb_false_r; try done.
  apply Z.lor_spec.
Qed.
Definition merged (bits : gmap string (list Z)) (p : string) (r : MarkedSql) : MarkedSql :=
  match bits !! p with Some bm => mkMarked (or_bits bm (mk_bitmap r)) (mk_built r) | None => r end.
Lemma flush_list_lookup (l : list (string * list Z)) d p :
  NoDup l.*1 -> t_marked (fold_left flush_one l d) !! p = merged (list_to_map l) p <$> t_marked d !! p.
Proof.
  revert d; induction l as [|[q bm] l IH]; intros d Hn.
  { unfold merged. cbn [list_to_map foldr fold_left]. rewrite lookup_empty. by destruct (t_marked d !! p). }
  apply NoDup_cons in Hn as [Hq Hn]. cbn [fold_left list_to_map]. rewrite IH by done.
  unfold merged. cbn [t_marked flush_one on_marked fst snd list_to_map foldr]. destruct (decide (p = q)) as [->|Hne].
  - rewrite lookup_alter_eq. rewrite lookup_insert_eq.
    rewrite (proj1 (not_elem_of_list_to_map l q)) by done. by destruct (t_marked d !! q).
  - rewrite lookup_alter_ne by done. by rewrite lookup_insert_ne by done.
Qed.
Lemma flush_list_frame (l : list (string * list Z)) d :
  let d' := fold_left flush_one l d in
  t_meta d' = t_meta d /\ t_refs d' = t_refs d /\ t_pins d' = t_pins d /\ t_packs d' = t_packs d /\
  t_objects d' = t_objects d /\ t_frontier d' = t_frontier d /\ t_seen d' = t_seen d /\ t_pending d' = t_pending d /\
  t_pending_seq d' = t_pending_seq d.
Proof. revert d; induction l as [|e l IH]; intros d; [by split_and!|]. apply (IH (flush_one d e)). Qed.
Lemma flush_bits_lookup bits d p : t_marked (flush_bits bits d) !! p = merged bits p <$> t_marked d !! p.
Proof.
  unfold flush_bits. rewrite flush_list_lookup by apply NoDup_fst_map_to_list. by rewrite list_to_map_to_list.
Qed.
Lemma flush_bits_in_marked bits d p : in_marked (flush_bits bits d) p = in_marked d p.
Proof. unfold in_marked. rewrite flush_bits_lookup. by destruct (t_marked d !! p). Qed.
(** A bit set before stays set; a planned bit is set after. *)
Lemma merged_bit bits p r i :
  bm_get (mk_bitmap (merged bits p r)) i
  = (match bits !! p with Some bm => bm_get bm i | None => false end) || bm_get (mk_bitmap r) i.
Proof. unfold merged. destruct (bits !! p); [apply bm_get_or|done]. Qed.

(** ** Live rows *)

Lemma live_rows_spec d s p o : ((s, p), o) ∈ live_rows d s <-> t_objects d !! (s, p) = Some o /\ pack_live d p = true.
Proof.
  unfold live_rows. rewrite elem_of_filter_b, elem_of_map_to_list. simpl. rewrite String.eqb_refl. simpl. tauto.
Qed.
Lemma live_rows_sha d s kv : kv ∈ live_rows d s -> kv.1.1 = s.
Proof. unfold live_rows. rewrite elem_of_filter_b. intros [_ E]. bsimp. done. Qed.
Lemma has_live_row_iff d s : has_live_row d s = true <-> live_sha d s.
Proof.
  unfold has_live_row, live_sha. split.
  - destruct (live_rows d s) as [|[[s' p] o] l] eqn:E; [done|]. intros _.
    assert (((s', p), o) ∈ live_rows d s) as Hin by (rewrite E; left).
    pose proof (live_rows_sha _ _ _ Hin) as E2. simpl in E2. subst s'.
    apply live_rows_spec in Hin as [H1 H2]. exists p. by rewrite H1.
  - intros (p & [o Ho] & Hl). assert (((s, p), o) ∈ live_rows d s) as Hin by by apply live_rows_spec.
    destruct (live_rows d s); [by apply elem_of_nil in Hin|done].
Qed.

(** ** Admission *)

Lemma admit_dom merge gen seen l m x :
  x ∈ dom (fold_left (admit_one merge gen seen) l m) <-> x ∈ dom m \/ (x ∈ l /\ x ∉ seen).
Proof.
  revert m; induction l as [|y l IH]; intros m; simpl; [rewrite elem_of_nil; tauto|].
  rewrite IH. unfold admit_one. rewrite elem_of_cons. case_bool_decide.
  - naive_solver.
  - rewrite dom_insert. set_solver.
Qed.
Lemma admit_all_frontier merge gen l d x :
  x ∈ dom (t_frontier (admit_all merge gen l d)) <-> x ∈ dom (t_frontier d) \/ (x ∈ l /\ x ∉ t_seen d).
Proof. apply admit_dom. Qed.

(** ** The invariant *)

Section Inv.
(** The object graph: the ids an object refers to. *)
Context {PF : Platform} (links : string -> list string).

Definition young (d : Db) (s : string) : Prop :=
  exists p, is_Some (t_objects d !! (s, p)) /\ pack_live d p = true /\ in_marked d p = false.
Definition bit_set (d : Db) (s : string) : Prop :=
  exists p o m, t_objects d !! (s, p) = Some o /\ pack_live d p = true /\ 0 <= ob_idx o /\
    t_marked d !! p = Some m /\ bm_get (mk_bitmap m) (ob_idx o) = true.
Definition kept (d : Db) (s : string) : Prop := young d s \/ bit_set d s.
Definition awaits_page (d : Db) (s : string) : Prop :=
  exists r o, r ∈ t_pending d /\ t_objects d !! (s, pd_pack r) = Some o /\
    pack_live d (pd_pack r) = true /\ in_marked d (pd_pack r) = false /\ pd_cursor r < ob_idx o.
Definition covered (d : Db) (s : string) : Prop :=
  s ∈ t_seen d \/ s ∈ dom (t_frontier d) \/ awaits_page d s \/ ~ live_sha d s \/ (young d s /\ links s = []).

Record MarkInv (d : Db) : Prop := {
  mi_roots : forall s, s ∈ roots d -> is_null s = false -> covered d s;
  mi_closed : forall s c, s ∈ t_seen d -> s ∉ dom (t_frontier d) -> c ∈ links s -> covered d c;
  mi_kept : forall s, s ∈ t_seen d -> kept d s;
  mi_cohort : forall p, in_marked d p = true -> pack_live d p = true;
  mi_fresh : forall r, r ∈ t_pending d -> pack_live d (pd_pack r) = false -> pd_cursor r = -1;
  mi_seqs : NoDup (map pd_seq (t_pending d)) /\ (forall r, r ∈ t_pending d -> pd_seq r <= t_pending_seq d);
  mi_blobs : forall s p o, t_objects d !! (s, p) = Some o -> ob_kind o = 3 -> links s = [];
  mi_idxs : forall s s' p o o', t_objects d !! (s, p) = Some o -> t_objects d !! (s', p) = Some o' ->
    ob_idx o = ob_idx o' -> s = s';
  mi_idx0 : forall s p o, t_objects d !! (s, p) = Some o -> 0 <= ob_idx o;
  mi_hex : forall s p o, t_objects d !! (s, p) = Some o -> oid s = Ok s
}.

(** The tables the invariant reads. *)
Definition core (d : Db) :=
  (t_refs d, t_pins d, t_packs d, t_objects d, t_marked d, t_frontier d, t_seen d, t_pending d, t_pending_seq d).
Lemma core_covered d d' s : core d' = core d -> covered d s -> covered d' s.
Proof.
  intros [= Er Ei Ep Eo Em Ef Es En Eq]. unfold covered, awaits_page, live_sha, young, pack_live, in_marked.
  by rewrite Ep, Eo, Em, Ef, Es, En.
Qed.
Lemma core_inv d d' : core d' = core d -> MarkInv d -> MarkInv d'.
Proof.
  intros E I. pose proof E as [= Er Ei Ep Eo Em Ef Es En Eq]. split.
  - intros s Hs Hn. apply (core_covered d); [done|]. apply (mi_roots d I); [|done].
    unfold roots in *. by rewrite Er, Ei in Hs.
  - rewrite Es, Ef. intros s c Hs Hf Hc. apply (core_covered d); [done|]. by apply (mi_closed d I s).
  - rewrite Es. intros s Hs. destruct (mi_kept d I s Hs) as [H1|H1]; [left|right];
      unfold young, bit_set, pack_live, in_marked in *; by rewrite Eo, Ep, Em.
  - intros p. unfold in_marked, pack_live. rewrite Em, Ep. apply (mi_cohort d I).
  - intros r. unfold pack_live. rewrite En, Ep. apply (mi_fresh d I).
  - rewrite En, Eq. apply (mi_seqs d I).
  - rewrite Eo. apply (mi_blobs d I).
  - rewrite Eo. apply (mi_idxs d I).
  - rewrite Eo. apply (mi_idx0 d I).
  - rewrite Eo. apply (mi_hex d I).
Qed.

(** ** Coverage grows *)

(** [reach d d']: what is covered stays covered.  Packs, rows and the cohort are
    the same, seen and frontier only lose to each other, pages stay awaited. *)
Definition same_store (d d' : Db) : Prop :=
  t_packs d' = t_packs d /\ t_objects d' = t_objects d /\ (forall p, in_marked d' p = in_marked d p).
Lemma same_store_live d d' p : same_store d d' -> pack_live d' p = pack_live d p.
Proof. intros (Ep & _). unfold pack_live. by rewrite Ep. Qed.
Lemma same_store_live_sha d d' s : same_store d d' -> live_sha d' s <-> live_sha d s.
Proof.
  intros H. unfold live_sha. pose proof H as (_ & Eo & _). rewrite Eo.
  split; intros (p & H1 & H2); exists p; (split; [done|]); [by rewrite <- (same_store_live d d')|by rewrite (same_store_live d d')].
Qed.
Lemma same_store_young d d' s : same_store d d' -> young d s -> young d' s.
Proof.
  intros H (p & H1 & H2 & H3). pose proof H as (_ & Eo & Em). exists p.
  by rewrite Eo, Em, (same_store_live d d').
Qed.
Lemma covered_grow d d' s :
  same_store d d' -> (forall x, x ∈ t_seen d \/ x ∈ dom (t_frontier d) -> x ∈ t_seen d' \/ x ∈ dom (t_frontier d')) ->
  (awaits_page d s -> covered d' s) -> covered d s -> covered d' s.
Proof.
  intros Hs Hx Hp [H|[H|[H|[H|[H1 H2]]]]].
  - destruct (Hx s) as [?|?]; [by left|by left|by right; left].
  - destruct (Hx s) as [?|?]; [by right|by left|by right; left].
  - by apply Hp.
  - do 3 right. left. by rewrite (same_store_live_sha d d').
  - do 4 right. split; [by apply (same_store_young d d')|done].
Qed.
Lemma inv_grow d d' :
  MarkInv d -> same_store d d' -> t_refs d' = t_refs d -> t_pins d' = t_pins d ->
  (forall s, covered d s -> covered d' s) ->
  (forall s c, s ∈ t_seen d' -> s ∉ dom (t_frontier d') -> s ∉ t_seen d \/ s ∈ dom (t_frontier d) ->
     c ∈ links s -> covered d' c) ->
  (forall s, s ∈ t_seen d' -> kept d' s) ->
  (forall r', r' ∈ t_pending d' -> pack_live d' (pd_pack r') = false -> pd_cursor r' = -1) ->
  (NoDup (map pd_seq (t_pending d')) /\ forall r, r ∈ t_pending d' -> pd_seq r <= t_pending_seq d') -> MarkInv d'.
Proof.
  intros I Hss Er Ei Hcov Hclosed Hkept Hpend Hseq. pose proof Hss as (Ep & Eo & Em). split.
  - intros s Hs Hn. apply Hcov, (mi_roots d I); [|done]. unfold roots in *. by rewrite Er, Ei in Hs.
  - intros s c Hs Hf Hc. destruct (decide (s ∈ t_seen d)) as [H1|H1]; [|eauto].
    destruct (decide (s ∈ dom (t_frontier d))) as [H2|H2]; [eauto|]. by apply Hcov, (mi_closed d I s).
  - done.
  - intros p. rewrite Em, (same_store_live d d') by done. apply (mi_cohort d I).
  - done.
  - done.
  - rewrite Eo. apply (mi_blobs d I).
  - rewrite Eo. apply (mi_idxs d I).
  - rewrite Eo. apply (mi_idx0 d I).
  - rewrite Eo. apply (mi_hex d I).
Qed.
Lemma kept_grow d d' s :
  same_store d d' ->
  (forall p m i, t_marked d !! p = Some m -> bm_get (mk_bitmap m) i = true ->
     exists m', t_marked d' !! p = Some m' /\ bm_get (mk_bitmap m') i = true) ->
  kept d s -> kept d' s.
Proof.
  intros H Hb [Hy|(p & o & m & H1 & H2 & H3 & H4 & H5)]; [left; by apply (same_store_young d d')|right].
  destruct (Hb p m _ H4 H5) as (m' & H6 & H7). exists p, o, m'. pose proof H as (_ & Eo & _).
  by rewrite Eo, (same_store_live d d').
Qed.
Lemma awaits_page_same d d' s : same_store d d' -> t_pending d' = t_pending d -> awaits_page d s -> covered d' s.
Proof.
  intros Hs En (r & o & H1 & H2 & H3 & H4 & H5). right; right; left. exists r, o. pose proof Hs as (_ & Eo & Em).
  by rewrite En, Eo, Em, (same_store_live d d').
Qed.

Lemma kept_live d s : kept d s -> live_sha d s.
Proof. intros [(p & H1 & H2 & _)|(p & o & m & H1 & H2 & _)]; exists p; by rewrite ?H1. Qed.

Lemma admit_all_inv merge gen l d : MarkInv d -> MarkInv (admit_all merge gen l d).
Proof.
  intros I. assert (same_store d (admit_all merge gen l d)) as Hs by done.
  apply (inv_grow d); [done..| | | | |].
  - intros s. apply covered_grow; [done| |by apply awaits_page_same].
    intros x [?|?]; [by left|right]. apply admit_all_frontier. by left.
  - intros s c H1 H2 [H3|H3]; [by destruct H3|]. exfalso. apply H2, admit_all_frontier. by left.
  - intros s H1. apply (kept_grow d); [done|by eauto|]. by apply (mi_kept d I).
  - apply (mi_fresh d I).
  - apply (mi_seqs d I).
Qed.

(** ** Committing an expansion keeps the invariant *)

(** What a planned id is known to be: a live row that is outside the cohort, or
    whose bit is set in the store or in the unflushed bitmaps. *)
Definition hit (d : Db) (bits : gmap string (list Z)) (s : string) : Prop :=
  exists p o, t_objects d !! (s, p) = Some o /\ pack_live d p = true /\
    (in_marked d p = false \/ (0 <= ob_idx o /\ exists m, t_marked d !! p = Some m /\
       (bm_get (mk_bitmap m) (ob_idx o) = true \/
        exists bm, bits !! p = Some bm /\ bm_get bm (ob_idx o) = true))).
Definition tracked (d : Db) (s : string) : Prop := s ∈ t_seen d \/ s ∈ dom (t_frontier d).

Lemma flush_bits_store bits d : same_store d (flush_bits bits d).
Proof.
  destruct (flush_list_frame (map_to_list bits) d) as (_ & _ & _ & Ep & Eo & _).
  split_and!; [done|done|]. intros p. apply flush_bits_in_marked.
Qed.
Lemma flush_bits_hit bits d s : hit d bits s -> kept (flush_bits bits d) s.
Proof.
  intros (p & o & H1 & H2 & H3). destruct (flush_bits_store bits d) as (Ep & Eo & Em).
  destruct H3 as [H3|(Hi & m & Hm & Hb)]; [left|right].
  - exists p. rewrite Eo, Em, H1. unfold pack_live in *. by rewrite Ep.
  - exists p, o, (merged bits p m). unfold pack_live in *. rewrite Eo, Ep, flush_bits_lookup, Hm.
    split_and!; [done..|]. rewrite merged_bit.
    destruct Hb as [->|(bm & -> & ->)]; [apply orb_true_r|done].
Qed.
Lemma flush_bits_inv bits d : MarkInv d -> MarkInv (flush_bits bits d).
Proof.
  intros I. pose proof (flush_bits_store bits d) as Hs.
  destruct (flush_list_frame (map_to_list bits) d) as (_ & Er & Ei & _ & _ & Ef & Es & En & Eq).
  fold (flush_bits bits d) in *. apply (inv_grow d); [done..| | | | |].
  - intros s. apply covered_grow; [done| |by apply awaits_page_same]. by rewrite Ef, Es.
  - rewrite Ef, Es. by intros s c H1 H2 [H3|H3].
  - rewrite Es. intros s H1. apply (kept_grow d); [done| |by apply (mi_kept d I)].
    intros p m i Hm Hb. exists (merged bits p m). rewrite flush_bits_lookup, Hm. split; [done|].
    by rewrite merged_bit, Hb, orb_true_r.
  - rewrite En. intros r. rewrite (same_store_live d _ _ Hs). apply (mi_fresh d I).
  - rewrite En, Eq. apply (mi_seqs d I).
Qed.
Lemma add_seen_inv ids d :
  MarkInv d -> (forall s, s ∈ ids -> kept d s /\ tracked d s) ->
  MarkInv (on_seen (fun s => s ∪ list_to_set ids) d).
Proof.
  intros I Hids. set (d' := on_seen _ d). assert (same_store d d') as Hs by done.
  assert (forall s, covered d s -> covered d' s) as Hc.
  { intros s. apply covered_grow; [done| |by apply awaits_page_same]. unfold d'. cbn. set_solver. }
  assert (forall s, s ∈ t_seen d' -> s ∈ t_seen d \/ s ∈ ids) as Hin by (unfold d'; cbn; set_solver).
  apply (inv_grow d); [done..| | | |apply (mi_seqs d I)].
  - intros s c H1 H2 H3 H4. apply Hc. destruct (Hin s H1) as [H5|H5].
    + by apply (mi_closed d I s).
    + destruct (Hids s H5) as [_ [H6|H6]]; [by apply (mi_closed d I s)|by destruct H2].
  - intros s H1. apply (kept_grow d); [done|by eauto|]. destruct (Hin s H1) as [H5|H5]; [by apply (mi_kept d I)|by apply Hids].
  - apply (mi_fresh d I).
Qed.
End Inv.

(** ** The computations of the walk *)

Create HintDb gc_mark.
(** Assertions that read only the chain's tables and [gc.*] identity. *)
Definition ident (d : Db) := (core d, t_meta d !! "gc.chain", t_meta d !! "gc.phase", obj_kind d).
Definition stable_on (P : Db -> Prop) : Prop := forall d d', ident d' = ident d -> P d -> P d'.
Ltac by_fields := intros d d' E; destruct d, d'; unfold ident, core in E; simpl in E; injection E; intros; subst;
  match goal with Hp : _ |- _ => exact Hp end.

Section Walk.
Context `{PF : Platform} `{PC : PackCodec} `{GO : GitObjects}.
Context (links : string -> list string).
Abbreviation Inv := (MarkInv links).

Lemma stable_inv : stable_on Inv.
Proof. intros d d' [= ]. apply core_inv. unfold core. congruence. Qed.
Lemma failpoint_ident name d : ident (failpoint name d).1 = ident d.
Proof. unfold failpoint. repeat case_match; reflexivity. Qed.
Lemma triple_failpoint P name X :
  stable_on P -> (forall d, P d -> X d) -> triple P (failpoint name) (fun _ => P) X.
Proof.
  intros HP HX d Hd. pose proof (failpoint_ident name d) as E.
  destruct (failpoint name d) as [d1 [u|e]]; [by apply (HP d)|]. by apply HX, (HP d).
Qed.

Lemma failpoint_bind {A} P name (f : unit -> DoM A) R X :
  stable_on P -> (forall d, P d -> X d) -> triple P (f tt) R X -> triple P (failpoint name ≫= f) R X.
Proof. intros H1 H2 H3. eapply triple_bind; [by apply triple_failpoint|]. by intros []. Qed.
Lemma stable_and P Q : stable_on P -> stable_on Q -> stable_on (fun d => P d /\ Q d).
Proof. intros HP HQ d d' E [Hp Hq]. split; [by apply (HP d)|by apply (HQ d)]. Qed.
(** The ids of a batch that are still to commit, the ones whose bits are in the
    store, and a batch's links against the gathered kids. *)
Definition planned (bits : gmap string (list Z)) (L : list string) (d : Db) : Prop :=
  forall s, s ∈ L -> hit d bits s /\ tracked d s.
Definition settled (L : list string) (d : Db) : Prop := forall s, s ∈ L -> kept d s /\ tracked d s.
Definition linked (ids kids : list string) (d : Db) : Prop :=
  forall s c, s ∈ ids -> c ∈ links s -> covered links d c \/ c ∈ kids.
Definition seen_all (ids : list string) (d : Db) : Prop := forall s, s ∈ ids -> s ∈ t_seen d.
Lemma stable_planned bits L : stable_on (planned bits L).
Proof. by_fields. Qed.
Lemma stable_settled L : stable_on (settled L).
Proof. by_fields. Qed.
Lemma stable_linked ids kids : stable_on (linked ids kids).
Proof. by_fields. Qed.
Lemma stable_seen ids : stable_on (seen_all ids).
Proof. by_fields. Qed.
Hint Resolve stable_inv stable_and stable_planned stable_settled stable_linked stable_seen : gc_mark.

Lemma hit_none d s : kept d s -> hit d ∅ s.
Proof.
  intros [(p & [o Ho] & H1 & H2)|(p & o & m & H1 & H2 & H3 & H4 & H5)]; exists p, o.
  - split_and!; [done..|by left].
  - split_and!; [done..|right]. eauto.
Qed.
Lemma settled_planned L d : settled L d -> planned ∅ L d.
Proof. intros HL s Hs. destruct (HL s Hs). split; [by apply hit_none|done]. Qed.
(** The statements of [commit_ids], each from the assertion it needs. *)
Lemma flush_step bits L dn kids d :
  Inv d /\ planned bits L d /\ linked dn kids d ->
  Inv (flush_bits bits d) /\ settled L (flush_bits bits d) /\ linked dn kids (flush_bits bits d).
Proof.
  intros (I & HL & Hk). pose proof (flush_bits_store bits d) as Hs.
  destruct (flush_list_frame (map_to_list bits) d) as (_ & _ & _ & _ & _ & Ef & Es & En & _).
  fold (flush_bits bits d) in *. split_and!; [by apply flush_bits_inv| |].
  - intros s H1. destruct (HL s H1) as [H2 H3]. split; [by apply flush_bits_hit|]. unfold tracked in *. by rewrite Es, Ef.
  - intros s c H1 H2. destruct (Hk s c H1 H2) as [H3|H3]; [left|by right]. revert H3.
    apply covered_grow; [done| |by apply awaits_page_same]. by rewrite Ef, Es.
Qed.
Lemma seen_step L ids dn kids d :
  (forall s, s ∈ ids -> s ∈ L) -> Inv d /\ settled L d /\ linked dn kids d ->
  let d' := on_seen (fun s => s ∪ list_to_set ids) d in
  Inv d' /\ settled L d' /\ linked dn kids d' /\ seen_all ids d'.
Proof.
  intros Hsub (I & HL & Hk) d'. assert (same_store d d') as Hs by done. split_and!.
  - apply add_seen_inv; [done|]. intros s Hs'. by apply HL, Hsub.
  - intros s H1. destruct (HL s H1) as [H2 [H3|H3]]; (split; [done|]); [left; unfold d'; cbn; set_solver|by right].
  - intros s c H1 H2. destruct (Hk s c H1 H2) as [H3|H3]; [left|by right]. revert H3.
    apply covered_grow; [done| |by apply awaits_page_same]. unfold d'. cbn. set_solver.
  - intros s H1. unfold d'. cbn. set_solver.
Qed.
Lemma kids_step merge gen L ids dn kids d :
  Inv d /\ settled L d /\ linked dn kids d /\ seen_all ids d ->
  let d' := admit_all merge gen kids d in
  Inv d' /\ settled L d' /\ linked dn [] d' /\ seen_all ids d' /\
  (forall c, c ∈ kids -> covered links d' c).
Proof.
  intros (I & HL & Hk & Hi) d'. assert (same_store d d') as Hs by done.
  assert (forall x, x ∈ t_seen d \/ x ∈ dom (t_frontier d) -> x ∈ t_seen d' \/ x ∈ dom (t_frontier d')) as Ht.
  { intros x [?|?]; [by left|right]. apply (admit_all_frontier merge gen kids d). by left. }
  assert (forall c, c ∈ kids -> covered links d' c) as Hkids.
  { intros c Hc. destruct (decide (c ∈ t_seen d)); [by left|right; left]. apply (admit_all_frontier merge gen kids d). by right. }
  split_and!; [by apply admit_all_inv| | |done|done].
  - intros s H1. destruct (HL s H1) as [H2 H3]. split; [done|by apply Ht].
  - intros s c H1 H2. left. destruct (Hk s c H1 H2) as [H3|H3]; [|by apply Hkids]. revert H3.
    apply covered_grow; [done|done|by apply awaits_page_same].
Qed.

Lemma drop_frontier_dom P d x : x ∈ dom (t_frontier (drop_frontier P d)) <-> x ∈ dom (t_frontier d) /\ P x = false.
Proof.
  unfold drop_frontier. cbn [t_frontier on_frontier]. rewrite !elem_of_dom. split.
  - intros [g [H1 H2]%map_lookup_filter_Some]. by rewrite H1.
  - intros [[g Hg] Hp]. exists g. by apply map_lookup_filter_Some.
Qed.
(** A dropped id is expanded or has no live row; an expanded one has its links covered. *)
Lemma drop_step P L d :
  Inv d /\ settled L d ->
  (forall x, P x = true -> x ∈ t_seen d \/ ~ live_sha d x) ->
  (forall s c, P s = true -> s ∈ t_seen d -> c ∈ links s -> covered links d c) ->
  Inv (drop_frontier P d) /\ settled L (drop_frontier P d) /\
  (forall s, covered links d s -> covered links (drop_frontier P d) s).
Proof.
  intros [I HL] Hd Hl. set (d' := drop_frontier P d). assert (same_store d d') as Hs by done.
  assert (forall x, x ∈ dom (t_frontier d) -> x ∈ t_seen d \/ x ∈ dom (t_frontier d') \/ ~ live_sha d x) as Hf.
  { intros x Hx. destruct (P x) eqn:E; [destruct (Hd x E); auto|]. right; left. by apply drop_frontier_dom. }
  assert (forall s, covered links d s -> covered links d' s) as Hc.
  { intros s Hcs. destruct (decide (s ∈ t_seen d)) as [H1|H1]; [by left|].
    destruct (decide (s ∈ dom (t_frontier d))) as [H2|H2].
    - destruct (Hf s H2) as [?|[?|?]]; [done|by right; left|do 3 right; left; by rewrite (same_store_live_sha d d')].
    - destruct Hcs as [?|[?|[H3|[H3|H3]]]]; [done..| | |].
      + by apply (awaits_page_same links d d').
      + do 3 right; left; by rewrite (same_store_live_sha d d').
      + do 4 right. done. }
  split_and!; [| |done].
  - apply (inv_grow links d); [done..| | | |apply (mi_seqs _ d I)].
    + intros s c H1 H2 H3 H4. apply Hc. destruct (decide (s ∈ dom (t_frontier d))) as [H5|H5].
      * destruct (P s) eqn:E; [by apply (Hl s c)|]. destruct H2. by apply drop_frontier_dom.
      * by apply (mi_closed _ d I s).
    + intros s H1. by apply (mi_kept _ d I).
    + apply (mi_fresh _ d I).
  - intros s H1. destruct (HL s H1) as [H2 H3]. split; [done|]. destruct H3 as [H3|H3]; [by left|].
    destruct (Hf s H3) as [?|[?|H4]]; [by left|by right|]. destruct H4. by apply kept_live.
Qed.

Lemma linked_grow dn kids d d' :
  (forall s, covered links d s -> covered links d' s) -> linked dn kids d -> linked dn kids d'.
Proof. intros Hc Hl s c H1 H2. destruct (Hl s c H1 H2); [left; auto|by right]. Qed.
(** Committing an expansion.  [L] are the planned ids of the batch, [dn] those
    whose links were gathered: from planned ids whose links are covered or among
    the kids, every path keeps the invariant, and a full run settles the whole
    batch and covers the links. *)
Lemma commit_ids_keeps (ids misses kids dn : list string) bits gen L :
  (forall s, s ∈ ids -> s ∈ L) -> (forall s, s ∈ ids -> s ∈ dn) ->
  triple (fun d => Inv d /\ planned bits L d /\ linked dn kids d)
    (commit_ids ids misses kids bits gen true)
    (fun _ d => Inv d /\ settled L d /\ linked dn [] d) Inv.
Proof.
  intros Hsub Hdn. unfold commit_ids.
  apply (triple_bind _ _ (fun _ d => Inv d /\ settled L d /\ linked dn kids d));
    [apply triple_modify; intros d Hd; exact (flush_step bits L dn kids d Hd)|intros _].
  apply failpoint_bind; [auto with gc_mark|by intros d []|].
  apply (triple_bind _ _ (fun _ d => Inv d /\ settled L d /\ linked dn kids d /\ seen_all ids d));
    [apply triple_modify; intros d Hd; exact (seen_step L ids dn kids d Hsub Hd)|intros _].
  apply failpoint_bind; [auto with gc_mark|by intros d []|].
  apply (triple_bind _ _ (fun _ d => Inv d /\ settled L d /\ linked dn [] d /\ seen_all ids d)); [|intros _].
  { apply triple_modify. intros d Hd.
    destruct (kids_step (fun g => Z.min g gen) gen L ids dn kids d Hd) as (H1 & H2 & H3 & H4 & _). by split_and!. }
  apply failpoint_bind; [auto with gc_mark|by intros d []|].
  apply (triple_bind _ _ (fun _ d => Inv d /\ settled L d /\ linked dn [] d)); [|intros _].
  { apply triple_modify. intros d (I & HL & Hk & Hi).
    destruct (drop_step (fun s => bool_decide (s ∈ ids)) L d (conj I HL)) as (H1 & H2 & H3).
    - intros x Hx. bsimp. left. by apply Hi.
    - intros s c Hx _ Hc. bsimp. destruct (Hk s c (Hdn s Hx) Hc) as [?|Hn]; [done|]. by apply elem_of_nil in Hn.
    - split_and!; [done|done|]. by apply (linked_grow dn [] d). }
  apply triple_modify. intros d (I & HL & Hk).
  destruct (drop_step (fun s => bool_decide (s ∈ misses) && negb (has_live_row d s)) L d (conj I HL)) as (H1 & H2 & H3).
  - intros x Hx. bsimp. right. rewrite <- has_live_row_iff. congruence.
  - intros s c Hx Hs. bsimp. pose proof (kept_live d s (mi_kept _ d I s Hs)) as Hp%has_live_row_iff. congruence.
  - split_and!; [done|done|]. by apply (linked_grow dn [] d).
Qed.

(** ** A pending page keeps the invariant *)

Definition row_from (d : Db) (r' r : PendingSql) : Prop :=
  r ∈ t_pending d /\ pd_seq r = pd_seq r' /\ pd_pack r = pd_pack r' /\
  (pd_cursor r' = pd_cursor r \/ pack_live d (pd_pack r) = true).
Lemma row_from_self d r : r ∈ t_pending d -> row_from d r r.
Proof. intros. split_and!; [done..|by left]. Qed.
Lemma pending_inv f d :
  Inv d -> (forall s, awaits_page d s -> covered links (on_pending f d) s) ->
  (forall r', r' ∈ f (t_pending d) -> exists r, row_from d r' r) ->
  NoDup (map pd_seq (f (t_pending d))) -> Inv (on_pending f d).
Proof.
  intros I Ha Hp Hn. apply (inv_grow links d); [done..| | | | |split; [done|]].
  - intros s. apply covered_grow; [done|done|apply Ha].
  - by intros s c H1 H2 [H3|H3].
  - intros s H1. by apply (mi_kept _ d I).
  - intros r' Hr' Hl. destruct (Hp r' Hr') as (r & H1 & _ & H2 & H3). rewrite <- H2 in Hl.
    change (pack_live (on_pending f d) ?p) with (pack_live d p) in Hl.
    destruct H3 as [->|H3]; [|congruence]. by apply (mi_fresh _ d I).
  - intros r' Hr'. destruct (Hp r' Hr') as (r & H1 & <- & _). by apply (mi_seqs _ d I).
Qed.
Lemma seqs_filter (p : PendingSql -> bool) l : NoDup (map pd_seq l) -> NoDup (map pd_seq (List.filter p l)).
Proof.
  induction l as [|r l IH]; simpl; [done|]. rewrite NoDup_cons. intros [H1 H2]. destruct (p r); simpl; [|auto].
  apply NoDup_cons. split; [|auto]. intros H3. apply H1. apply list_elem_of_fmap in H3 as (x & -> & Hx).
  apply list_elem_of_fmap. exists x. split; [done|]. by apply elem_of_filter_b in Hx as [? _].
Qed.
Lemma seq_unique d r r' : Inv d -> r ∈ t_pending d -> r' ∈ t_pending d -> pd_seq r = pd_seq r' -> r = r'.
Proof.
  intros I H1 H2 E. destruct (mi_seqs _ d I) as [Hn _]. revert H1 H2 Hn. generalize (t_pending d) as l.
  induction l as [|x l IH]; [intros Hx; by apply elem_of_nil in Hx|]. simpl. rewrite !elem_of_cons, NoDup_cons.
  intros [->|H1] [->|H2] [Hx Hn]; [done| | |auto]; exfalso; apply Hx, list_elem_of_fmap; eauto.
Qed.
Lemma drop_dead_inv d : Inv d -> Inv (drop_dead_pending d).
Proof.
  intros I. apply pending_inv; [done| | |apply seqs_filter, (mi_seqs _ d I)].
  - intros s (r & o & H1 & H2 & H3 & H4 & H5). right; right; left. exists r, o. split; [|done].
    cbn. apply elem_of_filter_b. done.
  - intros r Hr. apply elem_of_filter_b in Hr as [Hr _]. exists r. by apply row_from_self.
Qed.
(** Moving the cursor leaves awaited what is past it; the rows it passes must be
    tracked, or leaves. *)
Definition passed (d : Db) (row : PendingSql) (cursor : Z) : Prop :=
  forall s o, t_objects d !! (s, pd_pack row) = Some o -> in_marked d (pd_pack row) = false ->
    pd_cursor row < ob_idx o <= cursor -> tracked d s \/ (young d s /\ links s = []).
Lemma set_cursor_inv d row cursor :
  Inv d -> row ∈ t_pending d -> pack_live d (pd_pack row) = true -> passed d row cursor -> Inv (set_cursor (pd_seq row) cursor d).
Proof.
  intros I Hrow Hlive Hp. unfold set_cursor. set (f := fun r => if pd_seq r =? pd_seq row then _ else r).
  assert (forall r, pd_pack (f r) = pd_pack r /\ pd_seq (f r) = pd_seq r) as Hf by (intros r; unfold f; by case_match).
  apply pending_inv; [done| | |].
  - intros s (r & o & H1 & H2 & H3 & H4 & H5). destruct (Z.eqb_spec (pd_seq r) (pd_seq row)) as [E|E].
    + assert (r = row) as -> by by apply (seq_unique d). destruct (Z.le_gt_cases (ob_idx o) cursor) as [Hc|Hc].
      * destruct (Hp s o H2 H4 (conj H5 Hc)) as [[?|?]|?]; [by left|by right; left|by do 4 right].
      * right; right; left. exists (f row), o. rewrite !(proj1 (Hf row)). cbn. split_and!; [|done|done|done|].
        -- apply list_elem_of_fmap. by exists row.
        -- unfold f. rewrite Z.eqb_refl. cbn. lia.
    + right; right; left. exists r, o. cbn. split; [|done]. apply list_elem_of_fmap. exists r. split; [|done].
      unfold f. by rewrite (proj2 (Z.eqb_neq _ _) E).
  - intros r' Hr'. apply list_elem_of_fmap in Hr' as (r & -> & Hr). exists r. split_and!; [done|by rewrite (proj2 (Hf r))|by rewrite (proj1 (Hf r))|].
    unfold f. destruct (Z.eqb_spec (pd_seq r) (pd_seq row)) as [E|E]; [right|by left].
    by replace r with row by by apply (seq_unique d).
  - replace (map pd_seq (map f (t_pending d))) with (map pd_seq (t_pending d)); [apply (mi_seqs _ d I)|].
    rewrite map_map. apply map_ext. intros r. symmetry. apply Hf.
Qed.
Lemma drop_row_inv d row :
  Inv d -> (forall r s o, r ∈ t_pending d -> pd_seq r = pd_seq row ->
     t_objects d !! (s, pd_pack r) = Some o -> ob_idx o <= pd_cursor r) ->
  Inv (on_pending (List.filter (fun r => negb (pd_seq r =? pd_seq row))) d).
Proof.
  intros I Hp. apply pending_inv; [done| | |apply seqs_filter, (mi_seqs _ d I)].
  - intros s (r & o & H1 & H2 & H3 & H4 & H5). destruct (Z.eqb_spec (pd_seq r) (pd_seq row)) as [E|E].
    { specialize (Hp r s o H1 E H2). lia. }
    right; right; left. exists r, o. split; [|done]. cbn. apply elem_of_filter_b. split; [done|].
    by rewrite (proj2 (Z.eqb_neq _ _) E).
  - intros r Hr. apply elem_of_filter_b in Hr as [Hr _]. exists r. by apply row_from_self.
Qed.

(** *** The page reaches the cursor it sets *)

Lemma pack_rows_spec d p s o : (s, o) ∈ pack_rows d p <-> t_objects d !! (s, p) = Some o.
Proof.
  unfold pack_rows. rewrite elem_of_map. split.
  - intros ([[s' p'] o'] & [= <- <-] & Hx). apply elem_of_filter_b in Hx as [Hx Hp]. simpl in Hp. bsimp. subst.
    by apply elem_of_map_to_list in Hx.
  - intros Ho. exists ((s, p), o). split; [done|]. apply elem_of_filter_b. simpl. rewrite String.eqb_refl.
    split; [by apply elem_of_map_to_list|done].
Qed.
Lemma page_rows_spec d p lo hi s o :
  (s, o) ∈ page_rows d p lo hi <-> t_objects d !! (s, p) = Some o /\ lo < ob_idx o <= hi /\ ob_kind o <> 3.
Proof.
  unfold page_rows. rewrite (merge_sort_Permutation row_le), elem_of_filter_b, pack_rows_spec. simpl.
  rewrite !andb_true_iff, negb_true_iff, Z.ltb_lt, Z.leb_le, Z.eqb_neq. tauto.
Qed.
#[local] Instance row_le_trans : Transitive row_le.
Proof.
  intros a b c [H1|[H1 H2]] [H3|[H3 H4]]; unfold row_le; [left; lia..|right]. split; [lia|by etrans].
Qed.
#[local] Instance row_le_total : Total row_le.
Proof.
  intros a b. unfold row_le. destruct (Z.lt_total (ob_idx a.2) (ob_idx b.2)) as [?|[E|?]]; [by left; left| |by right; left].
  destruct (total String.le a.1 b.1); [left|right]; right; split; auto.
Qed.
Lemma page_rows_sorted d p lo hi : StronglySorted row_le (page_rows d p lo hi).
Proof. apply Sorted_StronglySorted; [apply _|]. apply Sorted_merge_sort. apply _. Qed.
Lemma page_complete d row limit hi s o :
  Inv d -> 1 <= limit ->
  let page := take (Z.to_nat limit) (page_rows d (pd_pack row) (pd_cursor row) hi) in
  t_objects d !! (s, pd_pack row) = Some o -> ob_kind o <> 3 ->
  pd_cursor row < ob_idx o <= page_cursor limit hi page -> s ∈ map fst page.
Proof.
  intros I Hl page Ho Hk [Hlo Hhi]. pose proof (page_rows_sorted d (pd_pack row) (pd_cursor row) hi) as Hsort.
  set (l := page_rows d (pd_pack row) (pd_cursor row) hi) in *.
  assert (l = page ++ drop (Z.to_nat limit) l) as El by (unfold page; by rewrite take_drop).
  assert (ob_idx o <= hi -> (s, o) ∈ l) as Hin by (intros; by apply page_rows_spec).
  assert ((s, o) ∈ page -> s ∈ map fst page) as Hfst by (intros; apply elem_of_map; by exists (s, o)).
  unfold page_cursor in Hhi. destruct (Z.leb_spec limit (Z.of_nat (length page))) as [Hf|Hf].
  - destruct (last page) as [[s' o']|] eqn:Er; [|apply last_None in Er; rewrite Er in Hf; simpl in Hf; lia].
    simpl in Hhi. assert ((s', o') ∈ page) as Hr by by apply last_Some_elem_of.
    assert ((s', o') ∈ l) as Hrl by (rewrite El; apply elem_of_app; by left).
    apply page_rows_spec in Hrl as (Ho' & Hi' & _). specialize (Hin ltac:(lia)). rewrite El in Hin, Hsort.
    apply elem_of_app in Hin as [?|Hd]; [auto|].
    apply StronglySorted_app in Hsort as (Hs & _). specialize (Hs _ _ Hr Hd).
    assert (ob_idx o' = ob_idx o) as Ei by (destruct Hs as [Hs|[Hs _]]; simpl in Hs; lia).
    rewrite <- (mi_idxs _ d I s' s (pd_pack row) o' o Ho' Ho Ei). apply elem_of_map. by exists (s', o').
  - apply Hfst. rewrite El in Hin. rewrite drop_ge, app_nil_r in Hin; [auto|].
    unfold page in Hf. rewrite length_take in Hf. lia.
Qed.

(** *** The fence and the page *)

(** What a slice knows of its own chain: the cohort, the identity keys and the
    object format; no statement of the walk changes them. *)
Definition chain_view (d : Db) := (dom (t_marked d), t_meta d !! "gc.chain", t_meta d !! "gc.phase", obj_kind d).
Definition on_view (K : Db -> Prop) : Prop := forall d d', chain_view d' = chain_view d -> K d -> K d'.
Lemma view_stable K : on_view K -> stable_on K.
Proof. intros HK d d' [= ]. apply HK. unfold chain_view. congruence. Qed.
Hint Resolve view_stable : gc_mark.
Definition chained (chain want : option string) (d : Db) : Prop :=
  t_meta d !! "gc.chain" = chain /\ t_meta d !! "gc.phase" = want.
Lemma chained_view chain want : on_view (chained chain want).
Proof. intros d d' [= ]. unfold chained. congruence. Qed.
Hint Resolve chained_view : gc_mark.

Lemma phase_fence_keeps now job chain want P X :
  stable_on P -> (forall d, P d -> X d) ->
  triple P (phase_fence now job chain want) (fun ok d => P d /\ (ok = true -> chained chain want d)) X.
Proof.
  intros HP HX d Hd. unfold phase_fence, meta_opt, heartbeat, gets, mbind, M_bind, mret, M_ret, fail, chained.
  destruct (bool_decide (t_meta d !! "gc.chain" = chain)) eqn:E1; simpl; [|by split].
  destruct (bool_decide (t_meta d !! "gc.phase" = want)) eqn:E2; simpl; [|by split]. bsimp.
  destruct (_ =? 1); [|by apply HX, (HP d)]. split; [by apply (HP d)|done].
Qed.
Lemma delta_round_end K : on_view K ->
  triple (fun d => Inv d /\ K d) (delta_round ≫= fun _ => mret true) (fun _ d => Inv d /\ K d) Inv.
Proof.
  intros HK. apply (modify_bind _ (fun d => Inv d /\ K d)); [|by apply triple_ret].
  intros d [I Hk]. split; [by apply (core_inv links d)|]. apply (HK d); [|done].
  unfold chain_view, obj_kind, meta_is. cbn. by rewrite !lookup_insert_ne by done.
Qed.

Lemma page_passed d row limit hi :
  Inv d -> 1 <= limit -> pack_live d (pd_pack row) = true ->
  let page := take (Z.to_nat limit) (page_rows d (pd_pack row) (pd_cursor row) hi) in
  passed (upsert_gen 1 (map fst page) d) row (page_cursor limit hi page).
Proof.
  intros I Hl Hlive page s o Ho Hm Hi. destruct (decide (ob_kind o = 3)) as [Hk|Hk].
  - right. split; [|by apply (mi_blobs _ d I s (pd_pack row) o)]. exists (pd_pack row).
    by split_and!; [by exists o| |].
  - left. assert (s ∈ map fst page) as Hp by by apply (page_complete d row limit hi s o).
    destruct (decide (s ∈ t_seen d)); [by left|right]. apply admit_all_frontier. by right.
Qed.
Definition at_cursor (row : PendingSql) (cursor : Z) (d : Db) : Prop :=
  forall r, r ∈ t_pending d -> pd_seq r = pd_seq row -> pd_pack r = pd_pack row /\ pd_cursor r = cursor.
Lemma set_cursor_at d row cursor : Inv d -> row ∈ t_pending d -> at_cursor row cursor (set_cursor (pd_seq row) cursor d).
Proof.
  intros I Hrow r' Hr' Hq. unfold set_cursor in Hr'. cbn in Hr'. apply elem_of_map in Hr' as (r & <- & Hr).
  destruct (Z.eqb_spec (pd_seq r) (pd_seq row)) as [E|E]; [|by destruct E].
  assert (r = row) as -> by by apply (seq_unique d). done.
Qed.
Lemma pending_page_keeps now job chain want K :
  on_view K ->
  triple (fun d => Inv d /\ K d) (pending_page now job chain want) (fun _ d => Inv d /\ K d) Inv.
Proof.
  intros HK. unfold pending_page. assert (stable_on (fun d => Inv d /\ K d)) as Hst by auto with gc_mark.
  apply gets_bind. intros n. case_match; [apply triple_ret; tauto|].
  eapply triple_bind; [eapply triple_pre; [|apply (phase_fence_keeps _ _ _ _ _ Inv Hst)]; [tauto|tauto]|].
  intros [|]; simpl; [|apply triple_ret; tauto].
  apply (modify_bind _ (fun d => (Inv d /\ K d) /\ forall r, r ∈ t_pending d -> pack_live d (pd_pack r) = true)).
  { intros d [[I Hk] _]. split_and!; [by apply drop_dead_inv|by apply (HK d)|].
    intros r Hr. by apply elem_of_filter_b in Hr as [_ ?]. }
  apply gets_bind. intros [row|]; [|eapply triple_pre; [|by apply delta_round_end]; tauto].
  apply gets_bind. intros window. apply gets_bind. intros limit. apply gets_bind. intros page.
  set (hi := sat_add64 (pd_cursor row) window).
  apply (modify_bind _ (fun d => (Inv d /\ K d) /\ row ∈ t_pending d /\ pack_live d (pd_pack row) = true /\
    passed d row (page_cursor limit hi page))).
  { intros d [[[[[[I Hk] Hall] Hr] Hw] Hlim] ->].
    assert (row ∈ t_pending d) as Hrow by (unfold first_pending in Hr; destruct (t_pending d); [done|]; injection Hr as ->; left).
    split_and!; [by apply admit_all_inv|by apply (HK d)|done|by apply Hall|]. apply page_passed; [done|lia|by apply Hall]. }
  apply failpoint_bind; [apply stable_and; [done|by_fields]|tauto|].
  apply (modify_bind _ (fun d => (Inv d /\ K d) /\ at_cursor row (page_cursor limit hi page) d)).
  { intros d [[I Hk] [Hr [Hlv Hp]]]. split_and!; [by apply set_cursor_inv|by apply (HK d)|by apply set_cursor_at]. }
  apply failpoint_bind; [apply stable_and; [done|by_fields]|tauto|].
  apply gets_bind. intros top. apply (triple_bind _ _ (fun _ d => Inv d /\ K d)); [|intros _; by apply delta_round_end].
  case_match eqn:Ef; [|apply triple_ret; tauto]. apply triple_modify. intros d [[[I Hk] Hc] ->].
  split; [|by apply (HK d)]. bsimp. apply drop_row_inv; [done|]. intros r s o Hr Hq Ho.
  destruct (Hc r Hr Hq) as [Hp Hcur]. rewrite Hp in Ho. rewrite Hcur. etrans; [|eassumption].
  apply (max_idx_ge _ (s, o)). by apply pack_rows_spec.
Qed.

(** *** Framing the chain's view *)

Definition same_view (d d' : Db) : Prop := chain_view d' = chain_view d.
#[local] Instance same_view_preorder : PreOrder same_view.
Proof. split; [done|]. intros a b c. unfold same_view. congruence. Qed.
Lemma triple_frame {A} K P (m : DoM A) Q :
  on_view K -> rel_ok same_view m -> triple P m Q Inv ->
  triple (fun d => P d /\ K d) m (fun a d => Q a d /\ K d) Inv.
Proof.
  intros HK Hm Ht d [Hp Hk]. specialize (Ht d Hp). specialize (Hm d).
  destruct (m d) as [d' [a|e]]; [|done]. split; [done|by apply (HK d)].
Qed.
Lemma failpoint_view name : rel_ok same_view (failpoint name).
Proof.
  intros d. pose proof (failpoint_ident name d) as E. injection E. intros.
  unfold same_view, chain_view. congruence.
Qed.
Lemma flush_bits_view bits : rel_ok same_view (modify (flush_bits bits) : DoM unit).
Proof.
  intros d. destruct (flush_list_frame (map_to_list bits) d) as (Em & _). unfold same_view, chain_view, obj_kind, meta_is.
  cbn. fold (flush_bits bits d) in *. rewrite Em. do 3 f_equal. apply set_eq. intros p. rewrite !elem_of_dom.
  rewrite flush_bits_lookup. by destruct (t_marked d !! p); simpl; split; intros [? ?]; eauto.
Qed.
Lemma commit_ids_view ids misses kids bits gen barrier : rel_ok same_view (commit_ids ids misses kids bits gen barrier).
Proof.
  unfold commit_ids. apply rel_ok_bind; [apply _|apply flush_bits_view|intros _].
  repeat (apply rel_ok_bind;
    [apply _|first [apply failpoint_view|apply rel_ok_modify; intros d; by destruct barrier]|intros _]).
  destruct barrier; [by apply rel_ok_modify|apply rel_ok_ret; apply _].
Qed.
End Walk.
#[export] Hint Resolve stable_inv stable_and stable_planned stable_settled stable_linked stable_seen
  view_stable chained_view : gc_mark.
#[export] Instance same_view_refl_trans : PreOrder same_view := same_view_preorder.
