(* ===== verification/WalkFacts.v ===== *)
(** * The walk keeps the mark's invariant

    [walk_step] and the mark slice of [server/src/jobs/gc.rs] against an
    environment that may do anything, between two spans, that keeps the
    invariant and respects a chain it does not own. *)
From S2P Require Import Prelude Errors Db Jobs Cohort GcBase Compact Refs Push Sha Writer Reads Mark MarkFacts.
Open Scope Z_scope.

(** Statements outside the chain's tables. *)
Definition same_ident (d d' : Db) : Prop := ident d' = ident d.
#[global] Instance same_ident_preorder : PreOrder same_ident.
Proof. split; [done|]. intros a b c. unfold same_ident. congruence. Qed.
Lemma triple_ident {A} P (m : DoM A) X :
  rel_ok same_ident m -> stable_on P -> (forall d, P d -> X d) -> triple P m (fun _ => P) X.
Proof.
  intros Hm HP HX d Hd. specialize (Hm d). destruct (m d) as [d' [a|e]]; [by apply (HP d)|]. by apply HX, (HP d).
Qed.

(** ** Planning a batch *)

Abbreviation Row := ((string * string) * ObjSql)%type.
Definition bits_grow (bits bits' : gmap string (list Z)) : Prop :=
  forall p bm i, 0 <= i -> bits !! p = Some bm -> bm_get bm i = true ->
    exists bm', bits' !! p = Some bm' /\ bm_get bm' i = true.
#[local] Instance bits_grow_preorder : PreOrder bits_grow.
Proof.
  split; [intros b p bm i; eauto|]. intros a b c H1 H2 p bm i Hi Hb Hg.
  destruct (H1 p bm i Hi Hb Hg) as (bm' & ? & ?). eauto.
Qed.
Lemma hit_grow d bits bits' s : bits_grow bits bits' -> hit d bits s -> hit d bits' s.
Proof.
  intros Hg (p & o & H1 & H2 & [H3|(Hi & m & Hm & [Hb|(bm & Hb & Hbit)])]); exists p, o; (split_and!; [done..|]).
  - by left.
  - right. eauto.
  - right. split; [done|]. exists m. split; [done|]. right. by apply (Hg p bm).
Qed.
Lemma plan_bit_ok d cand (r : Row) bits bits' :
  cand = dom (t_marked d) -> t_objects d !! r.1 = Some r.2 -> pack_live d r.1.2 = true ->
  plan_bit d cand r bits = Ok bits' -> hit d bits' r.1.1 /\ bits_grow bits bits'.
Proof.
  intros -> Ho Hl. unfold plan_bit. destruct r as [[s p] o]. cbn [fst snd] in *. case_bool_decide as Hp.
  - unfold mbind, result_bind, to_u32, narrow. destruct ((0 <=? ob_idx o) && _) eqn:Ei; [|done]. bsimp.
    set (bm := match bits !! p with Some bm => bm | None => _ end). destruct (bm_set bm (ob_idx o)) as [bm'|] eqn:Eb; [|done].
    intros [= <-]. apply elem_of_dom in Hp as [m Hm]. split.
    + exists p, o. split_and!; [done..|]. right. split; [done|]. exists m. split; [done|]. right. exists bm'.
      rewrite lookup_insert_eq. split; [done|]. rewrite (bm_get_set bm (ob_idx o) (ob_idx o) bm') by (done || lia). by rewrite Z.eqb_refl.
    + intros q bq i Hi Hq Hg. destruct (decide (p = q)) as [<-|Hne].
      * exists bm'. rewrite lookup_insert_eq. split; [done|]. rewrite (bm_get_set bm (ob_idx o) i bm') by (done || lia).
        unfold bm. rewrite Hq, Hg. apply orb_true_r.
      * exists bq. by rewrite lookup_insert_ne.
  - intros [= <-]. split; [|done]. exists p, o. split_and!; [done..|]. left. unfold in_marked.
    apply not_elem_of_dom in Hp. by rewrite Hp.
Qed.
Lemma plan_rows_ok {PF : Platform} d cand (rows : list Row) bits loads bits' :
  cand = dom (t_marked d) -> Forall (fun r : Row => t_objects d !! r.1 = Some r.2 /\ pack_live d r.1.2 = true) rows ->
  plan_rows d cand rows bits = Ok (loads, bits') ->
  (forall s, s ∈ map (fun r : Row => r.1.1) rows -> hit d bits' s) /\ bits_grow bits bits'.
Proof.
  intros Hc Hr. revert bits loads bits'. induction Hr as [|r rows [Ho Hl] Hr IH]; intros bits loads bits'; cbn [plan_rows map].
  { intros [= _ <-]. split; [by intros s ?%elem_of_nil|done]. }
  unfold mbind, result_bind at 1. destruct (if ob_kind r.2 =? 3 then _ else _) as [load|]; [|done].
  unfold result_bind at 1. destruct (plan_bit d cand r bits) as [b1|] eqn:Eb; [|done].
  unfold result_bind. destruct (plan_rows d cand rows b1) as [[l2 b2]|] eqn:Ep; [|done]. intros [= _ <-].
  destruct (IH _ _ _ Ep) as [H1 H2]. destruct (plan_bit_ok d cand r bits b1 Hc Ho Hl Eb) as [H3 H4].
  split; [|by etrans]. intros s [->|Hs]%elem_of_cons; [by apply (hit_grow d b1)|by apply H1].
Qed.
(** The loads are the rows that are not blobs. *)
Lemma sql_loc_id {PF : Platform} (r : Row) l : oid r.1.1 = Ok r.1.1 -> sql_loc r = Ok l -> l.1 = r.1.1.
Proof.
  intros E. unfold sql_loc, mbind, result_bind. rewrite E. intros H. repeat (case_match; [|discriminate H]). by injection H as <-.
Qed.
Lemma plan_rows_loads {PF : Platform} d cand (rows : list Row) bits loads bits' :
  Forall (fun r : Row => oid r.1.1 = Ok r.1.1) rows ->
  plan_rows d cand rows bits = Ok (loads, bits') ->
  (forall s, s ∈ map fst loads -> s ∈ map (fun r : Row => r.1.1) rows) /\
  (forall r, r ∈ rows -> r.1.1 ∉ map fst loads -> ob_kind r.2 = 3).
Proof.
  intros Hid'. revert bits loads bits'. induction Hid' as [|r rows Hid Hid' IH]; intros bits loads bits'; cbn [plan_rows map].
  { intros [= <- _]. split; [done|by intros r ?%elem_of_nil]. }
  unfold mbind, result_bind at 1. destruct (if ob_kind r.2 =? 3 then _ else _) as [load|] eqn:El; [|done].
  unfold result_bind at 1. destruct (plan_bit d cand r bits) as [b1|]; [|done].
  unfold result_bind. destruct (plan_rows d cand rows b1) as [[l2 b2]|] eqn:Ep; [|done]. intros [= <- _].
  destruct (IH _ _ _ Ep) as [H1 H2]. cbn [fst]. assert (load = [] /\ ob_kind r.2 = 3 \/ map fst load = [r.1.1]) as Hload.
  { destruct (Z.eqb_spec (ob_kind r.2) 3); [left; by injection El as <-|right].
    unfold result_bind in El. destruct (sql_loc r) as [l|] eqn:Es; [|done]. injection El as <-.
    simpl. by rewrite (sql_loc_id r l Hid Es). }
  split.
  - intros s. rewrite map_app, elem_of_app, elem_of_cons. intros [Hs|Hs]; [|by right; apply H1].
    destruct Hload as [[-> _]|E]; [by apply elem_of_nil in Hs|]. rewrite E in Hs. left. by apply list_elem_of_singleton.
  - intros x [->|Hx]%elem_of_cons; rewrite map_app, not_elem_of_app; intros [Hn1 Hn2]; [|by apply H2].
    destruct Hload as [[_ ?]|E]; [done|]. rewrite E in Hn1. by destruct Hn1; left.
Qed.
Lemma batch_rows_spec d batch r :
  r ∈ batch_rows d batch -> r.1.1 ∈ batch /\ t_objects d !! r.1 = Some r.2 /\ pack_live d r.1.2 = true.
Proof.
  unfold batch_rows. rewrite list_elem_of_omap. intros (s & Hs & Hh).
  rewrite (merge_sort_Permutation String.le batch) in Hs.
  assert (r ∈ live_rows d s) as Hr by (destruct (live_rows d s); [done|]; injection Hh as ->; left).
  pose proof (live_rows_sha d s r Hr) as E. destruct r as [[s' p] o]. simpl in *. subst s'.
  apply live_rows_spec in Hr. done.
Qed.
Lemma pop_batch_tracked barrier d s : s ∈ (pop_batch barrier d).1 -> s ∈ dom (t_frontier d).
Proof.
  unfold pop_batch. destruct barrier; cbn [fst]; rewrite elem_of_map; intros ([s' g] & <- & Hx).
  - apply elem_of_take in Hx as (i & Hx & _). apply list_elem_of_lookup_2, elem_of_filter_b in Hx as [Hx _].
    apply elem_of_map_to_list in Hx. apply elem_of_dom. by exists g.
  - apply elem_of_take in Hx as (i & Hx & _). apply list_elem_of_lookup_2, elem_of_map_to_list in Hx.
    apply elem_of_dom. by exists g.
Qed.

Section Walk.
Context `{PF : Platform} `{PC : PackCodec} `{GO : GitObjects}.
Context (links : string -> list string).
Abbreviation Inv := (MarkInv links).

(** ** What the other handlers may do during a wait *)

Section Rely.
Context (chain want : option string).
Record env_step (d d' : Db) : Prop := {
  es_inv : Inv d -> Inv d';
  es_back : chained chain want d' -> chained chain want d;
  es_cohort : chained chain want d' -> forall p, in_marked d' p = in_marked d p;
  es_bits : chained chain want d' -> forall p m i, t_marked d !! p = Some m -> bm_get (mk_bitmap m) i = true ->
    exists m', t_marked d' !! p = Some m' /\ bm_get (mk_bitmap m') i = true;
  es_rows : chained chain want d' -> forall s p o, t_objects d !! (s, p) = Some o -> pack_live d p = true ->
    t_objects d' !! (s, p) = Some o /\ pack_live d' p = true;
  es_tracked : chained chain want d' -> forall s, tracked d s -> tracked d' s
}.
(** The entries are those asked for, and decode to the objects of the graph. *)
Definition faithful (d : Db) (chunk : list (string * ObjLoc)) (entries : list (string * list Z)) : Prop :=
  map fst entries ≡ₚ map fst chunk /\
  forall id e k data ls, (id, e) ∈ entries -> decode_entry e = Ok (k, data) ->
    extract_links k data (obj_kind d) = Ok ls -> forall c, c ∈ links id -> c ∈ ls.
Definition await_ok (await : Z -> list (string * ObjLoc) -> DoM (Z * bool * list (string * list Z))) : Prop :=
  forall now chunk d, Inv d -> env_step d (await now chunk d).1 /\
    forall x, (await now chunk d).2 = Ok x -> faithful (await now chunk d).1 chunk x.2.

Lemma env_hit bits d d' s : env_step d d' -> chained chain want d' -> hit d bits s -> hit d' bits s.
Proof.
  intros E Hc (p & o & H1 & H2 & H3). destruct (es_rows d d' E Hc s p o H1 H2) as [H4 H5].
  exists p, o. split_and!; [done|done|]. destruct H3 as [H3|(Hi & m & Hm & Hb)]; [left|right].
  - by rewrite (es_cohort d d' E Hc).
  - split; [done|]. destruct Hb as [Hb|Hb].
    + destruct (es_bits d d' E Hc p m _ Hm Hb) as (m' & ? & ?). eauto.
    + assert (in_marked d' p = true) as Hi' by (rewrite (es_cohort d d' E Hc); unfold in_marked; by rewrite Hm).
      unfold in_marked in Hi'. destruct (t_marked d' !! p) as [m'|]; [|done]. eauto.
Qed.
(** The cohort a slice captured is its chain's; its planned ids, while the chain stands. *)
Definition cand_ok (cand : gset string) (d : Db) : Prop := chained chain want d -> cand = dom (t_marked d).
Definition pre_planned (bits : gmap string (list Z)) (L : list string) (d : Db) : Prop :=
  chained chain want d -> planned bits L d.
Lemma cand_view cand : on_view (cand_ok cand).
Proof. intros d d' [= E1 E2 E3 _]. unfold cand_ok, chained. rewrite E1, E2, E3. done. Qed.
Lemma env_planned bits L d d' : env_step d d' -> pre_planned bits L d -> pre_planned bits L d'.
Proof.
  intros E HL Hc s Hs. destruct (HL (es_back d d' E Hc) s Hs) as [H1 H2].
  split; [by apply (env_hit bits d)|by apply (es_tracked d d' E)].
Qed.
Lemma env_cand cand d d' : env_step d d' -> cand_ok cand d -> cand_ok cand d'.
Proof.
  intros E HK Hc. rewrite (HK (es_back d d' E Hc)). apply set_eq. intros p. rewrite !elem_of_dom.
  pose proof (es_cohort d d' E Hc p) as Hp. unfold in_marked in Hp.
  destruct (t_marked d !! p), (t_marked d' !! p); simpl in Hp; [split; intros _; eauto|done|done|done].
Qed.

(** ** Gathering the links of a chunk *)

Definition gathered (bits : gmap string (list Z)) (L dn kids : list string) (d : Db) : Prop :=
  Inv d /\ planned bits L d /\ linked links dn kids d.
Lemma gathered_stable bits L dn kids : stable_on (gathered bits L dn kids).
Proof. unfold gathered. auto with gc_mark. Qed.
Lemma linked_more dn kids d id ls :
  (forall c, c ∈ links id -> c ∈ ls) -> linked links dn kids d -> linked links (id :: dn) (kids ++ ls) d.
Proof.
  intros Hl Hk s c Hs Hc. apply elem_of_cons in Hs as [->|Hs].
  - right. apply elem_of_app. right. by apply Hl.
  - destruct (Hk s c Hs Hc) as [?|?]; [by left|right]. apply elem_of_app. by left.
Qed.
Lemma admit_entries_keeps gen L h (K : Db -> Prop) entries kids bits dn :
  on_view K ->
  (forall id e k data ls, (id, e) ∈ entries -> decode_entry e = Ok (k, data) ->
     extract_links k data h = Ok ls -> forall c, c ∈ links id -> c ∈ ls) ->
  triple (fun d => gathered bits L dn kids d /\ (obj_kind d = h /\ K d))
    (admit_entries true gen entries kids bits)
    (fun kb d => gathered kb.2 L (map fst entries ++ dn) kb.1 d /\ (obj_kind d = h /\ K d)) Inv.
Proof.
  intros HK. assert (on_view (fun d => obj_kind d = h /\ K d)) as HK'.
  { intros d d' E [H1 H2]. split; [|by apply (HK d)]. injection E. intros. congruence. }
  revert kids bits dn. induction entries as [|[id e] entries IH]; intros kids bits dn Hd; [by apply triple_ret|].
  cbn [admit_entries]. eapply triple_bind; [apply (triple_lift _ _ Inv); by intros d [[] _]|intros [k data]].
  apply gets_bind. intros h'. eapply triple_bind; [apply (triple_lift _ _ Inv); by intros d [[[[] _] _] _]|intros ls].
  apply (triple_pre _ (fun d => gathered bits L (id :: dn) (kids ++ ls) d /\ (obj_kind d = h /\ K d))).
  { intros d [[[[(I & HL & Hk) [Hh Hkk]] Hdec] ->] Hls]. simpl in Hdec. rewrite Hh in Hls. split; [|done]. split_and!; [done|done|].
    apply linked_more; [|done]. apply (Hd id e k data); [left|done|done]. }
  assert (forall kids' bits', triple (fun d => gathered bits' L (id :: dn) kids' d /\ (obj_kind d = h /\ K d))
    (admit_entries true gen entries kids' bits')
    (fun kb d => gathered kb.2 L (map fst ((id, e) :: entries) ++ dn) kb.1 d /\ (obj_kind d = h /\ K d)) Inv) as Hrest.
  { intros kids' bits'. eapply triple_post; [|apply (IH kids' bits' (id :: dn))].
    - intros kb d [(H1 & H2 & H3) H4]. split; [|done]. split_and!; [done|done|]. intros s c Hs. apply H3.
      simpl in Hs. rewrite elem_of_cons, elem_of_app in Hs. rewrite elem_of_app, elem_of_cons. tauto.
    - intros id' e' k' data' ls' Hin. apply (Hd id' e'). by right. }
  case_match; [|apply Hrest].
  apply (triple_bind _ _ (fun _ d => gathered ∅ L (id :: dn) [] d /\ (obj_kind d = h /\ K d))); [|intros _; apply Hrest].
  apply triple_frame; [done|apply commit_ids_view|].
  eapply triple_post; [|apply (commit_ids_keeps links [] [] (kids ++ ls) (id :: dn) bits gen L); by intros s ?%elem_of_nil].
  intros _ d (I & HL & Hk). split_and!; [done|by apply settled_planned|done].
Qed.

(** ** The chunk loop *)

Section Chunks.
Context (await : Z -> list (string * ObjLoc) -> DoM (Z * bool * list (string * list Z))) (Hawait : await_ok await).
Context (job : Job) (cand : gset string).

Definition ready (bits : gmap string (list Z)) (L : list string) (d : Db) : Prop :=
  Inv d /\ cand_ok cand d /\ pre_planned bits L d.
Lemma ready_stable bits L : stable_on (ready bits L).
Proof.
  apply stable_and; [apply stable_inv|]. apply stable_and; [apply view_stable, cand_view|].
  intros d d' E HL Hc. apply (stable_planned bits L d); [done|]. apply HL. injection E. intros.
  destruct Hc. split; congruence.
Qed.
Lemma faithful_stable chunk entries : stable_on (fun d => faithful d chunk entries).
Proof. intros d d' E. injection E. intros Hk _ _ _ _ _ _ _ _ _ _. unfold faithful. by rewrite Hk. Qed.
Lemma await_keeps bits L now chunk :
  triple (ready bits L) (await now chunk) (fun x d => ready bits L d /\ faithful d chunk x.2) Inv.
Proof.
  intros d (I & Hc & HL). destruct (Hawait now chunk d I) as [E Hf].
  destruct (await now chunk d) as [d' [x|e]]; simpl in *; [|by apply (es_inv d d' E)].
  split; [|by apply Hf]. split_and!; [by apply (es_inv d d' E)|by apply (env_cand cand d)|by apply (env_planned bits L d)].
Qed.
Lemma span_commit gen bits L chunk entries :
  (forall s, s ∈ map fst chunk -> s ∈ L) ->
  triple (fun d => (ready bits L d /\ faithful d chunk entries) /\ chained chain want d)
    (admit_entries true gen entries [] bits ≫= fun kb =>
     commit_ids (map fst chunk) [] kb.1 kb.2 gen true)
    (fun _ d => ready ∅ L d) Inv.
Proof.
  intros Hsub d [[(I & Hc & HL) [Hperm Hf]] Hch]. pose (K := fun d => cand_ok cand d /\ chained chain want d).
  assert (on_view K) as HK by (intros x x' E [? ?]; split; [by apply (cand_view cand x)|by apply (chained_view chain want x)]).
  apply (triple_bind (fun d' => gathered bits L [] [] d' /\ (obj_kind d' = obj_kind d /\ K d')) _
    (fun kb d' => gathered kb.2 L (map fst entries ++ []) kb.1 d' /\ (obj_kind d' = obj_kind d /\ K d'))).
  - by apply (admit_entries_keeps gen L (obj_kind d) K).
  - intros kb. eapply triple_pre; [intros d' [Hg [_ Hk]]; exact (conj Hg Hk)|].
    eapply triple_post; [|apply (triple_frame links K _ _
      (fun _ d' => Inv d' /\ settled L d' /\ linked links (map fst entries ++ []) [] d')); [done|apply commit_ids_view|]].
    + intros _ d' [(I' & HL' & _) [Hc' _]]. split_and!; [exact I'|done|]. intros _. by apply settled_planned.
    + apply commit_ids_keeps; [done|]. intros s Hs. rewrite app_nil_r, Hperm. done.
  - split; [|by split]. split_and!; [done|by apply HL|by intros s c ?%elem_of_nil].
Qed.
Lemma walk_chunks_keeps gen L cs bits t :
  (forall chunk, chunk ∈ cs -> forall s, s ∈ map fst chunk -> s ∈ L) ->
  triple (ready bits L) (walk_chunks await job chain want true gen cs bits t)
    (fun r d => match r with Some bt => ready bt.1 L d | None => Inv d end) Inv.
Proof.
  revert bits t. induction cs as [|chunk cs IH]; intros bits t Hsub; [by apply triple_ret|].
  cbn [walk_chunks]. eapply triple_bind; [apply await_keeps|]. intros [[now spent] entries]. cbn [fst snd].
  apply failpoint_bind; [apply stable_and; [apply ready_stable|apply faithful_stable]|by intros d [[] _]|].
  eapply triple_bind; [apply phase_fence_keeps|]. 2: by intros d [[] _].
  { apply stable_and; [apply ready_stable|apply faithful_stable]. }
  intros [|]; simpl; [|apply triple_ret; by intros d [[[] _] _]].
  pose proof (span_commit gen bits L chunk entries (Hsub chunk ltac:(left))) as Hspan.
  apply (triple_assoc _ _ _ _ (fun _ => ready ∅ L)); [eapply triple_pre; [|exact Hspan]; intros d [Hd Hch]; split; [done|by apply Hch]|intros _].
  apply (triple_bind _ _ (fun _ => ready ∅ L)); [|intros _; destruct spent; [by apply triple_ret|]].
  - destruct (is_mark want); [apply triple_failpoint; [apply ready_stable|by intros d []]|by apply triple_ret].
  - apply IH. intros c Hc. apply Hsub. by right.
Qed.

(** ** The step *)

Lemma commit_rest_keeps gen bits L rest live t :
  (forall s, s ∈ rest -> s ∈ live -> s ∈ L /\ links s = []) ->
  triple (ready bits L) (commit_rest job chain want true gen rest live bits t)
    (fun r d => Inv d /\ (r.1 <> SDone -> cand_ok cand d)) Inv.
Proof.
  intros Hrest. unfold commit_rest. destruct rest as [|x rest']; [apply triple_ret; by intros d (? & ? & _)|].
  set (rest := x :: rest') in *. eapply triple_bind; [apply phase_fence_keeps; [apply ready_stable|by intros d []]|].
  intros [|]; simpl; [|apply triple_ret; by intros d [[] _]].
  set (hits := List.filter (fun s => bool_decide (s ∈ live)) rest).
  assert (forall s, s ∈ hits -> s ∈ L /\ links s = []) as Hh.
  { intros s Hs. apply elem_of_filter_b in Hs as [H1 H2]. bsimp. by apply Hrest. }
  apply (triple_bind _ _ (fun _ d => (Inv d /\ settled L d /\ linked links hits [] d) /\ cand_ok cand d)).
  - apply (triple_pre _ (fun d => (Inv d /\ planned bits L d /\ linked links hits [] d) /\ cand_ok cand d)).
    + intros d [(I & Hc & HL) Hch]. split; [|done]. split_and!; [done|by apply HL, Hch|].
      intros s c Hs Hl. destruct (Hh s Hs) as [_ E]. rewrite E in Hl. by apply elem_of_nil in Hl.
    + apply triple_frame; [apply cand_view|apply commit_ids_view|]. apply commit_ids_keeps; [|done].
      intros s Hs. by apply Hh.
  - intros _. apply (triple_bind _ _ (fun _ d => Inv d /\ cand_ok cand d)).
    + destruct (is_mark want); [eapply triple_pre; [|apply triple_failpoint]|apply triple_ret]; try (by intros d [[? _] ?]).
      * apply stable_and; [apply stable_inv|apply view_stable, cand_view].
      * by intros d [].
    + intros _. apply triple_ret. by intros d [].
Qed.
Lemma phase_fence_ident now : rel_ok same_ident (phase_fence now job chain want).
Proof.
  intros d. unfold phase_fence, meta_opt, heartbeat, gets, mbind, M_bind, mret, M_ret, fail.
  repeat case_match; simplify_eq; reflexivity.
Qed.
Lemma count_round_ident gen t : rel_ok same_ident (count_round job chain want true gen t).
Proof.
  unfold count_round. case_match; [|apply rel_ok_ret; apply _].
  apply rel_ok_bind; [apply _|apply phase_fence_ident|intros [|]]; [|apply rel_ok_ret; apply _].
  apply rel_ok_bind; [apply _| |intros _; apply rel_ok_ret; apply _]. apply rel_ok_modify. intros d.
  unfold same_ident, ident, obj_kind, meta_is. cbn. by rewrite !lookup_insert_ne by done.
Qed.

(** Span A: what the plan promises to the rest of the step. *)
Lemma plan_ready d batch bits loads bits' :
  Inv d -> cand_ok cand d -> (forall s, s ∈ batch -> s ∈ dom (t_frontier d)) ->
  let rows := batch_rows d batch in
  let L := map (fun r : Row => r.1.1) rows in
  plan_rows d cand rows bits = Ok (loads, bits') ->
  ready bits' L d /\ (forall s, s ∈ map fst loads -> s ∈ L) /\
  (forall s, s ∈ L -> s ∉ map fst loads -> links s = []).
Proof.
  intros I Hc Hb rows L E. assert (Forall (fun r : Row => t_objects d !! r.1 = Some r.2 /\ pack_live d r.1.2 = true) rows) as Hr.
  { apply Forall_forall. intros r Hr. by apply (batch_rows_spec d batch). }
  assert (Forall (fun r : Row => oid r.1.1 = Ok r.1.1) rows) as Hx.
  { apply (Forall_impl _ _ _ Hr). intros [[s p] o] [Ho _]. by apply (mi_hex _ d I s p o). }
  destruct (plan_rows_loads d cand rows bits loads bits' Hx E) as [Hl Hk]. split; [split_and!; [done|done|]|split; [done|]].
  - intros Hch s Hs. destruct (plan_rows_ok d cand rows bits loads bits' (Hc Hch) Hr E) as [H1 _]. split; [by apply H1|].
    right. apply Hb. apply elem_of_map in Hs as (r & <- & Hs). by apply (batch_rows_spec d batch).
  - intros s Hs Hn. apply elem_of_map in Hs as ([[s' p] o] & <- & Hs). pose proof (Hk _ Hs Hn) as H3.
    rewrite Forall_forall in Hr. destruct (Hr _ Hs) as [Ho _]. by apply (mi_blobs _ d I s' p o).
Qed.
Lemma walk_step_keeps bits t :
  triple (fun d => Inv d /\ cand_ok cand d) (walk_step await job chain want true cand bits t)
    (fun r d => Inv d /\ (r.1.1 <> SDone -> cand_ok cand d)) Inv.
Proof.
  unfold walk_step. eapply triple_bind; [apply pending_page_keeps, cand_view|].
  intros [|]; cbn [negb]; [|apply triple_ret; by intros d []].
  apply gets_bind. intros [batch gen]. cbn [fst snd]. destruct batch as [|x batch']; [apply triple_ret; by intros d [[? ?] _]|].
  set (batch := x :: batch') in *.
  apply (triple_bind _ _ (fun _ d => (Inv d /\ cand_ok cand d) /\ forall s, s ∈ batch -> s ∈ dom (t_frontier d))).
  { eapply triple_pre; [|apply triple_ident; [apply count_round_ident| |by intros d [[] _]]].
    - intros d [Hd Ep]. split; [done|]. intros s Hs. apply (pop_batch_tracked true). by rewrite <- Ep.
    - apply stable_and; [apply stable_and; [apply stable_inv|apply view_stable, cand_view]|].
      intros d d' E Hf s Hs. replace (t_frontier d') with (t_frontier d) by (injection E; congruence). auto. }
  intros [|]; cbn [negb]; [|apply triple_ret; by intros d [[] _]].
  apply gets_bind. intros rows. set (L := map (fun r : Row => r.1.1) rows).
  apply (triple_bind _ _ (fun plan d => ready plan.2 L d /\ ((forall s, s ∈ map fst plan.1 -> s ∈ L) /\
    forall s, s ∈ L -> s ∉ map fst plan.1 -> links s = []))).
  { intros d [[[I Hc] Hb] ->]. destruct (plan_rows d cand (batch_rows d batch) bits) as [[loads bits']|e] eqn:E; [|done].
    destruct (plan_ready d batch bits loads bits' I Hc Hb E) as (H1 & H2 & H3). by split. }
  intros [loads bits1]. cbn [fst snd]. apply triple_pure. intros [Hl Hb].
  eapply triple_bind; [apply (walk_chunks_keeps gen L)|].
  { intros chunk Hchunk s Hs. apply Hl. rewrite <- (chunks_loop_concat [] 0 loads : concat (chunks loads) = loads).
    apply elem_of_map in Hs as (e & <- & He). apply elem_of_map. exists e. split; [done|]. rewrite list_elem_of_In, in_concat.
    exists chunk. by rewrite <- !list_elem_of_In. }
  intros [[bits2 t2]|]; [|by apply triple_ret]. cbn [fst snd].
  eapply triple_bind; [apply commit_rest_keeps|].
  { intros s Hs HsL. apply elem_of_filter_b in Hs as [_ Hs]. bsimp. split; [done|by apply Hb]. }
  intros [st bits3]. by apply triple_ret.
Qed.
End Chunks.
End Rely.

(** ** The mark slice *)

Section Slice.
Context (chain : option string) (job : Job) (cand : gset string).
Context (await : Z -> list (string * ObjLoc) -> DoM (Z * bool * list (string * list Z))) (Hawait : await_ok chain None await).
Abbreviation Pre := (fun d => Inv d /\ cand_ok chain None cand d).
Lemma pre_stable : stable_on Pre.
Proof. apply stable_and; [apply stable_inv|apply view_stable, cand_view]. Qed.
Lemma put_keeps k v P X : (forall d, P d -> Inv d) -> triple P (put k v) (fun _ => Inv) X.
Proof. intros HP. apply triple_modify. intros d Hd. apply (core_inv links d); [done|by apply HP]. Qed.
Lemma enqueue_ident k t p : rel_ok same_ident (enqueue k t p).
Proof. apply rel_ok_modify. intros d. unfold enqueue_db. by case_match. Qed.
Lemma refs_moved_ident : rel_ok same_ident refs_moved.
Proof.
  intros d. unfold refs_moved, meta_i64, meta, lift, mret, M_ret, mbind, M_bind. by repeat case_match; simplify_eq.
Qed.
Lemma handoff_keeps now g :
  triple Pre (barrier_handoff_if_ready now job chain g)
    (fun o d => match o with Some _ => Inv d | None => Pre d end) Inv.
Proof.
  unfold barrier_handoff_if_ready. destruct (match g with None => false | Some g => g <? 1 end); [by apply triple_ret|].
  eapply triple_bind; [apply (phase_fence_keeps now job chain None Pre Inv); [apply pre_stable|by intros d []]|].
  intros [|]; cbn [negb]; [|apply triple_ret; by intros d [[] _]].
  apply gets_bind. intros pend. apply gets_bind. intros rounds. apply gets_bind. intros cap.
  apply (triple_bind _ _ (fun _ => Pre)).
  { eapply triple_pre; [|apply (triple_ident Pre); [|apply pre_stable|by intros d []]]; [tauto|].
    destruct ((pend =? 0)%nat && _); [apply rel_ok_ret; apply _|].
    destruct (cap <=? rounds); [apply refs_moved_ident|apply rel_ok_ret; apply _]. }
  intros [|]; [|by apply triple_ret]. unfold chain_payload.
  apply (triple_bind _ _ (fun _ => Pre)); [intros d Hd; exact Hd|intros payload].
  apply (triple_bind _ _ (fun _ => Pre)); [apply triple_ident; [apply enqueue_ident|apply pre_stable|by intros d []]|intros _].
  apply (triple_bind _ _ (fun _ => Inv)); [apply put_keeps; by intros d []|intros _]. by apply triple_ret.
Qed.
Lemma mark_loop_keeps fuel bits t :
  triple Pre (mark_loop await job chain true cand fuel bits t) (fun _ => Inv) Inv.
Proof.
  revert bits t. induction fuel as [|fuel IH]; intros bits t; cbn [mark_loop]; [apply triple_ret; by intros d []|].
  destruct (tk_spent t); [apply triple_ret; by intros d []|].
  apply (triple_bind _ _ (fun moved d => Pre d /\ moved = false)); [by apply triple_ret|].
  intros moved. apply triple_pure. intros ->.
  apply (triple_bind _ _ (fun o d => match o with Some _ => Inv d | None => Pre d end)).
  { apply gets_bind. intros g. eapply triple_pre; [|apply handoff_keeps]. tauto. }
  intros [out|]; [by apply triple_ret|].
  eapply triple_bind; [by apply (walk_step_keeps chain None)|]. intros [[st bits'] t']. cbn [fst snd].
  destruct st; [apply triple_ret; by intros d []| |eapply triple_pre; [|apply IH]; intros d [? Hc]; split; [done|by apply Hc]].
  eapply triple_bind; [eapply triple_pre; [|apply (phase_fence_keeps (tk_now t') job chain None Pre Inv); [apply pre_stable|by intros d []]]|].
  - intros d [? Hc]. split; [done|by apply Hc].
  - intros [|]; cbn [negb]; [|apply triple_ret; by intros d [[] _]]. eapply triple_pre; [|apply IH]. tauto.
Qed.
End Slice.

(** C5: the mark keeps its invariant.  A slice of a barrier chain in its mark
    phase leaves the invariant on every outcome — continued, handed off, fenced
    out by a stale lease, failed on a read or killed at any failpoint — against
    any environment that keeps the invariant and respects the chain. *)
Theorem gc_mark_keeps_invariant (fuel : nat) (job : Job) (hex c : string) (t : Tick) (d : Db)
    (await : Z -> list (string * ObjLoc) -> DoM (Z * bool * list (string * list Z))) :
  Inv d -> await_ok (Some c) None await -> t_meta d !! "gc.chain" = Some c -> t_meta d !! "gc.phase" = None ->
  (barrier_active d).2 = Ok true -> Inv (gc_mark fuel await job hex t d).1.
Proof.
  intros I Ha Hc Hp Hb. pose proof Hb as [= Hb']. rewrite Hc in Hb'. cbn in Hb'. bsimp.
  destruct (t_meta d !! "gc.started_at") as [st|] eqn:Es; [|done].
  assert (mark_guard (tk_now t) d = (d, Ok None)) as Eg.
  { unfold mark_guard, legacy_chain, gets, mbind, M_bind, mret, M_ret. rewrite Hp, Hc. cbn.
    replace (meta_is d "gc.mode" "compact") with false by done.
    unfold meta_is. by rewrite Hp. }
  unfold gc_mark. rewrite (bind_run _ _ _ _ _ Eg).
  rewrite (bind_run _ _ d d (Some st)) by (unfold meta_opt, gets; by rewrite Es). cbn [is_some].
  rewrite (bind_run _ _ d d None) by done. rewrite (bind_run _ _ d d (dom (t_marked d))) by done.
  rewrite (bind_run _ _ d d true) by (unfold barrier_active, gets in *; by rewrite <- Hb).
  rewrite (bind_run _ _ d d (Some c)) by (unfold meta_opt, gets; by rewrite Hc).
  eapply (triple_end (fun e => Inv e /\ cand_ok (Some c) None (dom (t_marked d)) e));
    [by apply (mark_loop_keeps (Some c))|split; [done|by intros _]].
Qed.

(** ** Starting a chain *)

(** The object index is sound: blobs refer to nothing, and a pack's entries have
    distinct, non-negative positions; ids are canonical hex. *)
Record StoreWf (d : Db) : Prop := {
  sw_blobs : forall s p o, t_objects d !! (s, p) = Some o -> ob_kind o = 3 -> links s = [];
  sw_idxs : forall s s' p o o', t_objects d !! (s, p) = Some o -> t_objects d !! (s', p) = Some o' ->
    ob_idx o = ob_idx o' -> s = s';
  sw_idx0 : forall s p o, t_objects d !! (s, p) = Some o -> 0 <= ob_idx o;
  sw_hex : forall s p o, t_objects d !! (s, p) = Some o -> oid s = Ok s
}.
Lemma wf_objects d d' : t_objects d' = t_objects d -> StoreWf d -> StoreWf d'.
Proof. intros E [W1 W2 W3 W4]. split; rewrite E; done. Qed.
Lemma seed_dom l m x : x ∈ dom (fold_left seed_one l m) <-> x ∈ dom m \/ x ∈ l.
Proof.
  revert m; induction l as [|y l IH]; intros m; simpl; [rewrite elem_of_nil; tauto|].
  rewrite IH, elem_of_cons. unfold seed_one. destruct (m !! y) as [g|] eqn:E.
  - split; [tauto|]. intros [?|[->|?]]; [tauto| |tauto]. left. apply elem_of_dom. by exists g.
  - rewrite dom_insert, elem_of_union, elem_of_singleton. tauto.
Qed.
(** The chain's tables as init leaves them before and after the seeds. *)
Definition blank (d : Db) : Prop := t_pending d = [] /\ t_seen d = ∅.
Definition rooted (d : Db) : Prop := forall s, s ∈ roots d -> s ∈ dom (t_frontier d).
Definition cohort_ok (d : Db) : Prop := forall p, in_marked d p = true -> pack_live d p = true.
Lemma blank_inv d : StoreWf d -> blank d -> rooted d -> cohort_ok d -> Inv d.
Proof.
  intros [W1 W2 W3 W4] [En Es] Hr Hc. split; try done.
  - intros s Hs _. right; left. by apply Hr.
  - rewrite Es. intros s c Hs. set_solver.
  - rewrite Es. set_solver.
  - rewrite En. intros r Hx. by apply elem_of_nil in Hx.
  - rewrite En. split; [constructor|]. intros r Hx. by apply elem_of_nil in Hx.
Qed.
Definition named (hex : string) (d : Db) : Prop := chained (Some hex) None d.
Lemma seed_marked_cohort cutoff d : t_marked d = ∅ -> cohort_ok (seed_marked cutoff d).
Proof.
  intros Em p. unfold in_marked, pack_live, seed_marked. cbn. rewrite Em, (left_id_L ∅ (∪)), lookup_omap.
  destruct (t_packs d !! p) as [r|]; [|done]. cbn. unfold candidate. destruct (bool_decide (pk_state r = Live)); done.
Qed.
Lemma wiped_meta d k : is_gc_key k = true -> t_meta (wipe_gc_meta d) !! k = None.
Proof. intros E. rewrite wipe_meta_lookup. by rewrite E. Qed.
(** a chain starts with the invariant.  When [mark_init] lets a slice go on,
    on any store with a sound index, the chain is named, in its mark phase and
    the invariant holds: every root is in the frontier, whatever an earlier chain
    left behind. *)
Theorem mark_init_starts (now : Z) (hex : string) (d d' : Db) :
  StoreWf d -> mark_init now hex d = (d', Ok None) -> Inv d' /\ chained (Some hex) None d'.
Proof.
  intros W E. enough (triple StoreWf (mark_init now hex)
    (fun o d => o = None -> Inv d /\ chained (Some hex) None d) (fun _ => True)) as Ht.
  { specialize (Ht d W). rewrite E in Ht. by apply Ht. }
  clear d d' W E. unfold mark_init. apply gets_bind. intros [|]; [by apply triple_ret|].
  apply (modify_bind _ (fun d => StoreWf d /\ blank d /\ t_marked d = ∅)); [intros d [W _]; split_and!; [by apply (wf_objects d)|done..]|].
  apply (modify_bind _ (fun d => (StoreWf d /\ blank d /\ t_marked d = ∅) /\ t_meta d !! "gc.phase" = None)).
  { intros d (W & Hb & Em). split; [|by apply wiped_meta]. split_and!; [by apply (wf_objects d)|apply Hb..|done]. }
  apply (modify_bind _ (fun d => (StoreWf d /\ blank d /\ t_marked d = ∅) /\ named hex d)).
  { intros d [(W & Hb & Em) Hp]. split; [split_and!; [by apply (wf_objects d)|apply Hb..|done]|].
    split; cbn; [apply lookup_insert_eq|]. by rewrite lookup_insert_ne. }
  set (Q := fun d => (StoreWf d /\ blank d /\ t_marked d = ∅) /\ named hex d).
  apply (triple_bind _ _ (fun _ => Q)); [intros d Hd; unfold meta; by destruct (t_meta d !! "refs_version")|intros v].
  assert (forall d k v, k <> "gc.chain" -> k <> "gc.phase" -> named hex d -> named hex (on_meta (insert k v) d)) as Hn.
  { intros d k w H1 H2 [H3 H4]. split; cbn; rewrite lookup_insert_ne; done. }
  apply (modify_bind _ Q).
  { intros d [(W & Hb & Em) Hp]. split; [split_and!; [by apply (wf_objects d)|apply Hb..|done]|]. by apply Hn. }
  apply gets_bind. intros barrier. apply gets_bind. intros cutoff.
  apply (modify_bind _ (fun d => (StoreWf d /\ blank d /\ cohort_ok d) /\ named hex d)).
  { intros d [[[(W & Hb & Em) Hp] _] _]. split; [|done]. split_and!; [by apply (wf_objects d)|apply Hb..|].
    by apply seed_marked_cohort. }
  apply gets_bind. intros n. case_match.
  { apply (triple_bind _ _ (fun _ _ => True)); [|intros _; by apply triple_ret].
    intros d _. destruct (wipe_all now d) as [d1 [u|e]]; done. }
  apply (modify_bind _ (fun d => (StoreWf d /\ blank d /\ cohort_ok d /\ rooted d) /\ named hex d)).
  { intros d [[(W & Hb & Hc) Hp] _]. split; [|done]. split_and!; [by apply (wf_objects d)|apply Hb..|done|].
    intros s Hs. cbn. apply seed_dom. by right. }
  apply (modify_bind _ (fun d => Inv d /\ named hex d)).
  { intros d [(W & Hb & Hc & Hr) Hp]. split; [|done]. apply blank_inv; [by apply (wf_objects d)|done| |done].
    intros s Hs. cbn. apply seed_dom. left. by apply Hr. }
  assert (stable_on (fun d => Inv d /\ named hex d)) as Hst by (unfold named; auto with gc_mark).
  apply (modify_bind _ (fun d => Inv d /\ named hex d)); [intros d [? ?]; split; [by apply (core_inv links d)|by apply Hn]|].
  apply failpoint_bind; [done|done|]. apply (triple_bind _ _ (fun _ d => Inv d /\ named hex d)).
  { destruct barrier; [|by apply triple_ret]. apply triple_modify. intros d [? ?].
    split; [by apply (core_inv links d)|by apply Hn]. }
  intros _. apply failpoint_bind; [done|done|]. by apply triple_ret.
Qed.
End Walk.
