(* ===== verification/Landing.v ===== *)
(** * A push keeps the mark's invariant

    [commit_push] (modelled in [Push]) runs between the spans of the mark.  Under
    the write barrier it keeps the invariant on every path (quota refusal,
    conflict, atomic refusal, partial landing, crash points), and it respects
    the chain it does not own: the rely condition of the walk. *)
From S2P Require Import Prelude Errors Db Jobs Cohort GcBase Compact Refs Push Sha Writer Reads Mark MarkFacts WalkFacts.
Open Scope Z_scope.

(** What a handler that is not the chain's own promises. *)
Definition guar (d d' : Db) : Prop :=
  t_meta d' !! "gc.chain" = t_meta d !! "gc.chain" /\ t_meta d' !! "gc.phase" = t_meta d !! "gc.phase" /\
  t_marked d' = t_marked d /\
  (forall s p o, t_objects d !! (s, p) = Some o -> pack_live d p = true ->
     t_objects d' !! (s, p) = Some o /\ pack_live d' p = true) /\
  (forall s, tracked d s -> tracked d' s).
#[global] Instance guar_preorder : PreOrder guar.
Proof.
  split; [intros d; split_and!; auto|]. intros a b c (A1 & A2 & A3 & A4 & A5) (B1 & B2 & B3 & B4 & B5).
  split_and!; [congruence..| |auto]. intros s p o H1 H2. destruct (A4 s p o H1 H2). by apply B4.
Qed.
Lemma ident_guar d d' : same_ident d d' -> guar d d'.
Proof.
  intros E. destruct d, d'. unfold same_ident, ident, core in E. simpl in E. injection E; intros; subst.
  split_and!; auto.
Qed.

Section Landing.
Context `{PF : Platform} `{PC : PackCodec} `{GO : GitObjects}.
Context (links : string -> list string).
Abbreviation Inv := (MarkInv links).

Lemma guar_env chain want d d' : (Inv d -> Inv d') -> guar d d' -> env_step links chain want d d'.
Proof.
  intros HI (G1 & G2 & G3 & G4 & G5). split; [done| | | |by intros _|by intros _].
  - unfold chained. by rewrite G1, G2.
  - intros _ p. unfold in_marked. by rewrite G3.
  - intros _ p m i. rewrite G3. eauto.
Qed.

(** ** Statements outside the chain's tables *)

Lemma ident_failpoint name : rel_ok same_ident (failpoint name).
Proof. intros d. apply failpoint_ident. Qed.
Lemma ident_enqueue k t p : rel_ok same_ident (enqueue k t p).
Proof. apply rel_ok_modify. intros d. unfold enqueue_db. by case_match. Qed.
Lemma ident_update_jobs p f : rel_ok same_ident (modify (update_jobs p f) : DoM unit).
Proof. by apply rel_ok_modify. Qed.
Lemma ident_meta (f : gmap string string -> gmap string string) :
  (forall m k, k ∈ ["gc.chain"; "gc.phase"; "obj_format"] -> f m !! k = m !! k) ->
  rel_ok same_ident (modify (on_meta f) : DoM unit).
Proof.
  intros Hf. apply rel_ok_modify. intros d. unfold same_ident, ident, obj_kind, meta_is. cbn [t_meta on_meta core].
  rewrite !Hf by set_solver. reflexivity.
Qed.
Lemma ident_bump : rel_ok same_ident bump_refs_version.
Proof.
  apply (ident_meta (alter _ "refs_version")). intros m k Hk. apply lookup_alter_ne. set_solver.
Qed.
Lemma ident_adopt_head : rel_ok same_ident (modify adopt_head : DoM unit).
Proof.
  intros d. unfold modify, adopt_head. cbn [fst]. repeat case_match; try reflexivity.
  apply (ident_meta (insert "head" _)). intros m k Hk. apply lookup_insert_ne. set_solver.
Qed.
Lemma ident_dropped g : rel_ok same_ident (modify (on_meta (fun m => insert "push_events_dropped" (g m) m)) : DoM unit).
Proof. apply ident_meta. intros m k Hk. apply lookup_insert_ne. set_solver. Qed.
Lemma ident_event push at_ body : rel_ok same_ident (modify (insert_event push at_ body) : DoM unit).
Proof. by apply rel_ok_modify. Qed.
Lemma ident_finish req st now rs : rel_ok same_ident (finish_push req st now rs).
Proof. unfold finish_push. apply rel_ok_bind; [apply _|by apply rel_ok_modify|intros _; apply rel_ok_ret; apply _]. Qed.
Lemma ident_meta_read k : rel_ok same_ident (meta k).
Proof. apply rel_ok_pure, _. Qed.
#[local] Hint Resolve ident_failpoint ident_enqueue ident_update_jobs ident_bump ident_adopt_head ident_dropped
  ident_event ident_finish ident_meta_read : git_edge.
Lemma ident_trigger now : rel_ok same_ident (trigger now).
Proof. unfold trigger, quarantine_load, quarantine_read, meta_opt. rel_tac. Qed.
Lemma ident_record req cmds rs now : rel_ok same_ident (record_push_event req cmds rs now).
Proof. unfold record_push_event. rel_tac. Qed.
Lemma ident_meta_i64 k : rel_ok same_ident (meta_i64 k).
Proof. unfold meta_i64. rel_tac. Qed.
#[local] Hint Resolve ident_trigger ident_record ident_meta_i64 : git_edge.

(** ** The pending row and the promotion *)

Lemma insert_pending_row pack d : exists r, r ∈ t_pending (insert_pending pack d) /\ pd_pack r = pack.
Proof.
  unfold insert_pending. destruct (existsb _ (t_pending d)) eqn:E.
  - apply existsb_exists in E as (r & Hr & Hp). exists r. split; [by apply list_elem_of_In|]. by bsimp.
  - eexists (mkPending (t_pending_seq d + 1) pack (-1)). split; [|done]. cbn. apply elem_of_app. right. left.
Qed.
Lemma insert_pending_inv pack d : Inv d -> Inv (insert_pending pack d).
Proof.
  intros I. unfold insert_pending. destruct (existsb _ (t_pending d)); [done|]. set (d' := on_pending _ _).
  set (r0 := mkPending (t_pending_seq d + 1) pack (-1)).
  assert (t_pending d' = t_pending d ++ [r0]) as En by done. assert (same_store d d') as Hs by done.
  assert (forall r, r ∈ t_pending d' -> r ∈ t_pending d \/ r = r0) as Hin.
  { rewrite En. intros r. rewrite elem_of_app, list_elem_of_singleton. done. }
  destruct (mi_seqs _ d I) as [Hn Hm]. apply (inv_grow links d); [done..| | | | |split].
  - intros s. apply covered_grow; [done|done|]. intros (r & o & H1 & H2). right; right; left. exists r, o.
    split; [rewrite En; apply elem_of_app; by left|done].
  - by intros s c H1 H2 [H3|H3].
  - intros s Hs'. by apply (mi_kept _ d I).
  - intros r Hr Hl. destruct (Hin r Hr) as [?| ->]; [by apply (mi_fresh _ d I)|done].
  - rewrite En, map_app. apply NoDup_app. split_and!; [done| |by apply NoDup_singleton].
    cbn [map]. intros x Hx. rewrite list_elem_of_singleton. simpl. intros ->. apply elem_of_map in Hx as (r & Hq & Hr).
    specialize (Hm r Hr). lia.
  - intros r Hr. destruct (Hin r Hr) as [H1| ->]; [specialize (Hm r H1)|]; cbn; lia.
Qed.
Definition promoted (pack : string) (r : PackSql) (d : Db) : Db := on_packs (insert pack (set_state Live r)) d.
Lemma promoted_live pack r d p : pack_live (promoted pack r d) p = bool_decide (p = pack) || pack_live d p.
Proof.
  unfold pack_live, promoted. cbn. destruct (decide (p = pack)) as [->|Hne].
  - rewrite lookup_insert_eq. by rewrite !bool_decide_true by done.
  - rewrite lookup_insert_ne by done. by rewrite (bool_decide_false (p = pack)) by done.
Qed.
Lemma promoted_kept pack r d s : kept d s -> kept (promoted pack r d) s.
Proof.
  intros [(p & H1 & H2 & H3)|(p & o & m & H1 & H2 & H3)]; [left; exists p|right; exists p, o, m];
    rewrite promoted_live, H2, orb_true_r; done.
Qed.
Lemma promoted_covered pack r d :
  Inv d -> t_packs d !! pack = Some r -> pk_state r <> Live -> (exists pr, pr ∈ t_pending d /\ pd_pack pr = pack) ->
  forall s, covered links d s -> covered links (promoted pack r d) s.
Proof.
  intros I Hr Hst (pr & Hpr & Hpp) s. set (d' := promoted pack r d).
  assert (pack_live d pack = false) as Hdead by (unfold pack_live; rewrite Hr; by rewrite bool_decide_false).
  assert (in_marked d pack = false) as Hm.
  { destruct (in_marked d pack) eqn:E; [|done]. apply (mi_cohort _ d I) in E. congruence. }
  intros [?|[?|[(r' & o & H1 & H2 & H3 & H4)|[Hn|[(p & H1 & H2 & H3) Hl]]]]].
  - by left.
  - by right; left.
  - right; right; left. exists r', o. unfold d'. rewrite promoted_live, H3, orb_true_r. done.
  - destruct (has_live_row d' s) eqn:E; [|do 3 right; left; rewrite <- has_live_row_iff; congruence].
    apply has_live_row_iff in E as (p & [o Ho] & Hlive). unfold d' in Hlive. rewrite promoted_live in Hlive.
    destruct (decide (p = pack)) as [->|Hne].
    + right; right; left. exists pr, o. unfold d'. rewrite Hpp, promoted_live, bool_decide_true by done.
      split_and!; [done..|]. rewrite (mi_fresh _ d I pr Hpr) by by rewrite Hpp.
      pose proof (mi_idx0 _ d I s pack o Ho). lia.
    + rewrite bool_decide_false in Hlive by done. destruct Hn. exists p. split; [by exists o|done].
  - do 4 right. split; [|done]. exists p. unfold d'. rewrite promoted_live, H2, orb_true_r. done.
Qed.
Lemma promoted_inv pack r d :
  Inv d -> t_packs d !! pack = Some r -> pk_state r <> Live -> (exists pr, pr ∈ t_pending d /\ pd_pack pr = pack) ->
  Inv (promoted pack r d).
Proof.
  intros I Hr Hst Hp. pose proof (promoted_covered pack r d I Hr Hst Hp) as Hc. split.
  - intros s Hs Hn. apply Hc. by apply (mi_roots _ d I).
  - intros s c H1 H2 H3. apply Hc. by apply (mi_closed _ d I s).
  - intros s Hs. apply promoted_kept. by apply (mi_kept _ d I).
  - intros p Hm. rewrite promoted_live, (mi_cohort _ d I p Hm). apply orb_true_r.
  - intros x Hx. rewrite promoted_live. intros [_ Hl]%orb_false_iff. by apply (mi_fresh _ d I).
  - apply (mi_seqs _ d I).
  - apply (mi_blobs _ d I).
  - apply (mi_idxs _ d I).
  - apply (mi_idx0 _ d I).
  - apply (mi_hex _ d I).
Qed.

(** ** The feed and the ref write *)

Lemma feed_dom feeds d x :
  x ∈ dom (t_frontier (feed_frontier feeds d)) <-> x ∈ dom (t_frontier d) \/ (x ∈ feeds /\ x ∉ t_seen d).
Proof.
  assert (forall m y, feed_one d y m = admit_one (fun g => Z.min g 1) 1 (t_seen d) m y) as E.
  { intros m y. unfold feed_one, admit_one. case_bool_decide; [done|]. by destruct (m !! y). }
  unfold feed_frontier. cbn [t_frontier on_frontier].
  replace (fold_left (fun m s => feed_one d s m) feeds (t_frontier d))
    with (fold_left (admit_one (fun g => Z.min g 1) 1 (t_seen d)) feeds (t_frontier d)); [apply admit_dom|].
  generalize (t_frontier d) as m. induction feeds as [|y feeds IH]; intros m; cbn [fold_left]; [done|]. by rewrite E.
Qed.
Lemma feed_inv feeds d : Inv d -> Inv (feed_frontier feeds d).
Proof.
  intros I. assert (same_store d (feed_frontier feeds d)) as Hs by done. apply (inv_grow links d); [done..| | | | |].
  - intros s. apply covered_grow; [done| |by apply awaits_page_same].
    intros x [?|?]; [by left|right]. apply feed_dom. by left.
  - intros s c H1 H2 [H3|H3]; [done|]. destruct H2. apply feed_dom. by left.
  - intros s Hx. by apply (mi_kept _ d I).
  - apply (mi_fresh _ d I).
  - apply (mi_seqs _ d I).
Qed.
Lemma feed_guar feeds d : guar d (feed_frontier feeds d).
Proof.
  split_and!; [done..|by intros|]. intros s [?|?]; [by left|right]. apply feed_dom. by left.
Qed.
(** A ref may point at what is tracked; the peeled target too, unless it is null. *)
Lemma refs_inv f d :
  Inv d ->
  (forall name r, f (t_refs d) !! name = Some r -> t_refs d !! name = Some r \/
     (tracked d (rf_target r) /\ forall p, rf_peeled r = Some p -> is_null p = false -> tracked d p)) ->
  Inv (on_refs f d).
Proof.
  intros I Hf. assert (forall s, tracked d s -> covered links (on_refs f d) s) as Ht
    by (intros s [?|?]; [by left|by right; left]).
  split; [|apply I..]. intros s Hs Hn. unfold roots in Hs. cbn [t_refs on_refs t_pins] in Hs.
  rewrite !elem_of_app in Hs. assert (forall s, s ∈ roots d -> is_null s = false -> covered links (on_refs f d) s) as Hold
    by (intros x Hx Hxn; exact (mi_roots _ d I x Hx Hxn)).
  destruct Hs as [Hs|[Hs|Hs]].
  - apply elem_of_map in Hs as ([n r] & <- & Hr). apply elem_of_map_to_list in Hr.
    destruct (Hf n r Hr) as [H1|[H1 _]]; [|by apply Ht]. apply Hold; [|done]. unfold roots. apply elem_of_app. left.
    apply elem_of_map. exists (n, r). split; [done|]. by apply elem_of_map_to_list.
  - apply list_elem_of_omap in Hs as ([n r] & Hr & Hp). apply elem_of_map_to_list in Hr. simpl in Hp.
    destruct (Hf n r Hr) as [H1|[_ H1]]; [|by apply Ht, H1]. apply Hold; [|done]. unfold roots.
    rewrite !elem_of_app. right; left. apply list_elem_of_omap. exists (n, r). split; [by apply elem_of_map_to_list|done].
  - apply Hold; [|done]. unfold roots. rewrite !elem_of_app. by right; right.
Qed.
Definition fed (c : Cmd) (d : Db) : Prop :=
  is_null (c_new c) = false ->
  tracked d (c_new c) /\ forall p, c_peeled c = Some p -> is_null p = false -> tracked d p.
Lemma str_any_all f s : str_any (fun b => negb (f b)) s = negb (str_all f s).
Proof. induction s as [|a s IH]; simpl; [done|]. rewrite IH. by destruct (f a). Qed.
Lemma feed_fed c d : fed c (feed_frontier (feeds_of c) d).
Proof.
  assert (forall x, x ∈ feeds_of c -> tracked (feed_frontier (feeds_of c) d) x) as Hx.
  { intros x Hx. destruct (decide (x ∈ t_seen d)); [by left|right]. apply feed_dom. by right. }
  intros _. split; [apply Hx; left|]. intros p Hp Hn. apply Hx. unfold feeds_of. rewrite Hp. right.
  assert (str_any (fun b => negb (Ascii.eqb b "0")) p = true) as ->; [|left].
  assert (str_all (fun b => Ascii.eqb b "0") p = is_null p) as E.
  { unfold is_null. clear. induction p as [|a p IH]; simpl; [done|]. by rewrite IH, Ascii.eqb_sym. }
  by rewrite (str_any_all (fun b => Ascii.eqb b "0")), E, Hn.
Qed.
Lemma refs_guar f d : guar d (on_refs f d).
Proof. split_and!; by intros. Qed.
Lemma write_ref_inv now c d :
  Inv d -> fed c d -> is_null (c_old c) && is_null (c_new c) = false -> Inv (write_ref now c d).1.
Proof.
  intros I Hfed Hnn. assert (is_null (c_new c) = false ->
    Inv (on_refs (insert (c_name c) (mkRef (c_new c) (c_peeled c) now)) d)) as Hins.
  { intros Hn. apply refs_inv; [done|]. intros n r Hr. destruct (decide (n = c_name c)) as [->|Hne].
    - rewrite lookup_insert_eq in Hr. injection Hr as <-. right. by apply Hfed.
    - rewrite lookup_insert_ne in Hr by done. by left. }
  unfold write_ref. destruct (is_null (c_old c)).
  - destruct (t_refs d !! c_name c); [done|]. by apply Hins.
  - destruct (t_refs d !! c_name c); [|done]. case_match; [|done]. case_match eqn:En; [|by apply Hins].
    apply refs_inv; [done|]. intros n r0 Hr. left. by apply lookup_delete_Some in Hr as [_ ?].
Qed.

(** ** The commit *)

Section Commit.
Context (d0 : Db).
Definition good (d : Db) : Prop := Inv d /\ guar d0 d.
Lemma good_stable : stable_on good.
Proof.
  intros d d' E [I G]. split; [by apply (stable_inv links d)|]. etrans; [exact G|]. by apply ident_guar.
Qed.
Lemma fed_stable c : stable_on (fed c).
Proof. by_fields. Qed.
Lemma good_ident {A} (m : DoM A) : rel_ok same_ident m -> triple good m (fun _ => good) good.
Proof. intros Hm. apply triple_ident; [done|apply good_stable|done]. Qed.
Lemma ident_then {A B} P (m : DoM A) (f : A -> DoM B) R X :
  rel_ok same_ident m -> stable_on P -> (forall d, P d -> X d) -> (forall a, triple P (f a) R X) -> triple P (m ≫= f) R X.
Proof. intros Hm HP HX Hf. eapply triple_bind; [by apply triple_ident|exact Hf]. Qed.

Lemma write_landing_keeps push who now c :
  is_null (c_old c) && is_null (c_new c) = false ->
  triple (fun d => good d /\ fed c d) (write_landing push who now true c) (fun _ => good) good.
Proof.
  intros Hnn d [[I G] Hf]. unfold write_landing. cbv zeta. pose proof (write_ref_inv now c d I Hf Hnn) as Iw.
  assert (guar d (write_ref now c d).1) as Gw.
  { unfold write_ref. repeat case_match; first [reflexivity|apply refs_guar]. }
  assert (good (write_ref now c d).1) as Hw by (split; [done|by etrans]).
  destruct (negb ((write_ref now c d).2 =? 1)); [done|]. revert Hw. generalize (write_ref now c d).1. clear d I G Hf Iw Gw.
  change (triple good (modify (on_reflog (fun l => l ++ [mkReflog (c_name c) (c_old c) (c_new c) push who now])) ≫= fun _ =>
    (if true then failpoint "gc.barrier.after" else mret tt) ≫= fun _ => mret None : DoM (option string)) (fun _ => good) good).
  apply ident_then; [by apply rel_ok_modify|apply good_stable|done|intros _].
  apply ident_then; [apply ident_failpoint|apply good_stable|done|intros _]. by apply triple_ret.
Qed.
Lemma apply_one_keeps head c push who now scopes :
  triple good (apply_one head c push who now true true scopes) (fun _ => good) good.
Proof.
  intros d Hd. unfold apply_one. cbn [negb]. unfold mbind at 1, M_bind at 1, gets.
  destruct (gate d head scopes c) eqn:Eg; [done|].
  assert (is_null (c_old c) && is_null (c_new c) = false) as Hnn.
  { unfold gate in Eg. repeat (case_match; [done|]). by destruct (_ && is_null (c_new c)). }
  unfold mbind at 1, M_bind at 1, lift. destruct (target_gate d c) as [[why|]|e]; [done| |done].
  destruct (ref_cas_ok _ _ _ _); cbn [negb]; [|done]. revert d Hd Eg. intros d Hd _. revert d Hd.
  apply (triple_bind good _ (fun _ d => good d /\ fed c d)).
  - destruct (is_null (c_new c)) eqn:En; [apply triple_ret; intros d Hd; split; [done|]; unfold fed; by rewrite En|].
    apply ident_then; [apply ident_failpoint|apply good_stable|done|intros _]. apply triple_modify. intros d [I G].
    split; [split; [by apply feed_inv|etrans; [exact G|apply feed_guar]]|apply feed_fed].
  - intros _. apply ident_then; [apply ident_bump|apply stable_and; [apply good_stable|apply fed_stable]|by intros d []|].
    intros _. by apply write_landing_keeps.
Qed.
Lemma run_cmds_keeps head push who now scopes cmds :
  triple good (run_cmds cmds (fun c => apply_one head c push who now true true scopes)) (fun _ => good) good.
Proof.
  induction cmds as [|c cmds IH]; cbn [run_cmds]; [by apply triple_ret|].
  eapply triple_bind; [apply apply_one_keeps|intros r]. eapply triple_bind; [apply IH|intros rs]. by apply triple_ret.
Qed.
Lemma commit_land_keeps now req cmds head scopes :
  triple good (commit_land now req cmds
    (fun write c => apply_one head c (cr_push req) (cr_principal req) now write true scopes)) (fun _ => good) good.
Proof.
  unfold commit_land. eapply triple_bind; [apply run_cmds_keeps|intros rs]. apply good_ident. rel_tac.
Qed.

(** *** The refused atomic push leaves no trace *)

Definition undo (pack push : string) (d : Db) : Db :=
  on_pending (List.filter (fun r => negb (String.eqb (pd_pack r) pack))) (demote pack push d).
Lemma undo_stable pack push : stable_on (fun d => good (undo pack push d)).
Proof.
  intros d d' E. apply good_stable. destruct d, d'. unfold ident, core in E. simpl in E. injection E; intros; subst.
  unfold ident, core, undo, obj_kind, meta_is in *. simpl in *. congruence.
Qed.
Lemma drop_pack_inv pack d :
  Inv d -> pack_live d pack = false ->
  Inv (on_pending (List.filter (fun r => negb (String.eqb (pd_pack r) pack))) d).
Proof.
  intros I Hl. apply pending_inv; [done| | |apply seqs_filter, (mi_seqs _ d I)].
  - intros s (r & o & H1 & H2 & H3 & H4). right; right; left. exists r, o. split; [|done]. cbn.
    apply elem_of_filter_b. split; [done|]. apply negb_true_iff, String.eqb_neq. intros E. congruence.
  - intros r Hr. apply elem_of_filter_b in Hr as [Hr _]. exists r. by apply row_from_self.
Qed.
Lemma undo_promoted pack push r d :
  good d -> t_packs d !! pack = Some r -> pk_state r = Ingesting -> pk_push r = Some push ->
  good (undo pack push (promoted pack r d)).
Proof.
  intros [I G] Hr Hst Hp. assert (pack_live d pack = false) as Hl
    by (unfold pack_live; rewrite Hr, Hst; by rewrite bool_decide_false).
  assert (undo pack push (promoted pack r d)
    = on_pending (List.filter (fun r => negb (String.eqb (pd_pack r) pack))) d) as E.
  { unfold undo, promoted, demote, on_pending, on_packs. cbn. f_equal. apply map_eq. intros p.
    destruct (decide (p = pack)) as [->|Hne].
    - rewrite lookup_alter_eq, lookup_insert_eq, Hr. cbn. rewrite bool_decide_true by done.
      destruct r. simpl in *. by subst.
    - by rewrite lookup_alter_ne, lookup_insert_ne. }
  rewrite E. split; [by apply drop_pack_inv|]. etrans; [exact G|]. split_and!; by intros.
Qed.
Definition landed_ok (push : string) (pack : option string) (d : Db) : Prop :=
  match pack with Some p => good (undo p push d) | None => True end.
Lemma promote_keeps now push pack :
  triple (fun d => good d /\ exists pr, pr ∈ t_pending d /\ pd_pack pr = pack)
    ((fun d => ((promote pack push d).1, Ok (promote pack push d).2)) ≫= fun n : Z =>
     if negb (n =? 1) then fail (Conflict "pack not in state ingesting")
     else ((fun d => ((trigger now d).1, Ok None)) : DoM (option string)))
    (fun o d => good d /\ (o = None -> landed_ok push (Some pack) d)) good.
Proof.
  intros d [[I G] Hpr]. unfold mbind, M_bind, promote. destruct (t_packs d !! pack) as [r|] eqn:Er; [|done].
  destruct (bool_decide (pk_state r = Ingesting) && bool_decide (pk_push r = Some push)) eqn:Eb; [|done]. bsimp.
  assert (good (promoted pack r d)) as Hg.
  { split; [apply promoted_inv; [done|done|congruence|done]|]. etrans; [exact G|]. split_and!; [done..| |by intros].
    intros s p o H1 H2. by rewrite promoted_live, H2, orb_true_r. }
  pose proof (undo_promoted pack push r d (conj I G) Er ltac:(done) ltac:(done)) as Hu. cbn.
  pose proof (ident_trigger now (promoted pack r d)) as Et. unfold promoted in *.
  split; [by apply (good_stable _ _ Et)|]. intros _. by apply (undo_stable pack push _ _ Et).
Qed.
Lemma land_pack_keeps now push pack :
  triple good (land_pack now true push pack) (fun o d => good d /\ (o = None -> landed_ok push (Some pack) d)) good.
Proof.
  unfold land_pack. apply gets_bind. intros [m|]; [apply triple_ret; intros d [? _]; by split|].
  apply (triple_bind _ _ (fun _ d => good d /\ exists pr, pr ∈ t_pending d /\ pd_pack pr = pack)); [|intros _; apply promote_keeps].
  unfold barrier_write_pending_before_promote. eapply triple_pre; [by intros d [? _]|].
  apply ident_then; [apply ident_failpoint|apply good_stable|done|intros _].
  apply (modify_bind _ (fun d => good d /\ exists pr, pr ∈ t_pending d /\ pd_pack pr = pack)).
  - intros d [I G]. split; [|apply insert_pending_row]. split; [by apply insert_pending_inv|].
    etrans; [exact G|]. unfold insert_pending. case_match; [done|]. split_and!; by intros.
  - assert (stable_on (fun d => good d /\ exists pr, pr ∈ t_pending d /\ pd_pack pr = pack)) as Hst.
    { apply stable_and; [apply good_stable|]. by_fields. }
    apply ident_then; [apply ident_bump|done|by intros d []|intros _].
    apply triple_ident; [apply ident_failpoint|done|by intros d []].
Qed.
Lemma atomic_refuse_keeps now req rs :
  triple (fun d => good d /\ landed_ok (cr_push req) (cr_pack req) d) (atomic_refuse now true req rs) (fun _ => good) good.
Proof.
  unfold atomic_refuse. apply (triple_bind _ _ (fun _ => good)); [|intros _; apply good_ident, ident_finish].
  destruct (cr_pack req) as [pack|]; [|apply triple_ret; by intros d []].
  intros d [_ Hu]. exact Hu.
Qed.
Lemma run_dry_keeps head push who now scopes cmds P X :
  (forall d, P d -> X d) ->
  triple P (run_cmds cmds (fun c => apply_one head c push who now false true scopes)) (fun _ => P) X.
Proof.
  intros HX. assert (forall c d, (apply_one head c push who now false true scopes d).1 = d) as Ha.
  { intros c d. unfold apply_one, mbind, M_bind, gets, lift, mret, M_ret. cbn [negb]. repeat case_match; simplify_eq; done. }
  assert (forall d, (run_cmds cmds (fun c => apply_one head c push who now false true scopes) d).1 = d) as Hr.
  { induction cmds as [|c cmds IH]; intros d; cbn [run_cmds]; [done|]. unfold mbind, M_bind, mret, M_ret.
    specialize (Ha c d). destruct (apply_one _ _ _ _ _ _ _ _ d) as [d1 [r|e]]; simpl in Ha; subst; [|done].
    specialize (IH d). destruct (run_cmds _ _ d) as [d2 [rs|e]]; simpl in *; by subst. }
  intros d Hd. specialize (Hr d). destruct (run_cmds _ _ d) as [d1 [rs|e]]; simpl in Hr; subst; auto.
Qed.
Lemma commit_apply_keeps now req cmds scopes :
  triple (fun d => good d /\ landed_ok (cr_push req) (cr_pack req) d) (commit_apply now true req cmds scopes) (fun _ => good) good.
Proof.
  unfold commit_apply. apply (triple_bind _ _ (fun _ d => good d /\ landed_ok (cr_push req) (cr_pack req) d)).
  { intros d [Hd Hl]. unfold meta. by destruct (t_meta d !! "head"). }
  intros head. destruct (cr_atomic req).
  - eapply triple_bind; [apply run_dry_keeps; by intros d []|]. intros dry. case_match; [apply atomic_refuse_keeps|].
    eapply triple_pre; [|apply commit_land_keeps]. by intros d [].
  - eapply triple_pre; [|apply commit_land_keeps]. by intros d [].
Qed.

Lemma commit_push_good now req :
  Inv d0 -> (barrier_active d0).2 = Ok true -> good (commit_push now req d0).1.
Proof.
  intros I Hb. assert (good d0) as Hg by by split. unfold commit_push.
  apply (triple_end (fun d => d = d0)); [|done].
  eapply triple_bind; [apply (triple_lift _ _ good); by intros d ->|intros cmds].
  apply gets_bind. intros [p|]; [|apply triple_fail; by intros d [[-> _] _]].
  case_match; [apply triple_fail; by intros d [[-> _] _]|].
  assert (forall st rs, triple (fun d => d = d0) (finish_push req st now rs) (fun _ => good) good) as Hfin.
  { intros st rs. eapply triple_pre; [|apply good_ident, ident_finish]. by intros d ->. }
  apply gets_bind. intros [cur|why]; [|eapply triple_pre; [|apply Hfin]; by intros d [[[-> _] _] _]].
  apply (triple_bind _ _ (fun _ d => d = d0)).
  { intros d [[[-> _] _] _]. unfold meta_i64, meta, lift, mbind, M_bind. by repeat case_match; simplify_eq. }
  intros epoch. case_match; [apply Hfin|].
  apply (triple_bind _ _ (fun b d => good d /\ b = true)).
  { intros d ->. unfold barrier_active, gets in *. by injection Hb as ->. }
  intros barrier. apply triple_pure. intros ->.
  apply (triple_bind _ _ (fun o d => good d /\ (o = None -> landed_ok (cr_push req) (cr_pack req) d))).
  { destruct (cr_pack req) as [pack|]; [apply land_pack_keeps|by apply triple_ret]. }
  intros [m|].
  - apply (triple_bind _ _ (fun _ => good)); [eapply triple_pre; [|apply good_ident, ident_finish]; by intros d []|intros _].
    by apply triple_fail.
  - eapply triple_pre; [|apply commit_apply_keeps]. intros d [H1 H2]. split; [done|by apply H2].
Qed.
End Commit.

(** C7: a push during the mark.  While a barrier chain is active, every run of
    [commit_push] — landed, refused, rolled back or failed at any point — keeps
    the mark's invariant and respects the chain: its cohort, bits, live rows and
    frontier all stand.  This is the rely condition of the walk, so pushes and
    the mark may interleave at every wait. *)
Theorem push_respects_mark (now : Z) (req : CommitRequest) (chain want : option string) (d : Db) :
  Inv d -> (barrier_active d).2 = Ok true -> env_step links chain want d (commit_push now req d).1.
Proof. intros I Hb. destruct (commit_push_good d now req I Hb) as [I' G]. by apply guar_env. Qed.
End Landing.
