(* ===== verification/Sweep.v ===== *)
(** * The sweep

    [gc_sweep] of [server/src/jobs/gc.rs] with everything it decides: the
    flag-off sweep, the drain loop, the fenced swap, the bounded-retry fallback,
    the retirement and its resumption, and the end-of-chain bookkeeping.  The
    JSON texts of [gc.swap], [gc.retire] and [gc_last_swap] are serde_json's. *)
From S2P Require Import Prelude Errors Db Jobs Cohort GcBase Compact Refs Push Sha Writer Reads Mark.
Open Scope Z_scope.

Record SwapMeta : Type := mkSwapMeta { sm_rv : Z; sm_tries : Z; sm_slices : Z }.
Record RetireIntent : Type := mkRetire { ri_ids : list string; ri_lossy : bool; ri_fallback : bool }.
Record SwapStats : Type := mkStats { ss_retired : Z; ss_kept : Z; ss_retired_bytes : Z; ss_kept_bytes : Z }.
Inductive Check : Type := CDone | CDrain | CFinished.
Class SweepJson : Type := {
  swap_parse : string -> option SwapMeta;
  swap_encode : SwapMeta -> string;
  retire_parse : string -> option RetireIntent;
  retire_encode : RetireIntent -> string;
  last_swap_encode : SwapStats -> bool -> bool -> SwapMeta -> string
}.

(** ** Bitmap predicates *)

Definition ones (b : Z) : Z := Z.of_nat (length (List.filter (Z.testbit b) (map Z.of_nat (seq 0 8)))).
(** [b & !built == 0] for every byte; a byte missing from [built] is 0. *)
Fixpoint bm_bitmap_subset (bitmap built : list Z) : bool :=
  match bitmap with
  | [] => true
  | b :: bitmap' =>
      (Z.ldiff b (match built with x :: _ => x | [] => 0 end) =? 0)
      && bm_bitmap_subset bitmap' (match built with _ :: l => l | [] => [] end)
  end.
Fixpoint lossy_count (built : list Z) (i count : Z) : Z :=
  match built with
  | [] => 0
  | b :: built' =>
      let keep := Z.min 8 (Z.max 0 (count - i * 8)) in
      ones (Z.land b (Z.shiftl 1 keep - 1)) + lossy_count built' (i + 1) count
  end.
Definition bm_lossy (built : list Z) (count : Z) : bool :=
  lossy_count built 0 (Z.max 0 count) <? Z.max 0 count.
Definition bm_all_set (built : list Z) (idxs : list Z) : bool :=
  forallb (fun i => (0 <=? i) && (i <=? u32_max) && bm_get built i) idxs.

Section Sweep.
Context `{Platform} `{PackCodec} `{GitObjects} `{SweepJson}.

(** ** Bookkeeping *)

Definition swap_meta : DoM SwapMeta :=
  s ← meta_opt "gc.swap";
  match s ≫= swap_parse with
  | Some sm => mret sm
  | None => rv ← meta_i64 "refs_version"; mret (mkSwapMeta rv 0 0)
  end.
Definition swap_meta_store (sm : SwapMeta) : DoM unit := put "gc.swap" (swap_encode sm).
Definition built_null (d : Db) : bool :=
  existsb (fun kv => negb (is_some (mk_built kv.2))) (map_to_list (t_marked d)).
(** [LIKE 'resurrected.gc_%']: the underscore stands for any one character. *)
Definition is_resurrected_gc (k : string) : bool :=
  match strip_prefix "resurrected.gc" (str_map to_lower k) with Some (String _ _) => true | _ => false end.
Definition wipe_resurrected (d : Db) : Db := on_meta (filter (fun kv => is_resurrected_gc kv.1 = false)) d.
Definition sum_bytes_of (p : string -> PackSql -> bool) (d : Db) : Z :=
  fold_right (fun kv n => if p kv.1 kv.2 then pk_bytes kv.2 + n else n) 0 (map_to_list (t_packs d)).
Definition swap_stats (ids : list string) (d : Db) : SwapStats :=
  let kept id r := in_marked d id && bool_decide (pk_state r = Live) in
  mkStats (Z.of_nat (length ids)) (count_packs kept d)
    (sum_bytes_of (fun id _ => bool_decide (id ∈ ids)) d) (sum_bytes_of kept d).
Definition end_of_chain (now : Z) (stats : SwapStats) (lossy fallback : bool) (sm : SwapMeta) : DoM unit :=
  put "gc_last_swap" (last_swap_encode stats lossy fallback sm) ≫= fun _ =>
  prev ← gets (fun d => unwrap_or 0 (t_meta d !! "gc_fallbacks" ≫= parse_i64));
  put "gc_fallbacks" (z_to_string (if fallback then sat_add64 prev 1 else 0)) ≫= fun _ =>
  modify wipe_resurrected ≫= fun _ =>
  modify wipe_gc_meta ≫= fun _ =>
  modify wipe_scratch ≫= fun _ =>
  trigger now ≫= fun _ => release_hold now.

(** ** The flag-off sweep *)

Definition pr5_sweep (now : Z) : DoM SliceOutcome :=
  moved ← refs_moved;
  if (moved : bool) then abort now
  else
    modify (meta_incr "gc_epoch") ≫= fun _ =>
    modify (fun d => kill_packs (fun id _ => in_marked d id) now d) ≫= fun _ =>
    failpoint "gc.sweep.after_deadmark" ≫= fun _ =>
    modify (fun d => delete_objects (in_marked d) d) ≫= fun _ =>
    modify wipe_resurrected ≫= fun _ =>
    modify wipe_gc_meta ≫= fun _ =>
    modify wipe_scratch ≫= fun _ => mret Done.

(** ** Retirement *)

Definition wipe_path (now : Z) (sm : SwapMeta) (fallback : bool) : DoM unit :=
  stats ← gets (swap_stats []);
  modify (fun d => delete_objects (fun p => in_marked d p && negb (pack_live d p)) d) ≫= fun _ =>
  wipe_all now ≫= fun _ =>
  end_of_chain now stats false fallback sm.
Definition retire_finish (now : Z) (it : RetireIntent) (sm : SwapMeta) : DoM unit :=
  modify (kill_packs (fun id r => bool_decide (id ∈ ri_ids it) && bool_decide (pk_state r = Live)) now) ≫= fun _ =>
  stats ← gets (swap_stats (ri_ids it));
  failpoint (if ri_fallback it then "gc.swap.fallback.after_deadmark" else "gc.swap.after_deadmark") ≫= fun _ =>
  modify (delete_objects (fun p => bool_decide (p ∈ ri_ids it))) ≫= fun _ =>
  end_of_chain now stats (ri_lossy it) (ri_fallback it) sm.
Definition retire_span (now : Z) (it : RetireIntent) (sm : SwapMeta) : DoM unit :=
  put "gc.retire" (retire_encode it) ≫= fun _ =>
  (if ri_lossy it
   then modify (meta_incr "gc_epoch") ≫= fun _ => failpoint "gc.swap.after_epoch"
   else mret tt) ≫= fun _ =>
  retire_finish now it sm.
Definition count_live (ids : list string) (d : Db) : Z :=
  count_packs (fun id r => bool_decide (id ∈ ids) && bool_decide (pk_state r = Live)) d.
Definition retire_resume (now : Z) (job : Job) (chain : option string) : DoM (option SliceOutcome) :=
  raw ← meta_opt "gc.retire";
  match raw with
  | None => mret None
  | Some raw =>
      f ← phase_fence now job chain (Some "sweep");
      if negb f then mret (Some Done)
      else
        sm ← swap_meta;
        match retire_parse raw with
        | None => wipe_path now sm false ≫= fun _ => mret (Some Done)
        | Some it =>
            live_n ← gets (fun d => match ri_ids it with [] => -1 | _ => count_live (ri_ids it) d end);
            if live_n =? Z.of_nat (length (ri_ids it)) then modify (meta_delete "gc.retire") ≫= fun _ => mret None
            else if live_n =? 0 then retire_finish now it sm ≫= fun _ => mret (Some Done)
            else wipe_path now sm (ri_fallback it) ≫= fun _ => mret (Some Done)
        end
  end.

(** ** The swap decision *)

(** [marked JOIN packs]. *)
Definition cohort_rows (d : Db) : list (string * MarkedSql * PackSql) :=
  omap (fun kv => match t_packs d !! kv.1 with Some r => Some (kv.1, kv.2, r) | None => None end)
    (map_to_list (t_marked d)).
Definition subset_row (e : string * MarkedSql * PackSql) : bool :=
  match mk_built e.1.2 with Some built => bm_bitmap_subset (mk_bitmap e.1.2) built | None => false end.
Definition row_lossy (e : string * MarkedSql * PackSql) : bool :=
  match mk_built e.1.2 with Some built => bm_lossy built (pk_count e.2) | None => false end.
Definition build_dead (d : Db) : bool :=
  match t_meta d !! "gc.new_pack" with Some p => negb (pack_live d p) | None => false end.
Definition fenced_swap (now : Z) (sm : SwapMeta) : DoM unit :=
  cl ← cohort_live;
  if negb cl then wipe_path now sm false
  else
    dead ← gets build_dead;
    if (dead : bool) then wipe_path now sm false
    else
      rows ← gets (fun d => List.filter subset_row (cohort_rows d));
      match rows with
      | [] => wipe_path now sm false
      | _ => retire_span now (mkRetire (map (fun e => e.1.1) rows) (existsb row_lossy rows) false) sm
      end.

(** The entries of a pack with no live copy outside the cohort. *)
Definition copied_out (d : Db) (sha : string) : bool :=
  existsb (fun kv => negb (in_marked d kv.1.2)) (live_rows d sha).
Definition needed (d : Db) (pack : string) : list Z :=
  map (fun r => ob_idx r.2) (List.filter (fun r => negb (copied_out d r.1)) (pack_rows d pack)).
Definition fallback_row (d : Db) (e : string * MarkedSql * PackSql) : bool :=
  match mk_built e.1.2 with Some built => bm_all_set built (needed d e.1.1) | None => false end.
Definition fallback_span (now : Z) (sm : SwapMeta) : DoM unit :=
  cl ← cohort_live;
  if negb cl then wipe_path now sm true
  else
    dead ← gets build_dead;
    if (dead : bool) then wipe_path now sm true
    else
      n_bytes ← gets (fun d => match t_meta d !! "gc.new_pack" ≫= fun p => t_packs d !! p with
                               | Some r => pk_bytes r | None => 0 end);
      rows ← gets (fun d => List.filter (fallback_row d) (cohort_rows d));
      let bytes := fold_left (fun n e => sat_add64 n (pk_bytes e.2)) rows 0 in
      match rows with
      | [] => wipe_path now sm true
      | _ => if bytes <? n_bytes then wipe_path now sm true
             else retire_span now (mkRetire (map (fun e => e.1.1) rows) false true) sm
      end.
Definition swap_check (now : Z) (job : Job) (chain : option string) : DoM Check :=
  f ← phase_fence now job chain (Some "sweep");
  if negb f then mret CDone
  else
    failpoint "gc.swap.before" ≫= fun _ =>
    modify drop_dead_pending ≫= fun _ =>
    sm ← swap_meta;
    empty ← gets (fun d => bool_decide (t_frontier d = ∅) && (length (t_pending d) =? 0)%nat);
    if (empty : bool) then
      swap_meta_store sm ≫= fun _ =>
      fenced_swap now sm ≫= fun _ => mret CFinished
    else
      k ← gets (fun d => unwrap_or 8 (knob d "swap_tries"));
      s ← gets (fun d => unwrap_or 64 (knob d "swap_max_slices"));
      if (k <=? sm_tries sm) || (s <=? sm_slices sm) then fallback_span now sm ≫= fun _ => mret CFinished
      else
        rv ← meta_i64 "refs_version";
        swap_meta_store (if rv =? sm_rv sm then sm else mkSwapMeta rv (add64 (sm_tries sm) 1) (sm_slices sm)) ≫= fun _ =>
        mret CDrain.

(** ** The slice *)

Section Loop.
Context (await : Z -> list (string * ObjLoc) -> DoM (Z * bool * list (string * list Z))).
Context (job : Job) (chain : option string) (cand : gset string).
Definition charge_slice (now : Z) : DoM unit :=
  f ← phase_fence now job chain (Some "sweep");
  if (f : bool) then
    sm ← swap_meta;
    swap_meta_store (mkSwapMeta (sm_rv sm) (sm_tries sm) (add64 (sm_slices sm) 1))
  else mret tt.
Fixpoint drain_loop (fuel : nat) (bits : gmap string (list Z)) (t : Tick) : DoM (option SliceOutcome) :=
  match fuel with
  | O => mret None
  | S fuel' =>
      if tk_spent t then charge_slice (tk_now t) ≫= fun _ => mret (Some (Continue "{}"))
      else
        c ← swap_check (tk_now t) job chain;
        match c with
        | CDone | CFinished => mret (Some Done)
        | CDrain =>
            walk_step await job chain (Some "sweep") true cand bits t ≫= fun r : Step * gmap string (list Z) * Tick =>
            match r.1.1 with
            | SDone => mret (Some Done)
            | SEmpty | SStepped => drain_loop fuel' r.1.2 r.2
            end
        end
  end.
End Loop.
Definition gc_sweep (fuel : nat) (await : Z -> list (string * ObjLoc) -> DoM (Z * bool * list (string * list Z)))
    (job : Job) (t : Tick) : DoM (option SliceOutcome) :=
  legacy ← legacy_chain;
  if (legacy : bool) then out ← abort (tk_now t); mret (Some out)
  else
    astray ← stray job;
    if (astray : bool) then mret (Some Done)
    else
      compact ← gets (fun d => meta_is d "gc.mode" "compact");
      if (compact : bool) then mret (Some Done)
      else
        failpoint "gc.sweep.before" ≫= fun _ =>
        late ← gets (fun d => meta_is d "gc.phase" "sweep" && is_some (t_meta d !! "gc.refs_version"));
        if negb late then mret (Some Done)
        else
          barrier ← barrier_active;
          unbuilt ← gets built_null;
          if negb barrier || unbuilt then out ← pr5_sweep (tk_now t); mret (Some out)
          else
            chain ← meta_opt "gc.chain";
            resumed ← retire_resume (tk_now t) job chain;
            match resumed with
            | Some out => mret (Some out)
            | None =>
                cand ← gets (fun d => dom (t_marked d));
                drain_loop await job chain cand fuel ∅ t
            end.
End Sweep.
