(* ===== verification/SweepFacts.v ===== *)
(** * The sweep never loses a reachable object

    The retirement decisions of [Sweep] against the mark's invariant: the fenced
    swap keeps every object a ref reaches, the bounded-retry fallback keeps every
    live object, and a retirement interrupted at any point resumes without loss. *)
From S2P Require Import Prelude Errors Db Jobs Cohort GcBase Compact Refs Push Sha Writer Reads Mark MarkFacts WalkFacts Sweep.
Open Scope Z_scope.

(** ** Bitmap predicates *)

Lemma subset_bits bitmap built i :
  bm_bitmap_subset bitmap built = true -> bm_get bitmap i = true -> bm_get built i = true.
Proof.
  unfold bm_get. generalize (Z.to_nat (i / 8)) as k. revert built.
  induction bitmap as [|b bitmap IH]; intros built k; simpl; [done|].
  intros [Hb Hs]%andb_true_iff. apply Z.eqb_eq in Hb. destruct k as [|k]; simpl.
  - destruct built as [|x built]; intros Ht; simpl in *; [rewrite Z.ldiff_0_r in Hb; by rewrite Hb, Z.bits_0 in Ht|].
    destruct (Z_lt_le_dec (i mod 8) 0); [by rewrite Z.testbit_neg_r in Ht|].
    destruct (Z.testbit x (i mod 8)) eqn:E; [done|]. rewrite <- (Z.bits_0 (i mod 8)), <- Hb.
    rewrite Z.ldiff_spec, Ht, E by done. done.
  - intros Ht. specialize (IH _ k Hs Ht). by destruct built as [|x built].
Qed.
Lemma all_set_bit built idxs i : bm_all_set built idxs = true -> i ∈ idxs -> bm_get built i = true.
Proof.
  intros Ha Hi. unfold bm_all_set in Ha. rewrite forallb_forall in Ha. apply list_elem_of_In in Hi.
  specialize (Ha i Hi). by bsimp.
Qed.
(** the cohort predicates are exact on entries.  A bitmap passes
    [bm_bitmap_subset] only when every marked entry was built, and [bm_all_set]
    only when every listed entry was. *)
Theorem retire_predicates_sound (bitmap built : list Z) (idxs : list Z) :
  (bm_bitmap_subset bitmap built = true -> forall i, bm_get bitmap i = true -> bm_get built i = true) /\
  (bm_all_set built idxs = true -> forall i, i ∈ idxs -> bm_get built i = true).
Proof. split; [intros; by eapply subset_bits|intros; by eapply all_set_bit]. Qed.

Section Sweep.
Context `{PF : Platform} `{PC : PackCodec} `{GO : GitObjects} `{SJ : SweepJson}.

(** ** Steps that touch no pack and no index row *)

Lemma put_ll k v : rel_ok lossless (put k v).
Proof. apply rel_ok_modify. intros d. by apply lossless_ext. Qed.
Lemma ext_ll (f : Db -> Db) :
  (forall d, t_objects (f d) = t_objects d /\ t_packs (f d) = t_packs d /\ t_refs (f d) = t_refs d) ->
  rel_ok lossless (modify f : DoM unit).
Proof. intros Hf. apply rel_ok_modify. intros d. destruct (Hf d) as (? & ? & ?). by apply lossless_ext. Qed.
Lemma end_of_chain_ll now st lossy fb sm : rel_ok lossless (end_of_chain now st lossy fb sm).
Proof.
  unfold end_of_chain, release_hold.
  repeat (apply rel_ok_bind; [apply _|first [apply put_ll|apply rel_ok_gets; apply _|apply trigger_lossless|by apply ext_ll]|intros ?]).
  case_match; [by apply ext_ll|apply rel_ok_ret; apply _].
Qed.

(** ** The keep-rule end *)

Definition keep_rule (d : Db) : Prop := (cohort_live d).2 = Ok true -> copy_inv d.
Lemma wipe_all_ll now d : keep_rule d -> lossless d (wipe_all now d).1.
Proof.
  intros Hk. destruct (wipe_all_run now d) as (d1 & -> & _ & _ & Hl). etrans; [by apply Hl|by apply lossless_ext].
Qed.
Lemma wipe_path_ll now sm fb d : keep_rule d -> lossless d (wipe_path now sm fb d).1.
Proof.
  intros Hk. unfold wipe_path. rewrite (bind_run _ _ d d (swap_stats [] d)) by reflexivity.
  set (d1 := delete_objects (fun p => in_marked d p && negb (pack_live d p)) d).
  rewrite (bind_run _ _ d d1 tt) by reflexivity.
  assert (lossless d d1) as H1 by (apply delete_objects_lossless; intros p Hp; by bsimp).
  assert (keep_rule d1) as Hk1.
  { intros Hc. assert ((cohort_live d).2 = Ok true) as Hc0 by exact Hc. pose proof (cohort_live_all d Hc0) as Hall.
    intros p s Hp Hs. unfold d1 in Hs. rewrite delete_objects_lookup in Hs. case_match; [by destruct Hs|].
    destruct (Hk Hc0 p s Hp Hs) as (c & Hm & Hne & Hcs). exists c. split; [exact Hm|]. split; [done|].
    unfold d1. rewrite delete_objects_lookup. by rewrite Hm, (Hall c Hm). }
  etrans; [exact H1|]. pose proof (wipe_all_ll now d1 Hk1) as H2. unfold mbind, M_bind.
  destruct (wipe_all now d1) as [d2 [[]|e]]; [|exact H2]. etrans; [exact H2|]. apply end_of_chain_ll.
Qed.

(** ** Retirement *)

(** [s] has a live row outside the packs to retire. *)
Definition outside (ids : list string) (d : Db) (s : string) : Prop :=
  exists p, is_Some (t_objects d !! (s, p)) /\ pack_live d p = true /\ p ∉ ids.
Lemma outside_kill ids now d s :
  outside ids d s ->
  outside ids (kill_packs (fun id r => bool_decide (id ∈ ids) && bool_decide (pk_state r = Live)) now d) s.
Proof.
  intros (p & H1 & H2 & H3). exists p. rewrite kill_packs_live, H2. split_and!; [done| |done].
  destruct (t_packs d !! p); [|done]. by rewrite bool_decide_false.
Qed.
Lemma outside_live ids d s : outside ids d s -> live_sha d s.
Proof. intros (p & H1 & H2 & _). by exists p. Qed.
Lemma outside_ext ids d d' s :
  t_objects d' = t_objects d -> t_packs d' = t_packs d -> outside ids d s -> outside ids d' s.
Proof. intros Eo Ep (p & H1 & H2 & H3). exists p. unfold pack_live in *. by rewrite Eo, Ep. Qed.
Lemma failpoint_store name d :
  t_objects (failpoint name d).1 = t_objects d /\ t_packs (failpoint name d).1 = t_packs d.
Proof. unfold failpoint. repeat case_match; done. Qed.
Lemma retire_finish_keeps now it sm d s :
  outside (ri_ids it) d s -> live_sha (retire_finish now it sm d).1 s.
Proof.
  intros Ho. unfold retire_finish. set (d1 := kill_packs (fun id r => bool_decide (id ∈ ri_ids it) && bool_decide (pk_state r = Live)) now d).
  rewrite (bind_run _ _ d d1 tt) by reflexivity. rewrite (bind_run _ _ d1 d1 (swap_stats (ri_ids it) d1)) by reflexivity.
  apply (outside_kill (ri_ids it) now) in Ho. fold d1 in Ho. unfold mbind at 1, M_bind at 1.
  set (name := if ri_fallback it then _ else _). destruct (failpoint_store name d1) as [Eo Ep].
  destruct (failpoint name d1) as [d2 [[]|e]]; cbn [fst] in *;
    apply (outside_ext _ _ d2) in Ho; try done; [|by apply (outside_live (ri_ids it))].
  rewrite (bind_run _ _ d2 (delete_objects (fun p => bool_decide (p ∈ ri_ids it)) d2) tt) by reflexivity.
  apply end_of_chain_ll. destruct Ho as (p & H1 & H2 & H3). exists p. split; [|done].
  rewrite delete_objects_lookup. by rewrite bool_decide_false.
Qed.
Lemma retire_span_keeps now it sm d s : outside (ri_ids it) d s -> live_sha (retire_span now it sm d).1 s.
Proof.
  intros Ho. unfold retire_span. set (d1 := on_meta (insert "gc.retire" (retire_encode it)) d).
  rewrite (bind_run _ _ d d1 tt) by reflexivity. assert (outside (ri_ids it) d1 s) as Ho1 by exact Ho.
  destruct (ri_lossy it); [|rewrite (bind_run _ _ d1 d1 tt) by reflexivity; by apply retire_finish_keeps].
  set (d2 := meta_incr "gc_epoch" d1). destruct (failpoint_store "gc.swap.after_epoch" d2) as [Eo Ep].
  assert ((modify (meta_incr "gc_epoch") ≫= fun _ => failpoint "gc.swap.after_epoch") d1
    = failpoint "gc.swap.after_epoch" d2) as E by done.
  unfold mbind at 1, M_bind at 1. rewrite E. destruct (failpoint _ d2) as [d3 [[]|e]]; cbn [fst] in *;
    apply (outside_ext _ _ d3) in Ho1; try done; [by apply retire_finish_keeps|by apply (outside_live (ri_ids it))].
Qed.

(** ** The swap decisions *)

(** What a published build promises: an entry set in [built] has its object in
    the build pack, which is outside the cohort. *)
Definition build_ok (d : Db) : Prop :=
  forall p m b s o, t_marked d !! p = Some m -> mk_built m = Some b -> t_objects d !! (s, p) = Some o ->
    bm_get b (ob_idx o) = true ->
    exists np, t_meta d !! "gc.new_pack" = Some np /\ in_marked d np = false /\ is_Some (t_objects d !! (s, np)).
Lemma cohort_rows_spec d e : e ∈ cohort_rows d <-> t_marked d !! e.1.1 = Some e.1.2 /\ t_packs d !! e.1.1 = Some e.2.
Proof.
  unfold cohort_rows. rewrite list_elem_of_omap. split.
  - intros ([p m] & Hin & Hx). apply elem_of_map_to_list in Hin. simpl in Hx.
    destruct (t_packs d !! p) eqn:E; [|done]. injection Hx as <-. done.
  - destruct e as [[p m] r]. simpl. intros [Hm Hr]. exists (p, m). split; [by apply elem_of_map_to_list|]. simpl. by rewrite Hr.
Qed.
Lemma cohort_live_run d : exists b, cohort_live d = (d, Ok b).
Proof. by eexists. Qed.
Section Retire.
Context (d : Db) (Hb : build_ok d) (Hk : keep_rule d) (Hn : build_dead d = false).
Context (pick : string * MarkedSql * PackSql -> bool).
Definition ids : list string := map (fun e => e.1.1) (List.filter pick (cohort_rows d)).
Lemma ids_marked p : p ∈ ids -> exists m, t_marked d !! p = Some m /\ exists r, t_packs d !! p = Some r /\ pick (p, m, r) = true.
Proof.
  unfold ids. rewrite elem_of_map. intros ([[q m] r] & <- & Hx). apply elem_of_filter_b in Hx as [Hx Hp].
  apply cohort_rows_spec in Hx as [H1 H2]. simpl in *. eauto.
Qed.
Lemma unmarked_outside p s : is_Some (t_objects d !! (s, p)) -> pack_live d p = true -> in_marked d p = false -> outside ids d s.
Proof.
  intros H1 H2 H3. exists p. split_and!; [done|done|]. intros (m & Hm & _)%ids_marked. unfold in_marked in H3. by rewrite Hm in H3.
Qed.
Lemma built_outside p m b s o :
  t_marked d !! p = Some m -> mk_built m = Some b -> t_objects d !! (s, p) = Some o -> bm_get b (ob_idx o) = true ->
  outside ids d s.
Proof.
  intros H1 H2 H3 H4. destruct (Hb p m b s o H1 H2 H3 H4) as (np & Hnp & Hm & Hs). apply (unmarked_outside np); [done| |done].
  unfold build_dead in Hn. rewrite Hnp in Hn. by bsimp.
Qed.
End Retire.
Lemma fenced_swap_keeps now sm d s :
  build_ok d -> keep_rule d -> kept d s -> live_sha (fenced_swap now sm d).1 s.
Proof.
  intros Hb Hk Hs. pose proof (kept_live d s Hs) as Hlive. unfold fenced_swap.
  destruct (cohort_live_run d) as [cl Ec]. rewrite (bind_run _ _ d d cl Ec).
  destruct (negb cl); [by apply wipe_path_ll|]. rewrite (bind_run _ _ d d (build_dead d)) by reflexivity.
  destruct (build_dead d) eqn:En; [by apply wipe_path_ll|].
  rewrite (bind_run _ _ d d (List.filter subset_row (cohort_rows d))) by reflexivity.
  destruct (List.filter subset_row (cohort_rows d)) as [|e rows] eqn:Er; [by apply wipe_path_ll|]. rewrite <- Er.
  apply retire_span_keeps. cbn [ri_ids]. fold (ids d subset_row).
  destruct Hs as [(p & H1 & H2 & H3)|(p & o & m & H1 & H2 & _ & H4 & H5)]; [by apply (unmarked_outside d subset_row p)|].
  destruct (decide (p ∈ ids d subset_row)) as [Hp|Hp]; [|by exists p; rewrite H1].
  apply ids_marked in Hp as (m' & Hm & r & _ & Hsub). rewrite H4 in Hm. injection Hm as <-.
  unfold subset_row in Hsub. cbn in Hsub. destruct (mk_built m) as [b|] eqn:Ebm; [|done].
  apply (built_outside d Hb En subset_row p m b s o); [done..|]. by apply (subset_bits (mk_bitmap m)).
Qed.
Lemma fallback_keeps now sm d s :
  build_ok d -> keep_rule d -> live_sha d s -> live_sha (fallback_span now sm d).1 s.
Proof.
  intros Hb Hk Hs. unfold fallback_span.
  destruct (cohort_live_run d) as [cl Ec]. rewrite (bind_run _ _ d d cl Ec).
  destruct (negb cl); [by apply wipe_path_ll|]. rewrite (bind_run _ _ d d (build_dead d)) by reflexivity.
  destruct (build_dead d) eqn:En; [by apply wipe_path_ll|]. erewrite bind_run by reflexivity.
  rewrite (bind_run _ _ d d (List.filter (fallback_row d) (cohort_rows d))) by reflexivity.
  destruct (List.filter (fallback_row d) (cohort_rows d)) as [|e rows] eqn:Er; [by apply wipe_path_ll|].
  cbv zeta. case_match; [by apply wipe_path_ll|]. rewrite <- Er. apply retire_span_keeps. cbn [ri_ids].
  fold (ids d (fallback_row d)). destruct Hs as (p & [o Ho] & Hl).
  destruct (decide (p ∈ ids d (fallback_row d))) as [Hp|Hp]; [|by exists p; rewrite Ho].
  apply ids_marked in Hp as (m & Hm & r & _ & Hf). unfold fallback_row in Hf. cbn in Hf.
  destruct (mk_built m) as [b|] eqn:Ebm; [|done]. destruct (copied_out d s) eqn:Eo.
  - unfold copied_out in Eo. apply existsb_exists in Eo as ([[s' q] oq] & Hin & Hq). apply list_elem_of_In in Hin.
    pose proof (live_rows_sha d s _ Hin) as E. simpl in E. subst s'. apply live_rows_spec in Hin as [H1 H2].
    simpl in Hq. bsimp. apply (unmarked_outside d _ q); [by rewrite H1|done|done].
  - apply (built_outside d Hb En _ p m b s o); [done..|]. apply (all_set_bit b (needed d p)); [done|].
    unfold needed. apply elem_of_map. exists (s, o). split; [done|]. apply elem_of_filter_b.
    split; [by apply pack_rows_spec|]. cbn. by rewrite Eo.
Qed.

(** ** The check span *)

(** Statements that leave the chain's tables and every meta key alone. *)
Definition still (d d' : Db) : Prop := core d' = core d /\ t_meta d' = t_meta d.
#[local] Instance still_preorder : PreOrder still.
Proof. split; [done|]. intros a b c [? ?] [? ?]. split; congruence. Qed.
Lemma still_fence now job chain want : rel_ok still (phase_fence now job chain want).
Proof.
  intros d. unfold phase_fence, meta_opt, heartbeat, gets, mbind, M_bind, mret, M_ret, fail.
  repeat case_match; simplify_eq; split; reflexivity.
Qed.
Lemma still_failpoint name : rel_ok still (failpoint name).
Proof. intros d. unfold failpoint. repeat case_match; split; reflexivity. Qed.

Section Reach.
Context (links : string -> list string).
Abbreviation Inv := (MarkInv links).
(** What a clone can ask for: the stored objects the refs and pins lead to. *)
Inductive reachable (d : Db) : string -> Prop :=
| reach_root s : s ∈ roots d -> is_null s = false -> live_sha d s -> reachable d s
| reach_link s c : reachable d s -> c ∈ links s -> live_sha d c -> reachable d c.
Lemma reachable_live d s : reachable d s -> live_sha d s.
Proof. by induction 1. Qed.
Lemma quiesced d s :
  Inv d -> t_frontier d = ∅ -> t_pending d = [] -> reachable d s -> kept d s /\ (s ∈ t_seen d \/ links s = []).
Proof.
  intros I Ef En Hr. assert (forall c, covered links d c -> live_sha d c -> kept d c /\ (c ∈ t_seen d \/ links c = [])) as Hc.
  { intros c [Hs|[Hs|[(r & o & Hr' & _)|[Hs|[Hy Hl]]]]] Hlive.
    - split; [by apply (mi_kept _ d I)|by left].
    - rewrite Ef in Hs. set_solver.
    - rewrite En in Hr'. by apply elem_of_nil in Hr'.
    - done.
    - split; [by left|by right]. }
  induction Hr as [s Hs Hn Hl|s c Hr [_ [Hs|Hs]] Hin Hl]; apply Hc; try done.
  - by apply (mi_roots _ d I).
  - apply (mi_closed _ d I s); [done| |done]. rewrite Ef. set_solver.
  - rewrite Hs in Hin. by apply elem_of_nil in Hin.
Qed.

Definition swap_pre (d : Db) : Prop := Inv d /\ build_ok d /\ keep_rule d.
Lemma swap_pre_still d d' : still d d' -> swap_pre d -> swap_pre d'.
Proof.
  intros [Ec Em] (I & Hb & Hk). split; [by apply (core_inv links d)|]. injection Ec. intros.
  unfold build_ok, keep_rule, copy_inv, cohort_live, count_marked, count_packs, gets, in_marked, pack_live in *. cbn [snd] in *.
  replace (t_marked d') with (t_marked d). replace (t_objects d') with (t_objects d). replace (t_packs d') with (t_packs d).
  rewrite Em. done.
Qed.
Lemma reachable_ext d d' s :
  t_refs d' = t_refs d -> t_pins d' = t_pins d -> t_packs d' = t_packs d -> t_objects d' = t_objects d ->
  reachable d s -> reachable d' s.
Proof.
  intros Er Ei Ep Eo. assert (forall x, live_sha d x -> live_sha d' x) as Hl.
  { intros x (p & H1 & H2). exists p. unfold pack_live in *. by rewrite Ep, Eo. }
  assert (roots d' = roots d) as Ero by (unfold roots; by rewrite Er, Ei).
  induction 1 as [s Hs Hn Hlive|s c _ IH Hin Hlive]; [apply reach_root; [by rewrite Ero|done|auto]|apply (reach_link _ s); auto].
Qed.
Lemma swap_meta_run d : exists r, swap_meta d = (d, r).
Proof.
  unfold swap_meta, meta_opt, meta_i64, meta, gets, lift, mbind, M_bind, mret, M_ret.
  repeat case_match; simplify_eq; eauto.
Qed.
Lemma store_swap_meta d sm s : swap_pre d -> swap_pre (on_meta (insert "gc.swap" (swap_encode sm)) d) /\
  (reachable d s -> reachable (on_meta (insert "gc.swap" (swap_encode sm)) d) s).
Proof.
  intros (I & Hb & Hk). set (d' := on_meta _ d). assert (t_meta d' !! "gc.new_pack" = t_meta d !! "gc.new_pack") as E.
  { cbn. by rewrite lookup_insert_ne. }
  split; [|by apply reachable_ext]. split; [by apply (core_inv links d)|]. split.
  - unfold build_ok in *. rewrite E. done.
  - intros Hc. specialize (Hk Hc). unfold copy_inv in *. rewrite E. done.
Qed.

(** The assertion of the span, for one object [s]. *)
Definition guarded (s : string) (d : Db) : Prop := swap_pre d /\ reachable d s.
Lemma guarded_still s d d' : still d d' -> guarded s d -> guarded s d'.
Proof.
  intros E [Hp Hr]. split; [by apply (swap_pre_still d)|]. destruct E as [Ec _].
  apply (reachable_ext d); try done; injection Ec; congruence.
Qed.
Lemma guarded_live s d : guarded s d -> live_sha d s.
Proof. intros [_ Hr]. by apply reachable_live. Qed.
Lemma still_then {A B} s (m : DoM A) (f : A -> DoM B) Q :
  rel_ok still m -> (forall a, triple (guarded s) (f a) Q (fun d => live_sha d s)) ->
  triple (guarded s) (m ≫= f) Q (fun d => live_sha d s).
Proof.
  intros Hm Hf. apply (triple_bind _ _ (fun _ => guarded s)); [|exact Hf]. intros d Hd. specialize (Hm d).
  destruct (m d) as [d' [a|e]]; [by apply (guarded_still s d)|]. by apply guarded_live, (guarded_still s d).
Qed.
Lemma end_triple {A} P (m : DoM A) (v : Check) s :
  (forall d, P d -> live_sha (m d).1 s) -> triple P (m ≫= fun _ => mret v) (fun _ d => live_sha d s) (fun d => live_sha d s).
Proof.
  intros Hm d Hd. specialize (Hm d Hd). unfold mbind, M_bind. by destruct (m d) as [d' [a|e]].
Qed.
Lemma store_keeps sm s : triple (guarded s) (swap_meta_store sm) (fun _ => guarded s) (fun d => live_sha d s).
Proof.
  apply triple_modify. intros d [Hp Hr]. destruct (store_swap_meta d sm s Hp) as [H1 H2]. split; auto.
Qed.
Lemma swap_check_keeps now job chain s :
  triple (guarded s) (swap_check now job chain) (fun _ d => live_sha d s) (fun d => live_sha d s).
Proof.
  unfold swap_check. apply still_then; [apply still_fence|]. intros [|]; cbn [negb]; [|apply triple_ret, guarded_live].
  apply still_then; [apply still_failpoint|intros _]. apply (modify_bind _ (guarded s)).
  { intros d [(I & Hb & Hk) Hr]. split; [|by apply (reachable_ext d)]. split_and!; [by apply drop_dead_inv|exact Hb|exact Hk]. }
  apply still_then; [intros d; destruct (swap_meta_run d) as [r ->]; done|intros sm].
  apply gets_bind. intros [|].
  - apply (triple_bind _ _ (fun _ d => (guarded s d /\ t_frontier d = ∅) /\ t_pending d = [])).
    + apply triple_modify. intros d [[Hp Hr] He]. symmetry in He. bsimp. destruct (store_swap_meta d sm s Hp) as [H1 H2].
      split_and!; [split; auto|done|]. by apply nil_length_inv, Nat.eqb_eq.
    + intros _. apply end_triple. intros d [[[(I & Hb & Hk) Hr] Ef] En].
      destruct (quiesced d s I Ef En Hr) as [Hkept _]. by apply fenced_swap_keeps.
  - apply (triple_pre _ (guarded s)); [by intros d [? _]|]. apply gets_bind. intros k. apply gets_bind. intros sl.
    apply (triple_pre _ (guarded s)); [by intros d [[? _] _]|]. case_match.
    + apply end_triple. intros d [(I & Hb & Hk) Hr]. by apply fallback_keeps, reachable_live.
    + apply still_then; [intros d; unfold meta_i64, meta, lift, mbind, M_bind; by repeat case_match; simplify_eq|intros rv].
      apply (triple_bind _ _ (fun _ => guarded s)); [apply store_keeps|intros _]. apply triple_ret, guarded_live.
Qed.

(** C4: the sweep keeps every reachable object.  On a store where the mark's
    invariant holds and the published build is complete, every run of the swap
    check — a swap, a lossy swap, the fallback, a wipe, another drain turn, a
    stale lease or a crash between any two statements — leaves each object that
    the refs and pins reach in some live pack. *)
Theorem swap_check_keeps_reachable (now : Z) (job : Job) (chain : option string) (d : Db) (s : string) :
  Inv d -> build_ok d -> copy_inv d -> reachable d s -> live_sha (swap_check now job chain d).1 s.
Proof.
  intros I Hb Hc Hr. apply (triple_end (guarded s)); [apply swap_check_keeps|]. split; [|done]. split_and!; [done|done|by intros _].
Qed.
End Reach.

(** C31: the bounded-retry fallback loses nothing: with the frontier and the pending
    pages still non-empty, every live object, reached or not, is live after it.  It is
    stated for a store in which every object the build is recorded to hold is in the
    output pack, which lies outside the cohort ([build_ok]), and in which every object
    of the output pack is in the cohort ([copy_inv]); the consolidate slices establish
    both before the sweep. *)
Theorem fallback_lossless (now : Z) (sm : SwapMeta) (d : Db) :
  build_ok d -> copy_inv d -> forall s, live_sha d s -> live_sha (fallback_span now sm d).1 s.
Proof. intros Hb Hc s Hs. apply fallback_keeps; [done|by intros _|done]. Qed.

(** ** Resuming an interrupted retirement *)

Lemma count_live_none ids d p : count_live ids d = 0 -> pack_live d p = true -> p ∉ ids.
Proof.
  unfold count_live. rewrite count_packs_size. intros E Hl Hp.
  assert (size (filter (fun kv : string * PackSql => bool_decide (kv.1 ∈ ids) && bool_decide (pk_state kv.2 = Live) = true) (t_packs d)) = 0%nat) as Hz by lia.
  apply map_size_empty_inv in Hz. unfold pack_live in Hl. destruct (t_packs d !! p) as [r|] eqn:Er; [|done].
  assert (filter (fun kv : string * PackSql => bool_decide (kv.1 ∈ ids) && bool_decide (pk_state kv.2 = Live) = true) (t_packs d) !! p = Some r) as Hf.
  { apply map_lookup_filter_Some. split; [done|]. simpl. by rewrite bool_decide_true, Hl. }
  by rewrite Hz, lookup_empty in Hf.
Qed.
Lemma wipe_then_done now sm fb s :
  triple (fun d => keep_rule d /\ live_sha d s) (wipe_path now sm fb ≫= fun _ => mret (Some Done))
    (fun _ d => live_sha d s) (fun d => live_sha d s).
Proof.
  intros d [Hk Hs]. pose proof (wipe_path_ll now sm fb d Hk) as [Hl _]. specialize (Hl s Hs). unfold mbind, M_bind.
  by destruct (wipe_path now sm fb d) as [d' [[]|e]].
Qed.
Lemma keep_still d d' : still d d' -> keep_rule d -> keep_rule d'.
Proof.
  intros [Ec Em] Hk. injection Ec. intros.
  unfold keep_rule, copy_inv, cohort_live, count_marked, count_packs, gets, in_marked, pack_live in *. cbn [snd] in *.
  replace (t_marked d') with (t_marked d). replace (t_objects d') with (t_objects d). replace (t_packs d') with (t_packs d).
  rewrite Em. done.
Qed.
Lemma live_still d d' s : still d d' -> live_sha d s -> live_sha d' s.
Proof.
  intros [Ec _] (p & H1 & H2). assert (t_packs d' = t_packs d) as Ep by (injection Ec; congruence).
  assert (t_objects d' = t_objects d) as Eo by (injection Ec; congruence).
  exists p. unfold pack_live in *. by rewrite Ep, Eo.
Qed.
(** an interrupted retirement resumes without loss.  Whatever a killed sweep
    left — the intent only, some or all of its packs already dead, a corrupt
    record — the resuming slice loses no live object. *)
Theorem retire_resume_lossless (now : Z) (job : Job) (chain : option string) (d : Db) :
  copy_inv d -> forall s, live_sha d s -> live_sha (retire_resume now job chain d).1 s.
Proof.
  intros Hc s Hs. apply (triple_end (fun d => keep_rule d /\ live_sha d s)); [|split; [by intros _|done]].
  unfold retire_resume. apply gets_bind. intros [raw|]; [|apply triple_ret; by intros x [[_ ?] _]].
  apply (triple_bind _ _ (fun _ d => keep_rule d /\ live_sha d s)).
  { intros x [[Hk Hl] _]. pose proof (still_fence now job chain (Some "sweep") x) as E.
    destruct (phase_fence _ _ _ _ x) as [x' [b|e]]; [split; [by apply (keep_still x)|]|]; by apply (live_still x). }
  intros [|]; cbn [negb]; [|apply triple_ret; by intros x [_ ?]].
  apply (triple_bind _ _ (fun _ d => keep_rule d /\ live_sha d s)).
  { intros x [Hk Hl]. destruct (swap_meta_run x) as [[sm|e] ->]; done. }
  intros sm. destruct (retire_parse raw) as [it|]; [|apply wipe_then_done].
  apply gets_bind. intros n. destruct (n =? Z.of_nat (length (ri_ids it))).
  { apply (modify_bind _ (fun d => live_sha d s)); [by intros x [[_ ?] _]|]. by apply triple_ret. }
  destruct (Z.eqb_spec n 0) as [->|]; [|eapply triple_pre; [|apply wipe_then_done]; by intros x [? _]].
  intros x [[Hk Hl] He]. destruct (ri_ids it) as [|i l] eqn:Ei; [lia|]. rewrite <- Ei in He.
  assert (outside (ri_ids it) x s) as Ho.
  { destruct Hl as (p & H1 & H2). exists p. split_and!; [done|done|]. by apply (count_live_none _ x). }
  pose proof (retire_finish_keeps now it sm x s Ho) as Hf. unfold mbind, M_bind.
  by destruct (retire_finish now it sm x) as [x' [[]|e]].
Qed.
End Sweep.
