(* ===== verification/Build.v ===== *)
(** * The consolidate build

    [gc_consolidate] and everything below it in [server/src/jobs/gc.rs]:
    [begin_build], [build], [flush], [mpu_err], [finish_build] and [wipe_build].
    The job copies the marked entries of the cohort, verbatim and in (pack, index)
    order, into one new pack, over as many slices as it takes; the cursor
    [gc.pos], the uploaded parts and the unflushed tail survive a slice's end.

    A slice runs against a world [W]: its clock, its budget, what R2 answers.
    [others] is what the other handlers do to the store while the slice awaits;
    every await is marked by [awaiting].  The JSON text of [gc.pos] is
    serde_json's. *)
From S2P Require Import Prelude Errors Db Jobs Cohort GcBase Compact Refs Push Sha Writer Reads Mark Sweep.
Open Scope Z_scope.

(** ** The cursor *)

Record Pos : Type := mkPos {
  ps_ci : Z; ps_idx : Z; ps_pack : string; ps_upload : string; ps_st : option WriterCkpt; ps_frag : Z;
  ps_total : Z; ps_lo : Z; ps_hi : Z; ps_tail : Z; ps_bci : Z; ps_bidx : Z; ps_bfrag : Z; ps_ord0 : Z }.
Definition pos_cursor (ci idx frag : Z) (p : Pos) : Pos :=
  mkPos ci idx (ps_pack p) (ps_upload p) (ps_st p) frag (ps_total p) (ps_lo p) (ps_hi p) (ps_tail p)
    (ps_bci p) (ps_bidx p) (ps_bfrag p) (ps_ord0 p).
Definition pos_bound (ci idx frag : Z) (p : Pos) : Pos :=
  mkPos (ps_ci p) (ps_idx p) (ps_pack p) (ps_upload p) (ps_st p) (ps_frag p) (ps_total p) (ps_lo p) (ps_hi p) (ps_tail p)
    ci idx frag (ps_ord0 p).
Definition pos_upload (u : string) (p : Pos) : Pos :=
  mkPos (ps_ci p) (ps_idx p) (ps_pack p) u (ps_st p) (ps_frag p) (ps_total p) (ps_lo p) (ps_hi p) (ps_tail p)
    (ps_bci p) (ps_bidx p) (ps_bfrag p) (ps_ord0 p).
Definition pos_st (st : option WriterCkpt) (p : Pos) : Pos :=
  mkPos (ps_ci p) (ps_idx p) (ps_pack p) (ps_upload p) st (ps_frag p) (ps_total p) (ps_lo p) (ps_hi p) (ps_tail p)
    (ps_bci p) (ps_bidx p) (ps_bfrag p) (ps_ord0 p).
Definition pos_tail (n : Z) (p : Pos) : Pos :=
  mkPos (ps_ci p) (ps_idx p) (ps_pack p) (ps_upload p) (ps_st p) (ps_frag p) (ps_total p) (ps_lo p) (ps_hi p) n
    (ps_bci p) (ps_bidx p) (ps_bfrag p) (ps_ord0 p).
Definition pos_ord0 (n : Z) (p : Pos) : Pos :=
  mkPos (ps_ci p) (ps_idx p) (ps_pack p) (ps_upload p) (ps_st p) (ps_frag p) (ps_total p) (ps_lo p) (ps_hi p) (ps_tail p)
    (ps_bci p) (ps_bidx p) (ps_bfrag p) n.
Definition pos_span (lo hi : Z) (p : Pos) : Pos :=
  mkPos (ps_ci p) (ps_idx p) (ps_pack p) (ps_upload p) (ps_st p) (ps_frag p) (ps_total p) lo hi (ps_tail p)
    (ps_bci p) (ps_bidx p) (ps_bfrag p) (ps_ord0 p).
Record Span : Type := mkSpan { sp_ci : Z; sp_idx : Z; sp_ord : Z; sp_off : Z; sp_len : Z }.
Class PosJson : Type := {
  pos_parse : string -> result string Pos;
  pos_encode : Pos -> string
}.
(** serde_json reads back what it wrote; [ord0] is skipped and defaults to 0. *)
Class PosJsonLaws `{PosJson} : Prop :=
  pos_roundtrip : forall p, pos_parse (pos_encode p) = Ok (pos_ord0 0 p).

Definition ROWS : Z := 9000.
Definition BATCH_N : nat := 90.
Definition COPY_SPAN : Z := 8 * 2 ^ 20.
Definition TAIL_CHUNK : nat := Z.to_nat (64 * 1024).
(** 2^53 - 1: the largest integer the host's SQL binding carries exactly. *)
Definition JS_MAX : Z := 2 ^ 53 - 1.
Definition BASE_POS (pack : string) (total : Z) : Pos := mkPos 0 0 pack "" None 0 total JS_MAX 0 0 0 0 0 0.

(** The bits a build copies: [COALESCE(built, bitmap)]. *)
Definition copy_bits (m : MarkedSql) : list Z := unwrap_or (mk_bitmap m) (mk_built m).

Section Build.
Context `{PF : Platform} `{PC : PackCodec} `{MP : Multipart} `{RR : R2} `{SJ : SweepJson} `{PJ : PosJson}.

(** ** Starting, restarting and publishing a build *)

Definition put_pos (p : Pos) : DoM unit := put "gc.pos" (pos_encode p).
Definition drop_build_keys (d : Db) : Db :=
  meta_delete "gc.fails" (meta_delete "gc.new_pack" (meta_delete "gc.pos" d)).
Definition drop_uploads (d : Db) : Db := on_tail (fun _ => ∅) (on_parts (fun _ => ∅) d).
(** The half-written pack of an earlier build. *)
Definition drop_new_pack (now : Z) : DoM unit :=
  np ← meta_opt "gc.new_pack";
  match np with
  | None => mret tt
  | Some p =>
      modify (delete_objects (String.eqb p)) ≫= fun _ =>
      modify (kill_packs (fun id r => String.eqb id p && bool_decide (pk_state r = Ingesting)) now)
  end.
Definition wipe_build (now : Z) : DoM unit :=
  drop_new_pack now ≫= fun _ =>
  modify drop_uploads ≫= fun _ =>
  modify drop_build_keys.

Definition build_rows (d : Db) : list (MarkedSql * PackSql) :=
  omap (fun p => match t_marked d !! p, t_packs d !! p with Some m, Some r => Some (m, r) | _, _ => None end) (marked_ids d).
Definition build_total (rows : list (MarkedSql * PackSql)) : Z :=
  fold_left (fun n e => sat_addu32 n (Z.of_nat (bm_popcount (copy_bits e.1)))) rows 0.
Definition build_unmarked (rows : list (MarkedSql * PackSql)) : bool :=
  existsb (fun e => Z.of_nat (bm_popcount (copy_bits e.1)) <? pk_count e.2) rows.
(** The sweep row first, then the phase, then the swap's baseline. *)
Definition swap_baseline : DoM unit :=
  barrier ← barrier_active;
  if (barrier : bool) then rv ← meta_i64 "refs_version"; swap_meta_store (mkSwapMeta rv 0 0) else mret tt.
(** [false]: the chain is gone or was just wiped. *)
Definition admit_build (now : Z) : DoM bool :=
  compact ← gets (fun d => meta_is d "gc.mode" "compact");
  if (compact : bool) then mret true
  else
    rv ← meta_opt "gc.refs_version";
    if negb (is_some rv) then mret false
    else
      barrier ← barrier_active;
      if (barrier : bool) then
        cl ← cohort_live;
        if negb cl then wipe_all now ≫= fun _ => mret false
        else modify (on_marked (fmap (fun m => mkMarked (mk_bitmap m) (Some (mk_bitmap m))))) ≫= fun _ => mret true
      else
        moved ← refs_moved;
        if (moved : bool) then abort now ≫= fun _ => mret false else mret true.
Definition nothing_marked (now : Z) : DoM unit :=
  compact ← gets (fun d => meta_is d "gc.mode" "compact");
  if (compact : bool) then wipe_all now
  else
    modify drop_uploads ≫= fun _ =>
    modify drop_build_keys ≫= fun _ =>
    payload ← chain_payload;
    enqueue GcSweep now payload ≫= fun _ =>
    failpoint "gc.build.handoff" ≫= fun _ =>
    put "gc.phase" "sweep" ≫= fun _ =>
    swap_baseline.
Definition insert_pack (pack : string) (now : Z) : DoM unit := fun d =>
  match t_packs d !! pack with
  | Some _ => (d, Err (Storage "UNIQUE constraint failed: packs.id"))
  | None => (on_packs (insert pack (mkPack Ingesting 0 0 JS_MAX 0 None now None)) d, Ok tt)
  end.
Definition begin_build (now : Z) (fresh : result Error string) : DoM (option Pos) :=
  go ← admit_build now;
  if negb go then mret None
  else
    cands ← gets build_rows;
    let total := build_total cands in
    if (total =? 0) && negb (length cands =? 0)%nat then nothing_marked now ≫= fun _ => mret None
    else if negb ((2 <=? length cands)%nat || build_unmarked cands) then wipe_all now ≫= fun _ => mret None
    else
      drop_new_pack now ≫= fun _ =>
      modify drop_uploads ≫= fun _ =>
      pack ← lift fresh;
      insert_pack pack now ≫= fun _ =>
      let pos := BASE_POS pack total in
      put "gc.new_pack" pack ≫= fun _ =>
      put_pos pos ≫= fun _ =>
      mret (Some pos).

Definition to_js (n : Z) : Z := if n <=? i64_max then Z.min n JS_MAX else JS_MAX.
Definition publish_row (m : PackMeta) (bytes : Z) (r : PackSql) : PackSql :=
  mkPack Live (pm_count m) bytes (to_js (pm_lo m)) (if pm_hi m <=? i64_max then pm_hi m else 0)
    (pk_push r) (pk_created r) (pk_dead_at r).
(** The flip to live; the number of rows it changed. *)
Definition publish (pack : string) (m : PackMeta) : DoM bool := fun d =>
  if negb (pm_bytes m <=? i64_max) then (d, Err (Internal "bytes"))
  else match t_packs d !! pack with
       | Some r => if open_or_live r then (on_packs (insert pack (publish_row m (pm_bytes m) r)) d, Ok true) else (d, Ok false)
       | None => (d, Ok false)
       end.
Definition finish_build (now : Z) (pos : Pos) (m : PackMeta) (job : Job) (chain : option string) : DoM Flow :=
  failpoint "gc.consolidate.before_finish" ≫= fun _ =>
  compact ← gets (fun d => meta_is d "gc.mode" "compact");
  if (compact : bool) then swap now (ps_pack pos) m job chain
  else
    f ← chain_fence now job chain (ps_pack pos);
    if negb f then mret FDone
    else
      one ← publish (ps_pack pos) m;
      if negb one then fail (Internal "build pack row")
      else
        payload ← chain_payload;
        enqueue GcSweep now payload ≫= fun _ =>
        put "gc.phase" "sweep" ≫= fun _ =>
        swap_baseline ≫= fun _ =>
        mret FDone.

(** ** A slice's state *)

Section Slice.
Context (W : Type) (charge1 : W -> W * result Error unit) (now : W -> Z) (spent : W -> bool).
(** What happens to the store during an await; R2's uploads, and the world after
    the completion of one was asked for. *)
Context (others : W -> Db -> W * Db).
Context (new_upload : W -> string -> result Error Mpu) (open_upload : W -> string -> string -> result Error Mpu)
  (upload_id : Mpu -> string) (completed : string -> W -> W) (head_object : string -> M W Error (option Z)) (fresh : W -> result Error string).
Context (repo : string) (job : Job) (chain : option string).

Record Bs : Type := mkBs {
  bs_db : Db; bs_w : W; bs_out : PackWriter; bs_pos : Pos; bs_staged : list ObjRow; bs_spans : list Span;
  bs_cur : option Span; bs_ord : Z; bs_bm : option (Z * list Z) }.
Abbreviation BM := (M Bs Error).
Definition set_dw (d : Db) (w : W) (s : Bs) : Bs :=
  mkBs d w (bs_out s) (bs_pos s) (bs_staged s) (bs_spans s) (bs_cur s) (bs_ord s) (bs_bm s).
Definition set_out (o : PackWriter) (w : W) (s : Bs) : Bs :=
  mkBs (bs_db s) w o (bs_pos s) (bs_staged s) (bs_spans s) (bs_cur s) (bs_ord s) (bs_bm s).
Definition set_pos (f : Pos -> Pos) (s : Bs) : Bs :=
  mkBs (bs_db s) (bs_w s) (bs_out s) (f (bs_pos s)) (bs_staged s) (bs_spans s) (bs_cur s) (bs_ord s) (bs_bm s).
Definition set_staged (l : list ObjRow) (s : Bs) : Bs :=
  mkBs (bs_db s) (bs_w s) (bs_out s) (bs_pos s) l (bs_spans s) (bs_cur s) (bs_ord s) (bs_bm s).
Definition set_spans (l : list Span) (s : Bs) : Bs :=
  mkBs (bs_db s) (bs_w s) (bs_out s) (bs_pos s) (bs_staged s) l (bs_cur s) (bs_ord s) (bs_bm s).
Definition set_cur (c : option Span) (s : Bs) : Bs :=
  mkBs (bs_db s) (bs_w s) (bs_out s) (bs_pos s) (bs_staged s) (bs_spans s) c (bs_ord s) (bs_bm s).
Definition set_ord (n : Z) (s : Bs) : Bs :=
  mkBs (bs_db s) (bs_w s) (bs_out s) (bs_pos s) (bs_staged s) (bs_spans s) (bs_cur s) n (bs_bm s).
Definition set_bm (b : option (Z * list Z)) (s : Bs) : Bs :=
  mkBs (bs_db s) (bs_w s) (bs_out s) (bs_pos s) (bs_staged s) (bs_spans s) (bs_cur s) (bs_ord s) b.

Definition on_db {A} (m : DoM A) : BM A := fun s => let r := m (bs_db s) in (set_dw r.1 (bs_w s) s, r.2).
Definition on_out {A} (m : M (PackWriter * W) Error A) : BM A := fun s =>
  let r := m (bs_out s, bs_w s) in (set_out r.1.1 r.1.2 s, r.2).
Definition on_world {A} (m : M W Error A) : BM A := fun s => let r := m (bs_w s) in (set_dw (bs_db s) r.1 s, r.2).
(** [m] awaits: whatever it answers, the others have run. *)
Definition awaiting {A} (m : BM A) : BM A := fun s =>
  let r := m s in
  let wd := others (bs_w r.1) (bs_db r.1) in (set_dw wd.2 wd.1 r.1, r.2).
(** [match m.await { Ok(a) => .., Err(e) => .. }]. *)
Definition caught {A} (m : BM A) : BM (result Error A) := fun s => let r := m s in (r.1, Ok r.2).
Definition fence : BM bool := fun s => on_db (chain_fence (now (bs_w s)) job chain (ps_pack (bs_pos s))) s.

(** ** Errors of the upload *)

Definition head_meta (t : Z) (pos : Pos) (size : Z) : PackMeta :=
  mkPackMeta (ps_pack pos) None (ps_total pos) size
    (if 0 <=? ps_lo pos then ps_lo pos else u64_max) (if 0 <=? ps_hi pos then ps_hi pos else 0) t.
Definition before_swap : BM unit :=
  compact ← gets (fun s => meta_is (bs_db s) "gc.mode" "compact");
  if (compact : bool) then awaiting (on_db (failpoint "gc.compact.before_swap")) else mret tt.
Definition finish_with (m : PackMeta) : BM Flow := fun s =>
  on_db (finish_build (now (bs_w s)) (bs_pos s) m job chain) s.
Definition mpu_err (key : string) (e : Error) : BM Flow :=
  on_world charge1 ≫= fun _ =>
  head ← awaiting (on_world (head_object key));
  f ← fence;
  if negb f then mret FDone
  else match head with
       | Some size =>
           before_swap ≫= fun _ =>
           s ← gets (fun s => s);
           finish_with (head_meta (now (bs_w s)) (bs_pos s) size)
       | None =>
           fails ← gets (fun s => match (meta_i64 "gc.fails" (bs_db s)).2 with Ok n => n | Err _ => 0 end);
           let n := sat_add64 fails 1 in
           on_db (put "gc.fails" (z_to_string n)) ≫= fun _ =>
           mret (if 2 <=? n then FRebuild else FRetry e)
       end.

(** ** The flush: upload whole parts, then commit rows, etags and cursor *)

(** Each turn uploads a part of at least one byte: the buffer's length is enough
    fuel.  [inl]: the flow an upload error ends in. *)
Fixpoint drain_parts (fuel : nat) (key : string) (news : list (Z * string)) (st : option WriterCkpt)
  : BM (Flow + list (Z * string) * option WriterCkpt) :=
  match fuel with
  | O => mret (inr (news, st))
  | S fuel' =>
      out ← gets bs_out;
      if Z.of_nat (length (pw_part out)) <? pw_part_size out then mret (inr (news, st))
      else
        r ← caught (awaiting (on_out (checkpoint W charge1)));
        match r with
        | Err e => f ← mpu_err key e; mret (inl f)
        | Ok None => mret (inr (news, st))
        | Ok (Some (rec, s)) =>
            on_db (failpoint "gc.consolidate.after_part") ≫= fun _ =>
            drain_parts fuel' key (news ++ [rec]) (Some s)
        end
  end.
Definition ckpt_count (n : Z) (st : WriterCkpt) : WriterCkpt :=
  mkWriterCkpt (wc_pos st) (wc_sha st) (wc_sha256 st) n (wc_expected st) (wc_commit_lo st) (wc_commit_hi st).
(** The entry the durable boundary falls in. *)
Definition boundary (durable : Z) (cur : option Span) (spans : list Span) : option Span :=
  match cur with
  | Some c => if sp_off c <=? durable then Some c
              else List.find (fun s => (sp_off s <=? durable) && (durable <? sp_off s + sp_len s)) spans
  | None => List.find (fun s => (sp_off s <=? durable) && (durable <? sp_off s + sp_len s)) spans
  end.
(** The cursor to persist. *)
Definition persisted (persist_tail : bool) (pos : Pos) (st : WriterCkpt) (appended : Z) (cur : option Span)
    (spans : list Span) : result Error (Pos * WriterCkpt) :=
  let durable := wc_pos st in
  if durable <? appended then
    match boundary durable cur spans with
    | Some s =>
        let frag := durable - sp_off s in
        let at_bound := pos_bound (sp_ci s) (sp_idx s) frag in
        Ok (at_bound (if persist_tail then pos else pos_cursor (sp_ci s) (sp_idx s) frag pos), ckpt_count (sp_ord s) st)
    | None =>
        if persist_tail && (durable =? 0) then Ok (pos_bound 0 0 0 pos, ckpt_count 0 st)
        else match ps_st pos with
             | Some st0 =>
                 if persist_tail && (wc_pos st0 =? durable) then Ok (pos, ckpt_count (wc_count st0) st)
                 else Err (Internal ("durable boundary " +:+ z_to_string durable +:+ " outside appended spans"))
             | None => Err (Internal ("durable boundary " +:+ z_to_string durable +:+ " outside appended spans"))
             end
    end
  else Ok ((if persist_tail then pos_bound (ps_ci pos) (ps_idx pos) (ps_frag pos) pos else pos), st).
Fixpoint byte_chunks (fuel : nat) (bs : list Z) : list (list Z) :=
  match fuel, bs with
  | S fuel', _ :: _ => take TAIL_CHUNK bs :: byte_chunks fuel' (drop TAIL_CHUNK bs)
  | _, _ => []
  end.
(** [INSERT INTO gc_tail(blob)] into the emptied table: rows 1, 2, … *)
Definition write_tail (bs : list Z) (d : Db) : Db :=
  on_tail (fun _ => list_to_map (imap (fun i c => (Z.of_nat i + 1, c)) (byte_chunks (length bs) bs))) d.
Definition put_etags (news : list (Z * string)) (d : Db) : Db :=
  on_parts (fun m => fold_left (fun m e => insert e.1 e.2 m) news m) d.
Definition prune_parts (last : Z) (d : Db) : Db := on_parts (filter (fun kv => kv.1 <= last)) d.
Fixpoint drop_durable (durable : Z) (spans : list Span) : list Span :=
  match spans with
  | s :: l => if sp_off s + sp_len s <=? durable then drop_durable durable l else spans
  | [] => []
  end.
(** [Index::insert_objects] of the staged rows, then [staged.clear()]. *)
Definition post_rows : BM unit :=
  s ← gets (fun s => s);
  on_db (insert_objects (ps_pack (bs_pos s)) (bs_staged s)) ≫= fun _ =>
  modify (set_staged []).
(** The synchronous block between the fences: rows, etags, tail and cursor. *)
Definition flush_commit (persist_tail : bool) (news : list (Z * string)) (st : WriterCkpt) (out : PackWriter) : BM unit :=
  post_rows ≫= fun _ =>
  on_db (modify (put_etags news)) ≫= fun _ =>
  on_db (modify (prune_parts (wc_pos st / pw_part_size out))) ≫= fun _ =>
  s ← gets (fun s => s);
  pp ← lift (persisted persist_tail (bs_pos s) st (pw_offset out) (bs_cur s) (bs_spans s));
  let pos := pos_tail (if persist_tail then Z.of_nat (length (pw_part out)) else 0) pp.1 in
  (if persist_tail then on_db (modify (write_tail (pw_part out))) else mret tt) ≫= fun _ =>
  on_db (put_pos (pos_st (Some pp.2) pos)) ≫= fun _ =>
  modify (set_pos (pos_st (Some pp.2))) ≫= fun _ =>
  modify (fun s => set_spans (drop_durable (wc_pos st) (bs_spans s)) s).
Definition flush (key : string) (persist_tail : bool) : BM (option Flow) :=
  buffered ← gets (fun s => length (pw_part (bs_out s)));
  r ← drain_parts buffered key [] None;
  match r with
  | inl f => mret (Some f)
  | inr (news, st) =>
      out ← gets bs_out;
      match (match st with Some s => Some s | None => if persist_tail then Some (snapshot out) else None end) with
      | None => mret None
      | Some st =>
          f ← fence;
          if negb f then mret (Some FDone)
          else
            flush_commit persist_tail news st out ≫= fun _ =>
            g ← fence;
            mret (if negb g then Some FDone else None)
      end
  end.

(** ** Copying entries *)

Definition yield (key : string) : BM (option Flow) :=
  f ← flush key true;
  mret (Some (match f with Some f => f | None => FYield end)).
(** The entry read for [id]: the first of its queue. *)
Fixpoint pop_entry (id : string) (got : list (string * list Z)) : option (list Z * list (string * list Z)) :=
  match got with
  | [] => None
  | e :: got' => if String.eqb e.1 id then Some (e.2, got')
                 else match pop_entry id got' with Some (x, l) => Some (x, e :: l) | None => None end
  end.
(** An entry too long for one read, or resumed in its middle: fragments of at
    most [COPY_SPAN] bytes.  Every read advances, so the number of fragments and
    one is enough fuel.  [inl]: the slice stops here. *)
Fixpoint stream_frags (fuel : nat) (key : string) (l : ObjLoc) (p : Z) : BM (option Flow) :=
  let e := sat_addu64 (lc_offset l) (lc_len l) in
  match fuel with
  | O => mret None
  | S fuel' =>
      if negb (p <? e) then mret None
      else
        over ← gets (fun s => spent (bs_w s));
        if (over : bool) then yield key
        else
          frag ← awaiting (on_world (read_range W charge1 (key_pack repo (lc_pack l)) p
                                       (Z.min (sat_subu64 e p) COPY_SPAN)));
          (if p =? lc_offset l then
             h ← lift (entry_header frag);
             if bool_decide (h.1.1 = lc_kind l) then mret tt
             else fail (Internal "objects.kind disagrees with wire header")
           else mret tt) ≫= fun _ =>
          let p' := sat_addu64 p (Z.of_nat (length frag)) in
          on_out (modify (fun s => (raw_extend frag s.1, s.2))) ≫= fun _ =>
          modify (set_pos (fun q => pos_cursor (ps_ci q) (ps_idx q) (sat_subu64 p' (lc_offset l)) q)) ≫= fun _ =>
          f ← flush key false;
          match f with
          | Some f => mret (Some f)
          | None => stream_frags fuel' key l p'
          end
  end.
Definition push_span (sp : Span) : BM unit := modify (fun s => set_spans (bs_spans s ++ [sp]) s).
(** The place of the entry in the new pack, or the flow that ends the slice. *)
Definition stream_entry (key : string) (l : ObjLoc) : BM (Flow + Z * Z) :=
  s ← gets (fun s => s);
  let frag := ps_frag (bs_pos s) in
  let start := sat_subu64 (pw_offset (bs_out s)) frag in
  modify (set_cur (Some (mkSpan (ps_ci (bs_pos s)) (lc_idx l) (bs_ord s) start (lc_len l)))) ≫= fun _ =>
  f ← stream_frags (Z.to_nat (lc_len l / COPY_SPAN) + 2) key l (sat_addu64 (lc_offset l) frag);
  match f with
  | Some f => mret (inl f)
  | None =>
      r ← on_out (raw_entry_done W (lc_kind l) start);
      c ← gets bs_cur;
      match c with
      | None => fail (Internal "streamed entry missing cur span")
      | Some c => modify (set_cur None) ≫= fun _ => push_span c ≫= fun _ => mret (inr r)
      end
  end.
Definition copy_stored (l : ObjLoc) (entry : list Z) : BM (Z * Z) :=
  r ← on_out (append_stored W entry);
  s ← gets (fun s => s);
  push_span (mkSpan (ps_ci (bs_pos s)) (lc_idx l) (bs_ord s) r.1 r.2) ≫= fun _ => mret r.
(** The cursor past a copied entry. *)
Definition staged_pos (l : ObjLoc) (r : Z * Z) (pos : Pos) : Pos :=
  let pos := pos_cursor (ps_ci pos) (sat_addu32 (lc_idx l) 1) 0 pos in
  match lc_kind l with
  | Commit => pos_span (Z.min (ps_lo pos) (if r.1 <=? i64_max then r.1 else JS_MAX))
                (Z.max (ps_hi pos) (let e := sat_addu64 r.1 r.2 in if e <=? i64_max then e else JS_MAX)) pos
  | _ => pos
  end.
Definition stage (id : string) (l : ObjLoc) (r : Z * Z) : BM unit := modify (fun s =>
  set_pos (staged_pos l r) (set_ord (sat_addu32 (bs_ord s) 1)
    (set_staged (bs_staged s ++ [mkObjRow id (bs_ord s) r.1 r.2 (lc_kind l) (lc_size l) None]) s))).
Fixpoint copy_entries (key : string) (es : list (string * ObjLoc)) (got : list (string * list Z)) : BM (option Flow) :=
  match es with
  | [] => mret None
  | (id, l) :: es' =>
      modify (set_pos (fun q => pos_cursor (ps_ci q) (lc_idx l) (ps_frag q) q)) ≫= fun _ =>
      frag ← gets (fun s => ps_frag (bs_pos s));
      if lc_len l <? frag then fail (Internal "gc.pos frag past entry end")
      else if (COPY_SPAN <? lc_len l) || (0 <? frag) then
        r ← stream_entry key l;
        match r with
        | inl f => mret (Some f)
        | inr r => stage id l r ≫= fun _ => copy_entries key es' got
        end
      else match pop_entry id got with
           | None => fail (Storage "entry missing from read")
           | Some (entry, got') => r ← copy_stored l entry; stage id l r ≫= fun _ => copy_entries key es' got'
           end
  end.
Definition is_small (pos : Pos) (e : string * ObjLoc) : bool :=
  (lc_len e.2 <=? COPY_SPAN) && negb ((lc_idx e.2 =? ps_idx pos) && (0 <? ps_frag pos)).
(** The reader's answer; its loop always ends within its own fuel. *)
Definition read_small (small : list (string * ObjLoc)) : BM (list (string * list Z)) :=
  r ← awaiting (on_world (read_entries_chunked W charge1 repo small));
  mret (unwrap_or [] r).
Fixpoint copy_chunks (key : string) (cs : list (list (string * ObjLoc))) : BM (option Flow) :=
  match cs with
  | [] => mret None
  | chunk :: cs' =>
      over ← gets (fun s => spent (bs_w s));
      if (over : bool) then yield key
      else
        pos ← gets bs_pos;
        got ← read_small (List.filter (is_small pos) chunk);
        f ← copy_entries key chunk got;
        match f with
        | Some f => mret (Some f)
        | None =>
            g ← flush key false;
            match g with
            | Some g => mret (Some g)
            | None => copy_chunks key cs'
            end
        end
  end.

(** ** The build loop *)

(** The next batch of marked entries; [None]: the input is exhausted.  [rest] is
    the cohort from [pos.ci] on. *)
Fixpoint next_idxs (rest : list string) : BM (option (list Z)) :=
  match rest with
  | [] => mret None
  | cid :: rest' =>
      s ← gets (fun s => s);
      let ci := ps_ci (bs_pos s) in
      (if match bs_bm s with Some b => b.1 =? ci | None => false end then mret tt
       else modify (set_bm (Some (ci, match t_marked (bs_db s) !! cid with Some m => copy_bits m | None => [] end)))) ≫= fun _ =>
      bm ← gets (fun s => match bs_bm s with Some b => b.2 | None => [] end);
      let idxs := bm_idxs_from bm (ps_idx (bs_pos s)) BATCH_N in
      match idxs with
      | [] => modify (set_pos (fun q => pos_cursor (sat_addu32 (ps_ci q) 1) 0 (ps_frag q) q)) ≫= fun _ => next_idxs rest'
      | _ => mret (Some idxs)
      end
  end.
Definition idx_rows (pack : string) (idxs : list Z) (d : Db) : list ((string * string) * ObjSql) :=
  map (fun r : string * ObjSql => ((r.1, pack), r.2))
    (merge_sort row_le (List.filter (fun r => bool_decide (ob_idx r.2 ∈ idxs)) (pack_rows d pack))).
Definition finish_upload (key : string) : BM (PackMeta * list Z) := fun s =>
  let r := on_out (finish W charge1) s in (set_dw (bs_db r.1) (completed key (bs_w r.1)) r.1, r.2).
Definition end_of_input (key : string) : BM Flow :=
  post_rows ≫= fun _ =>
  r ← caught (awaiting (finish_upload key));
  match r with
  | Ok m => before_swap ≫= fun _ => finish_with m.1
  | Err e => mpu_err key e
  end.
(** [None]: [fuel] batches did not end the build. *)
Fixpoint build_loop (fuel : nat) (key : string) (cands : list string) : BM (option Flow) :=
  match fuel with
  | O => mret None
  | S fuel' =>
      over ← gets (fun s => spent (bs_w s));
      if (over : bool) then yield key
      else
        ci ← gets (fun s => ps_ci (bs_pos s));
        batch ← next_idxs (drop (Z.to_nat ci) cands);
        match batch with
        | None => f ← end_of_input key; mret (Some f)
        | Some idxs =>
            ci ← gets (fun s => ps_ci (bs_pos s));
            let cid := unwrap_or "" (cands !! Z.to_nat ci) in
            rows ← gets (fun s => idx_rows cid idxs (bs_db s));
            if negb (length rows =? length idxs)%nat then fail (Internal "marked entry lacks objects row")
            else
              locs ← lift (collect sql_loc rows);
              f ← copy_chunks key (chunks locs);
              match f with
              | Some f => mret (Some f)
              | None =>
                  g ← fence;
                  if negb g then mret (Some FDone)
                  else
                    n ← gets (fun s => Z.of_nat (length (bs_staged s)));
                    (if ROWS <=? n then post_rows else mret tt) ≫= fun _ =>
                    h ← flush key false;
                    match h with
                    | Some h => mret (Some h)
                    | None => build_loop fuel' key cands
                    end
              end
        end
  end.

(** ** The job *)

Abbreviation CM := (M (Db * W) Error).
Definition with_db {A} (m : DoM A) : CM A := fun s => let r := m s.1 in ((r.1, s.2), r.2).
Definition the_time : CM Z := gets (fun s => now s.2).
Definition job_fence (pack : string) : CM bool := t ← the_time; with_db (chain_fence t job chain pack).
Definition let_others : CM unit := fun s => let wd := others s.2 s.1 in ((wd.2, wd.1), Ok tt).

(** [build]: the ordinals continue after the entries of the checkpoint and of a
    loaded tail. *)
Definition build (fuel : nat) (key : string) (out : PackWriter) (pos : Pos) : CM (option Flow) := fun s =>
  let ord := sat_addu32 (match ps_st pos with Some st => wc_count st | None => 0 end) (ps_ord0 pos) in
  let r := build_loop fuel key (marked_ids s.1) (mkBs s.1 s.2 out pos [] [] None ord None) in
  ((bs_db r.1, bs_w r.1), r.2).

Definition load_pos : CM (option Pos) :=
  j ← with_db (meta_opt "gc.pos");
  match j with
  | Some j => lift (match pos_parse j with Ok p => Ok (Some p) | Err e => Err (Internal ("corrupt gc.pos: " +:+ e)) end)
  | None =>
      s ← gets (fun s => s);
      p ← with_db (begin_build (now s.2) (fresh s.2));
      (if is_some p then with_db (failpoint "gc.consolidate.begin") else mret tt) ≫= fun _ => mret p
  end.
Fixpoint contiguous (i : Z) (l : list (Z * string)) : result Error (list string) :=
  match l with
  | [] => Ok []
  | (n, e) :: l' => if n =? i then r ← contiguous (i + 1) l'; Ok (e :: r) else Err (Internal "gc_parts not contiguous")
  end.
Definition seq_le {A} (a b : Z * A) : Prop := a.1 <= b.1.
#[local] Instance seq_le_dec {A} : RelDecision (@seq_le A).
Proof. intros a b. unfold seq_le. apply _. Defined.
Definition by_seq {A} (m : gmap Z A) : list (Z * A) := merge_sort seq_le (map_to_list m).
(** An upload with no checkpoint holds nothing: it is aborted, not reused. *)
Definition drop_orphan (key : string) (pos : Pos) : CM Pos :=
  if negb (is_some (ps_st pos)) && negb (str_empty (ps_upload pos)) then
    s ← gets (fun s => s);
    match open_upload s.2 key (ps_upload pos) with
    | Ok _ => let_others ≫= fun _ => mret (pos_upload "" pos)
    | Err _ => mret (pos_upload "" pos)
    end
  else mret pos.
(** A new upload, its id persisted at once, or the old one resumed.  [None]: the
    chain moved on. *)
Definition open_writer (key : string) (etags : list string) (pos : Pos) : CM (option (PackWriter * Pos)) :=
  if str_empty (ps_upload pos) then
    s ← gets (fun s => s);
    let r := create_writer W charge1 (new_upload s.2 key) key (ps_total pos) (obj_kind s.1) (now s.2) s.2 in
    modify (fun s => (s.1, r.1)) ≫= fun _ =>
    let_others ≫= fun _ =>
    w ← lift r.2;
    let pos := pos_upload (upload_id (pw_mpu w)) pos in
    f ← job_fence (ps_pack pos);
    if negb f then mret None
    else with_db (put_pos pos) ≫= fun _ => mret (Some (w, pos))
  else
    s ← gets (fun s => s);
    m ← lift (open_upload s.2 key (ps_upload pos));
    match ps_st pos with
    | None => fail (Internal "gc.pos without WriterCkpt")
    | Some st => w ← lift (resume m key etags st (now s.2)); mret (Some (w, pos))
    end.
(** The rows that completed inside a persisted tail. *)
Definition tail_rows (pack : string) (base tail : Z) (d : Db) : list (string * ObjSql) :=
  List.filter (fun r => let e := ob_offset r.2 + ob_len r.2 in
    ((if base <=? i64_max then base else 0) <? e)
    && (e <=? (let t := sat_addu64 base tail in if t <=? i64_max then t else i64_max))) (pack_rows d pack).
Definition commit_rows (rows : list (string * ObjSql)) : list ObjSql :=
  map snd (List.filter (fun r => ob_kind r.2 =? 1) rows).
Definition span_lo (rows : list ObjSql) : Z :=
  match fold_right (fun r acc => opt_min (Some (ob_offset r)) acc) None rows with
  | Some n => if 0 <=? n then n else u64_max
  | None => u64_max
  end.
Definition span_hi (rows : list ObjSql) : Z :=
  match rows with
  | [] => 0
  | r :: rows' => Z.max 0 (fold_left (fun n r => Z.max n (ob_offset r + ob_len r)) rows' (ob_offset r + ob_len r))
  end.
(** Folding the persisted tail back in, or replaying from the boundary. *)
Definition load_tail (tail : list Z) (out : PackWriter) (pos : Pos) (d : Db) : PackWriter * Pos :=
  if 0 <? ps_tail pos then
    let base := match ps_st pos with Some st => wc_pos st | None => 0 end in
    if Z.of_nat (length tail) =? ps_tail pos then
      let rows := tail_rows (ps_pack pos) base (ps_tail pos) d in
      let n := let k := Z.of_nat (length rows) in if k <=? u32_max then k else 0 in
      (resume_tail tail n (span_lo (commit_rows rows)) (span_hi (commit_rows rows)) out, pos_tail 0 (pos_ord0 n pos))
    else (out, pos_tail 0 (pos_cursor (ps_bci pos) (ps_bidx pos) (ps_bfrag pos) pos))
  else (out, pos).
Definition part_knob (d : Db) : Z :=
  Z.min PART (Z.max PART_MIN (match knob d "gc_part_bytes" with Some v => if 0 <=? v then v else PART | None => PART end)).
(** One turn of the loop; [None] asks for another, after a rebuild. *)
Definition consolidate_turn (fuel : nat) : CM (option (option SliceOutcome)) :=
  p ← load_pos;
  match p with
  | None => mret (Some (Some Done))
  | Some pos =>
      let key := key_pack repo (ps_pack pos) in
      parts ← gets (fun s => by_seq (t_parts s.1));
      etags ← lift (contiguous 1 parts);
      pos ← drop_orphan key pos;
      o ← open_writer key etags pos;
      match o with
      | None => mret (Some (Some Done))
      | Some (out, pos) =>
          size ← gets (fun s => part_knob s.1);
          tail ← gets (fun s => concat (map snd (by_seq (t_tail s.1))));
          f ← job_fence (ps_pack pos);
          if negb f then mret (Some (Some Done))
          else
            with_db (modify (on_tail (fun _ => ∅))) ≫= fun _ =>
            s ← gets (fun s => s);
            let op := load_tail tail (set_part_size size out) pos s.1 in
            r ← build fuel key op.1 op.2;
            match r with
            | None => mret (Some None)
            | Some f =>
                match f with
                | FYield => mret (Some (Some (Continue "{}")))
                | FDone => mret (Some (Some Done))
                | FRetry e => fail e
                | FRebuild => t ← the_time; with_db (wipe_build t) ≫= fun _ => mret None
                end
            end
      end
  end.
Fixpoint consolidate_loop (turns fuel : nat) : CM (option SliceOutcome) :=
  match turns with
  | O => mret None
  | S turns' =>
      r ← consolidate_turn fuel;
      match r with
      | Some out => mret out
      | None => consolidate_loop turns' fuel
      end
  end.
End Slice.

Section Job.
Context (W : Type) (charge1 : W -> W * result Error unit) (now : W -> Z) (spent : W -> bool) (others : W -> Db -> W * Db).
Context (new_upload : W -> string -> result Error Mpu) (open_upload : W -> string -> string -> result Error Mpu)
  (upload_id : Mpu -> string) (completed : string -> W -> W) (head_object : string -> M W Error (option Z)) (fresh : W -> result Error string).
Context (repo : string) (job : Job).
Definition gc_consolidate (turns fuel : nat) : M (Db * W) Error (option SliceOutcome) :=
  t ← gets (fun s : Db * W => now s.2);
  legacy ← with_db W legacy_chain;
  if (legacy : bool) then out ← with_db W (abort t); mret (Some out)
  else
    astray ← with_db W (stray job);
    if (astray : bool) then mret (Some Done)
    else
      ready ← with_db W (gets (fun d => meta_is d "gc.phase" "build"));
      if negb ready then mret (Some Done)
      else
        chain ← with_db W (meta_opt "gc.chain");
        compact ← with_db W (gets (fun d => meta_is d "gc.mode" "compact"));
        cl ← with_db W cohort_live;
        if compact && negb cl then with_db W (wipe_all t) ≫= fun _ => mret (Some Done)
        else consolidate_loop W charge1 now spent others new_upload open_upload upload_id completed head_object fresh repo job chain
               turns fuel.
End Job.
End Build.
Arguments bs_db {_ _}.
Arguments bs_w {_ _}.
Arguments bs_out {_ _}.
Arguments bs_pos {_ _}.
Arguments bs_staged {_ _}.
Arguments bs_spans {_ _}.
Arguments bs_cur {_ _}.
Arguments bs_ord {_ _}.
Arguments bs_bm {_ _}.
Arguments set_dw {_ _}.
Arguments set_out {_ _}.
Arguments set_pos {_ _}.
Arguments set_staged {_ _}.
Arguments set_spans {_ _}.
Arguments set_cur {_ _}.
Arguments set_ord {_ _}.
Arguments set_bm {_ _}.
Arguments mkBs {_ _}.
Arguments on_db {_ _ _}.
Arguments on_out {_ _ _}.
Arguments on_world {_ _ _}.
Arguments caught {_ _ _}.
Arguments with_db {_ _}.
