(* ===== verification/BuildFacts.v ===== *)
(** * The consolidate build copies every marked entry

    The invariant of a build over all its slices: the rows posted for the new
    pack are copies of cohort objects, and they cover every marked entry before
    the persisted cursor and before the fallback boundary, whatever was
    uploaded, replayed, lost or killed.  When the build is published, they cover
    every marked entry: the premise of the sweep. *)
From S2P Require Import Prelude Errors Db Jobs Cohort GcBase Compact Refs Push Sha Writer Reads Mark MarkFacts WalkFacts Sweep SweepFacts Build.
Open Scope Z_scope.

(** ** Scanning a bitmap *)

Lemma bm_get_bound bm i : bm_get bm i = true -> (Z.to_nat (i / 8) < length bm)%nat.
Proof. unfold bm_get. destruct (bm !! _) eqn:E; [|done]. intros _. by eapply lookup_lt_Some. Qed.
(** What a scan from [from] returns: set bits in order, none skipped before the last. *)
Definition scan_ok (bm : list Z) (from : Z) (l : list Z) (full : Prop) : Prop :=
  StronglySorted Z.lt l /\ Forall (fun i => from <= i /\ bm_get bm i = true) l /\
  (forall j, from <= j -> bm_get bm j = true -> j ∈ l \/ (full /\ Forall (fun i => i < j) l)).
Lemma bm_scan_ok fuel bm i limit :
  0 <= i -> 8 * Z.of_nat (length bm) <= u32_max -> 8 * Z.of_nat (length bm) - i <= Z.of_nat fuel ->
  scan_ok bm i (bm_scan fuel bm i limit) (length (bm_scan fuel bm i limit) = limit).
Proof.
  intros Hi Hb. revert i limit Hi. induction fuel as [|fuel IH]; intros i limit Hi Hf.
  { split_and!; [constructor..|]. intros j Hj Hg. apply bm_get_bound in Hg.
    assert (Z.of_nat (length bm) <= j / 8) by (apply Z.div_le_lower_bound; lia). lia. }
  destruct limit as [|limit]; cbn [bm_scan].
  { split_and!; [constructor..|]. intros j _ _. right. by split; [|constructor]. }
  destruct (Nat.ltb_spec (Z.to_nat (i / 8)) (length bm)) as [Hlt|Hge].
  - assert (i < 8 * Z.of_nat (length bm)) as Hi8.
    { assert (i / 8 < Z.of_nat (length bm)) as Hd by (assert (0 <= i / 8) by (apply Z.div_pos; lia); lia).
      pose proof (Z.mul_succ_div_gt i 8 ltac:(lia)). lia. }
    assert (sat_addu32 i 1 = i + 1) as -> by (unfold sat_addu32; lia).
    destruct (bm_get bm i) eqn:Eg.
    + destruct (IH (i + 1) limit ltac:(lia) ltac:(lia)) as (H1 & H2 & H3).
      assert (Forall (Z.lt i) (bm_scan fuel bm (i + 1) limit)) as Hh by (apply (Forall_impl _ _ _ H2); intros ? [? ?]; lia).
      split_and!; [by constructor|constructor; [by split; [lia|]|apply (Forall_impl _ _ _ H2); intros ? [? ?]; split; [lia|done]]|].
      intros j Hj Hg. destruct (decide (j = i)) as [->|Hne]; [left; left|].
      destruct (H3 j ltac:(lia) Hg) as [Hin|[E Hall]]; [left; by right|right]. simpl. split; [by rewrite E|].
      constructor; [lia|done].
    + destruct (IH (i + 1) (S limit) ltac:(lia) ltac:(lia)) as (H1 & H2 & H3).
      split_and!; [done|apply (Forall_impl _ _ _ H2); intros ? [? ?]; split; [lia|done]|].
      intros j Hj Hg. apply H3; [|done]. destruct (decide (j = i)); [congruence|lia].
  - split_and!; [constructor..|]. intros j Hj Hg. apply bm_get_bound in Hg.
    assert (i / 8 <= j / 8) by (apply Z.div_le_mono; lia). lia.
Qed.
Lemma bm_idxs_ok bm from limit :
  0 <= from -> 8 * Z.of_nat (length bm) <= u32_max ->
  scan_ok bm from (bm_idxs_from bm from limit) (length (bm_idxs_from bm from limit) = limit).
Proof. intros. apply bm_scan_ok; [done..|lia]. Qed.
Lemma popcount_zero bm i : bm_popcount bm = 0%nat -> bm_get bm i = false.
Proof.
  unfold bm_get. generalize (Z.to_nat (i / 8)) as k. induction bm as [|b bm IH]; intros k; [done|].
  simpl. intros Hs. destruct k as [|k]; simpl; [|apply IH; lia].
  assert (length (List.filter (Z.testbit b) (map Z.of_nat (seq 0 8))) = 0%nat) as H0 by (simpl in *; lia).
  apply nil_length_inv in H0. destruct (Z.testbit b (i mod 8)) eqn:Eb; [|done].
  assert (i mod 8 ∈ List.filter (Z.testbit b) (map Z.of_nat (seq 0 8))) as Hin.
  { apply elem_of_filter_b. split; [|done]. pose proof (Z.mod_pos_bound i 8 ltac:(lia)).
    apply list_elem_of_In, in_map_iff. exists (Z.to_nat (i mod 8)). split; [lia|]. apply in_seq. lia. }
  rewrite H0 in Hin. by apply elem_of_nil in Hin.
Qed.

(** ** The store of a build *)

Lemma marked_ids_elem d p : p ∈ marked_ids d <-> in_marked d p = true.
Proof.
  unfold marked_ids, in_marked. rewrite (merge_sort_Permutation String.le), elem_of_map. split.
  - intros ([q m] & <- & Hin). apply elem_of_map_to_list in Hin. simpl. by rewrite Hin.
  - destruct (t_marked d !! p) as [m|] eqn:E; [|done]. intros _. exists (p, m). split; [done|by apply elem_of_map_to_list].
Qed.
(** [(k, i)] lies before the cursor [(ci, idx)]. *)
Definition cursor_lt (k i ci idx : Z) : Prop := k < ci \/ (k = ci /\ i < idx).
Definition cursor_le (ci idx ci' idx' : Z) : Prop := forall k i, cursor_lt k i ci idx -> cursor_lt k i ci' idx'.

Section Store.
Context `{PF : Platform} `{PJ : PosJson}.
Context (c : string).
(** The chain still owns the collector's state. *)
Definition held (d : Db) : Prop := t_meta d !! "gc.chain" = Some c.
#[export] Instance held_dec d : Decision (held d).
Proof. unfold held. apply _. Defined.
(** Index rows and cohort rows belong to packs the store knows. *)
Definition known (d : Db) (p : string) : Prop := is_Some (t_packs d !! p).
Definition has (d : Db) (pack s : string) : Prop := is_Some (t_objects d !! (s, pack)).
Definition owned (d : Db) : Prop :=
  (forall p s, has d p s -> known d p) /\ (forall p, in_marked d p = true -> known d p).
(** The keys that describe the build. *)
Definition own_key (k : string) : bool :=
  existsb (String.eqb k) ["gc.chain"; "gc.mode"; "gc.phase"; "gc.new_pack"; "gc.pos"].
(** A push may mark more entries of a pack the build has frozen; what is copied stays. *)
Definition mark_kept (a b : option MarkedSql) : Prop :=
  match a, b with
  | None, None => True
  | Some a, Some b => mk_built b = mk_built a /\ copy_bits b = copy_bits a /\
      (8 * Z.of_nat (length (mk_bitmap a)) <= u32_max -> 8 * Z.of_nat (length (mk_bitmap b)) <= u32_max)
  | _, _ => False
  end.
Definition marks_kept (d d' : Db) : Prop := forall p, mark_kept (t_marked d !! p) (t_marked d' !! p).
Lemma marks_same d d' : t_marked d' = t_marked d -> marks_kept d d'.
Proof. intros E p. rewrite E. unfold mark_kept. by destruct (t_marked d !! p). Qed.
Lemma marks_in d d' p : marks_kept d d' -> in_marked d' p = in_marked d p.
Proof. intros H. specialize (H p). unfold mark_kept, in_marked in *. by repeat case_match. Qed.
#[export] Instance marks_preorder : PreOrder marks_kept.
Proof.
  split; [intros d; by apply marks_same|]. intros d1 d2 d3 H1 H2 p. specialize (H1 p). specialize (H2 p). unfold mark_kept in *.
  repeat case_match; try done. destruct H1 as (A1 & A2 & A3), H2 as (B1 & B2 & B3). split_and!; [congruence..|auto].
Qed.
Lemma marks_ids d d' : marks_kept d d' -> marked_ids d' = marked_ids d.
Proof.
  intros H. unfold marked_ids. apply (StronglySorted_unique String.le).
  1,2: apply (StronglySorted_merge_sort String.le).
  rewrite !merge_sort_Permutation. apply NoDup_Permutation; [apply NoDup_fst_map_to_list..|].
  intros x. assert (forall e : Db, x ∈ map fst (map_to_list (t_marked e)) <-> in_marked e x = true) as Hx.
  { intros e. rewrite <- marked_ids_elem. unfold marked_ids. by rewrite merge_sort_Permutation. }
  rewrite !Hx. by rewrite (marks_in d d').
Qed.
(** A step that leaves the chain's build alone, if it leaves the chain at all:
    the rely condition on the other handlers. *)
Definition soft (d d' : Db) : Prop := held d' ->
  held d /\ marks_kept d d' /\ (forall k, own_key k = true -> t_meta d' !! k = t_meta d !! k) /\
  (forall s p, in_marked d p = true \/ t_meta d !! "gc.new_pack" = Some p -> t_objects d' !! (s, p) = t_objects d !! (s, p)) /\
  (owned d -> owned d') /\
  (forall p, t_meta d !! "gc.new_pack" = Some p -> known d p -> known d' p).
#[export] Instance soft_preorder : PreOrder soft.
Proof.
  split; [by intros d H; split_and!|]. intros d1 d2 d3 H12 H23 H3. destruct (H23 H3) as (H2 & Em & Ek & Eo & Ew & En).
  destruct (H12 H2) as (H1 & Em' & Ek' & Eo' & Ew' & En'). split_and!; [done|by etrans| | |auto|].
  - intros k Hk. by rewrite Ek, Ek'.
  - intros s p Hp. rewrite Eo, Eo'; [done|done|]. destruct Hp as [Hp|Hp]; [left|right].
    + by rewrite (marks_in d1 d2).
    + by rewrite Ek'.
  - intros p Hp Hk. apply En; [by rewrite Ek'|auto].
Qed.
(** Steps outside the tables a build reads. *)
Definition same_core (d d' : Db) : Prop :=
  t_meta d' = t_meta d /\ t_marked d' = t_marked d /\ t_objects d' = t_objects d /\ t_packs d' = t_packs d.
#[export] Instance same_core_preorder : PreOrder same_core.
Proof. split; [by intros d|]. intros d1 d2 d3 (A1 & A2 & A3 & A4) (B1 & B2 & B3 & B4). split_and!; congruence. Qed.
Lemma same_core_soft d d' : same_core d d' -> soft d d'.
Proof. intros (E1 & E2 & E3 & E4) H. unfold held in *. split_and!; [by rewrite <- E1|by apply marks_same|intros; by rewrite E1|intros; by rewrite E3| |].
  - unfold owned, known, has, in_marked. by rewrite E2, E3, E4.
  - unfold known. by rewrite E4.
Qed.

(** A marked entry: [s] is entry [i] of the [k]-th cohort pack [p], to be copied. *)
Definition entry (d : Db) (k : nat) (p s : string) (i : Z) : Prop :=
  exists m o, marked_ids d !! k = Some p /\ t_marked d !! p = Some m /\ t_objects d !! (s, p) = Some o /\
    ob_idx o = i /\ bm_get (copy_bits m) i = true.
Definition done_upto (d : Db) (pack : string) (extra : list string) (ci idx : Z) : Prop :=
  forall k p s i, entry d k p s i -> cursor_lt (Z.of_nat k) i ci idx -> has d pack s \/ s ∈ extra.
Definition complete_build (d : Db) (pack : string) : Prop := forall k p s i, entry d k p s i -> has d pack s.
Record cohort_wf (d : Db) : Prop := {
  cw_idx0 : forall s p o, in_marked d p = true -> t_objects d !! (s, p) = Some o -> 0 <= ob_idx o;
  cw_idxs : forall s s' p o o', in_marked d p = true -> t_objects d !! (s, p) = Some o -> t_objects d !! (s', p) = Some o' ->
    ob_idx o = ob_idx o' -> s = s';
  cw_hex : forall s p o, in_marked d p = true -> t_objects d !! (s, p) = Some o -> oid s = Ok s;
  cw_size : Z.of_nat (length (marked_ids d)) <= u32_max;
  cw_bits : forall p m, t_marked d !! p = Some m ->
    8 * Z.of_nat (length (copy_bits m)) <= u32_max /\ 8 * Z.of_nat (length (mk_bitmap m)) <= u32_max
}.
Record new_pack_ok (d : Db) (pack : string) : Prop := {
  np_known : known d pack;
  np_out : in_marked d pack = false;
  np_copied : forall s, has d pack s -> exists p, in_marked d p = true /\ has d p s
}.
Definition pos_ok (d : Db) (p : Pos) : Prop :=
  (0 <= ps_ci p /\ 0 <= ps_idx p /\ 0 <= ps_bci p /\ 0 <= ps_bidx p) /\
  done_upto d (ps_pack p) [] (ps_ci p) (ps_idx p) /\ done_upto d (ps_pack p) [] (ps_bci p) (ps_bidx p).
(** The state a build leaves between two spans. [sealed]: R2 holds the new pack. *)
Record BuildState (sealed : string -> Prop) (d : Db) : Prop := {
  bt_wf : cohort_wf d;
  bt_owned : owned d;
  bt_mode : meta_is d "gc.mode" "compact" = false;
  bt_new : forall N, t_meta d !! "gc.new_pack" = Some N -> new_pack_ok d N /\ (sealed N -> complete_build d N);
  bt_pos : forall j p, t_meta d !! "gc.pos" = Some j -> pos_parse j = Ok p ->
    t_meta d !! "gc.new_pack" = Some (ps_pack p) /\ pos_ok d p;
  bt_both : t_meta d !! "gc.pos" = None -> t_meta d !! "gc.new_pack" = None
}.

(** ** Soft steps keep it *)

Section Soft.
Context (d d' : Db) (Hs : soft d d') (Hh : held d').
Lemma soft_marked : marks_kept d d'.
Proof. by destruct (Hs Hh) as (_ & ? & _). Qed.
Lemma soft_mark p m : t_marked d' !! p = Some m -> exists m', t_marked d !! p = Some m' /\ mark_kept (Some m') (Some m).
Proof. intros E. pose proof (soft_marked p) as H. rewrite E in H. destruct (t_marked d !! p) as [m'|]; [by exists m'|done]. Qed.
Lemma soft_mark_to p m : t_marked d !! p = Some m -> exists m', t_marked d' !! p = Some m' /\ mark_kept (Some m) (Some m').
Proof. intros E. pose proof (soft_marked p) as H. rewrite E in H. destruct (t_marked d' !! p) as [m'|]; [by exists m'|done]. Qed.
Lemma soft_held : held d.
Proof. by destruct (Hs Hh) as (? & _). Qed.
Lemma soft_key k : own_key k = true -> t_meta d' !! k = t_meta d !! k.
Proof. destruct (Hs Hh) as (_ & _ & Hk & _). apply Hk. Qed.
Lemma soft_in p : in_marked d' p = in_marked d p.
Proof. apply marks_in, soft_marked. Qed.
Lemma soft_row s p : in_marked d p = true \/ t_meta d !! "gc.new_pack" = Some p -> t_objects d' !! (s, p) = t_objects d !! (s, p).
Proof. destruct (Hs Hh) as (_ & _ & _ & Ho & _). apply Ho. Qed.
Lemma soft_ids : marked_ids d' = marked_ids d.
Proof. apply marks_ids, soft_marked. Qed.
Lemma soft_entry k p s i : entry d' k p s i <-> entry d k p s i.
Proof.
  assert (forall x, entry x k p s i -> in_marked x p = true) as Hin.
  { intros x (m & o & _ & Hm & _). unfold in_marked. by rewrite Hm. }
  split; intros He; pose proof (Hin _ He) as Hp; destruct He as (m & o & H1 & H2 & H3 & H4 & H5).
  - destruct (soft_mark p m H2) as (m' & Hm' & _ & Eb & _). exists m', o. rewrite <- Eb.
    rewrite soft_in in Hp. rewrite soft_ids in H1. rewrite soft_row in H3 by by left. done.
  - destruct (soft_mark_to p m H2) as (m' & Hm' & _ & Eb & _). exists m', o. rewrite Eb.
    rewrite soft_ids, soft_row by by left. done.
Qed.
Lemma soft_has p s : in_marked d p = true \/ t_meta d !! "gc.new_pack" = Some p -> has d' p s <-> has d p s.
Proof. intros Hp. unfold has. by rewrite soft_row. Qed.
Lemma soft_done N extra ci idx :
  t_meta d !! "gc.new_pack" = Some N -> done_upto d N extra ci idx -> done_upto d' N extra ci idx.
Proof. intros Hn Hd k p s i He Hc. rewrite soft_has by by right. apply soft_entry in He. by apply (Hd k p s i). Qed.
Lemma soft_complete N : t_meta d !! "gc.new_pack" = Some N -> complete_build d N -> complete_build d' N.
Proof. intros Hn Hd k p s i He. rewrite soft_has by by right. apply soft_entry in He. by apply (Hd k p s i). Qed.
Lemma soft_wf : cohort_wf d -> cohort_wf d'.
Proof.
  intros [W1 W2 W3 W4 W5]. split.
  - intros s p o Hp. rewrite soft_in in Hp. rewrite soft_row by by left. by apply W1.
  - intros s s' p o o' Hp. rewrite soft_in in Hp. rewrite !soft_row by by left. by apply W2.
  - intros s p o Hp. rewrite soft_in in Hp. rewrite soft_row by by left. by apply W3.
  - by rewrite soft_ids.
  - intros p m Hm. destruct (soft_mark p m Hm) as (m' & Hm' & _ & Eb & Hl). rewrite Eb. destruct (W5 p m' Hm'). auto.
Qed.
Lemma soft_new N : t_meta d !! "gc.new_pack" = Some N -> new_pack_ok d N -> new_pack_ok d' N.
Proof.
  intros Hn [H0 H1 H2]. split; [by apply (Hs Hh)|by rewrite soft_in|]. intros s Hs'. rewrite soft_has in Hs' by by right.
  destruct (H2 s Hs') as (p & Hp & Hps). exists p. rewrite soft_in, soft_has by by left. done.
Qed.
Lemma soft_state sealed : BuildState sealed d -> BuildState sealed d'.
Proof.
  intros [B1 B0 B2 B3 B4 B5]. assert (t_meta d' !! "gc.new_pack" = t_meta d !! "gc.new_pack") as En by by apply soft_key. split.
  - by apply soft_wf.
  - by apply (Hs Hh).
  - unfold meta_is in *. by rewrite soft_key.
  - intros N. rewrite En. intros HN. destruct (B3 N HN) as [H1 H2]. split; [by apply soft_new|]. intros Hx. by apply soft_complete, H2.
  - intros j p. rewrite En, soft_key by done. intros Hj Hp. destruct (B4 j p Hj Hp) as (H1 & H2 & H3 & H4).
    split; [done|]. split; [done|]. split; by apply soft_done.
  - by rewrite En, soft_key.
Qed.
Lemma soft_build_ok : build_ok d -> build_ok d'.
Proof.
  intros Hb p m b s o Hm Hmb Ho Hg. destruct (soft_mark p m Hm) as (m' & Hm' & Eb & _). rewrite Eb in Hmb.
  assert (in_marked d p = true) as Hp by (unfold in_marked; by rewrite Hm'). rewrite soft_row in Ho by by left.
  destruct (Hb p m' b s o Hm' Hmb Ho Hg) as (np & H1 & H2 & H3). exists np. rewrite soft_key, soft_in, soft_row by (done || by right). done.
Qed.
End Soft.
End Store.

(** ** A slice against its world *)

Section Slice.
Context `{PF : Platform} `{PC : PackCodec} `{MP : Multipart} `{RR : R2} `{SJ : SweepJson} `{PJ : PosJson} {PL : PosJsonLaws}.
Context (W : Type) (charge1 : W -> W * result Error unit) (now : W -> Z) (spent : W -> bool) (others : W -> Db -> W * Db).
Context (new_upload : W -> string -> result Error Mpu) (open_upload : W -> string -> string -> result Error Mpu)
  (upload_id : Mpu -> string) (completed : string -> W -> W) (head_object : string -> M W Error (option Z)) (fresh : W -> result Error string).
Context (repo : string) (job : Job) (c : string).
Context (holds : W -> string -> Prop).

(** What the slice relies on: the other handlers are soft, a pack appears in R2
    under a key only by completing its upload, a HEAD tells the truth, random ids are new. *)
Definition shrinks (w w' : W) : Prop := forall k, holds w' k -> holds w k.
Record world_ok : Prop := {
  wo_charge : forall w, shrinks w (charge1 w).1;
  wo_others : forall w d, shrinks w (others w d).1 /\ soft c d (others w d).2;
  wo_head : forall k w, shrinks w (head_object k w).1 /\ (forall n, (head_object k w).2 = Ok (Some n) -> holds w k);
  wo_completed : forall k w k', holds (completed k w) k' -> k' = k \/ holds w k';
  wo_fresh : forall w N, fresh w = Ok N -> ~ holds w (key_pack repo N)
}.
#[export] Instance shrinks_preorder : PreOrder shrinks.
Proof. split; [by intros w k|]. intros w1 w2 w3 H1 H2 k H. auto. Qed.
Definition sealed (w : W) (N : string) : Prop := holds w (key_pack repo N).
Context (HW : world_ok).
Abbreviation BSt := (Bs W).
Abbreviation Loc := (string * ObjLoc)%type.
Create HintDb build.
#[local] Arguments key_pack : simpl never.
Abbreviation idx_of := (fun e : Loc => lc_idx e.2).

(** The pack being built. *)
Context (N : string).
Abbreviation key := (key_pack repo N).
(** The entries of a planned batch still to copy, next first. *)
Definition batch_ok (d : Db) (cands : list string) (ci idx : Z) (rest : list Loc) : Prop :=
  rest <> [] -> exists p, cands !! Z.to_nat ci = Some p /\
    (forall e, e ∈ rest -> exists o, t_objects d !! (e.1, p) = Some o /\ ob_idx o = lc_idx e.2 /\ idx <= lc_idx e.2 < u32_max) /\
    StronglySorted Z.lt (map idx_of rest) /\
    (forall k s i, entry d k p s i -> i < idx \/ i ∈ map idx_of rest \/ Forall (fun j => j < i) (map idx_of rest)).
Record Good (cands : list string) (rest : list Loc) (s : BSt) : Prop := {
  gd_state : BuildState (sealed (bs_w s)) (bs_db s);
  gd_phase : t_meta (bs_db s) !! "gc.phase" = Some "build";
  gd_new : t_meta (bs_db s) !! "gc.new_pack" = Some N;
  gd_cands : marked_ids (bs_db s) = cands;
  gd_staged : forall r, r ∈ bs_staged s -> exists p, in_marked (bs_db s) p = true /\ has (bs_db s) p (or_sha r);
  gd_pos : 0 <= ps_ci (bs_pos s) /\ 0 <= ps_idx (bs_pos s) /\ 0 <= ps_bci (bs_pos s) /\ 0 <= ps_bidx (bs_pos s);
  gd_scan : done_upto (bs_db s) N (map or_sha (bs_staged s)) (ps_ci (bs_pos s)) (ps_idx (bs_pos s));
  gd_bound : done_upto (bs_db s) N (map or_sha (bs_staged s)) (ps_bci (bs_pos s)) (ps_bidx (bs_pos s));
  gd_spans : forall sp, sp ∈ bs_spans s \/ bs_cur s = Some sp ->
    0 <= sp_ci sp /\ 0 <= sp_idx sp /\ cursor_le (sp_ci sp) (sp_idx sp) (ps_ci (bs_pos s)) (ps_idx (bs_pos s));
  gd_bm : forall k bm p m, bs_bm s = Some (k, bm) -> 0 <= k -> cands !! Z.to_nat k = Some p ->
    t_marked (bs_db s) !! p = Some m -> bm = copy_bits m;
  gd_rest : batch_ok (bs_db s) cands (ps_ci (bs_pos s)) (ps_idx (bs_pos s)) rest
}.
Definition BI (cands : list string) (rest : list Loc) (s : BSt) : Prop :=
  ps_pack (bs_pos s) = N /\ (held c (bs_db s) -> Good cands rest s).
(** Between two spans, and at the end of a slice. *)
Definition settled_build (w : W) (d : Db) : Prop :=
  held c d -> BuildState (sealed w) d /\ (t_meta d !! "gc.phase" = Some "sweep" -> build_ok d).
Definition FinS (s : BSt) : Prop := settled_build (bs_w s) (bs_db s).
Lemma good_fin cands rest s : BI cands rest s -> FinS s.
Proof. intros [_ HB] Hh. destruct (HB Hh) as [H1 H2 _ _ _ _ _ _ _ _ _]. split; [done|]. by rewrite H2. Qed.

(** ** Steps of the store and of the world *)

(** A step that leaves the slice's own state, and the store and the world within
    the rely. *)
Definition step (s s' : BSt) : Prop :=
  soft c (bs_db s) (bs_db s') /\ shrinks (bs_w s) (bs_w s') /\ bs_pos s' = bs_pos s /\ bs_staged s' = bs_staged s /\
  bs_spans s' = bs_spans s /\ bs_cur s' = bs_cur s /\ bs_ord s' = bs_ord s /\ bs_bm s' = bs_bm s.
#[local] Instance step_preorder : PreOrder step.
Proof.
  split; [by intros s|]. intros s1 s2 s3 (A1 & A2 & A3 & A4 & A5 & A6 & A7 & A8) (B1 & B2 & B3 & B4 & B5 & B6 & B7 & B8).
  split_and!; [by etrans|by etrans|congruence..].
Qed.
Definition stable (Q : BSt -> Prop) : Prop := forall s s', step s s' -> Q s -> Q s'.
Lemma step_triple {A} Q (m : M BSt Error A) : stable Q -> rel_ok step m -> triple Q m (fun _ => Q) Q.
Proof. intros HQ Hm s Hs. specialize (Hm s). destruct (m s) as [s' [a|e]]; by apply (HQ s). Qed.
Lemma on_db_step {A} (m : DoM A) : rel_ok (soft c) m -> rel_ok step (on_db m).
Proof. intros Hm s. specialize (Hm (bs_db s)). unfold on_db. split_and!; try done. Qed.
Definition out_shrinks (s s' : PackWriter * W) : Prop := shrinks s.2 s'.2.
#[local] Instance out_shrinks_preorder : PreOrder out_shrinks.
Proof. split; [intros s; unfold out_shrinks; reflexivity|]. intros a b d H1 H2. unfold out_shrinks in *. by etrans. Qed.
Lemma on_out_step {A} (m : M (PackWriter * W) Error A) : rel_ok out_shrinks m -> rel_ok step (on_out m).
Proof. intros Hm s. specialize (Hm (bs_out s, bs_w s)). unfold on_out. by split_and!. Qed.
Lemma on_world_step {A} (m : M W Error A) : rel_ok shrinks m -> rel_ok step (on_world m).
Proof. intros Hm s. specialize (Hm (bs_w s)). unfold on_world. by split_and!. Qed.
Lemma awaiting_step {A} (m : M BSt Error A) : rel_ok step m -> rel_ok step (awaiting W others m).
Proof.
  intros Hm s. etrans; [apply Hm|]. unfold awaiting. destruct (wo_others HW (bs_w (m s).1) (bs_db (m s).1)) as [H1 H2].
  by split_and!.
Qed.
Lemma caught_step {A} (m : M BSt Error A) : rel_ok step m -> rel_ok step (caught m).
Proof. intros Hm s. apply Hm. Qed.
Lemma caught_triple {A} P (m : M BSt Error A) Q X Y :
  triple P m Q X -> triple P (caught m) (fun r s => match r with Ok a => Q a s | Err _ => X s end) Y.
Proof. intros Hm s Hs. specialize (Hm s Hs). unfold caught. by destruct (m s) as [s' [a|e]]. Qed.
Lemma state_sealed (P P' : string -> Prop) d : (forall N, P' N -> P N) -> BuildState P d -> BuildState P' d.
Proof.
  intros Hp [B1 B0 B2 B3 B4 B5]. split; [done..| |done|done]. intros x Hx. destruct (B3 x Hx). split; auto.
Qed.
Lemma settled_stable w w' d d' : soft c d d' -> shrinks w w' -> settled_build w d -> settled_build w' d'.
Proof.
  intros Hs Hw Hf Hh. destruct (Hf (soft_held c d d' Hs Hh)) as [H1 H2]. split.
  - apply (state_sealed (sealed w)); [intros x; apply Hw|]. by apply (soft_state c d).
  - rewrite (soft_key c d d' Hs Hh) by done. intros Hp. apply (soft_build_ok c d); auto.
Qed.
Lemma fin_stable : stable FinS.
Proof. intros s s' (Hs & Hw & _). by apply settled_stable. Qed.
Lemma batch_soft d d' cands ci idx rest :
  soft c d d' -> held c d' -> marked_ids d = cands -> batch_ok d cands ci idx rest -> batch_ok d' cands ci idx rest.
Proof.
  intros Hs Hh Hc Hb Hr. destruct (Hb Hr) as (p & H1 & H2 & H3 & H4). exists p. split_and!; [done| |done|].
  - intros e He. destruct (H2 e He) as (o & Ho & Hi). exists o. rewrite (soft_row c d d' Hs Hh); [done|]. left.
    apply marked_ids_elem. rewrite Hc. by eapply list_elem_of_lookup_2.
  - intros k s i He. apply (soft_entry c d d' Hs Hh) in He. by apply (H4 k s i).
Qed.
Lemma bi_stable cands rest : stable (BI cands rest).
Proof.
  intros s s' (Hs & Hw & E1 & E2 & E3 & E4 & E5 & E6) [HN HB]. split; [by rewrite E1|]. intros Hh.
  destruct (HB (soft_held c _ _ Hs Hh)) as [G1 G2 G3 G4 G5 G6 G7 G8 G9 G10 G11].
  split; rewrite ?E1, ?E2, ?E3, ?E4, ?E5, ?E6; try done.
  - apply (state_sealed (sealed (bs_w s))); [intros x; apply Hw|]. by apply (soft_state c (bs_db s)).
  - by rewrite (soft_key c _ _ Hs Hh).
  - by rewrite (soft_key c _ _ Hs Hh).
  - by rewrite (soft_ids c _ _ Hs Hh).
  - intros r Hr. destruct (G5 r Hr) as (p & H1 & H2). exists p.
    rewrite (soft_in c _ _ Hs Hh), (soft_has c _ _ Hs Hh) by by left. done.
  - by apply (soft_done c (bs_db s)).
  - by apply (soft_done c (bs_db s)).
  - intros k bm p m Hb Hk Hp Hm. destruct (soft_mark c _ _ Hs Hh p m Hm) as (m' & Hm' & _ & -> & _). by apply (G10 k bm p).
  - by apply (batch_soft (bs_db s)).
Qed.

(** ** Which primitives are steps *)

Lemma soft_jobs_core d d' : same_core d d' -> soft c d d'.
Proof. apply same_core_soft. Qed.
Lemma core_rel {A} (m : DoM A) : rel_ok same_core m -> rel_ok (soft c) m.
Proof. intros Hm d. apply same_core_soft, Hm. Qed.
Lemma chain_fence_core t chain pack : rel_ok same_core (chain_fence t job chain pack).
Proof.
  intros d. unfold chain_fence, heartbeat, meta_opt, gets, mbind, M_bind, mret, M_ret, fail.
  repeat case_match; simplify_eq; by split_and!.
Qed.
Lemma failpoint_core name : rel_ok same_core (failpoint name).
Proof. intros d. unfold failpoint. repeat case_match; by split_and!. Qed.
Lemma modify_core (f : Db -> Db) : (forall d, same_core d (f d)) -> rel_ok same_core (modify f : DoM unit).
Proof. intros Hf d. apply Hf. Qed.
Lemma fence_step : rel_ok step (fence W now job (Some c)).
Proof. intros s. unfold fence. by apply on_db_step, core_rel, chain_fence_core. Qed.
Lemma fence_true cands rest :
  triple (BI cands rest) (fence W now job (Some c)) (fun f s => BI cands rest s /\ (f = true -> held c (bs_db s))) (BI cands rest).
Proof.
  intros s Hs. pose proof (fence_step s) as Hst. pose proof (bi_stable cands rest s _ Hst Hs) as Hg.
  destruct (fence W now job (Some c) s) as [s' [f|e]] eqn:Ef; [|done]. split; [done|]. intros ->. revert Ef.
  unfold fence, on_db, chain_fence, heartbeat, meta_opt, gets, mbind, M_bind, mret, M_ret, fail. cbn.
  repeat case_match; simplify_eq; cbn; intros [= <-]; bsimp; done.
Qed.

(** The readers and the writer touch the world only by charging. *)
Lemma charge_sh : rel_ok shrinks (charge1 : M W Error unit).
Proof. intros w. apply (wo_charge HW). Qed.
Lemma read_range_sh key off len : rel_ok shrinks (read_range W charge1 key off len).
Proof.
  unfold read_range. apply rel_ok_bind; [apply _|apply charge_sh|intros _].
  apply rel_ok_bind; [apply _|apply rel_ok_lift; apply _|intros [bs|]; [case_match; [apply rel_ok_ret|apply rel_ok_fail]|apply rel_ok_fail]; apply _].
Qed.
Lemma read_spans_sh fuel total l : rel_ok shrinks (read_spans W charge1 repo fuel total l).
Proof.
  revert total l. induction fuel as [|fuel IH]; intros total l; [destruct l; apply rel_ok_ret; apply _|].
  destruct l as [|first l]; [apply rel_ok_ret; apply _|]. cbn [read_spans].
  destruct (grow _ _ _ l) as [[e taken] rest]. case_match; [apply rel_ok_fail; apply _|].
  apply rel_ok_bind; [apply _|apply read_range_sh|intros bs]. apply rel_ok_bind; [apply _|apply rel_ok_lift; apply _|intros out].
  apply rel_ok_bind; [apply _|apply IH|intros more]. apply rel_ok_ret; apply _.
Qed.
Lemma read_entries_sh l : rel_ok shrinks (read_entries W charge1 repo l).
Proof. apply read_spans_sh. Qed.
Lemma chunked_loop_sh fuel stack out : rel_ok shrinks (chunked_loop W charge1 repo fuel stack out).
Proof.
  revert stack out. induction fuel as [|fuel IH]; intros stack out; (destruct stack as [|chunk stack]; [apply rel_ok_ret; apply _|]);
    [apply rel_ok_ret; apply _|].
  cbn [chunked_loop]. intros w. pose proof (read_entries_sh chunk w) as H1. destruct (read_entries W charge1 repo chunk w) as [w' [r|e]]; cbn in H1.
  - etrans; [exact H1|apply IH].
  - destruct e; try exact H1. case_match; [|exact H1]. etrans; [exact H1|apply IH].
Qed.
Lemma on_writer_sh (f : PackWriter -> PackWriter) : rel_ok out_shrinks (on_writer W f).
Proof. intros s k. done. Qed.
Lemma the_writer_sh : rel_ok out_shrinks (the_writer W).
Proof. intros s k. done. Qed.
Lemma wcharge_sh : rel_ok out_shrinks (wcharge W charge1).
Proof. intros s. apply (wo_charge HW). Qed.
Lemma push_part_sh chunk : rel_ok out_shrinks (push_part W chunk).
Proof. intros s k. unfold push_part. by case_match. Qed.
Create HintDb shrinks.
#[local] Hint Resolve charge_sh on_writer_sh the_writer_sh wcharge_sh push_part_sh : shrinks.
#[local] Hint Extern 1 (rel_ok _ (mret _)) => apply rel_ok_ret; apply _ : shrinks.
#[local] Hint Extern 1 (rel_ok _ (fail _)) => apply rel_ok_fail; apply _ : shrinks.
#[local] Hint Extern 1 (rel_ok _ (lift _)) => apply rel_ok_lift; apply _ : shrinks.
#[local] Hint Extern 2 (rel_ok _ (_ ≫= _)) => apply rel_ok_bind; [apply _| |intros ?] : shrinks.
#[local] Hint Extern 3 (rel_ok _ (match _ with _ => _ end)) => case_match : shrinks.
Lemma part_number_sh : rel_ok out_shrinks (part_number W).
Proof. unfold part_number. auto with shrinks. Qed.
#[local] Hint Resolve part_number_sh : shrinks.
Lemma drain_part_sh : rel_ok out_shrinks (drain_part W charge1).
Proof. unfold drain_part. auto 12 with shrinks. Qed.
#[local] Hint Resolve drain_part_sh : shrinks.
Lemma flush_loop_sh fuel : rel_ok out_shrinks (flush_loop W charge1 fuel).
Proof. induction fuel; cbn [flush_loop]; auto 8 with shrinks. Qed.
Lemma checkpoint_sh : rel_ok out_shrinks (checkpoint W charge1).
Proof. unfold checkpoint. auto 8 with shrinks. Qed.
Lemma finish_inner_sh : rel_ok out_shrinks (finish_inner W charge1).
Proof. unfold finish_inner, flush_if_full. auto 20 using flush_loop_sh with shrinks. Qed.
Lemma seal_sh : rel_ok out_shrinks (seal W charge1).
Proof. unfold seal. auto 12 with shrinks. Qed.
Lemma finish_sh : rel_ok out_shrinks (finish W charge1).
Proof.
  intros s. unfold finish. pose proof (finish_inner_sh s) as H1. destruct (finish_inner W charge1 s) as [s' [u|e]]; [|exact H1].
  etrans; [exact H1|apply seal_sh].
Qed.
Lemma append_stored_sh e : rel_ok out_shrinks (append_stored W e).
Proof. unfold append_stored. auto 12 with shrinks. Qed.
Lemma raw_entry_done_sh k st : rel_ok out_shrinks (raw_entry_done W k st).
Proof. unfold raw_entry_done. auto 12 with shrinks. Qed.

(** ** Posting rows *)

(** [d'] is [d] with rows of [l] added to pack [N]. *)
Record grown (l : list string) (d d' : Db) : Prop := {
  gr_core : t_meta d' = t_meta d /\ t_marked d' = t_marked d /\ t_packs d' = t_packs d;
  gr_else : forall s p, p <> N -> t_objects d' !! (s, p) = t_objects d !! (s, p);
  gr_keep : forall s, has d N s -> has d' N s;
  gr_new : forall s, has d' N s -> has d N s \/ s ∈ l
}.
Lemma grown_refl l d : grown l d d.
Proof. split; auto. Qed.
Lemma grown_trans l l' d1 d2 d3 : grown l d1 d2 -> grown l' d2 d3 -> grown (l ++ l') d1 d3.
Proof.
  intros [(A1 & A2 & A3) A4 A5 A6] [(B1 & B2 & B3) B4 B5 B6]. split; [split_and!; congruence| |auto|].
  - intros s p Hp. by rewrite B4, A4.
  - intros s Hs. rewrite elem_of_app. destruct (B6 s Hs) as [Hs'|]; [destruct (A6 s Hs')|]; auto.
Qed.
Lemma parents_objects k n ps d : t_objects (insert_parents k n ps d) = t_objects d /\
  t_meta (insert_parents k n ps d) = t_meta d /\ t_marked (insert_parents k n ps d) = t_marked d /\
  t_packs (insert_parents k n ps d) = t_packs d.
Proof. revert n d. induction ps as [|p ps IH]; intros n d; [done|]. cbn [insert_parents]. destruct (IH (n + 1) (insert_parent k n (Some p) d)) as (-> & -> & -> & ->). by unfold insert_parent; repeat case_match. Qed.
Lemma insert_object_grown r d :
  grown [or_sha r] d (insert_object N r d).1 /\ ((insert_object N r d).2 = Ok tt -> has (insert_object N r d).1 N (or_sha r)).
Proof.
  unfold insert_object, to_i64, lift, mbind, M_bind, modify. destruct (or_offset r <=? i64_max); [|split; [apply grown_refl|done]].
  destruct (or_size r <=? i64_max); [|split; [apply grown_refl|done]]. cbn [fst snd].
  set (d1 := match t_objects d !! (or_sha r, N) with Some _ => d | None => _ end).
  assert (grown [or_sha r] d d1 /\ has d1 N (or_sha r)) as [H1 H2].
  { unfold d1, has. destruct (t_objects d !! (or_sha r, N)) as [o|] eqn:E; [split; [apply grown_refl|by rewrite E]|].
    split; [split; [done| | |]|].
    - intros s p Hp. cbn. rewrite lookup_insert_ne; [done|]. intros [=]. congruence.
    - intros s Hs. unfold has. cbn. destruct (decide (s = or_sha r)) as [->|]; [by rewrite lookup_insert_eq|].
      rewrite lookup_insert_ne; [done|]. intros [=]. congruence.
    - intros s. unfold has. cbn. destruct (decide (s = or_sha r)) as [->|]; [right; left|].
      rewrite lookup_insert_ne; [by left|]. intros [=]. congruence.
    - cbn. by rewrite lookup_insert_eq. }
  assert (forall d2, t_objects d2 = t_objects d1 /\ t_meta d2 = t_meta d1 /\ t_marked d2 = t_marked d1 /\ t_packs d2 = t_packs d1 ->
    grown [or_sha r] d d2 /\ ((Ok tt : result Error unit) = Ok tt -> has d2 N (or_sha r))) as Hext.
  { clearbody d1. intros d2 (E1 & E2 & E3 & E4). destruct H1 as [(A1 & A2 & A3) A4 A5 A6].
    split; [|intros _; unfold has in *; by rewrite E1].
    split; [split_and!; congruence|by rewrite E1|unfold has in *; by rewrite E1..]. }
  destruct (or_kind r); try (by apply Hext). destruct (or_parents r) as [ps|]; [|by apply Hext]. apply Hext.
  destruct (parents_objects (or_sha r) 0 ps (insert_parent (or_sha r) (-1) None d1)) as (-> & -> & -> & ->).
  by unfold insert_parent; repeat case_match.
Qed.
Lemma insert_objects_grown rows d :
  let r := insert_objects N rows d in
  grown (map or_sha rows) d r.1 /\ (r.2 = Ok tt -> forall s, s ∈ map or_sha rows -> has r.1 N s).
Proof.
  unfold insert_objects. case_match; [split; [apply grown_refl|done]|]. clear. revert d.
  induction rows as [|x rows IH]; intros d; cbn [for_each map]; [split; [apply grown_refl|by intros _ s ?%elem_of_nil]|].
  destruct (insert_object_grown x d) as [H1 H2]. unfold mbind, M_bind. destruct (insert_object N x d) as [d1 [[]|e]]; cbn [fst snd] in *.
  - destruct (IH d1) as [H3 H4]. split; [by apply (grown_trans [or_sha x] _ d d1)|].
    intros E s [->|Hs]%elem_of_cons; [|by apply H4]. apply (gr_keep _ _ _ H3). by apply H2.
  - split; [|done]. replace (or_sha x :: map or_sha rows) with ([or_sha x] ++ map or_sha rows) by done.
    eapply grown_trans; [exact H1|apply grown_refl].
Qed.

Section Grown.
Context (l : list string) (d d' : Db) (Hg : grown l d d') (Hout : in_marked d N = false).
Lemma grown_in p : in_marked d' p = in_marked d p.
Proof. unfold in_marked. by destruct Hg as [(_ & -> & _) _ _ _]. Qed.
Lemma grown_row s p : in_marked d p = true -> t_objects d' !! (s, p) = t_objects d !! (s, p).
Proof. intros Hp. apply (gr_else _ _ _ Hg). congruence. Qed.
Lemma grown_entry k p s i : entry d' k p s i <-> entry d k p s i.
Proof.
  unfold entry, marked_ids. destruct (gr_core _ _ _ Hg) as (_ & -> & _).
  split; intros (m & o & H1 & H2 & H3 & H4); exists m, o; (split; [done|]; split; [done|]; split; [|done]);
    (assert (in_marked d p = true) as Hp by (unfold in_marked; by rewrite H2));
    [rewrite grown_row in H3 by done|rewrite grown_row by done]; done.
Qed.
Lemma grown_done extra ci idx : done_upto d N extra ci idx -> done_upto d' N extra ci idx.
Proof.
  intros Hd k p s i He Hc. apply grown_entry in He. destruct (Hd k p s i He Hc); [left|by right]. by apply (gr_keep _ _ _ Hg).
Qed.
Lemma grown_wf : cohort_wf d -> cohort_wf d'.
Proof.
  intros [W1 W2 W3 W4 W5]. split.
  - intros s p o Hp. rewrite grown_in in Hp. rewrite grown_row by done. by apply W1.
  - intros s s' p o o' Hp. rewrite grown_in in Hp. rewrite !grown_row by done. by apply W2.
  - intros s p o Hp. rewrite grown_in in Hp. rewrite grown_row by done. by apply W3.
  - unfold marked_ids. by destruct (gr_core _ _ _ Hg) as (_ & -> & _).
  - by destruct (gr_core _ _ _ Hg) as (_ & -> & _).
Qed.
Lemma grown_state P :
  t_meta d !! "gc.new_pack" = Some N -> (forall s, s ∈ l -> exists p, in_marked d p = true /\ has d p s) ->
  BuildState P d -> BuildState P d'.
Proof.
  intros Hn Hl [B1 B0 B2 B3 B4 B5]. destruct (B3 N Hn) as [[Hkn H1 H2] H3]. destruct (gr_core _ _ _ Hg) as (Em & Ek & Ep). split.
  - by apply grown_wf.
  - split.
    + intros p s. unfold known. rewrite Ep. destruct (decide (p = N)) as [->|Hne]; [done|].
      unfold has. rewrite (gr_else _ _ _ Hg) by done. apply B0.
    + intros p. rewrite grown_in. unfold known. rewrite Ep. apply B0.
  - unfold meta_is in *. by rewrite Em.
  - rewrite Em. intros x Hx. assert (x = N) as -> by congruence. split.
    + split; [unfold known; by rewrite Ep|by rewrite grown_in|]. intros s Hs. assert (exists p, in_marked d p = true /\ has d p s) as (p & Hp & Hps).
      { destruct (gr_new _ _ _ Hg s Hs); auto. }
      exists p. rewrite grown_in. unfold has. by rewrite grown_row.
    + intros Hs k p s i He. apply grown_entry in He. apply (gr_keep _ _ _ Hg). by apply (H3 Hs k p s i).
  - rewrite Em. intros j p Hj Hp. destruct (B4 j p Hj Hp) as (A1 & A2 & A3 & A4). split; [done|]. split; [done|].
    assert (ps_pack p = N) as EN by congruence. rewrite EN in *. split; by apply grown_done.
  - by rewrite Em.
Qed.
End Grown.
(** Rows posted, the rest of the slice as it was. *)
Lemma good_grown cands rest s d' :
  Good cands rest s -> grown (map or_sha (bs_staged s)) (bs_db s) d' -> Good cands rest (set_dw d' (bs_w s) s).
Proof.
  intros G Hg. destruct G as [G1 G2 G3 G4 G5 G6 G7 G8 G9 G10 G11].
  pose proof (gr_core _ _ _ Hg) as (Em & Ek & Ep). destruct (bt_new _ _ G1 N G3) as [[_ Hout _] _].
  assert (forall x, x ∈ map or_sha (bs_staged s) -> exists p, in_marked (bs_db s) p = true /\ has (bs_db s) p x) as Hl.
  { intros x (r & <- & Hr)%elem_of_map. by apply G5. }
  split; cbn; try done; rewrite ?Em, ?Ek; try done.
  - by apply (grown_state (map or_sha (bs_staged s)) (bs_db s)).
  - unfold marked_ids. by rewrite Ek.
  - intros r Hr. destruct (G5 r Hr) as (p & Hp & Hps). exists p.
    rewrite (grown_in (map or_sha (bs_staged s)) (bs_db s)) by done. unfold has.
    by rewrite (grown_row (map or_sha (bs_staged s)) (bs_db s)).
  - by apply (grown_done (map or_sha (bs_staged s)) (bs_db s)).
  - by apply (grown_done (map or_sha (bs_staged s)) (bs_db s)).
  - intros Hr. destruct (G11 Hr) as (p & H1 & H2 & H3 & H4). exists p. split_and!; [done| |done|].
    + intros e He. destruct (H2 e He) as (o & Ho & Hi). exists o. split; [|done].
      rewrite (grown_row (map or_sha (bs_staged s)) (bs_db s)); [done|done|done|]. apply marked_ids_elem. rewrite G4.
      by eapply list_elem_of_lookup_2.
    + intros k x i He. apply (grown_entry (map or_sha (bs_staged s)) (bs_db s)) in He; [|done..]. by apply (H4 k x i).
Qed.
Lemma grown_held l d d' : grown l d d' -> held c d' -> held c d.
Proof. intros Hg. unfold held. by destruct (gr_core _ _ _ Hg) as (<- & _). Qed.
Lemma post_rows_keeps cands rest :
  triple (BI cands rest) (post_rows W) (fun _ s => BI cands rest s /\ bs_staged s = []) (BI cands rest).
Proof.
  intros s [HN HB]. unfold post_rows, gets, on_db, modify, mbind, M_bind, mret, M_ret. cbn. rewrite HN.
  destruct (insert_objects_grown (bs_staged s) (bs_db s)) as [Hg Hall].
  destruct (insert_objects N (bs_staged s) (bs_db s)) as [d' [[]|e]]; cbn in *.
  - split; [|done]. split; [done|]. intros Hh. cbn in Hh.
    pose proof (good_grown cands rest s d' (HB (grown_held _ _ _ Hg Hh)) Hg) as G. destruct G as [G1 G2 G3 G4 G5 G6 G7 G8 G9 G10 G11]. cbn in *.
    assert (forall ci idx, done_upto d' N (map or_sha (bs_staged s)) ci idx -> done_upto d' N [] ci idx) as Hd.
    { intros ci idx Hd k p x i He Hc. left. destruct (Hd k p x i He Hc) as [|Hx]; [done|]. by apply Hall. }
    split; cbn; auto. by intros r ?%elem_of_nil.
  - split; [done|]. intros Hh. apply (good_grown cands rest s d'); [|done]. by apply HB, (grown_held _ _ _ Hg).
Qed.

(** ** Publishing *)

Lemma state_remeta P d d' :
  t_marked d' = t_marked d -> t_objects d' = t_objects d -> t_packs d' = t_packs d ->
  t_meta d' !! "gc.mode" = t_meta d !! "gc.mode" -> t_meta d' !! "gc.new_pack" = t_meta d !! "gc.new_pack" ->
  (forall j p, t_meta d' !! "gc.pos" = Some j -> pos_parse j = Ok p -> t_meta d !! "gc.new_pack" = Some (ps_pack p) /\ pos_ok d p) ->
  (t_meta d' !! "gc.pos" = None -> t_meta d !! "gc.new_pack" = None) ->
  BuildState P d -> BuildState P d'.
Proof.
  intros Em Eo Ep Ek En Hpos Hboth [B1 B0 B2 B3 B4 B5].
  assert (forall k p s i, entry d' k p s i <-> entry d k p s i) as He by (intros; unfold entry, marked_ids; by rewrite Em, Eo).
  assert (forall p s, has d' p s <-> has d p s) as Hh by (intros; unfold has; by rewrite Eo).
  assert (forall x, in_marked d' x = in_marked d x) as Hi by (intros; unfold in_marked; by rewrite Em).
  assert (forall x, known d' x <-> known d x) as Hk by (intros; unfold known; by rewrite Ep).
  split.
  - destruct B1 as [W1 W2 W3 W4 W5]. split; [intros s p o; rewrite Hi, Eo; apply W1
      |intros s s' p o o'; rewrite Hi, Eo; apply W2|intros s p o; rewrite Hi, Eo; apply W3|unfold marked_ids; by rewrite Em|by rewrite Em].
  - destruct B0 as [O1 O2]. split; [intros p s; rewrite Hh, Hk; apply O1|intros p; rewrite Hi, Hk; apply O2].
  - unfold meta_is in *. by rewrite Ek.
  - rewrite En. intros x Hx. destruct (B3 x Hx) as [[H0 H1 H2] H3]. split.
    + split; [by apply Hk|by rewrite Hi|]. intros s. rewrite Hh. intros Hs. destruct (H2 s Hs) as (p & Hp & Hps).
      exists p. by rewrite Hi, Hh.
    + intros Hs k p s i H. rewrite Hh. apply He in H. by apply (H3 Hs k p s i).
  - rewrite En. intros j p Hj Hp. destruct (Hpos j p Hj Hp) as (H1 & H2 & H3 & H4). split; [done|]. split; [done|].
    split; intros k q s i H Hc; rewrite Hh; apply He in H; [by apply (H3 k q s i)|by apply (H4 k q s i)].
  - by rewrite En.
Qed.
Lemma complete_build_ok P d : BuildState P d -> t_meta d !! "gc.new_pack" = Some N -> complete_build d N -> build_ok d.
Proof.
  intros B Hn Hc p m b s o Hm Hb Ho Hg. exists N. destruct (bt_new _ _ B N Hn) as [[_ Hout _] _]. split_and!; [done|done|].
  assert (p ∈ marked_ids d) as Hin by (apply marked_ids_elem; unfold in_marked; by rewrite Hm).
  apply list_elem_of_lookup in Hin as [k Hk]. apply (Hc k p s (ob_idx o)). exists m, o. split_and!; try done.
  unfold copy_bits. by rewrite Hb.
Qed.
(** The chain's own meta writes that a build does not read. *)
Lemma put_soft k v : own_key k = false -> rel_ok (soft c) (put k v).
Proof.
  intros Hk d Hh. assert (forall x, own_key x = true -> t_meta (on_meta (insert k v) d) !! x = t_meta d !! x) as Hx.
  { intros x Hx. cbn. rewrite lookup_insert_ne; [done|]. intros ->. congruence. }
  split_and!; try done; [|by apply marks_same]. unfold held in *. by rewrite <- (Hx "gc.chain").
Qed.
Lemma publish_soft m : rel_ok (soft c) (publish N m).
Proof.
  intros d Hh. unfold publish in *. destruct (negb _); [by split_and!|]. destruct (t_packs d !! N) as [x|] eqn:E; [|by split_and!].
  destruct (open_or_live x); [|by split_and!].
  assert (forall p, known (on_packs (insert N (publish_row m (pm_bytes m) x)) d) p <-> known d p) as Hk.
  { intros p. unfold known. cbn. destruct (decide (p = N)) as [->|]; [rewrite lookup_insert_eq, E; split; intros _; by eexists|].
    by rewrite lookup_insert_ne. }
  split_and!; try done; [by apply marks_same| |].
  - intros [O1 O2]. split; [intros p y Hy; apply Hk; by apply (O1 p y)|intros p Hp; apply Hk; by apply O2].
  - intros p _ Hp. by apply Hk.
Qed.
Lemma chain_payload_core : rel_ok same_core chain_payload.
Proof. intros d. by split_and!. Qed.
Lemma enqueue_core k t pl : rel_ok same_core (enqueue k t pl).
Proof. intros d. unfold enqueue, modify, enqueue_db. cbn. by case_match; split_and!. Qed.
Lemma swap_baseline_soft : rel_ok (soft c) swap_baseline.
Proof.
  unfold swap_baseline. apply rel_ok_bind; [apply _|apply rel_ok_gets; apply _|intros [|]]; [|apply rel_ok_ret; apply _].
  apply rel_ok_bind; [apply _| |intros rv; by apply put_soft].
  apply core_rel. intros d. unfold meta_i64, meta, lift, mbind, M_bind. by repeat case_match; simplify_eq; split_and!.
Qed.
(** The flow a slice ends in: the store is settled, and a rebuild starts from a build. *)
Definition flow_ok (f : Flow) (s : BSt) : Prop :=
  FinS s /\ (f = FRebuild -> held c (bs_db s) -> t_meta (bs_db s) !! "gc.phase" = Some "build").
Lemma bi_flow cands rest f s : BI cands rest s -> flow_ok f s.
Proof. intros HB. split; [by apply (good_fin cands rest)|]. intros _ Hh. by apply HB. Qed.

(** The store just before the build is published. *)
Definition to_publish (w : W) (d : Db) : Prop := held c d ->
  (BuildState (sealed w) d /\ t_meta d !! "gc.phase" = Some "build") /\ t_meta d !! "gc.new_pack" = Some N /\ complete_build d N.
Lemma soft_triple {A} (Q : Db -> Prop) (m : DoM A) :
  (forall d d', soft c d d' -> Q d -> Q d') -> rel_ok (soft c) m -> triple Q m (fun _ => Q) Q.
Proof. intros HQ Hm d Hd. specialize (Hm d). destruct (m d) as [d' [a|e]]; by apply (HQ d). Qed.
Lemma to_publish_soft w d d' : soft c d d' -> to_publish w d -> to_publish w d'.
Proof.
  intros Hs Hp Hh. destruct (Hp (soft_held c _ _ Hs Hh)) as ([H1 H2] & H3 & H4).
  rewrite !(soft_key c _ _ Hs Hh) by done. split_and!; [by apply (soft_state c d)|done|done|by apply (soft_complete c d)].
Qed.
Lemma to_publish_settled w d : to_publish w d -> settled_build w d.
Proof. intros Hp Hh. destruct (Hp Hh) as ([H1 H2] & _). split; [done|]. by rewrite H2. Qed.
Lemma fence_spec t d pack :
  match chain_fence t job (Some c) pack d with
  | (d', Ok true) => same_core d d' /\ held c d'
  | (d', _) => same_core d d'
  end.
Proof.
  unfold chain_fence, heartbeat, meta_opt, gets, mbind, M_bind, mret, M_ret, fail, held.
  repeat case_match; simplify_eq; bsimp; by split_and!.
Qed.
Lemma fence_to_publish w t pack :
  triple (to_publish w) (chain_fence t job (Some c) pack)
    (fun f d => to_publish w d /\ (f = true -> held c d)) (settled_build w).
Proof.
  intros d Hd. pose proof (fence_spec t d pack) as Hf. destruct (chain_fence _ _ _ _ d) as [d' [[|]|e]]; [destruct Hf as [Hf Hh]| |];
    (assert (to_publish w d') as Hd' by (apply (to_publish_soft w d); [by apply same_core_soft|done])); [done|by split|by apply to_publish_settled].
Qed.
Lemma phase_sweep w d : held c d -> to_publish w d -> settled_build w (on_meta (insert "gc.phase" "sweep") d).
Proof.
  intros Hh Hp _. destruct (Hp Hh) as ([H1 H2] & H3 & H4). set (d' := on_meta _ d).
  assert (BuildState (sealed w) d') as B.
  { apply (state_remeta _ d); try done; try (cbn; by rewrite lookup_insert_ne).
    - intros j p. cbn. rewrite lookup_insert_ne by done. apply (bt_pos _ _ H1).
    - cbn. rewrite lookup_insert_ne by done. apply (bt_both _ _ H1). }
  split; [done|]. intros _. apply (complete_build_ok (sealed w)); [done|cbn; by rewrite lookup_insert_ne|]. exact H4.
Qed.
Lemma swap_not_held t pack m :
  triple (fun d => ~ held c d) (swap t pack m job (Some c)) (fun f d => ~ held c d /\ f = FDone) (fun d => ~ held c d).
Proof.
  apply (triple_bind _ _ (fun f d => ~ held c d /\ f = false)).
  - intros d Hn. pose proof (fence_spec t d pack) as Hf. unfold held in *.
    destruct (chain_fence t job (Some c) pack d) as [d' [[|]|e]]; [destruct Hf as [(E & _) Hh]|destruct Hf as (E & _)..]; rewrite E in *; done.
  - intros [|]; cbn [negb]; [by intros d [_ ?]|]. by apply triple_ret; intros d [? _].
Qed.
Lemma finish_build_keeps w t pos m :
  ps_pack pos = N ->
  triple (to_publish w) (finish_build t pos m job (Some c)) (fun f d => settled_build w d /\ f = FDone) (settled_build w).
Proof.
  intros HN. unfold finish_build. rewrite HN.
  assert (forall A (m : DoM A), rel_ok (soft c) m -> triple (to_publish w) m (fun _ => to_publish w) (settled_build w)) as Hsoft.
  { intros A m0 Hm. eapply triple_exn; [apply to_publish_settled|]. apply soft_triple; [apply to_publish_soft|done]. }
  apply (triple_bind _ _ (fun _ => to_publish w)); [apply Hsoft, core_rel, failpoint_core|intros _].
  apply gets_bind. intros [|].
  { intros d [Hp Hm]. assert (~ held c d) as Hn.
    { intros Hh. destruct (Hp Hh) as ([H1 _] & _). pose proof (bt_mode _ _ H1). congruence. }
    pose proof (swap_not_held t N m d Hn) as Hs. destruct (swap t N m job (Some c) d) as [d' [f|e]]; [destruct Hs as [H1 H2]; split; [|done]|];
      by intros Hh. }
  apply (triple_bind _ _ (fun f d => to_publish w d /\ (f = true -> held c d))).
  { eapply triple_pre; [|apply fence_to_publish]. tauto. }
  intros [|]; cbn [negb]; [|apply triple_ret; intros d [Hp _]; split; [by apply to_publish_settled|done]].
  apply (triple_bind _ _ (fun _ d => to_publish w d /\ held c d)).
  { intros d [Hp Hh]. specialize (Hh eq_refl). pose proof (publish_soft m d) as Hs. assert (held c (publish N m d).1) as Hh'.
    { unfold publish, held in *. by repeat case_match. }
    destruct (publish N m d) as [d' [b|e]]; [split; [by apply (to_publish_soft w d)|done]|].
    by apply to_publish_settled, (to_publish_soft w d). }
  intros [|]; cbn [negb]; [|apply triple_fail; intros d [Hp _]; by apply to_publish_settled].
  apply (triple_bind _ _ (fun _ d => to_publish w d /\ held c d)); [intros d Hd; exact Hd|intros pl].
  apply (modify_bind _ (fun d => to_publish w d /\ held c d)).
  { intros d [Hp Hh]. destruct (enqueue_core GcSweep t pl d) as (E1 & E2 & E3 & E4).
    split; [apply (to_publish_soft w d); [by apply same_core_soft|done]|]. unfold held in *. cbn in E1. by rewrite E1. }
  apply (modify_bind _ (settled_build w)); [intros d [Hp Hh]; by apply phase_sweep|].
  apply (triple_bind _ _ (fun _ => settled_build w)); [|intros _; by apply triple_ret].
  apply soft_triple; [|apply swap_baseline_soft]. intros d d' Hs. by apply settled_stable.
Qed.
Lemma finish_with_keeps cands rest m :
  triple (fun s => BI cands rest s /\ (held c (bs_db s) -> complete_build (bs_db s) N)) (finish_with W now job (Some c) m)
    (fun f s => flow_ok f s) FinS.
Proof.
  intros s [[HN HB] Hc]. unfold finish_with, on_db.
  assert (to_publish (bs_w s) (bs_db s)) as Hp.
  { intros Hh. destruct (HB Hh) as [G1 G2 G3 _ _ _ _ _ _ _ _]. split_and!; auto. }
  pose proof (finish_build_keeps (bs_w s) (now (bs_w s)) (bs_pos s) m HN _ Hp) as Hf.
  destruct (finish_build _ _ _ _ _ _) as [d' [f|e]]; cbn in *; [|exact Hf]. destruct Hf as [Hf ->]. by split.
Qed.
(** ** Errors of the upload *)

Lemma step_bind {A B} (Q : BSt -> Prop) (m : M BSt Error A) (f : A -> M BSt Error B) R :
  stable Q -> (forall s, Q s -> FinS s) -> rel_ok step m -> (forall a, triple Q (f a) R FinS) -> triple Q (m ≫= f) R FinS.
Proof.
  intros Hs Hq Hm Hf. apply (triple_bind _ _ (fun _ => Q)); [|done]. eapply triple_exn; [exact Hq|]. by apply step_triple.
Qed.
Lemma gets_any {A B} (P : BSt -> Prop) (g : BSt -> A) (f : A -> M BSt Error B) R X :
  (forall a, triple P (f a) R X) -> triple P (gets g ≫= f) R X.
Proof. intros Hf. apply gets_bind. intros a. eapply triple_pre; [|apply Hf]. by intros s [? _]. Qed.
(** Every marked entry is posted. *)
Definition CI (cands : list string) (rest : list Loc) (s : BSt) : Prop :=
  BI cands rest s /\ (held c (bs_db s) -> complete_build (bs_db s) N).
Lemma ci_fin cands rest s : CI cands rest s -> FinS s.
Proof. intros [HB _]. by apply (good_fin cands rest). Qed.
Lemma ci_stable cands rest : stable (CI cands rest).
Proof.
  intros s s' Hst [HB Hc]. split; [by apply (bi_stable cands rest s)|]. destruct Hst as (Hs & _). intros Hh.
  pose proof (soft_held c _ _ Hs Hh) as Hh0. apply (soft_complete c (bs_db s)); [done..|by apply HB|by apply Hc].
Qed.
#[local] Hint Resolve bi_stable ci_stable good_fin ci_fin : build.
Lemma before_swap_step : rel_ok step (before_swap W others).
Proof.
  unfold before_swap. apply rel_ok_bind; [apply _|apply rel_ok_gets; apply _|intros [|]]; [|apply rel_ok_ret; apply _].
  apply awaiting_step, on_db_step, core_rel, failpoint_core.
Qed.
Lemma head_spec cands rest :
  triple (BI cands rest) (awaiting W others (on_world (head_object key)))
    (fun h s => if h is Some _ then CI cands rest s else BI cands rest s) FinS.
Proof.
  intros s Hs. assert (rel_ok shrinks (head_object key)) as Hsh by (intros w; apply (wo_head HW)).
  pose proof (awaiting_step _ (on_world_step _ Hsh) s) as Hst. pose proof (bi_stable cands rest s _ Hst Hs) as Hg.
  destruct (wo_head HW key (bs_w s)) as [_ Hh]. unfold awaiting, on_world in *. cbn in *.
  destruct (head_object key (bs_w s)) as [w' [[n|]|e]]; cbn in *; [|done|by apply (good_fin cands rest)].
  refine (ci_stable cands rest s _ Hst _). split; [done|]. intros Hd. destruct Hs as [_ HB]. destruct (HB Hd) as [G1 _ G3 _ _ _ _ _ _ _ _].
  apply (bt_new _ _ G1 N G3). by apply (Hh n).
Qed.
Lemma mpu_err_keeps cands rest e :
  triple (BI cands rest) (mpu_err W charge1 now others head_object job (Some c) key e) flow_ok FinS.
Proof.
  unfold mpu_err. apply step_bind; [eauto with build..|apply on_world_step, charge_sh|intros _].
  eapply triple_bind; [apply head_spec|intros [size|]].
  - apply step_bind; [eauto with build..|apply fence_step|intros [|]]; cbn [negb];
      [|apply triple_ret; intros s [HB _]; by apply (bi_flow cands rest)].
    apply step_bind; [eauto with build..|apply before_swap_step|intros _].
    apply gets_any. intros x. apply (finish_with_keeps cands rest).
  - apply step_bind; [eauto with build..|apply fence_step|intros [|]]; cbn [negb];
      [|apply triple_ret; intros s HB; by apply (bi_flow cands rest)].
    apply gets_any. intros n.
    apply step_bind; [eauto with build..|by apply on_db_step, put_soft|intros _].
    apply triple_ret. intros s HB. by apply (bi_flow cands rest).
Qed.

(** ** The flush *)

(** [p] claims no more than the slice's own cursor and boundary. *)
Definition within (p q : Pos) : Prop :=
  (0 <= ps_ci p /\ 0 <= ps_idx p /\ 0 <= ps_bci p /\ 0 <= ps_bidx p) /\
  cursor_le (ps_ci p) (ps_idx p) (ps_ci q) (ps_idx q) /\
  (cursor_le (ps_bci p) (ps_bidx p) (ps_ci q) (ps_idx q) \/ cursor_le (ps_bci p) (ps_bidx p) (ps_bci q) (ps_bidx q)).
Lemma cursor_refl ci idx : cursor_le ci idx ci idx.
Proof. by intros k i. Qed.
Lemma cursor_zero ci idx : 0 <= ci -> 0 <= idx -> cursor_le 0 0 ci idx.
Proof. intros ? ? k i. unfold cursor_lt. lia. Qed.
Lemma boundary_in durable cur spans s : boundary durable cur spans = Some s -> s ∈ spans \/ cur = Some s.
Proof.
  assert (forall f, List.find f spans = Some s -> s ∈ spans) as Hf by (intros f Hf; by apply list_elem_of_In, (List.find_some f)).
  unfold boundary. intros H. repeat case_match; simplify_eq; eauto.
Qed.
Lemma persisted_ok pt pos st app cur spans pp :
  persisted pt pos st app cur spans = Ok pp ->
  ps_pack pp.1 = ps_pack pos /\
  (0 <= ps_ci pos /\ 0 <= ps_idx pos /\ 0 <= ps_bci pos /\ 0 <= ps_bidx pos ->
   (forall sp, sp ∈ spans \/ cur = Some sp -> 0 <= sp_ci sp /\ 0 <= sp_idx sp /\ cursor_le (sp_ci sp) (sp_idx sp) (ps_ci pos) (ps_idx pos)) ->
   within pp.1 pos).
Proof.
  unfold persisted. intros H. split.
  - repeat case_match; simplify_eq; try done; by destruct pt.
  - intros (H1 & H2 & H3 & H4) Hsp. destruct (wc_pos st <? app).
    + destruct (boundary (wc_pos st) cur spans) as [s|] eqn:Eb.
      * destruct (Hsp s (boundary_in _ _ _ _ Eb)) as (A1 & A2 & A3). simplify_eq.
        destruct pt; split_and!; cbn; auto using cursor_refl.
      * destruct (pt && (wc_pos st =? 0)); simplify_eq; [split_and!; cbn; auto using cursor_refl, cursor_zero; lia|].
        repeat case_match; simplify_eq. split_and!; cbn; auto using cursor_refl.
    + simplify_eq. destruct pt; split_and!; cbn; auto using cursor_refl.
Qed.
Lemma done_le d pack extra ci idx ci' idx' : cursor_le ci idx ci' idx' -> done_upto d pack extra ci' idx' -> done_upto d pack extra ci idx.
Proof. intros Hl Hd k p s i He Hc. apply (Hd k p s i He), Hl, Hc. Qed.
(** Ready to persist [p]: the rows are posted. *)
Definition Ready (cands : list string) (rest : list Loc) (p : Pos) (s : BSt) : Prop :=
  BI cands rest s /\ bs_staged s = [] /\ ps_pack p = N /\ (held c (bs_db s) -> within p (bs_pos s)).
Lemma persist_stable cands rest p : stable (Ready cands rest p).
Proof.
  intros s s' Hst (HB & E & HN & Hw). split; [by apply (bi_stable cands rest s)|].
  destruct Hst as (Hs & _ & E1 & E2 & _). rewrite E1, E2. split_and!; [done..|]. intros Hh. by apply Hw, (soft_held c _ _ Hs).
Qed.
Lemma ready_fin cands rest p s : Ready cands rest p s -> FinS s.
Proof. intros [HB _]. by apply (good_fin cands rest). Qed.
Lemma set_dw_state d d' w (s : BSt) : set_dw d' w (set_dw d w s) = set_dw d' w s.
Proof. done. Qed.
(** Meta writes other than the build's own description. *)
Lemma good_remeta cands rest s d' :
  t_marked d' = t_marked (bs_db s) -> t_objects d' = t_objects (bs_db s) -> t_meta d' !! "gc.phase" = t_meta (bs_db s) !! "gc.phase" ->
  t_meta d' !! "gc.new_pack" = t_meta (bs_db s) !! "gc.new_pack" ->
  BuildState (sealed (bs_w s)) d' -> Good cands rest s -> Good cands rest (set_dw d' (bs_w s) s).
Proof.
  intros Em Eo Ep En HB [G1 G2 G3 G4 G5 G6 G7 G8 G9 G10 G11].
  assert (forall k p x i, entry d' k p x i <-> entry (bs_db s) k p x i) as He by (intros; unfold entry, marked_ids; by rewrite Em, Eo).
  split; cbn; try done; rewrite ?Ep, ?En; try done.
  - unfold marked_ids. by rewrite Em.
  - intros r Hr. destruct (G5 r Hr) as (p & H1 & H2). exists p. unfold in_marked, has. by rewrite Em, Eo.
  - intros k p x i H Hc. unfold has. rewrite Eo. apply He in H. by apply (G7 k p x i).
  - intros k p x i H Hc. unfold has. rewrite Eo. apply He in H. by apply (G8 k p x i).
  - by rewrite Em.
  - intros Hr. destruct (G11 Hr) as (p & H1 & H2 & H3 & H4). exists p. split_and!; [done|by rewrite Eo|done|].
    intros k x i H. apply He in H. by apply (H4 k x i).
Qed.
Lemma put_pos_keeps cands rest p :
  triple (Ready cands rest p) (on_db (put_pos p)) (fun _ => BI cands rest) FinS.
Proof.
  intros s ([HN HB] & E & Hp & Hw). cbn. split; [done|]. intros Hh. cbn in Hh.
  assert (held c (bs_db s)) as Hh0 by (unfold held in *; revert Hh; cbn; by map_simp). specialize (HB Hh0).
  destruct (Hw Hh0) as (H0 & H1 & H2). pose proof HB as [G1 _ G3 _ _ _ G7 G8 _ _ _]. rewrite E in G7, G8.
  apply (good_remeta cands rest s); cbn; try done; try by map_simp.
  apply (state_remeta _ (bs_db s)); cbn; try done; try by map_simp. intros j q. map_simp. intros [= <-]. rewrite pos_roundtrip.
  intros [= <-]. cbn. rewrite Hp. split; [done|]. split; [done|]. cbn. rewrite Hp. split; [by eapply done_le|].
  destruct H2 as [H2|H2]; by eapply done_le.
Qed.
(** Changes to the cursor's bookkeeping. *)
Lemma good_book cands rest (s s' : BSt) :
  bs_db s' = bs_db s -> bs_w s' = bs_w s -> bs_staged s' = bs_staged s -> bs_bm s' = bs_bm s ->
  (ps_pack (bs_pos s'), (ps_ci (bs_pos s'), ps_idx (bs_pos s')), (ps_bci (bs_pos s'), ps_bidx (bs_pos s'))) =
    (ps_pack (bs_pos s), (ps_ci (bs_pos s), ps_idx (bs_pos s)), (ps_bci (bs_pos s), ps_bidx (bs_pos s))) ->
  (forall sp, sp ∈ bs_spans s' \/ bs_cur s' = Some sp -> (sp ∈ bs_spans s \/ bs_cur s = Some sp) \/
     (sp_ci sp = ps_ci (bs_pos s) /\ sp_idx sp = ps_idx (bs_pos s))) ->
  BI cands rest s -> BI cands rest s'.
Proof.
  intros E1 E2 E3 E4 [= EP E5 E6 E7 E8] Hsp [HN HB]. split; [by rewrite EP|]. rewrite E1. intros Hh.
  destruct (HB Hh) as [G1 G2 G3 G4 G5 G6 G7 G8 G9 G10 G11]. split; rewrite ?E1, ?E2, ?E3, ?E4, ?E5, ?E6, ?E7, ?E8; try done.
  intros sp H. destruct (Hsp sp H) as [Hs|[-> ->]]; [by apply G9|]. split_and!; [lia..|apply cursor_refl].
Qed.
Lemma drop_durable_sub durable spans sp : sp ∈ drop_durable durable spans -> sp ∈ spans.
Proof. induction spans as [|s l IH]; [done|]. cbn. case_match; [right; by apply IH|done]. Qed.
Lemma drain_parts_keeps cands rest fuel news st :
  triple (BI cands rest) (drain_parts W charge1 now others head_object job (Some c) fuel key news st)
    (fun r s => match r with inl f => flow_ok f s | inr _ => BI cands rest s end) FinS.
Proof.
  revert news st. induction fuel as [|fuel IH]; intros news st; cbn [drain_parts]; [by apply triple_ret|].
  apply gets_any. intros out. case_match; [by apply triple_ret|].
  apply step_bind; [eauto with build..|apply caught_step, awaiting_step, on_out_step, checkpoint_sh|intros [[[rec x]|]|e]].
  - apply step_bind; [eauto with build..|apply on_db_step, core_rel, failpoint_core|intros _; apply IH].
  - by apply triple_ret.
  - eapply triple_bind; [apply mpu_err_keeps|]. intros f. by apply triple_ret.
Qed.
(** The end of a step of the build: go on, or end the slice. *)
Definition goes_on (cands : list string) (rest : list Loc) (f : option Flow) (s : BSt) : Prop :=
  match f with None => BI cands rest s | Some f => flow_ok f s end.
Lemma on_db_core {A} (m : DoM A) : rel_ok same_core m -> rel_ok step (on_db m).
Proof. intros Hm. by apply on_db_step, core_rel. Qed.
Lemma flush_commit_keeps cands rest pt news st out :
  triple (BI cands rest) (flush_commit W pt news st out) (fun _ => BI cands rest) FinS.
Proof.
  unfold flush_commit. set (Posted := fun s : BSt => BI cands rest s /\ bs_staged s = []).
  assert (stable Posted) as Hst.
  { intros s s' Hs [HB E]. split; [by apply (bi_stable cands rest s)|]. destruct Hs as (_ & _ & _ & -> & _). done. }
  assert (forall s, Posted s -> FinS s) as Hfin by (intros s [HB _]; by apply (good_fin cands rest)).
  apply (triple_bind _ _ (fun _ => Posted)); [eapply triple_exn; [apply (good_fin cands rest)|apply post_rows_keeps]|intros _].
  apply step_bind; [done..|by apply on_db_core, modify_core|intros _].
  apply step_bind; [done..|by apply on_db_core, modify_core|intros _].
  apply gets_bind. intros s0. eapply triple_bind; [apply triple_lift; by intros s [HP _]; apply Hfin|intros pp].
  apply (triple_pre _ (Ready cands rest (pos_st (Some pp.2) (pos_tail (if pt then Z.of_nat (length (pw_part out)) else 0) pp.1)))).
  { intros s [[[HB E] Es] Hpp]. subst s0. apply persisted_ok in Hpp as [HN Hw]. split_and!; [done..|cbn; rewrite HN; apply HB|].
    intros Hh. destruct HB as [_ HB]. destruct (HB Hh) as [_ _ _ _ _ G6 _ _ G9 _ _]. exact (Hw G6 G9). }
  cbv zeta. apply step_bind; [apply persist_stable|apply ready_fin|destruct pt; [by apply on_db_core, modify_core|apply rel_ok_ret; apply _]|intros _].
  apply (triple_bind _ _ (fun _ => BI cands rest)); [apply put_pos_keeps|intros _].
  apply (modify_bind _ (BI cands rest)); [intros s; apply good_book; try done; auto|].
  apply triple_modify. intros s. apply good_book; try done. intros sp [?%drop_durable_sub|]; auto.
Qed.
Lemma flush_keeps cands rest pt :
  triple (BI cands rest) (flush W charge1 now others head_object job (Some c) key pt) (goes_on cands rest) FinS.
Proof.
  unfold flush. apply gets_any. intros n. eapply triple_bind; [apply drain_parts_keeps|intros [f|[news st]]]; [by apply triple_ret|].
  apply gets_any. intros out. case_match; [|by apply triple_ret].
  apply step_bind; [eauto with build..|apply fence_step|intros [|]]; cbn [negb];
    [|apply triple_ret; intros s HB; by apply (bi_flow cands rest)].
  apply (triple_bind _ _ (fun _ => BI cands rest)); [apply flush_commit_keeps|intros _].
  apply step_bind; [eauto with build..|apply fence_step|intros [|]]; apply triple_ret; [done|].
  intros s HB. by apply (bi_flow cands rest).
Qed.
(** ** Copying entries *)

Lemma yield_keeps cands rest rest' :
  triple (BI cands rest) (yield W charge1 now others head_object job (Some c) key) (goes_on cands rest') FinS.
Proof.
  unfold yield. eapply triple_bind; [apply flush_keeps|intros [f|]]; apply triple_ret; [done|].
  intros s HB. by apply (bi_flow cands rest).
Qed.
Lemma stream_frags_keeps cands rest fuel l p :
  triple (BI cands rest) (stream_frags W charge1 now spent others head_object repo job (Some c) fuel key l p) (goes_on cands rest) FinS.
Proof.
  revert p. induction fuel as [|fuel IH]; intros p; cbn [stream_frags]; [by apply triple_ret|]. case_match; [by apply triple_ret|].
  apply gets_any. intros [|]; [apply yield_keeps|].
  apply step_bind; [eauto with build..|apply awaiting_step, on_world_step, read_range_sh|intros frag].
  apply step_bind; [eauto with build..| |intros _].
  { case_match; [|apply rel_ok_ret; apply _]. apply rel_ok_bind; [apply _|apply rel_ok_lift; apply _|intros h].
    case_match; [apply rel_ok_ret|apply rel_ok_fail]; apply _. }
  cbv zeta. apply step_bind; [eauto with build..|apply on_out_step; intros s k; done|intros _].
  apply (modify_bind _ (BI cands rest)); [intros s; apply good_book; try done; auto|].
  apply (triple_bind _ _ (goes_on cands rest)); [apply flush_keeps|intros [f|]]; [by apply triple_ret|apply IH].
Qed.

(** The head of a planned batch is the next marked entry. *)
Section Head.
Context (cands : list string) (id : string) (l : ObjLoc) (rest : list Loc) (s : BSt).
Context (G : Good cands ((id, l) :: rest) s).
Lemma head_row : exists p o, cands !! Z.to_nat (ps_ci (bs_pos s)) = Some p /\ in_marked (bs_db s) p = true /\
  t_objects (bs_db s) !! (id, p) = Some o /\ ob_idx o = lc_idx l.
Proof.
  destruct (gd_rest _ _ _ G) as (p & H1 & H2 & _); [done|]. destruct (H2 (id, l)) as (o & Ho & Hi & _); [left|].
  exists p, o. split_and!; try done. apply marked_ids_elem. rewrite (gd_cands _ _ _ G). by eapply list_elem_of_lookup_2.
Qed.
Lemma head_idx : ps_idx (bs_pos s) <= lc_idx l < u32_max.
Proof. destruct (gd_rest _ _ _ G) as (p & _ & H2 & _); [done|]. destruct (H2 (id, l)) as (o & _ & _ & ?); [left|done]. Qed.
Lemma head_sorted e : e ∈ rest -> lc_idx l < lc_idx e.2.
Proof.
  intros He. destruct (gd_rest _ _ _ G) as (p & _ & _ & H3 & _); [done|]. cbn in H3. inversion_clear H3 as [|? ? _ Hf].
  rewrite Forall_forall in Hf. apply Hf, elem_of_map. by exists e.
Qed.
Lemma head_before k p x i : entry (bs_db s) k p x i -> cursor_lt (Z.of_nat k) i (ps_ci (bs_pos s)) (lc_idx l) ->
  cursor_lt (Z.of_nat k) i (ps_ci (bs_pos s)) (ps_idx (bs_pos s)).
Proof.
  intros He [Hk|[Hk Hi]]; [by left|right]. split; [done|]. destruct (gd_rest _ _ _ G) as (q & H1 & _ & _ & H4); [done|].
  assert (p = q) as ->. { destruct He as (m & o & Hp & _). rewrite (gd_cands _ _ _ G) in Hp. rewrite <- Hk, Nat2Z.id in H1. congruence. }
  destruct (H4 k x i He) as [?|[Hin|Hall]]; [done| |].
  - cbn in Hin. apply elem_of_cons in Hin as [->|(e & <- & Hin)%elem_of_map]; [lia|]. pose proof (head_sorted e Hin). lia.
  - cbn in Hall. inversion_clear Hall. lia.
Qed.
Lemma head_spans idx' sp : lc_idx l <= idx' -> sp ∈ bs_spans s \/ bs_cur s = Some sp ->
  0 <= sp_ci sp /\ 0 <= sp_idx sp /\ cursor_le (sp_ci sp) (sp_idx sp) (ps_ci (bs_pos s)) idx'.
Proof.
  intros Hi Hsp. destruct (gd_spans _ _ _ G sp Hsp) as (H1 & H2 & H3). split_and!; [done..|]. intros k i Hc.
  pose proof head_idx. destruct (H3 k i Hc) as [?|[? ?]]; [by left|right; split; [done|lia]].
Qed.
End Head.
Lemma advance_keeps cands id l rest s :
  BI cands ((id, l) :: rest) s ->
  BI cands ((id, l) :: rest) (set_pos (fun q => pos_cursor (ps_ci q) (lc_idx l) (ps_frag q) q) s).
Proof.
  intros [HN HB]. split; [done|]. cbn. intros Hh. specialize (HB Hh). pose proof (head_idx _ _ _ _ _ HB) as Hi.
  pose proof (head_before _ _ _ _ _ HB) as Hbef. pose proof (head_spans _ _ _ _ _ HB (lc_idx l)) as Hsp.
  pose proof (head_sorted _ _ _ _ _ HB) as Hso.
  destruct HB as [G1 G2 G3 G4 G5 G6 G7 G8 G9 G10 G11]. split; cbn; try done; [lia| | |].
  - intros k p x i He Hc. by apply (G7 k p x i), (Hbef k p x i).
  - intros sp H. apply Hsp; [lia|done].
  - intros Hr. destruct (G11 Hr) as (p & H1 & H2 & H3 & H4). exists p. split_and!; [done| |done|].
    + intros e He. destruct (H2 e He) as (o & Ho & Ei & Hb). exists o. split_and!; [done..| |lia].
      apply elem_of_cons in He as [->|He]; [done|]. specialize (Hso e He). lia.
    + intros k x i He. destruct (H4 k x i He) as [?|?]; [left; lia|by right].
Qed.
Lemma stage_keeps cands id l rest r : triple (BI cands ((id, l) :: rest)) (stage W id l r) (fun _ => BI cands rest) FinS.
Proof.
  apply triple_modify. intros s [HN HB].
  set (pos' := staged_pos l r (bs_pos s)).
  assert (ps_pack pos' = N /\ ps_ci pos' = ps_ci (bs_pos s) /\ ps_idx pos' = sat_addu32 (lc_idx l) 1 /\
          ps_bci pos' = ps_bci (bs_pos s) /\ ps_bidx pos' = ps_bidx (bs_pos s)) as (E1 & E2 & E3 & E4 & E5)
    by (unfold pos', staged_pos; by destruct (lc_kind l)).
  unfold set_pos. cbn. fold pos'. clearbody pos'. split; [exact E1|]. intros Hh. specialize (HB Hh). pose proof (head_idx _ _ _ _ _ HB) as Hi.
  assert (sat_addu32 (lc_idx l) 1 = lc_idx l + 1) as E6 by (unfold sat_addu32; lia).
  pose proof (head_before _ _ _ _ _ HB) as Hbef. pose proof (head_spans _ _ _ _ _ HB (lc_idx l + 1)) as Hsp.
  destruct (head_row _ _ _ _ _ HB) as (q & o & Hq & Hqm & Ho & Eo). pose proof (head_sorted _ _ _ _ _ HB) as Hso.
  destruct HB as [G1 G2 G3 G4 G5 G6 G7 G8 G9 G10 G11]. rewrite E6 in E3. split; cbn; rewrite ?E2, ?E3, ?E4, ?E5; try done; [|lia|..].
  - intros x [Hx|Hx%list_elem_of_singleton]%elem_of_app; [by apply G5|subst x]. exists q. by split; [|eexists].
  - intros k p x i He Hc. rewrite map_app. destruct (decide (cursor_lt (Z.of_nat k) i (ps_ci (bs_pos s)) (lc_idx l))) as [Hlt|Hge].
    + destruct (G7 k p x i He (Hbef k p x i He Hlt)); [by left|right; apply elem_of_app; by left].
    + right. apply elem_of_app. right. assert (Z.of_nat k = ps_ci (bs_pos s) /\ i = lc_idx l) as [Hk ->] by (unfold cursor_lt in *; lia).
      destruct He as (m & o' & Hp & Hm & Ho' & Ei & _). rewrite G4, <- (Nat2Z.id k), Hk in Hp. assert (p = q) as -> by congruence.
      apply list_elem_of_singleton. apply (cw_idxs _ (bt_wf _ _ G1) x id q o' o); congruence.
  - intros k p x i He Hc. rewrite map_app. destruct (G8 k p x i He Hc); [by left|right; apply elem_of_app; by left].
  - intros sp H. apply Hsp; [lia|done].
  - intros Hr. destruct (G11 ltac:(done)) as (p & H1 & H2 & H3 & H4). exists p. split_and!; [done| | |].
    + intros e He. destruct (H2 e) as (o' & Ho' & Ei & Hb); [by right|]. exists o'. specialize (Hso e He). split_and!; [done..|lia|lia].
    + by inversion_clear H3.
    + intros k x i He. destruct (H4 k x i He) as [?|[Hin|Hall]]; [left; lia| |right; right; by inversion_clear Hall].
      cbn in Hin. apply elem_of_cons in Hin as [->|?]; [left; lia|by right; left].
Qed.
(** [BI] with the scan at [l]. *)
Definition At (cands : list string) (rest : list Loc) (l : ObjLoc) (s : BSt) : Prop := BI cands rest s /\ ps_idx (bs_pos s) = lc_idx l.
Lemma at_stable cands rest l : stable (At cands rest l).
Proof. intros s s' Hst [HB E]. split; [by apply (bi_stable cands rest s)|]. by destruct Hst as (_ & _ & -> & _). Qed.
Lemma at_fin cands rest l s : At cands rest l s -> FinS s.
Proof. intros [HB _]. by apply (good_fin cands rest). Qed.
#[local] Hint Resolve at_stable at_fin : build.
Lemma stream_entry_keeps cands rest l :
  triple (At cands rest l) (stream_entry W charge1 now spent others head_object repo job (Some c) key l)
    (fun r s => match r with inl f => flow_ok f s | inr _ => BI cands rest s end) FinS.
Proof.
  unfold stream_entry. apply gets_bind. intros s0. apply (modify_bind _ (BI cands rest)).
  { intros s [[HB Hi] ->]. revert HB. apply good_book; try done. intros sp [|[= <-]]; [by left; left|by right]. }
  apply (triple_bind _ _ (goes_on cands rest)); [apply stream_frags_keeps|intros [f|]]; [by apply triple_ret|].
  apply step_bind; [eauto with build..|apply on_out_step, raw_entry_done_sh|intros r].
  apply gets_bind. intros [sp|]; [|apply triple_fail; intros s [HB _]; by apply (good_fin cands rest)].
  apply (modify_bind _ (fun s => BI cands rest (set_spans (bs_spans s ++ [sp]) s))).
  { intros s [HB E]. revert HB. apply good_book; try done. cbn. intros x [[?|Hx%list_elem_of_singleton]%elem_of_app|]; subst; auto. done. }
  apply (modify_bind _ (BI cands rest)); [done|]. by apply triple_ret.
Qed.
Lemma copy_stored_keeps cands rest l bytes :
  triple (At cands rest l) (copy_stored W l bytes) (fun _ => BI cands rest) FinS.
Proof.
  unfold copy_stored. apply step_bind; [eauto with build..|apply on_out_step, append_stored_sh|intros r].
  apply gets_bind. intros s0. apply (modify_bind _ (BI cands rest)); [|by apply triple_ret].
  intros s [[HB Hi] ->]. revert HB. apply good_book; try done. cbn. intros x [[?|Hx%list_elem_of_singleton]%elem_of_app|]; subst; auto.
Qed.
Lemma copy_entries_keeps cands es more got :
  triple (BI cands (es ++ more)) (copy_entries W charge1 now spent others head_object repo job (Some c) key es got)
    (goes_on cands more) FinS.
Proof.
  revert got. induction es as [|[id l] es IH]; intros got; cbn [copy_entries app]; [by apply triple_ret|].
  apply (modify_bind _ (At cands ((id, l) :: es ++ more) l)); [intros s HB; split; [by apply advance_keeps|done]|].
  apply gets_any. intros frag. case_match; [apply triple_fail; eauto with build|]. case_match.
  - eapply triple_bind; [apply stream_entry_keeps|intros [f|r]]; [by apply triple_ret|].
    apply (triple_bind _ _ (fun _ => BI cands (es ++ more))); [apply stage_keeps|intros _; apply IH].
  - case_match; [|apply triple_fail; eauto with build]. case_match. subst.
    apply (triple_bind _ _ (fun _ => BI cands ((id, l) :: es ++ more))); [apply copy_stored_keeps|intros r].
    apply (triple_bind _ _ (fun _ => BI cands (es ++ more))); [apply stage_keeps|intros _; apply IH].
Qed.
Lemma read_small_step small : rel_ok step (read_small W charge1 others repo small).
Proof.
  unfold read_small. apply rel_ok_bind; [apply _| |intros r; apply rel_ok_ret; apply _].
  apply awaiting_step, on_world_step. apply chunked_loop_sh.
Qed.
Lemma copy_chunks_keeps cands cs :
  triple (BI cands (concat cs)) (copy_chunks W charge1 now spent others head_object repo job (Some c) key cs) (goes_on cands []) FinS.
Proof.
  induction cs as [|chunk cs IH]; cbn [copy_chunks concat]; [by apply triple_ret|].
  apply gets_any. intros [|]; [apply yield_keeps|]. apply gets_any. intros pos.
  apply step_bind; [eauto with build..|apply read_small_step|intros got].
  apply (triple_bind _ _ (goes_on cands (concat cs))); [apply copy_entries_keeps|intros [f|]]; [by apply triple_ret|].
  apply (triple_bind _ _ (goes_on cands (concat cs))); [apply flush_keeps|intros [f|]]; [by apply triple_ret|apply IH].
Qed.
(** ** The build loop *)

#[local] Instance row_le_trans : Transitive row_le.
Proof.
  intros a b d [Ha|[Ea Ha]] [Hb|[Eb Hb]]; unfold row_le; [left; lia..|]. right. split; [lia|]. by etrans.
Qed.
#[local] Instance row_le_total : Total row_le.
Proof.
  intros a b. unfold row_le. destruct (Z.lt_total (ob_idx a.2) (ob_idx b.2)) as [?|[E|?]]; [by left; left| |by right; left].
  destruct (total String.le a.1 b.1); [left|right]; by right.
Qed.
Lemma rows_increasing (rows : list (string * ObjSql)) :
  StronglySorted row_le rows -> NoDup (map fst rows) ->
  (forall x y, x ∈ rows -> y ∈ rows -> ob_idx x.2 = ob_idx y.2 -> x.1 = y.1) -> StronglySorted Z.lt (map (fun r => ob_idx r.2) rows).
Proof.
  induction 1 as [|x rows Hs IH Hf]; intros Hn Hi; [constructor|]. cbn in Hn. apply NoDup_cons in Hn as [Hx Hn]. constructor.
  - apply IH; [done|]. intros a b Ha Hb. apply Hi; by right.
  - apply Forall_forall. rewrite Forall_forall in Hf. intros i (y & <- & Hy)%elem_of_map. destruct (Hf y Hy) as [?|[E _]]; [done|]. destruct Hx.
    apply elem_of_map. exists y. split; [|done]. symmetry. apply Hi; [left|by right|done].
Qed.
Lemma map_filter_nodup {A B} (f : A -> B) p l : NoDup (map f l) -> NoDup (map f (List.filter p l)).
Proof.
  induction l as [|x l IH]; [done|]. cbn. intros [Hx Hn]%NoDup_cons. destruct (p x); cbn; [|auto]. apply NoDup_cons. split; [|auto].
  intros (y & E & [Hy _]%elem_of_filter_b)%elem_of_map. apply Hx, elem_of_map. by exists y.
Qed.
Lemma idx_rows_elem d p idxs r : r ∈ idx_rows p idxs d <-> r.1.2 = p /\ t_objects d !! r.1 = Some r.2 /\ ob_idx r.2 ∈ idxs.
Proof.
  destruct r as [[x q] o]. unfold idx_rows. rewrite elem_of_map. setoid_rewrite (merge_sort_Permutation row_le). split.
  - intros ([y o'] & [= -> -> ->] & [H1 H2]%elem_of_filter_b). apply pack_rows_elem in H1. bsimp. done.
  - cbn. intros (-> & H1 & H2). exists (x, o). split; [done|]. apply elem_of_filter_b. split; [by apply pack_rows_elem|]. by apply bool_decide_eq_true.
Qed.
Lemma idx_rows_increasing d p idxs : cohort_wf d -> in_marked d p = true ->
  StronglySorted Z.lt (map (fun r => ob_idx r.2) (idx_rows p idxs d)).
Proof.
  intros Hw Hp. unfold idx_rows. rewrite map_map. cbn. apply rows_increasing.
  - apply (StronglySorted_merge_sort row_le).
  - rewrite merge_sort_Permutation. apply map_filter_nodup, pack_rows_nodup.
  - intros [x o] [y o']. rewrite !(merge_sort_Permutation row_le). intros [Hx _]%elem_of_filter_b [Hy _]%elem_of_filter_b.
    apply pack_rows_elem in Hx, Hy. cbn. by apply (cw_idxs _ Hw x y p).
Qed.
Lemma sql_loc_idx r e : oid r.1.1 = Ok r.1.1 -> sql_loc r = Ok e -> e.1 = r.1.1 /\ lc_idx e.2 = ob_idx r.2.
Proof.
  intros E. unfold sql_loc, to_u32, narrow, mbind, result_bind. rewrite E. intros H.
  repeat (case_match; try discriminate H); by simplify_eq.
Qed.
(** What [next_idxs] plans. *)
Definition planned (cands : list string) (idxs : list Z) (s : BSt) : Prop := exists p m,
  cands !! Z.to_nat (ps_ci (bs_pos s)) = Some p /\ t_marked (bs_db s) !! p = Some m /\
  idxs = bm_idxs_from (copy_bits m) (ps_idx (bs_pos s)) BATCH_N.
Lemma entry_idx d k p s i : cohort_wf d -> entry d k p s i -> 0 <= i.
Proof.
  intros Hw (m & o & _ & Hm & Ho & <- & _). apply (cw_idx0 _ Hw s p o); [|done]. unfold in_marked. by rewrite Hm.
Qed.
Lemma drop_head {A} n (l : list A) x r : x :: r = drop n l -> l !! n = Some x.
Proof. intros E. rewrite <- (Nat.add_0_r n), <- lookup_drop. by rewrite <- E. Qed.
Lemma drop_nil_length {A} n (l : list A) : drop n l = [] -> (length l <= n)%nat.
Proof. intros E. pose proof (length_drop l n) as H. rewrite E in H. cbn in H. lia. Qed.
(** The cursor stands at [cid], whose bitmap is loaded. *)
Definition Cached (cands : list string) (cid : string) (rest : list string) (s0 s : BSt) : Prop :=
  (BI cands [] s /\ (held c (bs_db s) -> cid :: rest = drop (Z.to_nat (ps_ci (bs_pos s))) cands)) /\
  bs_pos s = bs_pos s0 /\ (held c (bs_db s) -> exists m, t_marked (bs_db s) !! cid = Some m /\
    match bs_bm s with Some b => b.2 | None => [] end = copy_bits m).
Lemma fresh_bitmap cands cid rest s :
  (held c (bs_db s) -> cid :: rest = drop (Z.to_nat (ps_ci (bs_pos s))) cands) ->
  (held c (bs_db s) -> exists m, t_marked (bs_db s) !! cid = Some m /\ cands !! Z.to_nat (ps_ci (bs_pos s)) = Some cid) ->
  BI cands [] s ->
  Cached cands cid rest s
    (set_bm (Some (ps_ci (bs_pos s), match t_marked (bs_db s) !! cid with Some m => copy_bits m | None => [] end)) s).
Proof.
  intros Hr Hm [HN HB]. unfold Cached. cbn. split_and!; try done.
  - split; [done|]. cbn. intros Hh. destruct (Hm Hh) as (m & H1 & H2). destruct (HB Hh) as [G1 G2 G3 G4 G5 G6 G7 G8 G9 G10 G11].
    split; cbn; try done. rewrite H1. intros k bm p m' [= <- <-] _ Hp Hm'. congruence.
  - intros Hh. destruct (Hm Hh) as (m & H1 & H2). exists m. by rewrite H1.
Qed.
(** The cached bitmap of the current pack. *)
Lemma cached_bitmap cands cid rest s0 :
  triple (fun s => (BI cands [] s /\ (held c (bs_db s) -> cid :: rest = drop (Z.to_nat (ps_ci (bs_pos s))) cands)) /\ s0 = s)
    ((if match bs_bm s0 with Some b => b.1 =? ps_ci (bs_pos s0) | None => false end then mret tt
     else modify (set_bm (Some (ps_ci (bs_pos s0), match t_marked (bs_db s0) !! cid with Some m => copy_bits m | None => [] end)))) : M BSt Error unit)
    (fun _ => Cached cands cid rest s0) FinS.
Proof.
  intros s [[[HN HB] Hr] ->].
  assert (held c (bs_db s) -> exists m, t_marked (bs_db s) !! cid = Some m /\ cands !! Z.to_nat (ps_ci (bs_pos s)) = Some cid) as Hm.
  { intros Hh. specialize (Hr Hh). apply drop_head in Hr. assert (in_marked (bs_db s) cid = true) as Hin.
    { apply marked_ids_elem. rewrite (gd_cands _ _ _ (HB Hh)). by eapply list_elem_of_lookup_2. }
    unfold in_marked in Hin. destruct (t_marked (bs_db s) !! cid) as [m|]; [by exists m|done]. }
  destruct (bs_bm s) as [[k bm]|] eqn:Eb; [destruct (Z.eqb_spec k (ps_ci (bs_pos s))) as [->|Hk]|]; cbn.
  - rewrite Z.eqb_refl. cbn. split_and!; try done. intros Hh. destruct (Hm Hh) as (m & H1 & H2). exists m. rewrite Eb. split; [done|].
    pose proof (HB Hh) as G. apply (gd_bm _ _ _ G _ _ cid m Eb); try done. apply (gd_pos _ _ _ G).
  - rewrite (proj2 (Z.eqb_neq _ _) Hk). apply (fresh_bitmap cands cid rest s Hr Hm). by split.
  - apply (fresh_bitmap cands cid rest s Hr Hm). by split.
Qed.
(** The next pack of the cohort: nothing of this one is left. *)
Lemma next_pack_keeps cands s p :
  held c (bs_db s) -> BI cands [] s -> cands !! Z.to_nat (ps_ci (bs_pos s)) = Some p ->
  (forall m, t_marked (bs_db s) !! p = Some m -> bm_idxs_from (copy_bits m) (ps_idx (bs_pos s)) BATCH_N = []) ->
  BI cands [] (set_pos (fun q => pos_cursor (sat_addu32 (ps_ci q) 1) 0 (ps_frag q) q) s) /\
  Z.to_nat (sat_addu32 (ps_ci (bs_pos s)) 1) = S (Z.to_nat (ps_ci (bs_pos s))).
Proof.
  intros Hh [HN HB] Hp Hno. specialize (HB Hh). destruct HB as [G1 G2 G3 G4 G5 G6 G7 G8 G9 G10 G11].
  pose proof (cw_size _ (bt_wf _ _ G1)) as Hsz. rewrite G4 in Hsz. pose proof (lookup_lt_Some _ _ _ Hp) as Hlt.
  assert (sat_addu32 (ps_ci (bs_pos s)) 1 = ps_ci (bs_pos s) + 1) as E by (unfold sat_addu32; lia). rewrite E.
  split; [split; [done|intros _]|lia]. split; cbn; rewrite ?E; try done; [lia| | |].
  - intros k q x i He Hc. apply (G7 k q x i He). destruct Hc as [Hk|[Hk Hi]].
    + destruct (decide (Z.of_nat k = ps_ci (bs_pos s))) as [Ek|?]; [right|left; lia]. split; [done|].
      pose proof He as (m & o & Hq & Hm & Ho & Ei & Hg). rewrite G4, <- (Nat2Z.id k), Ek in Hq. assert (q = p) as -> by congruence.
      destruct (Z.lt_ge_cases i (ps_idx (bs_pos s))) as [|Hge]; [done|]. exfalso.
      destruct (bm_idxs_ok (copy_bits m) (ps_idx (bs_pos s)) BATCH_N) as (_ & _ & H3); [lia|by apply (cw_bits _ (bt_wf _ _ G1) p)|].
      rewrite (Hno m Hm) in H3. destruct (H3 i Hge Hg) as [?%elem_of_nil|[? _]]; done.
    + pose proof (entry_idx _ _ _ _ _ (bt_wf _ _ G1) He). lia.
  - intros sp H. destruct (G9 sp H) as (H1 & H2 & H3). split_and!; [done..|]. intros k i Hc. left.
    destruct (H3 k i Hc) as [?|[? ?]]; lia.
  - by intros [].
Qed.
Lemma next_idxs_keeps cands rest :
  triple (fun s => BI cands [] s /\ (held c (bs_db s) -> rest = drop (Z.to_nat (ps_ci (bs_pos s))) cands)) (next_idxs W rest)
    (fun r s => BI cands [] s /\ (held c (bs_db s) ->
       match r with None => (length cands <= Z.to_nat (ps_ci (bs_pos s)))%nat | Some idxs => planned cands idxs s end)) FinS.
Proof.
  induction rest as [|cid rest IH]; cbn [next_idxs].
  { apply triple_ret. intros s [HB Hr]. split; [done|]. intros Hh. specialize (Hr Hh). symmetry in Hr. by apply drop_nil_length. }
  apply gets_bind. intros s0. apply (triple_bind _ _ (fun _ => Cached cands cid rest s0)); [apply cached_bitmap|].
  intros _. apply gets_bind. intros bm. cbv zeta.
  destruct (bm_idxs_from bm (ps_idx (bs_pos s0)) BATCH_N) as [|i idxs] eqn:Ei.
  - eapply modify_bind; [|apply IH]. intros s [[[HB Hr] [Ep Hm]] ->].
    destruct (decide (held c (bs_db s))) as [Hh|Hn]; [|split; [split; [by apply HB|by intros ?%Hn]|by intros ?%Hn]].
    destruct (Hm Hh) as (m & Hcm & Eb). rewrite Eb, <- Ep in Ei. specialize (Hr Hh).
    assert (cands !! Z.to_nat (ps_ci (bs_pos s)) = Some cid) as Hc by (by eapply drop_head).
    destruct (next_pack_keeps cands s cid Hh HB Hc) as [H1 H2]; [intros m' Hm'; congruence|]. split; [done|]. intros _. cbn.
    rewrite H2. replace (S _) with (Z.to_nat (ps_ci (bs_pos s)) + 1)%nat by lia. by rewrite <- drop_drop, <- Hr.
  - apply triple_ret. intros s [[[HB Hr] [Ep Hm]] ->]. split; [done|]. intros Hh. destruct (Hm Hh) as (m & Hcm & Eb).
    exists cid, m. split_and!; [by eapply drop_head, Hr|done|]. by rewrite Eb, <- Ep in Ei.
Qed.
Lemma batch_planned cands idxs locs s p :
  BI cands [] s -> (held c (bs_db s) -> planned cands idxs s) ->
  p = unwrap_or "" (cands !! Z.to_nat (ps_ci (bs_pos s))) -> collect sql_loc (idx_rows p idxs (bs_db s)) = Ok locs ->
  BI cands locs s.
Proof.
  intros [HN HB] Hpl Ep Hl. split; [done|]. intros Hh. destruct (Hpl Hh) as (q & m & Hq & Hm & Ei). rewrite Hq in Ep. cbn in Ep. subst q.
  destruct (HB Hh) as [G1 G2 G3 G4 G5 G6 G7 G8 G9 G10 G11]. split; try done. intros _. exists p. split; [done|].
  pose proof (bt_wf _ _ G1) as Hw. destruct (cw_bits _ Hw p m Hm) as [Hb _]. apply collect_Forall2 in Hl.
  assert (in_marked (bs_db s) p = true) as Hin by (unfold in_marked; by rewrite Hm).
  destruct (bm_idxs_ok (copy_bits m) (ps_idx (bs_pos s)) BATCH_N) as (_ & H2 & H3); [lia|done|]. rewrite <- Ei in H2, H3.
  assert (forall r, r ∈ idx_rows p idxs (bs_db s) -> oid r.1.1 = Ok r.1.1) as Hoid.
  { intros r (Er & Ho & _)%idx_rows_elem. apply (cw_hex _ Hw r.1.1 p r.2 Hin). by destruct r as [[? ?] ?]; cbn in *; subst. }
  assert (map idx_of locs = map (fun r => ob_idx r.2) (idx_rows p idxs (bs_db s))) as Em.
  { clear -Hl Hoid. induction Hl as [|r e rows locs Hr Hl IH]; [done|]. cbn. f_equal; [apply sql_loc_idx; [apply Hoid; left|done]|].
    apply IH. intros x Hx. apply Hoid. by right. }
  rewrite Forall_forall in H2. split_and!.
  - intros e He. apply list_elem_of_lookup in He as [n He]. destruct (Forall2_lookup_r _ _ _ _ _ Hl He) as (r & Hr & Hre).
    apply list_elem_of_lookup_2 in Hr. destruct (sql_loc_idx r e (Hoid r Hr) Hre) as [E1 E2].
    apply idx_rows_elem in Hr as (Er & Ho & Hi). exists r.2. rewrite E1, E2. destruct r as [[x q] o]; cbn in *. subst q.
    destruct (H2 _ Hi) as [Hge Hg]. split_and!; try done. apply bm_get_bound in Hg.
    pose proof (Z.mul_succ_div_gt (ob_idx o) 8 ltac:(lia)). assert (0 <= ob_idx o / 8) by (apply Z.div_pos; lia). lia.
  - rewrite Em. by apply idx_rows_increasing.
  - rewrite Em. intros k x i (m' & o & _ & Hm' & Ho & Eo & Hg). assert (m' = m) as -> by congruence.
    destruct (Z.lt_ge_cases i (ps_idx (bs_pos s))) as [|Hge]; [by left|right]. destruct (H3 i Hge Hg) as [Hi|[_ Hall]]; [left|right].
    + apply elem_of_map. exists ((x, p), o). split; [done|]. apply idx_rows_elem. cbn. by subst i.
    + rewrite Forall_forall in *. intros j (r & <- & (_ & _ & Hj)%idx_rows_elem)%elem_of_map. by apply Hall.
Qed.
Lemma post_rows_frame (K : Pos -> Prop) :
  triple (fun s => ps_pack (bs_pos s) = N /\ (held c (bs_db s) -> K (bs_pos s))) (post_rows W) (fun _ s => held c (bs_db s) -> K (bs_pos s)) (fun _ => True).
Proof.
  intros s [HN HK]. unfold post_rows, gets, on_db, modify, mbind, M_bind, mret, M_ret. cbn.
  rewrite HN.
  destruct (insert_objects_grown (bs_staged s) (bs_db s)) as [Hg _]. pose proof (grown_held _ _ _ Hg).
  destruct (insert_objects _ _ _) as [d' [[]|e]]; cbn in *; auto.
Qed.
(** Every entry before the end of the cohort is every entry. *)
Lemma end_complete cands s :
  BI cands [] s -> bs_staged s = [] -> (held c (bs_db s) -> (length cands <= Z.to_nat (ps_ci (bs_pos s)))%nat) -> CI cands [] s.
Proof.
  intros HB Es Hend. split; [done|]. intros Hh k p x i He. destruct HB as [_ HB].
  destruct (HB Hh) as [G1 G2 G3 G4 G5 G6 G7 G8 G9 G10 G11]. rewrite Es in G7. specialize (Hend Hh).
  destruct (G7 k p x i He) as [|?%elem_of_nil]; [left|done..]. destruct He as (m & o & Hp & _). rewrite G4 in Hp.
  apply lookup_lt_Some in Hp. lia.
Qed.
(** Completing the upload: the pack may appear, and it is complete. *)
Lemma finish_upload_keeps cands :
  triple (CI cands []) (awaiting W others (finish_upload W charge1 completed key)) (fun _ => CI cands []) (CI cands []).
Proof.
  intros s HC. assert (CI cands [] (finish_upload W charge1 completed key s).1) as HC'.
  { pose proof (ci_stable cands [] s _ (on_out_step _ finish_sh s) HC) as [[HN HB] Hc]. unfold finish_upload in *.
    destruct (on_out (finish W charge1) s) as [s1 r]. cbn in *. split; [|done]. split; [done|]. cbn. intros Hh.
    destruct (HB Hh) as [G1 G2 G3 G4 G5 G6 G7 G8 G9 G10 G11]. split; cbn; try done. destruct G1 as [B1 B0 B2 B3 B4 B5]. split; try done.
    intros x Hx. split; [by apply B3|]. intros _. assert (x = N) as -> by congruence. by apply Hc. }
  unfold awaiting. set (r := finish_upload W charge1 completed key s) in *.
  assert (CI cands [] (set_dw (others (bs_w r.1) (bs_db r.1)).2 (others (bs_w r.1) (bs_db r.1)).1 r.1)) as H2.
  { apply (ci_stable cands [] r.1); [|done]. destruct (wo_others HW (bs_w r.1) (bs_db r.1)). by split_and!. }
  by destruct (r.2).
Qed.
Lemma end_of_input_keeps cands :
  triple (fun s => BI cands [] s /\ (held c (bs_db s) -> (length cands <= Z.to_nat (ps_ci (bs_pos s)))%nat))
    (end_of_input W charge1 now others completed head_object job (Some c) key) flow_ok FinS.
Proof.
  unfold end_of_input. apply (triple_bind _ _ (fun _ => CI cands [])).
  { eapply triple_exn; [|eapply triple_post; [|eapply triple_pre; [|apply triple_conj; [apply post_rows_keeps
      |apply (post_rows_frame (fun p => (length cands <= Z.to_nat (ps_ci p))%nat))]]]].
    - intros s [HB _]. by apply (good_fin cands []).
    - intros _ s [[HB Es] He]. by apply end_complete.
    - intros s [HB He]. split; [exact HB|]. by split; [apply HB|]. }
  intros _. eapply triple_bind; [eapply caught_triple, finish_upload_keeps|]. intros [m|e].
  - apply step_bind; [eauto with build..|apply before_swap_step|intros _]. apply (finish_with_keeps cands []).
  - eapply triple_pre; [|apply (mpu_err_keeps cands [])]. by intros s [HB _].
Qed.
Lemma build_loop_keeps cands fuel :
  triple (BI cands []) (build_loop W charge1 now spent others completed head_object repo job (Some c) fuel key cands)
    (goes_on cands []) FinS.
Proof.
  induction fuel as [|fuel IH]; cbn [build_loop]; [by apply triple_ret|].
  apply gets_any. intros [|]; [apply yield_keeps|]. apply gets_bind. intros ci.
  eapply triple_bind; [eapply triple_pre; [|apply (next_idxs_keeps cands)]; by intros s [HB ->]|]. intros [idxs|].
  2:{ eapply triple_bind; [apply end_of_input_keeps|]. intros f. by apply triple_ret. }
  apply gets_bind. intros ci'. apply gets_bind. intros rows.
  case_match; [apply triple_fail; intros s [[[HB _] _] _]; by apply (good_fin cands [])|].
  eapply triple_bind; [apply triple_lift; intros s [[[HB _] _] _]; by apply (good_fin cands [])|]. intros locs.
  apply (triple_pre _ (BI cands (concat (chunks locs)))).
  { intros s [[[[HB Hp] ->] ->] Hl]. unfold chunks. rewrite chunks_loop_concat. by eapply batch_planned. }
  apply (triple_bind _ _ (goes_on cands [])); [apply copy_chunks_keeps|intros [f|]]; [by apply triple_ret|].
  apply step_bind; [eauto with build..|apply fence_step|intros [|]]; cbn [negb];
    [|apply triple_ret; intros s HB; by apply (bi_flow cands [])].
  apply gets_any. intros n. apply (triple_bind _ _ (fun _ => BI cands [])).
  { case_match; [|by apply triple_ret]. eapply triple_exn; [apply (good_fin cands [])|].
    eapply triple_post; [|apply post_rows_keeps]. by intros _ s [HB _]. }
  intros _. apply (triple_bind _ _ (goes_on cands [])); [apply flush_keeps|intros [h|]]; [by apply triple_ret|apply IH].
Qed.
End Slice.
