(* ===== verification/BuildJob.v ===== *)
(** * The consolidate job over its slices

    [begin_build], [wipe_build] and the turns of [gc_consolidate] keep the state a
    build leaves between two slices.  A slice may end at any await, by an error,
    or by the loss of its chain: the next one starts from that state, and the
    build is published only when every marked entry is copied. *)
From S2P Require Import Prelude Errors Db Jobs Cohort GcBase Compact Refs Push Sha Writer Reads Mark MarkFacts WalkFacts Sweep SweepFacts Build BuildFacts.
Open Scope Z_scope.

Section Job.
Context `{PF : Platform} `{PC : PackCodec} `{MP : Multipart} `{RR : R2} `{SJ : SweepJson} `{PJ : PosJson} {PL : PosJsonLaws}.
Context (W : Type) (charge1 : W -> W * result Error unit) (now : W -> Z) (spent : W -> bool) (others : W -> Db -> W * Db).
Context (new_upload : W -> string -> result Error Mpu) (open_upload : W -> string -> string -> result Error Mpu)
  (upload_id : Mpu -> string) (completed : string -> W -> W) (head_object : string -> M W Error (option Z)) (fresh : W -> result Error string).
Context (repo : string) (job : Job) (c : string) (holds : W -> string -> Prop).
Context (HW : world_ok W charge1 others completed head_object fresh repo c holds).
Abbreviation sealed := (sealed W repo holds).
Abbreviation settled := (settled_build W repo c holds).

(** ** Starting a build *)

(** A build that has not begun, or is to begin again. *)
Definition unbegun (w : W) (d : Db) : Prop := held c d ->
  BuildState (sealed w) d /\ t_meta d !! "gc.phase" = Some "build" /\ t_meta d !! "gc.pos" = None.
Definition building (w : W) (d : Db) : Prop := held c d -> BuildState (sealed w) d /\ t_meta d !! "gc.phase" = Some "build".
(** A build whose cursor is [pos]. *)
Definition at_pos (w : W) (pos : Pos) (d : Db) : Prop := held c d ->
  (BuildState (sealed w) d /\ t_meta d !! "gc.phase" = Some "build") /\ t_meta d !! "gc.new_pack" = Some (ps_pack pos) /\ pos_ok d pos.
Lemma building_settled w d : building w d -> settled w d.
Proof. intros Hb Hh. destruct (Hb Hh) as [H1 H2]. split; [done|]. by rewrite H2. Qed.
Lemma unbegun_building w d : unbegun w d -> building w d.
Proof. intros Hb Hh. by destruct (Hb Hh) as (H1 & H2 & _). Qed.
Lemma at_pos_building w pos d : at_pos w pos d -> building w d.
Proof. intros Hb Hh. by destruct (Hb Hh) as (H1 & _). Qed.
Lemma building_soft w d d' : soft c d d' -> building w d -> building w d'.
Proof.
  intros Hs Hb Hh. destruct (Hb (soft_held c _ _ Hs Hh)) as [H1 H2]. rewrite (soft_key c _ _ Hs Hh) by done.
  split; [by apply (soft_state c d)|done].
Qed.
Lemma unbegun_soft w d d' : soft c d d' -> unbegun w d -> unbegun w d'.
Proof.
  intros Hs Hb Hh. destruct (Hb (soft_held c _ _ Hs Hh)) as (H1 & H2 & H3). rewrite !(soft_key c _ _ Hs Hh) by done.
  split; [by apply (soft_state c d)|done].
Qed.
Lemma at_pos_soft w pos d d' : soft c d d' -> at_pos w pos d -> at_pos w pos d'.
Proof.
  intros Hs Hb Hh. destruct (Hb (soft_held c _ _ Hs Hh)) as ([H1 H2] & H3 & H4 & H5 & H6). rewrite !(soft_key c _ _ Hs Hh) by done.
  split_and!; [by apply (soft_state c d)|done|done|]. split; [done|]. split; by apply (soft_done c d).
Qed.
(** A database computation that is soft, under a soft-closed assertion. *)
Lemma soft_bind {A B} w (Q : Db -> Prop) (m : DoM A) (f : A -> DoM B) R :
  (forall d d', soft c d d' -> Q d -> Q d') -> (forall d, Q d -> settled w d) -> rel_ok (soft c) m ->
  (forall a, triple Q (f a) R (settled w)) -> triple Q (m ≫= f) R (settled w).
Proof.
  intros Hs Hq Hm Hf. apply (triple_bind _ _ (fun _ => Q)); [|done]. eapply triple_exn; [exact Hq|]. by apply (soft_triple c).
Qed.
Lemma unheld d : t_meta d !! "gc.chain" = None -> ~ held c d.
Proof. unfold held. congruence. Qed.
Lemma wipe_all_settled P t w : triple P (wipe_all t) (fun _ => settled w) (settled w).
Proof.
  intros d _. destruct (wipe_all_run t d) as (d1 & -> & _). intros Hh. exfalso. revert Hh. apply unheld. cbn.
  apply map_lookup_filter_None. right. intros v _. by cbn.
Qed.
Lemma abort_settled P t w : triple P (abort t) (fun _ => settled w) (settled w).
Proof.
  unfold abort. apply gets_bind. intros b. apply (triple_bind _ _ (fun _ => settled w)); [apply wipe_all_settled|intros _].
  apply (triple_bind _ _ (fun _ => settled w)); [|intros _; by apply triple_ret].
  apply soft_triple with c; [intros d d' Hs; by apply settled_stable|].
  destruct b; [apply rel_ok_ret; apply _|apply core_rel, enqueue_core].
Qed.
(** The snapshot of the bits to copy, taken before anything is copied. *)
Lemma freeze_keeps w d :
  unbegun w d -> unbegun w (on_marked (fmap (fun m => mkMarked (mk_bitmap m) (Some (mk_bitmap m)))) d).
Proof.
  intros Hu Hh. destruct (Hu Hh) as ([[W1 W2 W3 W4 W5] B0 B2 B3 B4 B5] & H2 & H3). split; [|done]. set (d' := on_marked _ d).
  assert (forall p, in_marked d' p = in_marked d p) as Hi.
  { intros p. unfold in_marked, d'. cbn. rewrite lookup_fmap. by destruct (t_marked d !! p). }
  assert (marked_ids d' = marked_ids d) as Eids.
  { unfold marked_ids, d'. cbn. rewrite map_to_list_fmap, !map_map. by f_equal. }
  split; [split| |done|..].
  - intros s p o. rewrite Hi. apply W1.
  - intros s s' p o o'. rewrite Hi. apply W2.
  - intros s p o. rewrite Hi. apply W3.
  - by rewrite Eids.
  - intros p m. unfold d'. cbn. rewrite lookup_fmap. destruct (t_marked d !! p) as [m0|] eqn:E; [|done]. intros [= <-].
    destruct (W5 p m0 E). by cbn.
  - destruct B0 as [O1 O2]. split; [done|]. intros p. rewrite Hi. apply O2.
  - intros N HN. change (t_meta d') with (t_meta d) in HN. by rewrite (B5 H3) in HN.
  - intros j p Hj. change (t_meta d') with (t_meta d) in Hj. by rewrite H3 in Hj.
  - done.
Qed.
Lemma meta_i64_core k : rel_ok same_core (meta_i64 k).
Proof. intros d. unfold meta_i64, meta, lift, mbind, M_bind. by repeat case_match; simplify_eq; split_and!. Qed.
Lemma admit_build_keeps w t :
  triple (unbegun w) (admit_build t) (fun b d => if b then unbegun w d else settled w d) (settled w).
Proof.
  assert (forall d, unbegun w d -> settled w d) as Hset by (intros d H; by apply building_settled, unbegun_building).
  unfold admit_build. apply gets_bind. intros [|]; [apply triple_ret; by intros d [? _]|].
  eapply triple_pre; [intros d [H _]; exact H|]. apply gets_bind. intros [v|]; cbn [is_some negb]; [|apply triple_ret; intros d [H _]; by apply Hset].
  eapply triple_pre; [intros d [H _]; exact H|]. apply gets_bind. intros [|]; (eapply triple_pre; [intros d [H _]; exact H|]).
  - apply gets_bind. intros [|]; (eapply triple_pre; [intros d [H _]; exact H|]); cbn [negb].
    + apply (modify_bind _ (unbegun w)); [apply freeze_keeps|by apply triple_ret].
    + apply (triple_bind _ _ (fun _ => settled w)); [apply wipe_all_settled|intros _; by apply triple_ret].
  - apply soft_bind; [apply unbegun_soft|done| |intros [|]]; [|apply (triple_bind _ _ (fun _ => settled w)); [apply abort_settled|intros _; by apply triple_ret]|by apply triple_ret].
    unfold refs_moved. apply core_rel. apply rel_ok_bind; [apply _|apply meta_i64_core|intros a].
    apply rel_ok_bind; [apply _|apply meta_i64_core|intros b]. apply rel_ok_ret; apply _.
Qed.
(** The build's description dropped, the cohort as it was. *)
Lemma state_cleared P d d' :
  BuildState P d -> t_marked d' = t_marked d -> (forall s p, in_marked d p = true -> t_objects d' !! (s, p) = t_objects d !! (s, p)) ->
  owned d' -> t_meta d' !! "gc.mode" = t_meta d !! "gc.mode" -> t_meta d' !! "gc.new_pack" = None -> t_meta d' !! "gc.pos" = None ->
  BuildState P d'.
Proof.
  intros [[W1 W2 W3 W4 W5] B0 B2 B3 B4 B5] Em Eo Ho Ek En Ep.
  assert (forall p, in_marked d' p = in_marked d p) as Hi by (intros; unfold in_marked; by rewrite Em).
  split; [split|done|unfold meta_is in *; by rewrite Ek|by rewrite En|by rewrite Ep|done].
  - intros s p o. rewrite Hi. intros Hp. rewrite Eo by done. by apply W1.
  - intros s s' p o o'. rewrite Hi. intros Hp. rewrite !Eo by done. by apply W2.
  - intros s p o. rewrite Hi. intros Hp. rewrite Eo by done. by apply W3.
  - unfold marked_ids. by rewrite Em.
  - by rewrite Em.
Qed.
Lemma drop_keys_held d : held c (drop_build_keys d) -> held c d.
Proof. unfold held, drop_build_keys, meta_delete. cbn. by map_simp. Qed.
(** No bit to copy is set. *)
Definition bare (d : Db) : Prop := forall p m i, t_marked d !! p = Some m -> bm_get (copy_bits m) i = false.
Lemma fold_total_le (rows : list (MarkedSql * PackSql)) n : n <= u32_max -> n <= fold_left (fun n e => sat_addu32 n (Z.of_nat (bm_popcount (copy_bits e.1)))) rows n <= u32_max.
Proof.
  revert n. induction rows as [|e rows IH]; intros n Hn; cbn [fold_left]; [lia|].
  destruct (IH (sat_addu32 n (Z.of_nat (bm_popcount (copy_bits e.1))))) as [H1 H2]; unfold sat_addu32 in *; lia.
Qed.
Lemma build_total_zero (rows : list (MarkedSql * PackSql)) e : build_total rows = 0 -> e ∈ rows -> bm_popcount (copy_bits e.1) = 0%nat.
Proof.
  unfold build_total. assert (forall n, 0 <= n <= u32_max -> fold_left (fun n e => sat_addu32 n (Z.of_nat (bm_popcount (copy_bits e.1)))) rows n = 0 ->
    e ∈ rows -> bm_popcount (copy_bits e.1) = 0%nat) as H; [|apply (H 0); unfold u32_max; lia].
  induction rows as [|x rows IH]; intros n Hn E; [by intros ?%elem_of_nil|]. cbn [fold_left] in E.
  pose proof (fold_total_le rows (sat_addu32 n (Z.of_nat (bm_popcount (copy_bits x.1)))) ltac:(unfold sat_addu32; lia)) as [H1 _].
  rewrite E in H1. unfold u32_max in *. intros [->|Hin]%elem_of_cons; [unfold sat_addu32, u32_max in *; lia|].
  eapply IH; [|exact E|exact Hin]. unfold sat_addu32, u32_max in *. lia.
Qed.
Lemma total_bare d : owned d -> build_total (build_rows d) = 0 -> bare d.
Proof.
  intros [_ Ho] Ht p m i Hm. assert (in_marked d p = true) as Hp by (unfold in_marked; by rewrite Hm). destruct (Ho p Hp) as [r Hr].
  apply popcount_zero. apply (build_total_zero (build_rows d) (m, r) Ht). apply list_elem_of_omap. exists p.
  split; [by apply marked_ids_elem|]. by rewrite Hm, Hr.
Qed.
(** An empty build goes straight to the sweep. *)
Definition to_sweep (w : W) (d : Db) : Prop := held c d ->
  (BuildState (sealed w) d /\ t_meta d !! "gc.phase" = Some "build") /\ bare d.
Lemma to_sweep_soft w d d' : soft c d d' -> to_sweep w d -> to_sweep w d'.
Proof.
  intros Hs Hb Hh. destruct (Hb (soft_held c _ _ Hs Hh)) as [H1 H2].
  split; [exact (building_soft w d d' Hs (fun _ => H1) Hh)|]. intros p m i Hm. destruct (soft_mark c _ _ Hs Hh p m Hm) as (m' & Hm' & _ & -> & _).
  by apply (H2 p).
Qed.
Lemma to_sweep_settled w d : to_sweep w d -> settled w d.
Proof. intros Hb. apply building_settled. intros Hh. by apply Hb. Qed.
Lemma drop_uploads_soft d : soft c d (drop_uploads d).
Proof. by apply same_core_soft. Qed.
Lemma drop_keys_sweep w d : to_sweep w d -> to_sweep w (drop_build_keys d).
Proof.
  intros Hb Hh. apply drop_keys_held in Hh. destruct (Hb Hh) as [[H1 H2] H3]. split; [|done]. split.
  - apply (state_cleared _ d); try done; [by destruct (bt_owned _ _ H1)|..]; unfold drop_build_keys, meta_delete; cbn; by map_simp.
  - unfold drop_build_keys, meta_delete. cbn. by map_simp.
Qed.
Lemma sweep_phase w d : to_sweep w d -> settled w (on_meta (insert "gc.phase" "sweep") d).
Proof.
  intros Hb Hh. assert (held c d) as Hd by (unfold held in *; revert Hh; cbn; by map_simp). destruct (Hb Hd) as [[H1 H2] H3]. split.
  - apply (state_remeta _ d); try done; cbn; map_simp; try done; [apply (bt_pos _ _ H1)|apply (bt_both _ _ H1)].
  - intros _ p m b s o Hm Hmb Ho Hg. exfalso. pose proof (H3 p m (ob_idx o) Hm) as Hf. unfold copy_bits in Hf. rewrite Hmb in Hf. cbn in Hf. congruence.
Qed.
Lemma nothing_marked_keeps w t :
  triple (to_sweep w) (nothing_marked t) (fun _ => settled w) (settled w).
Proof.
  unfold nothing_marked. apply gets_bind. intros [|]; [apply wipe_all_settled|].
  apply (modify_bind _ (to_sweep w)); [intros d [H _]; apply (to_sweep_soft w d); [apply drop_uploads_soft|done]|].
  apply (modify_bind _ (to_sweep w)); [apply drop_keys_sweep|].
  apply soft_bind; [apply to_sweep_soft|apply to_sweep_settled|apply core_rel, chain_payload_core|intros pl].
  apply soft_bind; [apply to_sweep_soft|apply to_sweep_settled|apply core_rel, enqueue_core|intros _].
  apply soft_bind; [apply to_sweep_soft|apply to_sweep_settled|apply core_rel, failpoint_core|intros _].
  apply (modify_bind _ (settled w)); [apply sweep_phase|].
  apply soft_triple with c; [intros d d' Hs; by apply settled_stable|apply swap_baseline_soft].
Qed.

(** The new pack's row, before the meta keys name it. *)
Definition inserted (w : W) (pack : string) (d : Db) : Prop := held c d ->
  (BuildState (sealed w) d /\ t_meta d !! "gc.phase" = Some "build" /\ t_meta d !! "gc.pos" = None) /\
  known d pack /\ in_marked d pack = false /\ (forall s, ~ has d pack s) /\ ~ sealed w pack.
Lemma insert_pack_keeps w pack t :
  fresh w = Ok pack -> triple (unbegun w) (insert_pack pack t) (fun _ => inserted w pack) (settled w).
Proof.
  intros Hf d Hd. unfold insert_pack. destruct (t_packs d !! pack) as [r|] eqn:E; [by apply building_settled, unbegun_building|].
  intros Hh. destruct (Hd Hh) as (H1 & H2 & H3). set (d' := on_packs _ d).
  destruct (bt_owned _ _ H1) as [O1 O2]. assert (forall p, known d p -> known d' p) as Hk.
  { intros p Hp. unfold known, d'. cbn. destruct (decide (p = pack)) as [->|]; [by rewrite lookup_insert_eq|by rewrite lookup_insert_ne]. }
  assert (~ known d pack) as Hn by (unfold known; rewrite E; by intros [? ?]). split_and!; try done.
  - destruct H1 as [B1 B0 B2 B3 B4 B5]. split; try done.
    + destruct B1. by split.
    + split; [intros p s Hs; by apply Hk, (O1 p s)|intros p Hp; by apply Hk, O2].
    + intros N HN. change (t_meta d') with (t_meta d) in HN. by rewrite (B5 H3) in HN.
  - unfold known, d'. cbn. by rewrite lookup_insert_eq.
  - change (in_marked d pack = false). destruct (in_marked d pack) eqn:Em; [|done]. exfalso. by apply Hn, O2.
  - intros s Hs. by apply Hn, (O1 pack s).
  - by apply (wo_fresh _ _ _ _ _ _ _ _ _ HW w).
Qed.
Lemma name_pack w pack total d :
  inserted w pack d ->
  at_pos w (BASE_POS pack total) (on_meta (insert "gc.pos" (pos_encode (BASE_POS pack total))) (on_meta (insert "gc.new_pack" pack) d)).
Proof.
  intros Hi Hh. assert (held c d) as Hd by (unfold held in *; revert Hh; cbn; by map_simp). set (d' := on_meta _ _).
  destruct (Hi Hd) as (([B1 B0 B2 B3 B4 B5] & H2 & H3) & Hk & Hm & Hn & Hs). set (pos := BASE_POS pack total) in *.
  assert (pos_ok d' pos) as Hp.
  { split; [cbn; lia|]. split; intros k p s i He Hc; pose proof (entry_idx d k p s i B1 He); cbn in Hc; unfold cursor_lt in Hc; lia. }
  assert (t_meta d' !! "gc.new_pack" = Some pack) as En by (unfold d'; cbn; by map_simp).
  split_and!; [|unfold d'; cbn; by map_simp|done|done]. split.
  - by destruct B1.
  - done.
  - unfold meta_is, d' in *. cbn. by map_simp.
  - rewrite En. intros x [= <-]. split; [|done]. split; [done..|]. intros s Hs'. by destruct (Hn s).
  - intros j p. unfold d'. cbn. map_simp. intros [= <-]. rewrite pos_roundtrip. intros [= <-]. by split.
  - unfold d'. cbn. by map_simp.
Qed.
Lemma begin_build_keeps w t :
  triple (unbegun w) (begin_build t (fresh w))
    (fun r d => match r with Some pos => at_pos w pos d | None => settled w d end) (settled w).
Proof.
  assert (forall d, unbegun w d -> settled w d) as Hset by (intros d H; by apply building_settled, unbegun_building).
  unfold begin_build. eapply triple_bind; [apply admit_build_keeps|intros [|]]; cbn [negb]; [|by apply triple_ret].
  apply gets_bind. intros rows. cbv zeta. destruct ((build_total rows =? 0) && _) eqn:Et.
  { apply andb_true_iff in Et as [Et _]. apply Z.eqb_eq in Et. apply (triple_bind _ _ (fun _ => settled w)); [|intros _; by apply triple_ret].
    eapply triple_pre; [|apply nothing_marked_keeps]. intros d [Hu ->] Hh. destruct (Hu Hh) as (H1 & H2 & _).
    split; [done|]. apply total_bare; [apply (bt_owned _ _ H1)|done]. }
  case_match; [apply (triple_bind _ _ (fun _ => settled w)); [apply wipe_all_settled|intros _; by apply triple_ret]|].
  apply (triple_bind _ _ (fun _ => unbegun w)).
  { intros d [Hu _]. unfold drop_new_pack, meta_opt, gets, mbind, M_bind. destruct (t_meta d !! "gc.new_pack") as [p|] eqn:En; cbn; [|done].
    intros Hh. destruct (Hu Hh) as (H1 & _ & H3). pose proof (bt_both _ _ H1 H3). congruence. }
  intros _. apply (modify_bind _ (unbegun w)); [intros d; apply unbegun_soft, drop_uploads_soft|].
  eapply triple_bind; [apply triple_lift, Hset|intros pack]. apply triple_pure. intros Hf.
  apply (triple_bind _ _ (fun _ => inserted w pack)); [by apply insert_pack_keeps|intros _].
  apply (modify_bind _ (fun d => at_pos w (BASE_POS pack (build_total rows)) (on_meta (insert "gc.pos" (pos_encode (BASE_POS pack (build_total rows)))) d)));
    [intros d; apply name_pack|].
  apply (modify_bind _ (at_pos w (BASE_POS pack (build_total rows)))); [done|]. by apply triple_ret.
Qed.
(** A dead upload: the marks stay, the pack's rows go, the build begins again. *)
Lemma wipe_build_keeps w t : triple (building w) (wipe_build t) (fun _ => unbegun w) (settled w).
Proof.
  intros d Hb. unfold wipe_build, drop_new_pack, meta_opt, gets, modify, mbind, M_bind. cbn.
  destruct (t_meta d !! "gc.new_pack") as [p|] eqn:En; cbn; intros Hh; apply drop_keys_held in Hh; destruct (Hb Hh) as [H1 H2].
  all: split_and!; [|unfold drop_build_keys, meta_delete; cbn; by map_simp..].
  - destruct (bt_new _ _ H1 p En) as [[Hk Hout _] _]. destruct (bt_owned _ _ H1) as [O1 O2].
    apply (state_cleared _ d); try done; try (unfold drop_build_keys, meta_delete; cbn; by map_simp).
    + intros s q Hq. cbn. assert (String.eqb p q = false) as E by (apply String.eqb_neq; congruence).
      destruct (t_objects d !! (s, q)) as [o|] eqn:Eo; [by apply map_lookup_filter_Some|].
      apply map_lookup_filter_None. by left.
    + assert (forall x, known d x -> known (drop_build_keys (drop_uploads (kill_packs
        (fun id r => String.eqb id p && bool_decide (pk_state r = Ingesting)) t (delete_objects (String.eqb p) d)))) x) as Hkn.
      { intros x [r Hr]. unfold known. cbn. rewrite map_lookup_imap, Hr. by eexists. }
      split; [|intros x Hx; by apply Hkn, O2]. intros x s [o Ho]. apply Hkn, (O1 x s). cbn in Ho.
      apply map_lookup_filter_Some in Ho as [Ho _]. by exists o.
  - apply (state_cleared _ d); try done; try (unfold drop_build_keys, meta_delete; cbn; by map_simp).
    by destruct (bt_owned _ _ H1).
Qed.
(** ** The turns of the job *)

Abbreviation CS := (Db * W)%type.
Definition over (Q : W -> Db -> Prop) (s : CS) : Prop := Q s.2 s.1.
Definition cstep (s s' : CS) : Prop := soft c s.1 s'.1 /\ shrinks W holds s.2 s'.2.
#[local] Instance cstep_preorder : PreOrder cstep.
Proof. split; [by intros s|]. intros s1 s2 s3 [A1 A2] [B1 B2]. split; by etrans. Qed.
(** Assertions the rely condition keeps, and that settle the store. *)
Definition tame (Q : W -> Db -> Prop) : Prop :=
  (forall w w' d d', soft c d d' -> shrinks W holds w w' -> Q w d -> Q w' d') /\ (forall w d, Q w d -> settled w d).
Lemma building_tame : tame building.
Proof.
  split; [|apply building_settled]. intros w w' d d' Hs Hw Hb Hh. destruct (building_soft w d d' Hs Hb Hh) as [H1 H2].
  split; [|done]. apply (state_sealed (sealed w)); [intros x; apply Hw|done].
Qed.
Lemma at_pos_tame pos : tame (fun w => at_pos w pos).
Proof.
  split; [|intros w d H; by eapply building_settled, at_pos_building]. intros w w' d d' Hs Hw Hb Hh.
  destruct (at_pos_soft w pos d d' Hs Hb Hh) as [[H1 H2] H3]. split; [|done]. split; [|done].
  apply (state_sealed (sealed w)); [intros x; apply Hw|done].
Qed.
Lemma cstep_bind {A B} Q (m : M CS Error A) (f : A -> M CS Error B) R :
  tame Q -> rel_ok cstep m -> (forall a, triple (over Q) (f a) R (over settled)) -> triple (over Q) (m ≫= f) R (over settled).
Proof.
  intros [Hs Hq] Hm Hf. apply (triple_bind _ _ (fun _ => over Q)); [|done]. intros s H. specialize (Hm s). destruct Hm as [H1 H2].
  assert (over Q (m s).1) as Hm by (by apply (Hs s.2 _ s.1)). destruct (m s) as [s' [a|e]]; [done|by apply Hq].
Qed.
Lemma with_db_step {A} (m : DoM A) : rel_ok (soft c) m -> rel_ok cstep (with_db m).
Proof. intros Hm s. split; [apply Hm|done]. Qed.
Lemma with_db_triple {A} (Q : W -> Db -> Prop) (m : DoM A) (R : A -> W -> Db -> Prop) X :
  (forall w, triple (Q w) m (fun a => R a w) (X w)) -> triple (over Q) (with_db m) (fun a => over (R a)) (over X).
Proof. intros Hm [d w] Hs. specialize (Hm w d Hs). unfold with_db. cbn. by destruct (m d) as [d' [a|e]]. Qed.
Lemma let_others_step : rel_ok cstep (let_others W others).
Proof. intros s. destruct (wo_others _ _ _ _ _ _ _ _ _ HW s.2 s.1) as [H1 H2]. by split. Qed.
Lemma job_fence_step pack : rel_ok cstep (job_fence W now job (Some c) pack).
Proof. intros s. split; [|done]. apply core_rel, chain_fence_core. Qed.
Lemma get_any {A B} (P : CS -> Prop) (g : CS -> A) (f : A -> M CS Error B) R X :
  (forall a, triple P (f a) R X) -> triple P (gets g ≫= f) R X.
Proof. intros Hf. apply gets_bind. intros a. eapply triple_pre; [|apply Hf]. by intros s [? _]. Qed.

Lemma load_pos_keeps :
  triple (over building) (load_pos W now fresh)
    (fun r => over (fun w d => match r with Some pos => at_pos w pos d | None => settled w d end)) (over settled).
Proof.
  intros [d w] Hb. unfold load_pos, with_db, meta_opt, gets, lift, mbind, M_bind. cbn.
  destruct (t_meta d !! "gc.pos") as [j|] eqn:Ej; cbn.
  - destruct (pos_parse j) as [p|e] eqn:Ep; [|by apply building_settled]. intros Hh. destruct (Hb Hh) as [H1 H2].
    split; [done|]. by apply (bt_pos _ _ H1 j).
  - assert (unbegun w d) as Hu by (intros Hh; destruct (Hb Hh); by split).
    pose proof (begin_build_keeps w (now w) d Hu) as Hk. destruct (begin_build (now w) (fresh w) d) as [d' [[pos|]|e]]; cbn; try done.
    pose proof (core_rel c _ (failpoint_core "gc.consolidate.begin") d') as Hs.
    pose proof (at_pos_soft w pos _ _ Hs Hk) as Hk'. destruct (failpoint "gc.consolidate.begin" d') as [d2 [[]|e]]; [done|].
    by eapply building_settled, at_pos_building.
Qed.
Lemma drop_orphan_keeps key pos :
  triple (over (fun w => at_pos w pos)) (drop_orphan W others open_upload key pos)
    (fun p s => over (fun w => at_pos w p) s /\ ps_pack p = ps_pack pos) (over settled).
Proof.
  unfold drop_orphan. case_match; [|by apply triple_ret]. apply get_any. intros s.
  assert (forall s : CS, over (fun w => at_pos w pos) s -> over (fun w => at_pos w (pos_upload "" pos)) s) as Hu by done.
  case_match; [|by apply triple_ret]. apply cstep_bind; [apply at_pos_tame|apply let_others_step|intros _]. by apply triple_ret.
Qed.
Lemma put_pos_at w pos : triple (at_pos w pos) (put_pos pos) (fun _ => at_pos w pos) (settled w).
Proof.
  intros d Hd. cbn. intros Hh. assert (held c d) as Hd0 by (unfold held in *; revert Hh; cbn; by map_simp).
  destruct (Hd Hd0) as ([H1 H2] & H3 & H4). split_and!; cbn; map_simp; try done.
  apply (state_remeta _ d); try done; cbn; map_simp; try done. intros j q [= <-]. rewrite pos_roundtrip. intros [= <-]. by split.
Qed.
Lemma create_writer_sh m key total kind t w : shrinks W holds w (create_writer W charge1 m key total kind t w).1.
Proof.
  unfold create_writer. case_match; [|done]. pose proof (wo_charge _ _ _ _ _ _ _ _ _ HW w) as H1. by destruct (charge1 w) as [w' [u|e]].
Qed.
Lemma open_writer_keeps key etags pos :
  triple (over (fun w => at_pos w pos)) (open_writer W charge1 now others new_upload open_upload upload_id job (Some c) key etags pos)
    (fun r => over (fun w d => match r with Some (_, p) => at_pos w p d /\ ps_pack p = ps_pack pos | None => settled w d end)) (over settled).
Proof.
  assert (forall s : CS, over (fun w => at_pos w pos) s -> over settled s) as Hset by (intros s; apply at_pos_tame).
  unfold open_writer. case_match.
  - apply gets_bind. intros s. cbv zeta.
    apply (modify_bind _ (over (fun w => at_pos w pos))); [intros d [Hd ->]; eapply at_pos_tame; [done|apply create_writer_sh|done]|].
    apply cstep_bind; [apply at_pos_tame|apply let_others_step|intros _].
    apply cstep_bind; [apply at_pos_tame|apply rel_ok_lift; apply _|intros o].
    eapply triple_pre; [|apply (cstep_bind (fun w => at_pos w (pos_upload (upload_id (pw_mpu o)) pos))); [apply at_pos_tame|apply job_fence_step|intros [|]]];
      [done| |apply triple_ret; intros d; apply at_pos_tame]; cbn [negb].
    apply (triple_bind _ _ (fun _ => over (fun w => at_pos w (pos_upload (upload_id (pw_mpu o)) pos))));
      [apply with_db_triple; intros w; apply put_pos_at|intros _]. by apply triple_ret.
  - apply get_any. intros s. apply cstep_bind; [apply at_pos_tame|apply rel_ok_lift; apply _|intros m].
    case_match; [|by apply triple_fail]. apply cstep_bind; [apply at_pos_tame|apply rel_ok_lift; apply _|intros o]. by apply triple_ret.
Qed.
Lemma load_tail_keeps w tail out pos d : at_pos w pos d -> at_pos w (load_tail tail out pos d).2 d.
Proof.
  intros Ha Hh. destruct (Ha Hh) as (H1 & H2 & H3). unfold load_tail.
  destruct (0 <? ps_tail pos); [|done]. destruct (_ =? _); [done|]. cbn. split; [done|]. split; [done|].
  destruct H3 as (A1 & A2 & A3). split; [cbn; lia|]. by split.
Qed.
(** What a build ends in. *)
Definition turned (f : option Flow) (w : W) (d : Db) : Prop :=
  settled w d /\ (f = Some FRebuild -> building w d).
Lemma build_keeps fuel pos out :
  triple (over (fun w => at_pos w pos))
    (build W charge1 now spent others completed head_object repo job (Some c) fuel (key_pack repo (ps_pack pos)) out pos)
    (fun f => over (turned f)) (over settled).
Proof.
  intros [d w] Ha. unfold build. cbn [fst snd]. set (ord := sat_addu32 _ _).
  assert (BI W repo c holds (ps_pack pos) (marked_ids d) [] (mkBs d w out pos [] [] None ord None)) as HB.
  { split; [done|]. cbn. intros Hh. destruct (Ha Hh) as ([H1 H2] & H3 & H4 & H5 & H6). split; cbn; try done.
    all: try by intros ? ?%elem_of_nil. all: try by intros ? [?%elem_of_nil|?]. all: by intros []. }
  pose proof (build_loop_keeps W charge1 now spent others new_upload open_upload completed head_object fresh repo job c holds HW (ps_pack pos)
    (marked_ids d) fuel _ HB) as Hk.
  destruct (build_loop _ _ _ _ _ _ _ _ _ _ _ _ _ _) as [s [[f|]|e]]; cbn in *; [|split; [by eapply good_fin|done]|done].
  destruct Hk as [H1 H2]. split; [done|]. intros [= ->] Hh. split; [by apply H1|by apply H2].
Qed.
Lemma wipe_turn t : triple (over building) (with_db (wipe_build t)) (fun _ => over building) (over settled).
Proof.
  apply (with_db_triple building (wipe_build t) (fun _ => building) settled). intros w.
  eapply triple_post; [|apply wipe_build_keeps]. intros u d. apply unbegun_building.
Qed.
Lemma run_build_keeps fuel key tail out pos :
  key = key_pack repo (ps_pack pos) ->
  triple (over (fun w => at_pos w pos))
    (s ← gets (fun s => s);
     let op := load_tail tail out pos s.1 in
     build W charge1 now spent others completed head_object repo job (Some c) fuel key op.1 op.2)
    (fun f => over (turned f)) (over settled).
Proof.
  intros ->. apply gets_bind. intros s. cbv zeta.
  assert (ps_pack (load_tail tail out pos s.1).2 = ps_pack pos) as <- by (unfold load_tail; by repeat case_match).
  eapply triple_pre; [|apply build_keeps]. intros x [Hx ->]. by apply load_tail_keeps.
Qed.
Lemma consolidate_turn_keeps fuel :
  triple (over building)
    (consolidate_turn W charge1 now spent others new_upload open_upload upload_id completed head_object fresh repo job (Some c) fuel)
    (fun r => over (match r with Some _ => settled | None => building end)) (over settled).
Proof.
  unfold consolidate_turn. eapply triple_bind; [apply load_pos_keeps|intros [pos|]]; [|by apply triple_ret]. cbv zeta.
  apply get_any. intros parts. apply (cstep_bind (fun w => at_pos w pos)); [apply at_pos_tame|apply rel_ok_lift; apply _|intros etags].
  eapply triple_bind; [apply drop_orphan_keeps|intros pos1]. apply triple_pure. intros E1.
  eapply triple_bind; [apply open_writer_keeps|intros [[out pos2]|]]; [|by apply triple_ret].
  apply (triple_pre _ (fun s => over (fun w => at_pos w pos2) s /\ ps_pack pos2 = ps_pack pos1)); [done|]. apply triple_pure. intros E2.
  apply get_any. intros size. apply get_any. intros tail.
  apply cstep_bind; [apply at_pos_tame|apply job_fence_step|intros [|]]; cbn [negb]; [|apply triple_ret; intros s; apply at_pos_tame].
  apply cstep_bind; [apply at_pos_tame|by apply with_db_step, core_rel, modify_core|intros _].
  eapply triple_assoc; [apply (run_build_keeps fuel _ tail (set_part_size size out)); congruence|intros [f|]];
    [|apply triple_ret; by intros s [H _]].
  destruct f; [apply triple_ret; by intros s [H _]..|apply triple_fail; by intros s [H _]|].
  apply get_any. intros t. eapply triple_pre; [intros s [_ H]; exact (H eq_refl)|].
  apply (triple_bind _ _ (fun _ => over building)); [apply wipe_turn|intros _; by apply triple_ret].
Qed.
Lemma consolidate_loop_keeps turns fuel :
  triple (over building)
    (consolidate_loop W charge1 now spent others new_upload open_upload upload_id completed head_object fresh repo job (Some c) turns fuel)
    (fun _ => over settled) (over settled).
Proof.
  induction turns as [|turns IH]; cbn [consolidate_loop]; [apply triple_ret; intros s; apply building_settled|].
  eapply triple_bind; [apply consolidate_turn_keeps|intros [out|]]; [by apply triple_ret|apply IH].
Qed.
(** ** The job *)

Lemma state_copies P d : BuildState P d -> copy_inv d.
Proof.
  intros B p s Hp Hs. destruct (bt_new _ _ B p Hp) as [[_ Hout Hc] _]. destruct (Hc s Hs) as (q & Hq & Hqs). exists q.
  split_and!; [done| |done]. intros ->. congruence.
Qed.
Lemma stray_pure (s : CS) : triple (eq s) (with_db (stray job)) (fun _ => eq s) (eq s).
Proof. intros x <-. unfold stray, with_db, meta_opt, gets, mbind, M_bind, mret, M_ret. destruct s as [d w]. by destruct (json_job_chain (job_payload job)). Qed.
Lemma consolidate_settles turns fuel d w :
  held c d -> settled w d ->
  over settled (gc_consolidate W charge1 now spent others new_upload open_upload upload_id completed head_object fresh repo job turns fuel (d, w)).1.
Proof.
  intros Hh Hs. set (s := (d, w)). assert (over settled s) as Hs0 by done.
  apply (triple_end (eq s)); [|done]. unfold gc_consolidate. apply get_any. intros t.
  assert (forall A (g : Db -> A), triple (eq s) (with_db (gets g)) (fun a x => eq s x /\ a = g d) (over settled)) as Hget
    by (intros A g x <-; done).
  eapply triple_bind; [apply Hget|intros [|]].
  { apply (triple_bind _ _ (fun _ => over settled)); [|intros o; by apply triple_ret]. eapply triple_pre; [|apply (with_db_triple (fun _ _ => True) _ (fun _ => settled) settled)];
      [done|intros w0; apply abort_settled]. }
  eapply triple_pre; [intros x [H _]; exact H|]. eapply triple_bind; [eapply triple_exn; [|apply stray_pure]; by intros x <-|intros [|]]; [by apply triple_ret; intros x <-|].
  eapply triple_bind; [apply Hget|intros [|]]; cbn [negb]; [|apply triple_ret; by intros x [<- _]].
  apply triple_pure. intros Hp. eapply triple_bind; [apply Hget|intros chain]. apply triple_pure. intros Hc. unfold held in Hh. rewrite Hh in Hc. subst chain.
  eapply triple_bind; [apply Hget|intros compact]. eapply triple_pre; [intros x [H _]; exact H|].
  eapply triple_bind; [apply Hget|intros cl]. eapply triple_pre; [intros x [H _]; exact H|]. case_match.
  - apply (triple_bind _ _ (fun _ => over settled)); [|intros u; by apply triple_ret]. eapply triple_pre; [|apply (with_db_triple (fun _ _ => True) _ (fun _ => settled) settled)];
      [done|intros w0; apply wipe_all_settled].
  - eapply triple_pre; [|apply consolidate_loop_keeps]. intros x <- Hx. split; [by apply Hs|].
    unfold meta_is in Hp. destruct (t_meta d !! "gc.phase") as [v|] eqn:Ev; [|done]. symmetry in Hp. apply String.eqb_eq in Hp. by subst.
Qed.
(** C6: a consolidate slice loses no marked entry, wherever it stops.  Between two
    slices the rows posted for the new pack are copies of cohort objects and cover
    every marked entry before the persisted cursor and before the fallback boundary
    ([BuildState]); a slice that starts there ends there, whether it yields, fails,
    resumes a lost tail, rebuilds after a dead upload or is overtaken by another
    handler at any await, as long as the chain is still its own.  The phase becomes
    [sweep] only when every entry frozen to be copied has a row in the new pack
    ([build_ok]) and every row of the new pack has its original in the cohort
    ([copy_inv]): the premises of the sweep. *)
Theorem consolidate_keeps turns fuel d w :
  t_meta d !! "gc.chain" = Some c -> BuildState (sealed w) d -> (t_meta d !! "gc.phase" = Some "sweep" -> build_ok d) ->
  let s := (gc_consolidate W charge1 now spent others new_upload open_upload upload_id completed head_object fresh repo job turns fuel (d, w)).1 in
  t_meta s.1 !! "gc.chain" = Some c ->
  BuildState (sealed s.2) s.1 /\ (t_meta s.1 !! "gc.phase" = Some "sweep" -> build_ok s.1 /\ copy_inv s.1).
Proof.
  intros Hh Hb Hp s Hs. destruct (consolidate_settles turns fuel d w Hh (fun _ => conj Hb Hp) Hs) as [H1 H2].
  split; [done|]. intros E. split; [by apply H2|by eapply state_copies].
Qed.
End Job.
