(* ===== verification/GcDemo.v ===== *)
(** * The collector at work

    A three-object repository taken through a mark and a sweep: instances of the
    assumptions of [WalkFacts], [Landing] and [SweepFacts] on a concrete store. *)
From S2P Require Import Prelude Errors Db Jobs Cohort GcBase Compact Refs Push PushFacts Sha Writer Reads Mark MarkFacts WalkFacts Landing Sweep SweepFacts.
Open Scope Z_scope.

(** A sound index, checked by evaluation. *)
Definition index_check {PF : Platform} (links : string -> list string) (d : Db) : bool :=
  let l := map_to_list (t_objects d) in
  forallb (fun e => match oid e.1.1 with Ok s => String.eqb s e.1.1 | Err _ => false end && (0 <=? ob_idx e.2) && (negb (ob_kind e.2 =? 3) || bool_decide (links e.1.1 = []))
    && forallb (fun f => negb (bool_decide (f.1.2 = e.1.2)) || negb (ob_idx f.2 =? ob_idx e.2)
                         || bool_decide (e.1.1 = f.1.1)) l) l.
Lemma index_check_wf {PF : Platform} links d : index_check links d = true -> StoreWf links d.
Proof.
  unfold index_check. rewrite forallb_forall. intros H.
  assert (forall s p o, t_objects d !! (s, p) = Some o -> List.In ((s, p), o) (map_to_list (t_objects d))) as Hin.
  { intros s p o E. by apply list_elem_of_In, elem_of_map_to_list. }
  split.
  - intros s p o E Hk. specialize (H _ (Hin _ _ _ E)). simpl in H.
    apply andb_true_iff in H as [[[_ _]%andb_true_iff H]%andb_true_iff _]. rewrite Hk in H. by apply bool_decide_eq_true in H.
  - intros s s' p o o' E E' Hi. specialize (H _ (Hin _ _ _ E)). apply andb_true_iff in H as [_ H].
    rewrite forallb_forall in H. specialize (H _ (Hin _ _ _ E')). simpl in H. rewrite bool_decide_true, Hi, Z.eqb_refl in H by done.
    by apply bool_decide_eq_true in H.
  - intros s p o E. specialize (H _ (Hin _ _ _ E)). simpl in H. bsimp. lia.
  - intros s p o E. specialize (H _ (Hin _ _ _ E)). rewrite !andb_true_iff in H. destruct H as [[[H _] _] _]. simpl in H.
    destruct (oid s) as [s'|]; [|done]. apply String.eqb_eq in H. by subst.
Qed.
Lemma cohort_check_ok d : forallb (fun kv => pack_live d kv.1) (map_to_list (t_marked d)) = true -> cohort_ok d.
Proof.
  rewrite forallb_forall. intros H p Hp. unfold in_marked in Hp. destruct (t_marked d !! p) as [m|] eqn:E; [|done].
  apply (H (p, m)). by apply list_elem_of_In, elem_of_map_to_list.
Qed.
Lemma rooted_check d : forallb (fun s => is_some (t_frontier d !! s)) (roots d) = true -> rooted d.
Proof.
  rewrite forallb_forall. intros H s Hs%list_elem_of_In%H. apply elem_of_dom. by destruct (t_frontier d !! s).
Qed.
(** A finished mark whose objects all have a copy in [np], outside the cohort. *)
Definition settled_check (links : string -> list string) (np : string) (d : Db) : bool :=
  forallb (fun s => bool_decide (s ∈ t_seen d)) (roots d ++ concat (map links (elements (t_seen d))))
  && forallb (fun s => is_some (t_objects d !! (s, np))) (elements (t_seen d))
  && pack_live d np && negb (in_marked d np) && (length (t_pending d) =? 0)%nat.
Lemma settled_inv {PF : Platform} links np d :
  StoreWf links d -> cohort_ok d -> settled_check links np d = true -> MarkInv links d.
Proof.
  intros [W1 W2 W3 W4] Hc H. unfold settled_check in H. rewrite !andb_true_iff, !forallb_forall in H.
  destruct H as [[[[Hr Hn] Hl] Hm] Hp]. apply Nat.eqb_eq, nil_length_inv in Hp. apply negb_true_iff in Hm.
  assert (forall s, s ∈ roots d ++ concat (map links (elements (t_seen d))) -> s ∈ t_seen d) as Hs.
  { intros s ?%list_elem_of_In%Hr. by eapply bool_decide_eq_true. }
  split; try done.
  - intros s Hin _. left. apply Hs, elem_of_app. by left.
  - intros s c Hin _ Hl'. left. apply Hs, elem_of_app. right. apply list_elem_of_In, in_concat. exists (links s).
    split; [|by apply list_elem_of_In]. apply in_map, list_elem_of_In. set_solver.
  - intros s Hin. left. exists np. split_and!; [|done|done]. specialize (Hn s). destruct (t_objects d !! (s, np)); [by eexists|].
    discriminate Hn. apply list_elem_of_In. set_solver.
  - rewrite Hp. intros r Hx. by apply elem_of_nil in Hx.
  - rewrite Hp. split; [constructor|]. intros r Hx. by apply elem_of_nil in Hx.
Qed.
Lemma env_refl {PF : Platform} links chain want d : env_step links chain want d d.
Proof. split; eauto. Qed.

Module GcDemo.
#[export] Instance platform : Platform :=
  demo_env (fun k => if String.eqb k "GE_GC_BARRIER" then Some "1" else None).
Definition C : string := "1111111111111111111111111111111111111111".
Definition T : string := "2222222222222222222222222222222222222222".
Definition B : string := "3333333333333333333333333333333333333333".
(** A commit, its tree and the tree's blob; an object's content names its link. *)
Definition links (s : string) : list string :=
  if String.eqb s C then [T] else if String.eqb s T then [B] else [].
#[export] Instance objects : GitObjects := {|
  commit_tree_id _ data := match data with [7] => Ok T | _ => Err "bad commit" end;
  commit_parent_ids _ _ := [];
  tree_entries _ data := match data with [8] => [Ok (false, B); Ok (true, "module")] | _ => [Err "bad tree"] end;
  tag_target _ _ := Err "bad tag"
|}.
Definition wire (s : string) : list Z :=
  if String.eqb s C then header_write Commit 1 ++ deflate [7]
  else if String.eqb s T then header_write Tree 1 ++ deflate [8]
  else [].
(** A wait that reads the entries and lets nobody in. *)
Definition await (now : Z) (chunk : list (string * ObjLoc)) : DoM (Z * bool * list (string * list Z)) :=
  mret (now + 5, false, map (fun e => (e.1, wire e.1)) chunk).
Lemma await_fine chain want : await_ok links chain want await.
Proof.
  intros now chunk d _. split; [apply env_refl|]. intros x [= <-]. split; [simpl; by rewrite List.map_map|].
  intros id e k data ls Hin Hd Hl c Hc. apply list_elem_of_fmap in Hin as (f & [= -> ->] & _).
  unfold links, wire in *. destruct (String.eqb f.1 C); [|destruct (String.eqb f.1 T); [|by apply elem_of_nil in Hc]];
    vm_compute in Hd; simplify_eq; vm_compute in Hl; simplify_eq; exact Hc.
Qed.
Definition obj (idx kind : Z) : ObjSql := mkObj idx 12 30 kind 1.
Definition now : Z := 1000000000.
Definition base : Db :=
  on_meta (fun _ => {["refs_version" := "0"; "gc_epoch" := "0"]})
  (on_refs (insert "refs/heads/main" (mkRef C None 0))
  (on_packs (fun _ => {["P" := mkPack Live 3 300 0 0 None 0 None]})
  (on_objects (fun _ => {[(C, "P") := obj 0 1; (T, "P") := obj 1 2; (B, "P") := obj 2 3]}) empty_db))).
Definition row (kind : string) : JobSql := mkJob 1 kind now 0 None "{}" Running None (Some now) (Some "L") 0.
Definition marking : Db := on_jobs (fun _ => [row "gc_mark"]) (mark_init now "c0" base).1.
Definition job : Job := mkJobRec 1 GcMark now 0 None "{}" "L".
Lemma init_run : mark_init now "c0" base = ((mark_init now "c0" base).1, Ok None).
Proof. vm_compute. reflexivity. Qed.
Lemma base_wf : StoreWf links base.
Proof. apply index_check_wf. vm_compute. reflexivity. Qed.
Lemma marking_inv : MarkInv links marking.
Proof.
  apply blank_inv.
  - apply index_check_wf. vm_compute. reflexivity.
  - split; vm_compute; reflexivity.
  - apply rooted_check. vm_compute. reflexivity.
  - apply cohort_check_ok. vm_compute. reflexivity.
Qed.
(** The marked store: three turns expand the graph, the fourth hands off. *)
Definition marked : Db := Eval vm_compute in (gc_mark 10 await job "c0" (mkTick now false) marking).1.
Lemma marked_run : gc_mark 10 await job "c0" (mkTick now false) marking = (marked, Ok (Some Done)).
Proof. vm_compute. reflexivity. Qed.

(** The marked store with its build pack [N] published, in the sweep phase. *)
#[export] Instance json : SweepJson := {|
  swap_parse _ := None; swap_encode _ := "{}";
  retire_parse s := if String.eqb s "P" then Some (mkRetire ["P"] false false) else None;
  retire_encode it := fold_right String.append "" (ri_ids it);
  last_swap_encode _ _ _ _ := "{}"
|}.
Definition sweeping : Db :=
  on_jobs (fun _ => [row "gc_sweep"])
  (on_meta (fun m => <["gc.phase" := "sweep"]> (<["gc.new_pack" := "N"]> m))
  (on_marked (fun _ => {["P" := mkMarked [7] (Some [7])]})
  (on_packs (insert "N" (mkPack Live 3 300 0 0 None 5 None))
  (on_objects (fun o => <[(C, "N") := obj 0 1]> (<[(T, "N") := obj 1 2]> (<[(B, "N") := obj 2 3]> o))) marked)))).
Lemma sweeping_inv : MarkInv links sweeping.
Proof.
  apply (settled_inv links "N").
  - apply index_check_wf. vm_compute. reflexivity.
  - apply cohort_check_ok. vm_compute. reflexivity.
  - vm_compute. reflexivity.
Qed.
Definition twin_check (d : Db) : bool :=
  forallb (fun kv => is_some (t_objects d !! (kv.1.1, "P")) && is_some (t_objects d !! (kv.1.1, "N"))) (map_to_list (t_objects d)).
Lemma twins d s p : twin_check d = true -> is_Some (t_objects d !! (s, p)) ->
  is_Some (t_objects d !! (s, "P")) /\ is_Some (t_objects d !! (s, "N")).
Proof.
  unfold twin_check. rewrite forallb_forall. intros H [o Ho]. specialize (H ((s, p), o)).
  simpl in H. destruct (t_objects d !! (s, "P")), (t_objects d !! (s, "N")); eauto;
    (discriminate H; by apply list_elem_of_In, elem_of_map_to_list).
Qed.
Lemma sweeping_twins : twin_check sweeping = true.
Proof. vm_compute. reflexivity. Qed.
Lemma sweeping_new : t_meta sweeping !! "gc.new_pack" = Some "N".
Proof. vm_compute. reflexivity. Qed.
Lemma sweeping_build : build_ok sweeping.
Proof.
  intros p m b s o _ _ Ho _. exists "N". split; [apply sweeping_new|]. split; [vm_compute; reflexivity|].
  eapply twins; [apply sweeping_twins|by eexists].
Qed.
Lemma sweeping_copy : copy_inv sweeping.
Proof.
  intros p s Hp Hs. rewrite sweeping_new in Hp. injection Hp as <-. exists "P". split; [vm_compute; reflexivity|]. split; [done|].
  eapply twins; [apply sweeping_twins|exact Hs].
Qed.
Lemma live_in d s p : bool_decide (is_Some (t_objects d !! (s, p))) = true -> pack_live d p = true -> live_sha d s.
Proof. intros H1%bool_decide_eq_true H2. by exists p. Qed.
Lemma sweeping_reach : reachable links sweeping B.
Proof.
  apply (reach_link links _ T); [|left|apply (live_in _ _ "N"); vm_compute; reflexivity].
  apply (reach_link links _ C); [|left|apply (live_in _ _ "N"); vm_compute; reflexivity].
  apply reach_root; [vm_compute; left|vm_compute; reflexivity|apply (live_in _ _ "N"); vm_compute; reflexivity].
Qed.
(** Killed after the cohort was retired and before its rows were deleted. *)
Definition killed : Db :=
  on_meta (insert "gc.retire" "P") (on_packs (insert "P" (mkPack Dead 3 300 0 0 None 0 (Some 7))) sweeping).
Lemma killed_copy : copy_inv killed.
Proof.
  intros p s Hp Hs. assert (t_meta killed !! "gc.new_pack" = Some "N") as E by (vm_compute; reflexivity). rewrite E in Hp.
  injection Hp as <-. exists "P". split; [vm_compute; reflexivity|]. split; [done|]. eapply twins; [vm_compute; reflexivity|exact Hs].
Qed.

(** A push while a barrier chain marks: the staged push of [PushDemo]. *)
Definition pushing : Db :=
  on_meta (fun m => <["gc.chain" := "c0"]> (<["gc.started_at" := "5"]> (<["gc.barrier" := "1"]> m))) PushDemo.d2.
Definition leaf (s : string) : list string := [].
Lemma pushing_inv : MarkInv leaf pushing.
Proof.
  apply blank_inv.
  - apply index_check_wf. vm_compute. reflexivity.
  - split; vm_compute; reflexivity.
  - apply rooted_check. vm_compute. reflexivity.
  - apply cohort_check_ok. vm_compute. reflexivity.
Qed.
End GcDemo.

Import GcDemo.
Lemma mark_init_starts_witness : MarkInv GcDemo.links (mark_init GcDemo.now "c0" GcDemo.base).1.
Proof. apply (mark_init_starts GcDemo.links GcDemo.now "c0" GcDemo.base _ GcDemo.base_wf GcDemo.init_run). Defined.
Lemma gc_mark_keeps_invariant_witness :
  MarkInv GcDemo.links GcDemo.marked /\ size (t_seen GcDemo.marked) = 3%nat /\ size (t_frontier GcDemo.marked) = 0%nat.
Proof.
  split; [|split; vm_compute; reflexivity].
  assert (MarkInv GcDemo.links (gc_mark 10 GcDemo.await GcDemo.job "c0" (mkTick GcDemo.now false) GcDemo.marking).1) as H.
  { apply (gc_mark_keeps_invariant GcDemo.links 10 GcDemo.job "c0" "c0" (mkTick GcDemo.now false) GcDemo.marking GcDemo.await);
      [apply GcDemo.marking_inv|apply GcDemo.await_fine|vm_compute; reflexivity..]. }
  rewrite GcDemo.marked_run in H. exact H.
Defined.
Lemma push_respects_mark_witness :
  env_step GcDemo.leaf (Some "c0") None GcDemo.pushing (commit_push 1200 PushDemo.req GcDemo.pushing).1
  /\ (commit_push 1200 PushDemo.req GcDemo.pushing).2 = Ok PushDemo.results.
Proof.
  split; [|vm_compute; reflexivity].
  apply (push_respects_mark GcDemo.leaf); [exact GcDemo.pushing_inv|vm_compute; reflexivity].
Defined.
Lemma swap_check_keeps_reachable_witness :
  let run := swap_check 9 GcDemo.job (Some "c0") GcDemo.sweeping in
  live_sha run.1 GcDemo.B /\ run.2 = Ok CFinished /\ pack_live run.1 "P" = false.
Proof.
  split; [|split; vm_compute; reflexivity].
  apply (swap_check_keeps_reachable GcDemo.links); [exact GcDemo.sweeping_inv|exact GcDemo.sweeping_build
    |exact GcDemo.sweeping_copy|exact GcDemo.sweeping_reach].
Defined.
Lemma fallback_lossless_witness :
  let run := fallback_span 9 (mkSwapMeta 0 8 0) GcDemo.sweeping in
  live_sha run.1 GcDemo.B /\ pack_live run.1 "P" = false.
Proof.
  split; [|vm_compute; reflexivity].
  apply (fallback_lossless 9 (mkSwapMeta 0 8 0) GcDemo.sweeping GcDemo.sweeping_build GcDemo.sweeping_copy GcDemo.B).
  apply (GcDemo.live_in _ _ "N"); vm_compute; reflexivity.
Defined.
Lemma retire_resume_lossless_witness :
  let run := retire_resume 9 GcDemo.job (Some "c0") GcDemo.killed in
  live_sha run.1 GcDemo.B /\ run.2 = Ok (Some Done) /\ t_objects run.1 !! (GcDemo.B, "P") = None.
Proof.
  split; [|split; vm_compute; reflexivity].
  apply (retire_resume_lossless 9 GcDemo.job (Some "c0") GcDemo.killed GcDemo.killed_copy GcDemo.B).
  apply (GcDemo.live_in _ _ "N"); vm_compute; reflexivity.
Defined.
