(* ===== verification/BuildDemo.v ===== *)
(** * A consolidate build, run

    A pack of four objects, three of them marked, repacked by the job: an
    instance of the assumptions of [BuildJob] on a concrete store and world. *)
From S2P Require Import Prelude Errors Db Jobs Cohort GcBase Compact Refs Push Sha Writer Reads Mark MarkFacts WalkFacts Landing Sweep SweepFacts Build BuildFacts BuildJob GcDemo.
Open Scope Z_scope.

Module BuildDemo.
(** ** A text encoding of the cursor *)

#[local] Instance ckpt_eq : EqDecision Ckpt.
Proof. solve_decision. Defined.
#[local] Instance ckpt_countable : Countable Ckpt.
Proof.
  refine (inj_countable' (fun k => (ck_h k, ck_len k, ck_buf k)) (fun t => mkCkpt t.1.1 t.1.2 t.2) _). by intros [].
Defined.
#[local] Instance writer_eq : EqDecision WriterCkpt.
Proof. solve_decision. Defined.
#[local] Instance writer_countable : Countable WriterCkpt.
Proof.
  refine (inj_countable' (fun k => (wc_pos k, wc_sha k, wc_sha256 k, wc_count k, wc_expected k, wc_commit_lo k, wc_commit_hi k))
    (fun '(a, b, c, d, e, f, g) => mkWriterCkpt a b c d e f g) _). by intros [].
Defined.
#[local] Instance pos_eq : EqDecision Pos.
Proof. solve_decision. Defined.
#[local] Instance pos_countable : Countable Pos.
Proof.
  refine (inj_countable' (fun p => (ps_ci p, ps_idx p, ps_pack p, ps_upload p, ps_st p, ps_frag p, ps_total p, (ps_lo p, ps_hi p, ps_tail p, ps_bci p, ps_bidx p, ps_bfrag p, ps_ord0 p)))
    (fun '(a, b, c, d, e, f, g, (h, i, j, k, l, m, n)) => mkPos a b c d e f g h i j k l m n) _). by intros [].
Defined.
Fixpoint bits (p : positive) : string :=
  match p with
  | xH => ""
  | xO p => String "0" (bits p)
  | xI p => String "1" (bits p)
  end.
Fixpoint unbits (s : string) : positive :=
  match s with
  | "" => xH
  | String b s => if Ascii.eqb b "0" then xO (unbits s) else xI (unbits s)
  end.
Lemma unbits_bits p : unbits (bits p) = p.
Proof. induction p; cbn; by rewrite ?IHp. Qed.
#[export] Instance pos_json : PosJson := {|
  pos_parse s := match decode (unbits s) with Some p => Ok p | None => Err "expected value" end;
  pos_encode p := bits (encode (pos_ord0 0 p))
|}.
#[export] Instance pos_json_laws : PosJsonLaws.
Proof. intros p. cbn. by rewrite unbits_bits, decode_encode. Qed.

(** ** The store and the world *)

#[export] Instance platform : Platform :=
  demo_env (fun k => if String.eqb k "GE_GC_BARRIER" then Some "1" else None).
#[export] Instance json : SweepJson := {|
  swap_parse _ := None; swap_encode _ := "{}"; retire_parse _ := None; retire_encode _ := "{}"; last_swap_encode _ _ _ _ := "{}" |}.
Definition C : string := "1111111111111111111111111111111111111111".
Definition T : string := "2222222222222222222222222222222222222222".
Definition G : string := "3333333333333333333333333333333333333333".
Definition B : string := "4444444444444444444444444444444444444444".
Definition wire (k : Kind) (x : Z) : list Z := header_write k 1 ++ deflate [x].
Definition object : list Z := pack_header 4 ++ wire Commit 7 ++ wire Tree 8 ++ wire Blob 9 ++ wire Blob 5.
#[export] Instance bucket : R2 := {|
  range_get key off len := if String.eqb key (key_pack "repo" "P") then Ok (Some (slice object off len)) else Ok None |}.
Definition start : Db :=
  on_jobs (fun _ => [mkJob 1 "gc_consolidate" 0 0 None "{}" Running None (Some 0) (Some "L") 0])
  (on_meta (fun _ => {["refs_version" := "0"; "gc.refs_version" := "0"; "gc.chain" := "c0"; "gc.started_at" := "1";
                       "gc.barrier" := "1"; "gc.phase" := "build"]})
  (on_marked (fun _ => {["P" := mkMarked [11] None]})
  (on_packs (fun _ => {["P" := mkPack Live 4 300 0 0 None 0 None]})
  (on_objects (fun _ => {[(C, "P") := mkObj 0 12 4 1 1; (T, "P") := mkObj 1 16 4 2 1;
                          (G, "P") := mkObj 2 20 4 3 1; (B, "P") := mkObj 3 24 4 3 1]}) empty_db)))).
Definition job : Job := mkJobRec 1 GcConsolidate 0 0 None "{}" "L".
(** The world: the keys R2 holds. *)
Abbreviation W := (gset string).
Definition charge1 (w : W) : W * result Error unit := (w, Ok tt).
Definition clock (_ : W) : Z := 5.
Definition spent (_ : W) : bool := false.
Definition others (w : W) (d : Db) : W * Db := (w, d).
Definition new_upload (_ : W) (_ : string) : result Error Mpu := Ok (∅ : gmap Z (list Z)).
Definition open_upload (_ : W) (_ _ : string) : result Error Mpu := Ok (∅ : gmap Z (list Z)).
Definition upload_id (_ : Mpu) : string := "u".
Definition completed (k : string) (w : W) : W := {[k]} ∪ w.
Definition head_object (k : string) : M W Error (option Z) := fun w => (w, Ok (if bool_decide (k ∈ w) then Some 1 else None)).
Definition fresh (w : W) : result Error string := if bool_decide (key_pack "repo" "N" ∈ w) then Err (Internal "rng") else Ok "N".
Definition in_bucket (w : W) (k : string) : Prop := k ∈ w.
Lemma demo_world : world_ok W charge1 others completed head_object fresh "repo" "c0" in_bucket.
Proof.
  split; unfold shrinks, in_bucket; cbn; try done.
  - intros k w. split; [done|]. intros n. case_bool_decide; [done|]. by intros [=].
  - unfold completed. set_solver.
  - intros w N. unfold fresh. case_bool_decide; [done|]. by intros [= <-].
Qed.
Lemma start_state : BuildState (sealed W "repo" in_bucket ∅) start.
Proof.
  assert (StoreWf (fun _ => []) start) as [W1 W2 W3 W4] by (apply index_check_wf; vm_compute; reflexivity).
  assert (forall p m, t_marked start !! p = Some m -> p = "P" /\ m = mkMarked [11] None) as Hm.
  { intros p m E. change (({["P" := mkMarked [11] None]} : gmap string MarkedSql) !! p = Some m) in E.
    by apply lookup_singleton_Some in E as [<- <-]. }
  assert (forall s p, is_Some (t_objects start !! (s, p)) -> p = "P") as Ho.
  { intros s p [o E]. cbn in E. repeat (rewrite lookup_insert_Some in E; destruct E as [[[= <- <-] _]|[_ E]]; [done|]).
    by apply lookup_singleton_Some in E as [[= <- <-] _]. }
  split; [split| |vm_compute; reflexivity|intros N E; vm_compute in E; discriminate E|intros j p E; vm_compute in E; discriminate E|intros _; vm_compute; reflexivity].
  - intros s p o _ E. by apply (W3 s p).
  - intros s s' p o o' _ E E' Ei. by apply (W2 s s' p o o').
  - intros s p o _ E. by apply (W4 s p o).
  - vm_compute. discriminate.
  - intros p m [-> ->]%Hm. split; vm_compute; discriminate.
  - split; [intros p s Hs; rewrite (Ho s p Hs)|intros p Hp; unfold in_marked in Hp; destruct (t_marked start !! p) eqn:E; [|done]; destruct (Hm _ _ E) as [-> _]];
      unfold known; vm_compute; by eexists.
Qed.
Abbreviation run := (gc_consolidate W charge1 clock spent others new_upload open_upload upload_id completed head_object fresh "repo" job 3 5 (start, ∅)).
End BuildDemo.
Import BuildDemo.
Lemma consolidate_keeps_witness :
  run.2 = Ok (Some Done) /\ t_meta run.1.1 !! "gc.phase" = Some "sweep" /\ build_ok run.1.1 /\ copy_inv run.1.1.
Proof.
  split; [vm_compute; reflexivity|]. assert (t_meta run.1.1 !! "gc.phase" = Some "sweep") as Hp by (vm_compute; reflexivity). split; [exact Hp|].
  refine (proj2 (consolidate_keeps W charge1 clock spent others new_upload open_upload upload_id completed head_object fresh "repo" job "c0" in_bucket
    demo_world 3 5 start ∅ _ start_state _ _) Hp); [vm_compute; reflexivity|vm_compute; discriminate|vm_compute; reflexivity].
Defined.
