(* ===== verification/Ingest.v ===== *)
(** * Receiving a pack

    [server/src/pack/ingest.rs] and [server/src/pack/run.rs] as the edge runs them
    for a push.  Pass A streams the request body to R2 and records where each
    entry lies; pass B resolves every entry, deltas against bases in the pack or
    in the repository, writes it undeltified to the pack the repository keeps and
    posts its index row; [run] then checks that every object the push refers to
    is there.

    gix's pack reader, zlib and collision detection are the class [GixPack]. A
    SHA-1 or SHA-256 of gix is the one of [Sha]. *)
From S2P Require Import Prelude Errors Text Db Jobs Cohort GcBase Compact Refs Push PushFacts Memo Wire WireFacts Receive Sha Writer Reads Mark.
Open Scope Z_scope.

Inductive Header : Type := HCommit | HTree | HBlob | HTag | HOfs (distance : Z) | HRef (base : string).
#[export] Instance header_eq_dec : EqDecision Header.
Proof. solve_decision. Defined.
(** Where opening a pack held in memory can fail. *)
Inductive FileError : Type := EFile (m : string) | EEntry (m : string) | EDecode (m : string).
Class GixPack : Type := {
  header_decode : list Z -> result string (Z * Z);
  pack_entry : HashKind -> list Z -> result string (Header * Z * Z);
  header_bytes : Header -> Z -> list Z;
  deflate_stored : list Z -> list Z;
  base_offset : Z -> Z -> option Z;
  file_decode : HashKind -> list Z -> Z -> result FileError (Kind * list Z);
  zstream : Type;
  z_new : zstream;
  z_step : zstream -> list Z -> Z -> result string (zstream * Z * list Z * bool);
  sha_collision : list Z -> bool
}.

Record EntryRec : Type := mkEntry { er_offset : Z; er_hlen : Z; er_header : Header; er_clen : Z; er_size : Z }.
Definition MAX_ENTRIES : nat := Z.to_nat 750000.
Definition MAX_OBJ : Z := 16 * 2 ^ 20.
Definition MAX_STREAM_BLOB : Z := 2 ^ 31.
Definition MAX_CHAIN_LIVE : Z := 128 * 2 ^ 20.
Definition MAX_PENDING : Z := 2 ^ 31.
Definition CACHE : Z := 48 * 2 ^ 20.
Definition MAX_DEPTH : nat := 64.
Definition MAX_CHAIN_BYTES : Z := 64 * 2 ^ 20.
Definition MAX_LINKS : Z := 1000000.

Definition bytes_of (s : string) : list Z := map byte_val (list_ascii_of_string s).
Definition consume (n : nat) (b : BodyReader) : BodyReader :=
  mkBody (bd_stream b) (str_drop n (bd_buf b)) (bd_eof b) (bd_total b).
Fixpoint hex_digest (d : list Z) : string :=
  match d with [] => "" | b :: d' => String (hex_digit (b / 16)) (String (hex_digit (b mod 16)) (hex_digest d')) end.
Definition kind_name (k : Kind) : string :=
  match k with Commit => "commit" | Tree => "tree" | Blob => "blob" | Tag => "tag" end.
(** The loose-object header: kind, decimal size, NUL. *)
Definition loose_header (k : Kind) (size : Z) : list Z :=
  bytes_of (kind_name k +:+ " " +:+ z_to_string size) ++ [0].

Section Gix.
Context `{GP : GixPack}.
(** [gix_hash::Hasher::try_finalize] over everything hashed. *)
Definition finalize (kind : HashKind) (bs : list Z) : option (list Z) :=
  if sha_collision bs then None else Some (digest kind bs).
(** [gix_object::compute_hash]. *)
Definition object_id (hk : HashKind) (k : Kind) (data : list Z) : option string :=
  hex_digest <$> finalize hk (loose_header k (Z.of_nat (length data)) ++ data).
Definition of_kind (k : Kind) : Header :=
  match k with Commit => HCommit | Tree => HTree | Blob => HBlob | Tag => HTag end.
Definition is_delta (h : Header) : bool := match h with HOfs _ | HRef _ => true | _ => false end.
Definition unpack {A} (m : string) : result Error A := Err (Unpack m).
Definition unpack_of {A} (r : result string A) : result Error A := match r with Ok a => Ok a | Err m => Err (Unpack m) end.
Definition opt_or {A} (e : Error) (o : option A) : result Error A := match o with Some a => Ok a | None => Err e end.
End Gix.

(** ** Pass A: the body to R2 *)

Section PassA.
Context `{PC : PackCodec} `{MP : Multipart} `{GP : GixPack}.
Context (B : Type) (charge1 : B -> B * result Error unit) (kind : HashKind).
Record As : Type := mkAs { as_body : BodyReader; as_raw : RawWriter; as_hashed : list Z; as_b : B }.
Abbreviation AM := (M As Error).
Definition a_fill (n : Z) : AM bool := fun s =>
  let r := fill n (as_body s) in (mkAs r.1 (as_raw s) (as_hashed s) (as_b s), r.2).
Definition a_buffered : AM string := gets (fun s => buffered (as_body s)).
Definition a_flush : AM unit := fun s =>
  let r := raw_flush_if_full B charge1 (as_raw s, as_b s) in (mkAs (as_body s) r.1.1 (as_hashed s) r.1.2, r.2).
(** [take]: [n] buffered bytes are hashed, staged and consumed. *)
Definition take_bytes (n : nat) : AM unit :=
  buf ← a_buffered;
  if (String.length buf <? n)%nat then lift (unpack "pack truncated")
  else
    let bs := bytes_of (str_take n buf) in
    modify (fun s => mkAs (consume n (as_body s)) (raw_append bs (as_raw s)) (as_hashed s ++ bs) (as_b s)) ≫= fun _ =>
    a_flush.
Definition at_pos (what : string) (pos : Z) (m : string) : string := what +:+ z_to_string pos +:+ m.
(** The zlib stream of one entry.  [None]: [fuel] steps did not end it. *)
Fixpoint inflate_entry (fuel : nat) (z : zstream) (pos clen made : Z) : AM (option (Z * Z)) :=
  match fuel with
  | O => mret None
  | S fuel' =>
      buf ← a_buffered;
      ok ← (if str_empty buf then a_fill 1 else mret true);
      if negb ok then lift (unpack "pack truncated inside object")
      else
        buf ← a_buffered;
        r ← lift (match z_step z (bytes_of buf) (64 * 1024) with
                  | Ok r => Ok r | Err e => unpack (at_pos "zlib at " pos (": " +:+ e)) end);
        let '(z', used, out, ended) := r in
        if (used =? 0) && (length out =? 0)%nat then lift (unpack (at_pos "zlib stalled at " pos ""))
        else
          take_bytes (Z.to_nat used) ≫= fun _ =>
          total ← gets (fun s => bd_total (as_body s));
          if MAX_PENDING <? total then fail (Limit "pack exceeds the 2 GiB limit")
          else
            let clen := sat_addu64 clen used in
            let made := sat_addu64 made (Z.of_nat (length out)) in
            if (ended : bool) then mret (Some (clen, made)) else inflate_entry fuel' z' pos clen made
  end.
Definition read_entry (fuel : nat) (pos : Z) : AM (option EntryRec) :=
  a_fill 30 ≫= fun _ =>
  buf ← a_buffered;
  e ← lift (match pack_entry kind (bytes_of buf) with
            | Ok e => Ok e | Err m => unpack (at_pos "entry at " pos (": " +:+ m)) end);
  let '(header, size, hlen) := e in
  let streamable := bool_decide (header = HBlob) in
  if MAX_STREAM_BLOB <? size then fail (Limit "object too large (2 GiB max)")
  else if (MAX_OBJ <? size) && negb streamable then fail (Limit "object too large (16 MiB max)")
  else
    take_bytes (Z.to_nat hlen) ≫= fun _ =>
    r ← inflate_entry fuel z_new pos 0 0;
    match r with
    | None => mret None
    | Some (clen, made) =>
        if negb (made =? size) then lift (unpack (at_pos "object at " pos ": size mismatch"))
        else if (MAX_ENTRY_WIRE <? clen) && negb streamable then lift (unpack (at_pos "entry at " pos ": wire size exceeds 32 MiB"))
        else if 255 <? hlen then lift (unpack "header too long")
        else if u32_max <? clen then fail (Limit "entry too large")
        else mret (Some (mkEntry pos hlen header clen size))
    end.
Fixpoint read_recs (fuel : nat) (count : nat) (pos : Z) (recs : list EntryRec) : AM (option (list EntryRec)) :=
  match count with
  | O => mret (Some recs)
  | S count' =>
      if (MAX_ENTRIES <=? length recs)%nat then lift (unpack "too many objects")
      else
        r ← read_entry fuel pos;
        match r with
        | None => mret None
        | Some e => read_recs fuel count' (sat_addu64 (sat_addu64 pos (er_hlen e)) (er_clen e)) (recs ++ [e])
        end
  end.
Definition stream_inner (fuel : nat) : AM (option (list EntryRec * Z)) :=
  let ds := hash_len kind in
  ok ← a_fill 12;
  if negb ok then lift (unpack "pack header truncated")
  else
    buf ← a_buffered;
    h ← lift (unpack_of (header_decode (take 12 (bytes_of buf))));
    let '(version, count) := h in
    if negb (version =? 2) then lift (unpack "pack version")
    else
      take_bytes 12 ≫= fun _ =>
      recs ← read_recs fuel (Z.to_nat count) 12 [];
      match recs with
      | None => mret None
      | Some recs =>
          ok ← a_fill ds;
          if negb ok then lift (unpack "pack trailer truncated")
          else
            s ← gets (fun s => s);
            want ← lift (opt_or (Unpack "hash collision in pack") (finalize kind (as_hashed s)));
            buf ← a_buffered;
            if negb (bool_decide (take (Z.to_nat ds) (bytes_of buf) = want)) then lift (unpack "bad pack checksum")
            else
              modify (fun s => mkAs (consume (Z.to_nat ds) (as_body s)) (raw_append want (as_raw s)) (as_hashed s) (as_b s)) ≫= fun _ =>
              more ← a_fill 1;
              if (more : bool) then fail (Protocol "bytes after pack trailer")
              else mret (Some (recs, count))
      end.
(** [stream_to_pending]: an error aborts the upload.  The staged object is
    answered beside the records. *)
Definition stream_to_pending (fuel : nat) (upload : result Error Mpu) (body : BodyReader) (b : B) :
    BodyReader * B * result Error (option (list EntryRec * Z * list Z)) :=
  match raw_create B charge1 upload b with
  | (b1, Err e) => (body, b1, Err e)
  | (b1, Ok w) =>
      match stream_inner fuel (mkAs body w [] b1) with
      | (s, Err e) => (as_body s, as_b s, Err e)
      | (s, Ok None) => (as_body s, as_b s, Ok None)
      | (s, Ok (Some (recs, count))) =>
          match raw_finish B charge1 (as_raw s, as_b s) with
          | (s2, Err e) => (as_body s, s2.2, Err e)
          | (s2, Ok obj) => (as_body s, s2.2, Ok (Some (recs, count, obj)))
          end
      end
  end.
End PassA.

(** ** Pass B: the cache *)

Inductive Key : Type := KOff (o : Z) | KId (id : string).
#[export] Instance key_eq_dec : EqDecision Key.
Proof. solve_decision. Defined.
#[export] Instance key_countable : Countable Key.
Proof.
  refine (inj_countable' (fun k => match k with KOff o => inl o | KId i => inr i end)
            (fun s => match s with inl o => KOff o | inr i => KId i end) _). by intros [].
Defined.
Abbreviation Obj := (Kind * list Z)%type.
Record Cache : Type := mkCache { ca_bytes : Z; ca_map : gmap Key Obj; ca_order : list Key }.
Definition cache0 : Cache := mkCache 0 ∅ [].
Definition cache_get (k : Key) (c : Cache) : option Obj := ca_map c !! k.
(** Oldest first, while over [CACHE] bytes; a key already gone ends the loop. *)
Fixpoint evict (order : list Key) (c : Cache) : Cache :=
  if CACHE <? ca_bytes c then
    match order with
    | k :: order' =>
        match ca_map c !! k with
        | Some o => evict order' (mkCache (sat_subu64 (ca_bytes c) (Z.of_nat (length o.2))) (delete k (ca_map c)) order')
        | None => mkCache (ca_bytes c) (ca_map c) order'
        end
    | [] => c
    end
  else c.
Definition cache_put (k : Key) (o : Obj) (c : Cache) : Cache :=
  let order := ca_order c ++ [k] in
  evict order (mkCache (ca_bytes c + Z.of_nat (length o.2)) (insert k o (ca_map c)) order).

(** ** Pass B: resolving *)

Inductive Base : Type := BReady (o : Obj) | BAwait (id : string).
Inductive StepOut : Type := StDone (id : string) | StAwait (base : string).

Section PassB.
Context `{PF : Platform} `{PC : PackCodec} `{MP : Multipart} `{RR : R2} `{GP : GixPack} `{GO : GitObjects}.
Context (W : Type) (charge1 : W -> W * result Error unit).
(** The stub's [/_do/push/index] and [/_do/push/lookup]. *)
Context (post_index : PackMeta -> list ObjRow -> M W Error unit).
Context (repo : string) (toc : list EntryRec) (externals : gmap string ObjLoc) (obj_kind : HashKind).

(** [[PACK v2][base, stored][the entry re-headed][zero trailer]] handed to gix. *)
Definition decode_mini (base : option Obj) (raw : list Z) : result Error Obj :=
  let head := [80; 65; 67; 75; 0; 0; 0; 2; 0; 0; 0; 2] in
  let mini := match base with
              | Some (k, d) => head ++ header_bytes (of_kind k) (Z.of_nat (length d)) ++ deflate_stored d
              | None => head
              end in
  let at_ := Z.of_nat (length mini) in
  e ← unpack_of (pack_entry obj_kind raw);
  let '(header, size, hlen) := e in
  if Z.of_nat (length raw) <? hlen then unpack "short entry"
  else
    hdr ← (match is_delta header, base with
           | true, Some _ => Ok (HOfs (sat_subu64 at_ 12))
           | true, None => unpack "delta without base"
           | false, _ => Ok header
           end);
    let mini := mini ++ header_bytes hdr size ++ drop (Z.to_nat hlen) raw ++ repeat 0 (Z.to_nat (hash_len obj_kind)) in
    match file_decode obj_kind mini at_ with
    | Ok o => Ok o
    | Err (EFile m) => Err (Internal m)
    | Err (EEntry m) => unpack m
    | Err (EDecode m) => unpack ("delta: " +:+ m)
    end.

Record Cx : Type := mkCx { cx_win : Window; cx_cache : Cache; cx_by_id : gmap string nat; cx_live : Z; cx_w : W }.
Abbreviation XM := (M Cx Error).
Definition put_cache (k : Key) (o : Obj) : XM unit :=
  modify (fun s => mkCx (cx_win s) (cache_put k o (cx_cache s)) (cx_by_id s) (cx_live s) (cx_w s)).
Definition cached (k : Key) : XM (option Obj) := gets (fun s => cache_get k (cx_cache s)).
Definition set_live (f : Z -> Z) : XM unit :=
  modify (fun s => mkCx (cx_win s) (cx_cache s) (cx_by_id s) (f (cx_live s)) (cx_w s)).
Definition win_entry (rec : EntryRec) : XM (list Z) := fun s =>
  let r := window_entry W charge1 (er_offset rec) (er_hlen rec) (er_clen rec) (cx_win s, cx_w s) in
  (mkCx r.1.1 (cx_cache s) (cx_by_id s) (cx_live s) r.1.2, r.2).
Definition win_read (off n : Z) : XM (list Z) := fun s =>
  let r := source_read W charge1 (wn_src (cx_win s)) off n (cx_w s) in
  (mkCx (cx_win s) (cx_cache s) (cx_by_id s) (cx_live s) r.1, r.2).
Definition on_w {A} (m : M W Error A) : XM A := fun s =>
  let r := m (cx_w s) in (mkCx (cx_win s) (cx_cache s) (cx_by_id s) (cx_live s) r.1, r.2).

(** [binary_search_by_key] over offsets that increase. *)
Definition by_off (off : Z) : option EntryRec := List.find (fun r => er_offset r =? off) toc.
Definition by_idx (i : nat) : option EntryRec := toc !! i.

Definition external (id : string) : XM Obj :=
  hit ← cached (KId id);
  match hit with
  | Some o => mret o
  | None =>
      loc ← lift (opt_or (Unpack ("missing base " +:+ id)) (externals !! id));
      if MAX_OBJ <? lc_size loc
      then lift (unpack ("delta base " +:+ id +:+ " exceeds 16 MiB; push the object as a full blob (e.g. git -c core.bigFileThreshold=1 push)"))
      else
        es ← on_w (read_entries W charge1 repo [(id, loc)]);
        e ← lift (opt_or (Storage "base read") (last es));
        o ← lift (decode_entry e.2);
        put_cache (KId id) o ≫= fun _ => mret o
  end.
(** [nested j]: the entry [j] resolved one hop deeper. *)
Definition base_by_id (nested : nat -> XM Base) (id : string) : XM Base :=
  hit ← cached (KId id);
  match hit with
  | Some o => mret (BReady o)
  | None =>
      j ← gets (fun s => cx_by_id s !! id);
      match j with
      | Some j => nested j
      | None => if is_some (externals !! id) then o ← external id; mret (BReady o) else mret (BAwait id)
      end
  end.
(** Applying the chain, innermost base first. *)
Fixpoint apply_chain (chain : list (Z * list Z)) (kind : Kind) (data : list Z) : XM (list Z) :=
  match chain with
  | [] => mret data
  | (o, raw) :: chain' =>
      r ← lift (decode_mini (Some (kind, data)) raw);
      put_cache (KOff o) (kind, r.2) ≫= fun _ => apply_chain chain' kind r.2
  end.
Definition chain_done (chain : list (Z * list Z)) (bytes : Z) (o : Obj) : XM Base :=
  d ← apply_chain chain o.1 o.2;
  set_live (fun l => sat_subu64 l bytes) ≫= fun _ =>
  mret (BReady (o.1, d)).
(** The walk back to a cached or full entry; [left] entries may still join the
    chain, newest first. *)
Fixpoint walk (nested : nat -> XM Base) (left : nat) (off : Z) (chain : list (Z * list Z)) (bytes : Z) : XM Base :=
  hit ← cached (KOff off);
  match hit with
  | Some o => chain_done chain bytes o
  | None =>
      match left with
      | O => lift (unpack "delta chain too deep")
      | S left' =>
          rec ← lift (opt_or (Unpack "delta base is not an entry") (by_off off));
          raw ← win_entry rec;
          let bytes := sat_addu64 bytes (Z.of_nat (length raw)) in
          set_live (fun l => sat_addu64 l (Z.of_nat (length raw))) ≫= fun _ =>
          live ← gets cx_live;
          if (MAX_CHAIN_BYTES <? bytes) || (MAX_CHAIN_LIVE <? live)
          then set_live (fun l => sat_subu64 l bytes) ≫= fun _ => lift (unpack "delta chain too large")
          else
            match er_header rec with
            | HOfs dist =>
                off' ← lift (opt_or (Unpack "bad ofs-delta") (base_offset off dist));
                walk nested left' off' ((off, raw) :: chain) bytes
            | HRef id =>
                b ← base_by_id nested id;
                match b with
                | BAwait id => set_live (fun l => sat_subu64 l bytes) ≫= fun _ => mret (BAwait id)
                | BReady o => chain_done ((off, raw) :: chain) bytes o
                end
            | _ =>
                if MAX_OBJ <? er_size rec then lift (unpack "delta base exceeds 16 MiB and cannot be resolved")
                else
                  o ← lift (decode_mini None raw);
                  put_cache (KOff off) o ≫= fun _ => chain_done chain bytes o
            end
      end
  end.
(** [hops] counts [res_depth] down from [MAX_DEPTH]. *)
Fixpoint resolve_at (hops : nat) (start : Z) : XM Base :=
  walk (fun j => match hops with
                 | O => lift (unpack "delta chain too deep")
                 | S h => rec ← lift (opt_or (Internal "by_id idx") (by_idx j)); resolve_at h (er_offset rec)
                 end) MAX_DEPTH start [] 0.
Definition hop (hops : nat) (j : nat) : XM Base :=
  match hops with
  | O => lift (unpack "delta chain too deep")
  | S h => rec ← lift (opt_or (Internal "by_id idx") (by_idx j)); resolve_at h (er_offset rec)
  end.

(** ** Pass B: one entry *)

Record Bst : Type := mkBst { st_cx : Cx; st_out : PackWriter; st_links : list string; st_tags : gmap string string; st_rows : list ObjRow }.
Abbreviation IM := (M Bst Error).
Definition on_cx {A} (m : XM A) : IM A := fun s =>
  let r := m (st_cx s) in (mkBst r.1 (st_out s) (st_links s) (st_tags s) (st_rows s), r.2).
Definition set_w (w : W) (c : Cx) : Cx := mkCx (cx_win c) (cx_cache c) (cx_by_id c) (cx_live c) w.
Definition on_pack {A} (m : M (PackWriter * W) Error A) : IM A := fun s =>
  let r := m (st_out s, cx_w (st_cx s)) in
  (mkBst (set_w r.1.2 (st_cx s)) r.1.1 (st_links s) (st_tags s) (st_rows s), r.2).
Definition push_links (links : list string) : IM unit :=
  modify (fun s => mkBst (st_cx s) (st_out s) (st_links s ++ links) (st_tags s) (st_rows s)) ≫= fun _ =>
  n ← gets (fun s => Z.of_nat (length (st_links s)));
  if MAX_LINKS <? n then fail (Limit "push references too many objects (1,000,000 max)") else mret tt.
Definition push_row (r : ObjRow) : IM unit :=
  modify (fun s => mkBst (st_cx s) (st_out s) (st_links s) (st_tags s) (st_rows s ++ [r])).
Definition EMPTY_META : PackMeta := mkPackMeta "" None 0 0 u64_max 0 0.
(** [post_meta]: the bound on links again, then the stub. *)
Definition post_meta (m : PackMeta) (rows : list ObjRow) : IM unit :=
  n ← gets (fun s => Z.of_nat (length (st_links s)));
  if MAX_LINKS <? n then fail (Limit "push references too many objects (1,000,000 max)")
  else on_cx (on_w (post_index m rows)).
Definition post_full : IM unit :=
  rows ← gets st_rows;
  if Z.of_nat (length rows) <? 10000 then mret tt
  else post_meta EMPTY_META rows ≫= fun _ =>
       modify (fun s => mkBst (st_cx s) (st_out s) (st_links s) (st_tags s) []).
Definition learn (need_ids : bool) (id : string) (i : nat) : IM unit :=
  if need_ids
  then on_cx (modify (fun s => mkCx (cx_win s) (cx_cache s) (insert id i (cx_by_id s)) (cx_live s) (cx_w s)))
  else mret tt.
Definition to_idx (i : nat) : result Error Z :=
  if Z.of_nat i <=? u32_max then Ok (Z.of_nat i) else unpack "too many objects".

(** Inflating one chunk of a streamed blob: the bytes made, the stream, whether it
    ended, the input taken so far.  Each turn takes input or makes output, of
    which at most [size] bytes: their sum and two is enough fuel. *)
Fixpoint inflate_chunk (fuel : nat) (z : zstream) (inp : list Z) (pos size : Z) (data : list Z) (taken : Z) :
    result Error (zstream * list Z * Z * bool) :=
  match fuel with
  | O => Err (Internal "zlib input")
  | S fuel' =>
      r ← (match z_step z inp (2 ^ 20) with Ok r => Ok r | Err e => unpack (at_pos "zlib at " pos (": " +:+ e)) end);
      let '(z', used, out, ended) := r in
      let data := data ++ out in
      if size <? Z.of_nat (length data) then unpack (at_pos "object at " pos ": size mismatch")
      else if Z.of_nat (length inp) <? used then Err (Internal "zlib input")
      else
        let inp' := drop (Z.to_nat used) inp in
        if (length inp' =? 0)%nat || ended then Ok (z', data, taken + used, ended)
        else if (used =? 0) && (length out =? 0)%nat then unpack (at_pos "zlib stalled at " pos "")
        else inflate_chunk fuel' z' inp' pos size data (taken + used)
  end.
(** The body of a streamed blob, in reads of at most [WINDOW] bytes: copied
    verbatim, less the first [skip] bytes, and inflated to be hashed. *)
Fixpoint stream_body (fuel : nat) (rec : EntryRec) (z : zstream) (pos e skip taken : Z) (data : list Z) (ended : bool) :
    IM (Z * list Z * bool) :=
  match fuel with
  | O => mret (taken, data, ended)
  | S fuel' =>
      if negb (pos <? e) || ended then mret (taken, data, ended)
      else
        let n := Z.min (sat_subu64 e pos) WINDOW in
        chunk ← on_cx (win_read pos n);
        r ← lift (inflate_chunk (length chunk + Z.to_nat (er_size rec) + 2) z chunk pos (er_size rec) data taken);
        let '(z', data', taken', ended') := r in
        let s := Z.min skip (Z.of_nat (length chunk)) in
        on_pack (on_writer W (raw_extend (drop (Z.to_nat s) chunk))) ≫= fun _ =>
        on_pack (flush_if_full W charge1) ≫= fun _ =>
        stream_body fuel' rec z' (sat_addu64 pos n) e (skip - s) taken' data' ended'
  end.
Definition stream_blob (rec : EntryRec) (i : nat) (need_ids : bool) (skip : Z) : IM StepOut :=
  s0 ← gets (fun s => s);
  let start := sat_subu64 (pw_offset (st_out s0)) skip in
  let body := sat_addu64 (er_offset rec) (er_hlen rec) in
  let e := sat_addu64 body (er_clen rec) in
  hdr ← on_cx (win_read (er_offset rec) (er_hlen rec));
  let s := Z.min skip (Z.of_nat (length hdr)) in
  on_pack (on_writer W (raw_extend (drop (Z.to_nat s) hdr))) ≫= fun _ =>
  r ← stream_body (Z.to_nat (er_clen rec) + 1) rec z_new body e (skip - s) 0 [] false;
  let '(taken, data, ended) := r in
  if negb ended || negb (Z.of_nat (length data) =? er_size rec) || negb (taken =? er_clen rec)
  then lift (unpack (at_pos "object at " (er_offset rec) ": size mismatch"))
  else
    id ← lift (opt_or (Unpack "sha1 collision") (hex_digest <$> finalize obj_kind (loose_header Blob (er_size rec) ++ data)));
    p ← on_pack (raw_entry_done W Blob start);
    idx ← lift (to_idx i);
    push_row (mkObjRow id idx p.1 p.2 Blob (er_size rec) None) ≫= fun _ =>
    learn need_ids id i ≫= fun _ =>
    post_full ≫= fun _ =>
    mret (StDone id).
(** The object appended, or only its bytes past [skip]. *)
Definition append_from (kind : Kind) (data : list Z) (skip : Z) : IM (Z * Z) :=
  if skip =? 0 then on_pack (append_entry W kind data)
  else
    let enc := encode_entry kind data [] in
    let tail := Z.min skip (Z.of_nat (length enc)) in
    s ← gets (fun s => s);
    let start := sat_subu64 (pw_offset (st_out s)) tail in
    on_pack (on_writer W (raw_extend (drop (Z.to_nat tail) enc))) ≫= fun _ =>
    on_pack (raw_entry_done W kind start).
Definition entry_base (rec : EntryRec) : IM (option Base) :=
  match er_header rec with
  | HOfs dist =>
      off ← lift (opt_or (Unpack "bad ofs-delta") (base_offset (er_offset rec) dist));
      b ← on_cx (resolve_at MAX_DEPTH off); mret (Some b)
  | HRef id => b ← on_cx (base_by_id (hop MAX_DEPTH) id); mret (Some b)
  | _ => mret None
  end.
Definition emit (rec : EntryRec) (i : nat) (need_ids : bool) (skip : Z) (base : option Obj) : IM StepOut :=
  raw ← on_cx (win_entry rec);
  o ← lift (decode_mini base raw);
  id ← lift (opt_or (Unpack "hash collision") (object_id obj_kind o.1 o.2));
  links ← lift (extract_links o.1 o.2 obj_kind);
  let parents := if bool_decide (o.1 = Commit) then Some (drop 1 links) else None in
  modify (fun s => mkBst (st_cx s) (st_out s) (st_links s)
    (match o.1, links with Tag, t :: _ => insert id t (st_tags s) | _, _ => st_tags s end) (st_rows s)) ≫= fun _ =>
  push_links links ≫= fun _ =>
  p ← append_from o.1 o.2 skip;
  on_pack (flush_if_full W charge1) ≫= fun _ =>
  idx ← lift (to_idx i);
  push_row (mkObjRow id idx p.1 p.2 o.1 (Z.of_nat (length o.2)) parents) ≫= fun _ =>
  learn need_ids id i ≫= fun _ =>
  on_cx (put_cache (KOff (er_offset rec)) o) ≫= fun _ =>
  post_full ≫= fun _ =>
  mret (StDone id).
Definition one_entry (i : nat) (need_ids : bool) (skip : Z) : IM StepOut :=
  rec ← lift (opt_or (Internal "idx") (by_idx i));
  if bool_decide (er_header rec = HBlob) && (MAX_OBJ <? er_size rec) then stream_blob rec i need_ids skip
  else
    base ← entry_base rec;
    match base with
    | Some (BAwait id) => mret (StAwait id)
    | Some (BReady o) => emit rec i need_ids skip (Some o)
    | None => emit rec i need_ids skip None
    end.

(** ** Pass B: the loop *)

(** An entry whose base is not there yet waits under the base's id; resolving an
    entry wakes its waiters.  [None]: out of fuel. *)
Fixpoint resolve_loop (fuel : nat) (need_ids : bool) (queue : list nat) (waiting : gmap string (list nat)) :
    IM (option (gmap string (list nat))) :=
  match queue with
  | [] => mret (Some waiting)
  | i :: queue' =>
      match fuel with
      | O => mret None
      | S fuel' =>
          r ← one_entry i need_ids 0;
          match r with
          | StDone id => resolve_loop fuel' need_ids (queue' ++ unwrap_or [] (waiting !! id)) (delete id waiting)
          | StAwait b => resolve_loop fuel' need_ids queue' (insert b (unwrap_or [] (waiting !! b) ++ [i]) waiting)
          end
      end
  end.
(** The bases to read ahead, in the map's iteration order, up to 32 MiB. *)
Fixpoint prefetch_list (bases : list (string * ObjLoc)) (sum : Z) : list (string * ObjLoc) :=
  match bases with
  | [] => []
  | b :: bases' =>
      if lc_size b.2 <=? MAX_OBJ then
        let sum' := sat_addu64 sum (lc_len b.2) in
        if 32 * 2 ^ 20 <? sum' then [] else b :: prefetch_list bases' sum'
      else prefetch_list bases' sum
  end.
Definition prefetch (bases : list (string * ObjLoc)) : IM unit := fun s =>
  match on_cx (on_w (read_entries W charge1 repo (prefetch_list bases 0))) s with
  | (s', Err _) => (s', Ok tt)
  | (s', Ok es) => for_each es (fun e => o ← lift (decode_entry e.2); on_cx (put_cache (KId e.1) o)) s'
  end.
Definition needs_ids : bool := existsb (fun r => match er_header r with HRef _ => true | _ => false end) toc.
Definition rec_end (r : EntryRec) : Z := sat_addu64 (sat_addu64 (er_offset r) (er_hlen r)) (er_clen r).
Definition pack_len : Z :=
  match last toc with
  | Some r => sat_addu64 (rec_end r) (hash_len obj_kind)
  | None => 12 + hash_len obj_kind
  end.
Definition loop_fuel : nat := S (length toc) * S (length toc).
Definition resolve_and_normalize (iter : gmap string ObjLoc -> list (string * ObjLoc)) : IM (option unit) :=
  prefetch (iter externals) ≫= fun _ =>
  w ← resolve_loop loop_fuel needs_ids (seq 0 (length toc)) ∅;
  match w with
  | None => mret None
  | Some waiting =>
      match map_to_list waiting with
      | (base, _) :: _ => lift (unpack ("missing base " +:+ base))
      | [] => mret (Some tt)
      end
  end.
Definition cx0 (key : string) (w : W) : Cx := mkCx (mkWindow (SKey key) pack_len 0 []) cache0 ∅ 0 w.
End PassB.

(** ** Phase one of a push *)

(** What becomes of a request to the repository object: it is answered; it never
    arrives; it is served and the answer is lost, or does not parse. *)
Inductive Trip : Type := Answered | Unsent (e : Error) | Unread (e : Error).
Class Stub (B : Type) : Type := trip : B -> Trip.

Section Run.
Context `{PF : Platform} `{PC : PackCodec} `{MP : Multipart} `{RR : R2} `{GP : GixPack} `{GO : GitObjects}.
Context (B : Type) `{SB : Stub B} (charge1 : B -> B * result Error unit) (now : B -> Z) (others : B -> Db -> B * Db).
Context (new_upload : B -> string -> result Error Mpu) (fresh : B -> result Error string)
  (iter : gmap string ObjLoc -> list (string * ObjLoc)).
Context (repo push : string) (kind : HashKind).
Abbreviation W := (Db * B)%type.
Definition edge_charge (w : W) : W * result Error unit := let r := charge1 w.2 in ((w.1, r.1), r.2).
(** What a handler's error is at the edge. *)
Definition relay (e : Error) : Error := (from_do_response (do_error_response e 0) (paid 0) 0).1.
(** One round trip: charged, the repository object serves others first, then the
    handler in one span, when the request arrives; a success answers JSON, which the
    edge reads back when the answer does. *)
Definition stub_json {A} (h : Z -> DoM A) : M W Error A := fun w =>
  match edge_charge w with
  | (w', Err e) => (w', Err e)
  | (w', Ok _) =>
      let bd := others w'.2 w'.1 in
      match trip bd.1 with
      | Unsent e => ((bd.2, bd.1), Err e)
      | Unread e => (((h (now bd.1) bd.2).1, bd.1), Err e)
      | Answered =>
          let r := h (now bd.1) bd.2 in
          ((r.1, bd.1), match r.2 with Ok a => Ok a | Err e => Err (relay e) end)
      end
  end.
Definition SAFE_MAX : Z := 2 ^ 53 - 1.
Definition index_pack (pack : string) (m : PackMeta) : IndexPack :=
  mkIndexPack pack (pm_count m) (pm_bytes m)
    (if pm_lo m <=? i64_max then Z.min (pm_lo m) SAFE_MAX else SAFE_MAX) (pm_hi m) push.
Definition post_to (pack : string) (m : PackMeta) (rows : list ObjRow) : M W Error unit :=
  stub_json (fun t => push_index t (index_pack pack m) rows).
Definition lookup (ids : list string) (pack : option string) : M W Error (list (string * option ObjLoc)) :=
  locs ← stub_json (fun _ => push_lookup ids pack);
  if negb (length locs =? length ids)%nat then fail (Internal "lookup length") else mret (zip ids locs).

Fixpoint dedup_sorted (l : list string) : list string :=
  match l with
  | a :: (b :: _) as l' => if String.eqb a b then dedup_sorted l' else a :: dedup_sorted l'
  | _ => l
  end.
Definition sort_dedup (l : list string) : list string := dedup_sorted (merge_sort String.le l).
Fixpoint chunks_of (fuel : nat) (n : nat) {A} (l : list A) : list (list A) :=
  match fuel, l with
  | S f, _ :: _ => take n l :: chunks_of f n (drop n l)
  | _, _ => []
  end.
Definition batches {A} (l : list A) : list (list A) := chunks_of (length l) 1000 l.
Definition delta_bases (toc : list EntryRec) : list string :=
  sort_dedup (omap (fun r => match er_header r with HRef id => Some id | _ => None end) toc).
Fixpoint find_bases (cs : list (list string)) (found : gmap string ObjLoc) : M W Error (gmap string ObjLoc) :=
  match cs with
  | [] => mret found
  | c :: cs' =>
      r ← lookup c None;
      find_bases cs' (fold_left (fun m e => match e.2 with Some l => insert e.1 l m | None => m end) r found)
  end.
(** Every object referred to is live, or in this pack. *)
Fixpoint check_links (pack : string) (cs : list (list string)) : M W Error unit :=
  match cs with
  | [] => mret tt
  | c :: cs' =>
      r ← lookup c (Some pack);
      match List.find (fun e => negb (is_some e.2)) r with
      | Some e => lift (unpack ("missing object " +:+ e.1))
      | None => check_links pack cs'
      end
  end.
Record RunSt : Type := mkRun { rs_body : BodyReader; rs_w : W }.
Abbreviation RM := (M RunSt Error).
Definition r_fill (n : Z) : RM bool := fun s => let r := fill n (rs_body s) in (mkRun r.1 (rs_w s), r.2).
Definition r_world {A} (m : M W Error A) : RM A := fun s => let r := m (rs_w s) in (mkRun (rs_body s) r.1, r.2).
Definition bytes_buffered : RM (list Z) := gets (fun s => bytes_of (buffered (rs_body s))).
(** A pack of no objects: a ref at a commit the repository has. *)
Definition empty_pack (head : list Z) : RM unit :=
  let ds := hash_len kind in
  a ← r_fill (12 + ds);
  b ← (if (a : bool) then r_fill (13 + ds) else mret true);
  if (b : bool) then lift (unpack "bad empty pack")
  else
    want ← lift (opt_or (Unpack "hash collision") (finalize kind head));
    buf ← bytes_buffered;
    if bool_decide (take (Z.to_nat ds) (drop 12 buf) = want) then mret tt else lift (unpack "bad pack checksum").
Definition do_stream (fuel : nat) : RM (option (list EntryRec)) := fun s =>
  let '(body, b, r) := stream_to_pending B charge1 kind fuel (new_upload (rs_w s).2 (key_pending repo push)) (rs_body s) (rs_w s).2 in
  (mkRun body ((rs_w s).1, b), match r with Ok (Some x) => Ok (Some x.1.1) | Ok None => Ok None | Err e => Err e end).
(** The writer and the sink live through pass B. *)
Definition do_resolve (pack : string) (toc : list EntryRec) (externals : gmap string ObjLoc) (out : PackWriter) :
    RM (option (Bst W)) := fun s =>
  let st := mkBst W (cx0 W toc kind (key_pending repo push) (rs_w s)) out [] ∅ [] in
  let r := resolve_and_normalize W edge_charge (post_to pack) repo toc externals kind iter st in
  (mkRun (rs_body s) (cx_w W (st_cx W r.1)), match r.2 with Ok (Some _) => Ok (Some r.1) | Ok None => Ok None | Err e => Err e end).
Definition create_out (pack : string) (n : nat) : M W Error PackWriter := fun w =>
  let r := create_writer B charge1 (new_upload w.2 (key_pack repo pack)) (key_pack repo pack)
             (if Z.of_nat n <=? u32_max then Z.of_nat n else u32_max) kind (now w.2) w.2 in
  ((w.1, r.1), r.2).
Definition finish_out (out : PackWriter) : M W Error (PackMeta * list Z) := fun w =>
  let r := finish W edge_charge (out, w) in (r.1.2, r.2).
(** [run] once the pack is staged. *)
Definition publish (toc : list EntryRec) : RM (option (option (string * gmap string string * list Z))) :=
  externals ← r_world (find_bases (batches (delta_bases toc)) ∅);
  s ← gets (fun s => s);
  pack ← lift (fresh (rs_w s).2);
  r_world (post_to pack EMPTY_META []) ≫= fun _ =>
  out ← r_world (create_out pack (length toc));
  r ← do_resolve pack toc externals out;
  match r with
  | None => mret None
  | Some st =>
      m ← r_world (finish_out (st_out W st));
      (if MAX_LINKS <? Z.of_nat (length (st_links W st))
       then fail (Limit "push references too many objects (1,000,000 max)")
       else r_world (post_to pack m.1 (st_rows W st))) ≫= fun _ =>
      r_world (check_links pack (batches (sort_dedup (st_links W st)))) ≫= fun _ =>
      mret (Some (Some (pack, st_tags W st, m.2)))
  end.
(** [run]: the pack to commit and the tags' targets.  The pack R2 holds is
    answered beside them.  [None] in the result: out of fuel. *)
Definition run_push (fuel : nat) : RM (option (option (string * gmap string string * list Z))) :=
  ok ← r_fill 12;
  buf ← bytes_buffered;
  if negb ok then (if (length buf =? 0)%nat then mret (Some None) else lift (unpack "pack header truncated"))
  else
    h ← lift (unpack_of (header_decode (take 12 buf)));
    if h.2 =? 0 then empty_pack (take 12 buf) ≫= fun _ => mret (Some None)
    else
      toc ← do_stream fuel;
      match toc with
      | None => mret None
      | Some toc => publish toc
      end.
End Run.
