(* ===== verification/IngestFacts.v ===== *)
(** * A pushed pack is stored as what it means

    What an entry of the received pack denotes is a definition on its own: a full
    entry is itself, a delta is applied to what its base denotes, found by offset
    or by name.  Resolution as the edge runs it -- a walk back through a sliding
    window, two caches, nested hops, entries that wait for a base that comes later
    -- yields exactly that, and pass B writes and indexes every entry once. *)
From S2P Require Import Prelude Errors Text Db Jobs Cohort GcBase Compact Refs Push PushFacts Memo Wire WireFacts Receive Sha Writer Reads Mark Ingest.
Open Scope Z_scope.

(** ** Sorted batches of ids *)

Lemma dedup_sorted_elem l x : x ∈ dedup_sorted l <-> x ∈ l.
Proof.
  induction l as [|a l IH]; [done|]. destruct l as [|b l]; [done|]. cbn [dedup_sorted].
  destruct (String.eqb_spec a b) as [->|].
  - rewrite IH. set_solver.
  - rewrite !(elem_of_cons _ _ a). by rewrite IH.
Qed.
Lemma sort_dedup_elem l x : x ∈ sort_dedup l <-> x ∈ l.
Proof. unfold sort_dedup. by rewrite dedup_sorted_elem, merge_sort_Permutation. Qed.
Lemma query_chunks_concat {A} fuel n (l : list A) : (0 < n)%nat -> (length l <= fuel)%nat -> concat (chunks_of fuel n l) = l.
Proof.
  intros Hn. revert l; induction fuel as [|f IH]; intros [|x l] Hl; try done; [cbn in Hl; lia|].
  cbn [chunks_of concat]. rewrite IH; [apply take_drop|]. rewrite length_drop. cbn in *. lia.
Qed.
Lemma batches_concat {A} (l : list A) : concat (batches l) = l.
Proof. unfold batches. apply query_chunks_concat; lia. Qed.

(** ** What gix and zlib promise *)

(** The bytes a run of the inflater takes and makes, in whatever pieces it is fed
    and drained, to the end of its stream. *)
Inductive zrun `{GixPack} : zstream -> list Z -> list Z -> Prop :=
  | zrun_end z buf cap z' used out :
      z_step z buf cap = Ok (z', used, out, true) -> zrun z (take (Z.to_nat used) buf) out
  | zrun_more z buf cap z' used out rest more :
      z_step z buf cap = Ok (z', used, out, false) -> zrun z' rest more ->
      zrun z (take (Z.to_nat used) buf ++ rest) (out ++ more).
(** [z] has taken [inp] and made [data], with more to come. *)
Definition midway `{GixPack} (z : zstream) (inp data : list Z) : Prop :=
  forall rest more, zrun z rest more -> zrun z_new (inp ++ rest) (data ++ more).
Lemma midway_step `{GixPack} z buf cap z' used out ended inp data :
  midway z inp data -> z_step z buf cap = Ok (z', used, out, ended) ->
  if ended : bool then zrun z_new (inp ++ take (Z.to_nat used) buf) (data ++ out)
  else midway z' (inp ++ take (Z.to_nat used) buf) (data ++ out).
Proof.
  intros Hm Hz. destruct ended; [apply Hm; by eapply zrun_end|].
  intros rest more Hr. rewrite <- !app_assoc. apply Hm. by eapply zrun_more.
Qed.
(** What an inflater took and made so far. *)
Inductive zpart `{GixPack} : zstream -> list Z -> list Z -> Prop :=
  | zpart_new : zpart z_new [] []
  | zpart_step z inp data buf cap z' used out ended : zpart z inp data -> z_step z buf cap = Ok (z', used, out, ended) ->
      zpart z' (inp ++ take (Z.to_nat used) buf) (data ++ out).
(** The head of the two-entry pack [decode_mini] makes. *)
Definition mini_head `{GixPack} (b : Obj) : list Z :=
  [80; 65; 67; 75; 0; 0; 0; 2; 0; 0; 0; 2] ++ header_bytes (of_kind b.1) (Z.of_nat (length b.2)) ++ deflate_stored b.2.
Class GixLaws `{PackCodec} `{GixPack} : Prop := {
  delta_kind : forall hk b size rest o, let at_ := Z.of_nat (length (mini_head b)) in
    file_decode hk (mini_head b ++ header_bytes (HOfs (sat_subu64 at_ 12)) size ++ rest) at_ = Ok o -> o.1 = b.1;
  pack_entry_local : forall hk bs h size hlen, pack_entry hk bs = Ok (h, size, hlen) ->
    0 < hlen /\ 0 <= size /\
    (hlen <= Z.of_nat (length bs) -> forall rest, pack_entry hk (take (Z.to_nat hlen) bs ++ rest) = Ok (h, size, hlen));
  pack_entry_blob : forall hk bs size hlen, pack_entry hk bs = Ok (HBlob, size, hlen) ->
    entry_from_bytes bs = Some (Some Blob, size, hlen);
  z_step_bounds : forall z buf cap z' used out ended, z_step z buf cap = Ok (z', used, out, ended) ->
    0 <= used <= Z.of_nat (length buf);
  z_ratio : forall z inp data, zpart z inp data -> (length data <= 1032 * length inp)%nat;
  z_whole : forall body data rest, zrun z_new body data ->
    inflate_once (body ++ rest) (Z.of_nat (length data)) = Some (true, Z.of_nat (length body), data)
}.

Abbreviation pc P m Q := (triple P m Q (fun _ => True)).

(** ** The cache forgets, and never invents *)

Lemma evict_sub order c k o : ca_map (evict order c) !! k = Some o -> ca_map c !! k = Some o.
Proof.
  revert c; induction order as [|k' order IH]; intros c; cbn [evict]; case_match; try done.
  destruct (ca_map c !! k') as [o'|]; [|done]. intros H1%IH. cbn in H1. by apply lookup_delete_Some in H1 as [_ ?].
Qed.
Lemma cache_put_get k o c k' o' :
  cache_get k' (cache_put k o c) = Some o' -> (k' = k /\ o' = o) \/ cache_get k' c = Some o'.
Proof.
  unfold cache_get, cache_put. intros H1%evict_sub. cbn in H1.
  apply lookup_insert_Some in H1 as [[-> ->]|[_ ?]]; auto.
Qed.

Section Denote.
Context {PF : Platform} `{PC : PackCodec} {MP : Multipart} `{RR : R2} `{GP : GixPack} {GO : GitObjects}.
Context `{GL : !GixLaws}.
Context (object : string -> option (list Z)).
Context (repo : string) (toc : list EntryRec) (externals : gmap string ObjLoc) (obj_kind : HashKind).
(** The pack as received. *)
Context (c : list Z).

Definition raw (r : EntryRec) : list Z := slice c (er_offset r) (er_hlen r + er_clen r).
(** An entry of a normalized pack read without the bound on its size. *)
Definition entry_object (bs : list Z) (o : Obj) : Prop :=
  exists hlen used, entry_from_bytes bs = Some (Some o.1, Z.of_nat (length o.2), hlen)
    /\ inflate_once (drop (Z.to_nat hlen) bs) (Z.of_nat (length o.2)) = Some (true, used, o.2).
(** What the repository holds under an id. *)
Definition stored (id : string) (o : Obj) : Prop :=
  exists loc p, externals !! id = Some loc /\ object (key_pack repo (lc_pack loc)) = Some p
    /\ decode_entry (slice p (lc_offset loc) (lc_len loc)) = Ok o.
Abbreviation entry_of := (by_off toc).
Abbreviation oid o := (object_id obj_kind o.1 o.2).

(** The object an entry stands for. *)
Inductive denotes : Z -> Obj -> Prop :=
  | d_full off r o : entry_of off = Some r -> is_delta (er_header r) = false -> er_size r <= MAX_OBJ ->
      decode_mini obj_kind None (raw r) = Ok o -> denotes off o
  | d_big off r o : entry_of off = Some r -> er_header r = HBlob -> MAX_OBJ < er_size r ->
      entry_object (raw r) o -> denotes off o
  | d_ofs off r dist off' b o : entry_of off = Some r -> er_header r = HOfs dist -> base_offset off dist = Some off' ->
      denotes off' b -> decode_mini obj_kind (Some b) (raw r) = Ok o -> denotes off o
  | d_pack off r id off' b o : entry_of off = Some r -> er_header r = HRef id ->
      denotes off' b -> oid b = Some id -> decode_mini obj_kind (Some b) (raw r) = Ok o -> denotes off o
  | d_store off r id b o : entry_of off = Some r -> er_header r = HRef id ->
      stored id b -> decode_mini obj_kind (Some b) (raw r) = Ok o -> denotes off o.

(** The entry's record agrees with its bytes; what is not a blob fits in memory. *)
Definition rec_ok (r : EntryRec) : Prop :=
  0 <= er_offset r /\ 0 < er_hlen r /\ 0 <= er_clen r /\
  pack_entry obj_kind (raw r) = Ok (er_header r, er_size r, er_hlen r) /\
  (er_header r <> HBlob -> er_size r <= MAX_OBJ) /\
  er_offset r + er_hlen r + er_clen r <= Z.of_nat (length c).
Record toc_ok : Prop := {
  to_recs : Forall rec_ok toc;
  to_nodup : NoDup (map er_offset toc);
  to_len : Z.of_nat (length c) <= u64_max
}.
Definition realized (o : Obj) : Prop := (exists off, denotes off o) \/ exists id, stored id o.
(** The repository's objects are what their ids say, and no two objects at hand
    share an id. *)
Record honest : Prop := {
  ho_locs : forall id loc, externals !! id = Some loc -> loc_ok (id, loc);
  ho_ids : forall id o, stored id o -> oid o = Some id;
  ho_inj : forall a b id, realized a -> realized b -> oid a = Some id -> oid b = Some id -> a = b
}.

Section Known.
Context (HT : toc_ok) (HH : honest).

Lemma stored_fun id a b : stored id a -> stored id b -> a = b.
Proof. intros (l & p & E1 & E2 & E3) (l' & p' & F1 & F2 & F3). simplify_eq. congruence. Qed.
Lemma entry_object_fun bs a b : entry_object bs a -> entry_object bs b -> a = b.
Proof. intros (h & u & E1 & E2) (h' & u' & F1 & F2). destruct a, b; simpl in *. simplify_eq. congruence. Qed.
Lemma entry_of_off off r : entry_of off = Some r -> er_offset r = off /\ r ∈ toc.
Proof. intros [H1 H2]%List.find_some. split; [lia|by apply list_elem_of_In]. Qed.
Lemma entry_of_rec off r : entry_of off = Some r -> rec_ok r.
Proof. intros [_ Hin]%entry_of_off. pose proof (to_recs HT) as Hr. rewrite Forall_forall in Hr. auto. Qed.
Lemma nodup_find (l : list EntryRec) i r :
  NoDup (map er_offset l) -> l !! i = Some r -> List.find (fun x => er_offset x =? er_offset r) l = Some r.
Proof.
  revert i; induction l as [|x l IH]; intros i Hn Hi; [done|]. cbn in Hn |- *. apply NoDup_cons in Hn as [Hx Hn].
  destruct i as [|i]; cbn in Hi; [injection Hi as ->; by rewrite Z.eqb_refl|].
  destruct (Z.eqb_spec (er_offset x) (er_offset r)) as [E|]; [|by eapply IH].
  destruct Hx. rewrite E. apply list_elem_of_fmap. exists r. split; [done|]. by eapply list_elem_of_lookup_2.
Qed.
Lemma idx_entry i r : toc !! i = Some r -> entry_of (er_offset r) = Some r.
Proof. apply nodup_find, (to_nodup HT). Qed.

(** An entry denotes at most one object. *)
Lemma denotes_det off a b : denotes off a -> denotes off b -> a = b.
Proof.
  intros Ha. revert b. induction Ha as [off r o E1 E2 E3 E4|off r o E1 E2 E3 E4|off r dist off' x o E1 E2 E3 Hx IH E4
    |off r id off' x o E1 E2 Hx IH E3 E4|off r id x o E1 E2 E3 E4]; intros b Hb; inversion Hb; simplify_eq;
    try (match goal with H1 : er_header r = _, H2 : is_delta (er_header r) = false |- _ => by rewrite H1 in H2 end);
    try match goal with H1 : er_header r = _, H2 : er_header r = _ |- _ => rewrite H1 in H2; simplify_eq end;
    try congruence; try lia.
  - by eapply entry_object_fun.
  - rewrite (IH b0) in E4 by congruence. congruence.
  - assert (x = b0) as -> by (eapply (ho_inj HH); [left; eauto|left; eauto|done|done]). congruence.
  - assert (x = b0) as -> by (eapply (ho_inj HH); [left; eauto|right; eauto|done|by apply (ho_ids HH)]). congruence.
  - assert (x = b0) as -> by (eapply (ho_inj HH); [right; eauto|left; eauto|by apply (ho_ids HH)|done]). congruence.
  - assert (x = b0) as -> by (by eapply stored_fun). congruence.
Qed.
(** A delta keeps its base's kind. *)
Lemma decode_mini_kind r b o :
  rec_ok r -> is_delta (er_header r) = true -> decode_mini obj_kind (Some b) (raw r) = Ok o -> o.1 = b.1.
Proof.
  intros (_ & _ & _ & Hp & _) Hd. destruct b as [k d]. unfold decode_mini. rewrite Hp. cbn [unpack_of mbind result_bind].
  case_match; [done|]. rewrite Hd. cbn [mbind result_bind].
  match goal with |- context [file_decode _ ?m ?a] => destruct (file_decode _ m a) as [o'|[]] eqn:E; try done end.
  intros [= <-]. exact (delta_kind _ (k, d) _ _ _ E).
Qed.

(** ** Resolution *)

Section Resolve.
Context `{RL : !R2Laws object}.
Context {W : Type} (charge1 : W -> W * result Error unit).
(** What is known of the world, and charging leaves it known. *)
Context (WI : W -> Prop) (WI_charge : forall w, WI w -> WI (charge1 w).1).

Record XI (s : Cx W) : Prop := {
  xi_win : window_ok object c (cx_win W s);
  xi_off : forall off o, cache_get (KOff off) (cx_cache W s) = Some o -> denotes off o;
  xi_id : forall id o, cache_get (KId id) (cx_cache W s) = Some o -> stored id o;
  xi_by : forall id i, cx_by_id W s !! id = Some i ->
    exists r o, toc !! i = Some r /\ denotes (er_offset r) o /\ oid o = Some id;
  xi_w : WI (cx_w W s)
}.

Lemma read_range_world key off n w : WI w -> WI (read_range W charge1 key off n w).1.
Proof.
  intros Hw%WI_charge. unfold read_range, bcharge, mbind, M_bind, lift, fail, mret, M_ret.
  destruct (charge1 w) as [w' [[]|]]; [|done]. destruct (range_get key off n) as [[]|]; try done. by case_match.
Qed.
Lemma read_parts_world parts base off e out w : WI w -> WI (read_parts W charge1 parts base off e out w).1.
Proof.
  revert base out w; induction parts as [|[k len] parts IH]; intros base out w Hw; [done|].
  cbn [read_parts]. unfold mbind, M_bind, mret, M_ret. destruct (_ <? _).
  - match goal with |- context [read_range W charge1 k ?o ?n w] =>
      pose proof (read_range_world k o n w Hw) as H1; destruct (read_range W charge1 k o n w) as [w' [bs|]] end; [|done].
    case_match; [done|by apply IH].
  - case_match; [done|by apply IH].
Qed.
Lemma source_read_world s off n w : WI w -> WI (source_read W charge1 s off n w).1.
Proof.
  intros Hw. destruct s as [k|parts]; cbn [source_read]; [by apply read_range_world|].
  pose proof (read_parts_world parts 0 off (sat_addu64 off n) [] w Hw) as H1.
  unfold mbind, M_bind, mret, M_ret, fail. destruct (read_parts _ _ _ _ _ _ _ w) as [w' [o|]]; [|done]. by case_match.
Qed.
Lemma window_entry_world off hlen clen x : WI x.2 -> WI (window_entry W charge1 off hlen clen x).1.2.
Proof.
  intros Hw. unfold window_entry. case_match; [done|]. case_match; [by case_match|].
  pose proof (source_read_world (wn_src x.1) off
    (Z.min (Z.max (sat_addu64 hlen clen) WINDOW) (sat_subu64 (wn_pack_len x.1) off)) x.2 Hw) as H1.
  destruct (source_read _ _ _ _ _ x.2) as [w' [bs|]]; [|done]. by case_match.
Qed.
Lemma read_spans_world f total l w : WI w -> WI (read_spans W charge1 repo f total l w).1.
Proof.
  revert total l w; induction f as [|f IH]; intros total [|a l] w Hw; try done.
  rewrite read_spans_cons. destruct (grow _ _ _ l) as [[e taken] rest]. cbv zeta. case_match; [done|].
  pose proof (read_range_world (key_pack repo (lc_pack a.2)) (lc_offset a.2) (sat_subu64 e (lc_offset a.2)) w Hw) as H1.
  unfold mbind, M_bind, lift, mret, M_ret. destruct (read_range _ _ _ _ _ w) as [w1 [bs|]]; [|done].
  destruct (collect _ _); [|done].
  specialize (IH (sat_addu64 total (sat_subu64 e (lc_offset a.2))) rest w1 H1).
  by destruct (read_spans _ _ _ f _ rest w1) as [w2 []].
Qed.
Lemma read_entries_world l w : WI w -> WI (read_entries W charge1 repo l w).1.
Proof. apply read_spans_world. Qed.

(** *** The steps of a resolution *)

Lemma cached_pc k : pc XI (cached W k) (fun r s => XI s /\ forall o, r = Some o ->
  match k with KOff off => denotes off o | KId id => stored id o end).
Proof.
  intros s Hs. split; [done|]. intros o Ho. destruct k; [by apply (xi_off _ Hs)|by apply (xi_id _ Hs)].
Qed.
Lemma put_cache_pc k o :
  match k with KOff off => denotes off o | KId id => stored id o end -> pc XI (put_cache W k o) (fun _ => XI).
Proof.
  intros Ho s [H1 H2 H3 H4 H5]. split; try done; cbn.
  - intros off o' [[<- ->]|Hc]%cache_put_get; [done|by apply H2].
  - intros id o' [[<- ->]|Hc]%cache_put_get; [done|by apply H3].
Qed.
Lemma set_live_pc f : pc XI (set_live W f) (fun _ => XI).
Proof. by intros s []. Qed.
Lemma win_entry_pc r : rec_ok r -> pc XI (win_entry W charge1 r) (fun bs s => XI s /\ bs = raw r).
Proof.
  intros (H1 & H2 & H3 & _ & _ & H4) s Hs. pose proof (to_len HT) as Hl. unfold win_entry.
  pose proof (window_entry_world (er_offset r) (er_hlen r) (er_clen r) (cx_win W s, cx_w W s) (xi_w _ Hs)) as Hw.
  destruct (window_entry W charge1 _ _ _ (cx_win W s, cx_w W s)) as [[w' b'] res] eqn:E.
  apply (window_entry_ok object _ _ c) in E as [E1 E2]; [|apply Hs|apply HT|lia|done..].
  cbn in *. destruct res as [bs|]; [|done]. split; [|by apply E2]. destruct Hs. by split.
Qed.
Lemma win_read_pc off n : 0 <= off -> 0 <= n -> off + n <= u64_max ->
  pc XI (win_read W charge1 off n) (fun bs s => XI s /\ bs = slice c off n /\ Z.of_nat (length bs) = n).
Proof.
  intros H1 H2 H3 s Hs. unfold win_read.
  pose proof (source_read_world (wn_src (cx_win W s)) off n (cx_w W s) (xi_w _ Hs)) as Hw.
  destruct (source_read W charge1 _ _ _ (cx_w W s)) as [w' res] eqn:E. cbn in *. destruct res as [bs|]; [|done].
  apply (source_read_ok object _ _ _ c) in E; [|apply (xi_win _ Hs)|apply HT|done..].
  split; [destruct Hs; by split|done].
Qed.
Lemma external_pc id : pc XI (external W charge1 repo externals id) (fun o s => XI s /\ stored id o).
Proof.
  unfold external. eapply triple_bind; [apply cached_pc|]. intros [o|].
  { intros s [Hs Ho]. split; [done|]. by apply (Ho o). }
  eapply (triple_bind _ _ (fun loc s => XI s /\ externals !! id = Some loc)).
  { intros s [Hs _]. destruct (externals !! id) as [loc|] eqn:E; [|done]. cbn. eauto. }
  intros loc. apply triple_pure. intros El. case_match; [done|].
  eapply (triple_bind _ _ (fun es s => XI s /\ exists ls, ls ≡ₚ [(id, loc)] /\ Forall2 (entry_at object repo) ls es)).
  { intros s Hs. unfold on_w. pose proof (read_entries_world [(id, loc)] (cx_w W s) (xi_w _ Hs)) as Hw.
    destruct (read_entries _ _ _ _ (cx_w W s)) as [w' [es|]] eqn:E; [|done]. cbn [fst snd] in *.
    apply (read_entries_exact_aux object) in E; [split; [destruct Hs; by split|done]|].
    constructor; [|done]. by apply (ho_locs HH). }
  intros es. apply triple_pure. intros (ls & Hp & Hf). apply Permutation_singleton_r in Hp as ->.
  apply Forall2_cons_inv_l in Hf as (e & es' & (E1 & p & E2 & E3 & E4) & Hnil & ->).
  apply Forall2_nil_inv_l in Hnil as ->. cbn [fst snd] in *.
  eapply triple_bind; [by apply triple_lift|]. intros e'. apply triple_pure. intros [= <-].
  eapply triple_bind; [by apply triple_lift|]. intros o. apply triple_pure. intros Ed.
  assert (stored id o) as Hst by (exists loc, p; subst; by rewrite E4 in Ed).
  apply (triple_bind _ _ (fun _ => XI)); [by apply put_cache_pc|]. intros _ s Hs. done.
Qed.

(** What a base given by name is. *)
Definition named (id : string) (o : Obj) : Prop := stored id o \/ (exists off, denotes off o) /\ oid o = Some id.
Definition found (P : Obj -> Prop) (b : Base) : Prop := match b with BReady o => P o | BAwait _ => True end.
Definition hops_ok (nested : nat -> M (Cx W) Error Base) : Prop :=
  forall j, pc XI (nested j) (fun b s => XI s /\ found (fun o => exists r, toc !! j = Some r /\ denotes (er_offset r) o) b).
Lemma base_by_id_pc nested id : hops_ok nested ->
  pc XI (base_by_id W charge1 repo externals nested id) (fun b s => XI s /\ found (named id) b).
Proof.
  intros Hn. unfold base_by_id. eapply triple_bind; [apply cached_pc|]. intros [o|].
  { intros s [Hs Ho]. split; [done|]. left. by apply Ho. }
  apply gets_bind. intros [j|]; [|case_match].
  - intros s [[Hs _] Hj]. destruct (xi_by _ Hs id j) as (r & o & E1 & E2 & E3); [done|].
    specialize (Hn j s Hs). destruct (nested j s) as [s' [b|]]; [|done]. destruct Hn as [Hs' Hb]. split; [done|].
    destruct b as [o'|]; [|done]. destruct Hb as (r' & E1' & E2'). simplify_eq.
    rewrite (denotes_det _ _ _ E2' E2). right. eauto.
  - apply (triple_pre _ XI); [by intros s [[? _] _]|]. eapply triple_bind; [apply external_pc|].
    intros o s [Hs Ho]. split; [done|]. by left.
  - intros s [[Hs _] _]. done.
Qed.

(** A chain applied to a base in [P] ends in what [target] denotes. *)
Fixpoint chain_ok (P : Obj -> Prop) (chain : list (Z * list Z)) (target : Z) : Prop :=
  match chain with
  | [] => forall o, P o -> denotes target o
  | (o1, bs) :: chain' =>
      (forall b o, P b -> decode_mini obj_kind (Some b) bs = Ok o -> denotes o1 o /\ o.1 = b.1) /\ chain_ok (denotes o1) chain' target
  end.
Lemma apply_chain_pc chain P kind data target : chain_ok P chain target -> P (kind, data) ->
  pc XI (apply_chain W obj_kind chain kind data) (fun d s => XI s /\ denotes target (kind, d)).
Proof.
  revert P data; induction chain as [|[o1 bs] chain IH]; intros P data Hc Hp.
  { intros s Hs. split; [done|]. by apply Hc. }
  destruct Hc as [H1 H2]. cbn [apply_chain]. eapply triple_bind; [by apply triple_lift|]. intros o.
  apply triple_pure. intros Ed. destruct (H1 _ _ Hp Ed) as [Hd Ek]. destruct o as [k d]. cbn in *. subst k.
  apply (triple_bind _ _ (fun _ => XI)); [by apply put_cache_pc|]. intros _. by eapply IH.
Qed.
Lemma chain_done_pc chain P bytes o target : chain_ok P chain target -> P o ->
  pc XI (chain_done W obj_kind chain bytes o) (fun b s => XI s /\ found (denotes target) b).
Proof.
  intros Hc Hp. unfold chain_done. eapply triple_bind; [eapply (apply_chain_pc chain P); [done|by destruct o]|].
  intros d. apply triple_pure. intros Hd. apply (triple_bind _ _ (fun _ => XI)); [apply set_live_pc|]. intros _ s Hs. done.
Qed.
Lemma chain_ofs off r dist off' chain target :
  entry_of off = Some r -> er_header r = HOfs dist -> base_offset off dist = Some off' ->
  chain_ok (denotes off) chain target -> chain_ok (denotes off') ((off, raw r) :: chain) target.
Proof.
  intros E1 E2 E3 Hc. split; [|done]. intros b o Hb Ed. split; [by eapply d_ofs|].
  eapply decode_mini_kind; [by eapply entry_of_rec|by rewrite E2|done].
Qed.
Lemma chain_ref off r id chain target :
  entry_of off = Some r -> er_header r = HRef id ->
  chain_ok (denotes off) chain target -> chain_ok (named id) ((off, raw r) :: chain) target.
Proof.
  intros E1 E2 Hc. split; [|done]. intros b o Hb Ed. split.
  - destruct Hb as [Hb|[[off' Hb] Hi]]; [by eapply d_store|by eapply d_pack].
  - eapply decode_mini_kind; [by eapply entry_of_rec|by rewrite E2|done].
Qed.
Lemma walk_pc nested left off chain bytes target : hops_ok nested -> chain_ok (denotes off) chain target ->
  pc XI (walk W charge1 repo toc externals obj_kind nested left off chain bytes) (fun b s => XI s /\ found (denotes target) b).
Proof.
  intros Hn. revert off chain bytes; induction left as [|left IH]; intros off chain bytes Hc; cbn [walk];
    (eapply triple_bind; [apply (cached_pc (KOff off))|]; intros [o|];
     [intros s [Hs Ho]; by apply (chain_done_pc chain (denotes off) bytes o target Hc (Ho o eq_refl))|]); [done|].
  eapply (triple_bind _ _ (fun r s => XI s /\ entry_of off = Some r)).
  { intros s [Hs _]. destruct (by_off toc off) as [r|] eqn:E; [|done]. cbn. eauto. }
  intros r. apply triple_pure. intros Er. eapply triple_bind; [apply win_entry_pc; by eapply entry_of_rec|].
  intros bs. apply triple_pure. intros ->. cbv zeta. apply (triple_bind _ _ (fun _ => XI)); [apply set_live_pc|]. intros _.
  apply gets_bind. intros live. apply (triple_pre _ XI); [by intros s [? _]|]. case_match.
  { apply (triple_bind _ _ (fun _ => XI)); [apply set_live_pc|]. intros _. done. }
  destruct (er_header r) as [| | | |dist|id] eqn:Eh.
  5: { eapply triple_bind; [by apply triple_lift|]. intros off'. apply triple_pure. intros Eo.
       apply IH. destruct (base_offset off dist) eqn:Eb; [|done]. injection Eo as ->. by eapply chain_ofs. }
  5: { eapply triple_bind; [by apply base_by_id_pc|]. intros [o|id']; apply triple_pure; intros Hb.
       - eapply chain_done_pc; [by eapply chain_ref|done].
       - apply (triple_bind _ _ (fun _ => XI)); [apply set_live_pc|]. intros _ s Hs. done. }
  all: case_match; [done|]; eapply triple_bind; [by apply triple_lift|]; intros o; apply triple_pure; intros Ed;
    assert (denotes off o) by (eapply d_full; [done|by rewrite Eh|lia|done]);
    apply (triple_bind _ _ (fun _ => XI)); [by apply (put_cache_pc (KOff off))|]; intros _; by eapply chain_done_pc.
Qed.
Lemma hop_ok hops :
  (forall h start, hops = S h ->
     pc XI (resolve_at W charge1 repo toc externals obj_kind h start) (fun b s => XI s /\ found (denotes start) b)) ->
  hops_ok (hop W charge1 repo toc externals obj_kind hops).
Proof.
  intros IH j. destruct hops as [|h]; [done|]. cbn [hop]. eapply triple_bind; [by apply triple_lift|]. intros r.
  apply triple_pure. intros Er. unfold by_idx in Er. destruct (toc !! j) as [r'|] eqn:E; [|done]. injection Er as ->.
  eapply triple_post; [|by apply IH]. intros [o|] s [Hs Ho]; (split; [done|]); [by exists r|done].
Qed.
Lemma resolve_at_pc hops start :
  pc XI (resolve_at W charge1 repo toc externals obj_kind hops start) (fun b s => XI s /\ found (denotes start) b).
Proof.
  revert start; induction hops as [|h IH]; intros start.
  - apply (walk_pc (hop W charge1 repo toc externals obj_kind 0)); [by apply hop_ok|by intros o].
  - apply (walk_pc (hop W charge1 repo toc externals obj_kind (S h))); [|by intros o]. apply hop_ok. intros h' st [= <-]. apply IH.
Qed.
Lemma hop_pc hops : hops_ok (hop W charge1 repo toc externals obj_kind hops).
Proof. apply hop_ok. intros. apply resolve_at_pc. Qed.
End Resolve.
End Known.
End Denote.
