(* ===== verification/Intake.v ===== *)
(** * Pass A stages the pack as received and maps it

    [stream_to_pending]: whatever chunks the body arrives in, the object staged in
    R2 is the body byte for byte, its trailer is the digest of the rest, the
    records tile it from the header to the trailer, and each record's header and
    size are those of the bytes at its offset. *)
From S2P Require Import Prelude Errors Text Db Jobs Cohort GcBase Compact Refs Push PushFacts Memo Wire WireFacts Receive Sha Writer Reads Mark Ingest IngestFacts.
Open Scope Z_scope.

(** ** Strings as bytes *)

Lemma bytes_of_app a b : bytes_of (a +:+ b) = bytes_of a ++ bytes_of b.
Proof. unfold bytes_of. rewrite <- map_app. f_equal. induction a as [|x a IH]; [done|]. simpl. by rewrite IH. Qed.
Lemma bytes_of_length s : length (bytes_of s) = String.length s.
Proof. unfold bytes_of. rewrite length_map. induction s as [|x s IH]; [done|]. simpl. by rewrite IH. Qed.
Lemma bytes_of_take n s : bytes_of (str_take n s) = take n (bytes_of s).
Proof. unfold bytes_of. revert n; induction s as [|x s IH]; intros [|n]; simpl; try done. by rewrite IH. Qed.
Lemma bytes_of_drop n s : bytes_of (str_drop n s) = drop n (bytes_of s).
Proof. unfold bytes_of. revert n; induction s as [|x s IH]; intros [|n]; simpl; try done. Qed.

(** ** The body *)

Definition eof_ok (b : BodyReader) : Prop := bd_eof b = true -> bd_stream b = [].
(** A fill moves bytes from the stream to the buffer; short of what was asked,
    the stream is at its end. *)
Lemma fill_from_pending stream : forall min buf eof total b r,
  (eof = true -> stream = []) -> fill_from min stream buf eof total = (b, Ok r) ->
  pending b = buf +:+ concat_str (map ok_bytes stream) /\ eof_ok b /\ r = (min <=? str_len (bd_buf b))
  /\ (r = false -> bd_stream b = []).
Proof.
  induction stream as [|x stream IH]; intros min buf eof total b r He Hf; cbn [fill_from] in Hf.
  - destruct (_ && _); injection Hf as <- <-; by repeat split.
  - destruct eof; [by discriminate He|]. destruct (Z.ltb_spec (str_len buf) min) as [Hlt|Hge]; cbn [andb negb] in Hf.
    + destruct x as [d|e]; [|done]. apply IH in Hf as (-> & ? & ? & ?); [|done]. split; [|done]. by rewrite app_assoc_s.
    + injection Hf as <- <-. split_and!; try done. cbn. lia.
Qed.
Lemma fill_pending min b b' r : eof_ok b -> fill min b = (b', Ok r) ->
  pending b' = pending b /\ eof_ok b' /\ r = (min <=? str_len (bd_buf b')) /\ (r = false -> bd_stream b' = []).
Proof. unfold fill, pending. intros He Hf. apply fill_from_pending in Hf; [done|exact He]. Qed.

Section Intake.
Context `{PC : PackCodec} `{MP : Multipart} `{GP : GixPack} `{ML : !MultipartLaws} `{GL : !GixLaws}.
Context {B : Type} (charge1 : B -> B * result Error unit) (kind : HashKind).
(** Everything that arrived. *)
Context (whole : list Z).

(** [taken]: the bytes staged and hashed; [bf]: the bytes buffered. *)
Record AI (taken bf : list Z) (s : As B) : Prop := {
  ai_hashed : as_hashed B s = taken;
  ai_raw : raw_wrote (as_raw B s) taken;
  ai_buf : bytes_of (bd_buf (as_body B s)) = bf;
  ai_whole : taken ++ bytes_of (pending (as_body B s)) = whole;
  ai_eof : eof_ok (as_body B s)
}.
Definition AIx (taken : list Z) (s : As B) : Prop := exists bf, AI taken bf s.

Lemma a_fill_pc n taken : pc (AIx taken) (a_fill B n)
  (fun r s => exists bf, AI taken bf s /\ r = (n <=? Z.of_nat (length bf)) /\ (r = false -> taken ++ bf = whole)).
Proof.
  intros s [bf [H1 H2 H3 H4 H5]]. unfold a_fill. destruct (fill n (as_body B s)) as [b' [r|]] eqn:E; [|done]. cbn [fst snd].
  apply fill_pending in E as (E1 & E2 & E3 & E4); [|done]. exists (bytes_of (bd_buf b')).
  assert (Z.of_nat (length (bytes_of (bd_buf b'))) = str_len (bd_buf b')) as El by (rewrite bytes_of_length; done).
  split; [|split; [by rewrite El|]].
  - split; try done. cbn. by rewrite E1.
  - intros Hr. rewrite <- H4, <- E1. unfold pending. rewrite (E4 Hr). cbn. by rewrite app_empty_r.
Qed.
Lemma a_buffered_pc taken bf : pc (AI taken bf) (a_buffered B) (fun r s => AI taken bf s /\ bytes_of r = bf).
Proof. intros s Hs. split; [done|]. apply (ai_buf _ _ _ Hs). Qed.
Lemma take_bytes_pc n taken bf : pc (AI taken bf) (take_bytes B charge1 n)
  (fun _ s => AI (taken ++ take n bf) (drop n bf) s /\ (n <= length bf)%nat).
Proof.
  unfold take_bytes. eapply triple_bind; [apply a_buffered_pc|]. intros buf. apply triple_pure. intros Eb.
  destruct (Nat.ltb_spec (String.length buf) n) as [|Hn]; [done|]. rewrite <- bytes_of_length, Eb in Hn. cbv zeta.
  eapply (modify_bind _ (AI (taken ++ take n bf) (drop n bf))).
  - intros s [H1 H2 H3 H4 H5]. rewrite bytes_of_take, Eb. split; cbn [as_hashed as_raw as_body consume bd_buf bd_stream].
    + by rewrite H1.
    + destruct H2 as (chunks & -> & Hup). exists chunks. split; [by rewrite <- app_assoc|done].
    + by rewrite bytes_of_drop, H3.
    + rewrite <- H4. unfold pending. cbn [consume bd_buf bd_stream]. rewrite !bytes_of_app, bytes_of_drop, H3.
      by rewrite <- (take_drop n bf) at 3; rewrite <- !app_assoc.
    + done.
  - intros s Hs. unfold a_flush. destruct (raw_flush_if_full B charge1 _) as [[w b'] [[]|]] eqn:E; [|done]. cbn [fst snd].
    split; [|done]. destruct Hs as [H1 H2 H3 H4 H5]. split; try done. cbn.
    unfold raw_flush_if_full in E. apply bind_ok in E as (w0 & s0 & [= <- <-] & E). by apply raw_flush_run with (stream := taken ++ take n bf) in E.
Qed.

(** The steps an inflater can take over what arrived: each takes a byte or makes
    one. *)
Definition spent (fuel : nat) : Prop := (fuel <= 1033 * length whole)%nat.
Lemma spent_le n m : (n <= m)%nat -> spent m -> spent n.
Proof. unfold spent. lia. Qed.
Lemma taken_whole taken s : AIx taken s -> (length taken <= length whole)%nat.
Proof. intros [bf Hs]. rewrite <- (ai_whole _ _ _ Hs), length_app. lia. Qed.
Lemma spent_part (taken inp data : list Z) :
  (length (taken ++ inp) <= length whole)%nat -> (length data <= 1032 * length inp)%nat -> spent (0 + length inp + length data).
Proof. unfold spent. rewrite length_app. lia. Qed.
Abbreviation sat n := (Z.min u64_max (Z.of_nat n)).
(** One entry's zlib stream: what is staged of it is what its inflation took. *)
Lemma inflate_entry_pc fuel z pos clen made taken inp data :
  midway z inp data -> zpart z inp data -> clen = sat (length inp) -> made = sat (length data) ->
  pc (AIx (taken ++ inp)) (inflate_entry B charge1 fuel z pos clen made)
    (fun r s => match r with None => spent (fuel + length inp + length data) | Some (clen', made') =>
       exists body data', AIx (taken ++ body) s /\ zrun z_new body data' /\ clen' = sat (length body) /\ made' = sat (length data') end).
Proof.
  revert z clen made inp data; induction fuel as [|f IH]; intros z clen made inp data Hm Hpt -> ->.
  { intros s Hs. apply (spent_part taken); [by eapply taken_whole|by eapply z_ratio]. }
  cbn [inflate_entry]. apply (triple_bind _ _ (fun _ => AIx (taken ++ inp))).
  { intros s [bf Hs]. by exists bf. }
  intros buf0. apply (triple_bind _ _ (fun _ => AIx (taken ++ inp))).
  { destruct (str_empty buf0); [|by intros s Hs]. eapply triple_post; [|apply a_fill_pc]. intros r s (bf & Hs & _). by exists bf. }
  intros ok. destruct (negb ok); [done|]. intros s [bf Hs]. revert s Hs.
  match goal with |- forall s, AI ?a ?b s -> match ?m s with _ => _ end => change (triple (AI a b) m
    (fun r s => match r with None => spent (S f + length inp + length data) | Some (clen', made') => exists body data', AIx (taken ++ body) s
       /\ zrun z_new body data' /\ clen' = sat (length body) /\ made' = sat (length data') end) (fun _ => True)) end.
  eapply triple_bind; [apply a_buffered_pc|]. intros buf. apply triple_pure. intros Eb.
  eapply triple_bind; [by apply triple_lift|]. intros [[[z' used] out] ended]. apply triple_pure. intros Ez.
  destruct (z_step z (bytes_of buf) (64 * 1024)) as [r|] eqn:Ez'; [|done]. injection Ez as ->. rewrite Eb in Ez'.
  destruct (z_step_bounds _ _ _ _ _ _ _ Ez') as [Hu0 Hu1]. pose proof (midway_step _ _ _ _ _ _ _ _ _ Hm Ez') as Hz.
  pose proof (zpart_step _ _ _ _ _ _ _ _ _ Hpt Ez') as Hpt'. destruct ((used =? 0) && _) eqn:Est; [done|].
  eapply triple_bind; [apply take_bytes_pc|]. intros u. apply triple_pure. intros Hn. apply gets_bind. intros total. destruct (MAX_PENDING <? total); [done|]. cbv zeta.
  assert (sat_addu64 (sat (length inp)) used = sat (length (inp ++ take (Z.to_nat used) bf))) as ->.
  { rewrite length_app, length_take. unfold sat_addu64, u64_max. lia. }
  assert (sat_addu64 (sat (length data)) (Z.of_nat (length out)) = sat (length (data ++ out))) as ->.
  { rewrite length_app. unfold sat_addu64, u64_max. lia. }
  apply (triple_pre _ (AIx (taken ++ inp ++ take (Z.to_nat used) bf))).
  { intros s [Hs _]. exists (drop (Z.to_nat used) bf). by rewrite app_assoc. }
  destruct ended; [|eapply triple_post; [|eapply IH; [exact Hz|exact Hpt'|done|done]]; intros [[]|] s; [done|]].
  2: { apply spent_le. rewrite !length_app, length_take. apply andb_false_iff in Est as [?%Z.eqb_neq|?%Nat.eqb_neq]; lia. }
  intros s Hs. by exists (inp ++ take (Z.to_nat used) bf), (data ++ out).
Qed.
Lemma inflate_nil_pc fuel pos taken :
  pc (AIx (taken ++ [])) (inflate_entry B charge1 fuel z_new pos 0 0)
    (fun r s => match r with None => spent fuel | Some (clen', made') =>
       exists body data', AIx (taken ++ body) s /\ zrun z_new body data' /\ clen' = sat (length body) /\ made' = sat (length data') end).
Proof.
  eapply triple_post; [|apply (inflate_entry_pc _ _ _ _ _ _ [] []); [by intros rest more|constructor|done..]].
  intros [[]|] s; [done|]. apply spent_le. lia.
Qed.

(** A record describes the entry at its offset. *)
Definition rec_read (c : list Z) (e : EntryRec) : Prop :=
  rec_ok kind c e /\ er_hlen e <= 255 /\ er_clen e <= u32_max /\
  exists data, zrun z_new (slice c (er_offset e + er_hlen e) (er_clen e)) data /\ Z.of_nat (length data) = er_size e.
Lemma rec_read_grow c more e : rec_read c e -> rec_read (c ++ more) e.
Proof.
  intros ((H1 & H2 & H3 & H4 & H5 & H6) & H7 & H8 & data & H9 & H10). split; [|split_and!; [done..|]].
  - unfold rec_ok, raw. rewrite slice_app_l by lia. rewrite length_app. split_and!; [done..|lia].
  - exists data. by rewrite slice_app_l by lia.
Qed.
Lemma slice_tail (a b : list Z) n : n = Z.of_nat (length b) -> slice (a ++ b) (Z.of_nat (length a)) n = b.
Proof. intros ->. rewrite slice_app_r, Z.sub_diag by lia. unfold slice. by rewrite drop_0, Nat2Z.id, take_ge. Qed.
Lemma rec_read_new taken hdr body data h size :
  pack_entry kind (hdr ++ body) = Ok (h, size, Z.of_nat (length hdr)) -> 0 < Z.of_nat (length hdr) <= 255 ->
  Z.of_nat (length body) <= u32_max -> (h <> HBlob -> size <= MAX_OBJ) -> zrun z_new body data ->
  Z.of_nat (length data) = size ->
  rec_read (taken ++ hdr ++ body) (mkEntry (Z.of_nat (length taken)) (Z.of_nat (length hdr)) h (Z.of_nat (length body)) size).
Proof.
  intros Hp Hh Hb Hs Hz Hd. split; [|split_and!; cbn; [lia..|]].
  - unfold rec_ok, raw. cbn [er_offset er_hlen er_clen er_header er_size]. rewrite !length_app.
    rewrite slice_tail by (rewrite length_app; lia). split_and!; [lia..|done|done|lia].
  - exists data. split; [|done]. rewrite app_assoc.
    replace (Z.of_nat (length taken) + Z.of_nat (length hdr)) with (Z.of_nat (length (taken ++ hdr))) by (rewrite length_app; lia).
    by rewrite slice_tail.
Qed.
Lemma read_entry_pc fuel taken : pc (AIx taken) (read_entry B charge1 kind fuel (Z.of_nat (length taken)))
  (fun r s => match r with None => spent fuel | Some e => exists bs, AIx (taken ++ bs) s /\ rec_read (taken ++ bs) e
     /\ er_offset e = Z.of_nat (length taken) /\ er_hlen e + er_clen e = Z.of_nat (length bs) end).
Proof.
  unfold read_entry. eapply triple_bind; [apply a_fill_pc|]. intros r0 s (bf & Hs & _). revert s Hs.
  match goal with |- forall s, AI ?a ?b s -> match ?m s with _ => _ end => change (triple (AI a b) m
    (fun r s => match r with None => spent fuel | Some e => exists bs, AIx (taken ++ bs) s /\ rec_read (taken ++ bs) e
     /\ er_offset e = Z.of_nat (length taken) /\ er_hlen e + er_clen e = Z.of_nat (length bs) end) (fun _ => True)) end.
  eapply triple_bind; [apply a_buffered_pc|]. intros buf. apply triple_pure. intros Eb.
  eapply triple_bind; [by apply triple_lift|]. intros [[h size] hlen]. apply triple_pure. intros Ep.
  destruct (pack_entry kind (bytes_of buf)) as [r|] eqn:Ep'; [|done]. injection Ep as ->. rewrite Eb in Ep'.
  destruct (pack_entry_local _ _ _ _ _ Ep') as (Hh & Hsz & Hloc). cbv zeta.
  destruct (MAX_STREAM_BLOB <? size) eqn:Eg1; [done|]. destruct ((MAX_OBJ <? size) && _) eqn:Eg2; [done|].
  eapply triple_bind; [apply take_bytes_pc|]. intros u. apply triple_pure. intros Hn.
  set (hdr := take (Z.to_nat hlen) bf). assert (Z.of_nat (length hdr) = hlen) as El by (unfold hdr; rewrite length_take; lia).
  apply (triple_bind _ _ (fun r s => match r with None => spent fuel | Some (clen', made') => exists body data',
    AIx ((taken ++ hdr) ++ body) s /\ zrun z_new body data' /\ clen' = sat (length body) /\ made' = sat (length data') end)).
  { eapply triple_pre; [|apply inflate_nil_pc].
    intros s Hs. rewrite app_nil_r. by eexists. }
  intros [[clen made]|]; [|by intros s Hs]. intros s (body & data & Hs & Hz & -> & ->).
  destruct (Z.eqb_spec (sat (length data)) size) as [Es|]; [|done]. cbn [negb].
  destruct ((MAX_ENTRY_WIRE <? _) && _); [done|]. destruct (Z.ltb_spec 255 hlen) as [|Hh2]; [done|].
  destruct (Z.ltb_spec u32_max (sat (length body))) as [|Hb]; [done|].
  assert (sat (length body) = Z.of_nat (length body)) as Eb2 by (unfold u64_max, u32_max in *; lia).
  assert (Z.of_nat (length data) = size) as Ed by (unfold MAX_STREAM_BLOB in Eg1; unfold u64_max in *; lia).
  exists (hdr ++ body). rewrite app_assoc. split; [done|]. rewrite Eb2, <- El, <- app_assoc. split; [|cbn; rewrite length_app; lia].
  apply (rec_read_new _ _ _ data); [rewrite El; apply Hloc; lia|lia|lia| |done|done].
  intros Hne. rewrite bool_decide_eq_false_2 in Eg2 by done. cbn in Eg2. lia.
Qed.

(** ** The records of a pack *)

Definition recs_end (recs : list EntryRec) : Z :=
  match last recs with Some r => er_offset r + er_hlen r + er_clen r | None => 12 end.
Record RI (recs : list EntryRec) (taken : list Z) : Prop := {
  ri_recs : Forall (rec_read taken) recs;
  ri_nodup : NoDup (map er_offset recs);
  ri_end : recs_end recs = Z.of_nat (length taken);
  ri_len : Z.of_nat (length taken) <= 12 + Z.of_nat (length recs) * (u32_max + 255)
}.
Lemma ri_snoc recs taken bs e :
  RI recs taken -> rec_read (taken ++ bs) e -> er_offset e = Z.of_nat (length taken) ->
  er_hlen e + er_clen e = Z.of_nat (length bs) -> RI (recs ++ [e]) (taken ++ bs).
Proof.
  intros [H1 H2 H3 H4] Hr Ho Hl. pose proof Hr as ((_ & Hh & Hc & _) & Hh2 & Hc2 & _). split.
  - apply Forall_app. split; [|by constructor]. eapply Forall_impl; [exact H1|]. intros x. apply rec_read_grow.
  - rewrite map_app. apply NoDup_app. split_and!; [done| |apply NoDup_singleton]. intros x Hx [= ->]%list_elem_of_singleton.
    apply list_elem_of_fmap in Hx as (y & Ey & Hy). rewrite Forall_forall in H1. destruct (H1 y Hy) as ((_ & ? & ? & _ & _ & ?) & _). lia.
  - unfold recs_end. rewrite last_snoc, length_app. lia.
  - rewrite !length_app. cbn [length]. lia.
Qed.
Lemma read_recs_pc fuel count recs taken :
  RI recs taken -> (length recs <= MAX_ENTRIES)%nat ->
  pc (AIx taken) (read_recs B charge1 kind fuel count (Z.of_nat (length taken)) recs)
    (fun r s => match r with None => spent fuel | Some recs' => exists more, AIx (taken ++ more) s /\ RI recs' (taken ++ more)
       /\ length recs' = (length recs + count)%nat /\ (length recs' <= MAX_ENTRIES)%nat end).
Proof.
  revert recs taken; induction count as [|count IH]; intros recs taken Hr Hm; cbn [read_recs].
  { intros s Hs. exists []. rewrite app_nil_r. by rewrite Nat.add_0_r. }
  destruct (Nat.leb_spec MAX_ENTRIES (length recs)) as [|Hlt]; [done|].
  eapply triple_bind; [apply read_entry_pc|]. intros [e|]; [|by intros s Hs]. intros s (bs & Hs & He & Ho & Hl).
  pose proof (ri_snoc _ _ _ _ Hr He Ho Hl) as Hr'.
  assert (sat_addu64 (sat_addu64 (Z.of_nat (length taken)) (er_hlen e)) (er_clen e) = Z.of_nat (length (taken ++ bs))) as ->.
  { pose proof (ri_len _ _ Hr) as Hb. destruct He as ((_ & ? & ? & _) & ? & ? & _). rewrite length_app.
    assert (Z.of_nat (length recs) <= 750000) by (unfold MAX_ENTRIES in Hlt; lia). unfold sat_addu64, u64_max, u32_max in *. lia. }
  assert (length (recs ++ [e]) <= MAX_ENTRIES)%nat as Hm' by (rewrite length_app; cbn; lia).
  specialize (IH _ _ Hr' Hm' s Hs). destruct (read_recs _ _ _ _ _ _ _ s) as [s' [[recs'|]|]]; try done.
  destruct IH as (more & H1 & H2 & H3 & H4). exists (bs ++ more). rewrite app_assoc. split_and!; try done.
  rewrite H3, length_app. cbn. lia.
Qed.

(** What pass A leaves: the pack as received and its records. *)
Record staged (recs : list EntryRec) (count : Z) (c : list Z) : Prop := {
  sg_digest : exists body, c = body ++ digest kind body;
  sg_head : header_decode (take 12 c) = Ok (2, count);
  sg_count : length recs = Z.to_nat count;
  sg_max : (length recs <= MAX_ENTRIES)%nat;
  sg_toc : toc_ok recs kind c;
  sg_len : pack_len recs kind = Z.of_nat (length c);
  sg_data : Forall (rec_read c) recs
}.
Lemma hash_len_range k : 20 <= hash_len k <= 32.
Proof. destruct k; cbn; lia. Qed.
(** Records over everything but the trailer are the records of the pack. *)
Lemma staged_of recs count head more :
  RI recs (head ++ more) -> length head = 12%nat -> (length recs <= MAX_ENTRIES)%nat -> length recs = Z.to_nat count ->
  header_decode head = Ok (2, count) -> Z.of_nat (length (digest kind (head ++ more))) = hash_len kind ->
  staged recs count ((head ++ more) ++ digest kind (head ++ more)).
Proof.
  intros Hr Hh Hm Hc Hd Hl. pose proof (hash_len_range kind) as Hk. pose proof (ri_len _ _ Hr) as Hb.
  assert (Z.of_nat (length recs) <= 750000) as Hn by (unfold MAX_ENTRIES in Hm; lia).
  assert (Forall (rec_read ((head ++ more) ++ digest kind (head ++ more))) recs) as Hrr.
  { eapply Forall_impl; [apply (ri_recs _ _ Hr)|]. intros e. apply rec_read_grow. }
  assert (Z.of_nat (length ((head ++ more) ++ digest kind (head ++ more))) = Z.of_nat (length (head ++ more)) + hash_len kind) as El
    by (rewrite (length_app (head ++ more)); lia).
  split; [by eexists| |done|done| | |done].
  - rewrite <- app_assoc. by rewrite take_app_length'.
  - split; [|apply (ri_nodup _ _ Hr)|rewrite El; unfold u64_max, u32_max in *; lia].
    eapply Forall_impl; [exact Hrr|]. by intros e [? _].
  - rewrite El, <- (ri_end _ _ Hr). rewrite <- (ri_end _ _ Hr) in Hb. unfold pack_len, recs_end, rec_end in *.
    destruct (last recs) as [r|] eqn:E; [|done]. pose proof (ri_recs _ _ Hr) as Hf. rewrite Forall_forall in Hf.
    destruct (Hf r) as ((? & ? & ? & _) & _); [by apply last_Some_elem_of|]. unfold sat_addu64, u64_max, u32_max in *. lia.
Qed.
(** The trailer: checked, staged, and nothing after it. *)
Lemma trailer_pc recs count head more :
  RI recs (head ++ more) -> length head = 12%nat -> (length recs <= MAX_ENTRIES)%nat -> length recs = Z.to_nat count ->
  header_decode head = Ok (2, count) ->
  pc (AIx (head ++ more))
    (ok ← a_fill B (hash_len kind);
     if negb ok then lift (unpack "pack trailer truncated")
     else
       s ← gets (fun s => s);
       want ← lift (opt_or (Unpack "hash collision in pack") (finalize kind (as_hashed B s)));
       buf ← a_buffered B;
       if negb (bool_decide (take (Z.to_nat (hash_len kind)) (bytes_of buf) = want)) then lift (unpack "bad pack checksum")
       else
         modify (fun s => mkAs B (consume (Z.to_nat (hash_len kind)) (as_body B s)) (raw_append want (as_raw B s)) (as_hashed B s) (as_b B s)) ≫= fun _ =>
         more ← a_fill B 1;
         if (more : bool) then fail (Protocol "bytes after pack trailer")
         else mret (Some (recs, count)))
    (fun r s => r = Some (recs, count) /\ raw_wrote (as_raw B s) whole /\ staged recs count whole /\ pending (as_body B s) = "").
Proof.
  intros Hr Hh Hm Hc Hd. pose proof (hash_len_range kind) as Hk.
  eapply triple_bind; [apply a_fill_pc|]. intros ok s (bf & Hs & -> & _).
  destruct (Z.leb_spec (hash_len kind) (Z.of_nat (length bf))) as [Hbf|]; [|done]. cbn [negb].
  unfold gets, mbind, M_bind, a_buffered, gets, lift. rewrite (ai_hashed _ _ _ Hs). unfold finalize.
  destruct (sha_collision _); [done|]. cbn [opt_or]. unfold buffered. rewrite (ai_buf _ _ _ Hs).
  destruct (bool_decide _) eqn:Eb; [|done]. bsimp. cbn [negb]. unfold modify. set (s1 := mkAs B _ _ _ _).
  set (want := digest kind (head ++ more)) in *.
  assert (Z.of_nat (length want) = hash_len kind) as Hw by (rewrite <- Eb, length_take; lia).
  pose proof (staged_of _ _ _ _ Hr Hh Hm Hc Hd Hw) as Hst. destruct Hs as [H1 H2 H3 H4 H5].
  assert ((head ++ more) ++ want ++ bytes_of (pending (as_body B s1)) = whole) as Hwh.
  { rewrite <- H4, <- Eb. unfold pending. cbn [s1 as_body consume bd_buf bd_stream]. rewrite !bytes_of_app, bytes_of_drop, H3.
    rewrite <- (take_drop (Z.to_nat (hash_len kind)) bf) at 3. by rewrite <- !app_assoc. }
  unfold a_fill. destruct (fill 1 (as_body B s1)) as [b' [r|]] eqn:Ef; [|done]. cbn [fst snd].
  apply fill_pending in Ef as (E1 & E2 & E3 & E4); [|exact H5]. destruct r; [done|].
  assert (pending (as_body B s1) = "") as Hp.
  { rewrite <- E1. unfold pending. rewrite (E4 eq_refl). symmetry in E3. bsimp. unfold str_len in E3.
    destruct (bd_buf b') as [|x y]; [done|]. cbn in E3. lia. }
  rewrite Hp in Hwh. cbn in Hwh. rewrite app_nil_r in Hwh. rewrite <- Hwh. split_and!; [done| |done|exact (eq_trans E1 Hp)].
  destruct H2 as (chunks & -> & Hup). exists chunks. cbn. split; [by rewrite <- app_assoc|done].
Qed.
Lemma stream_inner_pc fuel :
  pc (AIx []) (stream_inner B charge1 kind fuel)
    (fun r s => match r with None => spent fuel | Some (recs, count) =>
       raw_wrote (as_raw B s) whole /\ staged recs count whole /\ pending (as_body B s) = "" end).
Proof.
  unfold stream_inner. eapply triple_bind; [apply a_fill_pc|]. intros ok s (bf & Hs & -> & _). revert s Hs.
  match goal with |- forall s, AI ?a ?b s -> match ?m s with _ => _ end => change (triple (AI a b) m
    (fun r s => match r with None => spent fuel | Some (recs, count) =>
       raw_wrote (as_raw B s) whole /\ staged recs count whole /\ pending (as_body B s) = "" end) (fun _ => True)) end.
  destruct (Z.leb_spec 12 (Z.of_nat (length bf))) as [Hbf|]; [|done]. cbn [negb].
  eapply triple_bind; [apply a_buffered_pc|]. intros buf. apply triple_pure. intros Eb.
  eapply triple_bind; [by apply triple_lift|]. intros [version count]. apply triple_pure. intros Eh. rewrite Eb in Eh.
  destruct (header_decode (take 12 bf)) as [vc|] eqn:Ed; [|done]. injection Eh as ->.
  destruct (Z.eqb_spec version 2) as [->|]; [|done]. cbn [negb].
  eapply triple_bind; [apply take_bytes_pc|]. intros u. apply triple_pure. intros _. cbn [app].
  assert (length (take 12 bf) = 12%nat) as Hl by (rewrite length_take; lia).
  eapply triple_bind.
  { replace 12 with (Z.of_nat (length (take 12 bf))) by lia. eapply triple_pre; [|apply (read_recs_pc fuel (Z.to_nat count) [] (take 12 bf)); [|cbn; lia]].
    - intros s Hs. by eexists.
    - split; [constructor|constructor|unfold recs_end; cbn [last]; lia|cbn [length]; lia]. }
  intros [recs|]; [|by intros s Hs]. intros s (more & Hs & Hr & Hc & Hm).
  pose proof (trailer_pc recs count (take 12 bf) more Hr Hl Hm Hc Ed s Hs) as Ht. cbn beta iota.
  match goal with |- match ?m with _ => _ end => destruct m as [s' [r|]] end; [|done].
  destruct Ht as (-> & H1 & H2 & H3). done.
Qed.
End Intake.

(** ** Pass A only charges *)

Section World.
Context `{PC : PackCodec} `{MP : Multipart} `{GP : GixPack}.
Context {B : Type} (charge1 : B -> B * result Error unit) (kind : HashKind).
Context (WI : B -> Prop) (WI_charge : forall b, WI b -> WI (charge1 b).1).
Definition keeps_b (s s' : As B) : Prop := WI (as_b B s) -> WI (as_b B s').
#[local] Instance keeps_b_pre : PreOrder keeps_b.
Proof. unfold keeps_b. split; [by intros ?|]. intros a b d H1 H2 H3. auto. Qed.
Lemma raw_upload_world chunk rest x : WI x.2 -> WI (raw_upload B charge1 chunk rest x).1.2.
Proof.
  intros Hx. pose proof (WI_charge _ Hx) as Hc. unfold raw_upload. destruct (65535 <? _); [done|]. destruct (charge1 x.2) as [b [[]|]]; [|done].
  by destruct (upload_part _ _ _) as [m [e|]].
Qed.
Lemma raw_flush_world f x : WI x.2 -> WI (raw_flush_loop B charge1 f x).1.2.
Proof.
  revert x; induction f as [|f IH]; intros x Hx; [done|]. cbn [raw_flush_loop]. unfold gets, mbind, M_bind.
  destruct (_ <? PART); [done|].
  pose proof (raw_upload_world (take (Z.to_nat PART) (rw_part x.1)) (drop (Z.to_nat PART) (rw_part x.1)) x Hx) as H1.
  destruct (raw_upload _ _ _ _ x) as [y [[]|]]; [by apply IH|done].
Qed.
Lemma raw_finish_world x : WI x.2 -> WI (raw_finish B charge1 x).1.2.
Proof.
  intros Hx. assert (WI (raw_finish_inner B charge1 x).1.2) as H1.
  { unfold raw_finish_inner, gets, mbind, M_bind. destruct (rw_part x.1); [done|by apply raw_upload_world]. }
  unfold raw_finish. destruct (raw_finish_inner B charge1 x) as [y [u|]]; [|done].
  unfold raw_seal, rcharge, gets, mbind, M_bind, lift. cbn [fst snd] in *. apply WI_charge in H1. by destruct (charge1 y.2) as [b [[]|]].
Qed.
Lemma a_fill_world n : rel_ok keeps_b (a_fill B n).
Proof. by intros s Hs. Qed.
Lemma take_bytes_world n : rel_ok keeps_b (take_bytes B charge1 n).
Proof.
  unfold take_bytes, a_buffered. rel_tac; [by apply rel_ok_modify; intros s Hs|].
  intros s Hs. unfold a_flush. cbn [fst as_b]. unfold raw_flush_if_full, gets, mbind, M_bind. by apply raw_flush_world.
Qed.
#[local] Hint Resolve a_fill_world take_bytes_world : git_edge.
Lemma inflate_entry_world fuel z pos clen made : rel_ok keeps_b (inflate_entry B charge1 fuel z pos clen made).
Proof.
  revert z clen made; induction fuel as [|f IH]; intros z clen made; cbn [inflate_entry]; unfold a_buffered; rel_tac.
Qed.
#[local] Hint Resolve inflate_entry_world : git_edge.
Lemma read_entry_world fuel pos : rel_ok keeps_b (read_entry B charge1 kind fuel pos).
Proof. unfold read_entry, a_buffered. rel_tac. Qed.
#[local] Hint Resolve read_entry_world : git_edge.
Lemma read_recs_world fuel count pos recs : rel_ok keeps_b (read_recs B charge1 kind fuel count pos recs).
Proof. revert pos recs; induction count as [|count IH]; intros pos recs; cbn [read_recs]; rel_tac. Qed.
#[local] Hint Resolve read_recs_world : git_edge.
Lemma stream_inner_world fuel : rel_ok keeps_b (stream_inner B charge1 kind fuel).
Proof. unfold stream_inner, a_buffered. rel_tac. by apply rel_ok_modify; intros s Hs. Qed.
Lemma stream_to_pending_world fuel upload body b :
  WI b -> WI (stream_to_pending B charge1 kind fuel upload body b).1.2.
Proof.
  intros Hb. unfold stream_to_pending, raw_create. apply WI_charge in Hb. destruct (charge1 b) as [b1 [[]|]]; [|done].
  destruct upload as [m|]; [|done]. cbn [mbind result_bind].
  pose proof (stream_inner_world fuel (mkAs B body (mkRaw m [] []) [] b1) Hb) as H1.
  destruct (stream_inner _ _ _ _ _) as [s [[[recs count]|]|]]; [|done..].
  pose proof (raw_finish_world (as_raw B s, as_b B s) H1) as H2. by destruct (raw_finish _ _ _) as [s2 [o|]].
Qed.
End World.

Section Whole.
Context `{PC : PackCodec} `{MP : Multipart} `{GP : GixPack} `{ML : !MultipartLaws} `{GL : !GixLaws}.
Context {B : Type} (charge1 : B -> B * result Error unit) (kind : HashKind).
(** Fuel for pass A over a body: zlib makes at most 1032 bytes of one. *)
Definition body_fuel (body : BodyReader) : nat := 1 + 1033 * length (bytes_of (pending body)).
Lemma stream_to_pending_run fuel upload body b body' b' r :
  eof_ok body -> (body_fuel body <= fuel)%nat -> stream_to_pending B charge1 kind fuel upload body b = (body', b', Ok r) ->
  exists recs count obj, r = Some (recs, count, obj)
  /\ obj = bytes_of (pending body) /\ staged kind recs count obj /\ pending body' = "".
Proof.
  intros He Hfu. unfold stream_to_pending, raw_create. destruct (charge1 b) as [b1 [[]|]]; [|done].
  destruct upload as [m|]; [|done]. cbn [mbind result_bind].
  pose proof (stream_inner_pc charge1 kind (bytes_of (pending body)) fuel (mkAs B body (mkRaw m [] []) [] b1)) as Hi.
  assert (AIx (bytes_of (pending body)) [] (mkAs B body (mkRaw m [] []) [] b1)) as Ha.
  { eexists. split; try done. exists []. split; [done|]. split; constructor. }
  specialize (Hi Ha). destruct (stream_inner _ _ _ _ _) as [s [[[recs' count']|]|]]; [|unfold spent, body_fuel in *; lia|done].
  destruct Hi as (H1 & H2 & H3).
  destruct (raw_finish B charge1 (as_raw B s, as_b B s)) as [s2 [o|]] eqn:Ef; [|done]. intros [= <- <- <-].
  apply (raw_finish_run _ _ _ _ _ _ H1) in Ef as ->. by exists recs', count', (bytes_of (pending body)).
Qed.

(** C17: Pass A stages exactly what arrived and maps it.  However the body is
    chunked, a run of [stream_to_pending] ends, within the fuel its size gives;
    when it succeeds the staged object is the remaining body byte for byte with
    nothing left over; it is a version 2 pack whose trailer is the digest of the
    rest; and there are as many records as the header counts, which lie inside the
    pack with distinct offsets, each with the header, the size and a zlib stream
    of that size at its offset, and whose last ends where the trailer begins. *)
Theorem pending_exact (fuel : nat) (upload : result Error Mpu) (body body' : BodyReader) (b b' : B)
    (r : option (list EntryRec * Z * list Z)) :
  eof_ok body -> (body_fuel body <= fuel)%nat -> stream_to_pending B charge1 kind fuel upload body b = (body', b', Ok r) ->
  exists recs count obj, r = Some (recs, count, obj)
  /\ obj = bytes_of (pending body) /\ pending body' = ""
  /\ (exists rest, obj = rest ++ digest kind rest) /\ header_decode (take 12 obj) = Ok (2, count)
  /\ length recs = Z.to_nat count /\ NoDup (map er_offset recs)
  /\ pack_len recs kind = Z.of_nat (length obj)
  /\ Forall (fun e => pack_entry kind (raw obj e) = Ok (er_header e, er_size e, er_hlen e)
       /\ er_offset e + er_hlen e + er_clen e <= Z.of_nat (length obj)
       /\ exists data, zrun z_new (slice obj (er_offset e + er_hlen e) (er_clen e)) data
            /\ Z.of_nat (length data) = er_size e) recs.
Proof.
  intros He Hf Hr. apply stream_to_pending_run in Hr as (recs & count & obj & -> & -> & [H1 H2 H3 _ H4 H5 H6] & Hp); [|done..].
  exists recs, count, (bytes_of (pending body)). split_and!; try done; [apply H4|]. eapply Forall_impl; [exact H6|].
  intros e ((_ & _ & _ & E1 & _ & E2) & _ & _ & E3). done.
Qed.
End Whole.
