(* ===== verification/Normalize.v ===== *)
(** * Pass B emits every entry once, as what it denotes

    The invariant of [one_entry] and its loop: each entry done has one index row,
    posted or about to be, whose extent of the pack being written is an entry that
    reads back as the object the received entry denotes, under that object's id.
    The queue, the entries waiting for a base and the entries done are together
    all entries, each once. *)
From S2P Require Import Prelude Errors Text Db Jobs Cohort GcBase Compact Refs Push PushFacts Memo Wire WireFacts Receive Sha Writer Reads Mark Ingest IngestFacts.
Open Scope Z_scope.

(** ** The pack writer under pass B's calls *)

Section Out.
Context `{PC : PackCodec} `{MP : Multipart} `{!PackCodecLaws} `{!MultipartLaws}.
Context {W : Type} (charge1 : W -> W * result Error unit) (k0 : HashKind).
Definition out_ok (w : PackWriter) (stream : list Z) : Prop :=
  wrote w stream /\ at_offset w stream /\ 1 <= pw_part_size w /\ pw_kind w = k0.
Lemma raw_extend_out bs w stream : out_ok w stream -> out_ok (raw_extend bs w) (stream ++ bs).
Proof.
  intros ((chunks & Hst & Hup & Hun & Hh) & Ho & Hp). split_and!; [|unfold at_offset in *|apply Hp..].
  - exists chunks. split; [by rewrite Hst, <- app_assoc|done].
  - cbn. rewrite Ho, length_app. unfold sat_addu64, u64_max. lia.
Qed.
Lemma raw_entry_done_out k start w b stream s r :
  out_ok w stream -> raw_entry_done W k start (w, b) = (s, Ok r) ->
  out_ok s.1 stream /\ r = (start, sat_subu64 (pw_offset w) start) /\ s.2 = b.
Proof.
  intros ((chunks & Hst) & Ho & Hp). unfold raw_entry_done. intros (w0 & s0 & [= <- <-] & Hr)%bind_ok. cbn [fst] in Hr.
  destruct (u32_max <? _); [done|]. apply bind_ok in Hr as ([] & s1 & [= <-] & Hr). injection Hr as <- <-.
  split_and!; try done. split_and!; try apply Hp; try done. by exists chunks.
Qed.
Lemma append_out k d w b stream s r :
  out_ok w stream -> append_entry W k d (w, b) = (s, Ok r) ->
  out_ok s.1 (stream ++ encode_entry k d []) /\ s.2 = b
  /\ r = (Z.min u64_max (Z.of_nat (length stream)), Z.of_nat (length (encode_entry k d []))).
Proof.
  intros (Hw & Ho & Hp & Hk) Ha. destruct r as [off len].
  destruct (append_entry_run _ _ _ _ _ _ _ _ Hw Ho Ha) as (H1 & H2 & (_ & H4 & H3) & _ & -> & ->).
  split_and!; [split_and!; [done..|lia|congruence]| |done]. revert Ha. unfold append_entry.
  intros (w0 & s0 & [= <- <-] & Hr)%bind_ok. cbn [fst] in Hr.
  destruct (u32_max <? _); [by apply bind_ok in Hr as (? & ? & _ & ?)|].
  apply bind_ok in Hr as ([] & s1 & [= <-] & Hr). apply bind_ok in Hr as ([] & s2 & [= <-] & Hr). by injection Hr as <-.
Qed.
Lemma flush_out w b stream s u :
  out_ok w stream -> flush_if_full W charge1 (w, b) = (s, Ok u) -> out_ok s.1 stream.
Proof.
  intros (Hw & Ho & Hp & Hk) Hf. destruct (flush_if_full_run charge1 _ _ _ _ _ Hw Hp Hf) as (H1 & H2 & _).
  destruct H2 as (_ & E1 & _ & _ & E3 & _ & _ & _ & E2). split_and!; [done|unfold at_offset; by rewrite E1|lia|congruence].
Qed.

Context (WI : W -> Prop) (WI_charge : forall w, WI w -> WI (charge1 w).1).
Definition keeps_world (s s' : PackWriter * W) : Prop := WI s.2 -> WI s'.2.
#[export] Instance keeps_world_pre : PreOrder keeps_world.
Proof. unfold keeps_world. split; [by intros ?|]. intros a b d H1 H2 H3. auto. Qed.
Lemma drain_part_world : rel_ok keeps_world (drain_part W charge1).
Proof.
  unfold drain_part, the_writer, on_writer, part_number. rel_tac.
  - apply rel_ok_modify. intros s Hs. done.
  - intros s Hs. cbn. by apply WI_charge.
  - apply rel_ok_modify. intros s Hs. done.
  - intros s Hs. unfold push_part. by case_match.
Qed.
Lemma flush_world : rel_ok keeps_world (flush_if_full W charge1).
Proof.
  unfold flush_if_full, the_writer. apply rel_ok_bind; [apply _|apply rel_ok_gets, _|]. intros w.
  generalize (length (pw_part w)) as f. induction f as [|f IH]; [apply rel_ok_ret, _|]. cbn [flush_loop].
  unfold the_writer. apply rel_ok_bind; [apply _|apply rel_ok_gets, _|]. intros w'. case_match; [apply rel_ok_ret, _|].
  apply rel_ok_bind; [apply _|apply drain_part_world|]. intros _. apply IH.
Qed.
Lemma push_part_world chunk : rel_ok keeps_world (push_part W chunk).
Proof. intros s Hs. unfold push_part. by case_match. Qed.
#[local] Hint Resolve flush_world push_part_world : git_edge.
Lemma finish_world : rel_ok keeps_world (finish W charge1).
Proof.
  assert (rel_ok keeps_world (finish_inner W charge1)) as H1.
  { unfold finish_inner, the_writer, on_writer, part_number. rel_tac; try (by apply rel_ok_modify; intros s Hs).
    intros s Hs. cbn. by apply WI_charge. }
  assert (rel_ok keeps_world (seal W charge1)) as H2.
  { unfold seal, the_writer. rel_tac. intros s Hs. cbn. by apply WI_charge. }
  intros s Hs. unfold finish. specialize (H1 s Hs). destruct (finish_inner W charge1 s) as [s' [u|e]]; [|done]. by apply H2.
Qed.
(** A finished pack is the stream and its digest. *)
Lemma finish_out_ok w b stream s meta obj :
  out_ok w stream -> finish W charge1 (w, b) = (s, Ok (meta, obj)) ->
  obj = stream ++ digest k0 stream /\ Z.of_nat (length obj) <= u64_max /\ pw_count w = pw_expected w
  /\ pm_count meta = pw_count w.
Proof.
  intros (Hw & _ & Hp & Hk) Hf. unfold finish in Hf.
  destruct (finish_inner W charge1 (w, b)) as [[w3 b3] [[]|e]] eqn:Ef; [|done].
  destruct (finish_inner_run charge1 _ _ _ _ _ Hw Hp Ef) as (Hk3 & Hce & chunks & [Hup _] & Hcc).
  destruct (seal_run charge1 _ _ _ _ _ Hf) as (Hcm & Hmc & Hmb). cbn [fst] in *.
  split_and!; [rewrite (complete_concat _ _ _ _ Hcm Hup), Hcc; by rewrite Hk| |done|rewrite Hmc; apply Hk3].
  clear -Hf. unfold seal in Hf. apply bind_ok in Hf as (w0 & s0 & [= <- <-] & Hr).
  apply bind_ok in Hr as ([] & s1 & _ & Hr). apply bind_ok in Hr as (o & s2 & _ & Hr).
  destruct (Z.eqb_spec (Z.of_nat (length o)) (sat_addu64 (pw_offset w3) (hash_len (pw_kind w3)))) as [E|]; [|done].
  injection Hr as _ _ <-. cbn [fst] in E. rewrite E. unfold sat_addu64. lia.
Qed.
End Out.

(** ** Pass B only charges and posts *)

Section World.
Context {PF : Platform} `{PC : PackCodec} `{MP : Multipart} `{RR : R2} `{GP : GixPack} `{GO : GitObjects}.
Context {W : Type} (charge1 : W -> W * result Error unit) (post_index : PackMeta -> list ObjRow -> M W Error unit).
Context (WI : W -> Prop) (WI_charge : forall w, WI w -> WI (charge1 w).1)
  (WI_post : forall m rows w, WI w -> WI (post_index m rows w).1).
Context (repo : string) (toc : list EntryRec) (externals : gmap string ObjLoc) (obj_kind : HashKind).
Definition keeps_cx (s s' : Cx W) : Prop := WI (cx_w W s) -> WI (cx_w W s').
Definition keeps_st (s s' : Bst W) : Prop := keeps_cx (st_cx W s) (st_cx W s').
#[local] Instance keeps_cx_pre : PreOrder keeps_cx.
Proof. unfold keeps_cx. split; [by intros ?|]. intros a b d H1 H2 H3. auto. Qed.
#[local] Instance keeps_st_pre : PreOrder keeps_st.
Proof. unfold keeps_st. split; [by intros ?|]. intros a b d H1 H2. by etrans. Qed.
Lemma cached_w k : rel_ok keeps_cx (cached W k).
Proof. by intros s Hs. Qed.
Lemma put_cache_w k o : rel_ok keeps_cx (put_cache W k o).
Proof. by intros s Hs. Qed.
Lemma set_live_w f : rel_ok keeps_cx (set_live W f).
Proof. by intros s Hs. Qed.
Lemma win_entry_w r : rel_ok keeps_cx (win_entry W charge1 r).
Proof. intros s Hs. cbn. by apply (window_entry_world charge1 WI WI_charge _ _ _ (cx_win W s, cx_w W s)). Qed.
Lemma win_read_w off n : rel_ok keeps_cx (win_read W charge1 off n).
Proof. intros s Hs. cbn. by apply source_read_world. Qed.
Lemma read_w l : rel_ok keeps_cx (on_w W (read_entries W charge1 repo l)).
Proof. intros s Hs. unfold on_w. cbn [fst cx_w]. by apply read_entries_world. Qed.
#[local] Hint Resolve cached_w put_cache_w set_live_w win_entry_w win_read_w read_w : git_edge.
Lemma external_w id : rel_ok keeps_cx (external W charge1 repo externals id).
Proof. unfold external. rel_tac. Qed.
#[local] Hint Resolve external_w : git_edge.
Lemma base_by_id_w nested id : (forall j, rel_ok keeps_cx (nested j)) -> rel_ok keeps_cx (base_by_id W charge1 repo externals nested id).
Proof. intros Hn. unfold base_by_id. rel_tac. Qed.
Lemma apply_chain_w chain k d : rel_ok keeps_cx (apply_chain W obj_kind chain k d).
Proof. revert d; induction chain as [|[o bs] chain IH]; intros d; cbn [apply_chain]; rel_tac. Qed.
#[local] Hint Resolve apply_chain_w : git_edge.
Lemma chain_done_w chain n o : rel_ok keeps_cx (chain_done W obj_kind chain n o).
Proof. unfold chain_done. rel_tac. Qed.
#[local] Hint Resolve chain_done_w : git_edge.
Lemma walk_w nested left off chain n : (forall j, rel_ok keeps_cx (nested j)) ->
  rel_ok keeps_cx (walk W charge1 repo toc externals obj_kind nested left off chain n).
Proof.
  intros Hn. pose proof (base_by_id_w nested) as Hb. revert off chain n; induction left as [|left IH]; intros off chain n; cbn [walk]; rel_tac.
Qed.
Lemma resolve_at_w hops start : rel_ok keeps_cx (resolve_at W charge1 repo toc externals obj_kind hops start).
Proof. revert start; induction hops as [|h IH]; intros start; cbn [resolve_at]; apply walk_w; intros j; rel_tac. Qed.
Lemma hop_w hops j : rel_ok keeps_cx (hop W charge1 repo toc externals obj_kind hops j).
Proof. pose proof resolve_at_w. unfold hop. rel_tac. Qed.
Lemma on_cx_w {A} (m : M (Cx W) Error A) : rel_ok keeps_cx m -> rel_ok keeps_st (on_cx W m).
Proof. intros Hm s. apply Hm. Qed.
Lemma on_pack_w {A} (m : M (PackWriter * W) Error A) : rel_ok (keeps_world WI) m -> rel_ok keeps_st (on_pack W m).
Proof. intros Hm s. apply (Hm (st_out W s, cx_w W (st_cx W s))). Qed.
Lemma entry_base_w rec : rel_ok keeps_st (entry_base W charge1 repo toc externals obj_kind rec).
Proof.
  unfold entry_base. rel_tac; apply on_cx_w; [apply resolve_at_w|]. apply base_by_id_w, hop_w.
Qed.
Lemma post_full_w : rel_ok keeps_st (post_full W post_index).
Proof.
  unfold post_full, post_meta. rel_tac; [|by apply rel_ok_modify; intros s Hs]. apply on_cx_w. intros s Hs. cbn. by apply WI_post.
Qed.
Lemma learn_w need id i : rel_ok keeps_st (learn W need id i).
Proof. destruct need; by intros s Hs. Qed.
Lemma push_row_w r : rel_ok keeps_st (push_row W r).
Proof. by intros s Hs. Qed.
Lemma push_links_w ls : rel_ok keeps_st (push_links W ls).
Proof. unfold push_links. rel_tac. by apply rel_ok_modify; intros s Hs. Qed.
Lemma extend_w bs : rel_ok keeps_st (on_pack W (on_writer W (raw_extend bs))).
Proof. by intros s Hs. Qed.
Lemma flush_w : rel_ok keeps_st (on_pack W (flush_if_full W charge1)).
Proof. apply on_pack_w, flush_world, WI_charge. Qed.
Lemma entry_done_w k start : rel_ok keeps_st (on_pack W (raw_entry_done W k start)).
Proof. apply on_pack_w. unfold raw_entry_done, the_writer, on_writer. rel_tac. by apply rel_ok_modify; intros s Hs. Qed.
Lemma append_from_w k d skip : rel_ok keeps_st (append_from W k d skip).
Proof.
  pose proof extend_w. pose proof entry_done_w. unfold append_from. rel_tac. apply on_pack_w. unfold append_entry, the_writer, on_writer.
  rel_tac; by apply rel_ok_modify; intros s Hs.
Qed.
#[local] Hint Resolve entry_base_w post_full_w learn_w push_row_w push_links_w extend_w flush_w entry_done_w append_from_w : git_edge.
Lemma emit_w rec i need skip base : rel_ok keeps_st (emit W charge1 post_index obj_kind rec i need skip base).
Proof.
  unfold emit. rel_tac; try (apply on_cx_w; auto with git_edge). by apply rel_ok_modify; intros s Hs.
Qed.
Lemma stream_body_w fuel rec z pos e skip taken data ended :
  rel_ok keeps_st (stream_body W charge1 fuel rec z pos e skip taken data ended).
Proof.
  revert z pos skip taken data ended; induction fuel as [|f IH]; intros z pos skip taken data ended; cbn [stream_body]; rel_tac.
  apply on_cx_w; auto with git_edge.
Qed.
#[local] Hint Resolve emit_w stream_body_w : git_edge.
Lemma one_entry_w i need skip : rel_ok keeps_st (one_entry W charge1 post_index repo toc externals obj_kind i need skip).
Proof. unfold one_entry, stream_blob. rel_tac. apply on_cx_w; auto with git_edge. Qed.
#[local] Hint Resolve one_entry_w : git_edge.
Lemma resolve_loop_w fuel need queue waiting :
  rel_ok keeps_st (resolve_loop W charge1 post_index repo toc externals obj_kind fuel need queue waiting).
Proof. revert queue waiting; induction fuel as [|f IH]; intros [|i queue] waiting; cbn [resolve_loop]; rel_tac. Qed.
#[local] Hint Resolve resolve_loop_w : git_edge.
Lemma prefetch_w bases : rel_ok keeps_st (prefetch W charge1 repo bases).
Proof.
  intros s Hs. unfold prefetch. pose proof (on_cx_w _ (read_w (prefetch_list bases 0)) s Hs) as H1.
  destruct (on_cx W _ s) as [s' [es|]]; [|done]. revert H1. cbn [fst]. change (keeps_st s' (for_each es (fun e => o ← lift (decode_entry e.2); on_cx W (put_cache W (KId e.1) o)) s').1).
  apply rel_ok_for_each; [apply _|]. intros e. rel_tac. apply on_cx_w; auto with git_edge.
Qed.
#[local] Hint Resolve prefetch_w : git_edge.
Lemma normalize_w iter : rel_ok keeps_st (resolve_and_normalize W charge1 post_index repo toc externals obj_kind iter).
Proof. unfold resolve_and_normalize. rel_tac. Qed.
End World.

(** ** Rows *)

Section Emit.
Context {PF : Platform} `{PC : PackCodec} `{MP : Multipart} `{RR : R2} `{GP : GixPack} `{GO : GitObjects}.
Context `{PL : !PackCodecLaws} `{ML : !MultipartLaws} `{GL : !GixLaws}.
Context (object : string -> option (list Z)) `{RL : !R2Laws object}.
Context (repo : string) (toc : list EntryRec) (externals : gmap string ObjLoc) (obj_kind : HashKind) (c : list Z).
Abbreviation denotes := (denotes object repo toc externals obj_kind c).
Abbreviation oid o := (object_id obj_kind o.1 o.2).

(** The row's extent of [stream] holds the object.  An offset saturates past
    [u64]; no pack is that long. *)
Definition row_at (stream : list Z) (row : ObjRow) (o : Obj) : Prop :=
  Z.of_nat (length stream) <= u64_max ->
  0 <= or_offset row /\ or_offset row + or_len row <= Z.of_nat (length stream) /\ 0 <= or_len row
  /\ entry_object (slice stream (or_offset row) (or_len row)) o.
(** The row of entry [i]: of the object it denotes, with what the object refers to
    among the links to check and the tag's target noted. *)
Definition row_for (stream : list Z) (links : list string) (tags : gmap string string) (row : ObjRow) (i : nat) : Prop :=
  exists r o ls, toc !! i = Some r /\ denotes (er_offset r) o /\ oid o = Some (or_sha row)
  /\ or_idx row = Z.of_nat i /\ or_kind row = o.1 /\ or_size row = Z.of_nat (length o.2)
  /\ extract_links o.1 o.2 obj_kind = Ok ls /\ ls ⊆ links
  /\ or_parents row = (if bool_decide (o.1 = Commit) then Some (drop 1 ls) else None)
  /\ (o.1 = Tag -> tags !! or_sha row = head ls)
  /\ row_at stream row o.

Lemma row_at_grow stream more row o : row_at stream row o -> row_at (stream ++ more) row o.
Proof.
  intros Hr Hl. rewrite length_app in Hl. destruct Hr as (H1 & H2 & H3 & H4); [lia|].
  rewrite length_app. split_and!; [done|lia|done|]. by rewrite slice_app_l by lia.
Qed.
Lemma row_at_new stream e row o :
  or_offset row = Z.min u64_max (Z.of_nat (length stream)) ->
  (Z.of_nat (length (stream ++ e)) <= u64_max -> or_len row = Z.of_nat (length e)) ->
  entry_object e o -> row_at (stream ++ e) row o.
Proof.
  intros E1 E2 He Hl. specialize (E2 Hl). rewrite length_app in *. rewrite E1, E2, Z.min_r by lia.
  split_and!; [lia..|]. rewrite slice_app_r, Z.sub_diag by lia. unfold slice. rewrite drop_0, Nat2Z.id.
  by rewrite take_ge.
Qed.
Lemma encode_entry_object k d : entry_object (encode_entry k d []) (k, d).
Proof.
  unfold encode_entry. rewrite app_nil_l. exists (Z.of_nat (length (header_write k (Z.of_nat (length d))))), (Z.of_nat (length (deflate d))).
  cbn [fst snd]. rewrite header_roundtrip, Nat2Z.id, drop_app_length. split; [done|].
  by rewrite <- (app_nil_r (deflate d)) at 1; rewrite inflate_deflate.
Qed.

(** ** The steps of one entry *)

Context {W : Type} (charge1 : W -> W * result Error unit) (post_index : PackMeta -> list ObjRow -> M W Error unit).
(** [posted rows w]: exactly these rows were sent and accepted. *)
Context (posted : list ObjRow -> W -> Prop).
Context (posted_charge : forall rows w, posted rows w -> posted rows (charge1 w).1).
Context (posted_post : forall rows m new w w', posted rows w -> post_index m new w = (w', Ok tt) -> posted (rows ++ new) w').
Context (HT : toc_ok toc obj_kind c) (HH : honest object repo toc externals obj_kind c).
Abbreviation XIp ps := (XI object repo toc externals obj_kind c (posted ps)).

Record BS (ps : list ObjRow) (stream : list Z) (rows : list ObjRow) (links : list string) (tags : gmap string string)
    (s : Bst W) : Prop := {
  bs_cx : XIp ps (st_cx W s);
  bs_out : out_ok obj_kind (st_out W s) stream;
  bs_rows : st_rows W s = rows;
  bs_links : st_links W s = links;
  bs_tags : st_tags W s = tags
}.
Lemma on_cx_bs {A} ps stream rows links tags (m : M (Cx W) Error A) (phi : A -> Prop) :
  pc (XIp ps) m (fun a s => XIp ps s /\ phi a) ->
  pc (BS ps stream rows links tags) (on_cx W m) (fun a s => BS ps stream rows links tags s /\ phi a).
Proof.
  intros Hm s [H1 H2 H3 H4 H5]. specialize (Hm _ H1). unfold on_cx. destruct (m (st_cx W s)) as [x [a|]]; [|done].
  destruct Hm as [Hx Ha]. by split.
Qed.
Lemma on_pack_bs {A} ps stream stream' rows links tags (m : M (PackWriter * W) Error A) (phi : A -> Prop) :
  (forall w b s a, out_ok obj_kind w stream -> posted ps b -> m (w, b) = (s, Ok a) -> out_ok obj_kind s.1 stream' /\ posted ps s.2 /\ phi a) ->
  pc (BS ps stream rows links tags) (on_pack W m) (fun a s => BS ps stream' rows links tags s /\ phi a).
Proof.
  intros Hm s [H1 H2 H3 H4 H5]. unfold on_pack. destruct (m (st_out W s, cx_w W (st_cx W s))) as [x [a|]] eqn:E; [|done].
  destruct (Hm _ _ _ _ H2 (xi_w _ _ _ _ _ _ _ _ H1) E) as (E1 & E2 & E3). split; [|done].
  split; try done. destruct H1. by split.
Qed.
Lemma extend_bs ps stream rows links tags bs :
  pc (BS ps stream rows links tags) (on_pack W (on_writer W (raw_extend bs))) (fun _ => BS ps (stream ++ bs) rows links tags).
Proof.
  eapply triple_post; [|apply (on_pack_bs _ _ (stream ++ bs) _ _ _ _ (fun _ => True))]; [by intros ? ? [? _]|].
  intros w b s a Hw Hb [= <- _]. split_and!; [by apply raw_extend_out|done|done].
Qed.
Lemma flush_bs ps stream rows links tags :
  pc (BS ps stream rows links tags) (on_pack W (flush_if_full W charge1)) (fun _ => BS ps stream rows links tags).
Proof.
  eapply triple_post; [|apply (on_pack_bs _ _ stream _ _ _ _ (fun _ => True))]; [by intros ? ? [? _]|].
  intros w b s a Hw Hb E. split_and!; [by eapply flush_out| |done].
  pose proof (flush_world charge1 (posted ps) (posted_charge ps) (w, b) Hb) as H1. by rewrite E in H1.
Qed.
Lemma push_row_bs ps stream rows links tags row :
  pc (BS ps stream rows links tags) (push_row W row) (fun _ => BS ps stream (rows ++ [row]) links tags).
Proof. intros s [H1 H2 H3 H4 H5]. split; try done. cbn. by rewrite H3. Qed.
Lemma push_links_bs ps stream rows links tags ls :
  pc (BS ps stream rows links tags) (push_links W ls) (fun _ => BS ps stream rows (links ++ ls) tags).
Proof.
  eapply (modify_bind _ (BS ps stream rows (links ++ ls) tags)).
  - intros s [H1 H2 H3 H4 H5]. split; try done. cbn. by rewrite H4.
  - apply gets_bind. intros n. case_match; [done|]. by intros s [Hs _].
Qed.
Lemma learn_bs ps stream rows links tags need id i r o :
  toc !! i = Some r -> denotes (er_offset r) o -> oid o = Some id ->
  pc (BS ps stream rows links tags) (learn W need id i) (fun _ => BS ps stream rows links tags).
Proof.
  intros E1 E2 E3. destruct need; [|by intros s Hs]. intros s [[H1 H2 H3 H4 H5] H6 H7 H8 H9].
  split; try done. split; try done. cbn. intros id' i' [[<- <-]|[_ Hl]]%lookup_insert_Some; [by exists r, o|by apply H4].
Qed.
Lemma post_meta_bs ps stream rows links tags m new :
  pc (BS ps stream rows links tags) (post_meta W post_index m new) (fun _ => BS (ps ++ new) stream rows links tags).
Proof.
  unfold post_meta. apply gets_bind. intros n. destruct (MAX_LINKS <? n); [done|].
  intros s [[[H1 H2 H3 H4 H5] H6 H7 H8 H9] _]. unfold on_cx, on_w.
  destruct (post_index m new (cx_w W (st_cx W s))) as [w' [[]|]] eqn:E; [|done]. cbn.
  split; try done. split; try done. cbn. by eapply posted_post.
Qed.
(** A full batch is sent and the buffer emptied: together they stay all rows. *)
Lemma post_full_bs ps stream rows links tags :
  pc (BS ps stream rows links tags) (post_full W post_index)
    (fun _ s => exists ps' rows', ps' ++ rows' = ps ++ rows /\ BS ps' stream rows' links tags s).
Proof.
  unfold post_full. apply gets_bind. intros rs s [Hs ->]. rewrite (bs_rows _ _ _ _ _ _ Hs).
  destruct (Z.of_nat (length rows) <? 10000); [by exists ps, rows|].
  revert s Hs. apply (triple_bind _ _ (fun _ => BS (ps ++ rows) stream rows links tags)); [apply post_meta_bs|].
  intros _ s [H1 H2 H3 H4 H5]. cbn. exists (ps ++ rows), []. rewrite app_nil_r. by split.
Qed.

(** The stream is what the writer was given with, and [n] entries. *)
Context (stream0 : list Z).
Definition tiled (stream : list Z) (n : nat) : Prop :=
  exists es, stream = stream0 ++ concat es /\ length es = n /\ Forall (fun e => exists o, entry_object e o) es.
Lemma tiled_snoc stream n e o : tiled stream n -> entry_object e o -> tiled (stream ++ e) (n + 1).
Proof.
  intros (es & -> & <- & Hf) He. exists (es ++ [e]). rewrite concat_app, length_app. cbn. rewrite app_nil_r, app_assoc.
  split_and!; [done..|]. apply Forall_app. split; [done|]. constructor; [by exists o|done].
Qed.
Definition BI (done : list nat) (s : Bst W) : Prop :=
  exists ps stream rows links tags, BS ps stream rows links tags s /\ Forall2 (row_for stream links tags) (ps ++ rows) done
  /\ tiled stream (length done).
Definition new_tags (id : string) (o : Obj) (ls : list string) (tags : gmap string string) : gmap string string :=
  match o.1, ls with Tag, t :: _ => insert id t tags | _, _ => tags end.
(** Objects of one id are one object, so an entry never changes another's tag. *)
Lemma row_for_grow stream e links ls tags id o off row i :
  denotes off o -> oid o = Some id -> extract_links o.1 o.2 obj_kind = Ok ls ->
  row_for stream links tags row i -> row_for (stream ++ e) (links ++ ls) (new_tags id o ls tags) row i.
Proof.
  intros Hd Hi Hl (r & o' & ls' & E1 & E2 & E3 & E4 & E5 & E6 & E7 & E8 & E9 & E10 & E11).
  exists r, o', ls'. split_and!; try done; [set_solver| |by apply row_at_grow].
  intros Ht. specialize (E10 Ht). unfold new_tags. destruct o as [[] d]; try done. cbn [fst snd] in *.
  destruct ls as [|t ls]; [done|]. destruct (decide (or_sha row = id)) as [E|E]; [|by rewrite lookup_insert_ne].
  assert ((Tag, d) = o') as <- by (eapply (ho_inj _ _ _ _ _ _ HH); [left; by eexists|left; by eexists|done|congruence]).
  cbn [fst snd] in E7. rewrite Hl in E7. injection E7 as <-. rewrite E. by rewrite lookup_insert_eq.
Qed.
(** The last step of an entry: its row is in the batch, which may be sent. *)
Lemma settle_bi ps stream e rows links tags done row i r o ls id :
  Forall2 (row_for stream links tags) (ps ++ rows) done -> tiled stream (length done) -> entry_object e o ->
  denotes (er_offset r) o -> oid o = Some id -> extract_links o.1 o.2 obj_kind = Ok ls ->
  row_for (stream ++ e) (links ++ ls) (new_tags id o ls tags) row i ->
  pc (BS ps (stream ++ e) (rows ++ [row]) (links ++ ls) (new_tags id o ls tags))
    (post_full W post_index ≫= fun _ => mret (StDone id))
    (fun r s => BI (done ++ [i]) s /\ r = StDone id).
Proof.
  intros Hf Htl Hobj E2 E3 E4 Hr. eapply triple_bind; [apply post_full_bs|]. intros _ s (ps' & rows' & Eq & Hs). split; [|done].
  exists ps', (stream ++ e), rows', (links ++ ls), (new_tags id o ls tags). split; [done|].
  split; [|rewrite length_app; by eapply tiled_snoc].
  rewrite Eq, app_assoc. apply Forall2_app; [|by constructor].
  eapply Forall2_impl; [exact Hf|]. intros row' i'. by eapply row_for_grow.
Qed.
Lemma to_idx_ok i z : to_idx i = Ok z -> z = Z.of_nat i.
Proof. unfold to_idx. case_match; [by intros [= <-]|done]. Qed.
Lemma emit_bi done rec i need base :
  toc !! i = Some rec ->
  (forall o, decode_mini obj_kind base (raw c rec) = Ok o -> denotes (er_offset rec) o) ->
  pc (BI done) (emit W charge1 post_index obj_kind rec i need 0 base) (fun r s => BI (done ++ [i]) s /\ exists id, r = StDone id).
Proof.
  intros Ei Hb s0 (ps & stream & rows & links & tags & Hs & Hf & Htl). revert s0 Hs.
  change (pc (BS ps stream rows links tags) (emit W charge1 post_index obj_kind rec i need 0 base)
    (fun r s => BI (done ++ [i]) s /\ exists id, r = StDone id)). unfold emit.
  assert (rec_ok obj_kind c rec) as Hrec.
  { pose proof (to_recs _ _ _ HT) as Hr. rewrite Forall_forall in Hr. apply Hr. by eapply list_elem_of_lookup_2. }
  eapply triple_bind; [apply on_cx_bs, win_entry_pc; [done..|apply posted_charge|done]|]. intros bs.
  apply triple_pure. intros ->. eapply triple_bind; [by apply triple_lift|]. intros o. apply triple_pure. intros Ed.
  specialize (Hb o Ed). eapply triple_bind; [by apply triple_lift|]. intros id. apply triple_pure. intros Eid.
  destruct (object_id obj_kind o.1 o.2) as [id'|] eqn:Eo; [|done]. injection Eid as ->.
  eapply triple_bind; [by apply triple_lift|]. intros ls. apply triple_pure. intros El. cbv zeta.
  apply (modify_bind _ (BS ps stream rows links (new_tags id o ls tags))).
  { intros s [H1 H2 H3 H4 H5]. split; try done. cbn. by rewrite H5. }
  apply (triple_bind _ _ (fun _ => BS ps stream rows (links ++ ls) (new_tags id o ls tags))); [apply push_links_bs|]. intros _.
  set (e := encode_entry o.1 o.2 []).
  eapply (triple_bind _ _ (fun p s => BS ps (stream ++ e) rows (links ++ ls) (new_tags id o ls tags) s
    /\ p = (Z.min u64_max (Z.of_nat (length stream)), Z.of_nat (length e)))).
  { apply (on_pack_bs _ _ _ _ _ _ _ (fun p => p = _)). intros w b s a Hw Hp Ha.
    destruct (append_out _ _ _ _ _ _ _ _ Hw Ha) as (H1 & H2 & H3). split_and!; [done|by rewrite H2|done]. }
  intros p. apply triple_pure. intros ->. set (Q := BS ps (stream ++ e) rows (links ++ ls) (new_tags id o ls tags)).
  apply (triple_bind _ _ (fun _ => Q)); [apply flush_bs|]. intros _.
  eapply triple_bind; [by apply triple_lift|]. intros ix. apply triple_pure. intros ->%to_idx_ok. cbn [fst snd].
  set (row := mkObjRow _ _ _ _ _ _ _).
  set (Q' := BS ps (stream ++ e) (rows ++ [row]) (links ++ ls) (new_tags id o ls tags)).
  apply (triple_bind _ _ (fun _ => Q')); [apply push_row_bs|]. intros _.
  apply (triple_bind _ _ (fun _ => Q')); [by eapply learn_bs|]. intros _.
  apply (triple_bind _ _ (fun _ => Q')).
  { eapply triple_post; [|apply (on_cx_bs _ _ _ _ _ _ (fun _ => True))]; [by intros ? ? [? _]|].
    eapply triple_post; [|by apply (put_cache_pc object repo toc externals obj_kind c (posted ps) (KOff (er_offset rec)))].
    by intros. }
  intros _. eapply triple_post; [|eapply settle_bi; [exact Hf|exact Htl|destruct o; apply encode_entry_object|exact Hb|exact Eo|exact El|]]; [intros ? ? [? ->]; eauto|].
  exists rec, o, ls. split_and!; try done; [set_solver| |].
  - intros Ht. unfold new_tags. rewrite Ht. destruct ls; [|by rewrite lookup_insert_eq].
    exfalso. clear -Ht El. destruct o as [k d]. cbn in *. subst k. cbn in El. unfold mbind, result_bind in El. by case_match.
  - apply row_at_new; [done|done|]. unfold e. destruct o. apply encode_entry_object.
Qed.

(** ** Streamed blobs *)

Lemma inflate_chunk_ok fuel z inp pos size data taken consumed r :
  midway z consumed data -> inflate_chunk fuel z inp pos size data taken = Ok r ->
  let '(z', data', taken', ended) := r in
  exists n, 0 <= n <= Z.of_nat (length inp) /\ taken' = taken + n
  /\ if (ended : bool) then zrun z_new (consumed ++ take (Z.to_nat n) inp) data'
     else n = Z.of_nat (length inp) /\ midway z' (consumed ++ inp) data'.
Proof.
  revert z inp data taken consumed; induction fuel as [|f IH]; intros z inp data taken consumed Hm; [done|].
  cbn [inflate_chunk]. unfold mbind, result_bind. destruct (z_step z inp (2 ^ 20)) as [[[[z' used] out] ended]|e] eqn:Ez; [|done].
  destruct (size <? _); [done|]. destruct (Z.ltb_spec (Z.of_nat (length inp)) used) as [|Hu]; [done|].
  destruct (z_step_bounds _ _ _ _ _ _ _ Ez) as [Hu0 _].
  pose proof (midway_step _ _ _ _ _ _ _ _ _ Hm Ez) as Hm'.
  destruct ((length (drop (Z.to_nat used) inp) =? 0)%nat || ended) eqn:Eo.
  - intros [= <-]. exists used. split; [lia|]. split; [done|]. destruct ended; [done|].
    rewrite orb_false_r, length_drop in Eo. apply Nat.eqb_eq in Eo. split; [lia|].
    by rewrite take_ge in Hm' by lia.
  - apply orb_false_iff in Eo as [Eo ->]. destruct ((used =? 0) && _); [done|]. intros Hr.
    apply (IH _ _ _ _ _ Hm') in Hr. destruct r as [[[z2 data2] taken2] ended2].
    destruct Hr as (n & Hn & -> & Hz). rewrite length_drop in Hn. exists (used + n). split; [lia|]. split; [lia|].
    destruct ended2.
    + rewrite <- app_assoc, take_take_drop in Hz. by rewrite Z2Nat.inj_add by lia.
    + destruct Hz as [Hn2 Hz]. rewrite length_drop in Hn2. split; [lia|].
      by rewrite <- app_assoc, take_drop in Hz.
Qed.

(** From [pos] on: the body up to some point is appended, and when the stream
    ended it did so inside what was appended. *)
Lemma stream_body_bs fuel rec ps pre rows links tags z body e pos taken data ended :
  rec_ok obj_kind c rec -> body = er_offset rec + er_hlen rec -> e = body + er_clen rec -> body <= pos <= e ->
  (ended = false -> midway z (slice c body (pos - body)) data /\ taken = pos - body) ->
  (ended = true -> taken <= pos - body /\ zrun z_new (slice c body taken) data /\ 0 <= taken) ->
  pc (BS ps (pre ++ slice c body (pos - body)) rows links tags)
    (stream_body W charge1 fuel rec z pos e 0 taken data ended)
    (fun r s => exists pos', body <= pos' <= e /\ BS ps (pre ++ slice c body (pos' - body)) rows links tags s
       /\ (r.2 = true -> r.1.1 <= pos' - body /\ zrun z_new (slice c body r.1.1) r.1.2 /\ 0 <= r.1.1)).
Proof.
  intros Hrec Hb He. pose proof Hrec as (Hr1 & Hr2 & Hr3 & _ & _ & Hr4). pose proof (to_len _ _ _ HT) as Hl.
  revert z pos taken data ended. induction fuel as [|f IH]; intros z pos taken data ended Hp Hf Ht; cbn [stream_body].
  { intros s Hs. exists pos. done. }
  destruct (negb (pos <? e) || ended) eqn:Ec; [intros s Hs; by exists pos|].
  apply orb_false_iff in Ec as [Ec ->]. destruct (Hf eq_refl) as [Hm ->]. clear Hf Ht.
  assert (0 < Z.min (sat_subu64 e pos) WINDOW <= e - pos) as Hn by (unfold sat_subu64, WINDOW; lia).
  set (n := Z.min (sat_subu64 e pos) WINDOW) in *.
  eapply triple_bind; [apply on_cx_bs, win_read_pc; [done|apply RL|apply posted_charge|lia..]|]. intros chunk.
  apply triple_pure. intros [-> Hlen]. eapply triple_bind; [by apply triple_lift|]. intros r. apply triple_pure. intros Hr.
  apply (inflate_chunk_ok _ _ _ _ _ _ _ _ _ Hm) in Hr. destruct r as [[[z' data'] taken'] ended'].
  destruct Hr as (k & Hk & -> & Hz). rewrite Hlen in Hk, Hz. rewrite Z.min_l by lia. change (Z.to_nat 0) with 0%nat. rewrite drop_0.
  assert (slice c body (pos - body) ++ slice c pos n = slice c body (pos + n - body)) as Es.
  { replace (pos + n - body) with ((pos - body) + n) by lia. rewrite slice_split by lia. do 2 f_equal. lia. }
  eapply (triple_bind _ _ (fun _ => BS ps (pre ++ slice c body (pos + n - body)) rows links tags)).
  { eapply triple_post; [|apply extend_bs]. intros u s Hs. by rewrite <- app_assoc, Es in Hs. }
  intros _. apply (triple_bind _ _ (fun _ => BS ps (pre ++ slice c body (pos + n - body)) rows links tags));
    [apply flush_bs|]. intros _. assert (sat_addu64 pos n = pos + n) as -> by (unfold sat_addu64, u64_max in *; lia).
  change (0 - 0) with 0. apply IH; [lia|intros ->|intros ->].
  - destruct Hz as [-> Hz]. rewrite Es in Hz. split; [done|lia].
  - split_and!; [lia| |lia]. replace (pos - body + k) with ((pos - body) + k) by lia. rewrite slice_split by lia.
    replace (take (Z.to_nat k) (slice c pos n)) with (slice c (body + (pos - body)) k) in Hz; [done|].
    unfold slice. rewrite take_take. do 2 f_equal; lia.
Qed.

(** The entry's bytes read back as the blob that was hashed. *)
Lemma streamed_object rec data :
  rec_ok obj_kind c rec -> er_header rec = HBlob -> Z.of_nat (length data) = er_size rec ->
  zrun z_new (slice c (er_offset rec + er_hlen rec) (er_clen rec)) data -> entry_object (raw c rec) (Blob, data).
Proof.
  intros (H1 & H2 & H3 & H4 & _ & H5) Hh Hl Hz. exists (er_hlen rec), (er_clen rec). cbn [fst snd].
  rewrite Hh in H4. rewrite (pack_entry_blob _ _ _ _ H4), Hl. split; [done|].
  assert (drop (Z.to_nat (er_hlen rec)) (raw c rec) = slice c (er_offset rec + er_hlen rec) (er_clen rec) ++ []) as ->.
  { unfold raw. rewrite slice_split by lia. rewrite app_nil_r. apply drop_app_length'.
    unfold slice. rewrite length_take, length_drop. lia. }
  rewrite <- Hl. apply (z_whole _ _ []) in Hz as ->. rewrite slice_length by lia. done.
Qed.
Lemma toc_rec i rec : toc !! i = Some rec -> rec_ok obj_kind c rec.
Proof.
  intros Ei. pose proof (to_recs _ _ _ HT) as Hr. rewrite Forall_forall in Hr. apply Hr. by eapply list_elem_of_lookup_2.
Qed.
Lemma done_blob_bs ps stream e rows links tags start :
  start = Z.min u64_max (Z.of_nat (length stream)) ->
  pc (BS ps (stream ++ e) rows links tags) (on_pack W (raw_entry_done W Blob start))
    (fun p s => BS ps (stream ++ e) rows links tags s /\ p.1 = start
       /\ (Z.of_nat (length (stream ++ e)) <= u64_max -> p.2 = Z.of_nat (length e))).
Proof.
  intros ->. apply (on_pack_bs _ _ _ _ _ _ _ (fun p => p.1 = _ /\ (_ -> p.2 = _))). intros w b s a Hw Hp Ha.
  destruct (raw_entry_done_out _ _ _ _ _ _ _ _ Hw Ha) as (H1 & -> & H3). split; [done|]. split; [by rewrite H3|].
  split; [done|]. cbn. destruct Hw as (_ & Ho & _). rewrite Ho, length_app. intros Hl. unfold sat_subu64, u64_max in *. lia.
Qed.
(** The blob is hashed and its row posted. *)
Lemma blob_row_bi ps stream rows links tags done rec i need start data :
  Forall2 (row_for stream links tags) (ps ++ rows) done -> tiled stream (length done) ->
  toc !! i = Some rec -> er_header rec = HBlob -> MAX_OBJ < er_size rec -> Z.of_nat (length data) = er_size rec ->
  entry_object (raw c rec) (Blob, data) -> start = Z.min u64_max (Z.of_nat (length stream)) ->
  pc (BS ps (stream ++ raw c rec) rows links tags)
    (id ← lift (opt_or (Unpack "sha1 collision") (hex_digest <$> finalize obj_kind (loose_header Blob (er_size rec) ++ data)));
     p ← on_pack W (raw_entry_done W Blob start);
     idx ← lift (to_idx i);
     push_row W (mkObjRow id idx p.1 p.2 Blob (er_size rec) None) ≫= fun _ =>
     learn W need id i ≫= fun _ => post_full W post_index ≫= fun _ => mret (StDone id))
    (fun r s => BI (done ++ [i]) s /\ exists id, r = StDone id).
Proof.
  intros Hf Htl Ei Hh Hbig Hsz Hobj Est.
  assert (denotes (er_offset rec) (Blob, data)) as Hd by (eapply d_big; [by eapply idx_entry|done..]).
  eapply triple_bind; [by apply triple_lift|]. intros id. apply triple_pure. intros Eid.
  assert (oid (Blob, data) = Some id) as Eo.
  { unfold object_id. cbn [fst snd]. rewrite Hsz. by destruct (hex_digest <$> _); [injection Eid as ->|]. }
  eapply triple_bind; [by apply done_blob_bs|]. intros p. apply triple_pure. intros [Ep1 Ep2].
  eapply triple_bind; [by apply triple_lift|]. intros ix. apply triple_pure. intros ->%to_idx_ok.
  set (row := mkObjRow _ _ _ _ _ _ _). set (Q' := BS ps (stream ++ raw c rec) (rows ++ [row]) links tags).
  apply (triple_bind _ _ (fun _ => Q')); [apply push_row_bs|]. intros _.
  apply (triple_bind _ _ (fun _ => Q')); [by eapply learn_bs|]. intros _.
  apply (triple_pre _ (BS ps (stream ++ raw c rec) (rows ++ [row]) (links ++ []) (new_tags id (Blob, data) [] tags))).
  { intros s Hs. by rewrite app_nil_r. }
  eapply triple_post; [|eapply settle_bi; [exact Hf|exact Htl|exact Hobj|exact Hd|exact Eo|done|]]; [intros ? ? [? ->]; eauto|].
  exists rec, (Blob, data), []. split_and!; try done; [set_solver|]. apply row_at_new; [cbn; congruence|exact Ep2|done].
Qed.
Lemma stream_blob_bi done rec i need :
  toc !! i = Some rec -> er_header rec = HBlob -> MAX_OBJ < er_size rec ->
  pc (BI done) (stream_blob W charge1 post_index obj_kind rec i need 0) (fun r s => BI (done ++ [i]) s /\ exists id, r = StDone id).
Proof.
  intros Ei Hh Hbig s0 (ps & stream & rows & links & tags & Hs & Hf & Htl). revert s0 Hs. pose proof (toc_rec _ _ Ei) as Hrec.
  pose proof Hrec as (Hr1 & Hr2 & Hr3 & _ & _ & Hr4). pose proof (to_len _ _ _ HT) as Hl.
  change (pc (BS ps stream rows links tags) (stream_blob W charge1 post_index obj_kind rec i need 0)
    (fun r s => BI (done ++ [i]) s /\ exists id, r = StDone id)). unfold stream_blob.
  eapply triple_bind; [apply triple_gets|]. intros s0. cbv zeta.
  apply (triple_pre _ (fun s => BS ps stream rows links tags s /\ sat_subu64 (pw_offset (st_out W s0)) 0 = Z.min u64_max (Z.of_nat (length stream)))).
  { intros s [Hs ->]. split; [done|]. destruct (bs_out _ _ _ _ _ _ Hs) as (_ & -> & _). unfold sat_subu64, u64_max. lia. }
  apply triple_pure. intros Est. set (start := sat_subu64 _ _) in *.
  eapply triple_bind; [apply on_cx_bs, win_read_pc; [done|apply RL|apply posted_charge|lia..]|]. intros hdr.
  apply triple_pure. intros [-> Hlen]. rewrite Z.min_l by lia. change (Z.to_nat 0) with 0%nat. rewrite drop_0.
  set (body := er_offset rec + er_hlen rec). assert (sat_addu64 (er_offset rec) (er_hlen rec) = body) as -> by (unfold sat_addu64, body; lia).
  assert (sat_addu64 body (er_clen rec) = body + er_clen rec) as -> by (unfold sat_addu64, body; lia). change (0 - 0) with 0.
  set (hdr := slice c (er_offset rec) (er_hlen rec)).
  apply (triple_bind _ _ (fun _ => BS ps ((stream ++ hdr) ++ slice c body (body - body)) rows links tags)).
  { rewrite Z.sub_diag, slice_empty, app_nil_r by lia. apply extend_bs. }
  intros _. eapply triple_bind; [apply (stream_body_bs _ _ _ _ _ _ _ _ body); [done|done|done|lia| |done]|].
  { intros _. rewrite Z.sub_diag, slice_empty by lia. split; [|done]. intros rest more Hz. done. }
  intros [[taken data] ended] s (pos' & Hpos & Hs & Hend). revert s Hs. cbn [fst snd] in Hend.
  match goal with |- forall s, BS ?a ?b ?d ?e ?f s -> match ?m s with _ => _ end =>
    change (pc (BS a b d e f) m (fun r s => BI (done ++ [i]) s /\ exists id, r = StDone id)) end.
  destruct (_ || _) eqn:Eg; [done|]. bsimp. subst ended. destruct (Hend eq_refl) as (Ht & Hz & _).
  assert (pos' = body + er_clen rec) as -> by lia. rewrite Z.add_simpl_l.
  assert ((stream ++ hdr) ++ slice c body (er_clen rec) = stream ++ raw c rec) as ->.
  { unfold raw. rewrite slice_split by lia. by rewrite app_assoc. }
  apply blob_row_bi; try done. apply streamed_object; try done. by replace (er_clen rec) with taken by lia.
Qed.

(** ** One entry *)

Lemma on_cx_bi {A} done (m : M (Cx W) Error A) (phi : A -> Prop) :
  (forall ps, pc (XIp ps) m (fun a s => XIp ps s /\ phi a)) -> pc (BI done) (on_cx W m) (fun a s => BI done s /\ phi a).
Proof.
  intros Hm s (ps & stream & rows & links & tags & Hs & Hf & Htl).
  pose proof (on_cx_bs ps stream rows links tags m phi (Hm ps) s Hs) as H1.
  destruct (on_cx W m s) as [s' [a|]]; [|done]. destruct H1 as [H1 H2]. split; [|done]. by exists ps, stream, rows, links, tags.
Qed.
(** The base found, if the entry has one, makes its decoding what it denotes. *)
Lemma entry_base_bi done rec i :
  toc !! i = Some rec -> ~ (er_header rec = HBlob /\ MAX_OBJ < er_size rec) ->
  pc (BI done) (entry_base W charge1 repo toc externals obj_kind rec)
    (fun b s => BI done s /\ match b with
       | Some (BAwait _) => True
       | Some (BReady x) => forall o, decode_mini obj_kind (Some x) (raw c rec) = Ok o -> denotes (er_offset rec) o
       | None => forall o, decode_mini obj_kind None (raw c rec) = Ok o -> denotes (er_offset rec) o end).
Proof.
  intros Ei Hbig. pose proof (toc_rec _ _ Ei) as (_ & _ & _ & _ & Hsz & _). pose proof (idx_entry _ _ _ HT _ _ Ei) as Ee.
  unfold entry_base. destruct (er_header rec) as [| | | |dist|id] eqn:Eh.
  5: { eapply triple_bind; [by apply triple_lift|]. intros off. apply triple_pure. intros Eo.
       destruct (base_offset (er_offset rec) dist) as [off'|] eqn:Eb; [|done]. injection Eo as ->.
       eapply triple_bind; [apply on_cx_bi; intros ps; apply resolve_at_pc; [exact HT|exact HH|exact RL|apply posted_charge]|].
       intros b s [Hs Hb]. split; [done|]. destruct b as [x|]; [|done]. intros o Ho. by eapply d_ofs. }
  5: { eapply triple_bind; [apply on_cx_bi; intros ps; apply base_by_id_pc; [exact HH|exact RL|apply posted_charge|]|].
       { apply hop_pc; [exact HT|exact HH|exact RL|apply posted_charge]. }
       intros b s [Hs Hb]. split; [done|]. destruct b as [x|]; [|done]. intros o Ho.
       destruct Hb as [Hb|[[off Hb] Hi]]; [by eapply d_store|by eapply d_pack]. }
  all: intros s Hs; (split; [done|]); intros o Ho; eapply d_full; [done|by rewrite Eh| |done]; first [by apply Hsz|apply Z.nlt_ge; intros ?; by apply Hbig].
Qed.
Lemma one_entry_bi done i need :
  pc (BI done) (one_entry W charge1 post_index repo toc externals obj_kind i need 0)
    (fun r s => match r with StDone _ => BI (done ++ [i]) s | StAwait _ => BI done s end).
Proof.
  unfold one_entry. eapply triple_bind; [by apply triple_lift|]. intros rec. apply triple_pure. intros Er.
  unfold by_idx in Er. destruct (toc !! i) as [r'|] eqn:Ei; [|done]. injection Er as ->.
  destruct (bool_decide (er_header rec = HBlob) && (MAX_OBJ <? er_size rec)) eqn:Eb.
  - bsimp. eapply triple_post; [|by apply stream_blob_bi]. intros ? s [Hs [id ->]]. done.
  - eapply triple_bind; [apply (entry_base_bi _ _ _ Ei)|].
    { intros [Hh Hm]. rewrite bool_decide_eq_true_2 in Eb by done. cbn in Eb. lia. }
    intros [[x|id]|]; apply triple_pure; intros Hb; [|by intros s Hs|];
      (eapply triple_post; [|by apply emit_bi]; intros ? s [Hs [id ->]]; done).
Qed.

(** ** The loop *)

Definition waiters (m : gmap string (list nat)) : list nat := concat (map snd (map_to_list m)).
Lemma waiters_delete m k : waiters m ≡ₚ unwrap_or [] (m !! k) ++ waiters (delete k m).
Proof.
  unfold waiters. destruct (m !! k) as [l|] eqn:E; cbn [unwrap_or]; [|by rewrite delete_id].
  rewrite <- (map_to_list_delete m k l E). done.
Qed.
Lemma waiters_insert m k l : waiters (insert k l m) ≡ₚ l ++ waiters (delete k m).
Proof. rewrite (waiters_delete _ k), lookup_insert_eq. cbn [unwrap_or]. by rewrite delete_insert_eq. Qed.
(** What is queued, waiting or done never changes as a whole. *)
Lemma resolve_loop_bi fuel need queue waiting done :
  pc (BI done) (resolve_loop W charge1 post_index repo toc externals obj_kind fuel need queue waiting)
    (fun w s => forall waiting', w = Some waiting' ->
       exists done', BI done' s /\ waiters waiting' ++ done' ≡ₚ queue ++ waiters waiting ++ done).
Proof.
  revert queue waiting done; induction fuel as [|f IH]; intros [|i queue] waiting done; cbn [resolve_loop];
    try (intros s Hs ? [= <-]; by exists done).
  eapply triple_bind; [apply one_entry_bi|]. intros [id|b]; (eapply triple_post; [|apply IH]);
    intros w s Hw waiting' E; destruct (Hw waiting' E) as (done' & Hs & Hp); exists done'; (split; [done|]); rewrite Hp.
  - rewrite (waiters_delete waiting id). solve_Permutation.
  - rewrite waiters_insert, (waiters_delete waiting b). solve_Permutation.
Qed.
(** Each turn ends an entry or parks one, and an entry is parked again only after
    another ended: the fuel lasts. *)
Lemma resolve_loop_fuel fuel need queue waiting s n :
  (length queue + length (waiters waiting) <= n)%nat ->
  (length queue + (length queue + length (waiters waiting)) * S n <= fuel)%nat ->
  (resolve_loop W charge1 post_index repo toc externals obj_kind fuel need queue waiting s).2 <> Ok None.
Proof.
  revert queue waiting s; induction fuel as [|f IH]; intros [|i queue] waiting s Hn Hf; cbn [resolve_loop length] in *;
    try done; [lia|].
  unfold mbind, M_bind. destruct (one_entry _ _ _ _ _ _ _ _ _ _ s) as [s' [[id|b]|]]; [| |done].
  - assert (length (waiters waiting) = length (unwrap_or [] (waiting !! id)) + length (waiters (delete id waiting)))%nat as E
      by (rewrite <- length_app; apply Permutation_length, waiters_delete).
    apply IH; rewrite length_app; lia.
  - assert (length (waiters (insert b (unwrap_or [] (waiting !! b) ++ [i]) waiting)) = S (length (waiters waiting))) as E.
    { rewrite (Permutation_length (waiters_insert _ _ _)), (Permutation_length (waiters_delete waiting b)), !length_app. cbn. lia. }
    apply IH; rewrite E; lia.
Qed.

(** ** Prefetch *)

Lemma prefetch_list_sub bases sum : prefetch_list bases sum ⊆ bases.
Proof.
  revert sum; induction bases as [|b bases IH]; intros sum; [done|]. cbn [prefetch_list].
  destruct (lc_size b.2 <=? MAX_OBJ); [|specialize (IH sum); set_solver].
  case_match; [apply list_subseteq_nil|]. specialize (IH (sat_addu64 sum (lc_len b.2))). set_solver.
Qed.
(** What an entry read at a known location decodes to is what the repository holds. *)
Lemma entries_stored (ls : list (string * ObjLoc)) (es : list (string * list Z)) :
  Forall (fun l => externals !! l.1 = Some l.2) ls -> Forall2 (entry_at object repo) ls es ->
  Forall (fun e => forall o, decode_entry e.2 = Ok o -> stored object repo externals e.1 o) es.
Proof.
  intros Hl. induction 1 as [|l e ls es (E1 & p & E2 & E3 & E4) Hf IH]; [done|].
  apply Forall_cons in Hl as [Hl0 Hl]. constructor; [|by apply IH].
  intros o Ho. exists l.2, p. by rewrite E1, <- E4.
Qed.
Lemma prefetch_put_bi done (es : list (string * list Z)) :
  Forall (fun e => forall o, decode_entry e.2 = Ok o -> stored object repo externals e.1 o) es ->
  pc (BI done) (for_each es (fun e => o ← lift (decode_entry e.2); on_cx W (put_cache W (KId e.1) o))) (fun _ => BI done).
Proof.
  induction 1 as [|e es He Hst IH]; [by intros s0 Hs0|]. cbn [for_each].
  apply (triple_bind _ _ (fun _ => BI done)); [|intros _; exact IH].
  eapply triple_bind; [by apply triple_lift|]. intros o. apply triple_pure. intros Eo.
  eapply triple_post; [|apply (on_cx_bi _ _ (fun _ => True))]; [by intros ? ? [? _]|]. intros ps.
  eapply triple_post; [|by apply (put_cache_pc object repo toc externals obj_kind c (posted ps) (KId e.1)), He]. by intros.
Qed.
Lemma prefetch_bi done bases :
  bases ⊆ map_to_list externals -> pc (BI done) (prefetch W charge1 repo bases) (fun _ => BI done).
Proof.
  intros Hsub. assert (Forall (fun l => externals !! l.1 = Some l.2) (prefetch_list bases 0)) as Hl.
  { apply Forall_forall. intros [id loc] Hin. by apply prefetch_list_sub, Hsub, elem_of_map_to_list in Hin. }
  intros s (ps & stream & rows & links & tags & Hs & Hf & Htl). unfold prefetch, on_cx, on_w. cbn [fst snd].
  pose proof (read_entries_world repo charge1 (posted ps) (posted_charge ps) (prefetch_list bases 0) (cx_w W (st_cx W s))
    (xi_w _ _ _ _ _ _ _ _ (bs_cx _ _ _ _ _ _ Hs))) as Hw.
  destruct (read_entries _ _ _ _ (cx_w W (st_cx W s))) as [w' r] eqn:E. cbn [fst snd] in *.
  set (s1 := mkBst W _ _ _ _ _). assert (BI done s1) as Hs1.
  { exists ps, stream, rows, links, tags. split; [|done]. destruct Hs as [[] ? ? ? ?]. by split. }
  destruct r as [es|e]; [|done]. apply (read_entries_exact_aux object) in E as (ls & Hp & Hes).
  - rewrite <- Hp in Hl. by apply prefetch_put_bi, Hs1; apply (entries_stored _ _ Hl Hes).
  - eapply Forall_impl; [exact Hl|]. intros [id loc] Hx'. by apply (ho_locs _ _ _ _ _ _ HH).
Qed.

(** ** Pass B as a whole *)

Lemma waiters_nil m : map_to_list m = [] -> waiters m = [].
Proof. unfold waiters. by intros ->. Qed.
Lemma start_bi key w out :
  object key = Some c -> pack_len toc obj_kind = Z.of_nat (length c) -> posted [] w -> out_ok obj_kind out stream0 ->
  BI [] (mkBst W (cx0 W toc obj_kind key w) out [] ∅ []).
Proof.
  intros Hk Hp Hw Ho. exists [], stream0, [], [], ∅. split; [by split|]. split; [constructor|].
  exists []. cbn. by rewrite app_nil_r.
Qed.
Lemma normalize_run key w out iter s r :
  object key = Some c -> pack_len toc obj_kind = Z.of_nat (length c) -> posted [] w -> out_ok obj_kind out stream0 ->
  iter externals ⊆ map_to_list externals ->
  resolve_and_normalize W charge1 post_index repo toc externals obj_kind iter (mkBst W (cx0 W toc obj_kind key w) out [] ∅ [])
    = (s, Ok r) ->
  r = Some tt /\ exists done, BI done s /\ done ≡ₚ seq 0 (length toc).
Proof.
  intros Hk Hp Hw Ho Hi. pose proof (start_bi _ _ _ Hk Hp Hw Ho) as Hs0. revert Hs0. generalize (mkBst W (cx0 W toc obj_kind key w) out [] ∅ []).
  intros s0 Hs0. unfold resolve_and_normalize. intros ([] & s1 & H1 & Hr)%bind_ok.
  pose proof (prefetch_bi [] _ Hi s0 Hs0) as Hs1. rewrite H1 in Hs1.
  apply bind_ok in Hr as (wt & s2 & H2 & Hr).
  pose proof (resolve_loop_bi (loop_fuel toc) (needs_ids toc) (seq 0 (length toc)) ∅ [] s1 Hs1) as Hs2. rewrite H2 in Hs2.
  destruct wt as [waiting|].
  - destruct (Hs2 waiting eq_refl) as (done & Hd & Hpm). destruct (map_to_list waiting) as [|[b l] rest] eqn:Em; [|done].
    injection Hr as <- <-. split; [done|]. exists done. split; [done|].
    rewrite (waiters_nil _ Em) in Hpm. cbn in Hpm. by rewrite app_nil_r in Hpm.
  - exfalso. eapply (resolve_loop_fuel (loop_fuel toc) (needs_ids toc) (seq 0 (length toc)) ∅ s1 (length toc)); [| |by rewrite H2].
    + rewrite length_seq. unfold waiters. rewrite map_to_list_empty. cbn. lia.
    + rewrite length_seq. unfold waiters, loop_fuel. rewrite map_to_list_empty. cbn. lia.
Qed.
End Emit.
