(* ===== verification/Ingested.v ===== *)
(** * Phase one of a push, end to end

    [run] of [server/src/pack/run.rs] over both passes and the repository's
    database, with other requests served between its round trips: what it leaves
    in R2 and in the index is the received pack, object for object, and every
    object referred to was there when it was looked up. *)
From S2P Require Import Prelude Errors Text Db Jobs Cohort GcBase Compact Refs Push PushFacts Memo Wire WireFacts Receive Sha Writer Reads Mark Ingest IngestFacts Intake Normalize.
Open Scope Z_scope.

(** ** The index rows of one pack *)

Definition sql_of (r : ObjRow) : ObjSql := mkObj (or_idx r) (or_offset r) (or_len r) (git_kind (or_kind r)) (or_size r).
(** The pack's rows in the index are these, the first of an id counting. *)
Definition indexed (pack : string) (rows : list ObjRow) (d : Db) : Prop :=
  forall s, match t_objects d !! (s, pack) with
            | Some o => exists r, r ∈ rows /\ or_sha r = s /\ o = sql_of r
            | None => forall r, r ∈ rows -> or_sha r <> s
            end.
Definition push_open (push : string) (d : Db) : Prop := ps_state <$> t_pushes d !! push = Some POpen.

Section IndexRows.
Context `{PF : Platform}.
Lemma to_i64_run n d d' x : (lift (to_i64 n) : DoM Z) d = (d', Ok x) -> x = n /\ d' = d.
Proof. unfold lift, to_i64. destruct (n <=? i64_max); [|done]. by intros [= <- <-]. Qed.
Lemma insert_object_rows pack r d d' rows :
  indexed pack rows d -> insert_object pack r d = (d', Ok tt) -> indexed pack (rows ++ [r]) d'.
Proof.
  intros Hi. unfold insert_object. intros (off & d1 & [-> ->]%to_i64_run & Hr)%bind_ok.
  apply bind_ok in Hr as (size & d2 & [-> ->]%to_i64_run & Hr). injection Hr as <-. set (d1 := match t_objects d !! _ with Some _ => d | None => _ end).
  assert (indexed pack (rows ++ [r]) d1) as H1.
  { intros s. specialize (Hi s). unfold d1. destruct (t_objects d !! (or_sha r, pack)) as [o|] eqn:Eo.
    - destruct (t_objects d !! (s, pack)) as [o'|] eqn:Es.
      + destruct Hi as (r' & ? & ? & ?). exists r'. set_solver.
      + intros r' [Hr|Hr%list_elem_of_singleton]%elem_of_app; [by apply Hi|]. congruence.
    - cbn [t_objects on_objects]. destruct (decide (s = or_sha r)) as [->|Hne].
      + rewrite lookup_insert_eq. exists r. set_solver.
      + rewrite lookup_insert_ne by congruence. destruct (t_objects d !! (s, pack)) as [o'|] eqn:Es.
        * destruct Hi as (r' & ? & ? & ?). exists r'. set_solver.
        * intros r' [Hr|Hr%list_elem_of_singleton]%elem_of_app; [by apply Hi|congruence]. }
  destruct (or_kind r), (or_parents r) as [ps|]; try exact H1.
  intros s. specialize (H1 s).
  destruct (insert_parents_objects (or_sha r) 0 ps (insert_parent (or_sha r) (-1) None d1)) as (-> & _).
  unfold insert_parent. by destruct (t_parents d1 !! _).
Qed.
Lemma insert_objects_rows pack new d d' rows :
  indexed pack rows d -> insert_objects pack new d = (d', Ok tt) -> indexed pack (rows ++ new) d'.
Proof.
  unfold insert_objects. destruct (10000 <? _); [done|]. revert d rows. induction new as [|r new IH]; intros d rows Hi; cbn [for_each].
  - intros [= <-]. by rewrite app_nil_r.
  - intros ([] & d1 & H1 & Hr)%bind_ok. apply (insert_object_rows _ _ _ _ _ Hi) in H1.
    change (r :: new) with ([r] ++ new). rewrite app_assoc. by eapply IH.
Qed.
Lemma push_index_rows now m new d d' rows :
  indexed (ip_id m) rows d -> push_index now m new d = (d', Ok tt) -> indexed (ip_id m) (rows ++ new) d'.
Proof.
  intros Hi. unfold push_index. destruct (10000 <? _); [done|]. rewrite (bind_run _ _ d d _ eq_refl).
  destruct (bool_decide _) eqn:Eo; [|done]. bsimp. cbn [negb]. intros (n & d1 & H1 & Hr)%bind_ok. injection H1 as <- <-.
  destruct (negb _); [done|]. eapply insert_objects_rows; [|exact Hr].
  intros s. specialize (Hi s). unfold upsert_pack. destruct (t_packs d !! ip_id m); [|exact Hi].
  by destruct (_ && _).
Qed.
End IndexRows.

(** ** The environment of a push *)

(** [log] records the states in which the push's requests were served.  While the
    push is open nobody else touches the rows of the pack it minted; the id is
    new; a map is iterated over its own entries; ids print as hex that reads back. *)
Class PushWorld `{Platform} `{GixPack} {B : Type} (charge1 : B -> B * result Error unit) (others : B -> Db -> B * Db)
    (fresh : B -> result Error string) (iter : gmap string ObjLoc -> list (string * ObjLoc)) (push : string)
    (log : B -> list Db) (d0 : Db) : Prop := {
  pw_log_charge : forall b, log (charge1 b).1 = log b;
  pw_log_others : forall b d, log (others b d).1 = log b ++ [(others b d).2];
  pw_rely : forall b d b' pack, fresh b' = Ok pack -> push_open push (others b d).2 ->
    push_open push d /\ forall s, t_objects (others b d).2 !! (s, pack) = t_objects d !! (s, pack);
  pw_fresh : forall b pack s, fresh b = Ok pack -> t_objects d0 !! (s, pack) = None;
  pw_iter : forall m, iter m ⊆ map_to_list m;
  pw_oid : forall hk bs id size hlen, pack_entry hk bs = Ok (HRef id, size, hlen) -> oid id = Ok id
}.

Section Ingested.
Context `{PF : Platform} `{PC : PackCodec} `{MP : Multipart} `{RR : R2} `{GP : GixPack} `{GO : GitObjects}.
Context `{PL : !PackCodecLaws} `{ML : !MultipartLaws} `{GL : !GixLaws}.
Context (object : string -> option (list Z)) `{RL : !R2Laws object}.
Context {B : Type} {SB : Stub B} (charge1 : B -> B * result Error unit) (now : B -> Z) (others : B -> Db -> B * Db).
Context (new_upload : B -> string -> result Error Mpu) (fresh : B -> result Error string)
  (iter : gmap string ObjLoc -> list (string * ObjLoc)) (repo push : string) (kind : HashKind).
Context (log : B -> list Db) (d0 : Db) `{PW : !PushWorld charge1 others fresh iter push log d0}.
Abbreviation W := (Db * B)%type.

(** One round trip: the state it was served in is logged. *)
Lemma stub_json_run {A} (h : Z -> DoM A) (w w' : W) (a : A) :
  stub_json B charge1 now others h w = (w', Ok a) ->
  exists b t, let d1 := (others b w.1).2 in log w'.2 = log w.2 ++ [d1] /\ h t d1 = (w'.1, Ok a).
Proof.
  unfold stub_json, edge_charge. pose proof (pw_log_charge w.2) as Hl. destruct (charge1 w.2) as [b [[]|]]; [|done]. cbn [fst snd] in *.
  destruct (trip _); [|done..]. destruct (h (now (others b w.1).1) (others b w.1).2) as [d' [x|]] eqn:E; [|done]. intros [= <- <-].
  exists b, (now (others b w.1).1). cbn [fst snd]. split; [by rewrite pw_log_others, Hl|done].
Qed.
(** What the pack holds while the push is open, and a lower bound on the log. *)
Definition posted (L : list Db) (pack : string) (rows : list ObjRow) (w : W) : Prop :=
  L ⊆ log w.2 /\ (push_open push w.1 -> indexed pack rows w.1).
Definition minted (pack : string) : Prop := exists b, fresh b = Ok pack.
Lemma indexed_same pack rows d d' :
  (forall s, t_objects d' !! (s, pack) = t_objects d !! (s, pack)) -> indexed pack rows d -> indexed pack rows d'.
Proof. intros E Hi s. rewrite E. apply Hi. Qed.
Lemma posted_charged L pack rows w : posted L pack rows w -> posted L pack rows (edge_charge B charge1 w).1.
Proof. intros [H1 H2]. split; cbn; [by rewrite pw_log_charge|done]. Qed.
Lemma posted_mono L L' pack rows w : L' ⊆ log w.2 -> posted L pack rows w -> posted L' pack rows w.
Proof. intros Hl [_ H2]. by split. Qed.
Lemma posted_served L pack rows b w : minted pack -> posted L pack rows w -> push_open push (others b w.1).2 ->
  indexed pack rows (others b w.1).2.
Proof. intros [b' Hm] [_ Hp] Ho. destruct (pw_rely _ _ _ _ Hm Ho) as [H1 H2]. eapply indexed_same; [exact H2|]. auto. Qed.
Lemma push_index_open t m new d d' : push_index t m new d = (d', Ok tt) -> push_open (ip_push m) d.
Proof.
  unfold push_index. destruct (10000 <? _); [done|]. rewrite (bind_run _ _ d d _ eq_refl).
  destruct (bool_decide _) eqn:Eo; [by bsimp|done].
Qed.
Lemma post_to_posted L pack rows m new w w' :
  minted pack -> posted L pack rows w -> post_to B charge1 now others push pack m new w = (w', Ok tt) ->
  posted L pack (rows ++ new) w'.
Proof.
  intros Hm Hp E. unfold post_to in E. apply stub_json_run in E as (b & t & Hl & E).
  pose proof (push_index_open _ _ _ _ _ E) as Ho. cbn [ip_push index_pack] in Ho.
  pose proof (posted_served _ _ _ b w Hm Hp Ho) as Hi.
  split; [rewrite Hl; destruct Hp; set_solver|]. intros _.
  exact (push_index_rows t (index_pack push pack m) new _ _ rows Hi E).
Qed.

(** ** Lookups *)

(** An id resolves in [d] for a push with [pack]: live, or a row of its own pack. *)
Definition resolves (pack : string) (d : Db) (id : string) : Prop :=
  exists o, oid id = Ok o /\ (live_sha d o \/ is_Some (t_objects d !! (o, pack))).
Lemma index_lookup_run ids d d' locs :
  index_lookup ids d = (d', Ok locs) -> d' = d /\ Forall2 (fun id l => lookup_one d id = Ok l) ids locs.
Proof. unfold index_lookup. intros [= <- H1]. split; [done|]. by apply collect_Forall2. Qed.
Lemma fill_locs_run pack l d d' locs :
  fill_locs pack l d = (d', Ok locs) ->
  d' = d /\ Forall2 (fun p l => is_Some l -> is_Some p.2 \/ is_Some (t_objects d !! (p.1, pack))) l locs.
Proof.
  revert locs; induction l as [|p l IH]; intros locs; cbn [fill_locs]; [intros [= <- <-]; by split|].
  intros (x & d1 & H1 & Hr)%bind_ok. apply bind_ok in Hr as (xs & d2 & H2 & Hr). injection Hr as <- <-.
  assert (d1 = d /\ (is_Some x -> is_Some p.2 \/ is_Some (t_objects d !! (p.1, pack)))) as [-> Hx].
  { unfold fill_loc in H1. destruct p.2 as [l0|]; [injection H1 as <- <-; split; [done|]; eauto|].
    unfold lookup_in_pack, gets in H1. injection H1 as <- <-. split; [done|].
    destruct (t_objects d !! (p.1, pack)); intros [? ?]; [right; eauto|done]. }
  apply IH in H2 as [-> H2]. split; [done|]. by constructor.
Qed.
Lemma push_lookup_run hexes pk d d' locs :
  push_lookup hexes pk d = (d', Ok locs) ->
  d' = d /\ Forall2 (fun h l => forall x, l = Some x ->
    match pk with Some p => resolves p d h | None => exists o, oid h = Ok o /\ lookup_one d o = Ok (Some x) end) hexes locs.
Proof.
  unfold push_lookup. destruct (1000 <? _); [done|]. intros (ids & d1 & H1 & Hr)%bind_ok. unfold lift in H1. injection H1 as <- H1.
  apply collect_Forall2 in H1. apply bind_ok in Hr as (ls & d2 & H2 & Hr). apply index_lookup_run in H2 as [-> H2].
  destruct pk as [p|].
  - apply fill_locs_run in Hr as [-> Hr]. split; [done|]. clear -H1 H2 Hr. revert ls locs H2 Hr.
    induction H1 as [|h o hexes ids Ho H1 IH]; intros ls locs H2 Hr.
    { apply Forall2_nil_inv_l in Hr as ->. constructor. }
    apply Forall2_cons_inv_l in H2 as (l & ls' & Hl & H2 & ->). apply Forall2_cons_inv_l in Hr as (y & ys & Hy & Hr & ->).
    constructor; [|by eapply IH]. intros x ->. exists o. split; [done|]. destruct Hy as [[z Hz]|Hz]; [by exists x| |by right].
    left. cbn in Hz. subst l. by eapply lookup_one_live.
  - injection Hr as <- <-. split; [done|]. clear -H1 H2. revert ls H2.
    induction H1 as [|h o hexes ids Ho H1 IH]; intros ls H2; inversion H2; subst; constructor; eauto. intros x ->. eauto.
Qed.
Definition answered (pk : option string) (d : Db) (e : string * option ObjLoc) : Prop :=
  forall x, e.2 = Some x ->
    match pk with Some p => resolves p d e.1 | None => exists o, oid e.1 = Ok o /\ lookup_one d o = Ok (Some x) end.
Lemma zip_answered {A C} (P : A -> C -> Prop) l k : Forall2 P l k -> Forall (fun e => P e.1 e.2) (zip l k) /\ map fst (zip l k) = l.
Proof. induction 1 as [|x y l k Hp Hf [IH1 IH2]]; cbn; [done|]. split; [by constructor|by rewrite IH2]. Qed.
(** A lookup adds the state it saw to the log and changes nothing of ours. *)
Lemma lookup_run ids pk w w' l L pack rows :
  minted pack -> posted L pack rows w -> lookup B charge1 now others ids pk w = (w', Ok l) ->
  posted L pack rows w' /\ log w.2 ⊆ log w'.2 /\ map fst l = ids
  /\ exists d, d ∈ log w'.2 /\ Forall (answered pk d) l.
Proof.
  intros Hm Hp. unfold lookup. intros (locs & w1 & H1 & Hr)%bind_ok. destruct (negb _); [done|]. injection Hr as <- <-.
  apply stub_json_run in H1 as (b & t & Hl & H1). apply push_lookup_run in H1 as [E H1]. apply zip_answered in H1 as [H1 H2].
  split_and!; [|rewrite Hl; set_solver|done|].
  - split; [rewrite Hl; destruct Hp; set_solver|]. rewrite E. by eapply posted_served.
  - exists (others b w.1).2. split; [rewrite Hl; set_solver|]. eapply Forall_impl; [exact H1|]. by intros [h x] Hx.
Qed.
Definition seen (w : W) (id : string) (l : ObjLoc) : Prop :=
  exists d o, d ∈ log w.2 /\ oid id = Ok o /\ lookup_one d o = Ok (Some l).
Lemma fold_found (r : list (string * option ObjLoc)) (found : gmap string ObjLoc) id l :
  fold_left (fun m e => match e.2 with Some l => insert e.1 l m | None => m end) r found !! id = Some l ->
  found !! id = Some l \/ (id, Some l) ∈ r.
Proof.
  revert found; induction r as [|[i x] r IH]; intros found; cbn [fold_left]; [by left|]. intros [H1|H1]%IH; [|right; by right].
  destruct x as [x|]; cbn in H1; [|by left]. apply lookup_insert_Some in H1 as [[-> ->]|[_ ?]]; [right; left|by left].
Qed.
Lemma find_bases_run cs found w w' exts L pack rows :
  minted pack -> posted L pack rows w -> find_bases B charge1 now others cs found w = (w', Ok exts) ->
  posted L pack rows w' /\ log w.2 ⊆ log w'.2
  /\ forall id l, exts !! id = Some l -> found !! id = Some l \/ (id ∈ concat cs /\ seen w' id l).
Proof.
  intros Hm. revert found w. induction cs as [|cs0 cs IH]; intros found w Hp; cbn [find_bases].
  { intros [= <- <-]. split_and!; [done..|]. by left. }
  intros (r & w1 & H1 & Hr)%bind_ok. destruct (lookup_run _ _ _ _ _ _ _ _ Hm Hp H1) as (Hp1 & Hl1 & Hf & d & Hd & Ha).
  destruct (IH _ _ Hp1 Hr) as (Hp2 & Hl2 & He). split_and!; [done|by etrans|]. intros id l Hx. cbn [concat].
  destruct (He id l Hx) as [H2|[H2 H3]]; [|right; split; [set_solver|done]].
  apply fold_found in H2 as [H2|H2]; [by left|]. right. rewrite Forall_forall in Ha. destruct (Ha _ H2 l eq_refl) as (o & Ho & Hlk).
  split; [|exists d, o; split; [by apply Hl2|done]].
  apply elem_of_app. left. rewrite <- Hf. apply list_elem_of_fmap. by exists (id, Some l).
Qed.
Lemma check_links_run pack cs w w' L rows :
  minted pack -> posted L pack rows w -> check_links B charge1 now others pack cs w = (w', Ok tt) ->
  posted L pack rows w' /\ log w.2 ⊆ log w'.2 /\ forall id, id ∈ concat cs -> exists d, d ∈ log w'.2 /\ resolves pack d id.
Proof.
  intros Hm. revert w. induction cs as [|cs0 cs IH]; intros w Hp; cbn [check_links].
  { intros [= <-]. split_and!; [done..|]. cbn. set_solver. }
  intros (r & w1 & H1 & Hr)%bind_ok. destruct (lookup_run _ _ _ _ _ _ _ _ Hm Hp H1) as (Hp1 & Hl1 & Hf & d & Hd & Ha).
  destruct (List.find _ r) as [e|] eqn:Ef; [done|]. destruct (IH _ Hp1 Hr) as (Hp2 & Hl2 & He).
  split_and!; [done|by etrans|]. intros id [Hi|Hi]%elem_of_app; [|by apply He]. exists d. split; [by apply Hl2|].
  rewrite <- Hf in Hi. apply list_elem_of_fmap in Hi as (e & -> & Hi). rewrite Forall_forall in Ha. specialize (Ha e Hi).
  pose proof (List.find_none _ _ Ef e (proj1 (list_elem_of_In _ _) Hi)) as Hn. cbn in Hn.
  destruct e.2 as [x|] eqn:Ee; [|done]. by apply (Ha x).
Qed.

(** ** The whole run *)

(** What the index says of the repository's objects is so, in every state a
    request of the push was served in. *)
Definition index_honest (b : B) : Prop :=
  forall d id l, d ∈ log b -> lookup_one d id = Ok (Some l) ->
    loc_ok (id, l) /\ forall p o, object (key_pack repo (lc_pack l)) = Some p ->
      decode_entry (slice p (lc_offset l) (lc_len l)) = Ok o -> object_id kind o.1 o.2 = Some id.
(** No two objects the push or its bases bring share an id. *)
Definition no_collision (c : list Z) : Prop :=
  forall toc count exts x y id, staged kind toc count c ->
    realized object repo toc exts kind c x -> realized object repo toc exts kind c y ->
    object_id kind x.1 x.2 = Some id -> object_id kind y.1 y.2 = Some id -> x = y.
(** The received pack [c] is in R2 as [obj] and in the index as [pack]. *)
Definition ingested (c obj : list Z) (pack : string) (tags : gmap string string) (w : W) : Prop :=
  exists toc count exts rows done links es,
    staged kind toc count c
    /\ obj = (pack_header (Z.of_nat (length toc)) ++ concat es) ++ digest kind (pack_header (Z.of_nat (length toc)) ++ concat es)
    /\ length es = length toc /\ Forall (fun e => exists o, entry_object e o) es
    /\ Z.of_nat (length obj) <= u64_max
    /\ done ≡ₚ seq 0 (length toc)
    /\ Forall2 (row_for object repo toc exts kind c obj links tags) rows done
    /\ (forall id, id ∈ links -> exists d, d ∈ log w.2 /\ resolves pack d id)
    /\ (push_open push w.1 -> indexed pack rows w.1).

Lemma bases_honest toc count c (w w2 : W) exts :
  staged kind toc count c -> no_collision c -> index_honest w2.2 -> log w.2 ⊆ log w2.2 ->
  (forall id l, exts !! id = Some l -> (∅ : gmap string ObjLoc) !! id = Some l \/ (id ∈ concat (batches (delta_bases toc)) /\ seen w id l)) ->
  honest object repo toc exts kind c.
Proof.
  intros Hst Hnc Hih Hlog He.
  assert (forall id l, exts !! id = Some l -> exists d, d ∈ log w2.2 /\ lookup_one d id = Ok (Some l)) as Hx.
  { intros id l Hi. destruct (He id l Hi) as [Hn|[Hin (d & o & H1 & H2 & H3)]]; [by rewrite lookup_empty in Hn|].
    rewrite batches_concat in Hin. apply sort_dedup_elem, list_elem_of_omap in Hin as (r & Hr & Eh).
    assert (er_header r = HRef id) as Eh' by (destruct (er_header r); congruence).
    pose proof (to_recs _ _ _ (sg_toc _ _ _ _ Hst)) as Hf. rewrite Forall_forall in Hf. destruct (Hf r Hr) as (_ & _ & _ & Hpe & _).
    rewrite Eh' in Hpe. rewrite (pw_oid _ _ _ _ _ Hpe) in H2. injection H2 as <-. exists d. split; [by apply Hlog|done]. }
  split.
  - intros id l Hi. destruct (Hx id l Hi) as (d & H1 & H2). by apply (Hih d id l).
  - intros id o (l & p & E1 & E2 & E3). destruct (Hx id l E1) as (d & H1 & H2). by apply (proj2 (Hih d id l H1 H2) p o).
  - intros x y id. by apply (Hnc toc count exts).
Qed.
(** Pass B and the finished pack. *)
Lemma resolved_run toc count c exts pack out body w s st L :
  staged kind toc count c -> honest object repo toc exts kind c -> object (key_pending repo push) = Some c ->
  minted pack -> posted L pack [] w -> out_ok kind out (pack_header (Z.of_nat (length toc))) ->
  do_resolve B charge1 now others iter repo push kind pack toc exts out (mkRun B body w) = (s, Ok st) ->
  exists st', st = Some st' /\ rs_body B s = body /\
  (forall w2 m obj, finish_out B charge1 (st_out W st') (rs_w B s) = (w2, Ok (m, obj)) ->
   exists ps done es, posted L pack ps w2 /\ done ≡ₚ seq 0 (length toc)
     /\ obj = (pack_header (Z.of_nat (length toc)) ++ concat es) ++ digest kind (pack_header (Z.of_nat (length toc)) ++ concat es)
     /\ length es = length toc /\ Forall (fun e => exists o, entry_object e o) es /\ Z.of_nat (length obj) <= u64_max
     /\ Forall2 (row_for object repo toc exts kind c obj (st_links W st') (st_tags W st')) (ps ++ st_rows W st') done).
Proof.
  intros Hst Hh Hk Hm Hp Ho. unfold do_resolve.
  destruct (resolve_and_normalize _ _ _ _ _ _ _ _ _) as [sf r] eqn:E. cbn [fst snd].
  destruct r as [r|]; [|done]. eapply (normalize_run object repo toc exts kind c _ _ (posted L pack)) in E;
    [|by apply posted_charged|by intros rows m' new w0 w1 Hp0 E0; eapply post_to_posted|apply Hst|done|done|apply Hst|exact Hp|exact Ho|apply pw_iter].
  destruct E as (-> & done & (ps & stream & rows & links & tags & [Hcx Hout Hrows Hlinks Htags] & Hf & (es & -> & Hle & Hes)) & Hd).
  intros [= <- <-]. exists sf. split; [done|]. split; [done|]. intros w2 m obj. unfold finish_out. cbn [rs_w].
  destruct (finish W (edge_charge B charge1) (st_out W sf, cx_w W (st_cx W sf))) as [x rf] eqn:Ef. intros [= <- ->].
  destruct (finish_out_ok _ _ _ _ _ _ _ _ Hout Ef) as (-> & Hlen & _ & _). cbn [fst snd].
  exists ps, done, es. split_and!; try done.
  - pose proof (finish_world (edge_charge B charge1) (posted L pack ps) (posted_charged L pack ps)
      (st_out W sf, cx_w W (st_cx W sf)) (xi_w _ _ _ _ _ _ _ _ Hcx)) as Hw.
    by rewrite Ef in Hw.
  - rewrite Hle, <- (length_seq (length toc) 0). by apply Permutation_length.
  - rewrite Hrows, Hlinks, Htags. eapply Forall2_impl; [exact Hf|].
    intros row i (r & o & ls & E1 & E2 & E3 & E4 & E5 & E6 & E7 & E8 & E9 & E10 & E11). exists r, o, ls.
    split_and!; try done. by apply row_at_grow.
Qed.
Lemma r_world_run {A} (m : M W Error A) body w s a :
  r_world B m (mkRun B body w) = (s, Ok a) -> exists w', s = mkRun B body w' /\ m w = (w', Ok a).
Proof. unfold r_world. cbn. destruct (m w) as [w' r]. intros [= <- ->]. eauto. Qed.
Lemma create_out_run pack n w w' out L rows :
  Z.of_nat n <= u32_max -> posted L pack rows w -> create_out B charge1 now new_upload repo kind pack n w = (w', Ok out) ->
  posted L pack rows w' /\ out_ok kind out (pack_header (Z.of_nat n)).
Proof.
  intros Hn [Hp1 Hp2]. unfold create_out. rewrite (proj2 (Z.leb_le _ _)) by done.
  destruct (new_upload w.2 (key_pack repo pack)) as [m|e] eqn:Eu.
  - destruct (create_writer _ _ _ _ _ _ _ _) as [b' r] eqn:E. intros [= <- ->].
    destruct (create_wrote charge1 _ _ _ _ _ _ _ _ E) as (H1 & H2 & H3 & _ & _ & H4). cbn [fst snd].
    split; [split; cbn; [|done]|split_and!; [done..|rewrite H3; unfold PART; lia|done]].
    unfold create_writer in E. destruct (pack_name _); [|done]. pose proof (pw_log_charge w.2) as Hl.
    destruct (charge1 w.2) as [b1 [[]|]]; [|done]. injection E as <- _. cbn in Hl. by rewrite Hl.
  - unfold create_writer. destruct (pack_name _); [|done]. by destruct (charge1 w.2) as [b1 [[]|]].
Qed.
Lemma staged_small toc count c : staged kind toc count c -> Z.of_nat (length toc) <= u32_max.
Proof.
  intros Hst. pose proof (sg_max _ _ _ _ Hst) as Hm. assert (Z.of_nat (length toc) <= 750000) by (unfold MAX_ENTRIES in Hm; lia).
  unfold u32_max. lia.
Qed.
Lemma do_stream_run fuel body w s r :
  eof_ok body -> (body_fuel body <= fuel)%nat ->
  do_stream B charge1 new_upload repo push kind fuel (mkRun B body w) = (s, Ok r) ->
  exists toc count, r = Some toc /\ staged kind toc count (bytes_of (pending body)) /\ pending (rs_body B s) = ""
  /\ (rs_w B s).1 = w.1 /\ log (rs_w B s).2 = log w.2.
Proof.
  intros He Hf. unfold do_stream. cbn [rs_body rs_w].
  pose proof (stream_to_pending_world charge1 kind (fun b => log b = log w.2) (fun b Hb => eq_trans (pw_log_charge b) Hb)
    fuel (new_upload w.2 (key_pending repo push)) body w.2 eq_refl) as Hl.
  destruct (stream_to_pending _ _ _ _ _ _ _) as [[body' b'] [x|]] eqn:E; [|done].
  destruct (stream_to_pending_run charge1 kind _ _ _ _ _ _ _ He Hf E) as (recs & count & obj & -> & -> & Hst & Hp).
  intros [= <- <-]. by exists recs, count.
Qed.

(** *** The log only grows *)

Definition logged (L : list Db) (w : W) : Prop := L ⊆ log w.2.
Lemma logged_charge L w : logged L w -> logged L (edge_charge B charge1 w).1.
Proof. unfold logged, edge_charge. cbn. by rewrite pw_log_charge. Qed.
Lemma logged_stub {A} (h : Z -> DoM A) L w : logged L w -> logged L (stub_json B charge1 now others h w).1.
Proof.
  intros Hl%logged_charge. unfold stub_json. destruct (edge_charge B charge1 w) as [w1 [[]|]]; [|done]. cbn [fst] in *.
  unfold logged in *. destruct (trip _); cbn; rewrite pw_log_others; set_solver.
Qed.
Lemma logged_resolve L pack toc exts out body w :
  logged L w -> logged L (rs_w B (do_resolve B charge1 now others iter repo push kind pack toc exts out (mkRun B body w)).1).
Proof.
  intros Hl. unfold do_resolve. cbn [fst rs_w].
  apply (normalize_w (edge_charge B charge1) (post_to B charge1 now others push pack) (logged L)
    (logged_charge L) (fun m rows => logged_stub _ L) repo toc exts kind iter). exact Hl.
Qed.
Lemma logged_finish L out w : logged L w -> logged L (finish_out B charge1 out w).1.
Proof. intros Hl. unfold finish_out. cbn [fst]. by apply (finish_world (edge_charge B charge1) (logged L) (logged_charge L) (out, w)). Qed.
Lemma logged_links L pack cs w : logged L w -> logged L (check_links B charge1 now others pack cs w).1.
Proof.
  revert w; induction cs as [|c cs IH]; intros w Hl; [done|]. cbn [check_links]. unfold lookup, mbind, M_bind.
  pose proof (logged_stub (fun _ => push_lookup c (Some pack)) L w Hl) as H1.
  destruct (stub_json _ _ _ _ _ w) as [w1 [locs|]]; [|done]. destruct (negb _); [done|]. unfold mret, M_ret.
  destruct (List.find _ _); [done|]. by apply IH.
Qed.

(** The last round trips of a run. *)
Lemma closing_run L pack (st : Bst W) body w s r :
  logged L w ->
  (m ← r_world B (finish_out B charge1 (st_out W st));
   (if MAX_LINKS <? Z.of_nat (length (st_links W st))
    then fail (Limit "push references too many objects (1,000,000 max)")
    else r_world B (post_to B charge1 now others push pack m.1 (st_rows W st))) ≫= fun _ =>
   r_world B (check_links B charge1 now others pack (batches (sort_dedup (st_links W st)))) ≫= fun _ =>
   mret (Some (Some (pack, st_tags W st, m.2)))) (mkRun B body w) = (s, Ok r) ->
  exists w1 m obj w2, finish_out B charge1 (st_out W st) w = (w1, Ok (m, obj))
    /\ post_to B charge1 now others push pack m (st_rows W st) w1 = (w2, Ok tt)
    /\ check_links B charge1 now others pack (batches (sort_dedup (st_links W st))) w2 = (rs_w B s, Ok tt)
    /\ rs_body B s = body /\ r = Some (Some (pack, st_tags W st, obj)) /\ logged L (rs_w B s).
Proof.
  intros Hl. intros ([m obj] & s1 & (w1 & -> & H1)%r_world_run & Hr)%bind_ok. pose proof (logged_finish L (st_out W st) w Hl) as Hl1.
  rewrite H1 in Hl1. apply bind_ok in Hr as ([] & s2 & H2 & Hr). destruct (MAX_LINKS <? _); [done|].
  apply r_world_run in H2 as (w2 & -> & H2). pose proof (logged_stub (fun t => push_index t (index_pack push pack m) (st_rows W st)) L w1 Hl1) as Hl2.
  unfold post_to in H2. cbn [fst] in H2. rewrite H2 in Hl2.
  apply bind_ok in Hr as ([] & s3 & (w3 & -> & H3)%r_world_run & Hr). injection Hr as <- <-.
  pose proof (logged_links L pack (batches (sort_dedup (st_links W st))) w2 Hl2) as Hl3. rewrite H3 in Hl3.
  by exists w1, m, obj, w2.
Qed.
Lemma publish_run toc count c body w s r :
  staged kind toc count c -> object (key_pending repo push) = Some c -> no_collision c -> index_honest (rs_w B s).2 ->
  w.1 = d0 -> publish B charge1 now others new_upload fresh iter repo push kind toc (mkRun B body w) = (s, Ok r) ->
  exists pack tags obj, r = Some (Some (pack, tags, obj)) /\ ingested c obj pack tags (rs_w B s) /\ rs_body B s = body.
Proof.
  intros Hst Hobj Hnc Hih Hd0. unfold publish. intros (exts & s3 & (w3 & -> & H3)%r_world_run & Hr)%bind_ok.
  apply bind_ok in Hr as (s3' & s3 & H4 & Hr). injection H4 as <- <-.
  apply bind_ok in Hr as (pack & s3 & H4 & Hr). unfold lift in H4. injection H4 as <- Hfr. cbn [rs_w] in Hfr.
  assert (minted pack) as Hm by (by exists w3.2).
  assert (posted [] pack [] w) as Hp0.
  { split; [set_solver|]. intros _ x. rewrite Hd0, (pw_fresh _ _ x Hfr). intros r0. set_solver. }
  destruct (find_bases_run _ _ _ _ _ _ _ _ Hm Hp0 H3) as (Hp3 & _ & Hex).
  apply bind_ok in Hr as ([] & s4 & (w4 & -> & H4)%r_world_run & Hr).
  pose proof (post_to_posted _ _ _ _ _ _ _ Hm (posted_mono _ (log w3.2) _ _ _ ltac:(done) Hp3) H4) as Hp4.
  apply bind_ok in Hr as (out & s5 & (w5 & -> & H5)%r_world_run & Hr).
  destruct (create_out_run _ _ _ _ _ _ _ (staged_small _ _ _ Hst) Hp4 H5) as [Hp5 Hout].
  apply bind_ok in Hr as (st & [body6 w6] & H6 & Hr). pose proof (logged_resolve (log w3.2) pack toc exts out body w5 (proj1 Hp5)) as Hl6.
  rewrite H6 in Hl6. cbn [fst rs_w] in Hl6. destruct st as [st|].
  2: { injection Hr as <- <-. pose proof (bases_honest _ _ _ _ _ _ Hst Hnc Hih Hl6 Hex) as Hh.
       by destruct (resolved_run _ _ _ _ _ _ _ _ _ _ _ Hst Hh Hobj Hm Hp5 Hout H6) as (st' & E & _). }
  destruct (closing_run _ _ _ _ _ _ _ Hl6 Hr) as (w7 & m & obj & w8 & H7 & H8 & H9 & Hb & -> & Hl).
  pose proof (bases_honest _ _ _ _ _ _ Hst Hnc Hih Hl Hex) as Hh.
  destruct (resolved_run _ _ _ _ _ _ _ _ _ _ _ Hst Hh Hobj Hm Hp5 Hout H6) as (st' & [= <-] & Hb6 & Hfin). cbn [rs_body rs_w] in *.
  destruct (Hfin _ _ _ H7) as (ps & done & es & Hp7 & Hd & Eo & Hle & Hes & Hlen & Hrows).
  pose proof (post_to_posted _ _ _ _ _ _ _ Hm Hp7 H8) as Hp8.
  destruct (check_links_run _ _ _ _ _ _ Hm Hp8 H9) as ([_ Hp9] & _ & Hlinks).
  exists pack, (st_tags W st), obj. split; [done|]. split; [|congruence].
  exists toc, count, exts, (ps ++ st_rows W st), done, (st_links W st), es. split_and!; try done.
  intros id Hi. apply Hlinks. by rewrite batches_concat, sort_dedup_elem.
Qed.

(** C2: A push that succeeds is stored whole.  For any chunking of the body, any
    requests of others between its round trips, and fuel for its size: when [run]
    answers with a pack, the body was one well-formed pack and nothing more; R2
    holds a pack of as many full entries with its digest; each received entry, once,
    has an index row under the id, kind and size of the object it denotes (deltas
    resolved through bases in the pack or the repository), whose extent reads back
    as that object; while the push is open the index holds exactly these rows for
    the pack; and every object they refer to was live or in the pack when it was
    looked up.  Assumed of what is around it: R2 reads back the staged bytes, no two
    objects of the body have one id ([no_collision]), the rows that lookups answered
    with name what R2 holds ([index_honest]), and the others run handlers that keep
    this push and its fresh pack id apart ([PushWorld]). *)
Theorem push_ingested (fuel : nat) (s s' : RunSt B) (r : option (option (string * gmap string string * list Z))) :
  (rs_w B s).1 = d0 -> eof_ok (rs_body B s) -> (body_fuel (rs_body B s) <= fuel)%nat ->
  object (key_pending repo push) = Some (bytes_of (pending (rs_body B s))) ->
  no_collision (bytes_of (pending (rs_body B s))) -> index_honest (rs_w B s').2 ->
  run_push B charge1 now others new_upload fresh iter repo push kind fuel s = (s', Ok r) ->
  match r with
  | None => False
  | Some None => True
  | Some (Some (pack, tags, obj)) =>
      ingested (bytes_of (pending (rs_body B s))) obj pack tags (rs_w B s') /\ pending (rs_body B s') = ""
  end.
Proof.
  intros Hd0 He Hf Hobj Hnc Hih. set (c := bytes_of (pending (rs_body B s))) in *. unfold run_push.
  intros (ok & s1 & H1 & Hr)%bind_ok. unfold r_fill in H1. destruct (fill 12 (rs_body B s)) as [body1 f1] eqn:Ef.
  injection H1 as <- ->. apply fill_pending in Ef as (Ep & He1 & _); [|done]. cbn [fst snd] in Hr.
  apply bind_ok in Hr as (buf & s1 & H1 & Hr). injection H1 as <- _.
  destruct (negb ok). { destruct (length buf =? 0)%nat; [by injection Hr as _ <-|done]. }
  apply bind_ok in Hr as (h & s1 & H1 & Hr). unfold lift in H1. injection H1 as <- _. destruct (h.2 =? 0).
  { apply bind_ok in Hr as ([] & s1 & _ & Hr). by injection Hr as _ <-. }
  apply bind_ok in Hr as (toc & s2 & H2 & Hr).
  destruct (do_stream_run _ _ _ _ _ He1 ltac:(unfold body_fuel in *; by rewrite Ep) H2) as (recs & count & -> & Hst & Hp2 & Hd2 & _).
  rewrite Ep in Hst. destruct s2 as [body2 w2]. cbn [rs_body rs_w] in *.
  destruct (publish_run _ _ _ _ _ _ _ Hst Hobj Hnc Hih (eq_trans Hd2 Hd0) Hr) as (pack & tags & obj & -> & Hi & Hb).
  split; [done|]. by rewrite Hb.
Qed.
End Ingested.
