(* ===== verification/IngestDemo.v ===== *)
(** * A pack received on a concrete platform

    A gix that reads a toy pack format, with its laws; and one push of four
    entries: a delta on an object that comes later, that object, an offset delta on
    it, and a tag. *)
From S2P Require Import Prelude Errors Text Db Jobs Cohort GcBase Compact Refs Push PushFacts Memo Wire WireFacts Receive Sha Writer Reads Mark Ingest IngestFacts Intake Normalize Ingested.
Open Scope Z_scope.

(** ** A gix of one-byte fields

    A full entry is its kind, its size and a stored body; 6 heads an offset delta
    and 7 a delta on a named object.  A delta appends. *)
Definition toy_entry (hk : HashKind) (bs : list Z) : result string (Header * Z * Z) :=
  match bs with
  | k :: n :: rest =>
      if n <? 0 then Err "size"
      else if k =? 6 then match rest with dist :: _ => Ok (HOfs dist, n, 3) | [] => Err "short" end
      else if k =? 7 then
        let w := hash_len hk in
        let id := hex_digest (take (Z.to_nat w) rest) in
        if (w <=? Z.of_nat (length rest)) && bool_decide (@oid_from_hex demo_platform id = Some id) then Ok (HRef id, n, 2 + w) else Err "base"
      else match kind_of k with Ok k => Ok (of_kind k, n, 2) | Err _ => Err "kind" end
  | _ => Err "short"
  end.
Definition toy_header (h : Header) (n : Z) : list Z :=
  match h with
  | HCommit => [1; n] | HTree => [2; n] | HBlob => [3; n] | HTag => [4; n]
  | HOfs d => [6; n; d] | HRef _ => [7; n]
  end.
Definition toy_full (bs : list Z) : option (Kind * list Z) :=
  match bs with
  | k :: _ :: l :: rest => match kind_of k with Ok k => Some (k, take (Z.to_nat l) rest) | Err _ => None end
  | _ => None
  end.
Definition toy_decode (hk : HashKind) (mini : list Z) (at_ : Z) : result FileError (Kind * list Z) :=
  let bs := drop (Z.to_nat at_) mini in
  match bs with
  | k :: _ :: dist :: rest =>
      if k =? 6 then
        match rest, toy_full (drop (Z.to_nat (at_ - dist)) mini) with
        | l :: rest, Some (k, d) => Ok (k, d ++ take (Z.to_nat l) rest)
        | _, _ => Err (EDecode "base")
        end
      else match toy_full bs with Some o => Ok o | None => Err (EEntry "entry") end
  | _ => Err (EEntry "short")
  end.
(** [None]: at the start of a stream; else the bytes to come. *)
Definition toy_inflate (z : option nat) (bs : list Z) (cap : Z) : result string (option nat * Z * list Z * bool) :=
  let go n bs used :=
    let k := Nat.min n (length bs) in Ok (Some (n - k)%nat, used + Z.of_nat k, take k bs, (n - k =? 0)%nat) in
  match z, bs with
  | None, [] => Ok (None, 0, [], false)
  | None, l :: r => if l <? 0 then Err "length" else go (Z.to_nat l) r 1
  | Some n, _ => go n bs 0
  end.
Definition toy_gix (safe : list (list Z)) : GixPack := {|
  header_decode := fun bs => match bs with [80; 65; 67; 75; 0; 0; 0; 2; 0; 0; 0; n] => Ok (2, n) | _ => Err "header" end;
  pack_entry := toy_entry;
  header_bytes := toy_header;
  deflate_stored := fun d => Z.of_nat (length d) :: d;
  base_offset := fun off dist => if (0 <? dist) && (dist <=? off) then Some (off - dist) else None;
  file_decode := toy_decode;
  zstream := option nat; z_new := None; z_step := toy_inflate;
  sha_collision := fun bs => negb (bool_decide (bs ∈ safe))
|}.

Section Toy.
Context (safe : list (list Z)).
Lemma toy_go n (bs : list Z) (used : Z) z' u out ended :
  (let k := Nat.min n (length bs) in Ok (Some (n - k)%nat, used + Z.of_nat k, take k bs, (n - k =? 0)%nat))
    = (Ok (z', u, out, ended) : result string _) ->
  exists k, (k <= n)%nat /\ (k <= length bs)%nat /\ z' = Some (n - k)%nat /\ u = used + Z.of_nat k /\ out = take k bs
    /\ ended = (n - k =? 0)%nat.
Proof. intros [= <- <- <- <-]. exists (Nat.min n (length bs)). split_and!; try done; lia. Qed.
Lemma toy_step z buf cap z' used out ended :
  toy_inflate z buf cap = Ok (z', used, out, ended) ->
  0 <= used <= Z.of_nat (length buf) /\ (length out <= Z.to_nat used)%nat.
Proof.
  destruct z as [n|], buf as [|l r]; cbn [toy_inflate].
  1-2: intros (k & ? & ? & -> & -> & -> & ->)%toy_go; rewrite length_take; lia.
  - intros [= <- <- <- <-]. cbn. lia.
  - destruct (l <? 0); [done|]. intros (k & ? & ? & -> & -> & -> & ->)%toy_go. rewrite length_take. cbn [length]. lia.
Qed.
Definition toy_stream (z : option nat) (body data : list Z) : Prop :=
  match z with None => body = Z.of_nat (length data) :: data | Some n => body = data /\ length data = n end.
Lemma toy_run (z : option nat) body data : @zrun (toy_gix safe) z body data -> toy_stream z body data.
Proof.
  induction 1 as [z buf cap z' used out E|z buf cap z' used out rest more E _ IH]; cbn in z, z', E.
  - destruct z as [n|], buf as [|l r]; cbn [toy_inflate] in E; try done.
    1-2: apply toy_go in E as (k & ? & ? & -> & -> & -> & Ee); symmetry in Ee; apply Nat.eqb_eq in Ee;
      cbn [toy_stream]; rewrite Z.add_0_l, Nat2Z.id; split; [done|]; rewrite length_take; lia.
    destruct (Z.ltb_spec l 0) as [|Hl]; [done|]. apply toy_go in E as (k & ? & ? & -> & -> & -> & Ee). symmetry in Ee. apply Nat.eqb_eq in Ee.
    cbn [toy_stream]. replace (Z.to_nat (1 + Z.of_nat k)) with (S k) by lia. cbn [take]. f_equal. rewrite length_take. lia.
  - destruct z as [n|], buf as [|l r]; cbn [toy_inflate] in E.
    1-2: apply toy_go in E as (k & ? & ? & -> & -> & -> & Ee); destruct IH as [-> IH]; cbn [toy_stream];
      rewrite Z.add_0_l, Nat2Z.id; split; [done|]; rewrite length_app, length_take; lia.
    + injection E as <- <- <-. exact IH.
    + destruct (Z.ltb_spec l 0) as [|Hl]; [done|]. apply toy_go in E as (k & ? & ? & -> & -> & -> & Ee). destruct IH as [-> IH].
      cbn [toy_stream]. replace (Z.to_nat (1 + Z.of_nat k)) with (S k) by lia. cbn [take app]. f_equal. rewrite length_app, length_take. lia.
Qed.
Lemma toy_part (z : option nat) inp data : @zpart (toy_gix safe) z inp data -> (length data <= length inp)%nat.
Proof.
  induction 1 as [|z inp data buf cap z' used out ended _ IH E]; [done|]. apply toy_step in E as [E1 E2].
  rewrite !length_app, length_take. lia.
Qed.
Lemma toy_entry_local hk bs h size hlen : toy_entry hk bs = Ok (h, size, hlen) ->
  0 < hlen /\ 0 <= size /\
  (hlen <= Z.of_nat (length bs) -> forall rest, toy_entry hk (take (Z.to_nat hlen) bs ++ rest) = Ok (h, size, hlen)).
Proof.
  destruct bs as [|k [|n bs]]; try done. cbn [toy_entry]. destruct (Z.ltb_spec n 0) as [|Hn]; [done|].
  destruct (k =? 6) eqn:E6; [|destruct (k =? 7) eqn:E7].
  - destruct bs as [|dist bs]; [done|]. intros [= <- <- <-]. split_and!; [lia..|]. intros _ rest. change (Z.to_nat 3) with 3%nat. cbn [take app toy_entry].
    by rewrite (proj2 (Z.ltb_ge n 0)), E6.
  - destruct (_ && _) eqn:Ec; [|done]. intros [= <- <- <-]. apply andb_true_iff in Ec as [Ec1%Z.leb_le Ec2%bool_decide_eq_true]. pose proof (hash_len_range hk).
    split_and!; [lia..|]. intros _ rest. replace (Z.to_nat (2 + hash_len hk)) with (S (S (Z.to_nat (hash_len hk)))) by lia.
    cbn [take app toy_entry]. rewrite (proj2 (Z.ltb_ge n 0)), E6, E7 by done. cbv zeta.
    assert (take (Z.to_nat (hash_len hk)) (take (Z.to_nat (hash_len hk)) bs ++ rest) = take (Z.to_nat (hash_len hk)) bs) as ->.
    { apply take_app_length'. rewrite length_take. lia. }
    rewrite bool_decide_eq_true_2 by done. rewrite (proj2 (Z.leb_le _ _)); [done|]. rewrite length_app, length_take. lia.
  - destruct (kind_of k) as [k'|] eqn:Ek; [|done]. intros [= <- <- <-]. split_and!; [lia..|]. intros _ rest. change (Z.to_nat 2) with 2%nat. cbn [take app toy_entry].
    by rewrite (proj2 (Z.ltb_ge n 0)), E6, E7, Ek.
Qed.
Lemma toy_blob hk bs size hlen : toy_entry hk bs = Ok (HBlob, size, hlen) -> entry_from_bytes bs = Some (Some Blob, size, hlen).
Proof.
  destruct bs as [|k [|n bs]]; try done. cbn [toy_entry]. destruct (n <? 0); [done|].
  destruct (k =? 6); [by destruct bs|]. destruct (k =? 7); [by destruct (_ && _)|]. cbn [entry_from_bytes demo_codec].
  destruct (kind_of k) as [[]|]; try done. by intros [= <- <-].
Qed.
#[export] Instance toy_laws : @GixLaws _ (toy_gix safe).
Proof.
  split.
  - intros hk [k d] size rest o at_ E. cbn [fst snd]. cbn [file_decode toy_gix] in E. unfold toy_decode in E.
    set (mh := @mini_head (toy_gix safe) (k, d)) in *.
    assert (Z.to_nat at_ = length mh) as Ea by (unfold at_; lia). rewrite Ea, drop_app_length in E. cbn [header_bytes toy_gix toy_header app] in E.
    cbn [Z.eqb Pos.eqb] in E.
    assert (toy_full (drop (Z.to_nat (at_ - sat_subu64 at_ 12)) (mh ++ 6 :: size :: sat_subu64 at_ 12 :: rest))
      = Some (k, take (Z.to_nat (Z.of_nat (length d))) (d ++ 6 :: size :: sat_subu64 at_ 12 :: rest))) as Ef.
    { assert (12 <= at_) by (unfold at_, mh, mini_head; rewrite length_app; cbn [length]; lia).
      replace (Z.to_nat (at_ - sat_subu64 at_ 12)) with 12%nat by (unfold sat_subu64; lia).
      unfold mh, mini_head. by destruct k. }
    rewrite Ef in E. destruct rest as [|l rest]; [done|]. by injection E as <-.
  - apply toy_entry_local.
  - apply toy_blob.
  - intros z buf cap z' used out ended E. exact (proj1 (toy_step _ _ _ _ _ _ _ E)).
  - intros z inp data Hp%toy_part. lia.
  - intros body data rest Hz%toy_run. cbn in Hz. subst body. cbn [inflate_once demo_codec app]. rewrite Z.eqb_refl, Nat2Z.id, take_app_length.
    cbn [length]. do 3 f_equal. lia.
Qed.
End Toy.

(** ** A push of four entries *)

Module PackDemo.
#[local] Existing Instance demo_platform.
Definition a : Obj := (Blob, [97]).
Definition ac : Obj := (Blob, [97; 99]).
Definition ab : Obj := (Blob, [97; 98]).
Definition tg : Obj := (Tag, [116]).
Definition loose (o : Obj) : list Z := loose_header o.1 (Z.of_nat (length o.2)) ++ o.2.
Definition body : list Z := Eval vm_compute in
  [80; 65; 67; 75; 0; 0; 0; 2; 0; 0; 0; 4]
  ++ ([7; 1] ++ digest Sha1 (loose a) ++ [1; 99]) ++ [3; 1; 1; 97] ++ [6; 1; 4; 1; 98] ++ [4; 1; 1; 116].
Definition c : list Z := Eval vm_compute in body ++ digest Sha1 body.
Definition safe : list (list Z) := Eval vm_compute in [loose a; loose ac; loose ab; loose tg; body].
#[local] Instance gix : GixPack := toy_gix safe.
(** Every tag tags the blob. *)
#[local] Instance git : GitObjects := {|
  commit_tree_id := fun _ _ => Err "no tree"; commit_parent_ids := fun _ _ => []; tree_entries := fun _ _ => [];
  tag_target := fun _ _ => Ok (hex_digest (digest Sha1 (loose a))) |}.
Definition object (key : string) : option (list Z) := if String.eqb key (key_pending "repo" "p1") then Some c else None.
#[local] Instance r2 : R2 := {|
  range_get := fun key off len => Ok ((fun o => slice o off len) <$> object key) |}.
#[local] Instance r2_laws : R2Laws object.
Proof.
  intros key off len bs _ _ E. cbn in E. destruct (object key) as [o|]; [|done]. exists o. by injection E as <-.
Qed.
(** A budget and the states served. *)
Definition B : Type := (nat * list Db)%type.
Definition charge1 (b : B) : B * result Error unit :=
  match b.1 with O => (b, Err Budget) | S n => ((n, b.2), Ok tt) end.
Definition others (b : B) (d : Db) : B * Db := ((b.1, b.2 ++ [d]), d).
#[export] Instance stub : Stub B := fun _ => Answered.
Definition fresh (b : B) : result Error string := Ok "pk".
Definition new_upload (b : B) (key : string) : result Error Mpu := Ok (∅ : gmap Z (list Z)).
Definition chars (bs : list Z) : string := string_of_list_ascii (map (fun z => ascii_of_N (Z.to_N z)) bs).
Definition request : BodyReader := Eval vm_compute in body_of [Ok (chars (take 20 c)); Ok (chars (drop 20 c))].
Definition start : RunSt B := mkRun B request (PushDemo.d1, (50%nat, [])).
Definition run : RunSt B * result Error (option (option (string * gmap string string * list Z))) :=
  run_push B charge1 (fun _ => 2000) others new_upload fresh map_to_list "repo" "p1" Sha1 (body_fuel request) start.
Definition intake : BodyReader * B * result Error (option (list EntryRec * Z * list Z)) :=
  stream_to_pending B charge1 Sha1 (body_fuel request) (new_upload (50%nat, []) "") request (50%nat, []).
Definition ok_or {A} (x : A) (r : result Error A) : A := match r with Ok a => a | Err _ => x end.
Lemma ok_shape {A C D} (x : A) (r : C * D * result Error A) : is_ok r.2 = true -> r = (r.1.1, r.1.2, Ok (ok_or x r.2)).
Proof. by destruct r as [[y z] [w|]]. Qed.
Definition Out : Type := result Error (option (option (string * gmap string string * list Z))).
Definition answer (x : Out) : option (string * gmap string string * list Z) := match x with Ok (Some r) => r | _ => None end.
Definition tags_of (x : Out) : gmap string string := from_option (fun r => r.1.2) ∅ (answer x).
Definition pack_of (x : Out) : list Z := from_option snd [] (answer x).
Lemma answer_shape (x : RunSt B * Out) :
  from_option (fun r => r.1.1) "" (answer x.2) = "pk" -> x = (x.1, Ok (Some (Some ("pk", tags_of x.2, pack_of x.2)))).
Proof. destruct x as [s [[[[[p t] o]|]|]|]]; cbn; intros E; try discriminate E. by rewrite E. Qed.
Lemma run_eq : run = (run.1, Ok (Some (Some ("pk", tags_of run.2, pack_of run.2)))).
Proof. apply answer_shape. vm_compute. reflexivity. Qed.
Lemma received : bytes_of (pending (rs_body B start)) = c.
Proof. vm_compute. reflexivity. Qed.
(** Only the four objects have an id, and their ids differ. *)
Definition initial (k : Kind) : Z := match k with Commit => 99 | Blob => 98 | Tree | Tag => 116 end.
Lemma loose_head k d : head (loose (k, d)) = Some (initial k) /\ loose (k, d) !! 1%nat = Some (match k with Commit => 111 | Tree => 114 | Blob => 108 | Tag => 97 end).
Proof. destruct k; split; reflexivity. Qed.
Lemma loose_size k d : (length d < length (loose (k, d)))%nat.
Proof. unfold loose, loose_header. rewrite !length_app. cbn. lia. Qed.
Lemma loose_known o : loose o ∈ safe -> o ∈ [a; ac; ab; tg].
Proof.
  destruct o as [k d]. pose proof (loose_head k d) as [H1 H2]. pose proof (loose_size k d) as H3. intros Hin.
  unfold safe in Hin. repeat (apply elem_of_cons in Hin as [Hin|Hin]); [..|by apply elem_of_nil in Hin];
    rewrite Hin in H1, H2, H3; destruct k; try discriminate H1; try discriminate H2; clear H1 H2; cbn [length] in H3.
  all: do 9 (try (destruct d as [|? d]; [|cbn [length] in H3; try lia])); vm_compute in Hin; try discriminate Hin; injection Hin; intros; subst; unfold a, ac, ab, tg; set_solver.
Qed.
Lemma oid_known o id : object_id Sha1 o.1 o.2 = Some id -> o ∈ [a; ac; ab; tg] /\ id = hex_digest (digest Sha1 (loose o)).
Proof.
  unfold object_id, finalize. cbn [sha_collision gix toy_gix]. change (loose_header o.1 _ ++ o.2) with (loose o).
  destruct (bool_decide (loose o ∈ safe)) eqn:E; [|done]. bsimp. intros [= <-]. split; [by apply loose_known|done].
Qed.
Definition ids : list string := Eval vm_compute in map (fun o => hex_digest (digest Sha1 (loose o))) [a; ac; ab; tg].
Lemma ids_eq : map (fun o => hex_digest (digest Sha1 (loose o))) [a; ac; ab; tg] = ids.
Proof. vm_compute. reflexivity. Qed.
Lemma ids_nodup : NoDup ids.
Proof. apply (bool_decide_unpack _). vm_compute. exact I. Qed.
Lemma nodup_map_inj {A C} (f : A -> C) (l : list A) x y : NoDup (map f l) -> x ∈ l -> y ∈ l -> f x = f y -> x = y.
Proof.
  intros Hn Hx Hy E. apply list_elem_of_lookup in Hx as [i Hi]. apply list_elem_of_lookup in Hy as [j Hj].
  assert (i = j) as <-; [|congruence]. apply (NoDup_lookup (map f l) i j (f x) Hn).
  - change (map f l) with (f <$> l). by rewrite list_lookup_fmap, Hi.
  - change (map f l) with (f <$> l). by rewrite list_lookup_fmap, Hj, E.
Qed.
Lemma ids_differ x y : x ∈ [a; ac; ab; tg] -> y ∈ [a; ac; ab; tg] ->
  hex_digest (digest Sha1 (loose x)) = hex_digest (digest Sha1 (loose y)) -> x = y.
Proof. apply (nodup_map_inj (fun o => hex_digest (digest Sha1 (loose o)))). rewrite ids_eq. exact ids_nodup. Qed.
Lemma distinct : no_collision object "repo" Sha1 c.
Proof.
  intros toc count exts x y id _ _ _ [Hx ->]%oid_known [Hy E]%oid_known. by apply ids_differ.
Qed.
#[local] Instance world : PushWorld charge1 others fresh map_to_list "p1" snd PushDemo.d1.
Proof.
  split.
  - intros [[|n] l]; done.
  - done.
  - done.
  - intros b pack s _. vm_compute. reflexivity.
  - done.
  - intros hk bs id size hlen E. cbn in E. unfold toy_entry in E. destruct bs as [|k [|n bs]]; try done.
    destruct (n <? 0); [done|]. destruct (k =? 6); [by destruct bs|]. destruct (k =? 7).
    + cbv zeta in E. destruct (_ && _) eqn:Ec; [|done]. apply andb_true_iff in Ec as [_ Ec%bool_decide_eq_true].
      injection E as <- _ _. unfold oid. by rewrite Ec.
    + destruct (kind_of k) as [[]|]; done.
Qed.
(** No pack is live while the push runs. *)
Definition none_live (d : Db) : bool := forallb (fun kv => negb (bool_decide (pk_state kv.2 = Live))) (map_to_list (t_packs d)).
Lemma none_live_lookup d id : none_live d = true -> lookup_one d id = Ok None.
Proof.
  intros Hn. unfold lookup_one. destruct (live_rows d id) as [|kv rows] eqn:E; [done|]. exfalso.
  assert (kv ∈ live_rows d id) as Hin by (rewrite E; left). unfold live_rows in Hin. apply elem_of_filter_b in Hin as [Hin Hb].
  apply andb_true_iff in Hb as [_ Hl]. unfold pack_live in Hl. destruct (t_packs d !! kv.1.2) as [r|] eqn:Er; [|done].
  unfold none_live in Hn. rewrite forallb_forall in Hn. specialize (Hn (kv.1.2, r)). cbn in Hn. rewrite Hl in Hn.
  discriminate Hn. by apply list_elem_of_In, elem_of_map_to_list.
Qed.
Lemma none_live_honest (b : B) : forallb none_live b.2 = true -> index_honest object "repo" Sha1 snd b.
Proof. intros Hn d id l Hd. rewrite forallb_forall in Hn. rewrite none_live_lookup; [done|]. by apply Hn, list_elem_of_In. Qed.
#[global] Strategy expand [run intake].
End PackDemo.

#[local] Existing Instance demo_platform.
#[local] Existing Instance PackDemo.gix.
#[local] Existing Instance PackDemo.git.
#[local] Existing Instance PackDemo.r2.
#[local] Existing Instance PackDemo.r2_laws.
#[local] Existing Instance PackDemo.stub.
#[local] Existing Instance PackDemo.world.
Lemma push_ingested_witness :
  PackDemo.pack_of PackDemo.run.2 = [80; 65; 67; 75; 0; 0; 0; 2; 0; 0; 0; 4; 3; 1; 1; 97; 3; 2; 2; 97; 98; 4; 1; 1; 116; 3; 2; 2; 97; 99;
    138; 241; 93; 103; 30; 157; 199; 39; 206; 163; 31; 3; 198; 90; 210; 47; 15; 174; 173; 21] /\
  ingested PackDemo.object "repo" "p1" Sha1 snd PackDemo.c (PackDemo.pack_of PackDemo.run.2) "pk" (PackDemo.tags_of PackDemo.run.2)
    (rs_w PackDemo.B PackDemo.run.1).
Proof.
  split; [vm_compute; reflexivity|]. rewrite <- PackDemo.received.
  apply (push_ingested PackDemo.object PackDemo.charge1 (fun _ => 2000) PackDemo.others PackDemo.new_upload PackDemo.fresh
    map_to_list "repo" "p1" Sha1 snd PushDemo.d1 (body_fuel PackDemo.request) PackDemo.start PackDemo.run.1
    (Some (Some ("pk", PackDemo.tags_of PackDemo.run.2, PackDemo.pack_of PackDemo.run.2)))).
  - unfold PackDemo.start. cbn [rs_w fst]. reflexivity.
  - intros E. discriminate E.
  - unfold PackDemo.start. cbn [rs_body]. reflexivity.
  - vm_compute. reflexivity.
  - rewrite PackDemo.received. exact PackDemo.distinct.
  - apply PackDemo.none_live_honest. vm_compute. reflexivity.
  - exact PackDemo.run_eq.
Defined.
Lemma pending_exact_witness :
  exists recs count obj, PackDemo.ok_or None PackDemo.intake.2 = Some (recs, count, obj)
  /\ obj = bytes_of (pending PackDemo.request) /\ pending PackDemo.intake.1.1 = ""
  /\ header_decode (take 12 obj) = Ok (2, count) /\ pack_len recs Sha1 = Z.of_nat (length obj).
Proof.
  destruct (pending_exact PackDemo.charge1 Sha1 (body_fuel PackDemo.request) (PackDemo.new_upload (50%nat, []) "") PackDemo.request
    PackDemo.intake.1.1 (50%nat, []) PackDemo.intake.1.2 (PackDemo.ok_or None PackDemo.intake.2))
    as (recs & count & obj & H1 & H2 & H3 & _ & H4 & _ & _ & H5 & _).
  - intros E. discriminate E.
  - reflexivity.
  - refine (PackDemo.ok_shape None PackDemo.intake _). vm_compute. reflexivity.
  - exists recs, count, obj. exact (conj H1 (conj H2 (conj H3 (conj H4 H5)))).
Defined.
