(* ===== verification/Generate.v ===== *)
(** * Pack generation

    [server/src/pack/generate.rs] -- [send_set], [plan_reads], [pack_chunk] and what
    they are made of -- and the queries of [store::Index] it reads with ([pack_meta],
    [entries_of], [commits_in_range]).

    A fetch walks from what the client wants towards what it has: tags are peeled,
    commits are walked level by level, the trees of the commits to send are
    expanded against the trees the client holds.  Every object met is marked, a bit
    in the bitmap of the pack that holds it; the marks become a list of range reads,
    and a read becomes a piece of the answer.

    The walk awaits R2 and other handlers run meanwhile: [others] is what they do
    to the store, any function here; the theorems say what they need of it.  The
    world [W] holds the budget.  Loops that end because the history does take
    fuel, and answer [None] without it. *)
From S2P Require Import Prelude Errors Db Jobs Cohort GcBase Compact Refs Push Wire Receive Sha Writer Reads Mark Ingest.
Open Scope Z_scope.

Definition MAX_COMMITS : Z := 200000.
Definition MAX_MEM : Z := 64 * 2 ^ 20.
Definition MAX_OBJECTS : Z := 1000000.
Definition CHUNK : nat := Z.to_nat 10000.
(** git's INFINITE_DEPTH. *)
Definition INFINITE : Z := 2147483647.
Definition GAP : Z := 256 * 1024.
Definition WINDOW : Z := 8 * 2 ^ 20.
Definition PREFETCH : Z := 2 * 2 ^ 20.
Definition TOO_BIG : string := "fetch too large for this server; clone instead".
Definition CHANGED : Error := Storage "pack index changed mid-fetch".

Definition for_fold {S E A B} (f : B -> A -> M S E B) : list A -> B -> M S E B :=
  fix go l b := match l with [] => mret b | a :: l' => f b a ≫= go l' end.
Definition storage_err {A} (r : result string A) : result Error A :=
  match r with Ok a => Ok a | Err m => Err (Storage m) end.
(** [id.kind()]: the hash an id is of, by its width. *)
Definition oid_kind (id : string) : HashKind := if (String.length id =? 64)%nat then Sha256 else Sha1.
(** [id.as_bytes()]. *)
Fixpoint oid_bytes (id : string) : list Z :=
  match id with
  | String a (String b r) => unwrap_or 0 (hex_val a) * 16 + unwrap_or 0 (hex_val b) :: oid_bytes r
  | _ => []
  end.

(** ** The send set *)

Record PackSlice : Type := mkSlice { sl_pack : string; sl_count : Z; sl_bytes : Z; sl_bitmap : list Z }.
Record Read : Type := mkRead { rn_pack : nat; rn_off : Z; rn_len : Z; rn_ents : list (Z * Z) }.
Record SendSet : Type := mkSet {
  ss_packs : list PackSlice; ss_by_pack : gmap string nat; ss_reads : list Read;
  ss_shallow : list string; ss_unshallow : list string;
  ss_shas : option (list Z); ss_hash_len : Z; ss_stale : bool }.
Definition set_default : SendSet := mkSet [] ∅ [] [] [] None 0 false.
Definition set_packs (ps : list PackSlice) (by_pack : gmap string nat) (s : SendSet) : SendSet :=
  mkSet ps by_pack (ss_reads s) (ss_shallow s) (ss_unshallow s) (ss_shas s) (ss_hash_len s) (ss_stale s).
Definition set_reads (rs : list Read) (s : SendSet) : SendSet :=
  mkSet (ss_packs s) (ss_by_pack s) rs (ss_shallow s) (ss_unshallow s) (ss_shas s) (ss_hash_len s) (ss_stale s).
Definition set_bounds (shallow unshallow : list string) (s : SendSet) : SendSet :=
  mkSet (ss_packs s) (ss_by_pack s) (ss_reads s) shallow unshallow (ss_shas s) (ss_hash_len s) (ss_stale s).
Definition set_shas (shas : option (list Z)) (s : SendSet) : SendSet :=
  mkSet (ss_packs s) (ss_by_pack s) (ss_reads s) (ss_shallow s) (ss_unshallow s) shas (ss_hash_len s) (ss_stale s).
Definition set_stale (b : bool) (s : SendSet) : SendSet :=
  mkSet (ss_packs s) (ss_by_pack s) (ss_reads s) (ss_shallow s) (ss_unshallow s) (ss_shas s) (ss_hash_len s) b.
(** [SendSet::default()] with the sha list the walk keeps. *)
Definition walk_set (hash_len : Z) : SendSet := mkSet [] ∅ [] [] [] (Some []) hash_len false.

Definition push_slice (packs : list PackSlice) (by_pack : gmap string nat) (pack : string) (count bytes : Z)
  : list PackSlice * gmap string nat * nat :=
  (packs ++ [mkSlice pack count bytes (repeat 0 (Z.to_nat ((count + 7) / 8)))], insert pack (length packs) by_pack, length packs).
Definition set_bit (packs : list PackSlice) (i : nat) (loc : ObjLoc) : result Error (list PackSlice) :=
  let byte := Z.to_nat (lc_idx loc / 8) in
  match packs !! i with
  | Some p => match sl_bitmap p !! byte with
              | Some b => Ok (<[i := mkSlice (sl_pack p) (sl_count p) (sl_bytes p)
                                  (<[byte := Z.lor b (Z.shiftl 1 (lc_idx loc mod 8))]> (sl_bitmap p))]> packs)
              | None => Err (Storage "idx past pack count")
              end
  | None => Err (Storage "idx past pack count")
  end.
Definition mark_with (pack_meta : string -> result Error (Z * Z)) (id : string) (loc : ObjLoc) (s : SendSet) : result Error SendSet :=
  let s1 := set_shas (option_map (fun l => l ++ oid_bytes id) (ss_shas s)) s in
  match ss_by_pack s !! lc_pack loc with
  | Some i => ps ← set_bit (ss_packs s) i loc; Ok (set_packs ps (ss_by_pack s) s1)
  | None =>
      match pack_meta (lc_pack loc) with
      | Err e => if is_some (ss_shas s) && ends_with "not live" (message e) then Ok (set_stale true s1) else Err e
      | Ok cb =>
          let '(ps, bp, i) := push_slice (ss_packs s) (ss_by_pack s) (lc_pack loc) cb.1 cb.2 in
          ps' ← set_bit ps i loc;
          Ok (set_packs ps' bp s1)
      end
  end.
(** [u32]s summed. *)
Definition count (s : SendSet) : Z := Z.of_nat (sum_list_with (fun p => bm_popcount (sl_bitmap p)) (ss_packs s)) mod 2 ^ 32.

(** ** The index *)

Definition pack_meta (d : Db) (pack : string) : result Error (Z * Z) :=
  match t_packs d !! pack with
  | Some r => if bool_decide (pk_state r = Live)
              then c ← narrow u32_max "count" (pk_count r); b ← narrow u64_max "bytes" (pk_bytes r); Ok (c, b)
              else Err (Storage ("pack " +:+ pack +:+ " not live"))
  | None => Err (Storage ("pack " +:+ pack +:+ " not live"))
  end.
Definition off_le (a b : ObjLoc) : Prop := lc_offset a <= lc_offset b.
#[global] Instance off_le_dec : RelDecision off_le.
Proof. intros a b. unfold off_le. apply _. Defined.
Definition PAGE : nat := Z.to_nat 5000.
(** [WHERE pack_id=? AND idx>? ORDER BY idx LIMIT 5000]. *)
Definition entries_page (d : Db) (pack : string) (after : Z) : list (string * ObjSql) :=
  take PAGE (List.filter (fun r => after <? ob_idx r.2) (merge_sort row_le (pack_rows d pack))).
Fixpoint marked_rows (pack : string) (bitmap : list Z) (rows : list (string * ObjSql)) : result Error (list ObjLoc) :=
  match rows with
  | [] => Ok []
  | r :: rows' =>
      if bm_get bitmap (ob_idx r.2)
      then l ← row_loc pack r.2; ls ← marked_rows pack bitmap rows'; Ok (l :: ls)
      else marked_rows pack bitmap rows'
  end.
(** Every full page moves the cursor past at least one row. *)
Fixpoint entries_loop (fuel : nat) (d : Db) (pack : string) (bitmap : list Z) (after : Z) : result Error (list ObjLoc) :=
  match fuel with
  | O => Ok []
  | S f =>
      let rows := entries_page d pack after in
      out ← marked_rows pack bitmap rows;
      if (length rows <? PAGE)%nat then Ok out
      else more ← entries_loop f d pack bitmap (match last rows with Some r => ob_idx r.2 | None => after end);
           Ok (out ++ more)
  end.
Definition entries_of (d : Db) (pack : string) (bitmap : list Z) : result Error (list ObjLoc) :=
  ls ← entries_loop (S (length (pack_rows d pack))) d pack bitmap (-1);
  Ok (merge_sort off_le ls).
Definition pair_off_le (a b : string * ObjSql) : Prop := ob_offset a.2 <= ob_offset b.2.
#[global] Instance pair_off_le_dec : RelDecision pair_off_le.
Proof. intros a b. unfold pair_off_le. apply _. Defined.

(** ** The plan *)

(** An entry too big for one read, in window-sized fragments. *)
Fixpoint fragments (fuel : nat) (pack : nat) (pos e : Z) : result Error (list Read) :=
  match fuel with
  | O => Ok []
  | S f =>
      if pos <? e then
        let n := Z.min (sat_subu64 e pos) WINDOW in
        if n <=? u32_max
        then more ← fragments f pack (sat_addu64 pos n) e; Ok (mkRead pack pos n [(pos, n)] :: more)
        else Err (Limit "read fragment exceeds window")
      else Ok []
  end.
Definition fragment_fuel (pos e : Z) : nat := Z.to_nat ((e - pos) / WINDOW + 1).
Definition coalesce_step (pack : nat) (gap : Z) (out : list Read) (l : ObjLoc) : result Error (list Read) :=
  let e := sat_addu64 (lc_offset l) (lc_len l) in
  let fresh := fs ← fragments (fragment_fuel (lc_offset l) e) pack (lc_offset l) e; Ok (out ++ fs) in
  match last out with
  | Some r =>
      if (sat_subu64 (lc_offset l) (sat_addu64 (rn_off r) (rn_len r)) <? gap) && (sat_subu64 e (rn_off r) <=? WINDOW)
      then Ok (removelast out ++ [mkRead (rn_pack r) (rn_off r) (sat_subu64 e (rn_off r)) (rn_ents r ++ [(lc_offset l, lc_len l)])])
      else fresh
  | None => fresh
  end.
Fixpoint coalesce_from (pack : nat) (gap : Z) (out : list Read) (locs : list ObjLoc) : result Error (list Read) :=
  match locs with
  | [] => Ok out
  | l :: locs' => out' ← coalesce_step pack gap out l; coalesce_from pack gap out' locs'
  end.
Definition coalesce (pack : nat) (locs : list ObjLoc) (gap : Z) : result Error (list Read) := coalesce_from pack gap [] locs.
(** The small gap, unless it makes more reads than the pack has windows. *)
Definition pack_reads (pi : nat) (bytes : Z) (l : list ObjLoc) : result Error (list Read) :=
  plan ← coalesce pi l GAP;
  if (bytes + WINDOW - 1) / WINDOW <? Z.of_nat (length plan) then coalesce pi l WINDOW else Ok plan.
(** [None]: a pack's rows are no longer those its bitmap marks. *)
Fixpoint plan_packs (d : Db) (pi : nat) (packs : list PackSlice) : result Error (option (list Read)) :=
  match packs with
  | [] => Ok (Some [])
  | p :: packs' =>
      l ← entries_of d (sl_pack p) (sl_bitmap p);
      if negb (length l =? bm_popcount (sl_bitmap p))%nat then Ok None
      else
        rs ← pack_reads pi (sl_bytes p) l;
        more ← plan_packs d (S pi) packs';
        Ok (option_map (app rs) more)
  end.

Section Rebuild.
Context `{PF : Platform}.
Definition object_ids_from_sha_bytes (chunk : list Z) (hash_len : nat) : result Error (list string) :=
  collect (fun b => oid (hex_digest b)) (chunks_of (length chunk) hash_len chunk).
Definition rebuild_mark_loc (packs : list PackSlice) (by_pack : gmap string nat) (pack_meta : string -> result Error (Z * Z))
    (loc : ObjLoc) : result Error (list PackSlice * gmap string nat * nat) :=
  match by_pack !! lc_pack loc with
  | Some i => Ok (packs, by_pack, i)
  | None => cb ← pack_meta (lc_pack loc); Ok (push_slice packs by_pack (lc_pack loc) cb.1 cb.2)
  end.
Fixpoint rebuild_locs (pack_meta : string -> result Error (Z * Z)) (ls : list (option ObjLoc))
    (st : list PackSlice * gmap string nat) : result Error (list PackSlice * gmap string nat) :=
  match ls with
  | [] => Ok st
  | l :: ls' =>
      loc ← of_option CHANGED l;
      r ← rebuild_mark_loc st.1 st.2 pack_meta loc;
      ps ← set_bit r.1.1 r.2 loc;
      rebuild_locs pack_meta ls' (ps, r.1.2)
  end.
Fixpoint rebuild_chunks (lookup : list string -> result Error (list (option ObjLoc))) (pack_meta : string -> result Error (Z * Z))
    (hash_len : nat) (cs : list (list Z)) (st : list PackSlice * gmap string nat) : result Error (list PackSlice * gmap string nat) :=
  match cs with
  | [] => Ok st
  | c :: cs' =>
      ids ← object_ids_from_sha_bytes c hash_len;
      ls ← lookup ids;
      st' ← rebuild_locs pack_meta ls st;
      rebuild_chunks lookup pack_meta hash_len cs' st'
  end.
Definition rebuild_with (lookup : list string -> result Error (list (option ObjLoc))) (pack_meta : string -> result Error (Z * Z))
    (s : SendSet) : result Error SendSet :=
  match ss_shas s with
  | Some shas =>
      if 0 <? ss_hash_len s then
        let n := Z.to_nat (ss_hash_len s) in
        st ← rebuild_chunks lookup pack_meta n (chunks_of (length shas) (PAGE * n) shas) ([], ∅);
        Ok (set_stale false (set_packs st.1 st.2 s))
      else Err CHANGED
  | None => Err CHANGED
  end.
Definition rebuild (d : Db) (s : SendSet) : result Error SendSet :=
  rebuild_with (fun ids => (index_lookup ids d).2) (pack_meta d) s.

(** One rebuild at most: at the start when a mark went stale, or where the loop
    finds a pack changed; the loop starts over after it. *)
Definition plan_reads (b : ReqBudget) (d : Db) (s : SendSet) : result Error SendSet :=
  s1 ← (if ss_stale s then rebuild d s else Ok s);
  plan ← plan_packs d 0 (ss_packs s1);
  r ← match plan with
      | Some reads => Ok (s1, reads)
      | None =>
          if ss_stale s then Err CHANGED
          else
            s2 ← rebuild d s1;
            again ← plan_packs d 0 (ss_packs s2);
            reads ← of_option CHANGED again;
            Ok (s2, reads)
      end;
  if negb (Z.of_nat (length r.2) <=? u32_max) then Err Budget
  else if max_subrequests b <? sat_addu32 (used b) (Z.of_nat (length r.2)) then Err Budget
  else Ok (set_reads r.2 r.1).
End Rebuild.

(** ** Objects in memory *)

Record MemFind : Type := mkMem { mf_objs : gmap string (Kind * list Z); mf_bytes : Z }.
Definition mem_default : MemFind := mkMem ∅ 0.
Definition mem_insert (id : string) (k : Kind) (data : list Z) (m : MemFind) : MemFind :=
  mkMem (insert id (k, data) (mf_objs m)) (sat_addu64 (mf_bytes m) (Z.of_nat (length data))).
Definition mem_exists (m : MemFind) (id : string) : bool := is_some (mf_objs m !! id).
Definition find (m : MemFind) (id : string) : result Error (list Z) :=
  of_option (Storage ("entry " +:+ id +:+ " not read")) (snd <$> mf_objs m !! id).

(** gix_object's readers of a tree entry (its mode, its name, its id) and of a
    tag's target (the kind the tag claims, the id). *)
Inductive EntryMode : Type := MTree | MCommit | MBlob.
#[export] Instance EntryMode_eq_dec : EqDecision EntryMode.
Proof. solve_decision. Defined.
Record TreeRef : Type := mkTreeRef { te_mode : EntryMode; te_name : string; te_oid : string }.
Class GitTrees : Type := {
  tree_refs : HashKind -> list Z -> list (result string TreeRef);
  tag_ref : HashKind -> list Z -> result string (Kind * string)
}.

(** ** The expansion of a tree *)

(** What the client has of a level: the ids in the counterpart trees, and the
    subtrees by name. *)
Record Held : Type := mkHeld { hl_had : gset string; hl_by_name : gmap string string }.
Definition hold (h : Held) (e : TreeRef) : Held :=
  mkHeld ({[te_oid e]} ∪ hl_had h) (if bool_decide (te_mode e = MTree) then insert (te_name e) (te_oid e) (hl_by_name h) else hl_by_name h).
(** Ids met so far, trees for the next level with their counterparts, blobs. *)
Record Front : Type := mkFront { fr_seen : gset string; fr_next : list (string * list string); fr_blobs : list string }.

Section Trees.
Context `{GT : GitTrees}.
Definition trees_of (mem : MemFind) (t : string) : result Error (list TreeRef) :=
  data ← find mem t; collect storage_err (tree_refs (oid_kind t) data).
Fixpoint held_of (mem : MemFind) (bases : list string) (h : Held) : result Error Held :=
  match bases with
  | [] => Ok h
  | b :: bases' => es ← trees_of mem b; held_of mem bases' (fold_left hold es h)
  end.
Definition expand_entry (filter : option Filter) (h : Held) (f : Front) (e : TreeRef) : result Error Front :=
  let oid := te_oid e in
  if bool_decide (te_mode e = MCommit) || bool_decide (oid ∈ hl_had h) || bool_decide (oid ∈ fr_seen f) then Ok f
  else
    let seen := {[oid]} ∪ fr_seen f in
    if MAX_OBJECTS <? Z.of_nat (size seen) then Err (Limit TOO_BIG)
    else Ok (match te_mode e, filter with
             | MTree, _ => mkFront seen (fr_next f ++ [(oid, match hl_by_name h !! te_name e with Some b => [b] | None => [] end)]) (fr_blobs f)
             | _, Some BlobNone => mkFront seen (fr_next f) (fr_blobs f)
             | _, _ => mkFront seen (fr_next f) (fr_blobs f ++ [oid])
             end).
Fixpoint expand_entries (filter : option Filter) (h : Held) (es : list (result string TreeRef)) (f : Front) : result Error Front :=
  match es with
  | [] => Ok f
  | r :: es' => e ← storage_err r; f' ← expand_entry filter h f e; expand_entries filter h es' f'
  end.
Definition expand_tree (mem : MemFind) (tree : string) (bases : list string) (filter : option Filter) (f : Front) : result Error Front :=
  h ← held_of mem bases (mkHeld ∅ ∅);
  data ← find mem tree;
  expand_entries filter h (tree_refs (oid_kind tree) data) f.
End Trees.

(** [<ts>] of a commit's [committer] header. *)
Definition text_of (bs : list Z) : string := string_of_list_ascii (map (fun z => ascii_of_N (Z.to_N z)) bs).
Fixpoint committer_line (lines : list string) : option Z :=
  match lines with
  | [] => None
  | l :: lines' =>
      if str_empty l then None
      else match strip_prefix "committer " l with
           | Some rest =>
               let parts := split_on " " rest in
               if (length parts <? 2)%nat then None
               else parts !! (length parts - 2)%nat ≫= parse_i64
           | None => committer_line lines'
           end
  end.
Definition committer_ts (data : list Z) : option Z := committer_line (split_on nl (text_of data)).

(** ** The request and the walk's state *)

Record Ask : Type := mkAsk {
  ak_wants : list string; ak_haves : list string; ak_filter : option Filter; ak_deepen : option Z;
  ak_since : option Z; ak_not : list string; ak_relative : bool; ak_include_tag : bool; ak_shallow : list string }.
Definition shallow_mode (a : Ask) : bool := is_some (ak_deepen a) || is_some (ak_since a) || negb (null (ak_not a)).
Definition infinite (a : Ask) : bool := bool_decide (ak_deepen a = Some INFINITE).

(** What the wants start: commits, trees and tags to visit, ids met, commits sent. *)
Record Seed : Type := mkSeed {
  sd_commits : list string; sd_trees : list string; sd_tags : list string; sd_seen : gset string; sd_sent : gset string }.
Definition seed_commit (sent : bool) (c : string) (s : Seed) : Seed :=
  mkSeed (sd_commits s ++ [c]) (sd_trees s) (sd_tags s) (sd_seen s) (if sent then {[c]} ∪ sd_sent s else sd_sent s).
Definition seed_tree (t : string) (s : Seed) : Seed :=
  mkSeed (sd_commits s) (sd_trees s ++ [t]) (sd_tags s) (sd_seen s) (sd_sent s).
Definition seed_tag (t : string) (s : Seed) : Seed :=
  mkSeed (sd_commits s) (sd_trees s) (sd_tags s ++ [t]) (sd_seen s) (sd_sent s).
Definition seed_seen (x : string) (s : Seed) : Seed :=
  mkSeed (sd_commits s) (sd_trees s) (sd_tags s) ({[x]} ∪ sd_seen s) (sd_sent s).
Definition no_tags (s : Seed) : Seed := mkSeed (sd_commits s) (sd_trees s) [] (sd_seen s) (sd_sent s).

(** A queue entry: a commit, its depth, whether the depth is the boundary's. *)
Abbreviation Entry := (string * Z * bool)%type.
Definition key_le (a b : Entry) : Prop :=
  String.le a.1.1 b.1.1 /\ (a.1.1 = b.1.1 -> (a.2 = true /\ b.2 = false) \/ (a.2 = b.2 /\ a.1.2 <= b.1.2)).
#[global] Instance key_le_dec : RelDecision key_le.
Proof.
  intros a b. unfold key_le. destruct (decide (String.le a.1.1 b.1.1)) as [H1|H1]; [|right; naive_solver].
  destruct (decide (a.1.1 = b.1.1)) as [H2|H2]; [|left; naive_solver].
  destruct (decide ((a.2 = true /\ b.2 = false) \/ (a.2 = b.2 /\ a.1.2 <= b.1.2))) as [H3|H3]; [left|right]; naive_solver.
Defined.
(** [dedup_by(|a, b| a.0 == b.0)]: the first of each run stays. *)
Fixpoint dedup_from {A} (f : A -> string) (prev : option string) (l : list A) : list A :=
  match l with
  | [] => []
  | b :: l' => if bool_decide (prev = Some (f b)) then dedup_from f prev l' else b :: dedup_from f (Some (f b)) l'
  end.
Definition dedup_on {A} (f : A -> string) (l : list A) : list A := dedup_from f None l.
Record Walk : Type := mkWalk {
  wk_depth : gmap string Z; wk_parents : gmap string (list string); wk_cs : gset string; wk_bases : list string;
  wk_edge : list string; wk_sent : gset string; wk_trees : list string; wk_next : list Entry }.

Section Send.
Context `{PF : Platform} `{PC : PackCodec} `{RR : R2} `{GO : GitObjects} `{GT : GitTrees}.
Context (W : Type) (charge1 : W -> W * result Error unit) (budget : W -> ReqBudget).
(** What happens to the store during an await. *)
Context (others : W -> Db -> W * Db) (repo : string).

Record Fs : Type := mkFs { fs_db : Db; fs_w : W; fs_set : SendSet; fs_mem : MemFind }.
Abbreviation FM := (M Fs Error).
Definition with_dw (d : Db) (w : W) (s : Fs) : Fs := mkFs d w (fs_set s) (fs_mem s).
Definition with_set (x : SendSet) (s : Fs) : Fs := mkFs (fs_db s) (fs_w s) x (fs_mem s).
Definition with_mem (m : MemFind) (s : Fs) : Fs := mkFs (fs_db s) (fs_w s) (fs_set s) m.
Definition on_db {A} (m : DoM A) : FM A := fun s => let r := m (fs_db s) in (with_dw r.1 (fs_w s) s, r.2).
Definition on_world {A} (m : M W Error A) : FM A := fun s => let r := m (fs_w s) in (with_dw (fs_db s) r.1 s, r.2).
(** [m] awaits: whatever it answers, the others have run. *)
Definition awaiting {A} (m : FM A) : FM A := fun s =>
  let r := m s in
  let wd := others (fs_w r.1) (fs_db r.1) in (with_dw wd.2 wd.1 r.1, r.2).
Definition clear_mem : FM unit := modify (with_mem mem_default).
(** A paused failpoint polls until it is released, and the others run; any other
    is the synchronous one. *)
Definition failpoint_async (name : string) : FM unit := fun s =>
  match t_failpoints (fs_db s) !! name with
  | Some (action, remaining) =>
      if hooks_enabled && String.eqb action "pause" && (0 <? remaining)
      then awaiting (on_db (modify (on_failpoints (insert name (action, remaining - 1))))) s
      else on_db (failpoint name) s
  | None => on_db (failpoint name) s
  end.

Definition mark (id : string) (loc : ObjLoc) : FM unit := fun s =>
  match mark_with (pack_meta (fs_db s)) id loc (fs_set s) with
  | Ok x => (with_set x s, Ok tt)
  | Err e => (s, Err e)
  end.

(** ** Loading a round *)

Definition located (ids : list string) : DoM (list (string * ObjLoc)) :=
  ls ← index_lookup ids;
  lift (collect (fun p : string * option ObjLoc =>
    l ← of_option (Internal ("reachable " +:+ p.1 +:+ " is not live")) p.2; Ok (p.1, l)) (zip ids ls)).
Definition read_all (locs : list (string * ObjLoc)) : FM (list (string * list Z)) :=
  r ← awaiting (on_world (read_entries_chunked W charge1 repo locs));
  mret (unwrap_or [] r).
Definition remember (e : string * list Z) : FM unit :=
  lift (decode_entry e.2) ≫= fun o : Kind * list Z =>
  modify (fun s => with_mem (mem_insert e.1 o.1 o.2 (fs_mem s)) s) ≫= fun _ =>
  full ← gets (fun s => MAX_MEM <? mf_bytes (fs_mem s));
  if (full : bool) then fail (Limit TOO_BIG) else mret tt.
Definition load (ids : list string) : FM (list ObjLoc) :=
  locs ← on_db (located ids);
  es ← read_all locs;
  for_each es remember ≫= fun _ =>
  (if null locs then mret tt else failpoint_async "fetch.walk.after_load") ≫= fun _ =>
  mret (map snd locs).

(** [WHERE pack_id=? AND kind=1 AND offset>=? AND offset<? AND state='live' ORDER BY
    offset LIMIT 100000]. *)
Definition commits_in_range (pack : string) (lo hi : Z) : DoM (list (string * ObjLoc)) :=
  lo' ← lift (to_i64 lo);
  hi' ← lift (to_i64 hi);
  rows ← gets (fun d => if pack_live d pack then
    take (Z.to_nat 100000) (merge_sort pair_off_le
      (List.filter (fun r => (ob_kind r.2 =? 1) && (lo' <=? ob_offset r.2) && (ob_offset r.2 <? hi')) (pack_rows d pack)))
    else []);
  lift (collect (fun r : string * ObjSql =>
    id ← of_option (Internal "bad sha in objects") (oid_from_hex r.1);
    Ok (id, mkLoc pack (ob_idx r.2) (ob_offset r.2) (ob_len r.2) Commit (ob_size r.2))) rows).
(** The span a round needs of each pack. *)
Definition widen (m : gmap string (Z * Z)) (l : string * ObjLoc) : gmap string (Z * Z) :=
  let e := unwrap_or (lc_offset l.2, loc_end l) (m !! lc_pack l.2) in
  insert (lc_pack l.2) (Z.min e.1 (lc_offset l.2), Z.max e.2 (loc_end l)) m.
Definition prefetch (mem : MemFind) (missing : list (string * ObjLoc)) (e : string * (Z * Z)) : DoM (list (string * ObjLoc)) :=
  cb ← ((fun d => (d, pack_meta d e.1)) : DoM (Z * Z));
  ps ← commits_in_range e.1 (sat_subu64 e.2.1 PREFETCH) (Z.min (sat_addu64 e.2.2 PREFETCH) cb.2);
  mret (missing ++ List.filter (fun p => negb (mem_exists mem p.1)) ps).
Definition id_first (a b : string * ObjLoc) : Prop := String.le a.1 b.1.
#[local] Instance id_first_dec : RelDecision id_first.
Proof. intros a b. unfold id_first. apply _. Defined.
Definition load_commits (ids : list string) : FM (list ObjLoc) :=
  locs ← on_db (located ids);
  mem ← gets fs_mem;
  let missing := List.filter (fun l : string * ObjLoc => negb (mem_exists mem l.1)) locs in
  (if null missing then mret tt
   else
     more ← on_db (for_fold (prefetch mem) (map_to_list (fold_left widen missing ∅)) missing);
     es ← read_all (dedup_on fst (merge_sort id_first more));
     for_each es remember) ≫= fun _ =>
  mret (map snd locs).

(** ** The wants *)

Definition seed_want (s : Seed) (w : string * option ObjLoc) : FM Seed :=
  loc ← lift (of_option (Protocol ("upload-pack: not our ref " +:+ w.1)) w.2);
  mark w.1 loc ≫= fun _ =>
  let s1 := seed_seen w.1 s in
  mret (match lc_kind loc with
        | Commit => seed_commit true w.1 s1
        | Tree => seed_tree w.1 s1
        | Tag => seed_tag w.1 s1
        | Blob => s1
        end).
Definition seed (wants : list string) : FM Seed :=
  ls ← on_db (index_lookup wants);
  for_fold seed_want (zip wants ls) (mkSeed [] [] [] ∅ ∅).
Definition peel_one (s : Seed) (t : string) : FM Seed :=
  mem ← gets fs_mem;
  data ← lift (find mem t);
  tg ← lift (storage_err (tag_ref (oid_kind t) data));
  match tg with
  | (Commit, x) => mret (seed_commit false x s)
  | (Tree, x) => mret (seed_tree x s)
  | (Tag, x) => mret (seed_tag x s)
  | (Blob, x) =>
      ls ← on_db (index_lookup [x]);
      match ls with
      | [Some l] => mark x l ≫= fun _ => mret (seed_seen x s)
      | _ => mret s
      end
  end.
Fixpoint peel (fuel : nat) (s : Seed) : FM (option Seed) :=
  match sd_tags s, fuel with
  | [], _ => mret (Some s)
  | _, O => mret None
  | tags, S f =>
      load tags ≫= fun _ =>
      s' ← for_fold peel_one tags (no_tags s);
      clear_mem ≫= fun _ =>
      peel f s'
  end.

(** ** The excluded side *)

Definition exclude_one (acc : gset string * list string) (cl : string * ObjLoc) : FM (gset string * list string) :=
  let nots := {[cl.1]} ∪ acc.1 in
  if negb (bool_decide (lc_kind cl.2 = Commit)) then mret (nots, acc.2)
  else
    mem ← gets fs_mem;
    data ← lift (find mem cl.1);
    mret (nots, acc.2 ++ List.filter (fun p => negb (bool_decide (p ∈ nots))) (commit_parent_ids (oid_kind cl.1) data)).
Definition known (ids : list string) : DoM (list string) :=
  ls ← index_lookup ids;
  mret (map fst (List.filter (fun p => is_some p.2) (zip ids ls))).
Fixpoint exclude (fuel : nat) (nots : gset string) (frontier : list string) : FM (option (gset string)) :=
  let new := List.filter (fun c => negb (bool_decide (c ∈ nots))) (sort_dedup frontier) in
  match new, fuel with
  | [], _ => mret (Some nots)
  | _, O => mret None
  | _, S f =>
      if MAX_COMMITS <? Z.of_nat (size nots) + Z.of_nat (length new) then fail (Limit TOO_BIG)
      else
        here ← on_db (known new);
        if null here then mret (Some nots)
        else
          locs ← load_commits here;
          for_fold exclude_one (zip here locs) (nots, []) ≫= fun r : gset string * list string =>
          exclude f r.1 r.2
  end.

(** ** The commit walk *)

Section Request.
Context (a : Ask) (acks cs nots : gset string).
Definition cap : Z := unwrap_or u32_max (ak_deepen a).
Definition since_boundary (data : list Z) : bool :=
  match ak_since a with
  | Some since => match committer_ts data with Some t => t <? since | None => false end
  | None => false
  end.
Definition depth_boundary (d : Z) (counted : bool) : bool :=
  is_some (ak_deepen a) && negb (infinite a) && counted && (cap <=? d).
Definition descends (c : string) (d : Z) : bool :=
  bool_decide (c ∈ cs) && shallow_mode a
  && (ak_relative a || infinite a || negb (is_some (ak_deepen a)) || (d <? cap)).
Definition visited (c : string) (d : Z) (parents : list string) (k : Walk) : Walk :=
  mkWalk (insert c d (wk_depth k)) (if shallow_mode a then insert c parents (wk_parents k) else wk_parents k)
    (wk_cs k) (wk_bases k) (wk_edge k) (wk_sent k) (wk_trees k) (wk_next k).
(** Below a client-shallow commit. *)
Definition descend (c tree : string) (d : Z) (parents : list string) (k : Walk) : Walk :=
  let nd := if ak_relative a || infinite a then 1 else sat_addu32 d 1 in
  mkWalk (wk_depth k) (wk_parents k) ({[c]} ∪ wk_cs k) (wk_bases k ++ [tree]) (wk_edge k) (wk_sent k) (wk_trees k)
    (wk_next k ++ map (fun p => (p, nd, true)) parents).
Definition add_base (tree : string) (k : Walk) : Walk :=
  mkWalk (wk_depth k) (wk_parents k) (wk_cs k) (wk_bases k ++ [tree]) (wk_edge k) (wk_sent k) (wk_trees k) (wk_next k).
Definition add_sent (c : string) (k : Walk) : Walk :=
  mkWalk (wk_depth k) (wk_parents k) (wk_cs k) (wk_bases k) (wk_edge k) ({[c]} ∪ wk_sent k) (wk_trees k) (wk_next k).
Definition add_tree (c tree : string) (k : Walk) : Walk :=
  mkWalk (wk_depth k) (wk_parents k) (wk_cs k) (wk_bases k) (wk_edge k) (wk_sent k)
    (if bool_decide (c ∈ wk_sent k) then wk_trees k ++ [tree] else wk_trees k) (wk_next k).
Definition step_parent (d : Z) (counted : bool) (k : Walk) (p : string) : Walk :=
  if shallow_mode a || negb (bool_decide (p ∈ acks))
  then mkWalk (wk_depth k) (wk_parents k) (wk_cs k) (wk_bases k) (wk_edge k) (wk_sent k) (wk_trees k)
         (wk_next k ++ [(p, sat_addu32 d 1, counted)])
  else mkWalk (wk_depth k) (wk_parents k) (wk_cs k) (wk_bases k) (wk_edge k ++ [p]) (wk_sent k) (wk_trees k) (wk_next k).
Definition visit (k : Walk) (e : Entry * ObjLoc) : FM Walk :=
  let '((c, d, counted), loc) := e in
  mem ← gets fs_mem;
  data ← lift (find mem c);
  tree ← lift (storage_err (commit_tree_id (oid_kind c) data));
  let parents := commit_parent_ids (oid_kind c) data in
  let k1 := visited c d parents k in
  if descends c d then mret (descend c tree d parents k1)
  else
    let is_ack := bool_decide (c ∈ acks) in
    let is_cs := bool_decide (c ∈ cs) in
    let is_not := bool_decide (c ∈ nots) in
    let since := since_boundary data in
    k2 ← (if is_ack || is_cs then mret (add_base tree k1)
          else if negb is_not && negb since then mark c loc ≫= fun _ => mret (add_sent c k1)
          else mret k1);
    let k3 := add_tree c tree k2 in
    if is_not || since || depth_boundary d counted || is_cs || (is_ack && negb (shallow_mode a)) then mret k3
    else mret (fold_left (step_parent d counted) parents k3).
Definition next_level (k : Walk) : list Entry :=
  List.filter (fun e => negb (bool_decide (is_Some (wk_depth k !! e.1.1)))) (dedup_on (fun e => e.1.1) (merge_sort key_le (wk_next k))).
Definition no_next (k : Walk) : Walk :=
  mkWalk (wk_depth k) (wk_parents k) (wk_cs k) (wk_bases k) (wk_edge k) (wk_sent k) (wk_trees k) [].
Fixpoint walk (fuel : nat) (k : Walk) : FM (option Walk) :=
  let queue := next_level k in
  match wk_next k, fuel with
  | [], _ => mret (Some k)
  | _, O => mret None
  | _, S f =>
      if MAX_COMMITS <? Z.of_nat (size (wk_depth k)) + Z.of_nat (length queue) then fail (Limit TOO_BIG)
      else
        locs ← load_commits (map (fun e => e.1.1) queue);
        k' ← for_fold visit (zip queue locs) (no_next k);
        walk f k'
  end.

(** The commits the client is told are its boundary, and no longer are. *)
Definition client_side (sent : gset string) (p : string) : bool :=
  bool_decide (p ∈ sent) || bool_decide (p ∈ acks) || bool_decide (p ∈ cs).
Definition unshallow_of (k : Walk) : list string :=
  List.filter (fun c => match wk_parents k !! c with Some ps => forallb (client_side (wk_sent k)) ps | None => false end)
    (elements (wk_cs k)).
Definition shallow_of (k : Walk) : list string :=
  List.filter (fun c => negb (bool_decide (c ∈ acks) || bool_decide (c ∈ cs))
                 && match wk_parents k !! c with Some ps => negb (forallb (client_side (wk_sent k)) ps) | None => false end)
    (elements (wk_sent k)).

(** ** The trees *)

Definition edge_tree (bases : list string) (e : string) : FM (list string) :=
  mem ← gets fs_mem;
  data ← lift (find mem e);
  t ← lift (storage_err (commit_tree_id (oid_kind e) data));
  mret (bases ++ [t]).
(** The trees to expand, each against the same counterparts. *)
Definition roots_of (k : Walk) : FM (list (string * list string)) :=
  let edge := take 64 (sort_dedup (wk_edge k)) in
  load edge ≫= fun _ =>
  bases ← for_fold edge_tree edge (wk_bases k);
  clear_mem ≫= fun _ =>
  let bases' := take 64 (sort_dedup bases) in
  mret (map (fun t => (t, bases')) (sort_dedup (wk_trees k))).
Definition expand_item (f : Front) (it : string * list string) : FM Front := fun s =>
  (s, expand_tree (fs_mem s) it.1 it.2 (ak_filter a) f).
Definition tree_chunk (f : Front) (chunk : list (string * list string)) : FM Front :=
  let ids := map fst chunk in
  locs ← load ids;
  for_each (zip ids locs) (fun p => mark p.1 p.2) ≫= fun _ =>
  load (sort_dedup (concat (map snd chunk))) ≫= fun _ =>
  f' ← for_fold expand_item chunk f;
  clear_mem ≫= fun _ =>
  mret f'.
Definition mark_blob (p : string * option ObjLoc) : FM unit :=
  loc ← lift (of_option (Internal ("reachable blob " +:+ p.1 +:+ " is not live")) p.2);
  match ak_filter a with
  | Some (BlobLimit n) => if n <? lc_size loc then mret tt else mark p.1 loc
  | _ => mark p.1 loc
  end.
Fixpoint tree_levels (fuel : nat) (seen : gset string) (items : list (string * list string)) : FM (option unit) :=
  match items, fuel with
  | [], _ => mret (Some tt)
  | _, O => mret None
  | _, S f =>
      r ← for_fold tree_chunk (chunks_of (length items) CHUNK items) (mkFront seen [] []);
      ls ← on_db (index_lookup (fr_blobs r));
      for_each (zip (fr_blobs r) ls) mark_blob ≫= fun _ =>
      tree_levels f (fr_seen r) (fr_next r)
  end.

(** ** Tags that ride along *)

(** [name LIKE 'refs/tags/%' AND peeled IS NOT NULL]. *)
Definition refs_tags (d : Db) : list (string * string) :=
  omap (fun kv => if starts_with "refs/tags/" (str_map to_lower kv.1)
                  then p ← rf_peeled kv.2; Some (rf_target kv.2, p) else None) (map_to_list (t_refs d)).
Definition follow_tag (sent : gset string) (r : string * string) : FM unit :=
  match oid_from_hex r.2, oid_from_hex r.1 with
  | Some peeled, Some tag =>
      if client_side sent peeled then
        ls ← on_db (index_lookup [tag]);
        match ls with
        | [Some l] => mark tag l
        | _ => mret tt
        end
      else mret tt
  | _, _ => mret tt
  end.
End Request.

(** ** The whole walk *)

Definition plan : FM SendSet := fun s =>
  match plan_reads (budget (fs_w s)) (fs_db s) (fs_set s) with
  | Ok x => (with_set x s, Ok x)
  | Err e => (s, Err e)
  end.
(** What the walk starts from; [--unshallow] starts at the client's boundary too. *)
Definition walk_start (a : Ask) (sd : Seed) (below : list string) : Walk :=
  mkWalk ∅ ∅ ∅ [] [] (sd_sent sd) (sd_trees sd) (map (fun c => (c, 1, negb (ak_relative a))) (sd_commits sd ++ below)).
(** Once the commits are known: the boundary, the trees, the tags, the plan. *)
Definition after_walk (fuel : nat) (a : Ask) (acks cs : gset string) (sd : Seed) (k : Walk) : FM (option SendSet) :=
  clear_mem ≫= fun _ =>
  (if shallow_mode a then modify (fun s => with_set (set_bounds (shallow_of acks cs k) (unshallow_of acks cs k) (fs_set s)) s)
   else mret tt) ≫= fun _ =>
  items ← roots_of k;
  done ← tree_levels a fuel (sd_seen sd) items;
  match done with
  | None => mret None
  | Some _ =>
      (if ak_include_tag a then tags ← gets (fun s => refs_tags (fs_db s)); for_each tags (follow_tag acks cs (wk_sent k))
       else mret tt) ≫= fun _ =>
      failpoint_async "fetch.walk.before_plan" ≫= fun _ =>
      set ← plan;
      mret (Some set)
  end.
Definition send_set (fuel : nat) (a : Ask) : FM (option SendSet) :=
  let cs : gset string := list_to_set (ak_shallow a) in
  have ← on_db (known (ak_haves a));
  let acks : gset string := list_to_set have in
  hk ← gets (fun s => obj_kind (fs_db s));
  modify (fun s => with_mem mem_default (with_set (walk_set (hash_len hk)) s)) ≫= fun _ =>
  sd0 ← seed (ak_wants a);
  psd ← peel fuel sd0;
  match psd with
  | None => mret None
  | Some sd =>
      failpoint_async "fetch.walk.after_wants" ≫= fun _ =>
      clear_mem ≫= fun _ =>
      ex ← exclude fuel ∅ (ak_not a);
      match ex with
      | None => mret None
      | Some nots =>
          below ← (if infinite a then on_db (known (elements cs)) else mret []);
          wk ← walk a acks cs nots fuel (walk_start a sd below);
          match wk with
          | None => mret None
          | Some k => after_walk fuel a acks cs sd k
          end
      end
  end.

(** ** One step of the answer *)

Definition cut_ent (r : Read) (buf : list Z) (e : Z * Z) : result Error (list Z) :=
  let start := sat_subu64 e.1 (rn_off r) in
  if start + e.2 <=? Z.of_nat (length buf) then Ok (slice buf start e.2) else Err (Storage "short range read").
Definition pack_chunk (s : SendSet) (i : nat) : M W Error (list Z) :=
  match ss_reads s !! i with
  | None => mret []
  | Some r =>
      p ← lift (of_option (Internal "read past packs") (ss_packs s !! rn_pack r));
      buf ← read_range W charge1 (key_pack repo (sl_pack p)) (rn_off r) (rn_len r);
      es ← lift (collect (cut_ent r buf) (rn_ents r));
      mret (concat es)
  end.
End Send.
