(* ===== verification/Plan.v ===== *)
(** * The plan of an answer is exact

    The marks of a fetch name objects; the plan turns them into reads of the packs
    that hold them now.  Rows are only ever added for new packs and removed with
    dead ones, so the places of an object are fixed by a catalog of every pack
    there was: the store's index is always a part of it.  Against that, whatever
    happened between a mark and the plan, a plan that is made emits every marked
    object and nothing else, the header's count is the number of entries, and the
    bytes are the packs' own. *)
From S2P Require Import Prelude Errors Db Jobs Cohort GcBase Compact Refs Push Wire Receive Answers Sha Writer Reads Mark MarkFacts BuildFacts Ingest IngestFacts Generate.
Open Scope Z_scope.

(** [result]'s bind, inverted. *)
Lemma rbind_ok {E A B} (m : result E A) (f : A -> result E B) b : (m ≫= f) = Ok b -> exists a, m = Ok a /\ f a = Ok b.
Proof. destruct m as [a|e]; [|done]. intros E1. by exists a. Qed.

(** ** Bitmaps *)

Definition bits_of (bm : list Z) : list Z := List.filter (bm_get bm) (map Z.of_nat (seq 0 (8 * length bm))).
Lemma bits_of_nodup bm : NoDup (bits_of bm).
Proof.
  unfold bits_of. apply NoDup_filter_b. apply (NoDup_fmap_2 Z.of_nat). apply NoDup_seq.
Qed.
Lemma bits_of_elem bm i : 0 <= i -> i ∈ bits_of bm <-> bm_get bm i = true.
Proof.
  intros Hi. unfold bits_of. rewrite elem_of_filter_b. split; [by intros [_ ?]|]. intros Hg. split; [|done].
  apply elem_of_map. exists (Z.to_nat i). split; [lia|]. apply list_elem_of_In, in_seq.
  pose proof (bm_get_bound _ _ Hg). pose proof (Z.mul_succ_div_gt i 8 ltac:(lia)). pose proof (Z.div_pos i 8). lia.
Qed.
Lemma bm_get_cons b bm i : 0 <= i -> bm_get (b :: bm) (8 + i) = bm_get bm i.
Proof.
  intros Hi. unfold bm_get. replace ((8 + i) / 8) with (1 + i / 8) by (rewrite <- Z.div_add_l by lia; f_equal; lia).
  pose proof (Z.div_pos i 8). rewrite Z2Nat.inj_add by lia. cbn.
  replace ((8 + i) mod 8) with (i mod 8); [done|]. replace (8 + i) with (i + 1 * 8) by lia. by rewrite Z_mod_plus_full.
Qed.
Lemma filter_map_b {A B} (p : B -> bool) (f : A -> B) l : List.filter p (map f l) = map f (List.filter (fun x => p (f x)) l).
Proof. induction l as [|x l IH]; cbn; [done|]. rewrite IH. by destruct (p (f x)). Qed.
Lemma seq_shift_n n len : seq n len = map (fun i => n + i)%nat (seq 0 len).
Proof.
  revert n; induction len as [|len IH]; intros n; [done|]. cbn. rewrite Nat.add_0_r. f_equal.
  rewrite (IH (S n)), (IH 1%nat), map_map. apply map_ext. intros; lia.
Qed.
Lemma popcount_bits bm : bm_popcount bm = length (bits_of bm).
Proof.
  unfold bits_of. induction bm as [|b bm IH]; [done|]. cbn [length bm_popcount fold_right].
  fold (bm_popcount bm). rewrite IH. replace (8 * S (length bm))%nat with (8 + 8 * length bm)%nat by lia.
  rewrite seq_app, map_app, List.filter_app, length_app. f_equal.
  rewrite (seq_shift_n (0 + 8)), map_map, !filter_map_b, !length_map. f_equal. apply List.filter_ext. intros i.
  rewrite <- (bm_get_cons b bm (Z.of_nat i)) by lia. f_equal. lia.
Qed.

(** A list of distinct set bits as long as the count has them all. *)
Lemma bits_all bm (l : list Z) : NoDup l -> Forall (fun i => 0 <= i /\ bm_get bm i = true) l ->
  length l = bm_popcount bm -> forall i, 0 <= i -> bm_get bm i = true -> i ∈ l.
Proof.
  intros Hn Hf Hl i Hi Hg. rewrite popcount_bits in Hl.
  assert (l ⊆ bits_of bm) as Hs.
  { intros x Hx. rewrite Forall_forall in Hf. destruct (Hf x Hx). by apply bits_of_elem. }
  apply bits_of_elem in Hg; [|done]. apply list_elem_of_In. apply list_elem_of_In in Hg. revert i Hi Hg.
  intros i _. apply (NoDup_length_incl); [by apply NoDup_ListNoDup|lia|].
  intros x Hx. apply list_elem_of_In, Hs. by apply list_elem_of_In.
Qed.

(** ** Reading the marked rows *)

#[local] Instance off_le_trans : Transitive off_le.
Proof. intros a b c. unfold off_le. lia. Qed.
#[local] Instance off_le_total : Total off_le.
Proof. intros a b. unfold off_le. lia. Qed.

Definition idx_lt (a b : string * ObjSql) : Prop := ob_idx a.2 < ob_idx b.2.
Definition rows_after (d : Db) (p : string) (after : Z) : list (string * ObjSql) :=
  List.filter (fun r => after <? ob_idx r.2) (merge_sort row_le (pack_rows d p)).
Lemma marked_rows_app p bm a b :
  marked_rows p bm (a ++ b) = (out ← marked_rows p bm a; more ← marked_rows p bm b; Ok (out ++ more)).
Proof.
  induction a as [|r a IH]; cbn [app marked_rows].
  - cbn. by destruct (marked_rows p bm b).
  - case_match; [|done]. destruct (row_loc p r.2); [|done]. cbn. rewrite IH. cbn.
    destruct (marked_rows p bm a); [|done]. cbn. by destruct (marked_rows p bm b).
Qed.
Lemma marked_rows_elem p bm rows ls l : marked_rows p bm rows = Ok ls ->
  l ∈ ls <-> exists r, r ∈ rows /\ bm_get bm (ob_idx r.2) = true /\ row_loc p r.2 = Ok l.
Proof.
  revert ls; induction rows as [|r rows IH]; intros ls; cbn [marked_rows].
  { intros [= <-]. split; [by intros ?%elem_of_nil|]. by intros (x & Hx%elem_of_nil & _). }
  destruct (bm_get bm (ob_idx r.2)) eqn:Eg.
  - intros (l0 & E0 & (ls0 & E1 & [= <-])%rbind_ok)%rbind_ok. rewrite elem_of_cons, (IH _ E1). split.
    + intros [->|(x & Hx & ?)]; [exists r|exists x]; (split; [|done]); [left|by right].
    + intros (x & [->|Hx]%elem_of_cons & Hg & E2); [left; congruence|right; by exists x].
  - intros E1. rewrite (IH _ E1). split; intros (x & Hx & Hg & E2); exists x; (split; [|done]); [by right|].
    apply elem_of_cons in Hx as [->|Hx]; [congruence|done].
Qed.
Lemma marked_rows_sorted p bm rows ls : marked_rows p bm rows = Ok ls -> StronglySorted idx_lt rows ->
  StronglySorted (fun a b => lc_idx a < lc_idx b) ls.
Proof.
  revert ls; induction rows as [|r rows IH]; intros ls; cbn [marked_rows]; [intros [= <-] _; constructor|].
  intros E [Hs Hr]%StronglySorted_inv. destruct (bm_get bm (ob_idx r.2)); [|by apply IH].
  apply rbind_ok in E as (l & E0 & (ls0 & E1 & [= <-])%rbind_ok). constructor; [by apply IH|].
  apply Forall_forall. intros x Hx. apply (marked_rows_elem _ _ _ _ _ E1) in Hx as (y & Hy & _ & Ey).
  rewrite Forall_forall in Hr. specialize (Hr y Hy). unfold row_loc, idx_lt in *.
  destruct (kind_of (ob_kind r.2)); [|done]. destruct (kind_of (ob_kind y.2)); [|done]. injection E0 as <-. by injection Ey as <-.
Qed.
Lemma filter_after_split (l : list (string * ObjSql)) n r after :
  StronglySorted idx_lt l -> last (take n (List.filter (fun r => after <? ob_idx r.2) l)) = Some r ->
  List.filter (fun x => ob_idx r.2 <? ob_idx x.2) l = drop n (List.filter (fun r => after <? ob_idx r.2) l).
Proof.
  set (F := List.filter (fun r => after <? ob_idx r.2) l). intros Hs Hl.
  assert (r ∈ take n F) as Hr by by apply last_Some_elem_of.
  assert (after < ob_idx r.2) as Ha.
  { assert (r ∈ F) as [_ ?]%elem_of_filter_b by (apply (elem_of_subseteq (take n F)); [apply subseteq_take|done]). by bsimp. }
  assert (List.filter (fun x => ob_idx r.2 <? ob_idx x.2) l = List.filter (fun x => ob_idx r.2 <? ob_idx x.2) F) as ->.
  { unfold F. clear - Ha. induction l as [|x l IH]; [done|]. cbn. destruct (Z.ltb_spec after (ob_idx x.2)); cbn.
    - by rewrite IH.
    - destruct (Z.ltb_spec (ob_idx r.2) (ob_idx x.2)); [lia|done]. }
  assert (StronglySorted idx_lt F) as HF by by apply sorted_filter.
  rewrite <- (take_drop n F) in HF. rewrite <- (take_drop n F) at 1. apply StronglySorted_app in HF as (Hc & Ht & _).
  rewrite List.filter_app, filter_false, filter_true_all; [done| |].
  - intros x Hx. specialize (Hc r x Hr Hx). unfold idx_lt in Hc. lia.
  - intros x Hx. apply Z.ltb_ge. destruct (exists_last_or_nil (take n F)) as [E|(l' & y & E)]; rewrite E in *; [done|].
    rewrite last_snoc in Hl. injection Hl as ->. apply elem_of_app in Hx as [Hx|Hx%list_elem_of_singleton]; [|by subst].
    assert (idx_lt x r) by (eapply (StronglySorted_app_1_elem_of idx_lt l' [r]); [done|done|by left]). unfold idx_lt in *. lia.
Qed.
Lemma entries_loop_all fuel d p bm after :
  StronglySorted idx_lt (merge_sort row_le (pack_rows d p)) -> (length (rows_after d p after) < fuel)%nat ->
  entries_loop fuel d p bm after = marked_rows p bm (rows_after d p after).
Proof.
  intros Hs. revert after. induction fuel as [|f IH]; intros after Hf; [lia|]. cbn [entries_loop].
  unfold entries_page. fold (rows_after d p after). set (L := rows_after d p after) in *.
  destruct (Nat.ltb_spec (length (take PAGE L)) PAGE) as [Hl|Hl]; rewrite length_take in Hl.
  - rewrite take_ge by lia. by destruct (marked_rows p bm L).
  - destruct (last (take PAGE L)) as [r|] eqn:El.
    2: { apply last_None in El. apply (f_equal length) in El. rewrite length_take in El. unfold PAGE in *. cbn in El. lia. }
    assert (rows_after d p (ob_idx r.2) = drop PAGE L) as E by by apply filter_after_split.
    rewrite IH; rewrite E.
    + rewrite <- marked_rows_app. by rewrite take_drop.
    + rewrite length_drop. unfold PAGE in *. lia.
Qed.

(** ** The catalog *)

Section Catalog.
(** Where every object of every pack there was lies: by id and pack. *)
Context (cat : string -> string -> option ObjSql).
Record catalog_ok : Prop := {
  cg_idx : forall s s' p r r', cat s p = Some r -> cat s' p = Some r' -> ob_idx r = ob_idx r' -> s = s';
  cg_range : forall s p r, cat s p = Some r ->
    0 <= ob_idx r /\ 0 <= ob_offset r /\ 0 < ob_len r /\ ob_offset r + ob_len r <= u64_max;
  cg_apart : forall s s' p r r', cat s p = Some r -> cat s' p = Some r' -> s <> s' ->
    ob_offset r + ob_len r <= ob_offset r' \/ ob_offset r' + ob_len r' <= ob_offset r
}.
(** The index holds nothing but rows of the catalog. *)
Definition fits (d : Db) : Prop := forall s p r, t_objects d !! (s, p) = Some r -> cat s p = Some r.
Context (CG : catalog_ok).

Lemma sorted_of_map {A} (f : A -> Z) l : StronglySorted Z.lt (map f l) -> StronglySorted (fun a b => f a < f b) l.
Proof.
  induction l as [|x l IH]; [constructor|]. cbn. intros [Hs Hf]%StronglySorted_inv. constructor; [by apply IH|].
  by rewrite Forall_map in Hf.
Qed.
Lemma rows_sorted d p : fits d -> StronglySorted idx_lt (merge_sort row_le (pack_rows d p)).
Proof.
  intros F. apply (sorted_of_map (fun r => ob_idx r.2)). apply rows_increasing.
  - apply (StronglySorted_merge_sort row_le (Transitive0 := row_le_trans) (Total0 := row_le_total)).
  - rewrite (merge_sort_Permutation row_le). apply pack_rows_nodup.
  - intros [s r] [s' r']. rewrite !(merge_sort_Permutation row_le). cbn. intros H1%pack_rows_spec%F H2%pack_rows_spec%F.
    by eapply (cg_idx CG).
Qed.
Lemma row_loc_eq p r l : row_loc p r = Ok l ->
  lc_pack l = p /\ lc_idx l = ob_idx r /\ lc_offset l = ob_offset r /\ lc_len l = ob_len r /\ kind_of (ob_kind r) = Ok (lc_kind l)
  /\ lc_size l = ob_size r.
Proof. unfold row_loc. destruct (kind_of (ob_kind r)); [|done]. by intros [= <-]. Qed.
(** The marked entries: each row of the pack with its bit set, once, in offset order. *)
Lemma entries_of_ok d p bm ls : fits d -> entries_of d p bm = Ok ls ->
  (forall l, l ∈ ls <-> exists s r, t_objects d !! (s, p) = Some r /\ bm_get bm (ob_idx r) = true /\ row_loc p r = Ok l)
  /\ NoDup (map lc_idx ls) /\ StronglySorted off_le ls.
Proof.
  intros F (ls0 & E & [= <-])%rbind_ok. rewrite entries_loop_all in E; [|by apply rows_sorted|].
  2: { unfold rows_after. rewrite (filter_b_Permutation _ _ _ (merge_sort_Permutation row_le _)). apply Nat.lt_succ_r, List.filter_length_le. }
  split_and!.
  - intros l. rewrite (merge_sort_Permutation off_le), (marked_rows_elem _ _ _ _ _ E). unfold rows_after. split.
    + intros ([s r] & Hr & Hg & El). exists s, r. split; [|done]. apply pack_rows_spec. apply elem_of_filter_b in Hr as [Hr _].
      by rewrite (merge_sort_Permutation row_le) in Hr.
    + intros (s & r & Hr & Hg & El). exists (s, r). split; [|done]. apply elem_of_filter_b.
      rewrite (merge_sort_Permutation row_le), pack_rows_spec. split; [done|]. destruct (cg_range CG _ _ _ (F _ _ _ Hr)). cbn. lia.
  - rewrite (merge_sort_Permutation off_le). apply sorted_nodup.
    assert (StronglySorted (fun a b => lc_idx a < lc_idx b) ls0) as Hs by (eapply marked_rows_sorted; [done|]; apply sorted_filter, rows_sorted, F).
    clear - Hs. induction Hs as [|x l Hs IH Hf]; [constructor|]. cbn. constructor; [done|]. by apply Forall_map.
  - apply (StronglySorted_merge_sort off_le).
Qed.

(** ** The marks *)

(** Each slice is its pack's, and a set bit stands for one of [ids]. *)
Record slices_for (P : string -> string -> Prop) (packs : list PackSlice) (by_pack : gmap string nat) : Prop := {
  sl_index : forall p i, by_pack !! p = Some i <-> exists sl, packs !! i = Some sl /\ sl_pack sl = p;
  sl_bits : forall i sl j, packs !! i = Some sl -> 0 <= j -> bm_get (sl_bitmap sl) j = true ->
    exists sha r, cat sha (sl_pack sl) = Some r /\ ob_idx r = j /\ P sha (sl_pack sl)
}.
Definition slices (ids : list string) : list PackSlice -> gmap string nat -> Prop := slices_for (fun sha _ => sha ∈ ids).
(** The object has its bit in a slice. *)
Definition covered (packs : list PackSlice) (sha : string) : Prop :=
  exists i sl r, packs !! i = Some sl /\ cat sha (sl_pack sl) = Some r /\ bm_get (sl_bitmap sl) (ob_idx r) = true.
(** [loc] is a place of [id]. *)
Definition place (id : string) (loc : ObjLoc) : Prop := exists r, cat id (lc_pack loc) = Some r /\ row_loc (lc_pack loc) r = Ok loc.
(** [ids] is what was marked so far; one without its bit is a stale mark. *)
Record marks (ids : list string) (s : SendSet) : Prop := {
  mk_shas : ss_shas s = Some (concat (map oid_bytes ids));
  mk_slices : slices ids (ss_packs s) (ss_by_pack s);
  mk_all : ss_stale s = false -> forall sha, sha ∈ ids -> covered (ss_packs s) sha
}.

Lemma slices_nil : forall P, slices_for P [] ∅.
Proof. intros P. split; [|done]. intros p i. rewrite lookup_empty. split; [done|]. by intros (sl & ? & _). Qed.
Lemma slices_bit (P Q : string -> string -> Prop) packs bp i id r loc packs' :
  slices_for P packs bp -> bp !! lc_pack loc = Some i -> cat id (lc_pack loc) = Some r -> lc_idx loc = ob_idx r ->
  (forall s p, P s p -> Q s p) -> Q id (lc_pack loc) -> set_bit packs i loc = Ok packs' ->
  slices_for Q packs' bp /\ covered packs' id /\ forall sha, covered packs sha -> covered packs' sha.
Proof.
  intros [Hi Hb] Hp Hc El HPQ HQ E. destruct (cg_range CG _ _ _ Hc) as [Hr _].
  unfold set_bit in E. destruct (packs !! i) as [sl|] eqn:Es; [|done].
  destruct (bm_set (sl_bitmap sl) (lc_idx loc)) as [bm|] eqn:Ebm; unfold bm_set in Ebm; [|by destruct (sl_bitmap sl !! _)].
  destruct (sl_bitmap sl !! _) as [b|] eqn:Eb; [|done]. injection E as <-. injection Ebm as Ebm. rewrite Ebm.
  assert (bm_set (sl_bitmap sl) (lc_idx loc) = Ok bm) as Hset by (unfold bm_set; by rewrite Eb, Ebm).
  assert (0 <= lc_idx loc) as H0 by lia. apply Hi in Hp as (sl' & Es' & Ep). rewrite Es in Es'. injection Es' as <-.
  assert (forall k sl', packs !! k = Some sl' -> exists sl2, <[i := mkSlice (sl_pack sl) (sl_count sl) (sl_bytes sl) bm]> packs !! k = Some sl2
    /\ sl_pack sl2 = sl_pack sl' /\ forall j, 0 <= j -> bm_get (sl_bitmap sl') j = true -> bm_get (sl_bitmap sl2) j = true) as Hup.
  { intros k sl' Hk. destruct (decide (k = i)) as [->|Hne]; [|rewrite list_lookup_insert_ne by done; eauto].
    rewrite list_lookup_insert_eq by by eapply lookup_lt_Some. rewrite Es in Hk. injection Hk as <-. eexists. split_and!; [done..|].
    cbn. intros j Hj Hg. rewrite (bm_get_set _ _ _ _ H0 Hj Hset), Hg. apply orb_true_r. }
  split_and!; [split| |].
  - intros p k. rewrite Hi. split; intros (s1 & Hk & <-).
    + destruct (Hup _ _ Hk) as (s2 & ? & ? & _). eauto.
    + destruct (decide (k = i)) as [->|Hne]; [|rewrite list_lookup_insert_ne in Hk by done; eauto].
      rewrite list_lookup_insert_eq in Hk by by eapply lookup_lt_Some. injection Hk as <-. eauto.
  - intros k s1 j Hk Hj Hg. destruct (decide (k = i)) as [->|Hne].
    + rewrite list_lookup_insert_eq in Hk by by eapply lookup_lt_Some. injection Hk as <-. cbn in *.
      rewrite (bm_get_set _ _ _ _ H0 Hj Hset) in Hg. apply orb_true_iff in Hg as [Ej|Hg].
      * exists id, r. rewrite Ep. by split_and!; [|lia|].
      * destruct (Hb _ _ _ Es Hj Hg) as (sha & r' & ? & ? & ?). exists sha, r'. by split_and!; [..|apply HPQ].
    + rewrite list_lookup_insert_ne in Hk by done. destruct (Hb _ _ _ Hk Hj Hg) as (sha & r' & ? & ? & ?).
      exists sha, r'. by split_and!; [..|apply HPQ].
  - exists i, (mkSlice (sl_pack sl) (sl_count sl) (sl_bytes sl) bm), r. cbn. rewrite list_lookup_insert_eq by by eapply lookup_lt_Some.
    rewrite Ep. split_and!; [done..|]. rewrite (bm_get_set _ _ (ob_idx r) _ H0 Hr Hset). rewrite El, Z.eqb_refl. done.
  - intros sha (k & s1 & r' & Hk & Hc' & Hg). destruct (Hup _ _ Hk) as (s2 & Hk2 & Ep2 & Hg2). exists k, s2, r'.
    rewrite Ep2. split_and!; [done..|]. apply Hg2; [|done]. by destruct (cg_range CG _ _ _ Hc').
Qed.
Lemma slices_set ids packs bp i id loc packs' :
  slices ids packs bp -> bp !! lc_pack loc = Some i -> place id loc -> set_bit packs i loc = Ok packs' ->
  slices (ids ++ [id]) packs' bp /\ covered packs' id /\ forall sha, covered packs sha -> covered packs' sha.
Proof.
  intros Hs Hp (r & Hc & (_ & El & _)%row_loc_eq) E. eapply (slices_bit _ (fun sha _ => sha ∈ ids ++ [id])); try done.
  - intros sha p Hin. cbn in *. apply elem_of_app. by left.
  - apply elem_of_app. right. left.
Qed.
Lemma bm_get_zeros n j : bm_get (repeat 0 n) j = false.
Proof.
  unfold bm_get. destruct (repeat 0 n !! _) as [b|] eqn:E; [|done].
  apply list_elem_of_lookup_2, list_elem_of_In, repeat_spec in E as ->. apply Z.testbit_0_l.
Qed.
Lemma slices_push P packs bp p count bytes packs' bp' i :
  slices_for P packs bp -> bp !! p = None -> push_slice packs bp p count bytes = (packs', bp', i) ->
  slices_for P packs' bp' /\ bp' !! p = Some i /\ forall sha, covered packs sha -> covered packs' sha.
Proof.
  intros [Hi Hb] Hp [= <- <- <-]. split_and!; [split| |].
  - intros q k. destruct (decide (q = p)) as [->|Hq].
    + rewrite lookup_insert_eq. split.
      * intros [= <-]. eexists. by rewrite lookup_app_r, Nat.sub_diag by lia.
      * intros (sl & [Hk|[Hl Hk]]%lookup_app_Some & Eq); [|destruct (k - length packs)%nat eqn:Ek; [f_equal; lia|done]].
        assert (bp !! p = Some k) by (apply Hi; eauto). congruence.
    + rewrite lookup_insert_ne by done. rewrite Hi. split; intros (sl & Hk & Eq).
      * exists sl. split; [by apply lookup_app_l_Some|done].
      * apply lookup_app_Some in Hk as [Hk|[_ Hk]]; [eauto|]. destruct (k - length packs)%nat; [|done]. injection Hk as <-. by cbn in Eq.
  - intros k sl j [Hk|[_ Hk]]%lookup_app_Some Hj Hg; [by eapply Hb|]. destruct (k - length packs)%nat; [|done]. injection Hk as <-.
    cbn in Hg. by rewrite bm_get_zeros in Hg.
  - apply lookup_insert_eq.
  - intros sha (k & sl & r & Hk & ?). exists k, sl, r. split; [by apply lookup_app_l_Some|done].
Qed.
Lemma slices_grow ids ids' packs bp : slices ids packs bp -> (forall x, x ∈ ids -> x ∈ ids') -> slices ids' packs bp.
Proof. intros [Hi Hb] Hs. split; [done|]. intros i sl j Hk Hj Hg. destruct (Hb i sl j Hk Hj Hg) as (sha & r & ? & ? & ?). exists sha, r. auto. Qed.
(** Marking one more object, whatever the answer about its pack. *)
Lemma marks_mark ids meta id loc s s' : marks ids s -> place id loc -> mark_with meta id loc s = Ok s' -> marks (ids ++ [id]) s'.
Proof.
  intros [Hs Hsl Ha] Hp. unfold mark_with. rewrite Hs. cbn [option_map is_some].
  assert (concat (map oid_bytes ids) ++ oid_bytes id = concat (map oid_bytes (ids ++ [id]))) as Eb.
  { rewrite map_app, concat_app. cbn. by rewrite app_nil_r. }
  destruct (ss_by_pack s !! lc_pack loc) as [i|] eqn:Ei.
  - intros (ps & E & [= <-])%rbind_ok. destruct (slices_set _ _ _ _ _ _ _ Hsl Ei Hp E) as (H1 & H2 & H3).
    split; cbn; [by rewrite <- Eb|done|]. intros Hst sha [?|Hx%list_elem_of_singleton]%elem_of_app; subst; auto.
  - destruct (meta (lc_pack loc)) as [cb|e].
    + destruct (push_slice _ _ _ _ _) as [[ps bp] i] eqn:Epush. intros (ps' & E & [= <-])%rbind_ok.
      destruct (slices_push _ _ _ _ _ _ _ _ _ Hsl Ei Epush) as (H1 & H2 & H3).
      destruct (slices_set _ _ _ _ _ _ _ H1 H2 Hp E) as (H4 & H5 & H6).
      split; cbn; [by rewrite <- Eb|done|]. intros Hst sha [?|Hx%list_elem_of_singleton]%elem_of_app; subst; auto.
    + destruct (true && ends_with _ _); [|done]. intros [= <-]. split; cbn; [by rewrite <- Eb| |done].
      eapply slices_grow; [exact Hsl|]. intros x Hx. apply elem_of_app. by left.
Qed.
End Catalog.

(** ** Ids and their bytes *)

Definition lower_hex (c : ascii) : bool := is_some (hex_val c).
Definition oid_ok `{Platform} (hk : HashKind) (id : string) : Prop :=
  canonical id /\ str_all lower_hex id = true /\ Z.of_nat (String.length id) = 2 * hash_len hk.
Lemma hex_digit_val c : lower_hex c = true -> 0 <= unwrap_or 0 (hex_val c) < 16 /\ hex_digit (unwrap_or 0 (hex_val c)) = c.
Proof. destruct c as [b0 b1 b2 b3 b4 b5 b6 b7]. destruct b0, b1, b2, b3, b4, b5, b6, b7; cbn; intros E; try done; split; (lia || done). Qed.
Lemma oid_bytes_text n : forall id, (String.length id <= n)%nat -> str_all lower_hex id = true -> Nat.Even (String.length id) ->
  hex_digest (oid_bytes id) = id /\ (2 * length (oid_bytes id))%nat = String.length id.
Proof.
  induction n as [|n IH]; intros [|a [|b id]]; cbn [String.length]; try (intros; done || lia).
  - intros _ _ [k Hk]. lia.
  - intros Hn Hh [k Hk]. cbn [str_all] in Hh. apply andb_true_iff in Hh as [[Ra Ea]%hex_digit_val Hh].
    apply andb_true_iff in Hh as [[Rb Eb]%hex_digit_val Hh]. destruct (IH id) as [E1 E2]; [lia|done|exists (k - 1)%nat; lia|].
    cbn [oid_bytes hex_digest length]. rewrite Z.div_add_l by lia. rewrite Z.div_small, Z.add_0_r by lia.
    rewrite (Z.add_comm (_ * 16)), Z_mod_plus_full, Z.mod_small by lia. rewrite Ea, Eb, E1. split; [done|lia].
Qed.
Lemma oid_ok_bytes `{Platform} hk id : oid_ok hk id -> hex_digest (oid_bytes id) = id /\ length (oid_bytes id) = Z.to_nat (hash_len hk).
Proof.
  intros (_ & Hh & Hl). destruct (oid_bytes_text _ id (le_n _) Hh) as [E1 E2]; [exists (Z.to_nat (hash_len hk)); lia|]. split; [done|lia].
Qed.

(** ** Fixed-width chunks *)

Lemma chunks_uniform {A} n fuel (bs : list (list A)) : (0 < n)%nat -> Forall (fun b => length b = n) bs -> (length bs <= fuel)%nat ->
  chunks_of fuel n (concat bs) = bs.
Proof.
  intros Hn. revert bs; induction fuel as [|f IH]; intros [|b bs] Hb Hf; cbn in Hf; try (done || lia).
  apply Forall_cons in Hb as [Hb Hbs]. cbn [concat chunks_of]. destruct (b ++ concat bs) eqn:E.
  { destruct b; cbn in *; [lia|done]. }
  rewrite <- E, take_app_length', drop_app_length' by done. f_equal. apply IH; [done|lia].
Qed.
Lemma take_uniform {A} n k (bs : list (list A)) : Forall (fun b => length b = n) bs -> take (k * n) (concat bs) = concat (take k bs)
  /\ drop (k * n) (concat bs) = concat (drop k bs).
Proof.
  revert k; induction bs as [|b bs IH]; intros k Hb; [cbn; by rewrite !take_nil, !drop_nil|].
  apply Forall_cons in Hb as [Hb Hbs]. destruct k as [|k]; [done|]. cbn [take drop concat].
  destruct (IH k Hbs) as [E1 E2]. rewrite take_app_ge, drop_app_ge by lia.
  replace (S k * n - length b)%nat with (k * n)%nat by lia. by rewrite E1, E2.
Qed.
Lemma chunks_groups {A} n k fuel (bs : list (list A)) : (0 < n)%nat -> (0 < k)%nat -> Forall (fun b => length b = n) bs ->
  chunks_of fuel (k * n) (concat bs) = map (@concat A) (chunks_of fuel k bs).
Proof.
  intros Hn Hk. revert bs; induction fuel as [|f IH]; intros bs Hb; [done|]. destruct bs as [|b bs]; [done|].
  destruct (take_uniform n k (b :: bs) Hb) as [E1 E2].
  cbn [chunks_of]. destruct (concat (b :: bs)) eqn:E.
  { apply Forall_cons in Hb as [Hb _]. destruct b; cbn in *; [lia|done]. }
  rewrite E1, E2. cbn [map]. f_equal. apply IH. by apply Forall_drop.
Qed.
Lemma chunks_map {A B} (f : A -> B) fuel n l : chunks_of fuel n (map f l) = map (map f) (chunks_of fuel n l).
Proof.
  revert l. induction fuel as [|k IH]; intros [|x l]; [done..|]. cbn [chunks_of map]. rewrite <- IH.
  change (f x :: map f l) with (map f (x :: l)). by rewrite firstn_map, skipn_map.
Qed.

(** ** The rebuild *)

Section Rebuilt.
Context {PF : Platform} (cat : string -> string -> option ObjSql) (CG : catalog_ok cat) (hk : HashKind).

Lemma lookup_place d id loc : fits cat d -> lookup_one d id = Ok (Some loc) -> place cat id loc /\ pack_live d (lc_pack loc) = true.
Proof.
  intros F. unfold lookup_one. destruct (live_rows d id) as [|kv l] eqn:E; [done|].
  assert (kv ∈ live_rows d id) as Hin by (rewrite E; left). destruct kv as [[s p] r].
  pose proof (live_rows_sha _ _ _ Hin) as Es. cbn in Es. subst s. apply live_rows_spec in Hin as [Hr Hl]. cbn.
  destruct (row_loc p r) as [l'|] eqn:El; [|done]. intros [= ->]. pose proof (row_loc_eq _ _ _ El) as (<- & _).
  split; [|done]. exists r. split; [by apply F|done].
Qed.
Lemma rebuild_locs_ok meta ids ls done st st' :
  Forall2 (fun id l => forall loc, l = Some loc -> place cat id loc) ids ls -> slices cat done st.1 st.2 ->
  rebuild_locs meta ls st = Ok st' ->
  slices cat (done ++ ids) st'.1 st'.2 /\ (forall sha, sha ∈ ids \/ covered cat st.1 sha -> covered cat st'.1 sha).
Proof.
  intros Hf. revert done st. induction Hf as [|id l ids ls Hl Hf IH]; intros done st Hs; cbn [rebuild_locs].
  { intros [= <-]. rewrite app_nil_r. split; [done|]. by intros sha [?%elem_of_nil|?]. }
  intros (loc & E1 & (r & E2 & (ps & E3 & E4)%rbind_ok)%rbind_ok)%rbind_ok.
  destruct l as [l|]; [|done]. injection E1 as ->. specialize (Hl _ eq_refl).
  assert (slices cat done r.1.1 r.1.2 /\ r.1.2 !! lc_pack loc = Some r.2 /\ forall sha, covered cat st.1 sha -> covered cat r.1.1 sha) as (H1 & H2 & H3).
  { unfold rebuild_mark_loc in E2. destruct (st.2 !! lc_pack loc) as [i|] eqn:Ei; [by injection E2 as <-|].
    apply rbind_ok in E2 as (cb & _ & [= E2]). destruct r as [[ps1 bp1] i1]. by eapply slices_push. }
  destruct (slices_set _ CG _ _ _ _ _ _ _ H1 H2 Hl E3) as (H4 & H5 & H6).
  destruct (IH (done ++ [id]) (ps, r.1.2) H4 E4) as [H7 H8]. rewrite <- app_assoc in H7. split; [done|].
  intros sha Hsha. apply H8. destruct Hsha as [[->|?]%elem_of_cons|?]; cbn; auto.
Qed.
Lemma lookup_places d ids ls : fits cat d -> (index_lookup ids d).2 = Ok ls ->
  Forall2 (fun id l => forall loc, l = Some loc -> place cat id loc) ids ls.
Proof.
  intros F E. cbn in E. apply collect_Forall2 in E. eapply Forall2_impl; [exact E|]. cbn. intros id l El loc ->.
  by eapply lookup_place.
Qed.
Lemma bytes_fuel n ids : (0 < n)%nat -> Forall (fun b => length b = n) (map oid_bytes ids) ->
  (length ids <= length (concat (map oid_bytes ids)))%nat.
Proof.
  intros Hn. induction ids as [|id ids IH]; [done|]. intros [Hw Hws]%Forall_cons. cbn [map concat length]. rewrite length_app.
  specialize (IH Hws). lia.
Qed.
Lemma ids_of_bytes ids ids' : Forall (oid_ok hk) ids ->
  object_ids_from_sha_bytes (concat (map oid_bytes ids)) (Z.to_nat (hash_len hk)) = Ok ids' -> ids' = ids.
Proof.
  intros Ho. unfold object_ids_from_sha_bytes.
  assert (0 < hash_len hk) as Hh by by destruct hk.
  assert (Forall (fun b => length b = Z.to_nat (hash_len hk)) (map oid_bytes ids)) as Hw.
  { apply Forall_map. eapply Forall_impl; [exact Ho|]. intros id Hid. by destruct (oid_ok_bytes _ _ Hid). }
  rewrite chunks_uniform; [|lia|done|].
  2: { rewrite length_map. apply (bytes_fuel (Z.to_nat (hash_len hk))); [lia|done]. }
  intros E%collect_Forall2. clear Hw. revert ids' E. induction Ho as [|id ids Hid Ho IH]; intros ids' E; inversion E as [|? y ? ys Hy Hys]; subst; [done|].
  f_equal; [|by apply IH]. destruct (oid_ok_bytes _ _ Hid) as [Et _]. rewrite Et in Hy. unfold oid in Hy.
  destruct Hid as (Hc & _). rewrite Hc in Hy. by injection Hy.
Qed.
Lemma rebuild_chunks_ok d n groups done st st' : fits cat d -> n = Z.to_nat (hash_len hk) -> Forall (Forall (oid_ok hk)) groups ->
  slices cat done st.1 st.2 ->
  rebuild_chunks (fun ids => (index_lookup ids d).2) (pack_meta d) n (map (fun g => concat (map oid_bytes g)) groups) st = Ok st' ->
  slices cat (done ++ concat groups) st'.1 st'.2 /\ (forall sha, sha ∈ concat groups \/ covered cat st.1 sha -> covered cat st'.1 sha).
Proof.
  intros F ->. revert done st. induction groups as [|g groups IH]; intros done st Hg Hs; cbn [map rebuild_chunks].
  { intros [= <-]. cbn. rewrite app_nil_r. split; [done|]. by intros sha [?%elem_of_nil|?]. }
  apply Forall_cons in Hg as [Hg Hgs]. intros (ids & E1 & (ls & E2 & (st1 & E3 & E4)%rbind_ok)%rbind_ok)%rbind_ok.
  apply ids_of_bytes in E1 as ->; [|done].
  destruct (rebuild_locs_ok _ _ _ _ _ _ (lookup_places _ _ _ F E2) Hs E3) as [H1 H2].
  destruct (IH _ _ Hgs H1 E4) as [H3 H4]. cbn [concat]. rewrite app_assoc. split; [done|].
  intros sha Hsha. apply H4. rewrite elem_of_app in Hsha. destruct Hsha as [[?|?]|?]; auto.
Qed.
(** Resolving the marked objects again, against the index as it is now. *)
Lemma rebuild_ok d ids s s' : fits cat d -> Forall (oid_ok hk) ids -> ss_hash_len s = hash_len hk -> marks cat ids s ->
  rebuild d s = Ok s' -> marks cat ids s' /\ ss_stale s' = false /\ ss_hash_len s' = hash_len hk
  /\ ss_shallow s' = ss_shallow s /\ ss_unshallow s' = ss_unshallow s.
Proof.
  intros F Ho Hh [Hs _ _]. unfold rebuild, rebuild_with. rewrite Hs, Hh.
  assert (0 < hash_len hk) as Hp by by destruct hk. rewrite (proj2 (Z.ltb_lt _ _) Hp).
  set (n := Z.to_nat (hash_len hk)). set (fuel := length (concat (map oid_bytes ids))).
  assert (Forall (fun b => length b = n) (map oid_bytes ids)) as Hw.
  { apply Forall_map. eapply Forall_impl; [exact Ho|]. intros id Hid. by destruct (oid_ok_bytes _ _ Hid). }
  assert (length ids <= fuel)%nat as Hl.
  { apply (bytes_fuel n); [unfold n; lia|done]. }
  rewrite chunks_groups by (unfold n, PAGE; (lia || done)).
  rewrite chunks_map.
  rewrite map_map. intros (st & E & [= <-])%rbind_ok.
  assert (concat (chunks_of fuel PAGE ids) = ids) as Ec by (apply query_chunks_concat; [unfold PAGE; lia|done]).
  apply (rebuild_chunks_ok d n _ []) in E as [H1 H2]; [|done|done| |apply slices_nil].
  - rewrite Ec in *. cbn in H1. split_and!; [|done..]. split; cbn; [done..|]. intros _ sha Hsha. apply H2. by left.
  - apply Forall_concat. by rewrite Ec.
Qed.
End Rebuilt.

(** ** Coalesced reads of one pack *)

Section Coalesce.
Context (pi : nat).
(** The bytes the spans of the reads cut from a pack. *)
Definition emit (o : list Z) (rs : list Read) : list Z :=
  concat (map (fun r => concat (map (fun e => slice o e.1 e.2) (rn_ents r))) rs).
(** A read of the pack: a window at most, ending by [hi], its spans inside it. *)
Record read_ok (hi : Z) (r : Read) : Prop := {
  ro_pack : rn_pack r = pi;
  ro_span : 0 <= rn_off r /\ 0 < rn_len r <= WINDOW /\ rn_off r + rn_len r <= hi;
  ro_ents : Forall (fun e => rn_off r <= e.1 /\ 0 < e.2 /\ e.1 + e.2 <= rn_off r + rn_len r) (rn_ents r)
}.
Lemma read_ok_mono hi hi' r : hi <= hi' -> read_ok hi r -> read_ok hi' r.
Proof. intros Hh [H1 H2 H3]. split; [done|lia|done]. Qed.
Lemma emit_app o a b : emit o (a ++ b) = emit o a ++ emit o b.
Proof. unfold emit. by rewrite map_app, concat_app. Qed.
(** Entries one after the other from [hi] on. *)
Fixpoint chain (hi : Z) (ls : list ObjLoc) : Prop :=
  match ls with
  | [] => True
  | l :: ls' => 0 <= hi <= lc_offset l /\ 0 < lc_len l /\ lc_offset l + lc_len l <= u64_max /\ chain (lc_offset l + lc_len l) ls'
  end.
Definition loc_bytes (o : list Z) (l : ObjLoc) : list Z := slice o (lc_offset l) (lc_len l).

Lemma fragments_ok fuel pos e : 0 <= pos <= e -> e <= u64_max -> e - pos <= Z.of_nat fuel * WINDOW ->
  exists rs, fragments fuel pi pos e = Ok rs /\ Forall (read_ok e) rs /\ forall o, emit o rs = slice o pos (e - pos).
Proof.
  revert pos; induction fuel as [|f IH]; intros pos Hp He Hf; cbn [fragments];
    [|destruct (Z.ltb_spec pos e) as [Hlt|Hge]].
  1, 3: exists []; split_and!; [done|constructor|]; intros o; by replace (e - pos) with 0 by lia.
  unfold sat_subu64. rewrite Z.max_r by lia. set (n := Z.min (e - pos) WINDOW).
  assert (0 < n <= WINDOW) as Hn by (unfold n, WINDOW in *; lia).
  rewrite (proj2 (Z.leb_le n u32_max)) by (unfold WINDOW, u32_max in *; lia).
  unfold sat_addu64. rewrite Z.min_r by (unfold n; lia).
  destruct (IH (pos + n)) as (rs & -> & Hrs & Eo); [unfold n, WINDOW; lia|done|unfold n, WINDOW in *; lia|].
  cbn. eexists. split_and!; [done| |].
  - constructor; [|done]. split; cbn; [done|unfold n in *; lia|]. repeat constructor; cbn; lia.
  - intros o. change (emit o ([mkRead pi pos n [(pos, n)]] ++ rs) = slice o pos (e - pos)). rewrite emit_app, Eo.
    unfold emit. cbn. rewrite !app_nil_r. rewrite <- slice_split by (unfold n, WINDOW; lia). f_equal. unfold n. lia.
Qed.
Lemma coalesce_step_ok gap hi out l : 0 <= hi <= lc_offset l -> 0 < lc_len l -> lc_offset l + lc_len l <= u64_max ->
  Forall (read_ok hi) out ->
  exists out', coalesce_step pi gap out l = Ok out' /\ Forall (read_ok (lc_offset l + lc_len l)) out'
    /\ forall o, emit o out' = emit o out ++ loc_bytes o l.
Proof.
  intros Hh Hl Hu Ho. unfold coalesce_step. assert (sat_addu64 (lc_offset l) (lc_len l) = lc_offset l + lc_len l) as -> by (unfold sat_addu64; lia).
  set (e := lc_offset l + lc_len l).
  assert (exists out', (fs ← fragments (fragment_fuel (lc_offset l) e) pi (lc_offset l) e; Ok (out ++ fs)) = Ok out'
    /\ Forall (read_ok e) out' /\ forall o, emit o out' = emit o out ++ loc_bytes o l) as Hfresh.
  { destruct (fragments_ok (fragment_fuel (lc_offset l) e) (lc_offset l) e) as (rs & -> & Hrs & Eo); [unfold e; lia|done| |].
    { unfold fragment_fuel, e. pose proof (Z.mul_succ_div_gt (lc_len l) WINDOW ltac:(unfold WINDOW; lia)).
      pose proof (Z.div_pos (lc_len l) WINDOW). unfold WINDOW in *. replace (lc_offset l + lc_len l - lc_offset l) with (lc_len l) by lia. lia. }
    eexists. split; [done|]. split.
    - apply Forall_app. split; [|done]. eapply Forall_impl; [exact Ho|]. intros r. apply read_ok_mono. unfold e. lia.
    - intros o. rewrite emit_app, Eo. unfold loc_bytes. do 2 f_equal. unfold e. lia. }
  destruct (exists_last_or_nil out) as [->|(out0 & r & ->)]; [exact Hfresh|]. rewrite last_snoc.
  destruct (_ && _) eqn:E; [|exact Hfresh]. bsimp. apply Forall_app in Ho as [Ho Hr]. apply Forall_cons in Hr as [[P1 P2 P3] _].
  assert (sat_subu64 e (rn_off r) = e - rn_off r) as Es by (unfold sat_subu64, e; lia). rewrite Es in *.
  rewrite removelast_last. eexists. split; [done|]. split.
  - apply Forall_app. split; [eapply Forall_impl; [exact Ho|]; intros x; apply read_ok_mono; unfold e; lia|].
    constructor; [|constructor]. split; cbn; [done|unfold e in *; lia|]. apply Forall_app. split.
    + eapply Forall_impl; [exact P3|]. cbn. unfold e. lia.
    + repeat constructor; cbn; unfold e; lia.
  - intros o. rewrite !emit_app, <- app_assoc. f_equal. unfold emit, loc_bytes. cbn. rewrite map_app, concat_app. cbn. by rewrite !app_nil_r.
Qed.
Lemma coalesce_ok gap ls hi out : chain hi ls -> Forall (read_ok hi) out ->
  exists out' hi', coalesce_from pi gap out ls = Ok out' /\ Forall (read_ok hi') out'
    /\ (Forall (fun l => lc_offset l + lc_len l <= hi') ls /\ hi <= hi')
    /\ (forall b, hi <= b -> Forall (fun l => lc_offset l + lc_len l <= b) ls -> hi' <= b)
    /\ forall o, emit o out' = emit o out ++ concat (map (loc_bytes o) ls).
Proof.
  revert hi out; induction ls as [|l ls IH]; intros hi out Hc Ho; cbn [coalesce_from].
  { exists out, hi. split_and!; [done..|]. intros o. by rewrite app_nil_r. }
  destruct Hc as (H1 & H2 & H3 & Hc). destruct (coalesce_step_ok gap hi out l H1 H2 H3 Ho) as (out1 & -> & Ho1 & E1).
  destruct (IH _ _ Hc Ho1) as (out2 & hi2 & E2 & Ho2 & [Hin Hle] & Hb & E3). exists out2, hi2. split_and!; [exact E2|done| |lia| |].
  - by constructor.
  - intros b Hb1 Hb2. apply Forall_cons in Hb2 as [? ?]. by apply Hb.
  - intros o. cbn [map concat]. by rewrite E3, E1, app_assoc.
Qed.
(** The reads of a pack: whichever gap was taken, they cut exactly the entries. *)
Lemma pack_reads_ok bytes ls : chain 0 ls -> exists rs, pack_reads pi bytes ls = Ok rs
  /\ (forall b, 0 <= b -> Forall (fun l => lc_offset l + lc_len l <= b) ls -> Forall (read_ok b) rs)
  /\ forall o, emit o rs = concat (map (loc_bytes o) ls).
Proof.
  intros Hc. assert (forall gap, exists rs, coalesce pi ls gap = Ok rs
    /\ (forall b, 0 <= b -> Forall (fun l => lc_offset l + lc_len l <= b) ls -> Forall (read_ok b) rs)
    /\ forall o, emit o rs = concat (map (loc_bytes o) ls)) as Hgap.
  { intros gap. destruct (coalesce_ok gap ls 0 [] Hc ltac:(constructor)) as (rs & hi & E & Hr & _ & Hb & Eo).
    exists rs. split_and!; [done| |done]. intros b H1 H2. eapply Forall_impl; [exact Hr|]. intros r. apply read_ok_mono. by apply Hb. }
  unfold pack_reads. destruct (Hgap GAP) as (rs & E & Hrs). rewrite E. cbn. destruct (_ <? _); [apply Hgap|by exists rs].
Qed.
End Coalesce.

(** ** The plan *)

Section Planned.
Context {PF : Platform} (cat : string -> string -> option ObjSql) (CG : catalog_ok cat).

(** An object with its place, as the index has it now. *)
Definition listed (d : Db) (e : string * ObjLoc) : Prop :=
  exists r, t_objects d !! (e.1, lc_pack e.2) = Some r /\ row_loc (lc_pack e.2) r = Ok e.2.
Definition entry_key (e : string * ObjLoc) : string * string := (e.1, lc_pack e.2).
(** What the spans of a read cut from the packs' objects. *)
Definition read_bytes (obj : string -> list Z) (packs : list PackSlice) (r : Read) : list Z :=
  match packs !! rn_pack r with
  | Some p => concat (map (fun e => slice (obj (sl_pack p)) e.1 e.2) (rn_ents r))
  | None => []
  end.
Definition entry_bytes (obj : string -> list Z) (e : string * ObjLoc) : list Z := loc_bytes (obj (lc_pack e.2)) e.2.

Lemma choose_list {A B} (P : A -> B -> Prop) (ls : list B) : (forall l, l ∈ ls -> exists a, P a l) -> exists xs, Forall2 P xs ls.
Proof.
  induction ls as [|l ls IH]; intros Hp; [by exists []|]. destruct IH as [xs Hxs]; [intros x Hx; apply Hp; by right|].
  destruct (Hp l) as [a Ha]; [left|]. exists (a :: xs). by constructor.
Qed.
Lemma place_range id l : place cat id l -> 0 <= lc_idx l /\ 0 <= lc_offset l /\ 0 < lc_len l /\ lc_offset l + lc_len l <= u64_max.
Proof.
  intros (r & Hc & (_ & -> & -> & -> & _)%row_loc_eq). apply (cg_range _ CG _ _ _ Hc).
Qed.
Lemma listed_place d e : fits cat d -> listed d e -> place cat e.1 e.2.
Proof. intros F (r & Hr & Hl). exists r. split; [by apply F|done]. Qed.
Lemma chain_of ids ls : Forall2 (fun id l => place cat id l) ids ls -> (forall a b, a ∈ ls -> b ∈ ls -> lc_pack a = lc_pack b) ->
  NoDup (map lc_idx ls) -> StronglySorted off_le ls ->
  forall hi, 0 <= hi -> Forall (fun l => hi <= lc_offset l) ls -> chain hi ls.
Proof.
  intros Hf Hp Hn Hs. revert ids Hf Hp Hn. induction Hs as [|l ls Hs IH Hl]; intros ids Hf Hp Hn hi Hh Hhi; [done|].
  inversion Hf as [|id ? ids' ? Pl Hf' E1 E2]; subst. apply Forall_cons in Hhi as [Hhi _]. cbn in Hn. apply NoDup_cons in Hn as [Hnl Hn].
  destruct (place_range _ _ Pl) as (_ & R1 & R2 & R3). cbn [chain]. split_and!; [lia..|].
  apply (IH ids'); [done|intros a b Ha Hb; apply Hp; by right|done|lia|].
  apply Forall_forall. intros l' Hl'. rewrite Forall_forall in Hl. specialize (Hl l' Hl'). unfold off_le in Hl.
  apply list_elem_of_lookup in Hl' as [i Hi]. destruct (Forall2_lookup_r _ _ _ _ _ Hf' Hi) as (id' & _ & Pl').
  destruct (place_range _ _ Pl') as (_ & _ & R2' & _). destruct Pl as (r & Hc & (_ & Ei & Eo & El & _)%row_loc_eq), Pl' as (r' & Hc' & (_ & Ei' & Eo' & El' & _)%row_loc_eq).
  rewrite <- (Hp l l') in Hc' by (left || (right; by eapply list_elem_of_lookup_2)).
  destruct (decide (id = id')) as [->|Hne].
  { rewrite Hc in Hc'. injection Hc' as ->. destruct Hnl. apply elem_of_map. exists l'. split; [congruence|by eapply list_elem_of_lookup_2]. }
  destruct (cg_apart _ CG _ _ _ _ _ Hc Hc' Hne); lia.
Qed.
(** One pack: as many rows as bits, so every bit has its row. *)
Lemma pack_entries d p ls : fits cat d -> entries_of d (sl_pack p) (sl_bitmap p) = Ok ls -> length ls = bm_popcount (sl_bitmap p) ->
  exists ents, map snd ents = ls /\ Forall (fun e => listed d e /\ lc_pack e.2 = sl_pack p /\ bm_get (sl_bitmap p) (lc_idx e.2) = true) ents
    /\ NoDup (map entry_key ents) /\ chain 0 ls
    /\ forall sha r, cat sha (sl_pack p) = Some r -> bm_get (sl_bitmap p) (ob_idx r) = true -> sha ∈ map fst ents.
Proof.
  intros F E Hl. destruct (entries_of_ok _ CG _ _ _ _ F E) as (Hin & Hn & Hs).
  destruct (choose_list (fun s l => listed d (s, l) /\ lc_pack l = sl_pack p /\ bm_get (sl_bitmap p) (lc_idx l) = true) ls) as [ss Hss].
  { intros l (s & r & Hr & Hg & El)%Hin. exists s. pose proof (row_loc_eq _ _ _ El) as (Ep & Ei & _). rewrite Ei. split_and!; [|done..].
    exists r. cbn. by rewrite Ep. }
  exists (zip ss ls). pose proof (Forall2_length _ _ _ Hss) as Elen.
  assert (Forall (fun e => listed d e /\ lc_pack e.2 = sl_pack p /\ bm_get (sl_bitmap p) (lc_idx e.2) = true) (zip ss ls)) as Hz.
  { clear - Hss. induction Hss; cbn; [constructor|]. constructor; [done|exact IHHss]. }
  split_and!; [apply snd_zip; lia|done| | |].
  - apply (NoDup_fmap_1 (fun k : string * string => k)). rewrite list_fmap_id. revert Hn. clear - Hz Elen CG F. revert ls Elen Hz.
    induction ss as [|s ss IH]; intros [|l ls] Elen Hz Hn; cbn in Elen; try lia; [constructor|]. cbn in *.
    apply NoDup_cons in Hn as [Hl Hn]. apply Forall_cons in Hz as [(Ll & Lp & _) Hz]. constructor; [|apply IH; [lia|done..]].
    intros ([s' l'] & Ek & Hin)%elem_of_map. unfold entry_key in Ek. cbn in Ek. injection Ek as -> Ep.
    rewrite Forall_forall in Hz. destruct (Hz _ Hin) as (L' & _). destruct Ll as (r & Hr & (_ & Ei & _)%row_loc_eq), L' as (r' & Hr' & (_ & Ei' & _)%row_loc_eq).
    cbn in *. rewrite Ep, Hr in Hr'. injection Hr' as <-. destruct Hl. apply elem_of_map. exists l'. split; [congruence|].
    apply elem_of_zip_r in Hin. done.
  - eapply (chain_of ss); [|by intros a b (?&?&?&?&(->&_)%row_loc_eq)%Hin (?&?&?&?&(->&_)%row_loc_eq)%Hin|done|done|lia|].
    + eapply Forall2_impl; [exact Hss|]. intros s l (Hl' & _). by apply (listed_place d (s, l)).
    + apply Forall_forall. intros l (s & r & Hr & _ & (_ & _ & -> & _)%row_loc_eq)%Hin. by destruct (cg_range _ CG _ _ _ (F _ _ _ Hr)) as (_ & ? & _).
  - intros sha r Hc Hg. assert (ob_idx r ∈ map lc_idx ls) as Hi.
    { destruct (cg_range _ CG _ _ _ Hc) as [? _]. apply (bits_all (sl_bitmap p)); [done| |by rewrite length_map|done|done].
      apply Forall_forall. intros i (l & <- & (s & r' & Hr & Hg' & (_ & -> & _)%row_loc_eq)%Hin)%elem_of_map. split; [|done].
      by destruct (cg_range _ CG _ _ _ (F _ _ _ Hr)). }
    apply elem_of_map in Hi as (l & El & Hl'). apply list_elem_of_lookup in Hl' as [i Hi].
    destruct (Forall2_lookup_r _ _ _ _ _ Hss Hi) as (s & Hsi & (r' & Hr' & Hrl) & Ep & _). cbn in Hr', Hrl.
    apply row_loc_eq in Hrl as (_ & Ei & _). rewrite Ep in Hr'. apply F in Hr'.
    assert (sha = s) as -> by (eapply (cg_idx _ CG); [exact Hc|exact Hr'|congruence]).
    apply elem_of_map. exists (s, l). split; [done|]. apply list_elem_of_lookup. exists i. by rewrite lookup_zip_with, Hsi, Hi.
Qed.
(** Reads of known packs, inside the objects that hold what is listed. *)
Definition reads_ok (obj : string -> list Z) (packs : list PackSlice) (rs : list Read) : Prop :=
  Forall (fun r => exists p, packs !! rn_pack r = Some p /\ read_ok (rn_pack r) (Z.of_nat (length (obj (sl_pack p)))) r) rs.
Definition inside (obj : string -> list Z) (e : string * ObjLoc) : Prop :=
  lc_offset e.2 + lc_len e.2 <= Z.of_nat (length (obj (lc_pack e.2))).
Lemma reads_one obj pre p rest rs ents :
  (forall b, 0 <= b -> Forall (fun l => lc_offset l + lc_len l <= b) (map snd ents) -> Forall (read_ok (length pre) b) rs) ->
  (forall o, emit o rs = concat (map (loc_bytes o) (map snd ents))) -> Forall (fun e => lc_pack e.2 = sl_pack p) ents ->
  concat (map (read_bytes obj (pre ++ p :: rest)) rs) = concat (map (entry_bytes obj) ents)
  /\ (Forall (inside obj) ents -> reads_ok obj (pre ++ p :: rest) rs).
Proof.
  intros Hr He Hp. assert ((pre ++ p :: rest) !! length pre = Some p) as Elk by (rewrite lookup_app_r, Nat.sub_diag by lia; done).
  split.
  - assert (Forall (fun r => rn_pack r = length pre) rs) as Hpk.
    { set (top := fold_right Z.max 0 (map (fun e : string * ObjLoc => lc_offset e.2 + lc_len e.2) ents)).
      assert (0 <= top /\ Forall (fun l => lc_offset l + lc_len l <= top) (map snd ents)) as [Ht Hin].
      { unfold top. clear. induction ents as [|e ents [IH1 IH2]]; cbn; [split; [lia|constructor]|]. split; [lia|].
        constructor; [lia|]. eapply Forall_impl; [exact IH2|]. cbn. lia. }
      eapply Forall_impl; [exact (Hr top Ht Hin)|]. by intros r []. }
    transitivity (emit (obj (sl_pack p)) rs).
    + unfold emit. f_equal. clear - Hpk Elk. induction Hpk as [|r rs Er _ IH]; cbn; [done|]. f_equal; [|exact IH].
      unfold read_bytes. by rewrite Er, Elk.
    + rewrite He. f_equal. clear - Hp. induction Hp as [|e ents Ep _ IH]; cbn; [done|]. f_equal; [|exact IH].
      unfold entry_bytes. by rewrite Ep.
  - intros Hin. assert (Forall (read_ok (length pre) (Z.of_nat (length (obj (sl_pack p))))) rs) as Hro.
    { apply Hr; [lia|]. apply Forall_map. clear - Hin Hp. rewrite Forall_forall in *. intros e He. specialize (Hin e He). unfold inside in Hin.
      by rewrite (Hp e He) in Hin. }
    eapply Forall_impl; [exact Hro|]. intros r Hrr. pose proof (ro_pack _ _ _ Hrr) as Ep. exists p. by rewrite Ep.
Qed.
Lemma plan_packs_ok d packs pre reads : fits cat d -> NoDup (map sl_pack packs) -> plan_packs d (length pre) packs = Ok (Some reads) ->
  exists ents, Forall (listed d) ents /\ Forall (fun e => lc_pack e.2 ∈ map sl_pack packs) ents /\ NoDup (map entry_key ents)
    /\ length ents = sum_list_with (fun p => bm_popcount (sl_bitmap p)) packs
    /\ (forall sha, covered cat packs sha -> sha ∈ map fst ents)
    /\ Forall (fun e => exists i p, packs !! i = Some p /\ lc_pack e.2 = sl_pack p /\ bm_get (sl_bitmap p) (lc_idx e.2) = true) ents
    /\ forall obj, concat (map (read_bytes obj (pre ++ packs)) reads) = concat (map (entry_bytes obj) ents)
         /\ (Forall (inside obj) ents -> reads_ok obj (pre ++ packs) reads).
Proof.
  intros F. revert pre reads. induction packs as [|p packs IH]; intros pre reads Hn; cbn [plan_packs].
  { intros [= <-]. exists []. split_and!; try constructor; try done; [by intros sha (i & sl & r & ? & _)|constructor]. }
  cbn in Hn. apply NoDup_cons in Hn as [Hp Hn]. intros (ls & E1 & E2)%rbind_ok.
  destruct (Nat.eqb_spec (length ls) (bm_popcount (sl_bitmap p))) as [El|]; [|done]. cbn in E2.
  apply rbind_ok in E2 as (rs & E2 & (more & E3 & E4)%rbind_ok). destruct more as [more|]; [|done]. injection E4 as <-.
  destruct (pack_entries _ _ _ F E1 El) as (ents & <- & He & Hk & Hc & Hall).
  destruct (pack_reads_ok (length pre) (sl_bytes p) _ Hc) as (rs' & E2' & Hr & Ho). rewrite E2 in E2'. injection E2' as <-.
  destruct (IH (pre ++ [p]) more Hn) as (ents2 & L2 & P2 & K2 & N2 & A2 & B2 & O2).
  { rewrite <- E3. f_equal. rewrite length_app. cbn. lia. }
  exists (ents ++ ents2). rewrite Forall_forall in He.
  assert (Forall (fun e => lc_pack e.2 = sl_pack p) ents) as Hpk by (apply Forall_forall; intros e Hin; apply (He e Hin)).
  split_and!.
  - apply Forall_app. split; [|done]. apply Forall_forall. intros e Hin. apply (He e Hin).
  - apply Forall_app. split; [eapply Forall_impl; [exact Hpk|]; cbn; intros e ->; left|].
    eapply Forall_impl; [exact P2|]. cbn. intros. by right.
  - rewrite map_app. apply NoDup_app. split_and!; [done| |done]. intros k (e & <- & Hin)%elem_of_map (e2 & Ek & Hin2)%elem_of_map.
    rewrite Forall_forall in Hpk, P2. injection Ek as _ Ep. destruct Hp. rewrite <- (Hpk e Hin), <- Ep. by apply P2.
  - rewrite length_app, N2. cbn. f_equal. rewrite <- El. by rewrite length_map.
  - intros sha (i & sl & r & Hi & Hcat & Hg). rewrite map_app, elem_of_app. destruct i as [|i]; cbn in Hi.
    + injection Hi as ->. left. by eapply Hall.
    + right. apply A2. exists i, sl, r. done.
  - apply Forall_app. split.
    + apply Forall_forall. intros e Hin. exists 0%nat, p. split; [done|]. apply (He e Hin).
    + eapply Forall_impl; [exact B2|]. cbn. intros e (i & q & Hi & ?). by exists (S i), q.
  - intros obj. destruct (reads_one obj pre p packs rs ents Hr Ho Hpk) as [W1 W2]. destruct (O2 obj) as [W3 W4].
    rewrite <- app_assoc in W3, W4. cbn in W3, W4. rewrite !map_app, !concat_app. split; [congruence|].
    intros [Hi1 Hi2]%Forall_app. apply Forall_app. by split; [apply W2|apply W4].
Qed.
Lemma slices_nodup P packs bp : slices_for cat P packs bp -> NoDup (map sl_pack packs).
Proof.
  intros [Hi _]. apply NoDup_alt. intros i j x. rewrite !list_lookup_fmap. intros Ei Ej.
  destruct (packs !! i) as [a|] eqn:Ea; [|done]. destruct (packs !! j) as [c|] eqn:Ec; [|done]. cbn in *. simplify_eq.
  assert (bp !! sl_pack a = Some i) by (apply Hi; eauto). assert (bp !! sl_pack a = Some j) by (apply Hi; eauto). congruence.
Qed.
(** What a planned set sends: [ents], each entry of the index once. *)
Record sends (d : Db) (ids : list string) (s : SendSet) (ents : list (string * ObjLoc)) : Prop := {
  sn_listed : Forall (listed d) ents;
  sn_once : NoDup (map entry_key ents);
  sn_exact : forall sha, sha ∈ ids <-> sha ∈ map fst ents;
  sn_count : count s = Z.of_nat (length ents) mod 2 ^ 32;
  sn_bytes : forall obj, concat (map (read_bytes obj (ss_packs s)) (ss_reads s)) = concat (map (entry_bytes obj) ents);
  sn_reads : forall obj, Forall (inside obj) ents -> reads_ok obj (ss_packs s) (ss_reads s)
}.
Lemma planned_sends d ids s reads : fits cat d -> marks cat ids s -> ss_stale s = false ->
  plan_packs d 0 (ss_packs s) = Ok (Some reads) -> exists ents, sends d ids (set_reads reads s) ents.
Proof.
  intros F [_ Hs Ha] Hst E. destruct (plan_packs_ok d (ss_packs s) [] reads F (slices_nodup _ _ _ Hs) E)
    as (ents & H1 & H2 & H3 & H4 & H5 & H6 & H7). exists ents. split; [done|done| | | |].
  - intros sha. split; [intros Hin; by apply H5, Ha|]. intros (e & <- & Hin)%elem_of_map.
    rewrite Forall_forall in H1, H6. destruct (H6 e Hin) as (i & p & Hi & Ep & Hg). destruct (H1 e Hin) as (r & Hr & (_ & Ei & _)%row_loc_eq).
    apply F in Hr. rewrite Ep in Hr. destruct (cg_range _ CG _ _ _ Hr) as [? _]. rewrite Ei in Hg.
    destruct (sl_bits _ _ _ _ Hs _ _ _ Hi ltac:(done) Hg) as (sha & r' & Hc & Ei' & Hin').
    by rewrite (cg_idx _ CG _ _ _ _ _ Hr Hc ltac:(congruence)).
  - unfold count. cbn. by rewrite H4.
  - intros obj. apply H7.
  - intros obj. apply H7.
Qed.
(** A plan that is made sends the marked objects and nothing else, within the budget. *)
Lemma plan_reads_ok hk b d ids s s' : fits cat d -> Forall (oid_ok hk) ids -> ss_hash_len s = hash_len hk -> marks cat ids s ->
  plan_reads b d s = Ok s' ->
  (exists ents, sends d ids s' ents)
  /\ (max_subrequests b < u32_max -> used b + Z.of_nat (length (ss_reads s')) <= max_subrequests b)
  /\ ss_shallow s' = ss_shallow s /\ ss_unshallow s' = ss_unshallow s.
Proof.
  intros F Ho Hh Hm (s1 & E1 & (plan & E2 & (r & E3 & E4)%rbind_ok)%rbind_ok)%rbind_ok.
  assert (marks cat ids s1 /\ ss_stale s1 = false /\ ss_hash_len s1 = hash_len hk /\ ss_shallow s1 = ss_shallow s /\ ss_unshallow s1 = ss_unshallow s)
    as (M1 & S1 & H1 & Sh & Un).
  { destruct (ss_stale s) eqn:Es; [by eapply rebuild_ok|]. injection E1 as <-. by rewrite Es. }
  assert (marks cat ids r.1 /\ ss_stale r.1 = false /\ plan_packs d 0 (ss_packs r.1) = Ok (Some r.2)
    /\ ss_shallow r.1 = ss_shallow s /\ ss_unshallow r.1 = ss_unshallow s) as (M2 & S2 & P2 & Sh2 & Un2).
  { destruct plan as [reads|]; [by injection E3 as <-|]. destruct (ss_stale s); [done|].
    apply rbind_ok in E3 as (s2 & Er & (again & Ea & (reads & Eo & [= <-])%rbind_ok)%rbind_ok).
    destruct again; [|done]. injection Eo as ->. destruct (rebuild_ok _ CG hk _ _ _ _ F Ho H1 M1 Er) as (? & ? & _ & ? & ?).
    cbn. split_and!; [done..|congruence|congruence]. }
  destruct (negb _); [done|]. destruct (Z.ltb_spec (max_subrequests b) (sat_addu32 (used b) (Z.of_nat (length r.2)))) as [|Hle]; [done|].
  injection E4 as <-. destruct (planned_sends d ids r.1 r.2 F M2 S2 P2) as [ents He]. split; [by exists ents|]. cbn.
  split; [|done]. intros Hx. unfold sat_addu32 in Hle. lia.
Qed.
End Planned.
