(* ===== verification/SendFacts.v ===== *)
(** * A fetch sends what the client lacks, and nothing it did not ask for

    The objects form a graph: a commit points at its tree and parents, a tree at its
    entries, a tag at its target.  [cut_links] leaves out the parents of the commits
    on a shallow boundary.  What the client has is any set [have] closed under the
    links its own boundary leaves.  When [send_set] answers, every object the wants
    reach within the boundary the answer announces was marked, is the client's, or
    is a blob the filter names; and every marked object is reachable from what the
    client named, or is a tag that rides along. *)
From S2P Require Import Prelude Errors Db Jobs Cohort GcBase Compact Refs Push Wire Receive Answers Sha Writer Reads Mark MarkFacts.
From S2P Require Import BuildFacts Ingest IngestFacts Generate Plan.
Open Scope Z_scope.

(** The two readers of gix agree. *)
Class GitTreesLaws `{GitObjects} `{GitTrees} : Prop := {
  tree_refs_entries : forall hk data, tree_entries hk data =
    map (fun r => match r with Ok e => Ok (bool_decide (te_mode e = MCommit), te_oid e) | Err m => Err m end) (tree_refs hk data);
  tag_ref_target : forall hk data, tag_target hk data = match tag_ref hk data with Ok t => Ok t.2 | Err m => Err m end
}.

(** A loop with an accumulator: the invariant speaks of what is left. *)
Lemma for_fold_rest {S E A B} (P : list A -> B -> S -> Prop) (f : B -> A -> M S E B) X xs : forall b,
  (forall x rest b, triple (P (x :: rest) b) (f b x) (P rest) X) -> triple (P xs b) (for_fold f xs b) (P []) X.
Proof.
  induction xs as [|x xs IH]; intros b Hf; [by apply triple_ret|]. cbn [for_fold]. eapply triple_bind; [apply Hf|].
  intros b'. by apply IH.
Qed.
(** The same, with what is known of each element. *)
Lemma for_fold_inv {S E A B} (P : B -> S -> Prop) (Q : A -> Prop) (f : B -> A -> M S E B) X xs : Forall Q xs -> forall b,
  (forall x b, Q x -> triple (P b) (f b x) P X) -> triple (P b) (for_fold f xs b) P X.
Proof.
  induction 1 as [|x xs Hx Hxs IH]; intros b Hf; [by apply triple_ret|]. cbn [for_fold]. eapply triple_bind; [by apply Hf|].
  intros b'. by apply IH.
Qed.

(** Membership in the working lists and sets. *)
Ltac mem := cbn in *; intros;
  do 3 rewrite ?elem_of_app, ?elem_of_cons, ?elem_of_union, ?elem_of_singleton, ?list_elem_of_singleton in *; tauto.

Section Facts.
Context {PF : Platform} {PC : PackCodec} {RR : R2} {GO : GitObjects} {GT : GitTrees} {GL : GitTreesLaws}.
Context (object : string -> option (list Z)) {RL : R2Laws object}.
Context (W : Type) (charge1 : W -> W * result Error unit) (budget : W -> ReqBudget).
Context (others : W -> Db -> W * Db) (repo : string) (hk : HashKind).
Context (cat : string -> string -> option ObjSql) (CG : catalog_ok cat).
(** What an id names. *)
Context (content : string -> option (Kind * list Z)).

(** Every entry of every pack is the object its row names. *)
Record honest_packs : Prop := {
  hp_oid : forall s p r, cat s p = Some r -> oid_ok hk s;
  hp_kind : forall s p r, cat s p = Some r -> exists k data, content s = Some (k, data) /\ ob_kind r = git_kind k /\ ob_size r = Z.of_nat (length data);
  hp_entry : forall s p r o kd, cat s p = Some r -> object (key_pack repo p) = Some o ->
    decode_entry (slice o (ob_offset r) (ob_len r)) = Ok kd -> content s = Some kd
}.
(** An id that names an object names one of this kind. *)
Definition is_a (k : Kind) (x : string) : Prop := forall k' data, content x = Some (k', data) -> k' = k.
(** git's object model: what an object points at has the kind it says. *)
Record well_typed : Prop := {
  wt_commit : forall c data, content c = Some (Commit, data) ->
    (forall t, commit_tree_id hk data = Ok t -> is_a Tree t) /\ Forall (is_a Commit) (commit_parent_ids hk data);
  wt_tree : forall t data e, content t = Some (Tree, data) -> Ok e ∈ tree_refs hk data ->
    match te_mode e with MTree => is_a Tree (te_oid e) | MBlob => is_a Blob (te_oid e) | MCommit => is_a Commit (te_oid e) end;
  wt_tag : forall t data k x, content t = Some (Tag, data) -> tag_ref hk data = Ok (k, x) -> is_a k x
}.
Definition links (x : string) : list string :=
  match content x with
  | Some (k, data) => match extract_links k data hk with Ok l => l | Err _ => [] end
  | None => []
  end.
(** The links a shallow boundary leaves: a commit on it keeps its tree only. *)
Definition kept_links (bound : list string) (x : string) : list string :=
  match content x with
  | Some (Commit, data) => if bool_decide (x ∈ bound) then match commit_tree_id hk data with Ok t => [t] | Err _ => [] end else links x
  | _ => links x
  end.
Definition cut_links (bound : list string) (x y : string) : Prop := y ∈ kept_links bound x.
Definition reach (roots : list string) (x : string) : Prop := exists r, r ∈ roots /\ rtc (fun a b => b ∈ links a) r x.

Context (HP : honest_packs) (WT : well_typed) (a : Ask).
(** The tags of the repository, at one time or another. *)
Context (tags : string -> Prop).
(** The others keep the catalog, and what the request needs. *)
Record sound (d : Db) : Prop := {
  sd_fits : fits cat d;
  sd_live : forall x, reach (ak_wants a) x -> live_sha d x;
  sd_names : forall r t, r ∈ refs_tags d -> oid_from_hex r.1 = Some t -> tags t
}.
Context (OS : forall w d, sound d -> sound (others w d).2).
(** What may be sent: what the ids of the request reach, of the tags among it the wanted
    ones only; and when the client asks for them, those tags. *)
Definition asked (x : string) : Prop :=
  (reach (ak_wants a ++ ak_shallow a) x /\ forall data, content x = Some (Tag, data) -> x ∈ ak_wants a)
  \/ (ak_include_tag a = true /\ tags x).
Lemma reach_named x : reach (ak_wants a) x -> reach (ak_wants a ++ ak_shallow a) x.
Proof. intros (r & Hr & Hx). exists r. split; [apply elem_of_app; by left|done]. Qed.
Lemma want_asked x : x ∈ ak_wants a -> asked x.
Proof. intros Hx. left. split; [|done]. apply reach_named. by exists x. Qed.
Lemma kind_asked k x : k <> Tag -> is_a k x -> reach (ak_wants a ++ ak_shallow a) x -> asked x.
Proof. intros Hk Hx Hr. left. split; [done|]. intros data Hd. destruct Hk. symmetry. by eapply Hx. Qed.

(** ** The state of the walk *)

Abbreviation Fs := (Fs W).
Abbreviation FM := (M Fs Error).
Definition mem_ok (m : MemFind) : Prop := forall id kd, mf_objs m !! id = Some kd -> content id = Some kd.
Record inv (bd : list string * list string) (ids : list string) (s : Fs) : Prop := {
  iv_db : sound (fs_db W s);
  iv_marks : marks cat ids (fs_set W s);
  iv_len : ss_hash_len (fs_set W s) = hash_len hk;
  iv_ids : Forall (fun x => oid_ok hk x /\ asked x) ids;
  iv_mem : mem_ok (fs_mem W s);
  iv_bounds : (ss_shallow (fs_set W s), ss_unshallow (fs_set W s)) = bd
}.
(** At least [l] is marked. *)
Definition got (bd : list string * list string) (l : list string) (s : Fs) : Prop := exists ids, inv bd ids s /\ forall x, x ∈ l -> x ∈ ids.

Lemma mem_default_ok : mem_ok mem_default.
Proof. intros id kd. unfold mem_default. cbn. by rewrite lookup_empty. Qed.
Lemma got_mem bd l m s : mem_ok m -> got bd l s -> got bd l (with_mem W m s).
Proof. intros Hm (ids & [] & Hl). exists ids. by split. Qed.
Lemma got_dw bd l d w s : sound d -> got bd l s -> got bd l (with_dw W d w s).
Proof. intros Hd (ids & [] & Hl). exists ids. by split. Qed.
Lemma got_sub bd l l' s : (forall x, x ∈ l' -> x ∈ l) -> got bd l s -> got bd l' s.
Proof. intros Hs (ids & Hi & Hl). exists ids. split; [done|auto]. Qed.
Lemma got_db bd l s : got bd l s -> sound (fs_db W s).
Proof. by intros (ids & [] & _). Qed.
Lemma got_mem_ok bd l s : got bd l s -> mem_ok (fs_mem W s).
Proof. by intros (ids & [] & _). Qed.
(** The others run during an await, whatever it answers. *)
Lemma awaiting_got {A} bd l (m : FM A) (Q : A -> Prop) :
  pc (got bd l) m (fun x s => got bd l s /\ Q x) -> (forall s, got bd l s -> got bd l (m s).1) ->
  pc (got bd l) (awaiting W others m) (fun x s => got bd l s /\ Q x).
Proof.
  intros Hm Hs s Hg. specialize (Hm s Hg). specialize (Hs s Hg). unfold awaiting.
  destruct (m s) as [s1 [x|e]]; cbn in *; [|done]. destruct Hm as [Hg1 HQ]. split; [|done].
  apply got_dw; [|done]. apply OS. by eapply got_db.
Qed.

(** ** Lookups *)

Definition looked (id : string) (l : option ObjLoc) : Prop :=
  match l with Some loc => place cat id loc | None => ~ reach (ak_wants a) id end.
Lemma lookup_looked d id l : sound d -> lookup_one d id = Ok l -> looked id l.
Proof.
  intros [F Hl _] E. destruct l as [loc|]; [by eapply lookup_place|]. intros Hr. apply Hl in Hr as (p & [r Hr] & Hp).
  unfold lookup_one in E. destruct (live_rows d id) as [|kv rest] eqn:El; [|by destruct (row_loc _ _)].
  assert (((id, p), r) ∈ live_rows d id) as Hin by (by apply live_rows_spec). rewrite El in Hin. by apply elem_of_nil in Hin.
Qed.
Lemma pure_db {A} bd l (m : DoM A) (Q : A -> Prop) :
  (forall d, (m d).1 = d) -> (forall d x, sound d -> (m d).2 = Ok x -> Q x) ->
  pc (got bd l) (on_db W m) (fun x s => got bd l s /\ Q x).
Proof.
  intros Hd HQ s Hg. unfold on_db. specialize (Hd (fs_db W s)). specialize (HQ (fs_db W s)).
  destruct (m (fs_db W s)) as [d1 [x|e]]; cbn in *; [|done]. subst d1. split; [|apply HQ; [by eapply got_db|done]].
  apply got_dw; [by eapply got_db|done].
Qed.
Lemma db_got {A} bd l (m : DoM A) (Q : A -> Prop) :
  pc sound m (fun x d => sound d /\ Q x) -> pc (got bd l) (on_db W m) (fun x s => got bd l s /\ Q x).
Proof.
  intros Hm s Hg. specialize (Hm _ (got_db _ _ _ Hg)). unfold on_db. destruct (m (fs_db W s)) as [d [x|e]]; [|done]. destruct Hm. split; [|done].
  by apply got_dw.
Qed.
Lemma lookup_got bd l ids : pc (got bd l) (on_db W (index_lookup ids)) (fun ls s => got bd l s /\ Forall2 looked ids ls).
Proof.
  apply pure_db; [done|]. intros d ls Hs E. cbn in E. apply collect_Forall2 in E. eapply Forall2_impl; [exact E|].
  cbn. intros id x. by apply lookup_looked.
Qed.
Lemma located_got bd l ids : pc (got bd l) (on_db W (located ids)) (fun ls s => got bd l s /\ map fst ls = ids /\ Forall (fun e => place cat e.1 e.2) ls).
Proof.
  apply (pure_db _ _ _ (fun ls => map fst ls = ids /\ Forall (fun e => place cat e.1 e.2) ls)).
  - intros d. unfold located, mbind, M_bind, index_lookup, lift. cbn. by destruct (collect (lookup_one d) ids).
  - intros d ls Hs E. unfold located, mbind, M_bind, index_lookup, lift in E. cbn in E.
    destruct (collect (lookup_one d) ids) as [os|] eqn:Ec; [|done]. apply collect_Forall2 in Ec, E.
    revert ls E. induction Ec as [|id o ids os Ho Ec IH]; intros ls E; inversion E as [|? y ? ys Hy Hys]; subst; [done|].
    cbn in Hy. destruct o as [loc|]; [|done]. injection Hy as <-. destruct (IH _ Hys) as [Em Hf]. cbn. rewrite Em. split; [done|].
    constructor; [|done]. apply (lookup_looked _ _ _ Hs Ho).
Qed.
Lemma known_got bd l ids : pc (got bd l) (on_db W (known ids)) (fun ks s => got bd l s /\ (forall x, x ∈ ks -> x ∈ ids)).
Proof.
  apply (pure_db _ _ _ (fun ks => forall x, x ∈ ks -> x ∈ ids)).
  - intros d. unfold known, mbind, M_bind, index_lookup. cbn. by destruct (collect (lookup_one d) ids).
  - intros d ks Hs E. unfold known, mbind, M_bind, index_lookup in E. cbn in E.
    destruct (collect (lookup_one d) ids) as [os|]; [|done]. injection E as <-. intros x (y & <- & [Hy _]%elem_of_filter_b)%elem_of_map.
    destruct y as [y o]. by apply elem_of_zip_l in Hy.
Qed.

(** ** Marks *)

Lemma mark_got bd l id loc : place cat id loc -> asked id -> pc (got bd l) (mark W id loc) (fun _ => got bd (id :: l)).
Proof.
  intros Hp Ha s (ids & [I1 I2 I3 I4 I5 I6] & Hl). unfold mark. destruct (mark_with _ _ _ _) as [x|e] eqn:E; [|done].
  exists (ids ++ [id]). split.
  - pose proof (marks_mark _ CG _ _ _ _ _ _ I2 Hp E) as Hm. destruct Hp as (r & Hc & _).
    assert (ss_hash_len x = ss_hash_len (fs_set W s) /\ (ss_shallow x, ss_unshallow x) = (ss_shallow (fs_set W s), ss_unshallow (fs_set W s))) as [E1 E2].
    { unfold mark_with in E. destruct (_ !! _); [by apply rbind_ok in E as (ps & _ & [= <-])|].
      destruct (pack_meta _ _); [|destruct (_ && _); [by injection E as <-|done]].
      destruct (push_slice _ _ _ _ _) as [[ps bp] i]. by apply rbind_ok in E as (ps' & _ & [= <-]). }
    split; cbn; [done|done|congruence| |done|congruence]. apply Forall_app. split; [done|].
    constructor; [split; [by eapply (hp_oid HP)|done]|constructor].
  - intros x0 [->|Hx]%elem_of_cons; apply elem_of_app; [right; by left|left; auto].
Qed.

(** ** Loads *)

Lemma sound_ext d d' : t_objects d' = t_objects d -> t_packs d' = t_packs d -> t_refs d' = t_refs d -> sound d -> sound d'.
Proof.
  intros Ho Hp Hr [F Hl Ht]. split; [intros s p r; rewrite Ho; apply F| |unfold refs_tags; by rewrite Hr].
  intros x Hx. apply Hl in Hx as (p & Hx & Hv). exists p. unfold pack_live in *. by rewrite Ho, Hp.
Qed.
Lemma failpoint_sound name d : sound d -> sound (failpoint name d).1.
Proof.
  intros Hs. unfold failpoint. destruct (negb hooks_enabled); [done|]. destruct (t_failpoints d !! name) as [[act n]|]; [|done].
  destruct (_ && _); [|done]. destruct (String.eqb act "crash"); cbn; by eapply sound_ext; [| | |exact Hs].
Qed.
Lemma failpoint_async_got bd l name : pc (got bd l) (failpoint_async W others name) (fun _ => got bd l).
Proof.
  assert (forall s, got bd l s -> got bd l (on_db W (failpoint name) s).1) as Hf.
  { intros s Hg. unfold on_db. apply got_dw; [|done]. apply failpoint_sound. by eapply got_db. }
  intros s Hg. unfold failpoint_async. specialize (Hf s Hg).
  destruct (t_failpoints (fs_db W s) !! name) as [[act n]|]; [|by destruct (on_db W (failpoint name) s) as [s1 [x|e]]].
  destruct (_ && _ && _); [|by destruct (on_db W (failpoint name) s) as [s1 [x|e]]].
  unfold awaiting, on_db, modify. cbn. apply got_dw; [|apply got_dw; [|done]];
    [apply OS|]; (eapply sound_ext; [| | |by eapply got_db]; done).
Qed.
Lemma remember_got bd l e : (forall kd, decode_entry e.2 = Ok kd -> content e.1 = Some kd) -> pc (got bd l) (remember W e) (fun _ => got bd l).
Proof.
  intros He. unfold remember. apply (triple_bind _ _ (fun o s => got bd l s /\ content e.1 = Some o)).
  { intros s Hg. unfold lift. destruct (decode_entry e.2) as [kd|] eqn:Ed; [|done]. split; [done|by apply He]. }
  intros [k data]. apply (triple_bind _ _ (fun _ => got bd l)).
  - intros s [Hg Hc]. cbn. apply got_mem; [|done]. intros id kd. unfold mem_insert. cbn.
    intros [[<- <-]|[_ Hm]]%lookup_insert_Some; [done|]. by eapply got_mem_ok.
  - intros u. apply gets_bind. intros full s [Hg _]. by destruct full.
Qed.
Lemma for_each_got {A} bd l (f : A -> FM unit) xs : (forall x, x ∈ xs -> pc (got bd l) (f x) (fun _ => got bd l)) ->
  pc (got bd l) (for_each xs f) (fun _ => got bd l).
Proof.
  induction xs as [|x xs IH]; intros Hf; [by apply triple_ret|]. cbn [for_each].
  apply (triple_bind _ _ (fun _ => got bd l)); [apply Hf; left|]. intros u. apply IH. intros y Hy. apply Hf. by right.
Qed.
(** What a read answers with is what the ids name. *)
Definition genuine (es : list (string * list Z)) : Prop := Forall (fun e => forall kd, decode_entry e.2 = Ok kd -> content e.1 = Some kd) es.
Lemma place_loc_ok id loc : place cat id loc -> loc_ok (id, loc).
Proof. intros Hp. destruct (place_range _ CG _ _ Hp) as (_ & ? & ? & ?). by split_and!. Qed.
Lemma read_all_got bd l locs : Forall (fun e => place cat e.1 e.2) locs ->
  pc (got bd l) (read_all W charge1 others repo locs) (fun es s => got bd l s /\ genuine es).
Proof.
  intros Hp. unfold read_all.
  apply (triple_bind _ _ (fun r s => got bd l s /\ genuine (unwrap_or [] r))); [|intros r; by apply triple_ret].
  apply awaiting_got.
  - intros s Hg. unfold on_world. destruct (read_entries_chunked _ _ _ _ _) as [w [r|e]] eqn:E; cbn; [|done].
    split; [apply got_dw; [by eapply got_db|done]|]. unfold read_entries_chunked in E.
    apply (chunked_loop_exact object) in E as (ls & new & -> & Pm & Hf).
    + cbn in Pm. rewrite app_nil_r in Pm. cbn. assert (Forall (fun e => place cat e.1 e.2) ls) as Hls by by rewrite Pm.
      clear - Hf Hls HP. induction Hf as [|[id loc] [id' bs] ls new (E1 & o & Ho & _ & E2) _ IH]; [constructor|]. cbn in *. subst id' bs.
      apply Forall_cons in Hls as [(r & Hc & (_ & _ & E3 & E4 & _)%row_loc_eq) Hls]. constructor; [|by apply IH]. cbn in *. intros kd Hd.
      rewrite E3, E4 in Hd. by eapply (hp_entry HP).
    + unfold stack_cost. cbn -[Nat.mul Nat.max Nat.sub]. lia.
    + repeat constructor. eapply Forall_impl; [exact Hp|]. intros [id loc]. apply place_loc_ok.
  - intros s Hg. unfold on_world. apply got_dw; [by eapply got_db|done].
Qed.
Lemma genuine_remember bd l es : genuine es -> pc (got bd l) (for_each es (remember W)) (fun _ => got bd l).
Proof. intros He. apply for_each_got. intros e Hin. apply remember_got. unfold genuine in He. rewrite Forall_forall in He. by apply He. Qed.
Lemma load_got bd l ids : pc (got bd l) (load W charge1 others repo ids) (fun locs s => got bd l s /\ Forall2 (place cat) ids locs).
Proof.
  unfold load. apply (triple_bind _ _ _ _ _ _ (located_got bd l ids)). intros locs.
  apply triple_pre with (P' := fun s => got bd l s /\ (map fst locs = ids /\ Forall (fun e => place cat e.1 e.2) locs)); [done|].
  apply triple_pure. intros [<- Hp].
  apply (triple_bind _ _ _ _ _ _ (read_all_got bd l locs Hp)). intros es. apply triple_pure. intros He.
  apply (triple_bind _ _ (fun _ => got bd l)); [by apply genuine_remember|]. intros u.
  apply (triple_bind _ _ (fun _ => got bd l)).
  { destruct (null locs); [by apply triple_ret|apply failpoint_async_got]. }
  intros u'. apply triple_ret. intros s Hg. split; [done|]. clear - Hp. induction Hp as [|[id loc] locs Hx _ IH]; cbn; constructor; done.
Qed.
Lemma range_places pack lo hi d ls : sound d -> (commits_in_range pack lo hi d).2 = Ok ls -> Forall (fun e => place cat e.1 e.2) ls.
Proof.
  intros [F _ _]. unfold commits_in_range, lift, mbind, M_bind, gets. destruct (to_i64 lo) as [lo'|]; [|done]. destruct (to_i64 hi) as [hi'|]; [|done].
  destruct (collect _ _) as [xs|] eqn:E; [|done]. intros [= <-]. apply collect_Forall2 in E. cbn in E.
  apply Forall_forall. intros e He. apply list_elem_of_lookup in He as [i Hi]. destruct (Forall2_lookup_r _ _ _ _ _ E Hi) as ([id r] & Hx & He).
  apply list_elem_of_lookup_2 in Hx. destruct (pack_live d pack); [|by apply elem_of_nil in Hx].
  assert ((id, r) ∈ pack_rows d pack /\ (ob_kind r =? 1) = true) as [Hin Hk].
  { apply elem_of_take in Hx as (j & Hj & _). apply list_elem_of_lookup_2 in Hj. rewrite (merge_sort_Permutation pair_off_le) in Hj.
    apply elem_of_filter_b in Hj as [? Hb]. split; [done|]. by apply andb_true_iff in Hb as [[? _]%andb_true_iff _]. }
  apply pack_rows_spec, F in Hin. apply Z.eqb_eq in Hk. cbn in He. destruct (hp_oid HP _ _ _ Hin) as (Hc & _).
  unfold canonical in Hc. rewrite Hc in He. injection He as <-. exists r. split; [done|]. unfold row_loc. by rewrite Hk.
Qed.

Lemma range_sound pack lo hi : pc sound (commits_in_range pack lo hi) (fun ls d => sound d /\ Forall (fun e => place cat e.1 e.2) ls).
Proof.
  intros d Hd. pose proof (range_places pack lo hi d) as Hp. destruct (commits_in_range pack lo hi d) as [d' [ls|e]] eqn:E; [|done].
  assert (d' = d) as ->; [|by split; [|apply Hp]]. clear - E. revert E. unfold commits_in_range, lift, mbind, M_bind, gets.
  destruct (to_i64 lo); [|done]. destruct (to_i64 hi); [|done]. by intros [= ->].
Qed.
Lemma prefetch_sound mem missing e : Forall (fun e => place cat e.1 e.2) missing ->
  pc sound (prefetch mem missing e) (fun ls d => sound d /\ Forall (fun e => place cat e.1 e.2) ls).
Proof.
  intros Hm. unfold prefetch. apply (triple_bind _ _ (fun _ => sound)).
  { intros d Hd. by destruct (pack_meta d e.1). }
  intros cb. eapply triple_bind; [apply range_sound|]. intros ps. apply triple_ret. intros d [Hd Hp]. split; [done|].
  apply Forall_app. split; [done|]. rewrite Forall_forall in *. intros x [Hx _]%elem_of_filter_b. by apply Hp.
Qed.
Lemma dedup_from_sub {A} (f : A -> string) prev xs x : x ∈ dedup_from f prev xs -> x ∈ xs.
Proof.
  revert prev; induction xs as [|y xs IH]; intros prev; cbn [dedup_from]; [done|]. case_bool_decide.
  - intros Hx. right. by eapply IH.
  - intros [->|Hx]%elem_of_cons; [left|right; by eapply IH].
Qed.
Lemma load_commits_got bd l ids :
  pc (got bd l) (load_commits W charge1 others repo ids) (fun locs s => got bd l s /\ Forall2 (place cat) ids locs).
Proof.
  unfold load_commits. apply (triple_bind _ _ _ _ _ _ (located_got bd l ids)). intros locs.
  apply triple_pre with (P' := fun s => got bd l s /\ (map fst locs = ids /\ Forall (fun e => place cat e.1 e.2) locs)); [done|].
  apply triple_pure. intros [<- Hp]. apply gets_bind. intros mem.
  apply triple_pre with (P' := got bd l); [by intros s []|]. set (missing := List.filter _ locs).
  assert (Forall (fun e => place cat e.1 e.2) missing) as Hm.
  { rewrite Forall_forall in *. intros e [He _]%elem_of_filter_b. by apply Hp. }
  apply (triple_bind _ _ (fun _ => got bd l)).
  - destruct (null missing); [by apply triple_ret|].
    eapply triple_bind; [apply (db_got bd l _ (Forall (fun e => place cat e.1 e.2)))|].
    { apply triple_pre with (P' := fun d => sound d /\ Forall (fun e => place cat e.1 e.2) missing); [done|].
      apply (for_fold_inv (fun b d => sound d /\ Forall (fun e => place cat e.1 e.2) b) (fun _ => True)); [by apply Forall_true|].
      intros x b _. apply triple_pure. apply prefetch_sound. }
    intros more. apply triple_pure. intros Hmore.
    eapply triple_bind; [apply read_all_got|intros es; apply triple_pure, genuine_remember].
    rewrite Forall_forall in *. intros e He%dedup_from_sub. rewrite (merge_sort_Permutation (id_first)) in He. by apply Hmore.
  - intros u. apply triple_ret. intros s Hg. split; [done|]. clear - Hp. induction Hp as [|[id loc] locs Hx _ IH]; cbn; constructor; done.
Qed.

(** ** The wants and their tags *)

(** Where the walk has an object of kind [k]: queued, marked, or a tag peeled or
    about to be. *)
Definition at_kind (l open : list string) (sd : Seed) (k : Kind) (x : string) : Prop :=
  match k with
  | Commit => x ∈ sd_commits sd
  | Tree => x ∈ sd_trees sd
  | Blob => x ∈ l
  | Tag => x ∈ open
  end.
(** [ws] are the wants seeded, [done] the tags peeled and [pend] those to peel. *)
Record seeded (ws l done pend : list string) (sd : Seed) : Prop := {
  se_commits : Forall (fun c => is_a Commit c /\ reach (ak_wants a) c) (sd_commits sd);
  se_trees : Forall (fun t => is_a Tree t /\ reach (ak_wants a) t) (sd_trees sd);
  se_pend : Forall (fun t => is_a Tag t /\ reach (ak_wants a) t) pend;
  se_tags : Forall (is_a Tag) done;
  se_done : forall t data k x, t ∈ done -> content t = Some (Tag, data) -> tag_ref hk data = Ok (k, x) -> at_kind l (done ++ pend) sd k x;
  se_seen : forall x, x ∈ sd_seen sd -> x ∈ l /\ exists k data, content x = Some (k, data) /\ at_kind l (done ++ pend) sd k x;
  se_sent : forall c, c ∈ sd_sent sd -> c ∈ l /\ c ∈ sd_commits sd;
  se_wants : forall w, w ∈ ws -> w ∈ l /\ exists k data, content w = Some (k, data) /\ at_kind l (done ++ pend) sd k w /\ (k = Commit -> w ∈ sd_sent sd)
}.
Lemma at_kind_mono l o sd l' o' sd' k x : (forall y, y ∈ l -> y ∈ l') -> (forall y, y ∈ o -> y ∈ o') ->
  (forall y, y ∈ sd_commits sd -> y ∈ sd_commits sd') -> (forall y, y ∈ sd_trees sd -> y ∈ sd_trees sd') ->
  at_kind l o sd k x -> at_kind l' o' sd' k x.
Proof. destruct k; cbn; auto. Qed.
Lemma reach_root roots x : x ∈ roots -> reach roots x.
Proof. intros Hx. by exists x. Qed.
Lemma reach_step roots x y : reach roots x -> y ∈ links x -> reach roots y.
Proof. intros (r & Hr & Hx) Hy. exists r. split; [done|]. by eapply rtc_r. Qed.
Lemma place_content id loc : place cat id loc -> oid_ok hk id /\ exists data, content id = Some (lc_kind loc, data) /\ lc_size loc = Z.of_nat (length data).
Proof.
  intros (r & Hc & (_ & _ & _ & _ & Hk & Hz)%row_loc_eq). split; [by eapply (hp_oid HP)|].
  destruct (hp_kind HP _ _ _ Hc) as (k & data & Hd & Ek & Es). exists data. rewrite Ek in Hk. split; [|congruence]. by destruct k; injection Hk as <-.
Qed.
Lemma oid_kind_ok id : oid_ok hk id -> oid_kind id = hk.
Proof.
  intros (_ & _ & Hl). unfold oid_kind. destruct hk; cbn in Hl; destruct (Nat.eqb_spec (String.length id) 64); (done || lia).
Qed.
(** What may be added at once. *)
Record wider (l done pend : list string) (sd : Seed) (l' done' pend' : list string) (sd' : Seed) : Prop := {
  wd_l : forall x, x ∈ l -> x ∈ l';
  wd_open : forall x, x ∈ done ++ pend -> x ∈ done' ++ pend';
  wd_commits : exists cs, sd_commits sd' = sd_commits sd ++ cs /\ Forall (fun c => is_a Commit c /\ reach (ak_wants a) c) cs;
  wd_trees : exists ts, sd_trees sd' = sd_trees sd ++ ts /\ Forall (fun t => is_a Tree t /\ reach (ak_wants a) t) ts;
  wd_pend : forall t, t ∈ pend' -> t ∈ pend \/ (is_a Tag t /\ reach (ak_wants a) t);
  wd_done : forall t, t ∈ done' -> t ∈ done \/ is_a Tag t /\ forall data k x, content t = Some (Tag, data) -> tag_ref hk data = Ok (k, x) ->
    at_kind l' (done' ++ pend') sd' k x;
  wd_seen : forall x, x ∈ sd_seen sd' -> x ∈ sd_seen sd \/ x ∈ l' /\ exists k data, content x = Some (k, data) /\ at_kind l' (done' ++ pend') sd' k x;
  wd_sent : forall c, c ∈ sd_sent sd' -> c ∈ sd_sent sd \/ (c ∈ l' /\ c ∈ sd_commits sd');
  wd_kept : forall c, c ∈ sd_sent sd -> c ∈ sd_sent sd'
}.
Lemma seeded_wider ws l done pend sd l' done' pend' sd' :
  wider l done pend sd l' done' pend' sd' -> seeded ws l done pend sd -> seeded ws l' done' pend' sd'.
Proof.
  intros [W1 W2 (cs & W3 & W3') (ts & W4 & W4') W5 W6 W7 W8 W9] [S1 S2 S3 S3' S4 S5 S6 S7].
  assert (forall k x, at_kind l (done ++ pend) sd k x -> at_kind l' (done' ++ pend') sd' k x) as Hm.
  { intros k x. apply at_kind_mono; [done|done|..]; intros y Hy; [rewrite W3|rewrite W4]; apply elem_of_app; by left. }
  split.
  - rewrite W3. by apply Forall_app.
  - rewrite W4. by apply Forall_app.
  - apply Forall_forall. intros t [Ht|Ht]%W5; [|done]. rewrite Forall_forall in S3. by apply S3.
  - apply Forall_forall. intros t [Ht|[Ht _]]%W6; [|done]. rewrite Forall_forall in S3'. by apply S3'.
  - intros t data k x [Ht|[_ Ht]]%W6 Hc Hr; [apply Hm; by eapply S4|by eapply Ht].
  - intros x [Hx|Hx]%W7; [|done]. destruct (S5 x Hx) as (? & k & data & ? & ?). split; [auto|]. exists k, data. auto.
  - intros c [Hc|Hc]%W8; [|done]. destruct (S6 c Hc). split; [auto|]. rewrite W3. apply elem_of_app. by left.
  - intros w Hw. destruct (S7 w Hw) as (? & k & data & ? & ? & ?). split; [auto|]. exists k, data. split_and!; auto.
Qed.
Lemma seed_want_got bd ws w o l sd : w ∈ ak_wants a -> looked w o -> seeded ws l [] (sd_tags sd) sd ->
  pc (got bd l) (seed_want W sd (w, o)) (fun sd' s => exists l', got bd l' s /\ seeded (ws ++ [w]) l' [] (sd_tags sd') sd').
Proof.
  intros Hw Ho Hs. destruct o as [loc|]; unfold seed_want; [|by intros s Hg].
  cbn in Ho. destruct (place_content _ _ Ho) as (_ & data & Hd & _). assert (reach (ak_wants a) w) as Hr by by apply reach_root.
  apply (triple_bind _ _ (fun x s => got bd l s /\ x = loc)); [by intros s Hg|]. intros x. apply triple_pure. intros ->.
  eapply triple_bind; [apply mark_got; [done|by apply want_asked]|]. intros u. apply triple_ret. intros s Hg. exists (w :: l). split; [done|].
  set (sd' := match lc_kind loc with Commit => _ | _ => _ end).
  assert (is_a (lc_kind loc) w) as Hk by (intros k' data'; rewrite Hd; by intros [= <- _]).
  assert (at_kind (w :: l) (sd_tags sd') sd' (lc_kind loc) w) as Hat by (unfold sd'; destruct (lc_kind loc); mem).
  assert (sd_seen sd' = {[w]} ∪ sd_seen sd) as Hseen by (unfold sd'; by destruct (lc_kind loc)).
  assert (wider l [] (sd_tags sd) sd (w :: l) [] (sd_tags sd') sd') as Hwd.
  { split; [mem|unfold sd'; destruct (lc_kind loc); mem| | | |by intros t ?%elem_of_nil| |unfold sd'; destruct (lc_kind loc); mem..].
    - exists (match lc_kind loc with Commit => [w] | _ => [] end). unfold sd'. destruct (lc_kind loc); cbn; rewrite ?app_nil_r; by repeat constructor.
    - exists (match lc_kind loc with Tree => [w] | _ => [] end). unfold sd'. destruct (lc_kind loc); cbn; rewrite ?app_nil_r; by repeat constructor.
    - intros t. unfold sd'. destruct (lc_kind loc); [by left..|]. cbn. intros [?|Ht%list_elem_of_singleton]%elem_of_app; [by left|subst; by right].
    - intros x. rewrite Hseen. intros [Hx%elem_of_singleton|Hx]%elem_of_union; [|by left]. subst x. right. split; [left|].
      by exists (lc_kind loc), data. }
  pose proof (seeded_wider ws _ _ _ _ _ _ _ _ Hwd Hs) as [S1 S2 S3 S4 S5 S6 S7 S8]. split; try done.
  intros w' [Hw'|Hw'%list_elem_of_singleton]%elem_of_app; [by apply S8|subst w']. split; [left|]. exists (lc_kind loc), data.
  split_and!; [done|done|]. intros Ek. unfold sd'. rewrite Ek. mem.
Qed.
Lemma seeded_nil : seeded [] [] [] [] (mkSeed [] [] [] ∅ ∅).
Proof. split; try constructor; try (intros; set_solver). Qed.
Lemma seed_got bd : pc (got bd []) (seed W (ak_wants a)) (fun sd s => exists l, got bd l s /\ seeded (ak_wants a) l [] (sd_tags sd) sd).
Proof.
  unfold seed. eapply triple_bind; [apply lookup_got|]. intros ls. apply triple_pure. intros Hls.
  set (P := fun (rest : list (string * option ObjLoc)) sd s => exists ws l, got bd l s /\ seeded ws l [] (sd_tags sd) sd
    /\ ws ++ map fst rest = ak_wants a /\ Forall (fun p => looked p.1 p.2) rest).
  eapply triple_pre; [|eapply triple_post; [|apply (for_fold_rest P)]].
  - intros s Hg. exists [], []. split_and!; [done|apply seeded_nil|cbn; apply fst_zip; apply Forall2_length in Hls; lia|].
    clear - Hls. induction Hls; cbn; constructor; done.
  - intros sd s (ws & l & Hg & Hs & Hw & _). cbn in Hw. rewrite app_nil_r in Hw. subst ws. by exists l.
  - intros [w o] rest sd s (ws & l & Hg & Hs & Hw & Hf). apply Forall_cons in Hf as [Ho Hf].
    assert (w ∈ ak_wants a) as Hin by (rewrite <- Hw; mem).
    pose proof (seed_want_got bd ws w o l sd Hin Ho Hs s Hg) as Hstep. destruct (seed_want W sd (w, o) s) as [s' [sd'|e]]; [|done].
    destruct Hstep as (l' & Hg' & Hs'). exists (ws ++ [w]), l'. split_and!; [done|done|by rewrite <- app_assoc|done].
Qed.
Lemma find_content m id data : mem_ok m -> find m id = Ok data -> exists k, content id = Some (k, data).
Proof. intros Hm. unfold find. destruct (mf_objs m !! id) as [[k d]|] eqn:E; [|done]. intros [= ->]. exists k. by apply Hm. Qed.
(** The data of a loaded object. *)
Lemma find_got {A} bd l id (f : list Z -> FM A) (Q : A -> Fs -> Prop) :
  (forall k data, content id = Some (k, data) -> pc (got bd l) (f data) Q) ->
  pc (got bd l) (mem ← gets (fs_mem W); data ← lift (find mem id); f data) Q.
Proof.
  intros Hf s Hg. unfold mbind, M_bind, gets, lift. destruct (find (fs_mem W s) id) as [data|e] eqn:E; [|done].
  destruct (find_content _ _ _ (got_mem_ok _ _ _ Hg) E) as [k Hk]. by apply (Hf k data Hk s Hg).
Qed.
Lemma tag_links t data k x : content t = Some (Tag, data) -> tag_ref hk data = Ok (k, x) -> x ∈ links t.
Proof.
  intros Hc Hr. unfold links. rewrite Hc. cbn. rewrite tag_ref_target, Hr. cbn. left.
Qed.
(** [x] is a tag behind the tag [t]. *)
Definition tag_of (t x : string) : Prop := exists data, content t = Some (Tag, data) /\ tag_ref hk data = Ok (Tag, x).
Lemma peel_one_got bd ws t rest l done sd : seeded ws l done (t :: rest ++ sd_tags sd) sd -> oid_ok hk t ->
  pc (got bd l) (peel_one W sd t) (fun sd' s => exists l', got bd l' s /\ seeded ws l' (t :: done) (rest ++ sd_tags sd') sd'
    /\ forall x, x ∈ sd_tags sd' -> x ∈ sd_tags sd \/ tag_of t x).
Proof.
  intros Hs Ho. unfold peel_one. apply find_got. intros k0 data Hc.
  pose proof (se_pend _ _ _ _ _ Hs) as Hp. apply Forall_cons in Hp as [[Ht Hr] _]. assert (k0 = Tag) as -> by by eapply Ht.
  rewrite (oid_kind_ok _ Ho). apply (triple_bind _ _ (fun tg s => got bd l s /\ tag_ref hk data = Ok tg)).
  { intros s Hg. unfold lift. by destruct (tag_ref hk data) as [tg|]. }
  intros [k x]. apply triple_pure. intros Htg. pose proof (wt_tag WT _ _ _ _ Hc Htg) as Hkx.
  assert (reach (ak_wants a) x) as Hrx by (eapply reach_step; [exact Hr|by eapply tag_links]).
  assert (forall l' sd', (forall y, y ∈ l -> y ∈ l') -> (forall y, y ∈ sd_tags sd -> y ∈ sd_tags sd') ->
    (exists cs, sd_commits sd' = sd_commits sd ++ cs /\ Forall (fun c => is_a Commit c /\ reach (ak_wants a) c) cs) ->
    (exists ts, sd_trees sd' = sd_trees sd ++ ts /\ Forall (fun c => is_a Tree c /\ reach (ak_wants a) c) ts) ->
    (forall y, y ∈ sd_tags sd' -> y ∈ sd_tags sd \/ (is_a Tag y /\ reach (ak_wants a) y)) ->
    at_kind l' ((t :: done) ++ rest ++ sd_tags sd') sd' k x ->
    (forall y, y ∈ sd_seen sd' -> y ∈ sd_seen sd \/ (y ∈ l' /\ exists k data, content y = Some (k, data) /\ at_kind l' ((t :: done) ++ rest ++ sd_tags sd') sd' k y)) ->
    sd_sent sd' = sd_sent sd -> seeded ws l' (t :: done) (rest ++ sd_tags sd') sd') as Hgo.
  { intros l' sd' H1 H2 H3 H4 H5 H6 H7 H8. eapply seeded_wider; [|exact Hs]. split; try done; try (rewrite H8; mem).
    - intros y. specialize (H2 y). mem.
    - intros y [Hy|[Hy|Hy]%H5]%elem_of_app; [left|left|right; done]; mem.
    - intros y [->|Hy]%elem_of_cons; [right|by left]. split; [done|]. intros data' k' x'. rewrite Hc. intros [= <-]. rewrite Htg. by intros [= <- <-]. }
  destruct k.
  - apply triple_ret. intros s Hg. exists l. split_and!; [done| |by left]. apply Hgo; cbn; try done; try mem; [exists [x]|exists []; by rewrite app_nil_r]; by repeat constructor.
  - apply triple_ret. intros s Hg. exists l. split_and!; [done| |by left]. apply Hgo; cbn; try done; try mem; [exists []; by rewrite app_nil_r|exists [x]]; by repeat constructor.
  - eapply triple_bind; [apply lookup_got|]. intros ls. apply triple_pure. intros Hls. inversion Hls as [|? o ? os Hx Hos]; subst.
    inversion Hos; subst. destruct o as [loc|]; [|by destruct Hx]. cbn in Hx. destruct (place_content _ _ Hx) as (_ & dx & Hdx & _).
    assert (lc_kind loc = Blob) as Eb by by apply (Hkx _ _ Hdx).
    eapply triple_bind; [apply mark_got; [done|by apply (kind_asked Blob), reach_named]|]. intros u. apply triple_ret. intros s Hg. exists (x :: l). split_and!; [done| |by left].
    apply Hgo; cbn; try done; try mem; [exists []; by rewrite app_nil_r|exists []; by rewrite app_nil_r|].
    intros y [Hy%elem_of_singleton|Hy]%elem_of_union; [subst y; right|by left]. split; [left|]. exists (lc_kind loc), dx. split; [done|]. rewrite Eb. left.
  - apply triple_ret. intros s Hg. exists l. split_and!; [done| |cbn; intros y [Hy|Hy%list_elem_of_singleton]%elem_of_app; [by left|subst y; right; by exists data]].
    apply Hgo; cbn; try done; try mem; [exists []; by rewrite app_nil_r|exists []; by rewrite app_nil_r|].
    intros y [Hy|Hy%list_elem_of_singleton]%elem_of_app; [by left|subst y; by right].
Qed.
Lemma clear_got bd l : pc (got bd l) (clear_mem W) (fun _ => got bd l).
Proof. apply triple_modify. intros s Hg. apply got_mem; [apply mem_default_ok|done]. Qed.
Lemma places_oids ids locs : Forall2 (place cat) ids locs -> Forall (oid_ok hk) ids.
Proof. induction 1 as [|id loc ids locs Hp _ IH]; constructor; [|done]. by destruct (place_content _ _ Hp). Qed.
Lemma peel_got bd fuel ws l done sd : seeded ws l done (sd_tags sd) sd ->
  pc (got bd l) (peel W charge1 others repo fuel sd)
    (fun r s => match r with None => exists t u, t ∈ sd_tags sd /\ nsteps tag_of fuel t u
                | Some sd' => exists l' done', got bd l' s /\ seeded ws l' done' [] sd' end).
Proof.
  revert l done sd. induction fuel as [|f IH]; intros l done sd Hs; cbn [peel].
  { destruct (sd_tags sd) as [|t ts]; apply triple_ret; intros s Hg; [by exists l, done|]. exists t, t. split; [left|constructor]. }
  destruct (decide (sd_tags sd = [])) as [Et|Et].
  { rewrite Et in *. apply triple_ret. intros s Hg. by exists l, done. }
  destruct (sd_tags sd) as [|t ts] eqn:Eq in |- *; [done|]. rewrite <- Eq. clear t ts Eq Et.
  eapply triple_bind; [apply load_got|]. intros locs. apply triple_pure. intros Ho%places_oids.
  set (P := fun (rest : list string) sd1 s => exists l done, got bd l s /\ seeded ws l done (rest ++ sd_tags sd1) sd1 /\ Forall (oid_ok hk) rest
    /\ (forall x, x ∈ rest -> x ∈ sd_tags sd) /\ forall x, x ∈ sd_tags sd1 -> exists t, t ∈ sd_tags sd /\ tag_of t x).
  eapply triple_bind; [eapply triple_pre; [|apply (for_fold_rest P)]|].
  - intros s Hg. exists l, done. split_and!; [done| |done|done|by intros x ?%elem_of_nil]. cbn. rewrite app_nil_r. by destruct Hs; split.
  - intros x rest sd1 s (l1 & done1 & Hg & Hs1 & Hr & Hin & Hof). apply Forall_cons in Hr as [Hx Hr].
    pose proof (peel_one_got bd ws x rest l1 done1 sd1 Hs1 Hx s Hg) as Hstep. destruct (peel_one W sd1 x s) as [s' [sd'|e]]; [|done].
    destruct Hstep as (l' & Hg' & Hs' & Ht'). exists l', (x :: done1). split_and!; [done|done|done|intros y Hy; apply Hin; by right|].
    intros y [Hy|Hy]%Ht'; [auto|]. exists x. split; [apply Hin; left|done].
  - intros sd' s (l1 & done1 & Hg & Hs1 & _ & _ & Hof). pose proof (clear_got bd l1 s Hg) as Hc. unfold mbind, M_bind.
    destruct (clear_mem W s) as [s' [u|e]]; [|done]. pose proof (IH l1 done1 sd' Hs1 s' Hc) as Hrec. destruct (peel _ _ _ _ f sd' s') as [s2 [[sd2|]|e]]; [done| |done].
    destruct Hrec as (x & v & Hx & Hv). destruct (Hof x Hx) as (t & Ht & Htx). exists t, v. split; [done|]. by econstructor.
Qed.

(** ** The excluded side *)

Lemma exclude_got bd l fuel nots fr : pc (got bd l) (exclude W charge1 others repo fuel nots fr)
  (fun r s => got bd l s /\ (fr = [] -> r = Some nots)).
Proof.
  revert nots fr. induction fuel as [|f IH]; intros nots fr; cbn [exclude]; set (new := List.filter _ (sort_dedup fr));
    destruct new as [|c new'] eqn:En; try (apply triple_ret; intros s Hg; split; [done|by intros ->]);
    (assert (fr <> []) as Hne by (intros ->; done)).
  destruct (_ <? _); [by apply triple_fail|]. rewrite <- En. clear c new' En.
  eapply triple_bind; [apply known_got|]. intros here. apply triple_pure. intros _.
  destruct (null here); [apply triple_ret; intros s Hg; split; [done|by intros ->]|].
  eapply triple_bind; [apply load_commits_got|]. intros locs.
  apply triple_pre with (P' := got bd l); [by intros s []|].
  apply (triple_bind _ _ (fun _ => got bd l)).
  - apply (for_fold_inv (fun _ => got bd l) (fun _ => True)); [by apply Forall_true|]. intros x b _. unfold exclude_one.
    destruct (negb _); [by apply triple_ret|]. apply find_got. intros k data _. by apply triple_ret.
  - intros r. eapply triple_post; [|apply IH]. intros r' s [Hg _]. split; [done|]. by intros ->.
Qed.

(** ** The commit walk *)

(** The client: it has what it says, and what its own history reaches. *)
Context (have : string -> Prop).
Record client_ok : Prop := {
  cl_haves : forall x, x ∈ ak_haves a -> have x;
  cl_shallow : forall x, x ∈ ak_shallow a -> have x /\ is_a Commit x;
  cl_closed : forall x y, have x -> cut_links (ak_shallow a) x y -> have y
}.
Context (CL : client_ok).
Section Walking.
Context (acks cs nots : gset string).
Context (HA : forall x, x ∈ acks -> x ∈ ak_haves a) (HC : forall x, x ∈ cs -> x ∈ ak_shallow a).
(** What the walk starts from. *)
Context (sd0 : Seed) (below marked : list string).

Abbreviation named := (ak_wants a ++ ak_shallow a).
(** What is known of a visited commit. *)
Record visited_ok (pend : list string) (k : Walk) (c : string) (data : list Z) (tree : string) : Prop := {
  vo_parents : shallow_mode a = true -> wk_parents k !! c = Some (commit_parent_ids hk data);
  vo_sent : c ∉ acks -> c ∉ cs -> c ∉ nots -> since_boundary a data = false -> c ∈ wk_sent k;
  vo_tree : c ∈ wk_sent k -> c ∈ cs \/ tree ∈ wk_trees k;
  vo_next : shallow_mode a = false -> c ∈ wk_sent k -> c ∉ acks -> c ∉ cs -> c ∉ nots ->
    forall p, p ∈ commit_parent_ids hk data -> p ∈ acks \/ is_Some (wk_depth k !! p) \/ p ∈ pend
}.
(** [pend] are the commits queued. *)
Record walked (l pend : list string) (k : Walk) : Prop := {
  wk_queued : Forall (fun c => is_a Commit c /\ reach named c) pend;
  wk_visited : forall c, is_Some (wk_depth k !! c) -> exists data tree,
    content c = Some (Commit, data) /\ commit_tree_id hk data = Ok tree /\ visited_ok pend k c data tree;
  wk_sent_ok : forall c, c ∈ wk_sent k -> c ∈ l /\ (is_Some (wk_depth k !! c) \/ c ∈ pend);
  wk_cs_ok : forall c, c ∈ wk_cs k -> is_Some (wk_depth k !! c);
  wk_bases_ok : Forall (fun t => have t /\ is_a Tree t) (wk_bases k);
  wk_edge_ok : Forall (fun c => have c /\ is_a Commit c) (wk_edge k);
  wk_trees_ok : Forall (fun t => is_a Tree t /\ reach named t) (wk_trees k);
  wk_start : forall c, c ∈ sd_commits sd0 ++ below -> is_Some (wk_depth k !! c) \/ c ∈ pend;
  wk_marked : forall x, x ∈ marked -> x ∈ l;
  wk_seeds : (forall t, t ∈ sd_trees sd0 -> t ∈ wk_trees k) /\ (forall c, c ∈ sd_sent sd0 -> c ∈ wk_sent k)
}.
(** One visit's effect. *)
Record stepped (c : string) (data : list Z) (l' pend pend' : list string) (k k' : Walk) : Prop := {
  st_depth : exists d, wk_depth k' = <[c := d]> (wk_depth k);
  st_parents : wk_parents k' = if shallow_mode a then <[c := commit_parent_ids hk data]> (wk_parents k) else wk_parents k;
  st_cs : forall x, x ∈ wk_cs k' -> x = c \/ x ∈ wk_cs k;
  st_bases : exists bs, wk_bases k' = wk_bases k ++ bs /\ Forall (fun t => have t /\ is_a Tree t) bs;
  st_edge : exists es, wk_edge k' = wk_edge k ++ es /\ Forall (fun c => have c /\ is_a Commit c) es;
  st_sent : forall x, x ∈ wk_sent k' <-> x ∈ wk_sent k \/ (x = c /\ c ∈ wk_sent k');
  st_marked : c ∈ wk_sent k' -> c ∈ wk_sent k \/ c ∈ l';
  st_trees : exists ts, wk_trees k' = wk_trees k ++ ts /\ Forall (fun t => is_a Tree t /\ reach named t) ts;
  st_pend : forall x, x ∈ pend -> x ∈ pend';
  st_new : forall x, x ∈ pend' -> x ∈ pend \/ (is_a Commit x /\ reach named x)
}.
Lemma walked_step c data tree l l' pend pend' k k' : content c = Some (Commit, data) -> commit_tree_id hk data = Ok tree ->
  (forall x, x ∈ l -> x ∈ l') -> walked l (c :: pend) k -> stepped c data l' pend pend' k k' -> visited_ok pend' k' c data tree -> walked l' pend' k'.
Proof.
  intros Hc Ht Hl [Q1 Q2 Q3 Q4 Q5 Q6 Q7 Q8 Q0 [Q9 Q10]] [(d & S1) S2 S3 (bs & S4 & S4') (es & S5 & S5') S6 S7 (ts & S8 & S8') S9 S10] Hv.
  assert (forall x, is_Some (wk_depth k !! x) -> is_Some (wk_depth k' !! x)) as Hd.
  { intros x Hx. rewrite S1. apply lookup_insert_is_Some. destruct (decide (c = x)); [by left|by right]. }
  split.
  - apply Forall_forall. intros x [Hx|Hx]%S10; [|done]. rewrite Forall_forall in Q1. apply Q1. by right.
  - intros x Hx. destruct (decide (x = c)) as [->|Hne]; [by exists data, tree|]. rewrite S1, lookup_insert_ne in Hx by done.
    destruct (Q2 x Hx) as (dx & tx & E1 & E2 & [V1 V2 V3 V4]). exists dx, tx. split_and!; [done..|].
    assert (x ∈ wk_sent k' -> x ∈ wk_sent k) as Hback by (intros [?|[? _]]%S6; done).
    split.
    + intros Hm. rewrite S2, Hm, lookup_insert_ne by done. by apply V1.
    + intros. apply S6. left. by apply V2.
    + intros Hs. destruct (V3 (Hback Hs)); [by left|right]. rewrite S8. apply elem_of_app. by left.
    + intros Hm Hs H1 H2 H3 p Hp. destruct (V4 Hm (Hback Hs) H1 H2 H3 p Hp) as [?|[?|[->|?]%elem_of_cons]]; [by left|right; left; by apply Hd| |right; right; by apply S9].
      right. left. rewrite S1. by rewrite lookup_insert_eq.
  - intros x Hx. pose proof Hx as Hx'. apply S6 in Hx' as [Hx'|[-> _]].
    + destruct (Q3 x Hx') as [? [?|[->|?]%elem_of_cons]]; (split; [auto|]); [left; by apply Hd|left; rewrite S1; by rewrite lookup_insert_eq|right; by apply S9].
    + split; [|left; rewrite S1; by rewrite lookup_insert_eq]. destruct (S7 Hx) as [Hk|?]; [apply Hl, (Q3 c Hk)|done].
  - intros x [->|Hx]%S3; [rewrite S1; by rewrite lookup_insert_eq|]. by apply Hd, Q4.
  - rewrite S4. by apply Forall_app.
  - rewrite S5. by apply Forall_app.
  - rewrite S8. by apply Forall_app.
  - intros x Hx. destruct (Q8 x Hx) as [?|[->|?]%elem_of_cons]; [left; by apply Hd|left; rewrite S1; by rewrite lookup_insert_eq|right; by apply S9].
  - auto.
  - split; [intros t Ht'; rewrite S8; apply elem_of_app; left; auto|]. intros x Hx. apply S6. left. auto.
Qed.
Lemma commit_links c data tree : content c = Some (Commit, data) -> commit_tree_id hk data = Ok tree ->
  links c = tree :: commit_parent_ids hk data.
Proof. intros Hc Ht. unfold links. by rewrite Hc; cbn; rewrite Ht. Qed.
Lemma have_tree c data tree : content c = Some (Commit, data) -> commit_tree_id hk data = Ok tree -> have c -> have tree.
Proof.
  intros Hc Ht Hh. apply (cl_closed CL c); [done|]. unfold cut_links, kept_links. rewrite Hc, Ht, (commit_links _ _ _ Hc Ht).
  case_bool_decide; left.
Qed.
Lemma client_have c : c ∈ acks \/ c ∈ cs -> have c.
Proof. intros [Hc|Hc]; [by apply (cl_haves CL), HA|by apply (cl_shallow CL), HC]. Qed.
(** The parents of a visited commit, sorted into the queue and the edge. *)
Lemma step_parents d ct ps k :
  let k' := fold_left (step_parent a acks d ct) ps k in
  wk_depth k' = wk_depth k /\ wk_parents k' = wk_parents k /\ wk_cs k' = wk_cs k /\ wk_bases k' = wk_bases k
  /\ wk_sent k' = wk_sent k /\ wk_trees k' = wk_trees k
  /\ (exists es, wk_edge k' = wk_edge k ++ es /\ forall e, e ∈ es -> e ∈ ps /\ e ∈ acks)
  /\ (exists ns, wk_next k' = wk_next k ++ ns /\ (forall e, e ∈ ns -> e.1.1 ∈ ps)
       /\ forall p, p ∈ ps -> (shallow_mode a = false /\ p ∈ acks) \/ p ∈ map (fun e => e.1.1) ns).
Proof.
  revert k. induction ps as [|p ps IH]; intros k; cbn [fold_left].
  { split_and!; try done; exists []; rewrite app_nil_r; (split; [done|]); [|split]; by intros x ?%elem_of_nil. }
  set (k1 := step_parent a acks d ct k p). destruct (IH k1) as (E1 & E2 & E3 & E4 & E5 & E6 & (es & E7 & He) & ns & E8 & Hn & Hp).
  unfold k1, step_parent in *. destruct (shallow_mode a || negb (bool_decide (p ∈ acks))) eqn:Eb; cbn in *; split_and!; try done.
  - exists es. split; [done|]. intros e Hin. destruct (He e Hin). by split; [right|].
  - exists ((p, sat_addu32 d 1, ct) :: ns). rewrite E8, <- app_assoc. split_and!; [done| |].
    + intros e [->|Hin]%elem_of_cons; [left|right; by apply Hn].
    + intros q [->|Hq]%elem_of_cons; [right; left|]. destruct (Hp q Hq); [by left|right; by right].
  - exists (p :: es). rewrite E7, <- app_assoc. split; [done|]. bsimp. intros e [->|Hin]%elem_of_cons; [by split; [left|]|].
    destruct (He e Hin). by split; [right|].
  - exists ns. bsimp. split_and!; [done| |].
    + intros e Hin. right. by apply Hn.
    + intros q [->|Hq]%elem_of_cons; [left; by split|auto].
Qed.
Abbreviation ids_of := (map (fun e : Entry => e.1.1)).
Section Visit.
Context (c : string) (data : list Z) (tree : string) (Hc : content c = Some (Commit, data)) (Ht : commit_tree_id hk data = Ok tree).
Context (Hr : reach named c).
Abbreviation ps := (commit_parent_ids hk data).
Lemma tree_ok : is_a Tree tree /\ reach named tree.
Proof.
  destruct (wt_commit WT _ _ Hc) as [Htt _]. split; [by apply Htt|]. eapply reach_step; [exact Hr|]. rewrite (commit_links _ _ _ Hc Ht). left.
Qed.
Lemma parent_ok p : p ∈ ps -> is_a Commit p /\ reach named p.
Proof.
  intros Hp. destruct (wt_commit WT _ _ Hc) as [_ Hpp]. rewrite Forall_forall in Hpp. split; [by apply Hpp|].
  eapply reach_step; [exact Hr|]. rewrite (commit_links _ _ _ Hc Ht). by right.
Qed.
(** Below a client-shallow commit. *)
Lemma visit_descend d l rest k : descends a cs c d = true -> walked l (c :: rest ++ ids_of (wk_next k)) k ->
  let k' := descend a c tree d ps (visited a c d ps k) in walked l (rest ++ ids_of (wk_next k')) k'.
Proof.
  intros Hd Hw k'. unfold descends in Hd. bsimp. eapply walked_step; [exact Hc|exact Ht|by intros x|exact Hw| |].
  - split; cbn.
    + by exists d.
    + done.
    + mem.
    + exists [tree]. split; [done|]. repeat constructor; [|apply tree_ok]. by eapply have_tree, client_have; [..|right].
    + exists []. by rewrite app_nil_r.
    + intros x. split; [by left|]. by intros [?|[-> ?]].
    + by left.
    + exists []. by rewrite app_nil_r.
    + intros x Hx. rewrite map_app, app_assoc. apply elem_of_app. by left.
    + intros x. rewrite map_app, app_assoc. intros [?|Hx]%elem_of_app; [by left|right]. rewrite map_map in Hx.
      apply elem_of_map in Hx as (p & <- & Hp). by apply parent_ok.
  - split; cbn; try (intros; done).
    + intros ->. by rewrite lookup_insert_eq.
    + by left.
Qed.
(** Any other visit: the commit is on the client's side, sent, or walled ... *)
Definition settled_as (l' : list string) (k1 mid : Walk) : Prop :=
  ((c ∈ acks \/ c ∈ cs) /\ mid = add_base tree k1) \/ (c ∈ l' /\ mid = add_sent c k1)
  \/ ((c ∈ nots \/ since_boundary a data = true) /\ (c ∉ acks) /\ (c ∉ cs) /\ mid = k1).
(** ... and its parents are left alone, or queued. *)
Definition onward (d : Z) (k3 k' : Walk) : Prop :=
  ((c ∈ nots \/ c ∈ cs \/ c ∈ acks \/ shallow_mode a = true) /\ k' = k3) \/ exists ct, k' = fold_left (step_parent a acks d ct) ps k3.
Lemma onward_fields d k3 k' : onward d k3 k' ->
  (wk_depth k' = wk_depth k3 /\ wk_parents k' = wk_parents k3 /\ wk_cs k' = wk_cs k3 /\ wk_bases k' = wk_bases k3
   /\ wk_sent k' = wk_sent k3 /\ wk_trees k' = wk_trees k3)
  /\ exists es ns, wk_edge k' = wk_edge k3 ++ es /\ (forall e, e ∈ es -> e ∈ ps /\ e ∈ acks)
      /\ wk_next k' = wk_next k3 ++ ns /\ (forall e, e ∈ ns -> e.1.1 ∈ ps)
      /\ (shallow_mode a = false -> c ∉ acks -> c ∉ cs -> c ∉ nots -> forall p, p ∈ ps -> p ∈ acks \/ p ∈ ids_of ns).
Proof.
  intros [[Hwall ->]|[ct ->]].
  - split; [done|]. exists [], []. rewrite !app_nil_r. split_and!; try done; [by intros e ?%elem_of_nil..|]. intros. naive_solver congruence.
  - destruct (step_parents d ct ps k3) as (E1 & E2 & E3 & E4 & E5 & E6 & (es & E7 & He) & ns & E8 & Hn & Hp). split; [done|].
    exists es, ns. split_and!; try done. intros _ _ _ _ p Hin. destruct (Hp p Hin) as [[_ ?]|?]; auto.
Qed.
Lemma visit_plain d l l' rest k mid k' : walked l (c :: rest ++ ids_of (wk_next k)) k -> (forall x, x ∈ l -> x ∈ l') ->
  settled_as l' (visited a c d ps k) mid -> onward d (add_tree c tree mid) k' -> walked l' (rest ++ ids_of (wk_next k')) k'.
Proof.
  intros Hw Hl Hm Hk. destruct (onward_fields _ _ _ Hk) as ((F1 & F2 & F3 & F4 & F5 & F6) & es & ns & F7 & He & F8 & Hn & Hp).
  assert (wk_depth mid = <[c := d]> (wk_depth k) /\ wk_parents mid = (if shallow_mode a then <[c := ps]> (wk_parents k) else wk_parents k)
    /\ wk_cs mid = wk_cs k /\ wk_edge mid = wk_edge k /\ wk_next mid = wk_next k /\ wk_trees mid = wk_trees k) as (M1 & M2 & M3 & M4 & M5 & M6).
  { by destruct Hm as [[_ ->]|[[_ ->]|(_ & _ & _ & ->)]]. }
  cbn in F1, F2, F3, F4, F5, F7, F8. rewrite M1 in F1. rewrite M2 in F2. rewrite M3 in F3. rewrite M4 in F7. rewrite M5 in F8.
  assert (forall x, x ∈ wk_sent mid -> x ∈ wk_sent k \/ x = c /\ c ∈ l') as Hs1.
  { destruct Hm as [[_ ->]|[[? ->]|(_ & _ & _ & ->)]]; cbn; mem. }
  assert (forall x, x ∈ wk_sent k -> x ∈ wk_sent mid) as Hs2 by (destruct Hm as [[_ ->]|[[? ->]|(_ & _ & _ & ->)]]; cbn; mem).
  eapply walked_step; [exact Hc|exact Ht|exact Hl|exact Hw| |].
  - split.
    + by exists d.
    + done.
    + rewrite F3. by right.
    + rewrite F4. destruct Hm as [[Hside ->]|[[_ ->]|(_ & _ & _ & ->)]]; cbn; [|exists []; by rewrite app_nil_r..].
      exists [tree]. split; [done|]. repeat constructor; [|apply tree_ok]. by eapply have_tree, client_have.
    + exists es. split; [done|]. apply Forall_forall. intros e [H1 H2]%He. split; [apply client_have; by left|by apply parent_ok].
    + intros x. rewrite F5. split; [intros Hx; destruct (Hs1 x Hx) as [?|[-> _]]; auto|]. intros [?|[-> ?]]; auto.
    + rewrite F5. intros Hx. destruct (Hs1 c Hx) as [?|[_ ?]]; auto.
    + rewrite F6. cbn. rewrite M6. case_bool_decide; [exists [tree]|exists []; by rewrite app_nil_r]. split; [done|]. repeat constructor; apply tree_ok.
    + intros x Hx. rewrite F8, map_app, app_assoc. apply elem_of_app. by left.
    + intros x. rewrite F8, map_app, app_assoc. intros [?|Hx]%elem_of_app; [by left|right]. apply elem_of_map in Hx as (e & <- & Hin).
      apply parent_ok. by apply Hn.
  - split.
    + intros Hsm. rewrite F2, Hsm. by rewrite lookup_insert_eq.
    + rewrite F5. intros N1 N2 N3 N4. destruct Hm as [[[?|?] ->]|[[_ ->]|([?|?] & _ & _ & ->)]]; try done; [cbn; mem|congruence].
    + rewrite F5, F6. intros Hx. right. cbn. rewrite bool_decide_true by done. mem.
    + rewrite F8, map_app, app_assoc. intros Hsm _ N1 N2 N3 p Hin. destruct (Hp Hsm N1 N2 N3 p Hin); [by left|].
      right. right. apply elem_of_app. by right.
Qed.
End Visit.
Lemma visit_got bd c d ct loc rest l k : place cat c loc -> walked l (c :: rest ++ ids_of (wk_next k)) k ->
  pc (got bd l) (visit W a acks cs nots k ((c, d, ct), loc))
    (fun k' s => exists l', got bd l' s /\ walked l' (rest ++ ids_of (wk_next k')) k').
Proof.
  intros Hp Hw. destruct (place_content _ _ Hp) as (Ho & _). pose proof (wk_queued _ _ _ Hw) as Hq. apply Forall_cons in Hq as [[Hk Hr] _].
  unfold visit. apply find_got. intros k0 data Hc. assert (k0 = Commit) as -> by by eapply Hk. rewrite (oid_kind_ok _ Ho).
  apply (triple_bind _ _ (fun t s => got bd l s /\ commit_tree_id hk data = Ok t)).
  { intros s Hg. unfold lift. by destruct (commit_tree_id hk data). }
  intros tree. apply triple_pure. intros Ht. destruct (descends a cs c d) eqn:Ed.
  { apply triple_ret. intros s Hg. exists l. split; [done|]. by apply (visit_descend c data tree Hc Ht Hr). }
  set (k1 := visited a c d (commit_parent_ids hk data) k).
  apply (triple_bind _ _ (fun mid s => exists l', got bd l' s /\ (forall x, x ∈ l -> x ∈ l') /\ settled_as c data tree l' k1 mid)).
  { destruct (bool_decide (c ∈ acks) || bool_decide (c ∈ cs)) eqn:Es.
    - apply triple_ret. intros s Hg. exists l. split_and!; [done..|]. left. split; [|done]. apply orb_true_iff in Es as [?|?]; bsimp; auto.
    - bsimp. destruct (negb _ && negb _) eqn:En.
      + eapply triple_bind; [apply mark_got; [done|by apply (kind_asked Commit)]|]. intros u. apply triple_ret. intros s Hg. exists (c :: l).
        split_and!; [done|by right|]. right. left. by split; [left|].
      + apply triple_ret. intros s Hg. exists l. split_and!; [done..|]. right. right. split_and!; [|done..].
        apply andb_false_iff in En as [?|?]; bsimp; auto. }
  intros mid s (l' & Hg & Hl & Hm).
  set (wall := bool_decide (c ∈ nots) || since_boundary a data || depth_boundary a d ct || bool_decide (c ∈ cs) || (bool_decide (c ∈ acks) && negb (shallow_mode a))).
  assert (forall k', onward c data d (add_tree c tree mid) k' -> walked l' (rest ++ ids_of (wk_next k')) k') as Hdone.
  { intros k' Hk'. by eapply (visit_plain c data tree Hc Ht Hr). }
  destruct wall eqn:Ew; exists l'; (split; [done|]);
    [apply (Hdone (add_tree c tree mid)); left|apply (Hdone (fold_left (step_parent a acks d ct) _ (add_tree c tree mid))); right; by exists ct].
  split; [|done].
  unfold wall in Ew. rewrite !orb_true_iff in Ew. destruct Ew as [[[[?|Hs]|Hd]|?]|Ha]; bsimp; auto; right; right; right; unfold shallow_mode.
  - unfold since_boundary in Hs. destruct (ak_since a); [|done]. cbn. by rewrite orb_true_r.
  - unfold depth_boundary in Hd. bsimp. by rewrite H.
Qed.
Lemma dedup_from_all {A} (f : A -> string) prev xs x : x ∈ map f xs -> x ∈ map f (dedup_from f prev xs) \/ prev = Some x.
Proof.
  revert prev; induction xs as [|y xs IH]; intros prev; cbn [dedup_from map]; [by left|]. rewrite elem_of_cons. case_bool_decide as E.
  - intros [->|Hx]; [by right|]. by apply IH.
  - cbn [map]. rewrite elem_of_cons. intros [->|Hx]; [by left; left|]. destruct (IH (Some (f y)) Hx) as [?|[= ->]]; left; auto.
Qed.
Lemma next_level_ids k x : x ∈ ids_of (wk_next k) -> x ∈ ids_of (next_level k) \/ is_Some (wk_depth k !! x).
Proof.
  intros Hx. destruct (decide (is_Some (wk_depth k !! x))) as [Hd|Hd]; [by right|left]. unfold next_level.
  assert (x ∈ ids_of (dedup_on (fun e => e.1.1) (merge_sort key_le (wk_next k)))) as Hin.
  { unfold dedup_on. destruct (dedup_from_all (fun e : Entry => e.1.1) None (merge_sort key_le (wk_next k)) x) as [?|?]; [|done|done].
    by rewrite (merge_sort_Permutation key_le). }
  apply elem_of_map in Hin as (e & <- & He). apply elem_of_map. exists e. split; [done|]. apply elem_of_filter_b. split; [done|].
  by rewrite bool_decide_false.
Qed.
Lemma next_level_sub k e : e ∈ next_level k -> e ∈ wk_next k.
Proof.
  unfold next_level. intros [He%dedup_from_sub _]%elem_of_filter_b. by rewrite (merge_sort_Permutation key_le) in He.
Qed.
Lemma walked_level l k : walked l (ids_of (wk_next k)) k -> walked l (ids_of (next_level k)) (no_next k).
Proof.
  intros [Q1 Q2 Q3 Q4 Q5 Q6 Q7 Q8 Q0 Q9].
  assert (forall x, is_Some (wk_depth k !! x) \/ x ∈ ids_of (wk_next k) -> is_Some (wk_depth k !! x) \/ x ∈ ids_of (next_level k)) as Hm.
  { intros x [?|Hx%next_level_ids]; [by left|]. destruct Hx; auto. }
  split; cbn; try done.
  - apply Forall_forall. intros x (e & <- & He%next_level_sub)%elem_of_map. rewrite Forall_forall in Q1. apply Q1, elem_of_map. by exists e.
  - intros x Hx. destruct (Q2 x Hx) as (data & tree & ? & ? & [V1 V2 V3 V4]). exists data, tree. split_and!; [done..|]. split; cbn; try done.
    intros H1 H2 H3 H4 H5 p Hp. destruct (V4 H1 H2 H3 H4 H5 p Hp) as [?|Hx']; [by left|right]. by apply Hm.
  - intros x Hx. destruct (Q3 x Hx). auto.
  - auto.
Qed.
Lemma walk_got bd fuel l k : walked l (ids_of (wk_next k)) k ->
  pc (got bd l) (walk W charge1 others repo a acks cs nots fuel k)
    (fun r s => match r with None => True | Some k' => exists l', got bd l' s /\ walked l' [] k' end).
Proof.
  revert l k. induction fuel as [|f IH]; intros l k Hw; cbn [walk].
  { destruct (wk_next k) as [|e es] eqn:En; apply triple_ret; intros s Hg; [by exists l|done]. }
  destruct (decide (wk_next k = [])) as [En|En].
  { rewrite En in *. apply triple_ret. intros s Hg. by exists l. }
  destruct (wk_next k) as [|e es] eqn:Eq in |- *; [done|]. clear e es Eq En.
  destruct (_ <? _); [by apply triple_fail|]. eapply triple_bind; [apply load_commits_got|]. intros locs. apply triple_pure. intros Hp.
  set (P := fun (rest : list (Entry * ObjLoc)) k s => exists l, got bd l s /\ walked l (map (fun e => e.1.1.1) rest ++ ids_of (wk_next k)) k
    /\ Forall (fun e => place cat e.1.1.1 e.2) rest).
  eapply triple_bind; [eapply triple_pre; [|apply (for_fold_rest P)]|].
  - intros s Hg. exists l. split_and!; [done| |].
    + cbn. rewrite app_nil_r. apply walked_level in Hw. revert Hw. apply Forall2_length in Hp. rewrite length_map in Hp.
      assert (map (fun e : Entry * ObjLoc => e.1.1.1) (zip (next_level k) locs) = ids_of (next_level k)) as ->; [|done].
      rewrite <- (map_map fst (fun e : Entry => e.1.1)), fst_zip by lia. done.
    + clear - Hp. remember (ids_of (next_level k)) as ids eqn:Ei. revert Ei. generalize (next_level k) as q. induction Hp as [|x y xs ys Hx _ IH]; intros q Ei.
      * destruct q; [constructor|done].
      * destruct q as [|e q]; [done|]. injection Ei as -> ->. cbn. constructor; [done|]. by apply IH.
  - intros [[[c d] ct] loc] rest k1 s (l1 & Hg & Hw1 & Hf). apply Forall_cons in Hf as [Hx Hf]. cbn in Hw1, Hx.
    pose proof (visit_got bd c d ct loc (map (fun e => e.1.1.1) rest) l1 k1 Hx Hw1 s Hg) as Hstep.
    destruct (visit _ _ _ _ _ _ _ _) as [s' [k'|e]]; [|done]. destruct Hstep as (l' & Hg' & Hw'). by exists l'.
  - intros k' s (l1 & Hg & Hw1 & _). cbn in Hw1. by apply (IH l1 k' Hw1 s Hg).
Qed.

(** ** The trees *)

(** A blob the filter leaves out. *)
Definition filtered (x : string) : Prop :=
  match ak_filter a with
  | Some BlobNone => is_a Blob x
  | Some (BlobLimit n) => exists data, content x = Some (Blob, data) /\ n < Z.of_nat (length data)
  | None => False
  end.
Definition items_ok (items : list (string * list string)) : Prop :=
  Forall (fun it => (is_a Tree it.1 /\ reach named it.1) /\ Forall (fun t => have t /\ is_a Tree t) it.2) items.
(** The client has it, or nobody does. *)
Definition there (x : string) : Prop := have x \/ content x = None.
(** [done] are the trees expanded, [pend] those queued, [blobs] the blobs met. *)
Record grown (l done pend blobs : list string) (seen : gset string) : Prop := {
  gr_done : forall t, t ∈ done -> t ∈ l /\ exists data, content t = Some (Tree, data) /\
    forall e, Ok e ∈ tree_refs hk data -> te_mode e <> MCommit -> there (te_oid e) \/ te_oid e ∈ seen;
  gr_seen : forall x, x ∈ seen -> x ∈ done ++ pend \/ (is_a Blob x /\ (x ∈ l \/ x ∈ blobs \/ filtered x))
    \/ exists k data, content x = Some (k, data) /\ (k = Commit \/ k = Tag);
  gr_blobs : Forall (fun x => is_a Blob x /\ reach named x) blobs;
  gr_start : forall t, t ∈ sd_trees sd0 -> t ∈ done ++ pend
}.
Lemma grown_more l l' done pend blobs seen : (forall x, x ∈ l -> x ∈ l') -> grown l done pend blobs seen -> grown l' done pend blobs seen.
Proof.
  intros Hl [G1 G2 G3 G4]. split; try done.
  - intros t Ht. destruct (G1 t Ht). auto.
  - intros x Hx. destruct (G2 x Hx) as [?|[[? [?|[?|?]]]|?]]; [by left|right; left; split; auto..|by right; right].
Qed.
(** The entries of a tree that was read to its end are its links. *)
Lemma entries_links t data refs : content t = Some (Tree, data) -> tree_refs hk data = map Ok refs ->
  links t = map te_oid (List.filter (fun e => negb (bool_decide (te_mode e = MCommit))) refs).
Proof.
  intros Hc Hr. unfold links. rewrite Hc. cbn. rewrite tree_refs_entries, Hr, map_map. clear.
  assert (collect unpack_err (map (fun e => Ok (bool_decide (te_mode e = MCommit), te_oid e)) refs)
    = Ok (map (fun e => (bool_decide (te_mode e = MCommit), te_oid e)) refs)) as ->.
  { induction refs as [|e refs IH]; [done|]. cbn. by rewrite IH. }
  cbn. rewrite filter_map_b, map_map. done.
Qed.
Lemma expand_entries_refs filter h es f f' : expand_entries filter h es f = Ok f' -> exists refs, es = map Ok refs.
Proof.
  revert f. induction es as [|r es IH]; intros f; cbn [expand_entries]; [by exists []|].
  intros (e & E1 & (f1 & E2 & E3)%rbind_ok)%rbind_ok. destruct (IH _ E3) as [refs ->]. destruct r as [e'|]; [|done].
  injection E1 as ->. by exists (e :: refs).
Qed.
Section Expand.
Context (h : Held) (Hh : forall x, x ∈ hl_had h -> have x \/ is_a Commit x) (Hn : forall n x, hl_by_name h !! n = Some x -> have x /\ is_a Tree x).
Context (l done pend : list string).
(** The front while trees are being expanded. *)
Definition front_ok (f : Front) : Prop :=
  grown l done (pend ++ map fst (fr_next f)) (fr_blobs f) (fr_seen f) /\ items_ok (fr_next f).
Definition typed_entry (e : TreeRef) : Prop :=
  match te_mode e with MTree => is_a Tree (te_oid e) /\ reach named (te_oid e) | MBlob => is_a Blob (te_oid e) /\ reach named (te_oid e) | MCommit => True end.
Lemma grown_add f x next blobs : grown l done (pend ++ map fst (fr_next f)) (fr_blobs f) (fr_seen f) ->
  (forall y, y ∈ map fst (fr_next f) -> y ∈ next) -> (exists bs, blobs = fr_blobs f ++ bs /\ Forall (fun x => is_a Blob x /\ reach named x) bs) ->
  x ∈ next \/ (is_a Blob x /\ (x ∈ blobs \/ filtered x)) -> grown l done (pend ++ next) blobs ({[x]} ∪ fr_seen f).
Proof.
  intros [G1 G2 G3 G4] Hnx (bs & -> & Hbs) Hx. split.
  - intros t Ht. destruct (G1 t Ht) as (? & data & ? & He). split; [done|]. exists data. split; [done|]. intros e E1 E2.
    destruct (He e E1 E2); [by left|right]. apply elem_of_union. by right.
  - intros y [->%elem_of_singleton_1|Hy]%elem_of_union.
    + destruct Hx as [?|[? [?|?]]]; [left; rewrite !elem_of_app; auto|right; left; split; auto..].
    + destruct (G2 y Hy) as [Hd|[[? [?|[?|?]]]|?]]; [|right; left; split; [done|]..|by right; right]; [|by left|right; left; apply elem_of_app; by left|by right; right].
      left. rewrite !elem_of_app in *. destruct Hd as [?|[?|?]]; auto.
  - by apply Forall_app.
  - intros t Ht. specialize (G4 t Ht). rewrite !elem_of_app in *. destruct G4 as [?|[?|?]]; auto.
Qed.
Lemma expand_entry_ok f e f' : front_ok f -> typed_entry e -> expand_entry (ak_filter a) h f e = Ok f' ->
  front_ok f' /\ (te_mode e <> MCommit -> there (te_oid e) \/ te_oid e ∈ fr_seen f') /\ (forall x, x ∈ fr_seen f -> x ∈ fr_seen f').
Proof.
  intros [G I] Hty. unfold expand_entry. destruct (_ || _ || _) eqn:Eb.
  { intros [= <-]. split_and!; [by split| |done]. intros Hm. rewrite !orb_true_iff in Eb. destruct Eb as [[?|Hd]|?]; bsimp; [done|left|by right].
    destruct (Hh _ Hd) as [?|Hk]; [by left|right]. destruct (content (te_oid e)) as [[k data]|] eqn:Ec; [|done].
    pose proof (Hk _ _ Ec) as ->. unfold typed_entry in Hty. destruct (te_mode e); [|done|]; discriminate (proj1 Hty _ _ Ec). }
  bsimp. destruct (_ <? _); [done|]. unfold typed_entry in Hty.
  assert (forall next blobs, front_ok (mkFront ({[te_oid e]} ∪ fr_seen f) next blobs) ->
    front_ok (mkFront ({[te_oid e]} ∪ fr_seen f) next blobs) /\ (te_mode e <> MCommit -> there (te_oid e) \/ te_oid e ∈ fr_seen (mkFront ({[te_oid e]} ∪ fr_seen f) next blobs))
    /\ (forall x, x ∈ fr_seen f -> x ∈ fr_seen (mkFront ({[te_oid e]} ∪ fr_seen f) next blobs))) as Hgo.
  { intros next blobs Hf. split_and!; [done| |]; cbn; intros; [right|]; apply elem_of_union; [left; by apply elem_of_singleton|by right]. }
  destruct (te_mode e) eqn:Em; [|done|].
  - intros [= <-]. apply Hgo. split; cbn.
    + rewrite map_app. apply grown_add; [done|intros; apply elem_of_app; by left|exists []; by rewrite app_nil_r|]. left. apply elem_of_app. right. left.
    + apply Forall_app. split; [done|]. repeat constructor; cbn; [apply Hty..|]. destruct (hl_by_name h !! te_name e) as [b|] eqn:Eb; repeat constructor; by eapply Hn.
  - intros E. assert (filtered (te_oid e) /\ f' = mkFront ({[te_oid e]} ∪ fr_seen f) (fr_next f) (fr_blobs f)
      \/ f' = mkFront ({[te_oid e]} ∪ fr_seen f) (fr_next f) (fr_blobs f ++ [te_oid e])) as [[Hfil ->]| ->].
    { unfold filtered. destruct (ak_filter a) as [[|n]|]; injection E as <-; [left; by split; [apply Hty|]|by right..]. }
    + apply Hgo. split; [|done]. cbn. apply grown_add; [done..|exists []; by rewrite app_nil_r|]. right. split; [apply Hty|by right].
    + apply Hgo. split; [|done]. cbn. apply grown_add; [done..|exists [te_oid e]; split; [done|by repeat constructor; apply Hty]|]. right. split; [apply Hty|].
      left. apply elem_of_app. right. left.
Qed.
Lemma expand_entries_ok refs f f' : front_ok f -> Forall typed_entry refs -> expand_entries (ak_filter a) h (map Ok refs) f = Ok f' ->
  front_ok f' /\ (forall e, e ∈ refs -> te_mode e <> MCommit -> there (te_oid e) \/ te_oid e ∈ fr_seen f') /\ (forall x, x ∈ fr_seen f -> x ∈ fr_seen f').
Proof.
  intros Hf Ht. revert f Hf. induction Ht as [|e refs He Ht IH]; intros f Hf; cbn [map expand_entries].
  { intros [= <-]. split_and!; [done| |done]. by intros e ?%elem_of_nil. }
  intros (e' & [= <-] & (f1 & E1 & E2)%rbind_ok)%rbind_ok. destruct (expand_entry_ok _ _ _ Hf He E1) as (H1 & H2 & H3).
  destruct (IH _ H1 E2) as (H4 & H5 & H6). split_and!; [done| |auto]. intros x [->|Hx]%elem_of_cons Hm; [|auto]. destruct (H2 Hm); auto.
Qed.
End Expand.
Definition held_ok (h : Held) : Prop :=
  (forall x, x ∈ hl_had h -> have x \/ is_a Commit x) /\ forall n x, hl_by_name h !! n = Some x -> have x /\ is_a Tree x.
Lemma tree_refs_all mem t es : mem_ok mem -> oid_ok hk t -> is_a Tree t -> trees_of mem t = Ok es ->
  exists data, content t = Some (Tree, data) /\ tree_refs hk data = map Ok es.
Proof.
  intros Hm Ho Hk (data & E1 & E2)%rbind_ok. destruct (find_content _ _ _ Hm E1) as [k Hc]. assert (k = Tree) as -> by by eapply Hk.
  exists data. split; [done|]. rewrite (oid_kind_ok _ Ho) in E2. apply collect_Forall2 in E2.
  clear - E2. induction E2 as [|r e rs es Hr _ IH]; [done|]. cbn. rewrite IH. destruct r; [|done]. by injection Hr as ->.
Qed.
Lemma held_of_ok mem bases h h' : mem_ok mem -> Forall (fun t => (have t /\ is_a Tree t) /\ oid_ok hk t) bases -> held_ok h ->
  held_of mem bases h = Ok h' -> held_ok h'.
Proof.
  intros Hm Hb. revert h. induction Hb as [|b bases [[Hv Hk] Ho] Hb IH]; intros h Hh; cbn [held_of]; [by intros [= <-]|].
  intros (es & E1 & E2)%rbind_ok. destruct (tree_refs_all _ _ _ Hm Ho Hk E1) as (data & Hc & Hr).
  eapply IH; [|exact E2]. assert (Forall (fun e => te_mode e = MCommit /\ is_a Commit (te_oid e) \/ have (te_oid e) /\ (te_mode e = MTree -> is_a Tree (te_oid e))) es) as He.
  { apply Forall_forall. intros e He. assert (Ok e ∈ tree_refs hk data) as Hin by (rewrite Hr; apply elem_of_map; by exists e).
    pose proof (wt_tree WT _ _ _ Hc Hin) as Hty. destruct (decide (te_mode e = MCommit)) as [Em|Em]; [left; by rewrite Em in Hty|right].
    split; [|intros E; by rewrite E in Hty]. apply (cl_closed CL b); [done|]. unfold cut_links, kept_links. rewrite Hc.
    rewrite (entries_links _ _ _ Hc Hr). apply elem_of_map. exists e. split; [done|]. apply elem_of_filter_b. split; [done|]. by rewrite bool_decide_false. }
  clear - He Hh. revert h Hh. induction He as [|e es He _ IH]; intros h Hh; [done|]. cbn [fold_left]. apply IH. destruct Hh as [H1 H2]. split.
  - cbn. intros x [->%elem_of_singleton_1|Hx]%elem_of_union; [|auto]. destruct He as [[_ ?]|[? _]]; auto.
  - cbn. case_bool_decide as Em; [|done]. intros n x [[_ <-]|[_ ?]]%lookup_insert_Some; [|eauto]. destruct He as [[E _]|[? ?]]; [congruence|]. auto.
Qed.
(** One tree: its entries are the client's or queued, and it is done. *)
Lemma expand_tree_ok mem it l done pend f f' : mem_ok mem -> oid_ok hk it.1 -> Forall (oid_ok hk) it.2 -> items_ok [it] -> it.1 ∈ l ->
  front_ok l done (it.1 :: pend) f -> expand_tree mem it.1 it.2 (ak_filter a) f = Ok f' -> front_ok l (it.1 :: done) pend f'.
Proof.
  intros Hm Ho Hob Hi Hl Hf. apply Forall_cons in Hi as [[[Hk Hr] Hb] _]. intros (h & E1 & (data & E2 & E3)%rbind_ok)%rbind_ok.
  destruct (find_content _ _ _ Hm E2) as [k Hc]. assert (k = Tree) as -> by by eapply Hk. rewrite (oid_kind_ok _ Ho) in E3.
  destruct (expand_entries_refs _ _ _ _ _ E3) as [refs Er]. rewrite Er in E3.
  assert (held_ok h) as [H1 H2].
  { eapply held_of_ok; [exact Hm| | |exact E1]; [|split; cbn; [set_solver|intros n x; by rewrite lookup_empty]].
    rewrite Forall_forall in *. auto. }
  destruct (expand_entries_ok h H1 H2 l done (it.1 :: pend) refs f f' Hf) as ([[G1 G2 G3 G4] I] & He & _); [|exact E3|].
  { apply Forall_forall. intros e Hin. assert (Ok e ∈ tree_refs hk data) as Hin' by (rewrite Er; apply elem_of_map; by exists e).
    pose proof (wt_tree WT _ _ _ Hc Hin') as Hty. unfold typed_entry.
    assert (te_mode e <> MCommit -> reach named (te_oid e)) as Hre.
    { intros Hm'. eapply reach_step; [exact Hr|]. rewrite (entries_links _ _ _ Hc Er). apply elem_of_map. exists e. split; [done|].
      apply elem_of_filter_b. split; [done|]. by rewrite bool_decide_false. }
    destruct (te_mode e); [by split; [|apply Hre]|done|by split; [|apply Hre]]. }
  split; [|done]. split; [|intros x Hx; destruct (G2 x Hx) as [?|[?|?]]; [left; mem|by right; left|by right; right]|done|intros t Ht; specialize (G4 t Ht); mem].
  intros t [->|Ht]%elem_of_cons; [|auto]. split; [done|]. exists data. split; [done|]. rewrite Er. intros e (e' & [= ->] & Hin)%elem_of_map Hme. auto.
Qed.
Lemma mark_all_got bd ids locs l : Forall2 (place cat) ids locs -> Forall (fun x => is_a Tree x /\ reach named x) ids ->
  pc (got bd l) (for_each (zip ids locs) (fun p => mark W p.1 p.2)) (fun _ => got bd (ids ++ l)).
Proof.
  intros Hp. revert l. induction Hp as [|id loc ids locs Hx _ IH]; intros l Hr; [by apply triple_ret|]. apply Forall_cons in Hr as [[Hk1 Hr1] Hr].
  cbn [zip zip_with for_each]. eapply triple_bind; [apply mark_got; [exact Hx|by apply (kind_asked Tree)]|]. intros u. eapply triple_post; [|apply IH, Hr].
  intros u0 s. apply got_sub. mem.
Qed.
Lemma fold_items_got bd l done chunk pend f : Forall (fun it => (oid_ok hk it.1 /\ it.1 ∈ l) /\ Forall (oid_ok hk) it.2) chunk -> items_ok chunk ->
  front_ok l done (map fst chunk ++ pend) f ->
  pc (got bd l) (for_fold (expand_item W a) chunk f) (fun f' s => got bd l s /\ front_ok l (rev (map fst chunk) ++ done) pend f').
Proof.
  intros Ho. revert done f. induction Ho as [|it chunk [[Ho Hl] Hb] _ IH]; intros done f Hi Hf; [by apply triple_ret|].
  apply Forall_cons in Hi as [Hi Hi']. cbn [for_fold map rev]. apply (triple_bind _ _ (fun f' s => got bd l s /\ front_ok l (it.1 :: done) (map fst chunk ++ pend) f')).
  - intros s Hg. unfold expand_item. destruct (expand_tree _ _ _ _ _) as [f'|e] eqn:E; [|done]. split; [done|].
    eapply expand_tree_ok; [by eapply got_mem_ok|exact Ho|exact Hb|by constructor|exact Hl|exact Hf|exact E].
  - intros f'. apply triple_pure. intros Hf'. eapply triple_post; [|by apply IH]. intros f2 s [? Hf2]. split; [done|].
    rewrite <- app_assoc. exact Hf2.
Qed.
Lemma tree_chunk_got bd l done chunk pend f : items_ok chunk -> front_ok l done (map fst chunk ++ pend) f ->
  pc (got bd l) (tree_chunk W charge1 others repo a f chunk)
    (fun f' s => exists l', got bd l' s /\ (forall x, x ∈ l -> x ∈ l') /\ front_ok l' (rev (map fst chunk) ++ done) pend f').
Proof.
  intros Hi [G I]. unfold tree_chunk. eapply triple_bind; [apply load_got|]. intros locs. apply triple_pure. intros Hp.
  apply (triple_bind _ _ (fun _ => got bd (map fst chunk ++ l))).
  { apply mark_all_got; [done|]. apply Forall_map. eapply Forall_impl; [exact Hi|]. by intros it [? _]. }
  intros u. eapply triple_bind; [apply load_got|]. intros blocs. apply triple_pure. intros Hb%places_oids. apply places_oids in Hp.
  eapply triple_bind; [apply (fold_items_got bd (map fst chunk ++ l) done chunk pend f)|].
  - rewrite Forall_map in Hp. rewrite Forall_forall in Hp. rewrite Forall_forall in Hb. apply Forall_forall. intros it Hit. split; [split; [by apply Hp|apply elem_of_app; left; apply elem_of_map; by exists it]|].
    apply Forall_forall. intros b Hbi. apply Hb, sort_dedup_elem. apply list_elem_of_In, in_concat. exists it.2. split; [apply in_map, list_elem_of_In, Hit|by apply list_elem_of_In].
  - done.
  - split; [|done]. eapply grown_more; [|exact G]. mem.
  - intros f'. apply triple_pure. intros Hf'. eapply triple_bind; [apply clear_got|]. intros u'. apply triple_ret. intros s Hg.
    exists (map fst chunk ++ l). split_and!; [done|mem|done].
Qed.
Lemma mark_blob_got bd l x o : looked x o -> is_a Blob x -> reach named x ->
  pc (got bd l) (mark_blob W a (x, o)) (fun _ s => filtered x /\ got bd l s \/ got bd (x :: l) s).
Proof.
  intros Ho Hk Hr. unfold mark_blob. destruct o as [loc|]; [|by intros s Hg]. cbn in Ho.
  apply (triple_bind _ _ (fun y s => got bd l s /\ y = loc)); [by intros s Hg|]. intros y. apply triple_pure. intros ->.
  destruct (place_content _ _ Ho) as (_ & data & Hd & Hz). assert (lc_kind loc = Blob) as Ek by by eapply Hk. rewrite Ek in Hd.
  assert (pc (got bd l) (mark W x loc) (fun _ s => filtered x /\ got bd l s \/ got bd (x :: l) s)) as Hmark.
  { eapply triple_post; [|apply mark_got; [exact Ho|by apply (kind_asked Blob)]]. intros u s Hg. by right. }
  cbn. destruct (ak_filter a) as [[|n]|] eqn:Ef; [exact Hmark| |exact Hmark].
  destruct (Z.ltb_spec n (lc_size loc)); [|exact Hmark]. apply triple_ret. intros s Hg. left. split; [|done].
  unfold filtered. rewrite Ef. exists data. split; [done|lia].
Qed.
Lemma mark_blobs_got bd l bs os : Forall2 looked bs os -> Forall (fun x => is_a Blob x /\ reach named x) bs ->
  pc (got bd l) (for_each (zip bs os) (mark_blob W a)) (fun _ s => exists l', got bd l' s /\ (forall x, x ∈ l -> x ∈ l') /\ forall x, x ∈ bs -> x ∈ l' \/ filtered x).
Proof.
  intros Hf. revert l. induction Hf as [|x o bs os Ho _ IH]; intros l Hb; cbn [zip zip_with for_each].
  { apply triple_ret. intros s Hg. exists l. split_and!; [done..|]. by intros x ?%elem_of_nil. }
  apply Forall_cons in Hb as [[Hk Hr] Hb]. eapply triple_bind; [by apply mark_blob_got|]. intros u s [[Hfl Hg]|Hg].
  - pose proof (IH l Hb s Hg) as H. destruct (for_each _ _ s) as [s' [[]|e]]; [|done]. destruct H as (l' & ? & ? & H3). exists l'. split_and!; [done..|].
    intros y [->|Hy]%elem_of_cons; auto.
  - pose proof (IH (x :: l) Hb s Hg) as H. destruct (for_each _ _ s) as [s' [[]|e]]; [|done]. destruct H as (l' & ? & H2 & H3). exists l'.
    split_and!; [done|intros; apply H2; by right|]. intros y [->|Hy]%elem_of_cons; [left; apply H2; left|auto].
Qed.
Lemma tree_levels_got bd fuel l done items seen : grown l done (map fst items) [] seen -> items_ok items ->
  pc (got bd l) (tree_levels W charge1 others repo a fuel seen items)
    (fun r s => match r with None => True | Some _ => exists l' done' seen', got bd l' s /\ (forall x, x ∈ l -> x ∈ l') /\ grown l' done' [] [] seen'
       /\ forall x, x ∈ done ++ map fst items -> x ∈ done' end).
Proof.
  revert l done items seen. induction fuel as [|f IH]; intros l done items seen G I; cbn [tree_levels].
  { destruct items as [|it items]; apply triple_ret; intros s Hg; [|done]. exists l, done, seen. rewrite app_nil_r. by split_and!. }
  destruct (decide (items = [])) as [->|Hne].
  { apply triple_ret. intros s Hg. exists l, done, seen. rewrite app_nil_r. by split_and!. }
  destruct items as [|it items'] eqn:Ei; [done|]. rewrite <- Ei in *. clear it items' Ei Hne.
  assert (concat (chunks_of (length items) CHUNK items) = items) as Ec by (apply query_chunks_concat; [unfold CHUNK; lia|done]).
  set (P := fun (rest : list (list (string * list string))) fr s => exists l1 done1, got bd l1 s /\ (forall x, x ∈ l -> x ∈ l1)
    /\ front_ok l1 done1 (map fst (concat rest)) fr /\ items_ok (concat rest) /\ forall x, x ∈ done ++ map fst items -> x ∈ done1 ++ map fst (concat rest)).
  eapply triple_bind; [eapply triple_pre; [|apply (for_fold_rest P)]|].
  - intros s Hg. exists l, done. rewrite Ec. split_and!; try done. split; cbn; [|constructor]. by rewrite app_nil_r.
  - intros chunk rest fr s (l1 & done1 & Hg & Hl & Hf & Hi & Hd). cbn [concat] in *. rewrite map_app in *. apply Forall_app in Hi as [Hi1 Hi2].
    pose proof (tree_chunk_got bd l1 done1 chunk _ fr Hi1 Hf s Hg) as Hstep. destruct (tree_chunk _ _ _ _ _ _ _ s) as [s' [f'|e]]; [|done].
    destruct Hstep as (l2 & Hg2 & Hl2 & Hf2). exists l2, (rev (map fst chunk) ++ done1). split_and!; [done|auto|done|done|].
    intros x Hx. specialize (Hd x Hx). rewrite !elem_of_app in *.
    assert (x ∈ rev (map fst chunk) <-> x ∈ map fst chunk) as Hrev by (by rewrite !list_elem_of_In, <- in_rev). tauto.
  - intros fr s (l1 & done1 & Hg & Hl & [Gf If] & _ & Hd). cbn in *. rewrite app_nil_r in Hd. revert s Hg.
    change (pc (got bd l1) (ls ← on_db W (index_lookup (fr_blobs fr)); for_each (zip (fr_blobs fr) ls) (mark_blob W a) ≫= fun _ => tree_levels W charge1 others repo a f (fr_seen fr) (fr_next fr))
      (fun r s => match r with None => True | Some _ => exists l' done' seen', got bd l' s /\ (forall x, x ∈ l -> x ∈ l') /\ grown l' done' [] [] seen'
       /\ forall x, x ∈ done ++ map fst items -> x ∈ done' end)).
    eapply triple_bind; [apply lookup_got|]. intros os. apply triple_pure. intros Ho.
    eapply triple_bind; [apply mark_blobs_got; [exact Ho|exact (gr_blobs _ _ _ _ _ Gf)]|]. intros u s (l2 & Hg2 & Hl2 & Hb).
    assert (grown l2 done1 (map fst (fr_next fr)) [] (fr_seen fr)) as G2.
    { destruct (grown_more _ l2 _ _ _ _ Hl2 Gf) as [G1 G2 G3 G4]. split; [done| |constructor|done]. intros x Hx.
      destruct (G2 x Hx) as [?|[[Hk [?|[Hin|?]]]|?]]; [by left|right; left; split; [done|]; auto..|by right; right].
      destruct (Hb x Hin); auto. }
    pose proof (IH l2 done1 (fr_next fr) (fr_seen fr) G2 If s Hg2) as Hrec. destruct (tree_levels _ _ _ _ _ _ _ _ s) as [s' [[u'|]|e]]; try done.
    destruct Hrec as (l3 & done3 & seen3 & H1 & H2 & H3 & H4). exists l3, done3, seen3. split_and!; [done|auto|done|].
    intros x Hx. apply H4, elem_of_app. left. by apply Hd.
Qed.
Lemma edge_tree_got bd l e bases : have e /\ is_a Commit e -> oid_ok hk e -> Forall (fun t => have t /\ is_a Tree t) bases ->
  pc (got bd l) (edge_tree W bases e) (fun bs s => got bd l s /\ Forall (fun t => have t /\ is_a Tree t) bs).
Proof.
  intros [Hv Hk] Ho Hb. unfold edge_tree. apply find_got. intros k data Hc. assert (k = Commit) as -> by by eapply Hk. rewrite (oid_kind_ok _ Ho).
  intros s Hg. unfold lift, mbind, M_bind, mret, M_ret. destruct (commit_tree_id hk data) as [t|] eqn:Et; cbn; [|done]. split; [done|].
  apply Forall_app. split; [done|]. repeat constructor; [by eapply have_tree|]. destruct (wt_commit WT _ _ Hc) as [Htt _]. by apply Htt.
Qed.
Lemma roots_got bd l k : walked l [] k ->
  pc (got bd l) (roots_of W charge1 others repo k) (fun items s => got bd l s /\ items_ok items /\ forall x, x ∈ map fst items <-> x ∈ wk_trees k).
Proof.
  intros Hw. unfold roots_of. set (edge := take 64 (sort_dedup (wk_edge k))).
  assert (Forall (fun c => have c /\ is_a Commit c) edge) as He.
  { unfold edge. apply Forall_take. apply Forall_forall. intros x Hx. apply (proj1 (sort_dedup_elem _ _)) in Hx. pose proof (wk_edge_ok _ _ _ Hw) as H. rewrite Forall_forall in H. by apply H. }
  eapply triple_bind; [apply load_got|]. intros locs. apply triple_pure. intros Ho%places_oids.
  apply (triple_bind _ _ (fun bs s => got bd l s /\ Forall (fun t => have t /\ is_a Tree t) bs)).
  - apply triple_pre with (P' := fun s => got bd l s /\ Forall (fun t => have t /\ is_a Tree t) (wk_bases k)); [intros s Hg; split; [done|apply (wk_bases_ok _ _ _ Hw)]|].
    apply (for_fold_inv (fun bs s => got bd l s /\ Forall (fun t => have t /\ is_a Tree t) bs) (fun e => (have e /\ is_a Commit e) /\ oid_ok hk e)).
    + apply Forall_forall. rewrite Forall_forall in Ho. rewrite Forall_forall in He. auto.
    + intros e bs [H1 H2]. apply triple_pure. by apply edge_tree_got.
  - intros bases. apply triple_pure. intros Hb. eapply triple_bind; [apply clear_got|]. intros u. apply triple_ret. intros s Hg. split_and!; [done| |].
    + apply Forall_map, Forall_forall. intros t Ht. apply (proj1 (sort_dedup_elem _ _)) in Ht. cbn. pose proof (wk_trees_ok _ _ _ Hw) as H. rewrite Forall_forall in H.
      split; [by apply H|]. apply Forall_take, Forall_forall. intros b Hin. apply (proj1 (sort_dedup_elem _ _)) in Hin. rewrite Forall_forall in Hb. auto.
    + intros x. rewrite map_map, map_id. apply sort_dedup_elem.
Qed.

(** ** Nothing is missing *)

(** A tag behind a tag that the wants reach, not wanted itself. *)
Definition inner (x : string) : Prop := x ∉ ak_wants a /\ exists t, reach (ak_wants a) t /\ tag_of t x.
(** The request cuts the history by time or by refs. *)
Definition cutting : Prop := ak_since a <> None \/ ak_not a <> [].
(** The links an answer is to close: a cut may leave out the commit of a tag. *)
Definition due (bound : list string) (x y : string) : Prop :=
  y ∈ kept_links bound x /\ ~ (cutting /\ is_a Tag x /\ is_a Commit y).
Definition reach_due (bound roots : list string) (x : string) : Prop := exists r, r ∈ roots /\ rtc (due bound) r x.
Section Complete.
Context (HN : ak_not a = [] -> nots = ∅).
Context (peeled : list string) (k : Walk) (l l1 done : list string) (seen : gset string).
Context (SD : seeded (ak_wants a) marked peeled [] sd0) (WK : walked l1 [] k) (GR : grown l done [] [] seen).
Context (HL : forall x, x ∈ l1 -> x ∈ l) (HT : forall t, t ∈ wk_trees k -> t ∈ done).
Context (shallow unshallow : list string).
Context (HB : (shallow, unshallow) = if shallow_mode a then (shallow_of acks cs k, unshallow_of acks cs k) else ([], [])).
Context (HR : forall x, reach (ak_wants a) x -> content x <> None) (HCS : forall x, x ∈ ak_shallow a -> x ∈ cs).

Lemma bound_eq : shallow = (if shallow_mode a then shallow_of acks cs k else []) /\ unshallow = (if shallow_mode a then unshallow_of acks cs k else []).
Proof. destruct (shallow_mode a); by injection HB. Qed.
(** The client's boundary after the answer. *)
Definition new_bound : list string := shallow ++ List.filter (fun c => negb (bool_decide (c ∈ unshallow))) (ak_shallow a).
(** Answered for: the client's, sent, expanded, a blob marked or left out, a tag peeled. *)
Definition good (x : string) : Prop :=
  have x \/ x ∈ wk_sent k \/ x ∈ done \/ (is_a Blob x /\ (x ∈ l \/ filtered x)) \/ (x ∈ peeled /\ (x ∈ ak_wants a \/ inner x)).
Lemma side_good p : client_side acks cs (wk_sent k) p = true -> good p.
Proof.
  unfold client_side. rewrite !orb_true_iff. intros [[H|H]|H]; bsimp; [by right; left|left; apply client_have; by left|left; apply client_have; by right].
Qed.
(** A commit that was visited and not cut off. *)
Lemma visited_good x : is_Some (wk_depth k !! x) -> x ∉ nots -> ak_since a = None -> good x.
Proof.
  intros Hx Hn Hs. destruct (wk_visited _ _ _ WK x Hx) as (data & tree & _ & _ & [_ V _ _]).
  destruct (decide (x ∈ acks)) as [H1|H1]; [left; apply client_have; by left|].
  destruct (decide (x ∈ cs)) as [H2|H2]; [left; apply client_have; by right|].
  right. left. apply V; [done..|]. unfold since_boundary. by rewrite Hs.
Qed.
Lemma good_kept bound x y : y ∈ kept_links bound x -> y ∈ links x.
Proof.
  unfold kept_links, links. destruct (content x) as [[[] data]|]; try done. case_bool_decide; [|done]. cbn.
  destruct (commit_tree_id hk data); [|by intros ?%elem_of_nil]. intros Hz%list_elem_of_singleton; subst. left.
Qed.
Lemma have_good x y : have x -> y ∈ kept_links new_bound x -> good y.
Proof.
  intros Hh Hy. destruct (decide (x ∈ ak_shallow a)) as [Hs|Hs].
  2: { left. apply (cl_closed CL x); [done|]. unfold cut_links, kept_links. apply good_kept in Hy.
       destruct (content x) as [[[] data]|] eqn:Ec; try done. by rewrite bool_decide_false. }
  destruct (content x) as [[kx data]|] eqn:Ec; [|by unfold kept_links, links in Hy; rewrite Ec in Hy; apply elem_of_nil in Hy].
  assert (kx = Commit) as -> by (by eapply (cl_shallow CL)).
  destruct (decide (y ∈ kept_links (ak_shallow a) x)) as [Hk|Hk]; [left; by apply (cl_closed CL x)|].
  unfold kept_links in Hy, Hk. rewrite Ec in Hy, Hk. rewrite bool_decide_true in Hk by done.
  case_bool_decide as Hb; [done|]. assert (x ∈ unshallow) as Hu.
  { destruct (decide (x ∈ unshallow)); [done|]. destruct Hb. apply elem_of_app. right. apply elem_of_filter_b. split; [done|]. by rewrite bool_decide_false. }
  rewrite (proj2 bound_eq) in Hu. destruct (shallow_mode a) eqn:Em; [|by apply elem_of_nil in Hu]. apply elem_of_filter_b in Hu as [Hu1 Hu2].
  apply elem_of_elements in Hu1. apply (wk_cs_ok _ _ _ WK) in Hu1. destruct (wk_visited _ _ _ WK x Hu1) as (data' & tree & Ec' & Et & [V _ _ _]).
  rewrite Ec in Ec'. injection Ec' as <-. rewrite (V Em) in Hu2. rewrite (commit_links _ _ _ Ec Et) in Hy. rewrite Et in Hk.
  apply elem_of_cons in Hy as [->|Hy]; [destruct Hk; left|]. rewrite forallb_forall in Hu2. apply side_good, Hu2. by apply list_elem_of_In.
Qed.
Lemma sent_good x y : x ∈ wk_sent k -> y ∈ kept_links new_bound x -> good y.
Proof.
  intros Hx Hy. destruct (wk_sent_ok _ _ _ WK x Hx) as [_ [Hv|?%elem_of_nil]]; [|done].
  destruct (wk_visited _ _ _ WK x Hv) as (data & tree & Ec & Et & [V1 _ V3 V4]).
  destruct (decide (x ∈ acks \/ x ∈ cs)) as [Hside|Hside]; [eapply have_good; [by apply client_have|done]|].
  assert ((x ∉ acks) /\ (x ∉ cs)) as [N1 N2] by tauto.
  pose proof (good_kept _ _ _ Hy) as Hl. rewrite (commit_links _ _ _ Ec Et) in Hl.
  apply elem_of_cons in Hl as [->|Hp]; [destruct (V3 Hx) as [?|?]; [done|right; right; left; auto]|].
  unfold kept_links in Hy. rewrite Ec in Hy. case_bool_decide as Hb.
  { rewrite Et in Hy. apply list_elem_of_singleton in Hy as ->. destruct (V3 Hx) as [?|?]; [done|right; right; left; auto]. }
  pose proof (proj1 bound_eq) as Hsh. destruct (shallow_mode a) eqn:Em.
  - destruct (client_side acks cs (wk_sent k) y) eqn:Es; [by apply side_good|]. destruct Hb. apply elem_of_app. left. rewrite Hsh. apply elem_of_filter_b.
    split; [by apply elem_of_elements|]. rewrite (V1 eq_refl), !bool_decide_false by done. cbn. apply negb_true_iff, not_true_iff_false.
    intros Hall. rewrite forallb_forall in Hall. rewrite (Hall y) in Es; [done|by apply list_elem_of_In].
  - unfold shallow_mode in Em. bsimp. destruct (ak_since a) as [|] eqn:Esi; [done|]. destruct (ak_not a) as [|] eqn:Eno; [|done].
    assert (y ∉ nots) as Hyn by (rewrite HN by done; set_solver). assert (x ∉ nots) as Hxn by (rewrite HN by done; set_solver).
    destruct (V4 eq_refl Hx N1 N2 Hxn y Hp) as [?|[?|?%elem_of_nil]]; [left; apply client_have; by left|by apply visited_good|done].
Qed.
Lemma tree_good x y : x ∈ done -> y ∈ kept_links new_bound x -> reach (ak_wants a) y -> good y.
Proof.
  intros Hx Hy%good_kept Hry. destruct (gr_done _ _ _ _ _ GR x Hx) as (_ & data & Ec & He).
  assert (exists e, Ok e ∈ tree_refs hk data /\ te_mode e <> MCommit /\ te_oid e = y) as (e & Hin & Hm & <-).
  { unfold links in Hy. rewrite Ec in Hy. cbn in Hy. rewrite tree_refs_entries in Hy.
    destruct (collect unpack_err _) as [es|] eqn:Ecl; [|by apply elem_of_nil in Hy]. apply collect_Forall2 in Ecl.
    apply elem_of_map in Hy as (p & <- & [Hp Hn]%elem_of_filter_b). apply list_elem_of_lookup in Hp as [i Hi].
    destruct (Forall2_lookup_r _ _ _ _ _ Ecl Hi) as (r & Hr & Er). rewrite list_lookup_fmap in Hr.
    destruct (tree_refs hk data !! i) as [[e|]|] eqn:Ei; [|by injection Hr as <-|done]. injection Hr as <-. injection Er as <-.
    exists e. split; [by eapply list_elem_of_lookup_2|]. split; [|done]. cbn in Hn. by bsimp. }
  pose proof (wt_tree WT _ _ _ Ec Hin) as Hty. destruct (He e Hin Hm) as [[?|Hno]|Hs]; [by left|by destruct (HR _ Hry)|].
  destruct (gr_seen _ _ _ _ _ GR _ Hs) as [Hd|[[Hb [?|[?%elem_of_nil|?]]]|(kd & dt & Ek & Hk)]]; [right; right; left; by rewrite app_nil_r in Hd|
    right; right; right; left; auto|done|right; right; right; left; auto|].
  exfalso. destruct (te_mode e); [|done|]; destruct Hk as [-> | ->]; by specialize (Hty _ _ Ek).
Qed.
Lemma tag_good x y : x ∈ peeled -> reach (ak_wants a) x -> due new_bound x y -> good y.
Proof.
  intros Hx Hw [Hy%good_kept Hcut]. pose proof (se_tags _ _ _ _ _ SD) as Ht. rewrite Forall_forall in Ht. specialize (Ht x Hx).
  destruct (content x) as [[kx data]|] eqn:Ec; [|by destruct (HR x Hw)]. assert (kx = Tag) as -> by by eapply Ht.
  assert (exists kt, tag_ref hk data = Ok (kt, y)) as [kt Er].
  { unfold links in Hy. rewrite Ec in Hy. cbn in Hy. rewrite tag_ref_target in Hy. destruct (tag_ref hk data) as [[kt y']|]; cbn in Hy; [|by apply elem_of_nil in Hy].
    apply list_elem_of_singleton in Hy as ->. by exists kt. }
  pose proof (se_done _ _ _ _ _ SD x data kt y Hx Ec Er) as Hat. pose proof (wt_tag WT _ _ _ _ Ec Er) as Hk. destruct kt; cbn in Hat.
  - assert (ak_not a = [] /\ ak_since a = None) as [Eno Esi].
    { unfold cutting in Hcut. destruct (ak_not a), (ak_since a); try done; destruct Hcut; split_and!; try done; (by left) || by right. }
    destruct (wk_start _ _ _ WK y) as [Hv|?%elem_of_nil]; [apply elem_of_app; by left| |done]. apply visited_good; [done| |done]. rewrite HN by done. set_solver.
  - right. right. left. apply HT. by apply (wk_seeds _ _ _ WK).
  - right. right. right. left. split; [done|]. left. apply HL. by apply (wk_marked _ _ _ WK).
  - right. right. right. right. rewrite app_nil_r in Hat. split; [done|]. destruct (decide (y ∈ ak_wants a)); [by left|right]. split; [done|]. exists x. split; [done|]. by exists data.
Qed.
Lemma good_step x y : good x -> due new_bound x y -> reach (ak_wants a) x -> good y.
Proof.
  intros Hg Hd Hrx. pose proof (proj1 Hd) as Hy. assert (reach (ak_wants a) y) as Hry by (eapply reach_step; [exact Hrx|by eapply good_kept]).
  destruct Hg as [H|[H|[H|[[Hb _]|[H1 H2]]]]]; [by eapply have_good|by eapply sent_good|by eapply tree_good| |by eapply tag_good].
  apply good_kept in Hy. unfold links in Hy. destruct (content x) as [[kx data]|] eqn:Ec; [|by apply elem_of_nil in Hy].
  rewrite (Hb _ _ Ec) in Hy. by apply elem_of_nil in Hy.
Qed.
Lemma wants_good w : w ∈ ak_wants a -> good w.
Proof.
  intros Hw. destruct (se_wants _ _ _ _ _ SD w Hw) as (Hl & kw & data & Ec & Hat & Hs). destruct kw; cbn in Hat.
  - right. left. apply (wk_seeds _ _ _ WK). auto.
  - right. right. left. apply HT. by apply (wk_seeds _ _ _ WK).
  - right. right. right. left. split; [intros k' d'; rewrite Ec; by intros [= <- _]|]. left. by apply HL, (wk_marked _ _ _ WK).
  - right. right. right. right. rewrite app_nil_r in Hat. split; [done|by left].
Qed.
Lemma complete x : reach_due new_bound (ak_wants a) x -> x ∈ l \/ have x \/ filtered x \/ inner x.
Proof.
  intros (w & Hw & Hx). assert (good x) as Hg.
  { assert (reach (ak_wants a) w) as Hr by by apply reach_root. pose proof (wants_good w Hw) as Hg. clear Hw.
    induction Hx as [w|w y x Hy _ IH]; [done|]. assert (reach (ak_wants a) y) as Hry by (eapply reach_step; [exact Hr|eapply good_kept, (proj1 Hy)]).
    apply IH; [done|]. by eapply good_step. }
  destruct Hg as [?|[Hs|[Hd|[[_ ?]|[_ [Hw'|?]]]]]]; [auto|left|left|tauto|left|auto].
  - apply HL, (wk_sent_ok _ _ _ WK x Hs).
  - apply (gr_done _ _ _ _ _ GR x Hd).
  - by apply HL, (wk_marked _ _ _ WK), (se_wants _ _ _ _ _ SD).
Qed.
End Complete.

(** ** The parts together *)

Lemma start_walked peeled : seeded (ak_wants a) marked peeled [] sd0 -> (forall x, x ∈ below -> x ∈ ak_shallow a) ->
  walked marked (ids_of (wk_next (walk_start a sd0 below))) (walk_start a sd0 below).
Proof.
  intros [S1 S2 S3 S4 S5 S6 S7 S8] Hb. assert (ids_of (wk_next (walk_start a sd0 below)) = sd_commits sd0 ++ below) as ->.
  { cbn [walk_start wk_next]. generalize (sd_commits sd0 ++ below) as xs. induction xs as [|x xs IH]; [done|]. cbn in *. by rewrite IH. }
  assert (forall x, reach (ak_wants a) x -> reach named x) as Hn by (intros x (r & Hr & Hx); exists r; split; [apply elem_of_app; by left|done]).
  split; cbn.
  - apply Forall_app. split; [eapply Forall_impl; [exact S1|]; intros c []; auto|]. apply Forall_forall. intros c Hc%Hb.
    split; [by apply (cl_shallow CL)|]. apply reach_root, elem_of_app. by right.
  - intros c. rewrite lookup_empty. by intros [].
  - intros c Hc. destruct (S7 c Hc). split; [done|right]. apply elem_of_app. by left.
  - intros c Hc. set_solver.
  - constructor.
  - constructor.
  - eapply Forall_impl; [exact S2|]. intros c []; auto.
  - auto.
  - auto.
  - auto.
Qed.
Lemma start_grown peeled l k trees : seeded (ak_wants a) marked peeled [] sd0 -> walked l [] k -> (forall x, x ∈ trees <-> x ∈ wk_trees k) ->
  grown l [] trees [] (sd_seen sd0).
Proof.
  intros [S1 S2 S3 S4 S5 S6 S7 S8] Hw Ht. split.
  - intros t ?%elem_of_nil. done.
  - intros x Hx. destruct (S6 x Hx) as (Hl & kx & data & Ec & Hat). destruct kx; cbn in Hat.
    + right. right. exists Commit, data. auto.
    + left. apply Ht. by apply (wk_seeds _ _ _ Hw).
    + right. left. split; [intros k' d'; rewrite Ec; by intros [= <- _]|]. left. by apply (wk_marked _ _ _ Hw).
    + right. right. exists Tag, data. auto.
  - constructor.
  - intros t H. apply Ht. by apply (wk_seeds _ _ _ Hw).
Qed.
Lemma follow_tag_got bd l sent r : ak_include_tag a = true -> (forall t, oid_from_hex r.1 = Some t -> tags t) ->
  pc (got bd l) (follow_tag W acks cs sent r) (fun _ => got bd l).
Proof.
  intros Hi Hr. unfold follow_tag. destruct (oid_from_hex r.2) as [p|]; [|by apply triple_ret]. destruct (oid_from_hex r.1) as [t|] eqn:Et; [|by apply triple_ret].
  destruct (client_side _ _ _ _); [|by apply triple_ret]. eapply triple_bind; [apply lookup_got|]. intros ls. apply triple_pure. intros Hl.
  destruct ls as [|[loc|] [|]]; try by apply triple_ret. inversion Hl as [|? ? ? ? Hx]; subst. eapply triple_post; [|apply mark_got].
  - cbn. intros _ s. apply got_sub. intros x Hx'. by right.
  - exact Hx.
  - right. split; [done|]. by apply Hr.
Qed.
Lemma follow_tags_got bd l sent : ak_include_tag a = true -> pc (got bd l) (tags ← gets (fun s => refs_tags (fs_db W s)); for_each tags (follow_tag W acks cs sent)) (fun _ => got bd l).
Proof.
  intros Hi. apply gets_bind. intros rs s [Hg ->].
  assert (pc (got bd l) (for_each (refs_tags (fs_db W s)) (follow_tag W acks cs sent)) (fun _ => got bd l)) as H; [|by apply H].
  apply for_each_got. intros r Hr. apply follow_tag_got; [done|]. intros t Ht. by eapply (sd_names _ (got_db _ _ _ Hg)).
Qed.
(** What an answer is worth. *)
Definition answered (set : SendSet) (s : Fs) : Prop := exists d ents, Plan.sends d (map fst ents) set ents
  /\ Forall asked (map fst ents)
  /\ (forall x, reach_due (new_bound (ss_shallow set) (ss_unshallow set)) (ak_wants a) x -> x ∈ map fst ents \/ have x \/ filtered x \/ inner x)
  /\ (max_subrequests (budget (fs_w W s)) < u32_max ->
      used (budget (fs_w W s)) + Z.of_nat (length (ss_reads set)) <= max_subrequests (budget (fs_w W s))).
Lemma plan_answered shallow unshallow l :
  (forall x, reach_due (new_bound shallow unshallow) (ak_wants a) x -> x ∈ l \/ have x \/ filtered x \/ inner x) ->
  pc (got (shallow, unshallow) l) (plan W budget) answered.
Proof.
  intros Hc s (ids & [I1 I2 I3 I4 I5 I6] & Hl). unfold plan. destruct (plan_reads _ _ _) as [x|e] eqn:E; [|done].
  apply (plan_reads_ok _ CG hk _ _ ids) in E as ([ents He] & Hb & Es & Eu); [|apply (sd_fits _ I1)| |done|done].
  2: { eapply Forall_impl; [exact I4|]. by intros ? []. }
  injection I6 as <- <-. exists (fs_db W s), ents. pose proof (sn_exact _ _ _ _ He) as Hx. split_and!.
  - destruct He as [N1 N2 N3 N4 N5 N6]. by split.
  - apply Forall_forall. intros y Hy%Hx. rewrite Forall_forall in I4. by apply I4.
  - rewrite Es, Eu. intros y Hy. destruct (Hc y Hy) as [?|?]; [left; apply Hx; auto|by right].
  - done.
Qed.
Lemma bounds_got l k : pc (got ([], []) l)
  ((if shallow_mode a then modify (fun s => with_set W (set_bounds (shallow_of acks cs k) (unshallow_of acks cs k) (fs_set W s)) s) else mret tt) : FM unit)
  (fun _ => got (if shallow_mode a then (shallow_of acks cs k, unshallow_of acks cs k) else ([], [])) l).
Proof.
  destruct (shallow_mode a); [|by apply triple_ret]. apply triple_modify. intros s (ids & [I1 [M1 M2 M3] I3 I4 I5 I6] & Hl).
  exists ids. split; [|done]. by split; cbn.
Qed.
Lemma reach_content s bd l x : got bd l s -> reach (ak_wants a) x -> content x <> None.
Proof.
  intros Hg Hx. destruct (got_db _ _ _ Hg) as [F Hl _]. destruct (Hl x Hx) as (p & [r Hr] & _). apply F in Hr.
  destruct (hp_kind HP _ _ _ Hr) as (k & data & -> & _). done.
Qed.
Lemma after_walk_got fuel peeled l k : (ak_not a = [] -> nots = ∅) -> (forall x, x ∈ ak_shallow a -> x ∈ cs) ->
  seeded (ak_wants a) marked peeled [] sd0 -> walked l [] k ->
  pc (got ([], []) l) (after_walk W charge1 budget others repo fuel a acks cs sd0 k)
    (fun r s => match r with None => True | Some set => answered set s end).
Proof.
  intros HN HCS SD WK. unfold after_walk. eapply triple_bind; [apply clear_got|]. intros u0.
  eapply triple_bind; [apply bounds_got|]. intros u1. set (bd := if shallow_mode a then _ else _).
  eapply triple_bind; [by apply (roots_got bd l k)|]. intros items.
  apply triple_pre with (P' := fun s => got bd l s /\ (items_ok items /\ forall x, x ∈ map fst items <-> x ∈ wk_trees k)); [done|].
  apply triple_pure. intros [HI HT].
  eapply triple_bind; [apply (tree_levels_got bd fuel l [] items (sd_seen sd0)); [by eapply start_grown|done]|]. intros [u2|]; [|by apply triple_ret].
  intros s (l' & done' & seen' & Hg & Hl & GR & Hd).
  assert (pc (got bd l') ((if ak_include_tag a then tags ← gets (fun s => refs_tags (fs_db W s)); for_each tags (follow_tag W acks cs (wk_sent k)) else mret tt) ≫= fun _ =>
    failpoint_async W others "fetch.walk.before_plan" ≫= fun _ => set ← plan W budget; mret (Some set))
    (fun r s => match r with None => True | Some set => answered set s end)) as Ht; [|by apply Ht].
  eapply triple_bind; [destruct (ak_include_tag a) eqn:Ei; [by apply follow_tags_got|apply triple_ret; intros ? H; exact H]|]. intros u3.
  eapply triple_bind; [apply failpoint_async_got|]. intros u4.
  apply (triple_bind _ _ answered); [|intros set; by apply triple_ret].
  rewrite (surjective_pairing bd). apply plan_answered. intros x Hx.
  eapply (complete HN peeled k l' l done' seen'); [done|done|done|exact Hl| | |by intros; eapply reach_content|done|exact Hx].
  - intros t Ht. apply Hd. cbn. by apply HT.
  - rewrite <- surjective_pairing. done.
Qed.
End Walking.
Lemma start_got s : sound (fs_db W s) -> got ([], []) [] (with_mem W mem_default (with_set W (walk_set (hash_len hk)) s)).
Proof.
  intros Hs. exists []. split; [|done]. split; cbn; [done| |done|constructor|apply mem_default_ok|done].
  split; [done|apply slices_nil|]. intros _ sha ?%elem_of_nil. done.
Qed.
Lemma known_sub ids : pc (fun s => sound (fs_db W s) /\ obj_kind (fs_db W s) = hk) (on_db W (known ids))
  (fun ks s => (sound (fs_db W s) /\ obj_kind (fs_db W s) = hk) /\ forall x, x ∈ ks -> x ∈ ids).
Proof.
  intros s Hs. unfold on_db, known, mbind, M_bind, index_lookup. cbn.
  destruct (collect (lookup_one (fs_db W s)) ids) as [os|]; cbn; [|done]. split; [done|].
  intros x ([y o] & <- & [Hy _]%elem_of_filter_b)%elem_of_map. by apply elem_of_zip_l in Hy.
Qed.
Lemma below_got bd l (cs : gset string) : (forall x, x ∈ cs -> x ∈ ak_shallow a) ->
  pc (got bd l) ((if infinite a then on_db W (known (elements cs)) else mret []) : FM (list string))
    (fun ks s => got bd l s /\ forall x, x ∈ ks -> x ∈ ak_shallow a).
Proof.
  intros Hc. destruct (infinite a).
  - eapply triple_post; [|apply known_got]. intros ks s [Hg Hk]. split; [done|]. intros x Hx%Hk. apply Hc. by apply elem_of_elements.
  - apply triple_ret. intros s Hg. split; [done|]. intros x ?%elem_of_nil. done.
Qed.
(** The seeded walk: the excluded side, the commits, the trees. *)
Lemma walk_answers fuel (acks : gset string) sd l peeled : (forall x, x ∈ acks -> x ∈ ak_haves a) -> seeded (ak_wants a) l peeled [] sd ->
  let cs : gset string := list_to_set (ak_shallow a) in
  pc (got ([], []) l)
    (failpoint_async W others "fetch.walk.after_wants" ≫= fun _ =>
     clear_mem W ≫= fun _ =>
     ex ← exclude W charge1 others repo fuel ∅ (ak_not a);
     match ex with
     | None => mret None
     | Some nots =>
         below ← (if infinite a then on_db W (known (elements cs)) else mret []);
         wk ← walk W charge1 others repo a acks cs nots fuel (walk_start a sd below);
         match wk with
         | None => mret None
         | Some k => after_walk W charge1 budget others repo fuel a acks cs sd k
         end
     end)
    (fun r s => match r with None => True | Some set => answered set s end).
Proof.
  intros HA SD cs. eapply triple_bind; [apply failpoint_async_got|]. intros u0. eapply triple_bind; [apply clear_got|]. intros u1.
  eapply triple_bind; [apply exclude_got|]. intros [nots|]; [|by apply triple_ret]. apply triple_pure. intros HN.
  assert (forall x, x ∈ cs <-> x ∈ ak_shallow a) as HC by (intros x; apply elem_of_list_to_set).
  eapply triple_bind; [apply below_got; intros x; apply HC|]. intros below. apply triple_pure. intros HB.
  eapply triple_bind; [apply (walk_got acks cs nots HA (fun x => proj1 (HC x)) sd below l)|].
  { eapply start_walked; [done|intros x; apply HC|exact SD|done]. }
  intros [k|]; [|by apply triple_ret]. intros s (l' & Hg & WK). revert s Hg.
  eapply (after_walk_got acks cs nots HA (fun x => proj1 (HC x)) sd below l); [|intros x; apply HC|exact SD|exact WK].
  intros E. specialize (HN E). by injection HN.
Qed.
Lemma send_set_answers fuel : pc (fun s => sound (fs_db W s) /\ obj_kind (fs_db W s) = hk) (send_set W charge1 budget others repo fuel a)
  (fun r s => match r with None => True | Some set => answered set s end).
Proof.
  unfold send_set. eapply triple_bind; [apply known_sub|]. intros hs. apply triple_pure. intros Hh. apply gets_bind. intros hk'.
  apply triple_pre with (P' := fun s => sound (fs_db W s) /\ hk' = hk); [by intros s [[? <-] ?]|]. apply triple_pure. intros ->.
  eapply triple_bind; [apply (triple_modify _ _ (fun _ => got ([], []) [])); apply start_got|]. intros u0.
  eapply triple_bind; [apply seed_got|]. intros sd0 s (l & Hg & SD). revert s Hg.
  eapply triple_bind; [by eapply peel_got|]. intros [sd|]; [|by apply triple_ret]. intros s (l' & peeled & Hg & SD'). revert s Hg.
  eapply walk_answers; [|exact SD']. intros x Hx%elem_of_list_to_set. auto.
Qed.
End Facts.
