(* ===== verification/SendEnds.v ===== *)
(** * A fetch's walk ends

    The walk of generate.rs is four loops.  The excluded side and the commit walk
    stop at [MAX_COMMITS] commits, the tree walk at [MAX_OBJECTS] ids: with more
    fuel than those limits none of the three can run out of it, whatever the store
    holds.  The peeling of tags is bounded by the longest chain of tags only. *)
From S2P Require Import Prelude Errors Db Jobs Cohort GcBase Compact Refs Push Wire Receive Answers Sha Writer Reads Mark MarkFacts.
From S2P Require Import BuildFacts Ingest IngestFacts Generate Plan SendFacts.
Open Scope Z_scope.

Section Ends.
Context {PF : Platform} {PC : PackCodec} {RR : R2} {GO : GitObjects} {GT : GitTrees}.
Context (W : Type) (charge1 : W -> W * result Error unit) (budget : W -> ReqBudget).
Context (others : W -> Db -> W * Db) (repo : string).
Abbreviation Fs := (Fs W).
Abbreviation FM := (M Fs Error).

(** What a computation that answers answers with, from any state. *)
Abbreviation yields m Q := (pc (fun _ => True) m (fun x _ => Q x)).
Definition ends {A} (m : FM (option A)) : Prop := yields m (fun r => r <> None).
Lemma yields_any {S A} (m : M S Error A) : yields m (fun _ => True).
Proof. intros s _. by destruct (m s) as [s' [x|e]]. Qed.
Lemma yields_then {S A B} (m : M S Error A) (f : A -> M S Error B) (Q : A -> Prop) (R : B -> Prop) :
  yields m Q -> (forall x, Q x -> yields (f x) R) -> yields (m ≫= f) R.
Proof. intros Hm Hf. eapply triple_bind; [exact Hm|]. intros x s Hx. by apply (Hf x Hx). Qed.
Lemma yields_fold {S A B} (P : B -> Prop) (f : B -> A -> M S Error B) xs b :
  P b -> (forall b x, x ∈ xs -> P b -> yields (f b x) P) -> yields (for_fold f xs b) P.
Proof.
  revert b. induction xs as [|x xs IH]; intros b Hb Hf; [by apply triple_ret|]. cbn [for_fold].
  eapply yields_then; [apply Hf; [left|exact Hb]|]. intros b' Hb'. apply IH; [done|]. intros b'' y Hy. apply Hf. by right.
Qed.
Lemma located_length d d' ids ls : located ids d = (d', Ok ls) -> length ls = length ids.
Proof.
  unfold located, index_lookup, mbind, M_bind, lift. cbn. destruct (collect (lookup_one d) ids) as [os|] eqn:E1; [|done]. intros [= _ E2].
  apply collect_Forall2, Forall2_length in E1. apply collect_Forall2, Forall2_length in E2.
  rewrite <- E2, <- (length_map fst (zip ids os)), fst_zip by lia. done.
Qed.
Lemma load_commits_length ids : yields (load_commits W charge1 others repo ids) (fun ls => length ls = length ids).
Proof.
  unfold load_commits. apply (yields_then _ _ (fun ls => length ls = length ids)).
  - intros s _. unfold on_db. destruct (located ids (fs_db W s)) as [d [ls|e]] eqn:E; cbn; [by eapply located_length|done].
  - intros ls Hl. eapply yields_then; [apply yields_any|]. intros mem _. eapply yields_then; [apply yields_any|]. intros u _.
    apply triple_ret. intros s _. by rewrite length_map.
Qed.
Lemma size_add_list (X : gset string) (l : list string) (Y : gset string) : (forall x, x ∈ Y -> x ∈ X \/ x ∈ l) ->
  Z.of_nat (size Y) <= Z.of_nat (size X) + Z.of_nat (length l).
Proof.
  intros H. assert (size Y <= size (X ∪ list_to_set l))%nat as H1 by (apply subseteq_size; set_solver).
  pose proof (size_union_alt X (list_to_set l)) as H2.
  assert (size (list_to_set l ∖ X : gset string) <= size (list_to_set l : gset string))%nat as H3 by (apply subseteq_size; set_solver).
  assert (size (list_to_set l : gset string) <= length l)%nat as H4.
  { clear. induction l as [|x l IH]; [cbn; by rewrite size_empty|]. cbn [list_to_set length].
    pose proof (size_union_alt ({[x]} : gset string) (list_to_set l)) as E. rewrite size_singleton in E.
    assert (size (list_to_set l ∖ {[x]} : gset string) <= size (list_to_set l : gset string))%nat by (apply subseteq_size; set_solver). lia. }
  lia.
Qed.
Lemma size_grows (X Y : gset string) x : X ⊆ Y -> x ∈ Y -> x ∉ X -> Z.of_nat (size X) + 1 <= Z.of_nat (size Y).
Proof. intros H1 H2 H3. assert (size X < size Y)%nat; [|lia]. apply subset_size. split; [done|]. set_solver. Qed.

(** ** The excluded side *)

Lemma exclude_one_adds acc cl : yields (exclude_one W acc cl) (fun r => r.1 = {[cl.1]} ∪ acc.1).
Proof.
  unfold exclude_one. destruct (negb _); [by apply triple_ret|]. eapply yields_then; [apply yields_any|]. intros mem _.
  eapply yields_then; [apply yields_any|]. intros data _. by apply triple_ret.
Qed.
Lemma exclude_level nots here locs : length locs = length here ->
  yields (for_fold (exclude_one W) (zip here locs) (nots, [])) (fun r => r.1 = list_to_set here ∪ nots).
Proof.
  generalize (@nil string) as acc. revert nots locs. induction here as [|c here IH]; intros nots locs acc Hl; destruct locs as [|l locs]; try done.
  - apply triple_ret. intros s _. cbn. set_solver.
  - cbn [zip zip_with for_fold]. eapply yields_then; [apply exclude_one_adds|]. intros [n2 acc2] E. cbn in E. subst n2.
    eapply triple_post; [|apply IH; cbn in Hl; lia]. cbn. intros [r1 r2] _ ->. cbn. set_solver.
Qed.
Lemma exclude_ends fuel nots fr : Z.of_nat (size nots) <= MAX_COMMITS -> MAX_COMMITS < Z.of_nat (size nots) + Z.of_nat fuel ->
  ends (exclude W charge1 others repo fuel nots fr).
Proof.
  revert nots fr. induction fuel as [|f IH]; intros nots fr Hn Hf; [lia|]. cbn [exclude]. set (new := List.filter _ (sort_dedup fr)).
  destruct new as [|c new'] eqn:En; [by apply triple_ret|]. rewrite <- En.
  destruct (Z.ltb_spec MAX_COMMITS (Z.of_nat (size nots) + Z.of_nat (length new))) as [|Hlim]; [by apply triple_fail|].
  apply (yields_then _ _ (fun here => forall x, x ∈ here -> x ∈ new)).
  { intros s _. unfold on_db, known, index_lookup, mbind, M_bind, mret, M_ret. cbn. destruct (collect _ new) as [os|]; cbn; [|done].
    intros x ([y o] & <- & [Hy _]%elem_of_filter_b)%elem_of_map. by apply elem_of_zip_l in Hy. }
  intros here Hh. destruct here as [|h here'] eqn:Eh; [by apply triple_ret|]. rewrite <- Eh in *. replace (null here) with false by by subst here.
  eapply yields_then; [apply load_commits_length|]. intros locs Hl. eapply yields_then; [by apply exclude_level|]. intros r E. apply IH.
  - etrans; [|exact Hlim]. apply size_add_list. rewrite E. intros x [Hx%elem_of_list_to_set|Hx]%elem_of_union; auto.
  - assert (h ∉ nots) as Hnew.
    { assert (h ∈ new) as Hin by (apply Hh; subst here; left). unfold new in Hin. apply elem_of_filter_b in Hin as [_ Hin]. by bsimp. }
    assert (Z.of_nat (size nots) + 1 <= Z.of_nat (size r.1)); [|lia].
    apply (size_grows _ _ h); [set_solver| |done]. rewrite E. apply elem_of_union. left. apply elem_of_list_to_set. subst here. left.
Qed.

(** ** The commit walk *)

Section Asked.
Context (a : Ask) (acks cs nots : gset string).
Lemma step_parents_depth d ct ps k : wk_depth (fold_left (step_parent a acks d ct) ps k) = wk_depth k.
Proof. revert k. induction ps as [|p ps IH]; intros k; cbn [fold_left]; [done|]. rewrite IH. unfold step_parent. by destruct (_ || _). Qed.
Lemma visit_depth k c d ct loc : yields (visit W a acks cs nots k ((c, d, ct), loc)) (fun k' => wk_depth k' = <[c := d]> (wk_depth k)).
Proof.
  unfold visit. do 3 (eapply yields_then; [apply yields_any|]; intros ? _). destruct (descends a cs c d); [by apply triple_ret|].
  apply (yields_then _ _ (fun k' => wk_depth k' = <[c := d]> (wk_depth k))).
  - destruct (_ || _); [by apply triple_ret|]. destruct (_ && _); [|by apply triple_ret]. eapply yields_then; [apply yields_any|]. intros u _. by apply triple_ret.
  - intros k2 E. destruct (_ || _); apply triple_ret; intros s _; [|rewrite step_parents_depth]; exact E.
Qed.
Lemma level_depth (q : list Entry) locs k : length locs = length q -> yields (for_fold (visit W a acks cs nots) (zip q locs) k)
  (fun k' => dom (wk_depth k') = (list_to_set (map (fun e : Entry => e.1.1) q) ∪ dom (wk_depth k) : gset string)).
Proof.
  revert locs k. induction q as [|[[c d] ct] q IH]; intros locs k Hl; destruct locs as [|l locs]; try done.
  - apply triple_ret. intros s _. cbn. set_solver.
  - cbn [zip zip_with for_fold]. eapply yields_then; [apply visit_depth|]. intros k1 E. eapply triple_post; [|apply IH; cbn in Hl; lia].
    intros k1' s1 Hk1. cbn in *. rewrite Hk1. clear Hk1 s1. rewrite E, dom_insert_L. cbn. set_solver.
Qed.
Lemma walk_ends fuel k : Z.of_nat (size (wk_depth k)) <= MAX_COMMITS -> MAX_COMMITS < Z.of_nat (size (wk_depth k)) + Z.of_nat fuel ->
  ends (walk W charge1 others repo a acks cs nots fuel k).
Proof.
  revert k. induction fuel as [|f IH]; intros k Hn Hf; [lia|]. cbn [walk].
  destruct (wk_next k) as [|e0 es] eqn:En; [by apply triple_ret|]. clear En.
  destruct (Z.ltb_spec MAX_COMMITS (Z.of_nat (size (wk_depth k)) + Z.of_nat (length (next_level k)))) as [|Hlim]; [by apply triple_fail|].
  eapply yields_then; [apply load_commits_length|]. intros locs Hl. rewrite length_map in Hl.
  destruct (next_level k) as [|e q] eqn:Eq.
  { apply (yields_then _ _ (fun k' => k' = no_next k)); [by apply triple_ret|]. intros k' ->. destruct f; by apply triple_ret. }
  rewrite <- Eq in *. eapply yields_then; [by apply level_depth|]. intros k' E. cbn in E. rewrite <- (size_dom (D := gset string)) in *. apply IH.
  - rewrite <- (size_dom (D := gset string)), E. etrans; [|exact Hlim]. rewrite <- (length_map (fun e : Entry => e.1.1)).
    apply size_add_list. intros x [Hx%elem_of_list_to_set|Hx]%elem_of_union; auto.
  - rewrite <- (size_dom (D := gset string)). assert (Z.of_nat (size (dom (wk_depth k) : gset string)) + 1 <= Z.of_nat (size (dom (wk_depth k') : gset string))); [|lia].
    apply (size_grows _ _ e.1.1); [rewrite E; set_solver| |].
    + rewrite E. apply elem_of_union. left. apply elem_of_list_to_set. rewrite Eq. left.
    + assert (e ∈ next_level k) as Hin by (rewrite Eq; left). unfold next_level in Hin. apply elem_of_filter_b in Hin as [_ Hin]. bsimp.
      by rewrite elem_of_dom.
Qed.

(** ** The tree walk *)

(** What a level does to the front: it adds fresh ids under the limit, or nothing. *)
Definition fresh (seen : gset string) (f : Front) : Prop :=
  seen ⊆ fr_seen f /\ (fr_next f = [] \/ (exists x, x ∈ fr_seen f /\ x ∉ seen) /\ Z.of_nat (size (fr_seen f)) <= MAX_OBJECTS).
Lemma expand_entry_fresh seen h f e f' : fresh seen f -> expand_entry (ak_filter a) h f e = Ok f' -> fresh seen f'.
Proof.
  intros [H1 H2]. unfold expand_entry. destruct (_ || _ || _) eqn:Eb; [by intros [= <-]|]. bsimp. destruct (Z.ltb_spec MAX_OBJECTS (Z.of_nat (size ({[te_oid e]} ∪ fr_seen f)))) as [|Hs]; [done|].
  intros E. assert (fr_seen f' = {[te_oid e]} ∪ fr_seen f) as Es by (by destruct (te_mode e), (ak_filter a) as [[]|]; injection E as <-).
  split; rewrite Es; [set_solver|right]. split; [|done]. exists (te_oid e). set_solver.
Qed.
Lemma expand_entries_fresh seen h es f f' : fresh seen f -> expand_entries (ak_filter a) h es f = Ok f' -> fresh seen f'.
Proof.
  revert f. induction es as [|r es IH]; intros f Hf; cbn [expand_entries]; [by intros [= <-]|].
  intros (e & _ & (f1 & E1 & E2)%rbind_ok)%rbind_ok. eapply IH; [|exact E2]. by eapply expand_entry_fresh.
Qed.
Lemma tree_chunk_fresh seen f chunk : fresh seen f -> yields (tree_chunk W charge1 others repo a f chunk) (fresh seen).
Proof.
  intros Hf. unfold tree_chunk. do 3 (eapply yields_then; [apply yields_any|]; intros ? _).
  apply (yields_then _ _ (fresh seen)); [|intros f' Hf'; eapply yields_then; [apply yields_any|]; intros u _; by apply triple_ret].
  apply yields_fold; [done|]. intros f1 it _ H1 s _. unfold expand_item. destruct (expand_tree _ _ _ _ _) as [f2|] eqn:E; [|done].
  apply rbind_ok in E as (h & _ & (data & _ & E)%rbind_ok). by eapply expand_entries_fresh.
Qed.
Lemma tree_levels_ends fuel seen items : (0 < fuel)%nat -> MAX_OBJECTS < Z.of_nat (size seen) + Z.of_nat fuel ->
  ends (tree_levels W charge1 others repo a fuel seen items).
Proof.
  revert seen items. induction fuel as [|f IH]; intros seen items H0 Hf; [lia|]. cbn [tree_levels]. destruct items as [|it items']; [by apply triple_ret|].
  apply (yields_then _ _ (fresh seen)).
  { apply yields_fold; [split; [done|by left]|]. intros b chunk _ Hb. by apply tree_chunk_fresh. }
  intros fr [H1 H2]. eapply yields_then; [apply yields_any|]. intros ls _. eapply yields_then; [apply yields_any|]. intros u _.
  destruct H2 as [->|[(x & Hx & Hnx) Hs]]; [destruct f; by apply triple_ret|].
  pose proof (size_grows _ _ _ H1 Hx Hnx). apply IH; lia.
Qed.
Lemma after_walk_ends fuel sd k : MAX_OBJECTS < Z.of_nat fuel -> ends (after_walk W charge1 budget others repo fuel a acks cs sd k).
Proof.
  intros Hf. unfold after_walk. do 3 (eapply yields_then; [apply yields_any|]; intros ? _).
  eapply yields_then; [apply tree_levels_ends; unfold MAX_OBJECTS in *; lia|]. intros [u|] Hu; [|done].
  do 3 (eapply yields_then; [apply yields_any|]; intros ? _). by apply triple_ret.
Qed.
End Asked.
End Ends.

(** ** A fetch *)

Section Whole.
Context {PF : Platform} {PC : PackCodec} {RR : R2} {GO : GitObjects} {GT : GitTrees} {GL : GitTreesLaws}.
Context (object : string -> option (list Z)) {RL : R2Laws object}.
Context (W : Type) (charge1 : W -> W * result Error unit) (budget : W -> ReqBudget).
Context (others : W -> Db -> W * Db) (repo : string) (hk : HashKind).
Context (cat : string -> string -> option ObjSql) (CG : catalog_ok cat).
Context (content : string -> option (Kind * list Z)) (HP : honest_packs object repo hk cat content) (WT : well_typed hk content).
Context (a : Ask) (tags : string -> Prop) (OS : forall w d, sound hk cat content a tags d -> sound hk cat content a tags (others w d).2).
Context (have : string -> Prop) (CL : client_ok hk content a have).

(** More than the two limits, and than any chain of tags. *)
Definition enough (fuel : nat) : Prop :=
  MAX_COMMITS < Z.of_nat fuel /\ MAX_OBJECTS < Z.of_nat fuel /\ forall t u, ~ nsteps (tag_of hk content) fuel t u.
Lemma send_set_ends fuel s : enough fuel -> sound hk cat content a tags (fs_db W s) -> obj_kind (fs_db W s) = hk ->
  (send_set W charge1 budget others repo fuel a s).2 <> Ok None.
Proof.
  intros (F1 & F2 & F3) Hs Hk.
  assert (pc (fun s => sound hk cat content a tags (fs_db W s) /\ obj_kind (fs_db W s) = hk) (send_set W charge1 budget others repo fuel a) (fun r _ => r <> None)) as H.
  2: { specialize (H s (conj Hs Hk)). destruct (send_set _ _ _ _ _ _ _ s) as [s' [r|e]]; cbn; congruence. }
  unfold send_set. eapply triple_bind; [eapply known_sub|]. intros hs. apply triple_pure. intros _. apply gets_bind. intros hk'.
  apply triple_pre with (P' := fun s => sound hk cat content a tags (fs_db W s) /\ hk' = hk); [by intros s0 [[? <-] ?]|]. apply triple_pure. intros ->.
  eapply triple_bind; [apply (triple_modify _ _ (fun _ => got W hk cat content a tags ([], []) [])); apply start_got|]. intros u0.
  eapply triple_bind; [eapply seed_got; done|]. intros sd0 s0 (l & Hg & SD). revert s0 Hg.
  eapply triple_bind; [eapply peel_got; done|]. intros [sd|]; [|intros s0 (t & u & _ & Hn); by destruct (F3 t u)].
  apply triple_pre with (P' := fun _ => True); [done|].
  do 2 (eapply yields_then; [apply yields_any|]; intros ? _).
  eapply yields_then; [apply exclude_ends; rewrite size_empty; unfold MAX_COMMITS in *; lia|]. intros [nots|] Hn; [|done].
  eapply yields_then; [apply yields_any|]. intros below _.
  eapply yields_then; [apply walk_ends; cbn; rewrite ?map_size_empty; unfold MAX_COMMITS in *; lia|]. intros [k|] Hw; [|done].
  by apply after_walk_ends.
Qed.


End Whole.
