(* ===== verification/FetchDemo.v ===== *)
(** * A small repository, fetched

    Two commits, their trees and blobs, a tag of the tip and a tag of that tag, in
    one pack: the walk runs on it, and the hypotheses of [fetch_sends_missing] hold
    of it. *)
From S2P Require Import Prelude Errors Db Jobs Cohort GcBase Compact Refs Push Wire Receive Answers Sha Writer Reads Mark MarkFacts.
From S2P Require Import BuildFacts Ingest IngestFacts Generate Plan SendFacts SendEnds.
Open Scope Z_scope.

Module FetchDemo.
#[export] Existing Instance demo_platform.
(** Objects hold digits; [oid n] is the id of digit [n]. *)
Fixpoint rep (n : nat) (c : ascii) : string := match n with O => "" | S m => String c (rep m c) end.
Definition oid (n : Z) : string := rep 40 (hex_digit n).
(** A commit is its tree and its parents, a tree its entries (0 a tree, 1 a
    submodule, 2 a blob) and a tag the kind and its target. *)
Definition mode_of (m : Z) : EntryMode := if m =? 0 then MTree else if m =? 1 then MCommit else MBlob.
Fixpoint entries (data : list Z) : list (result string TreeRef) :=
  match data with
  | [] => []
  | m :: n :: r => Ok (mkTreeRef (mode_of m) (rep 1 (hex_digit n)) (oid n)) :: entries r
  | _ => [Err "tree"]
  end.
Definition tag (data : list Z) : result string (Kind * string) :=
  match data with
  | [k; n] => match kind_of k with Ok k => Ok (k, oid n) | Err _ => Err "kind" end
  | _ => Err "tag"
  end.
#[export] Instance git : GitObjects := {|
  commit_tree_id := fun _ data => match data with t :: _ => Ok (oid t) | [] => Err "commit" end;
  commit_parent_ids := fun _ data => match data with _ :: ps => map oid ps | [] => [] end;
  tree_entries := fun _ data => map (fun r => match r with Ok e => Ok (bool_decide (te_mode e = MCommit), te_oid e) | Err m => Err m end) (entries data);
  tag_target := fun _ data => match tag data with Ok t => Ok t.2 | Err m => Err m end |}.
#[export] Instance trees : GitTrees := {| tree_refs := fun _ data => entries data; tag_ref := fun _ data => tag data |}.
#[export] Instance trees_laws : GitTreesLaws.
Proof. by split. Qed.

(** ** The repository *)

Definition objs : list (string * Obj) := Eval vm_compute in
  [(oid 1, (Commit, [3; 2])); (oid 2, (Commit, [4])); (oid 3, (Tree, [2; 5; 2; 6])); (oid 4, (Tree, [2; 5]));
   (oid 5, (Blob, [1])); (oid 6, (Blob, [2; 2])); (oid 7, (Tag, [1; 1])); (oid 8, (Tag, [4; 7]))].
Definition known_objs : gmap string Obj := list_to_map objs.
Definition content (id : string) : option Obj := known_objs !! id.
Definition entry_of (o : Obj) : list Z := header_write o.1 (Z.of_nat (length o.2)) ++ deflate o.2.
Definition pack : list Z := Eval vm_compute in pack_header 8 ++ concat (map (fun e => entry_of e.2) objs).
Fixpoint rows_from (i off : Z) (os : list (string * Obj)) : list (string * ObjSql) :=
  match os with
  | [] => []
  | (id, (k, data)) :: os' =>
      let len := Z.of_nat (length (entry_of (k, data))) in
      (id, mkObj i off len (git_kind k) (Z.of_nat (length data))) :: rows_from (i + 1) (off + len) os'
  end.
Definition rows : list (string * ObjSql) := Eval vm_compute in rows_from 0 12 objs.
Definition row_map : gmap string ObjSql := list_to_map rows.
Definition cat (s p : string) : option ObjSql := if String.eqb p "pk" then row_map !! s else None.
Definition object (key : string) : option (list Z) := if String.eqb key (key_pack "repo" "pk") then Some pack else None.
#[export] Instance r2 : R2 := {| range_get := fun key off len => Ok ((fun o => slice o off len) <$> object key) |}.
#[export] Instance r2_laws : R2Laws object.
Proof. intros key off len bs _ _ E. cbn in E. destruct (object key) as [o|]; [|done]. exists o. by injection E as <-. Qed.
Definition d0 : Db :=
  on_refs (fun _ => {["refs/tags/v1" := mkRef (oid 7) (Some (oid 1)) 0]})
    (on_packs (fun _ => {["pk" := mkPack Live 8 (Z.of_nat (length pack)) 0 0 None 0 None]})
      (on_objects (fun _ => list_to_map (map (fun r => ((r.1, "pk"), r.2)) rows)) empty_db)).

(** The world is the budget. *)
Definition charge1 (n : nat) : nat * result Error unit := match n with O => (n, Err Budget) | S m => (m, Ok tt) end.
Definition budget (n : nat) : ReqBudget := mkReqBudget 50 (50 - Z.of_nat n) 0 0 false.
Definition others (n : nat) (d : Db) : nat * Db := (n, d).
Definition fuel : nat := (20 + Z.to_nat 1000000)%nat.
Definition start : Fs nat := mkFs nat d0 50%nat set_default mem_default.
Definition fetch (a : Ask) : Fs nat * result Error (option SendSet) := send_set nat charge1 budget others "repo" fuel a start.
(** The tip, for a client that has the other commit. *)
Definition tip : Ask := mkAsk [oid 1] [oid 2] None None None [] false true [].
(** The tag of the tag, for a client that has nothing. *)
Definition outer : Ask := mkAsk [oid 8] [] None None None [] false false [].

(** ** The hypotheses *)

(** What holds of an object holds of each in the list. *)
Lemma content_in id o : content id = Some o -> (id, o) ∈ objs.
Proof. apply elem_of_list_to_map_2. Qed.
Lemma cat_in s p r : cat s p = Some r -> p = "pk" /\ (s, r) ∈ rows.
Proof. unfold cat. destruct (String.eqb_spec p "pk"); [|done]. intros E. split; [done|]. by apply elem_of_list_to_map_2. Qed.
Definition is_ab (k : Kind) (x : string) : bool := match content x with Some (k', _) => bool_decide (k' = k) | None => true end.
Lemma is_ab_spec k x : is_ab k x = true -> is_a content k x.
Proof. unfold is_ab, is_a. intros E k' data Hc. rewrite Hc in E. by bsimp. Qed.
Lemma all_of {A} (f : A -> bool) l : forallb f l = true -> forall x, x ∈ l -> f x = true.
Proof. intros E x Hx. rewrite forallb_forall in E. apply E. by apply list_elem_of_In. Qed.

Lemma catalog : catalog_ok cat.
Proof.
  pose (apart := fun x y : string * ObjSql => String.eqb x.1 y.1 ||
    negb (ob_idx x.2 =? ob_idx y.2) && ((ob_offset x.2 + ob_len x.2 <=? ob_offset y.2) || (ob_offset y.2 + ob_len y.2 <=? ob_offset x.2))).
  assert (forall x y, x ∈ rows -> y ∈ rows -> apart x y = true) as Ha.
  { intros x y Hx Hy. apply (all_of (fun x => forallb (apart x) rows) rows) with (x := x) in Hx; [by eapply all_of|vm_compute; reflexivity]. }
  split.
  - intros s s' p r r' [_ H1]%cat_in [_ H2]%cat_in E. specialize (Ha _ _ H1 H2). unfold apart in Ha. cbn in Ha. rewrite E, Z.eqb_refl in Ha. cbn in Ha.
    rewrite orb_false_r in Ha. by apply String.eqb_eq.
  - intros s p r [_ H1]%cat_in. apply (all_of (fun x : string * ObjSql => (0 <=? ob_idx x.2) && (0 <=? ob_offset x.2) && (0 <? ob_len x.2) && (ob_offset x.2 + ob_len x.2 <=? u64_max))) in H1;
      [|vm_compute; reflexivity]. cbn in H1. rewrite !andb_true_iff, !Z.leb_le, Z.ltb_lt in H1. tauto.
  - intros s s' p r r' [_ H1]%cat_in [_ H2]%cat_in Hne. specialize (Ha _ _ H1 H2). unfold apart in Ha. cbn in Ha.
    destruct (String.eqb_spec s s'); [done|]. cbn in Ha. apply andb_true_iff in Ha as [_ Ha]. rewrite orb_true_iff, !Z.leb_le in Ha. done.
Qed.
Definition row_honest (x : string * ObjSql) : bool :=
  bool_decide (oid_from_hex x.1 = Some x.1) && str_all lower_hex x.1 && (String.length x.1 =? 40)%nat
  && match content x.1 with
     | Some (k, data) => (ob_kind x.2 =? git_kind k) && (ob_size x.2 =? Z.of_nat (length data))
         && match decode_entry (slice pack (ob_offset x.2) (ob_len x.2)) with Ok o => bool_decide (o = (k, data)) | Err _ => false end
     | None => false
     end.
Lemma honest : honest_packs object "repo" Sha1 cat content.
Proof.
  assert (forall x, x ∈ rows -> row_honest x = true) as Hr by (apply all_of; vm_compute; reflexivity).
  split.
  - intros s p r [_ H%Hr]%cat_in. unfold row_honest in H. rewrite !andb_true_iff in H. destruct H as [[[H1 H2] H3] _]. bsimp.
    split_and!; [done|done|]. cbn [fst] in H3. apply Nat.eqb_eq in H3. rewrite H3. done.
  - intros s p r [_ H%Hr]%cat_in. unfold row_honest in H. rewrite !andb_true_iff in H. destruct H as [_ H]. cbn [fst snd] in H.
    destruct (content s) as [[k data]|]; [|done]. exists k, data. rewrite !andb_true_iff, !Z.eqb_eq in H. tauto.
  - intros s p r o kd [-> H%Hr]%cat_in Ho Hd. unfold row_honest in H. rewrite !andb_true_iff in H. destruct H as [_ H]. cbn [fst snd] in H.
    injection Ho as <-. destruct (content s) as [[k data]|]; [|done]. rewrite !andb_true_iff, Hd in H. destruct H as [_ H]. bsimp. congruence.
Qed.
Definition obj_typed (x : string * Obj) : bool :=
  match x.2 with
  | (Commit, data) => match commit_tree_id Sha1 data with Ok t => is_ab Tree t | Err _ => true end && forallb (is_ab Commit) (commit_parent_ids Sha1 data)
  | (Tree, data) => forallb (fun r => match r with
      | Ok e => is_ab (match te_mode e with MTree => Tree | MBlob => Blob | MCommit => Commit end) (te_oid e) | Err _ => true end) (tree_refs Sha1 data)
  | (Tag, data) => match tag_ref Sha1 data with Ok (k, t) => is_ab k t | Err _ => true end
  | (Blob, _) => true
  end.
Lemma typed : well_typed Sha1 content.
Proof.
  assert (forall x, x ∈ objs -> obj_typed x = true) as Ht by (apply all_of; vm_compute; reflexivity).
  split.
  - intros c data H%content_in%Ht. unfold obj_typed in H. cbn [snd] in H. apply andb_true_iff in H as [H1 H2]. split.
    + intros t E. rewrite E in H1. by apply is_ab_spec.
    + apply Forall_forall. intros p Hp. apply is_ab_spec. by apply (all_of _ _ H2).
  - intros t data e H%content_in%Ht He. unfold obj_typed in H. cbn [snd] in H. apply (all_of _ _ H) in He. destruct (te_mode e); by apply is_ab_spec.
  - intros t data k x H%content_in%Ht E. unfold obj_typed in H. cbn [snd] in H. rewrite E in H. by apply is_ab_spec.
Qed.
(** What is reachable stays in a list closed under links. *)
Definition mem_of (l : list string) (x : string) : bool := bool_decide (x ∈ l).
Lemma reach_closed l roots x : forallb (mem_of l) roots = true -> forallb (fun y => forallb (mem_of l) (links Sha1 content y)) l = true ->
  reach Sha1 content roots x -> x ∈ l.
Proof.
  intros Hr Hl (r & Hin & Hx). apply (all_of _ _ Hr) in Hin. unfold mem_of in Hin. apply bool_decide_eq_true_1 in Hin. revert Hin.
  induction Hx as [r|r y x Hy _ IH]; [done|]. intros Hc. apply IH. apply (all_of _ _ Hl) in Hc. apply (all_of _ _ Hc) in Hy.
  unfold mem_of in Hy. by apply bool_decide_eq_true_1 in Hy.
Qed.
Definition rides (t : string) : Prop := t = oid 7.
Lemma sound_d0 a : forallb (mem_of (map fst objs)) (ak_wants a) = true -> sound Sha1 cat content a rides d0.
Proof.
  intros Ha. split.
  - intros s p r E. unfold d0, on_refs, on_packs, on_objects in E. cbn [t_objects] in E. apply elem_of_list_to_map_2 in E.
    apply elem_of_map in E as ([s' r'] & [= <- <- <-] & Hin). change (row_map !! s' = Some r'). apply elem_of_list_to_map_1; [|done].
    apply (bool_decide_eq_true_1 (NoDup rows.*1)). vm_compute. reflexivity.
  - intros x Hx. apply (reach_closed (map fst objs) _ _ Ha) in Hx; [|vm_compute; reflexivity].
    apply (all_of (fun e => bool_decide (is_Some (t_objects d0 !! (e, "pk"))))) in Hx; [|vm_compute; reflexivity].
    exists "pk". split; [by bsimp|]. vm_compute. reflexivity.
  - assert (refs_tags d0 = [(oid 7, oid 1)]) as -> by (vm_compute; reflexivity). intros r t Hr Et. apply list_elem_of_singleton in Hr as ->.
    cbn in Et. by injection Et as <-.
Qed.
Lemma tags_end n t u : ~ nsteps (tag_of Sha1 content) (S (S n)) t u.
Proof.
  assert (forall t x, tag_of Sha1 content t x -> t = oid 8 /\ x = oid 7) as Ht.
  { intros t0 x (data & H%content_in & E).
    apply (all_of (fun e : string * Obj => match e.2 with (Tag, data) => match tag data with Ok (Tag, x) => String.eqb e.1 (oid 8) && String.eqb x (oid 7) | _ => true end | _ => true end)) in H;
      [|vm_compute; reflexivity]. cbn [fst snd] in H. unfold tag_ref, trees in E. rewrite E in H. apply andb_true_iff in H as [H1 H2].
    split; by apply String.eqb_eq. }
  intros H. inversion H as [|? ? y ? H1 H2]; subst. inversion H2 as [|? ? z ? H3 H4]; subst. destruct (Ht _ _ H1) as [_ ->]. destruct (Ht _ _ H3) as [E _].
  revert E. vm_compute. discriminate.
Qed.
Lemma enough_fuel : enough Sha1 content fuel.
Proof.
  unfold enough, fuel, MAX_COMMITS, MAX_OBJECTS. rewrite Nat2Z.inj_add, Z2Nat.id by lia. split_and!; [lia|lia|]. intros t u. apply tags_end.
Qed.
Definition had (x : string) : Prop := x ∈ [oid 2; oid 4; oid 5].
Lemma client : client_ok Sha1 content tip had.
Proof.
  split.
  - intros x Hx. apply list_elem_of_singleton in Hx as ->. left.
  - intros x Hx. by apply elem_of_nil in Hx.
  - intros x y Hx Hy. unfold cut_links in Hy. unfold had in *.
    assert (forallb (fun x => forallb (fun y => bool_decide (y ∈ [oid 2; oid 4; oid 5])) (kept_links Sha1 content [] x)) [oid 2; oid 4; oid 5] = true) as H by (vm_compute; reflexivity).
    apply (all_of _ _ H) in Hx. cbn [ak_shallow tip] in Hy. apply (all_of _ _ Hx) in Hy. by bsimp.
Qed.
(** A client that has nothing and wants the tag of the tag. *)
Lemma newcomer : client_ok Sha1 content outer (fun _ => False).
Proof. split; [intros x Hx; by apply elem_of_nil in Hx..|done]. Qed.
End FetchDemo.
Import FetchDemo.

Definition answer (r : Fs nat * result Error (option SendSet)) : SendSet := match r.2 with Ok (Some x) => x | _ => set_default end.
Lemma answer_eq (r : Fs nat * result Error (option SendSet)) : match r.2 with Ok (Some _) => true | _ => false end = true -> r = (r.1, Ok (Some (answer r))).
Proof. by destruct r as [s [[x|]|e]]. Qed.
#[global] Strategy expand [fetch].

