(* ===== verification/Janitor.v ===== *)
(** * The janitor

    [server/src/jobs/janitor.rs]: one slice expires the pushes left open, kills the
    packs nobody will finish, deletes from R2 what closed pushes and dead packs
    left there, aborts the uploads of dead imports, trims the reflog and looks for
    work for the compaction.  R2 is a parameter; each delete asked of it is noted
    with the database it is asked at. *)
From S2P Require Import Prelude Errors Text Db Scope Jobs Cohort GcBase Compact Refs Push Writer.
Open Scope Z_scope.

Definition BATCH : nat := 400.
Definition GRACE_MS : Z := 3600000.
Definition PUSH_TIMEOUT_MS : Z := 3600000.
Definition REFLOG_KEEP_MS : Z := 90 * 24 * 3600000.

(** A page of an R2 listing: the keys, and the cursor when there is more. *)
Record ListPage : Type := mkPage { pg_keys : list string; pg_next : option string }.
(** What the jobs that clean up ask of R2 and of serde_json: [json_str text field]
    is the string under a field, when the text is JSON and it has one. *)
Class R2Admin (W : Type) : Type := {
  list_page : string -> option string -> W -> W * result Error ListPage;
  delete_keys : list string -> W -> W * result Error unit;
  can_resume : string -> string -> bool;
  abort_upload : string -> string -> W -> W * result Error unit;
  json_str : string -> string -> option string
}.
(** A listing has only keys under its prefix. *)
Class R2AdminLaws (W : Type) `{R2Admin W} : Prop :=
  list_prefix : forall prefix cur w w' pg, list_page prefix cur w = (w', Ok pg) ->
    Forall (fun k => starts_with prefix k = true) (pg_keys pg).

(** ** The statements *)

Definition set_expired (t : Z) (r : PushSql) : PushSql :=
  mkPush PExpired (ps_pack r) (ps_principal r) (ps_began r) (Some t) (ps_epoch r) (ps_result r) (ps_swept r) (ps_scope r) (ps_auth r).
Definition set_swept (t : Z) (r : PushSql) : PushSql :=
  mkPush (ps_state r) (ps_pack r) (ps_principal r) (ps_began r) (ps_ended r) (ps_epoch r) (ps_result r) (Some t) (ps_scope r) (ps_auth r).
Definition set_dead (t : Z) (r : PackSql) : PackSql :=
  mkPack Dead (pk_count r) (pk_bytes r) (pk_lo r) (pk_hi r) (pk_push r) (pk_created r) (Some t).
Definition still_open (r : PushSql) : bool := bool_decide (ps_state r = POpen).
Definition ingesting (r : PackSql) : bool := bool_decide (pk_state r = Ingesting).
Definition expire_push (now : Z) (id : string) (d : Db) : Db :=
  on_pushes (alter (fun r => if still_open r then set_expired now r else r) id) d.
Definition drop_objects (pack : string) (d : Db) : Db := on_objects (filter (fun kv => kv.1.2 <> pack)) d.
Definition kill_pack (now : Z) (id : string) (d : Db) : Db :=
  on_packs (alter (fun r => if ingesting r then set_dead now r else r) id) (drop_objects id d).

Definition stale_pushes (now : Z) (d : Db) : list string :=
  take BATCH (omap (fun kv => if still_open kv.2 && (ps_began kv.2 <? sat_sub64 now PUSH_TIMEOUT_MS) then Some kv.1 else None) (map_to_list (t_pushes d))).
(** [packs p JOIN pushes u ON u.pack_id = p.id]. *)
Definition failed_push (r : PushSql) : bool := bool_decide (ps_state r = PExpired) || bool_decide (ps_state r = PRejected).
Definition failed_packs (d : Db) : list string :=
  take BATCH (omap (fun kv : string * PushSql =>
    match ps_pack kv.2 with
    | Some p => match t_packs d !! p with Some r => if ingesting r && failed_push kv.2 then Some p else None | None => None end
    | None => None
    end) (map_to_list (t_pushes d))).
Definition owner_open (d : Db) (push : string) : bool := match t_pushes d !! push with Some u => still_open u | None => false end.
Definition abandoned (now : Z) (d : Db) (r : PackSql) : bool :=
  ingesting r && (pk_created r <? sat_sub64 now PUSH_TIMEOUT_MS)
  && match pk_push r with Some u => negb (owner_open d u) | None => false end.
Definition orphaned_packs (now : Z) (d : Db) : list string :=
  take BATCH (omap (fun kv => if abandoned now d kv.2 then Some kv.1 else None) (map_to_list (t_packs d))).
(** Steps 1 and 2. *)
Definition close_stale (now : Z) (d : Db) : Db := fold_left (fun d id => expire_push now id d) (stale_pushes now d) d.
Definition kill_failed (now : Z) (d : Db) : Db := fold_left (fun d id => kill_pack now id d) (failed_packs d) d.
Definition kill_orphaned (now : Z) (d : Db) : Db := fold_left (fun d id => kill_pack now id d) (orphaned_packs now d) d.

Definition began_le (a b : string * PushSql) : Prop := ps_began a.2 <= ps_began b.2.
#[global] Instance began_le_dec : RelDecision began_le.
Proof. intros a b. unfold began_le. apply _. Defined.
Definition unswept (now : Z) (r : PushSql) : bool :=
  negb (still_open r) && (ps_began r <? sat_sub64 now GRACE_MS) && negb (is_some (ps_swept r)).
Definition to_sweep (now : Z) (d : Db) : list string :=
  map fst (take BATCH (merge_sort began_le (List.filter (fun kv => unswept now kv.2) (map_to_list (t_pushes d))))).
Definition died (r : PackSql) : Z := unwrap_or 0 (pk_dead_at r).
Definition dead_le (a b : string * PackSql) : Prop := died a.2 <= died b.2.
#[global] Instance dead_le_dec : RelDecision dead_le.
Proof. intros a b. unfold dead_le. apply _. Defined.
(** [state='dead' AND dead_at < ?]: NULL is not less. *)
Definition past_grace (now : Z) (r : PackSql) : bool :=
  bool_decide (pk_state r = Dead) && match pk_dead_at r with Some t => t <? sat_sub64 now GRACE_MS | None => false end.
Definition has_objects (d : Db) (pack : string) : bool := existsb (fun kv => String.eqb kv.1.2 pack) (map_to_list (t_objects d)).
Definition dead_packs (now : Z) (d : Db) : list string :=
  map fst (take BATCH (merge_sort dead_le (List.filter (fun kv => past_grace now kv.2 && negb (has_objects d kv.1)) (map_to_list (t_packs d))))).
Definition dead_imports (d : Db) : list JobSql := take BATCH (List.filter (fun r => String.eqb (jb_kind r) "import_pack" && in_state JDead r) (t_jobs d)).
(** The first [n] entries older than the limit go. *)
Fixpoint trim_reflog (n : nat) (limit : Z) (l : list ReflogSql) : list ReflogSql :=
  match n, l with
  | S m, r :: l' => if rl_at r <? limit then trim_reflog m limit l' else r :: trim_reflog n limit l'
  | _, _ => l
  end.

(** ** The slice *)

(** The import's staging tables, which [Db] leaves out: a row is its table and its
    push. *)
Definition STAGING : list string := ["push_links"; "import_toc"; "import_parts"; "import_open"; "import_tail"].

Section Slice.
Context `{Platform} (W : Type) `{R2Admin W}.
Context (charge1 : W -> W * result Error unit) (clock : W -> Z) (spent : W -> bool) (others : W -> Db -> W * Db).
Record Jn : Type := mkJn { jn_db : Db; jn_staged : list (string * string); jn_w : W; jn_deletes : list (Db * list string) }.
Abbreviation JM := (M Jn Error).
Definition jn_dw (d : Db) (w : W) (s : Jn) : Jn := mkJn d (jn_staged s) w (jn_deletes s).
Definition jdb {A} (m : DoM A) : JM A := fun s => let r := m (jn_db s) in (jn_dw r.1 (jn_w s) s, r.2).
Definition jworld {A} (m : W -> W * result Error A) : JM A := fun s => let r := m (jn_w s) in (jn_dw (jn_db s) r.1 s, r.2).
(** [m.await], its error in hand: the others have run. *)
Definition jawait {A} (m : W -> W * result Error A) : JM (result Error A) := fun s =>
  let r := m (jn_w s) in
  let wd := others r.1 (jn_db s) in (jn_dw wd.2 wd.1 s, Ok r.2).
Definition jdelete (keys : list string) : JM (result Error unit) := fun s =>
  jawait (delete_keys keys) (mkJn (jn_db s) (jn_staged s) (jn_w s) (jn_deletes s ++ [(jn_db s, keys)])).
Definition jspent : JM bool := gets (fun s => spent (jn_w s)).
Definition drop_staged (push : string) : JM unit := modify (fun s =>
  mkJn (jn_db s) (fold_left (fun l t => List.filter (fun row => negb (String.eqb row.1 t && String.eqb row.2 push)) l) STAGING (jn_staged s)) (jn_w s) (jn_deletes s)).
Definition beat (job : Job) : JM unit :=
  ok ← (fun s => jdb (heartbeat (clock (jn_w s)) job) s);
  if (ok : bool) then mret tt else fail stale_lease.

(** [for _ in 0..8]: whether the prefix counts as swept, and the failures. *)
Fixpoint sweep_pages (pages : nat) (prefix : string) (cur : option string) (fails : Z) : JM (bool * Z) :=
  match pages with
  | O => mret (true, fails)
  | S n =>
      sp ← jspent;
      if (sp : bool) then mret (false, fails)
      else
        jworld charge1 ≫= fun _ =>
        page ← jawait (list_page prefix cur);
        match (page : result Error ListPage) with
        | Err _ => mret (false, fails + 1)
        | Ok pg =>
            ok ← (if bool_decide (pg_keys pg = []) then mret true
                  else jworld charge1 ≫= fun _ =>
                       r ← jdelete (pg_keys pg);
                       mret (match (r : result Error unit) with Ok _ => true | Err _ => false end));
            if negb ok then mret (false, fails + 1)
            else match pg_next pg with
                 | Some c => sweep_pages n prefix (Some c) fails
                 | None => mret (true, fails)
                 end
        end
  end.
Definition PAGES : nat := 8.
Definition pending_prefix (repo push : string) : string := "r/" +:+ repo +:+ "/pending/" +:+ push +:+ ".".
Definition swept (now : Z) (id : string) : JM unit := drop_staged id ≫= fun _ => jdb (modify (on_pushes (alter (set_swept now) id))).
(** [None]: the budget is spent, the slice goes on later. *)
Fixpoint sweep_pushes (now : Z) (job : Job) (ids : list string) (fails : Z) : JM (option Z) :=
  match ids with
  | [] => mret (Some fails)
  | id :: ids' =>
      sp ← jspent;
      if (sp : bool) then mret None
      else
        repo ← jdb (meta "repo_id");
        r ← sweep_pages PAGES (pending_prefix repo id) None fails;
        (if (r.1 : bool) then swept now id else mret tt) ≫= fun _ =>
        beat job ≫= fun _ => sweep_pushes now job ids' r.2
  end.
Fixpoint delete_packs (job : Job) (ids : list string) (fails : Z) : JM (option Z) :=
  match ids with
  | [] => mret (Some fails)
  | id :: ids' =>
      sp ← jspent;
      if (sp : bool) then mret None
      else
        repo ← jdb (meta "repo_id");
        jdb (failpoint "janitor.before_r2_delete") ≫= fun _ =>
        jworld charge1 ≫= fun _ =>
        r ← jdelete [key_pack repo id];
        fails' ← match (r : result Error unit) with
                 | Ok _ => jdb (modify (on_packs (delete id))) ≫= fun _ => mret fails
                 | Err _ => mret (fails + 1)
                 end;
        beat job ≫= fun _ => delete_packs job ids' fails'
  end.
Definition upload_of (cursor : option string) : option string :=
  match cursor ≫= fun c => json_str c "upload" with Some u => if str_empty u then None else Some u | None => None end.
Fixpoint drop_imports (jobs : list JobSql) (fails : Z) : JM (option Z) :=
  match jobs with
  | [] => mret (Some fails)
  | j :: jobs' =>
      sp ← jspent;
      if (sp : bool) then mret None
      else
        let drop := jdb (modify (delete_jobs (fun r => jb_id r =? jb_id j))) in
        kept ← match json_str (jb_payload j) "pack", upload_of (jb_cursor j) with
               | Some pack, Some upload =>
                   repo ← jdb (meta "repo_id");
                   if can_resume (key_pack repo pack) upload then
                     jworld charge1 ≫= fun _ =>
                     r ← jawait (abort_upload (key_pack repo pack) upload);
                     mret (match (r : result Error unit) with Ok _ => false | Err _ => true end)
                   else mret false
               | _, _ => mret false
               end;
        if (kept : bool) then drop_imports jobs' (fails + 1)
        else drop ≫= fun _ => drop_imports jobs' fails
  end.
Definition run_slice (job : Job) : JM SliceOutcome :=
  now ← gets (fun s => clock (jn_w s));
  jdb (modify (close_stale now)) ≫= fun _ =>
  jdb (modify (kill_failed now)) ≫= fun _ =>
  jdb (modify (kill_orphaned now)) ≫= fun _ =>
  pend ← jdb (gets (to_sweep now));
  f1 ← sweep_pushes now job pend 0;
  match f1 with
  | None => mret (Continue "{}")
  | Some n1 =>
      dead ← jdb (gets (dead_packs now));
      f2 ← delete_packs job dead n1;
      match f2 with
      | None => mret (Continue "{}")
      | Some n2 =>
          js ← jdb (gets dead_imports);
          f3 ← drop_imports js n2;
          match f3 with
          | None => mret (Continue "{}")
          | Some n3 =>
              jdb (modify (on_reflog (trim_reflog BATCH (sat_sub64 now REFLOG_KEEP_MS)))) ≫= fun _ =>
              (fun s => (fst (jdb (trigger (clock (jn_w s))) s), Ok tt)) ≫= fun _ =>
              if 0 <? n3 then fail (Storage (z_to_string n3 +:+ " R2 deletes failed")) else mret Done
          end
      end
  end.
End Slice.
