(* ===== verification/JanitorFacts.v ===== *)
(** * What the janitor leaves alone

    A slice is a run of steps that spare what is in use, with the others between
    them; and what it deletes from R2 is, when it asks, of a closed push or of a pack
    dead past its grace with no object left in the index. *)
From S2P Require Import Prelude Errors Text Db Scope Jobs Cohort GcBase Compact Refs Push Writer Janitor.
Open Scope Z_scope.

Section Facts.
(** [old] are the ids of packs that were in use before. *)
Context (now : Z) (old : string -> Prop) (NOW : i64_min <= now).

(** ** What is in use *)

Definition closed (d : Db) (id : string) : Prop := exists r, t_pushes d !! id = Some r /\ ps_state r <> POpen.
(** A pack that may go: dead past the grace if it is still there, and not indexed. *)
Definition gone (d : Db) (p : string) : Prop :=
  (forall r, t_packs d !! p = Some r -> past_grace now r = true) /\ forall s, t_objects d !! (s, p) = None.
Definition young (r : PushSql) : Prop := ps_state r = POpen /\ sat_sub64 now PUSH_TIMEOUT_MS <= ps_began r.
(** No push that failed names the pack. *)
Definition unfailed (d : Db) (p : string) : Prop := forall u ru, t_pushes d !! u = Some ru -> ps_pack ru = Some p -> failed_push ru = false.
(** A pack being written: a collector's, or that of a push still open and young. *)
Definition claimed (d : Db) (p : string) (r : PackSql) : Prop :=
  pk_state r = Ingesting /\ unfailed d p /\
  match pk_push r with None => True | Some u => exists ru, t_pushes d !! u = Some ru /\ young ru end.
Definition in_use (d : Db) (p : string) : Prop := exists r, t_packs d !! p = Some r /\ (pk_state r = Live \/ claimed d p r).
Definition kept_pack (d d' : Db) (p : string) : Prop := t_packs d' !! p = t_packs d !! p /\ forall s, t_objects d' !! (s, p) = t_objects d !! (s, p).
(** A step of the janitor's: refs and young pushes stay as they are, and packs in
    use with their objects; a pack dead for less than the grace keeps its row. *)
Record spares (d d' : Db) : Prop := {
  sp_refs : t_refs d' = t_refs d;
  sp_young : forall id r, t_pushes d !! id = Some r -> young r -> t_pushes d' !! id = Some r;
  sp_packs : forall p, in_use d p -> kept_pack d d' p;
  sp_dead : forall p r, t_packs d !! p = Some r -> pk_state r = Dead -> past_grace now r = false -> t_packs d' !! p = Some r
}.
(** What no step undoes: a closed push stays closed, the id of a pack that is gone is
    not used again, no pack is marked as dead in the past, the repository keeps its
    name.  A pack with a new id may appear at any time. *)
Record settles (d d' : Db) : Prop := {
  se_closed : forall id, closed d id -> closed d' id;
  se_gone : forall p, old p -> gone d p -> gone d' p;
  se_grace : forall p r', t_packs d' !! p = Some r' -> past_grace now r' = true -> exists r, t_packs d !! p = Some r /\ past_grace now r = true;
  se_repo : t_meta d' !! "repo_id" = t_meta d !! "repo_id"
}.
#[global] Instance settles_preorder : PreOrder settles.
Proof.
  split; [intros d; split; eauto|]. intros a b c [H1 H2 H3 H4] [H5 H6 H7 H8]. split; [auto|auto| |congruence].
  intros p r Hr Hg. destruct (H7 p r Hr Hg) as (r1 & Hr1 & Hg1). by apply (H3 p r1).
Qed.
Definition tidy (d d' : Db) : Prop := spares d d' /\ settles d d'.

(** ** The statements are tidy *)

Lemma quiet_tidy d d' : quiet d d' -> t_meta d' = t_meta d -> tidy d d'.
Proof.
  intros ([_ _ _ Fo _ Fp _] & Er & Ep) Em. unfold refs_eq, packs_eq in *. split; split; unfold closed, gone, kept_pack.
  - done.
  - intros id r. by rewrite Fp.
  - intros p _. by rewrite Ep, Fo.
  - intros p r. by rewrite Ep.
  - intros id. by rewrite Fp.
  - intros p. by rewrite Ep, Fo.
  - intros p r'. rewrite Ep. eauto.
  - by rewrite Em.
Qed.
Lemma expire_tidy d id r : t_pushes d !! id = Some r -> ps_began r < sat_sub64 now PUSH_TIMEOUT_MS ->
  tidy d (expire_push now id d).
Proof.
  intros Hr Hb. unfold expire_push. split; split; cbn.
  - done.
  - intros id' r' Hr' [_ Hy]. rewrite lookup_alter_ne; [done|]. intros <-. rewrite Hr in Hr'. injection Hr' as ->. lia.
  - done.
  - done.
  - intros id' (r' & Hr' & Hc). unfold closed. cbn. destruct (decide (id = id')) as [<-|Hne]; [|exists r'; by rewrite lookup_alter_ne].
    rewrite lookup_alter_eq, Hr'. cbn. exists (if still_open r' then set_expired now r' else r'). split; [done|]. by destruct (still_open r').
  - done.
  - eauto.
  - done.
Qed.
Lemma drop_objects_lookup p d s q : t_objects (drop_objects p d) !! (s, q) = if decide (q = p) then None else t_objects d !! (s, q).
Proof.
  unfold drop_objects, on_objects. cbn [t_objects]. rewrite map_lookup_filter. destruct (t_objects d !! (s, q)) as [o|]; cbn; [|by destruct (decide _)].
  destruct (decide (q = p)) as [->|Hne]; [rewrite option_guard_False by naive_solver|rewrite option_guard_True by done]; done.
Qed.
(** Why a pack is killed. *)
Definition lost (d : Db) (p : string) (r : PackSql) : Prop :=
  pk_state r <> Live /\ (~ unfailed d p \/ exists u, pk_push r = Some u /\ owner_open d u = false).
Lemma lost_unused d p r : t_packs d !! p = Some r -> lost d p r -> ~ in_use d p.
Proof.
  intros Hr [Hn Hl] (r' & Hr' & Hu). rewrite Hr in Hr'. injection Hr' as <-. destruct Hu as [Hv|(Hi & Hf & Hc)]; [done|].
  destruct Hl as [Hl|(u & Eu & Ho)]; [done|]. rewrite Eu in Hc. destruct Hc as (ru & Hru & [Hy _]). unfold owner_open, still_open in Ho. rewrite Hru in Ho. by bsimp.
Qed.
Lemma kill_tidy d p r : t_packs d !! p = Some r -> lost d p r -> tidy d (kill_pack now p d).
Proof.
  intros Hr Hl. pose proof (lost_unused d p r Hr Hl) as Hnu.
  assert (forall q, q <> p -> t_packs (kill_pack now p d) !! q = t_packs d !! q) as Hne by (intros q Hq; unfold kill_pack; cbn; by rewrite lookup_alter_ne).
  split; split.
  - done.
  - done.
  - intros q Hq. assert (q <> p) as Hqp by (intros ->; done). split; [by apply Hne|]. intros s. change (t_objects (drop_objects p d) !! (s, q) = t_objects d !! (s, q)).
    rewrite drop_objects_lookup. by destruct (decide (q = p)).
  - intros q rq Hq Hd _. destruct (decide (q = p)) as [->|Hqp]; [|by rewrite (Hne q Hqp)]. unfold kill_pack. cbn. rewrite lookup_alter_eq. change (t_packs (drop_objects p d)) with (t_packs d).
    rewrite Hq. cbn. unfold ingesting. rewrite Hd. done.
  - done.
  - intros q _ [G1 G2]. split.
    + intros rq. destruct (decide (q = p)) as [->|Hqp]; [|rewrite (Hne q Hqp); apply G1]. unfold kill_pack. cbn. rewrite lookup_alter_eq. change (t_packs (drop_objects p d)) with (t_packs d).
      intros (r0 & E0 & ->)%fmap_Some_1. pose proof (G1 _ E0) as Hp. destruct (ingesting r0) eqn:Ei; [|done]. unfold past_grace, ingesting in *. bsimp. congruence.
    + intros s. change (t_objects (drop_objects p d) !! (s, q) = None). rewrite drop_objects_lookup. by destruct (decide (q = p)).
  - intros q rq. destruct (decide (q = p)) as [->|Hqp]; [|rewrite (Hne q Hqp); eauto]. unfold kill_pack. cbn. rewrite lookup_alter_eq. change (t_packs (drop_objects p d)) with (t_packs d).
    intros (r0 & E0 & ->)%fmap_Some_1 Hg. exists r0. split; [done|]. destruct (ingesting r0); [|done]. exfalso. unfold past_grace in Hg. cbn in Hg.
    apply Z.ltb_lt in Hg. unfold sat_sub64, sat64, i64_min, i64_max, GRACE_MS in *. lia.
  - done.
Qed.
Lemma swept_tidy d id : closed d id -> tidy d (on_pushes (alter (set_swept now) id) d).
Proof.
  intros (r & Hr & Hc). split; split; cbn.
  - done.
  - intros id' r' Hr' [Hy _]. rewrite lookup_alter_ne; [done|]. intros <-. congruence.
  - done.
  - done.
  - intros id' (r' & Hr' & Hc'). unfold closed. cbn. destruct (decide (id = id')) as [<-|Hne]; [|exists r'; by rewrite lookup_alter_ne].
    rewrite lookup_alter_eq, Hr'. cbn. by exists (set_swept now r').
  - done.
  - eauto.
  - done.
Qed.
Lemma drop_pack_tidy d p : gone d p -> tidy d (on_packs (delete p) d).
Proof.
  intros [G1 G2]. split; split.
  - done.
  - done.
  - intros q (r & Hq & Hu). assert (q <> p) as Hqp.
    { intros ->. specialize (G1 r Hq). unfold past_grace in G1. bsimp. destruct Hu as [|[? _]]; congruence. }
    split; [|done]. cbn. by rewrite lookup_delete_ne.
  - intros q r Hq _ Hg. cbn. rewrite lookup_delete_ne; [done|]. intros <-. rewrite (G1 r Hq) in Hg. done.
  - done.
  - intros q _ [H1 H2]. split; [|done]. cbn. intros r [_ E]%lookup_delete_Some. by apply H1.
  - cbn. intros q r [_ E]%lookup_delete_Some. eauto.
  - done.
Qed.

(** ** Runs *)

Section Run.
Context {PF : Platform} {W : Type} {RA : R2Admin W} {RL : R2AdminLaws W}.
Context (charge1 : W -> W * result Error unit) (clock : W -> Z) (spent : W -> bool) (others : W -> Db -> W * Db).
(** The others never reopen a push, revive a dead pack or rename the repository. *)
Context (OS : forall w d, settles d (others w d).2).
Definition step (d d' : Db) : Prop := spares d d' \/ exists w, d' = (others w d).2.
Definition path (d d' : Db) : Prop := rtc step d d' /\ settles d d'.
#[local] Instance path_preorder : PreOrder path.
Proof. split; [by intros d|]. intros a b c [H1 H2] [H3 H4]. split; by etrans. Qed.
Lemma tidy_path d d' : tidy d d' -> path d d'.
Proof. intros [H1 H2]. split; [apply rtc_once; by left|done]. Qed.
Lemma others_path w d : path d (others w d).2.
Proof. split; [apply rtc_once; right; by exists w|apply OS]. Qed.
(** What R2 may be asked to delete. *)
Definition permitted (d : Db) (key : string) : Prop := exists repo, t_meta d !! "repo_id" = Some repo /\
  ((exists id, closed d id /\ starts_with (pending_prefix repo id) key = true) \/ exists p, key = key_pack repo p /\ gone d p).
Definition asked (x : Db * list string) : Prop := Forall (permitted x.1) x.2.
Abbreviation Jn := (Jn W).
Record run (s s' : Jn) : Prop := {
  rn_path : path (jn_db W s) (jn_db W s');
  rn_asked : exists more, jn_deletes W s' = jn_deletes W s ++ more /\ Forall asked more
}.
#[local] Instance run_preorder : PreOrder run.
Proof.
  split; [intros s; split; [done|exists []; by rewrite app_nil_r]|]. intros a b c [H1 (m1 & E1 & A1)] [H3 (m2 & E2 & A2)].
  split; [by etrans|]. exists (m1 ++ m2). rewrite E2, E1, app_assoc. split; [done|]. by apply Forall_app.
Qed.

(** The sweeps of one table. *)
Lemma fold_path (f : string -> Db -> Db) (C : Db -> string -> Prop) ids d : (forall d id, C d id -> tidy d (f id d)) ->
  (forall d id id', C d id -> C d id' -> C (f id d) id') -> Forall (C d) ids -> path d (fold_left (fun d id => f id d) ids d).
Proof.
  intros Ht Hk. revert d. induction ids as [|id ids IH]; intros d Hc; [done|]. apply Forall_cons in Hc as [Hc Hcs]. cbn.
  etrans; [by apply tidy_path, Ht|]. apply IH. eapply Forall_impl; [exact Hcs|]. intros id' Hc'. by apply Hk.
Qed.
Lemma Forall_take_omap {A B} (P : B -> Prop) (g : A -> option B) n l : (forall x y, x ∈ l -> g x = Some y -> P y) -> Forall P (take n (omap g l)).
Proof. intros Hg. apply Forall_take, Forall_forall. intros y (x & Hx & E)%list_elem_of_omap. by eapply Hg. Qed.
Lemma close_stale_path d : path d (close_stale now d).
Proof.
  apply (fold_path (expire_push now) (fun d id => exists r, t_pushes d !! id = Some r /\ ps_began r < sat_sub64 now PUSH_TIMEOUT_MS)).
  - intros d0 id (r & Hr & Hb). by eapply expire_tidy.
  - intros d0 id id' _ (r & Hr & Hb). unfold expire_push. cbn. destruct (decide (id = id')) as [<-|Hne]; [|exists r; by rewrite lookup_alter_ne].
    rewrite lookup_alter_eq, Hr. cbn. eexists. split; [done|]. by destruct (still_open r).
  - apply Forall_take_omap. intros [id r] y Hin%elem_of_map_to_list. cbn. destruct (still_open r && _) eqn:E; [|done]. intros [= <-]. exists r. bsimp. done.
Qed.
Definition to_kill (d : Db) (p : string) : Prop := exists r, t_packs d !! p = Some r /\ lost d p r.
Lemma kills_path ids d : Forall (to_kill d) ids -> path d (fold_left (fun d id => kill_pack now id d) ids d).
Proof.
  apply (fold_path (kill_pack now) to_kill).
  - intros d0 id (r & Hr & Hl). by eapply kill_tidy.
  - intros d0 id id' _ (r & Hr & Hn & Hl). unfold to_kill, kill_pack. cbn. change (t_packs (drop_objects id d0)) with (t_packs d0).
    destruct (decide (id = id')) as [<-|Hne]; [|exists r; rewrite lookup_alter_ne by done; by split].
    rewrite lookup_alter_eq, Hr. cbn. eexists. split; [done|]. destruct (ingesting r); by split.
Qed.
Lemma kill_failed_path d : path d (kill_failed now d).
Proof.
  apply kills_path, Forall_take_omap. intros [u ru] y Hin%elem_of_map_to_list. cbn. destruct (ps_pack ru) as [p|] eqn:Ep; [|done].
  destruct (t_packs d !! p) as [r|] eqn:Er; [|done]. destruct (ingesting r && failed_push ru) eqn:E; [|done]. intros [= <-]. exists r. split; [done|].
  apply andb_true_iff in E as [E1 E2]. unfold ingesting in E1. bsimp. split; [congruence|left]. intros Hu. by rewrite (Hu u ru Hin Ep) in E2.
Qed.
Lemma kill_orphaned_path d : path d (kill_orphaned now d).
Proof.
  apply kills_path, Forall_take_omap. intros [p r] y Hin%elem_of_map_to_list. cbn. unfold abandoned. destruct (_ && _) eqn:E; [|done]. intros [= <-].
  exists r. split; [done|]. apply andb_true_iff in E as [E1 E2]. unfold ingesting in E1. bsimp. split; [congruence|right].
  destruct (pk_push r) as [u|]; [|done]. exists u. by bsimp.
Qed.

(** ** The slice *)

Lemma jdb_run {A} (m : DoM A) : rel_ok path m -> rel_ok run (jdb W m).
Proof. intros Hm s. split; [apply Hm|]. exists []. by rewrite app_nil_r. Qed.
Lemma quiet_path {A} (m : DoM A) : rel_ok quiet m -> (forall d, t_meta (m d).1 = t_meta d) -> rel_ok path m.
Proof. intros Hq Hm d. apply tidy_path, quiet_tidy; [apply Hq|apply Hm]. Qed.
Lemma jworld_run {A} (m : W -> W * result Error A) : rel_ok run (jworld W m).
Proof. intros s. split; [done|]. exists []. by rewrite app_nil_r. Qed.
Lemma jawait_run {A} (m : W -> W * result Error A) : rel_ok run (jawait W others m).
Proof. intros s. split; [apply others_path|]. exists []. by rewrite app_nil_r. Qed.
Lemma jdelete_run keys s : Forall (permitted (jn_db W s)) keys -> run s (jdelete W others keys s).1.
Proof. intros Hk. split; [apply others_path|]. exists [(jn_db W s, keys)]. split; [done|]. by constructor. Qed.
Lemma drop_staged_run push : rel_ok run (drop_staged W push).
Proof. intros s. split; [done|]. exists []. by rewrite app_nil_r. Qed.
Lemma update_jobs_quiet_db p f d : quiet d (update_jobs p f d).
Proof. apply (update_jobs_quiet p f d). Qed.
Lemma beat_run job : rel_ok run (beat W clock job).
Proof.
  unfold beat. apply rel_ok_bind; [apply _| |intros []; apply rel_ok_pure, _]. intros s. apply (jdb_run (heartbeat (clock (jn_w W s)) job)).
  apply quiet_path; [|done]. intros d. apply update_jobs_quiet_db.
Qed.
Lemma meta_run k : rel_ok run (jdb W (meta k)).
Proof. apply jdb_run, rel_ok_pure, _. Qed.
Lemma failpoint_run_j name : rel_ok run (jdb W (failpoint name)).
Proof. apply jdb_run, quiet_path; [apply failpoint_quiet|]. intros d. unfold failpoint. by repeat case_match. Qed.
#[local] Hint Resolve jworld_run jawait_run drop_staged_run beat_run meta_run failpoint_run_j : git_edge.

(** From [s0], and whatever happens on the way. *)
Definition keeps {A} (s0 : Jn) (m : M Jn Error A) : Prop := triple (run s0) m (fun _ => run s0) (run s0).
Lemma rel_keeps {A} s0 (m : M Jn Error A) : rel_ok run m -> keeps s0 m.
Proof. intros Hm s Hs. specialize (Hm s). destruct (m s) as [s1 [a|e]]; cbn in Hm; by transitivity s. Qed.
Lemma keeps_bind {A B} s0 (m : M Jn Error A) (f : A -> M Jn Error B) : keeps s0 m -> (forall a, keeps s0 (f a)) -> keeps s0 (m ≫= f).
Proof. intros Hm Hf. by eapply triple_bind. Qed.
Lemma sweep_pages_keeps s0 repo id pages cur fails : closed (jn_db W s0) id -> t_meta (jn_db W s0) !! "repo_id" = Some repo ->
  keeps s0 (sweep_pages W charge1 spent others pages (pending_prefix repo id) cur fails).
Proof.
  intros Hc Hm. revert cur fails. induction pages as [|n IH]; intros cur fails; cbn [sweep_pages]; [apply rel_keeps, rel_ok_ret, _|].
  apply keeps_bind; [apply rel_keeps, rel_ok_gets, _|]. intros []; [apply rel_keeps, rel_ok_ret, _|].
  apply keeps_bind; [apply rel_keeps, jworld_run|]. intros u.
  apply (triple_bind _ _ (fun r s => run s0 s /\ forall pg, r = Ok pg -> Forall (fun k => starts_with (pending_prefix repo id) k = true) (pg_keys pg))).
  { intros s Hs. pose proof (jawait_run (list_page (pending_prefix repo id) cur) s) as Hr. unfold jawait in *. cbn [fst snd] in *. split; [by transitivity s|].
    intros pg E. destruct (list_page (pending_prefix repo id) cur (jn_w W s)) as [w' r] eqn:El. cbn [snd] in E. subst r. by apply list_prefix in El. }
  intros [pg|e]; [|eapply triple_pre; [|apply rel_keeps, rel_ok_ret, _]; by intros s [? _]].
  apply (triple_bind _ _ (fun _ => run s0)).
  - destruct (bool_decide _); [by apply triple_ret; intros s [? _]|].
    apply (triple_bind _ _ (fun _ s => run s0 s /\ Forall (fun k => starts_with (pending_prefix repo id) k = true) (pg_keys pg))).
    { intros s [Hs Hk]. specialize (jworld_run charge1 s) as Hr. destruct (jworld W charge1 s) as [s1 [a|e]]; cbn in Hr; [|by transitivity s]. split; [by transitivity s|by apply Hk]. }
    intros _. apply (triple_bind _ _ (fun _ => run s0)); [|intros r; apply rel_keeps, rel_ok_ret, _]. intros s [Hs Hk].
    assert (run s (jdelete W others (pg_keys pg) s).1) as Hd; [|unfold jdelete, jawait in *; cbn in *; by transitivity s].
    apply jdelete_run. destruct (proj2 (rn_path _ _ Hs)) as [Sc _ _ Sr]. eapply Forall_impl; [exact Hk|]. intros k Hp. exists repo. split; [congruence|left].
    exists id. split; [by apply Sc|done].
  - intros []; cbn [negb]; [|apply rel_keeps, rel_ok_ret, _]. destruct (pg_next pg); [apply IH|apply rel_keeps, rel_ok_ret, _].
Qed.
(** The repository's name, read on the way, is the one it started with. *)
Lemma repo_bind {A} s0 (f : string -> M Jn Error A) : (forall repo, t_meta (jn_db W s0) !! "repo_id" = Some repo -> keeps s0 (f repo)) ->
  keeps s0 (jdb W (meta "repo_id") ≫= f).
Proof.
  intros Hf. apply (triple_bind _ _ (fun repo s => run s0 s /\ t_meta (jn_db W s0) !! "repo_id" = Some repo)).
  - intros s Hs. pose proof (se_repo _ _ (proj2 (rn_path _ _ Hs))) as Er. pose proof (meta_run "repo_id" s) as Hr.
    unfold jdb, meta in *. destruct (t_meta (jn_db W s) !! "repo_id") as [repo|] eqn:Em; rewrite ?Em in *; cbn in *; [split|]; by try transitivity s.
  - intros repo s [Hs Hm]. by apply Hf.
Qed.
Lemma swept_keeps s0 id : closed (jn_db W s0) id -> keeps s0 (swept W now id).
Proof.
  intros Hc. apply keeps_bind; [apply rel_keeps, drop_staged_run|]. intros u s Hs. change (run s0 (jdb W (modify (on_pushes (alter (set_swept now) id))) s).1).
  transitivity s; [done|]. split; [|exists []; by rewrite app_nil_r]. apply tidy_path, swept_tidy. by apply (se_closed _ _ (proj2 (rn_path _ _ Hs))).
Qed.
Lemma sweep_pushes_keeps s0 job ids fails : Forall (closed (jn_db W s0)) ids -> keeps s0 (sweep_pushes W charge1 clock spent others now job ids fails).
Proof.
  intros Hc. revert fails. induction Hc as [|id ids Hid _ IH]; intros fails; cbn [sweep_pushes]; [apply rel_keeps, rel_ok_ret, _|].
  apply keeps_bind; [apply rel_keeps, rel_ok_gets, _|]. intros []; [apply rel_keeps, rel_ok_ret, _|].
  apply repo_bind. intros repo Hm. apply keeps_bind; [by apply sweep_pages_keeps|]. intros [ok n]. cbn [fst snd].
  apply keeps_bind; [destruct ok; [by apply swept_keeps|apply rel_keeps, rel_ok_ret, _]|]. intros u.
  apply keeps_bind; [apply rel_keeps, beat_run|]. intros u'. apply IH.
Qed.
Lemma delete_packs_keeps s0 job ids fails : Forall (fun p => old p /\ gone (jn_db W s0) p) ids -> keeps s0 (delete_packs W charge1 clock spent others job ids fails).
Proof.
  intros Hg. revert fails. induction Hg as [|p ids [Ho Hp] _ IH]; intros fails; cbn [delete_packs]; [apply rel_keeps, rel_ok_ret, _|].
  apply keeps_bind; [apply rel_keeps, rel_ok_gets, _|]. intros []; [apply rel_keeps, rel_ok_ret, _|].
  apply repo_bind. intros repo Hm. apply keeps_bind; [apply rel_keeps, failpoint_run_j|]. intros u.
  apply keeps_bind; [apply rel_keeps, jworld_run|]. intros u'.
  apply keeps_bind.
  - intros s Hs. destruct (proj2 (rn_path _ _ Hs)) as [_ Sg _ Sr].
    assert (run s (jdelete W others [key_pack repo p] s).1) as Hd; [|unfold jdelete, jawait in *; cbn [fst snd] in *; by transitivity s].
    apply jdelete_run. constructor; [|constructor]. exists repo. split; [congruence|right]. exists p. split; [done|by apply Sg].
  - intros r. apply keeps_bind; [|intros fails'; apply keeps_bind; [apply rel_keeps, beat_run|intros u''; apply IH]].
    destruct r; [|apply rel_keeps, rel_ok_ret, _]. apply keeps_bind; [|intros u''; apply rel_keeps, rel_ok_ret, _].
    intros s Hs. change (run s0 (jdb W (modify (on_packs (delete p))) s).1). transitivity s; [done|]. split; [|exists []; by rewrite app_nil_r].
    apply tidy_path, drop_pack_tidy. by apply (se_gone _ _ (proj2 (rn_path _ _ Hs))).
Qed.
Lemma drop_imports_run jobs fails : rel_ok run (drop_imports W charge1 spent others jobs fails).
Proof.
  revert fails. induction jobs as [|j jobs IH]; intros fails; cbn [drop_imports]; [apply rel_ok_ret, _|]. cbv zeta.
  assert (rel_ok run (jdb W (modify (delete_jobs (fun r => jb_id r =? jb_id j))))) as Hd.
  { apply jdb_run, quiet_path; [|done]. intros d. split; [|done]. by split. }
  rel_tac.
Qed.
Definition meta_eq (d d' : Db) : Prop := t_meta d' = t_meta d.
#[local] Instance meta_eq_preorder : PreOrder meta_eq.
Proof. split; [done|]. unfold meta_eq. intros a b c. congruence. Qed.
Lemma trigger_run_j : rel_ok run (fun s => ((jdb W (trigger (clock (jn_w W s))) s).1, Ok tt) : Jn * result Error unit).
Proof.
  intros s. apply (jdb_run (trigger (clock (jn_w W s)))). apply quiet_path; [apply trigger_quiet|]. intros d.
  revert d. change (rel_ok meta_eq (trigger (clock (jn_w W s)))). unfold trigger, quarantine_load, quarantine_read, meta_opt. rel_tac.
  - intros d. unfold enqueue, modify, enqueue_db, meta_eq. by case_match.
  - by intros d.
Qed.
Lemma to_sweep_closed d : Forall (closed d) (to_sweep now d).
Proof.
  apply Forall_map, Forall_take. rewrite (merge_sort_Permutation began_le). apply Forall_forall. intros [id r] [Hin Hu]%elem_of_filter_b.
  apply elem_of_map_to_list in Hin. exists r. split; [done|]. unfold unswept, still_open in Hu. cbn in Hu. bsimp. done.
Qed.
Lemma dead_packs_gone d : Forall (fun p => gone d p /\ exists r, t_packs d !! p = Some r /\ past_grace now r = true) (dead_packs now d).
Proof.
  apply Forall_map, Forall_take. rewrite (merge_sort_Permutation dead_le). apply Forall_forall. intros [p r] [Hin [Hg Ho]%andb_true_iff]%elem_of_filter_b.
  apply elem_of_map_to_list in Hin. cbn [fst snd] in *. split; [|by exists r]. split; [intros r' Hr'; congruence|]. intros s. destruct (t_objects d !! (s, p)) as [o|] eqn:Eo; [|done].
  apply negb_true_iff in Ho. exfalso. assert (has_objects d p = true) as Hh; [|congruence]. unfold has_objects. apply existsb_exists. exists ((s, p), o).
  split; [by apply list_elem_of_In, elem_of_map_to_list|apply String.eqb_refl].
Qed.
(** What was selected is dealt with as it was when it was selected. *)
Lemma keeps_select {A B} s0 (g : Db -> A) (f : A -> M Jn Error B) : (forall s, run s0 s -> keeps s (f (g (jn_db W s)))) -> keeps s0 (jdb W (gets g) ≫= f).
Proof.
  intros Hf s Hs. specialize (Hf s Hs s (reflexivity s)). unfold jdb, gets, mbind, M_bind. cbn [fst snd].
  replace (jn_dw W (jn_db W s) (jn_w W s) s) with s by by destruct s. destruct (f (g (jn_db W s)) s) as [s1 [a|e]]; by transitivity s.
Qed.
Lemma modify_run (f : Db -> Db) : (forall d, path d (f d)) -> rel_ok run (jdb W (modify f)).
Proof. intros Hf. apply jdb_run. intros d. apply Hf. Qed.
Lemma slice_tail_run n (t : Z) : rel_ok run (
  jdb W (modify (on_reflog (trim_reflog BATCH t))) ≫= fun _ =>
  (fun s => ((jdb W (trigger (clock (jn_w W s))) s).1, Ok tt)) ≫= fun _ =>
  if 0 <? n then fail (Storage (z_to_string n +:+ " R2 deletes failed")) else mret Done).
Proof.
  apply rel_ok_bind; [apply _| |intros u; apply rel_ok_bind; [apply _|apply trigger_run_j|intros u'; destruct (0 <? n); apply rel_ok_pure, _]].
  apply modify_run. intros d. apply tidy_path, quiet_tidy; [|done]. split; [|done]. by split.
Qed.
Lemma selected_gone s0 s : (forall p, is_Some (t_packs (jn_db W s0) !! p) -> old p) -> run s0 s ->
  Forall (fun p => old p /\ gone (jn_db W s) p) (dead_packs now (jn_db W s)).
Proof.
  intros Ho Hs. eapply Forall_impl; [apply dead_packs_gone|]. intros p (Hg & r & Hr & Hp). split; [|done]. apply Ho.
  destruct (se_grace _ _ (proj2 (rn_path _ _ Hs)) _ _ Hr Hp) as (r0 & Hr0 & _). by exists r0.
Qed.
Lemma slice_run job s : clock (jn_w W s) = now -> (forall p, is_Some (t_packs (jn_db W s) !! p) -> old p) ->
  run s (run_slice W charge1 clock spent others job s).1.
Proof.
  intros En Ho. unfold run_slice. unfold mbind at 1, M_bind at 1, gets at 1. rewrite En.
  match goal with |- run s (?m s).1 => cut (keeps s m); [intros Hm; specialize (Hm s (reflexivity s)); by destruct (m s) as [s1 [a|e]]|] end.
  apply keeps_bind; [apply rel_keeps, modify_run, close_stale_path|intros u1]. apply keeps_bind; [apply rel_keeps, modify_run, kill_failed_path|intros u2].
  apply keeps_bind; [apply rel_keeps, modify_run, kill_orphaned_path|intros u3]. apply keeps_select. intros s1 H1.
  apply keeps_bind; [apply sweep_pushes_keeps, to_sweep_closed|]. intros [n1|]; [|apply rel_keeps, rel_ok_ret, _].
  apply keeps_select. intros s2 H2. apply keeps_bind; [by apply delete_packs_keeps, (selected_gone s); [|transitivity s1]|].
  intros [n2|]; [|apply rel_keeps, rel_ok_ret, _].
  apply rel_keeps, rel_ok_bind; [apply _|apply jdb_run, rel_ok_pure, _|]. intros js.
  apply rel_ok_bind; [apply _|apply drop_imports_run|]. intros [n3|]; [apply slice_tail_run|apply rel_ok_ret, _].
Qed.
End Run.
End Facts.

(** C10: the janitor spares what is in use.  The other requests that run while a slice
    waits for R2 may do anything but reopen a closed push, use the id of a pack that
    had a row when the slice began again once it is gone, mark a pack as dead at a
    time past the grace already, or rename the repository; they may start packs and
    pushes, land and kill them.  Then the slice, whatever fails on the way, is a run of
    their steps and of its own, and each step of its own leaves alone the refs, every
    live pack with its object rows, every push open for less than an hour and the pack
    it is writing, the pack a collection builds, and the row of every pack dead for
    less than the grace.  Each key it asks R2 to delete is, at that moment, under the
    prefix of a push that is closed, or that of a pack that has no object row and whose
    row, if it has one, is dead past the grace. *)
Theorem janitor_spares {PF : Platform} {W : Type} {RA : R2Admin W} {RL : R2AdminLaws W} (charge1 : W -> W * result Error unit) (clock : W -> Z)
    (spent : W -> bool) (others : W -> Db -> W * Db) (job : Job) (s : Jn W) :
  let now := clock (jn_w W s) in
  i64_min <= now -> (forall w d, settles now (fun p => is_Some (t_packs (jn_db W s) !! p)) d (others w d).2) ->
  let s' := (run_slice W charge1 clock spent others job s).1 in
  rtc (fun d d' => spares now d d' \/ exists w, d' = (others w d).2) (jn_db W s) (jn_db W s')
  /\ exists more, jn_deletes W s' = jn_deletes W s ++ more /\ Forall (fun x => Forall (permitted now x.1) x.2) more.
Proof.
  intros now NOW OS. cbv zeta. destruct (slice_run now _ NOW charge1 clock spent others OS job s eq_refl (fun _ H => H)) as [[Hp _] Ha]. split; [exact Hp|exact Ha].
Qed.
