(* ===== verification/JanitorGaps.v ===== *)
(** * Where the janitor differs from what it says

    A prefix that outlasts the pages of one slice counts as swept, and a push is
    expired and swept by the same slice. *)
From S2P Require Import Prelude Errors Text Db Scope Jobs Cohort GcBase Compact Refs Push PushFacts Writer Janitor JanitorFacts.
Open Scope Z_scope.

Section Gaps.
Context {PF : Platform} {W : Type} {RA : R2Admin W}.
Context (charge1 : W -> W * result Error unit) (clock : W -> Z) (spent : W -> bool) (others : W -> Db -> W * Db) (now : Z).
Abbreviation Jn := (Jn W).

(** ** Prefixes of more than eight pages *)

(** Each of the next [pages] pages is listed and deleted, and says that there is
    more. *)
Fixpoint runs_out (pages : nat) (prefix : string) (cur : option string) (s : Jn) : bool :=
  match pages with
  | O => true
  | S n =>
      negb (spent (jn_w W s)) &&
      match jworld W charge1 s with
      | (s1, Ok _) =>
          match jawait W others (list_page prefix cur) s1 with
          | (s2, Ok (Ok pg)) =>
              match pg_next pg with
              | Some c =>
                  if bool_decide (pg_keys pg = []) then runs_out n prefix (Some c) s2
                  else match jworld W charge1 s2 with
                       | (s3, Ok _) => match jdelete W others (pg_keys pg) s3 with (s4, Ok (Ok _)) => runs_out n prefix (Some c) s4 | _ => false end
                       | _ => false
                       end
              | None => false
              end
          | _ => false
          end
      | _ => false
      end
  end.
Lemma runs_out_swept pages prefix cur fails s : runs_out pages prefix cur s = true ->
  exists s', sweep_pages W charge1 spent others pages prefix cur fails s = (s', Ok (true, fails)).
Proof.
  revert cur s. induction pages as [|n IH]; intros cur s; [intros _; by exists s|]. cbn [runs_out sweep_pages]. unfold jspent, gets, mbind, M_bind.
  destruct (spent _); [done|]. destruct (jworld W charge1 s) as [s1 [u|]]; [|done]. cbn [negb andb].
  destruct (jawait W others (list_page prefix cur) s1) as [s2 [[pg|]|]]; [|done..]. destruct (pg_next pg) as [c|]; [|done].
  destruct (bool_decide (pg_keys pg = [])); [apply IH|].
  destruct (jworld W charge1 s2) as [s3 [u'|]]; [|done]. destruct (jdelete W others (pg_keys pg) s3) as [s4 [[u''|]|]]; [|done..].
  apply IH.
Qed.

(** ** Rows of closed pushes *)

(** Nobody else touches the row of a closed push. *)
Context (OC : forall w d id r, t_pushes d !! id = Some r -> ps_state r <> POpen -> t_pushes (others w d).2 !! id = Some r).
(** A closed row stays as it is, or is marked as swept. *)
Definition stays (s s' : Jn) : Prop := forall id r, t_pushes (jn_db W s) !! id = Some r -> ps_state r <> POpen ->
  exists r', t_pushes (jn_db W s') !! id = Some r' /\ (r' = r \/ r' = set_swept now r).
#[local] Instance stays_preorder : PreOrder stays.
Proof.
  split; [intros s id r Hr _; exists r; auto|]. intros a b c H1 H2 id r Hr Hc. destruct (H1 id r Hr Hc) as (r1 & Hr1 & E1).
  destruct (H2 id r1 Hr1) as (r2 & Hr2 & E2); [by destruct E1 as [-> | ->]|]. exists r2. split; [done|]. destruct E1 as [-> | ->], E2 as [-> | ->]; auto.
Qed.
Lemma pushes_stay s s' : t_pushes (jn_db W s') = t_pushes (jn_db W s) -> stays s s'.
Proof. intros E id r Hr _. exists r. rewrite E. auto. Qed.
Lemma others_stay s s' : (exists w, jn_db W s' = (others w (jn_db W s)).2) -> stays s s'.
Proof. intros [w E] id r Hr Hc. exists r. rewrite E. auto. Qed.
Lemma jdb_stay {A} (m : DoM A) : rel_ok pushes_eq m -> rel_ok stays (jdb W m).
Proof. intros Hm s. apply pushes_stay. apply (Hm (jn_db W s)). Qed.
Lemma jworld_stay {A} (m : W -> W * result Error A) : rel_ok stays (jworld W m).
Proof. intros s. by apply pushes_stay. Qed.
Lemma jawait_stay {A} (m : W -> W * result Error A) : rel_ok stays (jawait W others m).
Proof. intros s. apply others_stay. by eexists. Qed.
Lemma jdelete_stay keys : rel_ok stays (jdelete W others keys).
Proof. intros s. apply others_stay. by eexists. Qed.
Lemma swept_stay id : rel_ok stays (swept W now id).
Proof.
  intros s id' r Hr Hc. unfold swept, drop_staged, jdb, modify, mbind, M_bind. cbn. destruct (decide (id = id')) as [<-|Hne].
  - rewrite lookup_alter_eq, Hr. cbn. eauto.
  - rewrite lookup_alter_ne by done. eauto.
Qed.
Lemma beat_stay job : rel_ok stays (beat W clock job).
Proof.
  unfold beat. apply rel_ok_bind; [apply _| |intros []; apply rel_ok_pure, _]. intros s. by apply (jdb_stay (heartbeat (clock (jn_w W s)) job)).
Qed.
Lemma meta_stay k : rel_ok stays (jdb W (meta k)).
Proof. apply jdb_stay, rel_ok_pure, _. Qed.
Lemma failpoint_stay name : rel_ok stays (jdb W (failpoint name)).
Proof. apply jdb_stay. intros d. unfold pushes_eq, failpoint. by repeat case_match. Qed.
#[local] Hint Resolve jworld_stay jawait_stay jdelete_stay swept_stay beat_stay meta_stay failpoint_stay : git_edge.
Lemma sweep_pages_stay pages prefix cur fails : rel_ok stays (sweep_pages W charge1 spent others pages prefix cur fails).
Proof. revert cur fails. induction pages as [|n IH]; intros cur fails; cbn [sweep_pages]; unfold jspent; rel_tac; apply IH. Qed.
#[local] Hint Resolve sweep_pages_stay : git_edge.
Lemma sweep_pushes_stay job ids fails : rel_ok stays (sweep_pushes W charge1 clock spent others now job ids fails).
Proof. revert fails. induction ids as [|id ids IH]; intros fails; cbn [sweep_pushes]; unfold jspent; rel_tac; apply IH. Qed.
Lemma delete_packs_stay job ids fails : rel_ok stays (delete_packs W charge1 clock spent others job ids fails).
Proof.
  assert (forall id, rel_ok stays (jdb W (modify (on_packs (delete id))))) as Hd by (intros id; by apply jdb_stay).
  revert fails. induction ids as [|id ids IH]; intros fails; cbn [delete_packs]; unfold jspent; rel_tac; apply IH.
Qed.
Lemma drop_imports_stay jobs fails : rel_ok stays (drop_imports W charge1 spent others jobs fails).
Proof.
  assert (forall p, rel_ok stays (jdb W (modify (delete_jobs p)))) as Hd by (intros p; by apply jdb_stay).
  revert fails. induction jobs as [|j jobs IH]; intros fails; cbn [drop_imports]; unfold jspent; cbv zeta; rel_tac; apply IH.
Qed.

Definition swept_row (s : Jn) (id : string) : Prop := exists r, t_pushes (jn_db W s) !! id = Some r /\ ps_state r <> POpen /\ ps_swept r = Some now.
Lemma swept_row_stays s s' id : stays s s' -> swept_row s id -> swept_row s' id.
Proof. intros Hs (r & Hr & Hc & Hw). destruct (Hs id r Hr Hc) as (r' & Hr' & [-> | ->]); [by exists r|by exists (set_swept now r)]. Qed.
Lemma swept_marks s id : closed (jn_db W s) id -> swept_row (swept W now id s).1 id.
Proof. intros (r & Hr & Hc). exists (set_swept now r). unfold swept, drop_staged, jdb, modify, mbind, M_bind. cbn. by rewrite lookup_alter_eq, Hr. Qed.
Lemma closed_stays s s' id : stays s s' -> closed (jn_db W s) id -> closed (jn_db W s') id.
Proof. intros Hs (r & Hr & Hc). destruct (Hs id r Hr Hc) as (r' & Hr' & [-> | ->]); [by exists r|by exists (set_swept now r)]. Qed.
Lemma swept_unselected t s id : swept_row s id -> id ∉ to_sweep t (jn_db W s).
Proof.
  intros (r & Hr & _ & Hw) ([id' r'] & <- & Hin)%elem_of_map. apply elem_of_take in Hin as (i & Hi & _). apply list_elem_of_lookup_2 in Hi.
  rewrite (merge_sort_Permutation began_le) in Hi. apply elem_of_filter_b in Hi as [Hin Hu]. apply elem_of_map_to_list in Hin. cbn [fst snd] in *.
  rewrite Hr in Hin. injection Hin as <-. unfold unswept in Hu. rewrite Hw, andb_false_r in Hu. done.
Qed.

(** ** Sweeping what was just expired *)

Context (SP : forall w, spent w = false).
Lemma sweep_pages_count pages prefix cur fails s s' ok n : sweep_pages W charge1 spent others pages prefix cur fails s = (s', Ok (ok, n)) ->
  n = if (ok : bool) then fails else fails + 1.
Proof.
  revert cur s. induction pages as [|m IH]; intros cur s; cbn [sweep_pages]; [by intros [= _ <- <-]|]. unfold jspent, gets. unfold mbind at 1, M_bind at 1. rewrite SP.
  intros (u & s1 & _ & (page & s2 & _ & E)%bind_ok)%bind_ok. destruct page as [pg|e]; [|by injection E as _ <- <-].
  apply bind_ok in E as (b & s3 & _ & E). destruct b; cbn [negb] in E; [|by injection E as _ <- <-].
  destruct (pg_next pg); [by apply IH in E|by injection E as _ <- <-].
Qed.
Lemma sweep_pushes_marks job ids fails s s' n : Forall (closed (jn_db W s)) ids ->
  sweep_pushes W charge1 clock spent others now job ids fails s = (s', Ok (Some n)) -> fails <= n /\ (n = fails -> Forall (swept_row s') ids).
Proof.
  revert fails s. induction ids as [|id ids IH]; intros fails s Hc; cbn [sweep_pushes]; [intros [= _ <-]; split; [lia|constructor]|].
  unfold jspent, gets. unfold mbind at 1, M_bind at 1. rewrite SP. apply Forall_cons in Hc as [Hid Hc].
  intros (repo & s1 & H1 & ([ok k] & s2 & H2 & (u & s3 & H3 & (u' & s4 & H4 & H5)%bind_ok)%bind_ok)%bind_ok)%bind_ok. cbn [fst snd] in *.
  pose proof (meta_stay "repo_id" s) as S1. rewrite H1 in S1. pose proof (sweep_pages_stay PAGES (pending_prefix repo id) None fails s1) as S2. rewrite H2 in S2.
  pose proof (beat_stay job s3) as S4. rewrite H4 in S4. pose proof (sweep_pushes_stay job ids k s4) as S5. rewrite H5 in S5. cbn [fst] in *.
  assert (stays s2 s3) as S3. { destruct ok; [pose proof (swept_stay id s2) as S3; by rewrite H3 in S3|by injection H3 as <- _]. }
  assert (stays s s2) as S12 by by transitivity s1. assert (stays s s4) as S14 by (transitivity s2; [done|by transitivity s3]).
  apply sweep_pages_count in H2 as ->. apply IH in H5 as [Hle Hall]; [|eapply Forall_impl; [exact Hc|]; intros x; by apply closed_stays].
  destruct ok; [|split; [lia|intros ->; lia]]. split; [done|]. intros ->. constructor; [|by apply Hall].
  apply (swept_row_stays s3); [by transitivity s4|]. pose proof (swept_marks s2 id (closed_stays _ _ _ S12 Hid)) as Hm. by rewrite H3 in Hm.
Qed.
Lemma delete_packs_count job ids fails s s' n : delete_packs W charge1 clock spent others job ids fails s = (s', Ok (Some n)) -> fails <= n.
Proof.
  revert fails s. induction ids as [|id ids IH]; intros fails s; cbn [delete_packs]; [intros [= _ <-]; lia|].
  unfold jspent, gets. unfold mbind at 1, M_bind at 1. rewrite SP.
  intros (repo & s1 & _ & (u & s2 & _ & (u' & s3 & _ & (r & s4 & _ & (f & s5 & H1 & (u'' & s6 & _ & H2)%bind_ok)%bind_ok)%bind_ok)%bind_ok)%bind_ok)%bind_ok.
  apply IH in H2. destruct r; [apply bind_ok in H1 as (x & s7 & _ & [= _ <-])|injection H1 as _ <-]; lia.
Qed.
Lemma drop_imports_count jobs fails s s' n : drop_imports W charge1 spent others jobs fails s = (s', Ok (Some n)) -> fails <= n.
Proof.
  revert fails s. induction jobs as [|j jobs IH]; intros fails s; cbn [drop_imports]; [intros [= _ <-]; lia|].
  unfold jspent, gets. unfold mbind at 1, M_bind at 1. rewrite SP. cbv zeta. intros (kept & s1 & _ & E)%bind_ok.
  destruct kept; [apply IH in E; lia|]. apply bind_ok in E as (u & s2 & _ & E). by apply IH in E.
Qed.
Lemma expire_fold ids d id r : t_pushes d !! id = Some r ->
  t_pushes (fold_left (fun d i => expire_push now i d) ids d) !! id = Some (if bool_decide (id ∈ ids) && still_open r then set_expired now r else r).
Proof.
  revert d r. induction ids as [|i ids IH]; intros d r Hr; cbn [fold_left]; [by rewrite Hr|]. destruct (decide (i = id)) as [->|Hne].
  - rewrite (IH _ (if still_open r then set_expired now r else r)) by (cbn; by rewrite lookup_alter_eq, Hr). rewrite (bool_decide_true (id ∈ id :: ids)) by left.
    destruct (still_open r) eqn:Eo; cbn [andb]; [by rewrite andb_false_r|]. by rewrite Eo, andb_false_r.
  - rewrite (IH _ r) by (cbn; by rewrite lookup_alter_ne). f_equal. destruct (still_open r); [|by rewrite !andb_false_r]. rewrite !andb_true_r.
    rewrite (bool_decide_ext (id ∈ i :: ids) (id ∈ ids)); [done|]. rewrite elem_of_cons. naive_solver.
Qed.
Lemma kill_fold ids d : t_pushes (fold_left (fun d i => kill_pack now i d) ids d) = t_pushes d.
Proof. revert d. induction ids as [|i ids IH]; intros d; [done|]. cbn [fold_left]. by rewrite IH. Qed.
(** The store when the slice asks what to sweep. *)
Definition after_marking (d : Db) : Db := kill_orphaned now (kill_failed now (close_stale now d)).
Lemma expired_selected d id : id ∈ stale_pushes now d -> (forall r, t_pushes d !! id = Some r -> ps_swept r = None) ->
  (length (List.filter (fun kv => unswept now kv.2) (map_to_list (t_pushes (after_marking d)))) <= BATCH)%nat ->
  id ∈ to_sweep now (after_marking d)
  /\ exists r, t_pushes d !! id = Some r /\ ps_state r = POpen /\ t_pushes (after_marking d) !! id = Some (set_expired now r).
Proof.
  intros Hid Hn Hl. pose proof Hid as Hid'. unfold stale_pushes in Hid. apply elem_of_take in Hid as (i & Hi & _). apply list_elem_of_lookup_2 in Hi.
  apply list_elem_of_omap in Hi as ([id' r] & Hin & E). apply elem_of_map_to_list in Hin. cbn in E. destruct (still_open r) eqn:Eo; [|done].
  destruct (_ <? _) eqn:Eb; [|done]. injection E as ->.
  assert (t_pushes (after_marking d) !! id = Some (set_expired now r)) as Hr.
  { unfold after_marking, kill_orphaned, kill_failed. rewrite !kill_fold. unfold close_stale. rewrite (expire_fold _ _ _ _ Hin), Eo, bool_decide_true; done. }
  split; [|exists r; unfold still_open in Eo; by bsimp]. unfold to_sweep. apply elem_of_map. exists (id, set_expired now r). split; [done|].
  rewrite take_ge by (by rewrite (merge_sort_Permutation began_le)). rewrite (merge_sort_Permutation began_le). apply elem_of_filter_b.
  split; [by apply elem_of_map_to_list|]. unfold unswept. cbn. rewrite (Hn r Hin). cbn. rewrite andb_true_r. exact Eb.
Qed.
Lemma done_swept job s s' : clock (jn_w W s) = now -> run_slice W charge1 clock spent others job s = (s', Ok Done) ->
  exists s1, jn_db W s1 = after_marking (jn_db W s) /\ stays s1 s' /\ Forall (swept_row s') (to_sweep now (after_marking (jn_db W s))).
Proof.
  intros En. unfold run_slice. unfold mbind at 1, M_bind at 1, gets at 1. rewrite En.
  intros (u1 & s1 & [= <- _] & (u2 & s2 & [= <- _] & (u3 & s3 & [= <- _] & (ids & s4 & [= <- <-] & E)%bind_ok)%bind_ok)%bind_ok)%bind_ok.
  cbn [jn_db jn_dw] in E. fold (after_marking (jn_db W s)) in E. set (s0 := jn_dw W _ _ _) in E. set (ids := to_sweep now (after_marking (jn_db W s))) in *.
  exists s0. split; [done|]. apply bind_ok in E as ([n1|] & s5 & H1 & E); [|discriminate E].
  pose proof (sweep_pushes_stay job ids 0 s0) as S1. rewrite H1 in S1. apply sweep_pushes_marks in H1 as [L1 A1]; [|apply (to_sweep_closed now)].
  apply bind_ok in E as (dead & s6 & [= <- <-] & ([n2|] & s7 & H2 & E)%bind_ok); [|discriminate E].
  pose proof (delete_packs_stay job (dead_packs now (jn_db W s5)) n1 (jn_dw W (jn_db W s5) (jn_w W s5) s5)) as S2. rewrite H2 in S2. apply delete_packs_count in H2.
  apply bind_ok in E as (js & s8 & [= <- <-] & ([n3|] & s9 & H3 & E)%bind_ok); [|discriminate E].
  pose proof (drop_imports_stay (dead_imports (jn_db W s7)) n2 (jn_dw W (jn_db W s7) (jn_w W s7) s7)) as S3. rewrite H3 in S3. apply drop_imports_count in H3.
  apply bind_ok in E as (u5 & s10 & [= <- _] & (u6 & s11 & [= <- _] & E)%bind_ok). destruct (Z.ltb_spec 0 n3); [discriminate E|]. injection E as <-. cbn [fst] in *.
  match goal with |- stays _ ?x /\ _ => assert (stays s9 x) as S4 end.
  { apply pushes_stay. cbn [jdb jn_db jn_dw fst]. set (d9 := on_reflog _ _). change (t_pushes (jn_db W s9)) with (t_pushes d9).
    match goal with |- t_pushes (trigger ?t _).1 = _ => apply (quiet_pushes (trigger t) (trigger_quiet t) d9) end. }
  assert (stays s5 (jn_dw W (jn_db W s5) (jn_w W s5) s5)) as T1 by by apply pushes_stay.
  assert (stays s7 (jn_dw W (jn_db W s7) (jn_w W s7) s7)) as T2 by by apply pushes_stay.
  match goal with |- stays _ ?x /\ _ => assert (stays s5 x) as S5 end.
  { transitivity s7; [by etrans|]. transitivity s9; [by etrans|exact S4]. }
  split; [by transitivity s5|]. eapply Forall_impl; [apply A1; lia|]. intros id. by apply swept_row_stays.
Qed.
End Gaps.

(** C37: a prefix that was not finished is marked as swept.  The comment says that past
    eight pages an unfinished prefix is swept again next time, since [swept_at] stays
    NULL; but the loop that runs out of pages leaves [done] true.  Whatever the bucket
    holds: when each of the eight pages of a closed push's prefix was listed, deleted
    and said that there is more, the push is marked as swept, and no later slice
    selects it, so what is left under its prefix is never listed again. *)
Theorem unfinished_prefix_swept {PF : Platform} {W : Type} {RA : R2Admin W} (charge1 : W -> W * result Error unit) (clock : W -> Z)
    (spent : W -> bool) (others : W -> Db -> W * Db) (now : Z) (job : Job) (repo id : string) (fails : Z) (s : Jn W) :
  (forall w d id r, t_pushes d !! id = Some r -> ps_state r <> POpen -> t_pushes (others w d).2 !! id = Some r) ->
  t_meta (jn_db W s) !! "repo_id" = Some repo -> closed (jn_db W s) id -> runs_out charge1 spent others PAGES (pending_prefix repo id) None s = true ->
  let s' := (sweep_pushes W charge1 clock spent others now job [id] fails s).1 in
  (exists r, t_pushes (jn_db W s') !! id = Some r /\ ps_swept r = Some now) /\ forall t, id ∉ to_sweep t (jn_db W s').
Proof.
  intros OC Hm Hc Hr. cbv zeta.
  assert (swept_row now (sweep_pushes W charge1 clock spent others now job [id] fails s).1 id) as Hw.
  2: { split; [destruct Hw as (r & Hr' & _ & Hw); by exists r|]. intros t. exact (swept_unselected now t _ id Hw). }
  assert (spent (jn_w W s) = false) as Hs by (unfold PAGES in Hr; cbn [runs_out] in Hr; by destruct (spent (jn_w W s))). destruct (runs_out_swept charge1 spent others _ _ _ fails _ Hr) as [s1 E].
  cbn [sweep_pushes]. unfold jspent, gets. unfold mbind at 1, M_bind at 1. rewrite Hs. unfold mbind at 1, M_bind at 1. unfold jdb at 1, meta. rewrite Hm. cbn [of_option fst snd].
  replace (jn_dw W (jn_db W s) (jn_w W s) s) with s by by destruct s. unfold mbind at 1, M_bind at 1. rewrite E. cbn [fst snd].
  pose proof (sweep_pages_stay charge1 spent others now OC PAGES (pending_prefix repo id) None fails s) as S1. rewrite E in S1. cbn [fst] in S1.
  pose proof (swept_marks now s1 id (closed_stays now _ _ _ S1 Hc)) as Hw. unfold mbind at 1, M_bind at 1. destruct (swept W now id s1) as [s2 [u|e]] eqn:E2; [|discriminate E2].
  cbn [fst] in Hw. assert (swept_row now (beat W clock job s2).1 id) as Hb by (apply (swept_row_stays now s2); [by apply (beat_stay clock now)|done]).
  unfold mbind, M_bind. destruct (beat W clock job s2) as [s3 [u'|e]]; exact Hb.
Qed.

(** C40: a push is expired and its objects deleted by one slice.  The file's header says
    that marking and R2 deleting never happen in one slice, and that a delete only
    targets a row marked at least the grace earlier; but step 3 asks how long ago the
    push began, and the timeout of step 1 is the grace.  So, when the pushes to sweep
    fit one batch and the time of the slice suffices: every push, open when the slice
    began, that step 1 of a slice that is done expired is swept by the same slice, and
    its row bears the same time twice, as its end and as the end of its objects. *)
Theorem expired_swept_at_once {PF : Platform} {W : Type} {RA : R2Admin W} (charge1 : W -> W * result Error unit) (clock : W -> Z)
    (spent : W -> bool) (others : W -> Db -> W * Db) (job : Job) (id : string) (s s' : Jn W) :
  (forall w d id r, t_pushes d !! id = Some r -> ps_state r <> POpen -> t_pushes (others w d).2 !! id = Some r) -> (forall w, spent w = false) ->
  let now := clock (jn_w W s) in
  id ∈ stale_pushes now (jn_db W s) -> (forall r, t_pushes (jn_db W s) !! id = Some r -> ps_swept r = None) ->
  (length (List.filter (fun kv => unswept now kv.2) (map_to_list (t_pushes (after_marking now (jn_db W s))))) <= BATCH)%nat ->
  run_slice W charge1 clock spent others job s = (s', Ok Done) ->
  exists r, t_pushes (jn_db W s) !! id = Some r /\ ps_state r = POpen
  /\ t_pushes (jn_db W s') !! id = Some (set_swept now (set_expired now r)).
Proof.
  intros OC SP now Hid Hn Hl E. destruct (expired_selected now _ _ Hid Hn Hl) as (Hsel & r & Hr & Ho & Hr1). exists r. split; [done|]. split; [done|].
  destruct (done_swept charge1 clock spent others now OC SP job s s' eq_refl E) as (s1 & E1 & Hst & Hall). rewrite Forall_forall in Hall.
  destruct (Hall id Hsel) as (r' & Hr' & _ & Hw). rewrite <- E1 in Hr1. destruct (Hst id _ Hr1) as (r'' & Hr'' & Hor); [done|].
  rewrite Hr' in Hr''. injection Hr'' as <-. rewrite Hr'. f_equal. destruct Hor as [-> | ->]; [|done]. cbn in Hw. by rewrite (Hn r Hr) in Hw.
Qed.
