(* ===== verification/Purge.v ===== *)
(** * Deleting a repository

    [server/src/jobs/purge.rs]: the slices page through everything the repository has
    in R2, with their place in the job's cursor, and the last one wipes its tables and
    its storage behind one more look at the lease.  The object's input gate holds the
    others back while its own storage works; R2 does not. *)
From S2P Require Import Prelude Errors Text Db Scope Jobs Cohort GcBase Compact Refs Push Writer Janitor.
Open Scope Z_scope.

(** [DELETE FROM] each of the tables named. *)
Definition wipe_tables (d : Db) : Db :=
  on_objects (fun _ => ∅) (on_packs (fun _ => ∅) (on_pushes (fun _ => ∅) (on_refs (fun _ => ∅) (on_reflog (fun _ => [])
    (on_tokens (fun _ => ∅) (on_pins (fun _ => ∅) (on_protected (fun _ => ∅) (on_parents (fun _ => ∅) (on_events (fun _ => [])
      (on_rate (fun _ => ∅) (on_meta (fun _ => ∅) d))))))))))).

Section Purge.
Context `{Platform} (W : Type) `{R2Admin W}.
Context (charge1 : W -> W * result Error unit) (clock : W -> Z) (spent : W -> bool) (others : W -> Db -> W * Db).
(** [delete_all]: it can fail, and it may take the tables with it. *)
Context (delete_all : W -> result Error bool).
(** The tables, whether they are there, the alarm and the flag of the object in
    memory; and what R2 was asked to delete. *)
Record Pz : Type := mkPz { pz_db : Db; pz_schema : bool; pz_alarm : bool; pz_booted : bool; pz_w : W; pz_deletes : list (list string) }.
Abbreviation PM := (M Pz Error).
Definition pz_set (d : Db) (w : W) (s : Pz) : Pz := mkPz d (pz_schema s) (pz_alarm s) (pz_booted s) w (pz_deletes s).
Definition pdb {A} (m : DoM A) : PM A := fun s => let r := m (pz_db s) in (pz_set r.1 (pz_w s) s, r.2).
Definition pworld {A} (m : W -> W * result Error A) : PM A := fun s => let r := m (pz_w s) in (pz_set (pz_db s) r.1 s, r.2).
Definition pawait {A} (m : W -> W * result Error A) : PM A := fun s =>
  let r := m (pz_w s) in
  let wd := others r.1 (pz_db s) in (pz_set wd.2 wd.1 s, r.2).
Definition pdelete (keys : list string) : PM unit := fun s =>
  pawait (delete_keys keys) (mkPz (pz_db s) (pz_schema s) (pz_alarm s) (pz_booted s) (pz_w s) (pz_deletes s ++ [keys])).
Definition pbeat (job : Job) : PM unit := fun s =>
  if pz_schema s then (ok ← pdb (heartbeat (clock (pz_w s)) job); if (ok : bool) then mret tt else fail stale_lease) s
  else (s, Err (Storage "no such table: jobs")).

Definition repo_prefix (repo : string) : string := "r/" +:+ repo +:+ "/".
Definition r2_cursor (c : option string) : string := "r2:" +:+ unwrap_or "" c.
(** [None]: the fuel ended; [Some (Some c)]: the budget is spent at [c];
    [Some None]: nothing is left. *)
Fixpoint purge_pages (fuel : nat) (job : Job) (prefix : string) (cur : option string) : PM (option (option string)) :=
  match fuel with
  | O => mret None
  | S f =>
      sp ← gets (fun s => spent (pz_w s));
      if (sp : bool) then mret (Some (Some (r2_cursor cur)))
      else
        pworld charge1 ≫= fun _ =>
        pg ← pawait (list_page prefix cur);
        (if bool_decide (pg_keys pg = []) then mret tt else pworld charge1 ≫= fun _ => pdelete (pg_keys pg)) ≫= fun _ =>
        pbeat job ≫= fun _ =>
        match pg_next pg with
        | Some c => purge_pages f job prefix (Some c)
        | None => mret (Some None)
        end
  end.
Definition wipe (job : Job) : PM SliceOutcome :=
  pbeat job ≫= fun _ =>
  modify (fun s => mkPz (delete_jobs (fun r => negb (jb_id r =? job_id job)) (wipe_tables (wipe_scratch (pz_db s)))) true false (pz_booted s) (pz_w s) (pz_deletes s)) ≫= fun _ =>
  w ← gets pz_w;
  gone ← lift (delete_all w);
  modify (fun s => mkPz (if (gone : bool) then empty_db else pz_db s) (negb gone) (pz_alarm s) false (pz_w s) (pz_deletes s)) ≫= fun _ =>
  mret Done.
Definition r2_done (job : Job) (s : Pz) : bool :=
  bool_decide (job_cursor job = Some "wipe") || negb (pz_schema s) || negb (is_some (t_meta (pz_db s) !! "repo_id")).
Definition purge_slice (fuel : nat) (job : Job) : PM (option SliceOutcome) :=
  done ← gets (r2_done job);
  if (done : bool) then o ← wipe job; mret (Some o)
  else
    repo ← pdb (meta "repo_id");
    r ← purge_pages fuel job (repo_prefix repo) (job_cursor job ≫= strip_prefix "r2:");
    match r with
    | None => mret None
    | Some (Some c) => mret (Some (Continue c))
    | Some None => o ← wipe job; mret (Some o)
    end.

(** ** What a slice does to the repository *)

Section Facts.
Context {RL : R2AdminLaws W} (job : Job).
Definition held (d : Db) : Prop := count_jobs (holds (job_id job) (job_lease job)) d = 1.
Definition pstep (d d' : Db) : Prop :=
  (exists t, d' = update_jobs (holds (job_id job) (job_lease job)) (set_started t) d) \/ exists w, d' = (others w d).2.
(** Nothing is left of the tables named, and no job but the slice's. *)
Record wiped (s : Pz) : Prop := {
  wi_refs : t_refs (pz_db s) = ∅ /\ t_reflog (pz_db s) = [] /\ t_pins (pz_db s) = ∅ /\ t_protected (pz_db s) = ∅;
  wi_packs : t_packs (pz_db s) = ∅ /\ t_objects (pz_db s) = ∅ /\ t_parents (pz_db s) = ∅ /\ t_pushes (pz_db s) = ∅;
  wi_rest : t_meta (pz_db s) = ∅ /\ t_tokens (pz_db s) = ∅ /\ t_events (pz_db s) = [] /\ t_rate (pz_db s) = ∅;
  wi_mark : t_marked (pz_db s) = ∅ /\ t_frontier (pz_db s) = ∅ /\ t_seen (pz_db s) = ∅ /\ t_pending (pz_db s) = [];
  wi_build : t_parts (pz_db s) = ∅ /\ t_tail (pz_db s) = ∅;
  wi_jobs : Forall (fun r => jb_id r = job_id job) (t_jobs (pz_db s));
  wi_object : pz_alarm s = false /\ pz_booted s = false
}.
Definition confined (prefix : string) (keys : list string) : Prop := Forall (fun k => starts_with prefix k = true) keys.
(** Only the others and the heartbeats, and deletes under the prefix. *)
Record pages_run (prefix : string) (s s' : Pz) : Prop := {
  pr_path : rtc pstep (pz_db s) (pz_db s');
  pr_deletes : exists more, pz_deletes s' = pz_deletes s ++ more /\ Forall (confined prefix) more
}.
#[local] Instance pages_run_preorder prefix : PreOrder (pages_run prefix).
Proof.
  split; [intros s; split; [done|exists []; by rewrite app_nil_r]|]. intros a b c [H1 (m1 & E1 & A1)] [H3 (m2 & E2 & A2)].
  split; [by etrans|]. exists (m1 ++ m2). rewrite E2, E1, app_assoc. split; [done|]. by apply Forall_app.
Qed.
Lemma pworld_run {A} prefix (m : W -> W * result Error A) : rel_ok (pages_run prefix) (pworld m).
Proof. intros s. split; [done|]. exists []. by rewrite app_nil_r. Qed.
Lemma pawait_run {A} prefix (m : W -> W * result Error A) : rel_ok (pages_run prefix) (pawait m).
Proof. intros s. split; [apply rtc_once; right; by eexists|]. exists []. by rewrite app_nil_r. Qed.
Lemma pdelete_run prefix keys : confined prefix keys -> rel_ok (pages_run prefix) (pdelete keys).
Proof. intros Hk s. split; [apply rtc_once; right; by eexists|]. exists [keys]. split; [done|]. by constructor. Qed.
Lemma pbeat_run prefix : rel_ok (pages_run prefix) (pbeat job).
Proof.
  intros s. unfold pbeat. destruct (pz_schema s); [|reflexivity]. unfold pdb, heartbeat, mbind, M_bind. cbn [fst snd].
  assert (forall s', s' = pz_set (update_jobs (holds (job_id job) (job_lease job)) (set_started (clock (pz_w s))) (pz_db s)) (pz_w s) s -> pages_run prefix s s') as Hs.
  { intros s' ->. split; [apply rtc_once; left; by eexists|]. exists []. by rewrite app_nil_r. }
  destruct (_ =? 1); by apply Hs.
Qed.
Lemma pbeat_held s s' u : pbeat job s = (s', Ok u) -> held (pz_db s).
Proof.
  unfold pbeat. destruct (pz_schema s); [|done]. unfold pdb, heartbeat, mbind, M_bind. cbn [fst snd]. destruct (Z.eqb_spec (count_jobs (holds (job_id job) (job_lease job)) (pz_db s)) 1); [done|]. done.
Qed.
Lemma purge_pages_run fuel prefix cur : rel_ok (pages_run prefix) (purge_pages fuel job prefix cur).
Proof.
  revert cur. induction fuel as [|f IH]; intros cur; cbn [purge_pages]; [apply rel_ok_ret, _|].
  apply rel_ok_bind; [apply _|apply rel_ok_gets, _|intros []; [apply rel_ok_ret, _|]]. apply rel_ok_bind; [apply _|apply pworld_run|intros u].
  intros s. unfold mbind at 1, M_bind at 1. pose proof (pawait_run prefix (list_page prefix cur) s) as Hp.
  destruct (pawait (list_page prefix cur) s) as [s1 [pg|e]] eqn:E; [|exact Hp]. cbn [fst] in Hp. transitivity s1; [exact Hp|].
  assert (confined prefix (pg_keys pg)) as Hk.
  { unfold pawait in E. destruct (list_page prefix cur (pz_w s)) as [w' r] eqn:El. injection E as _ ->. by apply list_prefix in El. }
  match goal with |- pages_run _ s1 (?m s1).1 => cut (rel_ok (pages_run prefix) m); [intros Hm; apply Hm|] end.
  apply rel_ok_bind; [apply _| |intros u'; apply rel_ok_bind; [apply _|apply pbeat_run|intros u'']].
  - destruct (bool_decide _); [apply rel_ok_ret, _|]. apply rel_ok_bind; [apply _|apply pworld_run|intros u']. by apply pdelete_run.
  - destruct (pg_next pg); [apply IH|apply rel_ok_ret, _].
Qed.
(** The wipe, as it ends. *)
Lemma wipe_spec s : match wipe job s with
  | (s', Ok o) => o = Done /\ held (pz_db s) /\ wiped s' /\ pz_deletes s' = pz_deletes s
  | (s', Err e) => pz_deletes s' = pz_deletes s /\ (rtc pstep (pz_db s) (pz_db s') \/ exists w, delete_all w = Err e)
  end.
Proof.
  unfold wipe. unfold mbind at 1, M_bind at 1. pose proof (pbeat_run "" s) as [Hp _]. assert (pz_deletes (pbeat job s).1 = pz_deletes s) as Hd.
  { unfold pbeat. destruct (pz_schema s); [|done]. unfold pdb, heartbeat, mbind, M_bind. cbn [fst snd]. by destruct (_ =? 1). }
  destruct (pbeat job s) as [s1 [u|e]] eqn:E; [|split; [exact Hd|left; exact Hp]]. apply pbeat_held in E. cbn [fst] in Hd.
  unfold modify, gets, lift, mbind, M_bind, mret, M_ret. cbn [fst snd pz_w]. destruct (delete_all (pz_w s1)) as [gone|e] eqn:Eg; [|split; [exact Hd|right; by eexists]].
  split_and!; [done|exact E| |exact Hd]. destruct gone; (split; [split_and!; reflexivity|split_and!; reflexivity|split_and!; reflexivity|split_and!; reflexivity|split; reflexivity| |split; reflexivity]); [constructor|].
  apply Forall_forall. intros r Hr. cbn in Hr.
  apply elem_of_filter_b in Hr as [_ Hr]. rewrite negb_involutive in Hr. by apply Z.eqb_eq.
Qed.
(** [m] bounds the subrequests left: each charge spends one, and nothing gives any
    back. *)
Record spends (m : W -> nat) : Prop := {
  sd_charge : forall w w' u, charge1 w = (w', Ok u) -> (m w' < m w)%nat;
  sd_list : forall p c w, (m (list_page p c w).1 <= m w)%nat;
  sd_delete : forall ks w, (m (delete_keys ks w).1 <= m w)%nat;
  sd_others : forall w d, (m (others w d).1 <= m w)%nat
}.
Lemma pbeat_w s : pz_w (pbeat job s).1 = pz_w s.
Proof. unfold pbeat. destruct (pz_schema s); [|done]. unfold pdb, heartbeat, mbind, M_bind. cbn [fst snd]. by destruct (_ =? 1). Qed.
(** The budget ends the loop before the fuel does. *)
Lemma purge_pages_ends m fuel prefix cur s : spends m -> (m (pz_w s) < fuel)%nat -> (purge_pages fuel job prefix cur s).2 <> Ok None.
Proof.
  intros Hm. revert cur s. induction fuel as [|f IH]; intros cur s Hf; [lia|]. cbn [purge_pages]. unfold mbind, M_bind, gets. destruct (spent (pz_w s)); [done|].
  unfold pworld at 1. destruct (charge1 (pz_w s)) as [w1 [u|e]] eqn:Ec; [|done]. apply (sd_charge m Hm) in Ec. cbn [fst snd].
  unfold pawait at 1. cbn [pz_w pz_db pz_set]. pose proof (sd_list m Hm prefix cur w1) as Hl. destruct (list_page prefix cur w1) as [w2 [pg|e]]; [|done]. cbn [fst snd] in *.
  pose proof (sd_others m Hm w2 (pz_db s)) as Ho. destruct (others w2 (pz_db s)) as [w3 d3]. cbn [fst snd] in *.
  set (s1 := pz_set d3 w3 _). assert (m (pz_w s1) < f)%nat as Hs1 by (cbn; lia). clearbody s1.
  match goal with |- context [(if bool_decide _ then ?a else ?b) s1] => set (del := if bool_decide (pg_keys pg = []) then a else b) end.
  assert (forall s2 u, del s1 = (s2, Ok u) -> m (pz_w s2) <= m (pz_w s1))%nat as Hd.
  { intros s2 u'. unfold del. destruct (bool_decide _); [by intros [= <- _]|]. unfold pworld. destruct (charge1 (pz_w s1)) as [w4 [v|e]] eqn:Ec'; cbn [fst snd]; [|done].
    apply (sd_charge m Hm) in Ec'. unfold pdelete, pawait. cbn [fst snd pz_w pz_db pz_set]. pose proof (sd_delete m Hm (pg_keys pg) w4) as H1.
    destruct (delete_keys (pg_keys pg) w4) as [w5 r5]. cbn [fst snd] in *. intros [= <- _]. pose proof (sd_others m Hm w5 (pz_db s1)) as H2. cbn [pz_w pz_set]. lia. }
  destruct (del s1) as [s2 [u'|e]]; [|done]. specialize (Hd s2 u' eq_refl). pose proof (pbeat_w s2) as Hb. destruct (pbeat job s2) as [s3 [u''|e]]; [|done]. cbn [fst] in Hb.
  destruct (pg_next pg) as [c|]; [apply IH; rewrite Hb; lia|done].
Qed.
Lemma purge_slice_ends m fuel s : spends m -> (m (pz_w s) < fuel)%nat -> (purge_slice fuel job s).2 <> Ok None.
Proof.
  intros Hm Hf. unfold purge_slice. unfold mbind at 1, M_bind at 1, gets. assert (forall s1, ((o ← wipe job; mret (Some o)) s1).2 <> Ok None) as Hw.
  { intros s1. unfold mbind, M_bind. by destruct (wipe job s1) as [s2 [o|e]]. }
  destruct (r2_done job s); [apply Hw|]. unfold mbind at 1, M_bind at 1, pdb, meta. cbn [gets fst snd]. destruct (of_option _ _) as [repo|e]; [|done].
  unfold mbind at 1, M_bind at 1. pose proof (purge_pages_ends m fuel (repo_prefix repo) (job_cursor job ≫= strip_prefix "r2:") (pz_set (pz_db s) (pz_w s) s) Hm Hf) as Hp.
  destruct (purge_pages fuel job (repo_prefix repo) _ _) as [s1 [[[c|]|]|e]]; [done|apply Hw|done|done].
Qed.
(** How a slice that reached the wipe ends. *)
Lemma wipe_ends s0 s1 : rtc pstep (pz_db s0) (pz_db s1) ->
  let r := (o ← wipe job; mret (Some o)) s1 in
  pz_deletes r.1 = pz_deletes s1 /\
  match r.2 with
  | Ok (Some Done) => wiped r.1 /\ exists d, rtc pstep (pz_db s0) d /\ held d
  | Ok _ => rtc pstep (pz_db s0) (pz_db r.1)
  | Err e => rtc pstep (pz_db s0) (pz_db r.1) \/ exists w, delete_all w = Err e
  end.
Proof.
  intros Hp. cbv zeta. pose proof (wipe_spec s1) as Hw. unfold mbind, M_bind. destruct (wipe job s1) as [s2 [o|e]]; cbn [fst snd mret M_ret].
  - destruct Hw as (-> & Hh & Hw & Hd). split; [exact Hd|]. split; [exact Hw|]. exists (pz_db s1). split; [exact Hp|exact Hh].
  - destruct Hw as [Hd [Hw|Hw]]; (split; [exact Hd|]); [left; by transitivity (pz_db s1)|right; exact Hw].
Qed.
End Facts.
End Purge.

(** C24: a purge deletes this repository and no other.  Whatever the others do while a
    slice waits for R2, each key it asks R2 to delete is under the repository's own
    prefix, the id it had when the slice began.  The tables are wiped by a slice only
    when its lease was still its own; then it is done, and no row of the repository is
    left, nor a job but its own, nor the alarm, and the object will boot anew.  A slice
    that ends in any other way left every row in place, unless the storage itself
    refused to be emptied.  And a slice does end: as many pages as it has subrequests
    left are enough. *)
Theorem purge_confined {PF : Platform} {W : Type} {RA : R2Admin W} {RL : R2AdminLaws W} (charge1 : W -> W * result Error unit) (clock : W -> Z)
    (spent : W -> bool) (others : W -> Db -> W * Db) (delete_all : W -> result Error bool) (fuel : nat) (job : Job) (s : Pz W) :
  let r := purge_slice W charge1 clock spent others delete_all fuel job s in
  (exists more, pz_deletes W r.1 = pz_deletes W s ++ more
    /\ Forall (fun keys => exists repo, t_meta (pz_db W s) !! "repo_id" = Some repo /\ confined (repo_prefix repo) keys) more)
  /\ match r.2 with
     | Ok (Some Done) => wiped W job r.1 /\ exists d, rtc (pstep W others job) (pz_db W s) d /\ held job d
     | Ok _ => rtc (pstep W others job) (pz_db W s) (pz_db W r.1)
     | Err e => rtc (pstep W others job) (pz_db W s) (pz_db W r.1) \/ exists w, delete_all w = Err e
     end
  /\ forall m, spends W charge1 others m -> (m (pz_w W s) < fuel)%nat -> r.2 <> Ok None.
Proof.
  cbv zeta. apply (proj1 (Logic.and_assoc _ _ _)). split; [|intros m Hm Hf; by eapply purge_slice_ends]. destruct (purge_slice W charge1 clock spent others delete_all fuel job s) as [s' res] eqn:E. cbn [fst snd]. unfold purge_slice in E.
  unfold mbind at 1, M_bind at 1, gets in E. destruct (r2_done W job s).
  - pose proof (wipe_ends W clock others delete_all job s s (rtc_refl _ _)) as Hw. cbv zeta in Hw. rewrite E in Hw. destruct Hw as [Hd Hw].
    split; [|exact Hw]. exists []. rewrite app_nil_r. split; [exact Hd|constructor].
  - unfold mbind at 1, M_bind at 1, pdb, meta, gets in E. cbn [fst snd] in E. replace (pz_set W (pz_db W s) (pz_w W s) s) with s in E by by destruct s.
    destruct (t_meta (pz_db W s) !! "repo_id") as [repo|] eqn:Em; cbn [of_option] in E; [|injection E as <- <-; split; [exists []; rewrite app_nil_r; split; [done|constructor]|by left]].
    unfold mbind at 1, M_bind at 1 in E. pose proof (purge_pages_run W charge1 clock spent others job fuel (repo_prefix repo) (job_cursor job ≫= strip_prefix "r2:") s) as [Hp (more & Hm & Hc)].
    assert (exists more, pz_deletes W (purge_pages W charge1 clock spent others fuel job (repo_prefix repo) (job_cursor job ≫= strip_prefix "r2:") s).1 = pz_deletes W s ++ more
      /\ Forall (fun keys => exists r, Some repo = Some r /\ confined (repo_prefix r) keys) more) as Hdel.
    { exists more. split; [exact Hm|]. eapply Forall_impl; [exact Hc|]. intros keys Hk. by exists repo. }
    destruct (purge_pages W charge1 clock spent others fuel job (repo_prefix repo) (job_cursor job ≫= strip_prefix "r2:") s) as [s1 [[[c|]|]|e]]; cbn [fst] in Hp, Hdel.
    + injection E as <- <-. split; [exact Hdel|exact Hp].
    + pose proof (wipe_ends W clock others delete_all job s s1 Hp) as Hw. cbv zeta in Hw. rewrite E in Hw. destruct Hw as [Hd Hw]. split; [|exact Hw].
      cbn [fst] in Hd. rewrite Hd. exact Hdel.
    + injection E as <- <-. split; [exact Hdel|exact Hp].
    + injection E as <- <-. split; [exact Hdel|by left].
Qed.
