(* ===== verification/JanitorDemo.v ===== *)
(** * The janitor, run

    A bucket that lists ten keys at a time in order (R2 may answer with fewer keys than
    the limit of a page), and the slices of the janitor over it. *)
From S2P Require Import Prelude Errors Text Db Scope Jobs Cohort GcBase Compact Refs Push PushFacts Writer Janitor JanitorFacts JanitorGaps Purge.
Open Scope Z_scope.

Module JanitorDemo.
#[export] Existing Instance demo_platform.
Definition W : Type := list string.
Definition beyond (prefix : string) (cur : option string) (key : string) : bool :=
  starts_with prefix key && match cur with Some c => String.ltb c key | None => true end.
#[export] Instance bucket : R2Admin W := {|
  list_page := fun prefix cur w =>
    let keys := List.filter (beyond prefix cur) w in
    (w, Ok (mkPage (take 10 keys) (if (10 <? length keys)%nat then last (take 10 keys) else None)));
  delete_keys := fun keys w => (List.filter (fun k => negb (existsb (String.eqb k) keys)) w, Ok tt);
  can_resume := fun _ _ => false;
  abort_upload := fun _ _ w => (w, Ok tt);
  json_str := fun _ _ => None
|}.
#[export] Instance bucket_laws : R2AdminLaws W.
Proof.
  intros prefix cur w w' pg [= _ <-]. cbn [pg_keys]. apply Forall_take, Forall_forall. intros k [_ Hk]%elem_of_filter_b.
  unfold beyond in Hk. by apply andb_true_iff in Hk as [Hk _].
Qed.
Definition now : Z := 10000000.
Definition charge1 (w : W) : W * result Error unit := (w, Ok tt).
Definition clock (w : W) : Z := now.
Definition spent (w : W) : bool := false.
Definition others (w : W) (d : Db) : W * Db := (w, d).
(** Others that start a push and its pack at every await. *)
Definition busy (w : W) (d : Db) : W * Db :=
  (w, on_pushes (fun ps => if bool_decide (is_Some (ps !! "q")) then ps else <["q" := mkPush POpen (Some "n") "you" now None 0 None None None None]> ps)
        (on_packs (insert "n" (mkPack Ingesting 0 0 0 0 (Some "q") now None)) d)).
Definition job : Job := mkJobRec 1 Jobs.Janitor 0 0 None "{}" "L".
Definition base : Db :=
  on_meta (insert "repo_id" "R") (on_jobs (fun _ => [mkJob 1 (as_str Jobs.Janitor) 0 0 None "{}" Running None (Some 0) (Some "L") 0]) empty_db).
Definition push (st : PushState) : PushSql := mkPush st None "me" 0 None 0 None None None None.
Definition slice (d : Db) (w : W) : Jn W * result Error SliceOutcome := run_slice W charge1 clock spent others job (mkJn W d [] w []).
End JanitorDemo.
Import JanitorDemo.
Module Expiring.
(** A push left open two hours ago, its staged pack, a live pack. *)
Definition d : Db :=
  on_pushes (insert "p" (push POpen)) (on_packs (insert "k" (mkPack Live 1 100 0 0 None 0 None)) base).
Definition w : W := ["r/R/packs/k.pack"; "r/R/pending/p.pack"].
Definition s : Jn W := mkJn W d [] w [].
End Expiring.

Lemma busy_settles w d : settles now (fun p => is_Some (t_packs Expiring.d !! p)) d (busy w d).2.
Proof.
  split; unfold closed, gone, busy; cbn [t_pushes t_packs t_objects t_meta on_pushes on_packs snd].
  - intros id (r & Hr & Hc). exists r. split; [|done]. case_bool_decide as Hq; [done|]. rewrite lookup_insert_ne; [done|]. intros <-. destruct Hq. by exists r.
  - intros p Hp [G1 G2]. split; [|done]. intros r. rewrite lookup_insert_ne; [apply G1|]. intros <-. vm_compute in Hp. by destruct Hp.
  - intros p r. destruct (decide ("n" = p)) as [<-|Hne]; [rewrite lookup_insert_eq; intros [= <-]; discriminate|]. rewrite lookup_insert_ne by done. eauto.
  - done.
Qed.
(** The stale push is expired and swept while others start a pack at every await. *)
Lemma janitor_spares_witness :
  let s' := (run_slice W charge1 clock spent busy job Expiring.s).1 in
  is_Some (t_packs (jn_db W s') !! "n") /\ map snd (jn_deletes W s') = [["r/R/pending/p.pack"]]
  /\ rtc (fun d d' => spares now d d' \/ exists w, d' = (busy w d).2) Expiring.d (jn_db W s')
  /\ exists more, jn_deletes W s' = more /\ Forall (fun x => Forall (permitted now x.1) x.2) more.
Proof.
  cbv zeta. split; [eexists; vm_compute; reflexivity|]. split; [vm_compute; reflexivity|].
  assert (i64_min <= clock (jn_w W Expiring.s)) as Hn by (vm_compute; discriminate).
  destruct (janitor_spares charge1 clock spent busy job Expiring.s Hn busy_settles) as [H1 (more & H2 & H3)].
  split; [exact H1|]. exists more. split; [exact H2|exact H3].
Defined.

Lemma others_closed w d id r : t_pushes d !! id = Some r -> ps_state r <> POpen -> t_pushes (others w d).2 !! id = Some r.
Proof. done. Qed.
Lemma expired_swept_at_once_witness :
  exists r, t_pushes Expiring.d !! "p" = Some r /\ ps_state r = POpen
  /\ t_pushes (jn_db W (slice Expiring.d Expiring.w).1) !! "p" = Some (set_swept now (set_expired now r)).
Proof.
  assert (slice Expiring.d Expiring.w = ((slice Expiring.d Expiring.w).1, Ok Done)) as E by (vm_compute; reflexivity).
  refine (expired_swept_at_once charge1 clock spent others job "p" Expiring.s (slice Expiring.d Expiring.w).1 others_closed (fun _ => eq_refl) _ _ _ E).
  - apply (bool_decide_eq_true_1 ("p" ∈ stale_pushes now Expiring.d)). vm_compute. reflexivity.
  - intros r Hr. vm_compute in Hr. injection Hr as <-. reflexivity.
  - apply Nat.leb_le. vm_compute. reflexivity.
Defined.

Module Unfinished.
(** A closed push with 81 staged parts. *)
Definition digit (n : nat) : string := String (chr (48 + n)) "".
Definition part (n : nat) : string :=
  "r/R/pending/p.part-" +:+ digit (Nat.div n 10) +:+ digit (Nat.modulo n 10).
Definition parts : W := Eval vm_compute in map part (seq 0 81).
Definition d : Db := on_pushes (insert "p" (push PExpired)) base.
End Unfinished.
(** With pages of ten, of 81 staged parts one is left for good. *)
Lemma unfinished_prefix_swept_witness :
  let s' := (sweep_pushes W charge1 clock spent others now job ["p"] 0 (mkJn W Unfinished.d [] Unfinished.parts [])).1 in
  jn_w W s' = [Unfinished.part 80] /\ (exists r, t_pushes (jn_db W s') !! "p" = Some r /\ ps_swept r = Some now) /\ forall t, "p" ∉ to_sweep t (jn_db W s').
Proof.
  cbv zeta. split; [vm_compute; reflexivity|].
  refine (unfinished_prefix_swept charge1 clock spent others now job "R" "p" 0 (mkJn W Unfinished.d [] Unfinished.parts []) others_closed _ _ _).
  - vm_compute. reflexivity.
  - eexists. split; [vm_compute; reflexivity|discriminate].
  - vm_compute. reflexivity.
Defined.

Module Purging.
(** Two repositories share the bucket; the first is deleted. *)
Definition job : Job := mkJobRec 1 PurgeRepo 0 0 None "{}" "L".
Definition d : Db := on_refs (insert "refs/heads/main" (mkRef "aa" None 0)) base.
Definition w : W := ["r/Q/packs/x.pack"; "r/R/packs/k.pack"; "r/R/pending/p.pack"].
Definition run : Pz W * result Error (option SliceOutcome) :=
  purge_slice W charge1 clock spent others (fun _ => Ok true) 3 job (mkPz W d true true true w []).
End Purging.
Lemma purge_confined_witness : Purging.run.2 = Ok (Some Done) /\ pz_w W Purging.run.1 = ["r/Q/packs/x.pack"] /\ wiped W Purging.job Purging.run.1.
Proof.
  assert (Purging.run.2 = Ok (Some Done)) as E by (vm_compute; reflexivity). split; [exact E|]. split; [vm_compute; reflexivity|].
  pose proof (purge_confined charge1 clock spent others (fun _ => Ok true) 3 Purging.job (mkPz W Purging.d true true true Purging.w [])) as H. cbv zeta in H.
  fold Purging.run in H. rewrite E in H. destruct H as (_ & [H _] & _). exact H.
Defined.
