(* ===== verification/Outbox.v ===== *)
(** * The outbox of push events

    [server/src/jobs/events.rs]: a committed push leaves a row in [push_events]; the
    job posts the rows to the receiver, oldest first, each with its signature, drops
    what was accepted and stops at the first that was not.  The receiver is a
    parameter; each post is noted with its answer. *)
From S2P Require Import Prelude Errors Text Db Scope Jobs Cohort GcBase Compact Refs Push Sign.
Open Scope Z_scope.

Definition EVENT_BATCH : nat := 25.
Record Delivery : Type := mkDelivery { dv_url : string; dv_id : string; dv_ts : Z; dv_sig : string; dv_body : string }.
(** [Fetch::Request(req).send()]: the status, or why there is none. *)
Class Webhook (W : Type) : Type := { send : Delivery -> W -> W * result string Z }.

Section Drain.
Context `{Platform} `{Hmac} (W : Type) `{Webhook W}.
Context (charge1 : W -> W * result Error unit) (clock : W -> Z) (spent : W -> bool) (others : W -> Db -> W * Db).
(** serde_json on the event, as the row keeps it. *)
Context (event_text : EventBody -> string).
Record Ox : Type := mkOx { ox_db : Db; ox_w : W; ox_posts : list (Delivery * result string Z) }.
Abbreviation OM := (M Ox Error).
Definition odb {A} (m : DoM A) : OM A := fun s => let r := m (ox_db s) in (mkOx r.1 (ox_w s) (ox_posts s), r.2).
Definition oworld {A} (m : W -> W * result Error A) : OM A := fun s => let r := m (ox_w s) in (mkOx (ox_db s) r.1 (ox_posts s), r.2).
Definition accepted (r : result string Z) : result Error unit :=
  match r with
  | Err e => Err (Internal ("push webhook: " +:+ e))
  | Ok code => if (200 <=? code) && (code <? 300) then Ok tt else Err (Internal ("push webhook answered HTTP " +:+ z_to_string code))
  end.
Definition post (dv : Delivery) : OM (result Error unit) := fun s =>
  let r := send dv (ox_w s) in
  let a := accepted r.2 in
  let wd := others r.1 (ox_db s) in
  (mkOx wd.2 wd.1 (ox_posts s ++ [(dv, r.2)]), Ok a).
Definition set_tried (e : string) (r : EventSql) : EventSql :=
  mkEvent (ev_seq r) (ev_push r) (ev_at r) (ev_body r) (ev_attempts r + 1) (Some e).
Definition drop_event (seq : Z) (d : Db) : Db := on_events (List.filter (fun r => negb (ev_seq r =? seq))) d.
Definition try_event (seq : Z) (e : string) (d : Db) : Db := on_events (map (fun r => if ev_seq r =? seq then set_tried e r else r)) d.
(** [None]: the budget is spent. *)
Fixpoint drain (url secret repo : string) (rows : list EventSql) : OM (option unit) :=
  match rows with
  | [] => mret (Some tt)
  | r :: rows' =>
      sp ← gets (fun s => spent (ox_w s));
      if (sp : bool) then mret None
      else
        oworld charge1 ≫= fun _ =>
        let id := repo +:+ ":" +:+ z_to_string (ev_seq r) in
        ts ← gets (fun s => clock (ox_w s));
        sig ← lift (event_sig secret ts id (event_text (ev_body r)));
        a ← post (mkDelivery url id ts sig (event_text (ev_body r)));
        match (a : result Error unit) with
        | Ok _ => odb (modify (drop_event (ev_seq r))) ≫= fun _ => drain url secret repo rows'
        | Err e => odb (modify (try_event (ev_seq r) (message e))) ≫= fun _ => fail e
        end
  end.
Definition drain_slice : OM SliceOutcome :=
  match events_config with
  | None => mret Done
  | Some (url, secret) =>
      repo ← odb (meta "repo_id");
      rows ← odb (gets (fun d => take EVENT_BATCH (t_events d)));
      r ← drain url secret repo rows;
      match r with
      | None => mret (Continue "")
      | Some _ => mret (if (length rows =? EVENT_BATCH)%nat then Continue "" else Done)
      end
  end.

(** ** In order, and until accepted *)

Definition delivers (url secret repo : string) (e : EventSql) (p : Delivery * result string Z) : Prop :=
  dv_url p.1 = url /\ dv_id p.1 = repo +:+ ":" +:+ z_to_string (ev_seq e) /\ dv_body p.1 = event_text (ev_body e)
  /\ event_sig secret (dv_ts p.1) (dv_id p.1) (dv_body p.1) = Ok (dv_sig p.1).
(** The receiver took it: its answer is a success. *)
Definition took (p : Delivery * result string Z) : Prop := exists code, p.2 = Ok code /\ 200 <= code < 300.
Lemma accepted_took dv ans : (accepted ans = Ok tt -> took (dv, ans)) /\ (forall e, accepted ans = Err e -> ~ took (dv, ans)).
Proof.
  unfold accepted, took. cbn [snd]. destruct ans as [code|m]; [|split; [done|]; by intros e _ (c & ? & _)].
  destruct (Z.leb_spec 200 code), (Z.ltb_spec code 300); cbn [andb]; (split; [intros E|intros e E]); try discriminate E; [by exists code|..];
    intros (c & [= <-] & ?); lia.
Qed.
Definition seqs (l : list EventSql) : list Z := map ev_seq l.
(** The others only add rows, under numbers of their own. *)
Context (OA : forall w d, exists new, t_events (others w d).2 = t_events d ++ new /\ (NoDup (seqs (t_events d)) -> NoDup (seqs (t_events d ++ new)))).
Lemma drop_front e rows : NoDup (seqs (e :: rows)) -> List.filter (fun r => negb (ev_seq r =? ev_seq e)) (e :: rows) = rows.
Proof.
  intros [He _]%NoDup_cons. cbn [List.filter]. rewrite Z.eqb_refl. cbn [negb]. apply filter_negb_id. intros x Hx. apply Z.eqb_neq. intros E. destruct He.
  apply elem_of_map. by exists x.
Qed.
Lemma try_head e rows m : NoDup (seqs (e :: rows)) -> map (fun r => if ev_seq r =? ev_seq e then set_tried m r else r) (e :: rows) = set_tried m e :: rows.
Proof.
  intros [He _]%NoDup_cons. cbn [map]. rewrite Z.eqb_refl. f_equal. apply map_if_id. intros x Hx. apply Z.eqb_neq. intros E. destruct He. apply elem_of_map. by exists x.
Qed.
(** What the first [k] of [rows] became: posted and accepted, in order; the next was
    refused, or not tried. *)
Definition drained (url secret repo : string) (rows more : list EventSql) (s s' : Ox) (k : nat) (stopped : option Error) : Prop :=
  exists sent tail new, ox_posts s' = ox_posts s ++ sent ++ tail /\ (k <= length rows)%nat
  /\ Forall2 (fun e p => delivers url secret repo e p /\ took p) (take k rows) sent
  /\ match stopped with
     | Some err => exists e rest p, drop k rows = e :: rest /\ tail = [p] /\ delivers url secret repo e p /\ ~ took p
                     /\ t_events (ox_db s') = set_tried (message err) e :: rest ++ more ++ new
     | None => tail = [] /\ t_events (ox_db s') = drop k rows ++ more ++ new
     end.
Lemma drained_none url secret repo rows more s s' : t_events (ox_db s') = rows ++ more -> ox_posts s' = ox_posts s -> drained url secret repo rows more s s' 0 None.
Proof. intros E1 E2. exists [], [], []. rewrite !app_nil_r, E2. split_and!; [done|lia|constructor|done|done]. Qed.
Lemma drained_more url secret repo e rows more new s s1 s' p k st : delivers url secret repo e p -> took p -> ox_posts s1 = ox_posts s ++ [p] ->
  drained url secret repo rows (more ++ new) s1 s' k st -> drained url secret repo (e :: rows) more s s' (S k) st.
Proof.
  intros Hd Ha E (sent & tail & new' & E' & Hk & Hs & Hst). exists (p :: sent), tail, (new ++ new'). rewrite E', E, <- !app_assoc. cbn [take drop app length].
  split_and!; [done|lia|by constructor|]. destruct st; cbn [drop]; rewrite <- !app_assoc in Hst; exact Hst.
Qed.
(** How a drain ended: all delivered, the budget spent, or an error, the one noted
    when a post was refused. *)
Definition concluded (rows : list EventSql) (k : nat) (stopped : option Error) (s' : Ox) (res : result Error (option unit)) : Prop :=
  match res with
  | Ok (Some _) => k = length rows /\ stopped = None
  | Ok None => spent (ox_w s') = true /\ stopped = None
  | Err e => stopped = Some e \/ stopped = None
  end.
Lemma drain_spec url secret repo rows more s : t_events (ox_db s) = rows ++ more -> NoDup (seqs (t_events (ox_db s))) ->
  let r := drain url secret repo rows s in
  exists k st, drained url secret repo rows more s r.1 k st /\ concluded rows k st r.1 r.2.
Proof.
  revert more s. induction rows as [|e rows IH]; intros more s Ev Hn; cbv zeta.
  { exists 0%nat, None. split; [by apply drained_none|done]. }
  destruct (drain url secret repo (e :: rows) s) as [s' res] eqn:E. cbn [fst snd]. cbn [drain] in E. cbv zeta in E. unfold mbind, M_bind, gets in E.
  destruct (spent (ox_w s)) eqn:Esp; [injection E as <- <-; exists 0%nat, None; split; [by apply drained_none|done]|].
  unfold oworld, lift in E. destruct (charge1 (ox_w s)) as [w1 [u|er]]; cbn [fst snd ox_db ox_w ox_posts] in E;
    [|injection E as <- <-; exists 0%nat, None; split; [by apply drained_none|by right]].
  set (id := repo +:+ ":" +:+ z_to_string (ev_seq e)) in *. destruct (event_sig secret (clock w1) id (event_text (ev_body e))) as [sig|er] eqn:Es;
    [|injection E as <- <-; exists 0%nat, None; split; [by apply drained_none|by right]].
  set (dv := mkDelivery url id (clock w1) sig (event_text (ev_body e))) in *. unfold post in E. cbn [ox_w ox_db ox_posts] in E.
  destruct (send dv w1) as [w2 ans]. cbn [fst snd] in E. destruct (OA w2 (ox_db s)) as (new & En & Hn'). specialize (Hn' Hn). rewrite <- En in Hn'.
  destruct (others w2 (ox_db s)) as [w3 d3]. cbn [fst snd] in *. rewrite Ev, <- app_assoc in En. cbn [app] in En.
  assert (delivers url secret repo e (dv, ans)) as Hdv by done. rewrite En in Hn'. destruct (accepted_took dv ans) as [Hyes Hno].
  destruct (accepted ans) as [[]|er]; unfold odb, modify, fail in E; cbn [fst snd ox_db ox_w ox_posts] in E.
  - set (s1 := mkOx (drop_event (ev_seq e) d3) w3 (ox_posts s ++ [(dv, ans)])) in *.
    assert (t_events (ox_db s1) = rows ++ (more ++ new)) as E1.
    { unfold s1, drop_event, on_events. cbn [ox_db t_events]. rewrite En. by apply drop_front. }
    destruct (IH (more ++ new) s1 E1) as (k & st & Hd & Hall). { rewrite E1. by apply NoDup_cons in Hn' as [_ ?]. }
    rewrite E in Hd, Hall. exists (S k), st. split; [eapply (drained_more _ _ _ _ _ _ _ _ s1 _ (dv, ans)); [exact Hdv|by apply Hyes|done|exact Hd]|].
    destruct res as [[u'|]|e']; [|exact Hall..]. destruct Hall as [-> ->]. done.
  - injection E as <- <-. exists 0%nat, (Some er). split; [|by left]. exists [], [(dv, ans)], new. split_and!; [done|lia|constructor|].
    exists e, rows, (dv, ans). split_and!; [done..|by apply (Hno er)|]. unfold try_event, on_events. cbn [ox_db t_events]. rewrite En. by apply try_head.
Qed.
(** A batch is the front of the outbox. *)
Lemma drained_batch url secret repo n ev s s' k st : drained url secret repo (take n ev) (drop n ev) s s' k st -> drained url secret repo ev [] s s' k st.
Proof.
  intros (sent & tail & new & E & Hk & Hs & Hst). pose proof (length_take ev n) as Hl. exists sent, tail, new. split_and!; [done|lia| |].
  - by rewrite take_take, Nat.min_l in Hs by lia.
  - assert (drop k ev = drop k (take n ev) ++ drop n ev) as Ed by (rewrite <- drop_app_le by lia; by rewrite take_drop). destruct st.
    + destruct Hst as (e' & rest & p & E1 & E2 & E3 & E4 & E5). exists e', (rest ++ drop n ev), p. rewrite Ed, E1. split_and!; [done..|]. by rewrite E5, <- app_assoc.
    + destruct Hst as [-> ->]. by rewrite Ed, <- app_assoc.
Qed.
End Drain.


Module OutboxDemo.
Definition secret : string := "0123456789abcdef0123456789abcdef".
#[export] Instance platform : Platform := demo_env (fun k =>
  if String.eqb k "GE_PUSH_WEBHOOK_URL" then Some "https://hook" else if String.eqb k "GE_PUSH_WEBHOOK_SECRET" then Some secret else None).
#[export] Instance hmac : Hmac := demo_hmac.
(** The receiver answers with what is left of a script. *)
#[export] Instance hook : Webhook (list Z) := {| send := fun _ w => match w with code :: w' => (w', Ok code) | [] => ([], Err "down") end |}.
Definition charge1 (w : list Z) : list Z * result Error unit := (w, Ok tt).
Definition clock (w : list Z) : Z := 7.
Definition spent (w : list Z) : bool := false.
Definition others (w : list Z) (d : Db) : list Z * Db := (w, d).
Lemma others_add w d : exists new, t_events (others w d).2 = t_events d ++ new /\ (NoDup (seqs (t_events d)) -> NoDup (seqs (t_events d ++ new))).
Proof. exists []. by rewrite app_nil_r. Qed.
Definition text (b : EventBody) : string := eb_push b.
Definition event (n : Z) : EventSql := mkEvent n (z_to_string n) 0 (mkEventBody "o" "r" "R" (z_to_string n) "me" 0 []) 0 None.
Definition d : Db := on_meta (insert "repo_id" "R") (on_events (fun _ => [event 3; event 4; event 6]) empty_db).
(** The second post is refused. *)
Definition s : Ox (list Z) := mkOx (list Z) d [204; 500; 200] [].
Definition run : Ox (list Z) * result Error SliceOutcome := drain_slice (list Z) charge1 clock spent others text s.
End OutboxDemo.
Import OutboxDemo.
