(* ===== verification/Lfs.v ===== *)
(** * The Git LFS batch

    [lfs_batch] of [server/src/repo_do/mod.rs], which decides per object what the
    client may do and signs the addresses, and the handlers of
    [server/src/edge/mod.rs] that forward the batch and serve a signed address. *)
From S2P Require Import Prelude Errors Text Db Scope Jobs Cohort GcBase Compact Refs Push Admin Receive Sign Auth Writer.
Open Scope Z_scope.

Record LfsObj : Type := mkLfsObj { lo_oid : string; lo_size : Z }.
Record LfsDto : Type := mkLfsDto { lf_operation : string; lf_objects : list LfsObj }.
(** What is answered for an object: nothing to do, an address, or why not. *)
Inductive LfsWhat : Type := LfsStored | LfsHref (action href : string) | LfsError (code : Z) (message : string).
Record LfsOut : Type := mkLfsOut { lt_oid : string; lt_size : Z; lt_what : LfsWhat }.
(** R2's HEAD and the sizes of a listing's page, serde_json on a batch (the
    repository object wants the whole of it, the edge its operation). *)
Class R2Lfs (W : Type) : Type := {
  head_key : string -> W -> W * result Error bool;
  size_page : string -> option string -> W -> W * result Error (list Z * option string);
  lfs_dto : string -> result string LfsDto;
  lfs_op : string -> result string (option string)
}.

Section Lfs.
Context `{Platform} `{Hmac} (W : Type) `{R2Lfs W}.
Context (charge1 : W -> W * result Error unit) (others : W -> Db -> W * Db) (now : Z).
Abbreviation LM := (M (Db * W) Error).
Definition ldb {A} (m : DoM A) : LM A := fun s => let r := m s.1 in ((r.1, s.2), r.2).
Definition lworld {A} (m : W -> W * result Error A) : LM A := fun s => let r := m s.2 in ((s.1, r.1), r.2).
Definition lawait {A} (m : W -> W * result Error A) : LM A := fun s =>
  let r := m s.2 in
  let wd := others r.1 s.1 in ((wd.2, wd.1), r.2).

Definition LFS_TTL : Z := 3600.
Definition lfs_oid_ok (oid : string) : bool := (str_len oid =? 64) && str_all is_hexdigit oid.
Definition lfs_href (base owner repo oid : string) (exp : Z) (repo_id sig : string) : string :=
  base +:+ "/" +:+ owner +:+ "/" +:+ repo +:+ "/_lfs/" +:+ oid +:+ "?e=" +:+ z_to_string exp +:+ "&r=" +:+ repo_id +:+ "&s=" +:+ sig.
(** One object: the answer, and the bytes it would add. *)
Definition lfs_one (upload : bool) (key base owner repo repo_id : string) (exp : Z) (o : LfsObj) : LM (LfsOut * Z) :=
  let out w := mkLfsOut (lo_oid o) (lo_size o) w in
  if negb (lfs_oid_ok (lo_oid o)) then mret (out (LfsError 422 "oid must be 64 hex chars"), 0)
  else
    lworld charge1 ≫= fun _ =>
    present ← lawait (head_key (key_lfs repo_id (lo_oid o)));
    if upload then
      if (present : bool) then mret (out LfsStored, 0)
      else sig ← lift (lfs_sig key repo_id (lo_oid o) exp "put");
           mret (out (LfsHref "upload" (lfs_href base owner repo (lo_oid o) exp repo_id sig)), wrap64 (lo_size o))
    else if (present : bool) then
      sig ← lift (lfs_sig key repo_id (lo_oid o) exp "get");
      mret (out (LfsHref "download" (lfs_href base owner repo (lo_oid o) exp repo_id sig)), 0)
    else mret (out (LfsError 404 "object not found"), 0).
Fixpoint lfs_objects (upload : bool) (key base owner repo repo_id : string) (exp : Z) (os : list LfsObj) (new : Z) : LM (list LfsOut * Z) :=
  match os with
  | [] => mret ([], new)
  | o :: os' =>
      r ← lfs_one upload key base owner repo repo_id exp o;
      rs ← lfs_objects upload key base owner repo repo_id exp os' (sat_add64 new r.2);
      mret (r.1 :: rs.1, rs.2)
  end.
Definition lfs_prefix (repo : string) : string := "r/" +:+ repo +:+ "/lfs/".
(** The sum of a listing; [None] when the fuel ends. *)
Fixpoint lfs_bytes (fuel : nat) (repo : string) (cur : option string) (total : Z) : LM (option Z) :=
  match fuel with
  | O => mret None
  | S f =>
      lworld charge1 ≫= fun _ =>
      page ← lawait (size_page (lfs_prefix repo) cur);
      let total' := fold_left (fun t n => sat_add64 t (wrap64 n)) page.1 total in
      match page.2 with
      | Some c => lfs_bytes f repo (Some c) total'
      | None => mret (Some total')
      end
  end.
Definition lfs_over (packs lfs new max : Z) : string :=
  "repo quota exceeded: packs " +:+ z_to_string packs +:+ " + lfs " +:+ z_to_string lfs +:+ " + upload " +:+ z_to_string new
  +:+ " > GE_QUOTA_MAX_BYTES=" +:+ z_to_string max.
Definition lfs_quota (fuel : nat) (repo : string) (new : Z) : LM (option unit) :=
  packs ← ldb (gets (fun d => (storage_totals d "").2));
  l ← lfs_bytes fuel repo None 0;
  match l with
  | None => mret None
  | Some lfs =>
      let max := env_i64 "GE_QUOTA_MAX_BYTES" DEFAULT_MAX_BYTES in
      if max <? sat_add64 (sat_add64 packs lfs) new then fail (Limit (lfs_over packs lfs new max)) else mret (Some tt)
  end.
Definition operation_of (op : string) : option bool := if String.eqb op "upload" then Some true else if String.eqb op "download" then Some false else None.
Definition lfs_batch_inner (fuel : nat) (body : string) (hdr : RepoHeaders) (base : option string) : LM (option (list LfsOut)) :=
  d ← lift (match lfs_dto body with Ok d => Ok d | Err e => Err (Internal ("do body: " +:+ e)) end);
  upload ← lift (of_option (Protocol "lfs operation must be upload or download") (operation_of (lf_operation d)));
  match base, h_owner hdr, h_repo hdr with
  | Some base, Some owner, Some repo =>
      key ← lift (of_option Forbidden signing_key);
      repo_id ← ldb (meta "repo_id");
      let exp := now / 1000 + LFS_TTL in
      r ← lfs_objects upload key base owner repo repo_id exp (lf_objects d) 0;
      ok ← (if upload && (0 <? r.2) then lfs_quota fuel repo_id r.2 else mret (Some tt));
      mret (match ok with Some _ => Some r.1 | None => None end)
  | _, _, _ => fail (Internal "lfs batch missing base")
  end.
End Lfs.

(** ** The edge *)

Definition LFS_CAP : Z := 1048576.
Definition lfs_level (op : option string) : result Error Level :=
  match op with
  | Some o => if String.eqb o "download" then Ok LRead else if String.eqb o "upload" then Ok LWrite
              else Err (Protocol "lfs operation must be download or upload")
  | None => Err (Protocol "lfs operation must be download or upload")
  end.
(** The batch the edge forwards, and the level its operation needs. *)
Definition lfs_guard (op : string -> result string (option string)) (declared : option Z) (body : result string string) : result Error (Level * string) :=
  if match declared with Some n => LFS_CAP <? n | None => false end then Err (Protocol "lfs batch body too large")
  else
    match body with
    | Err e => Err (Protocol e)
    | Ok b =>
        if LFS_CAP <? str_len b then Err (Protocol "lfs batch body too large")
        else match op b with
             | Err e => Err (Protocol ("lfs batch: " +:+ e))
             | Ok o => level ← lfs_level o; Ok (level, b)
             end
    end.
(** The answer's body is read before its status is looked at: when it is an error,
    what is left of the response has no body. *)
Definition lfs_answer (r : DoResponse + string) (b : ReqBudget) (spend : Z) : result Error string * Z :=
  match r with
  | inr body => (Ok body, spend)
  | inl e => let x := from_do_response (mkDoResponse (dr_status e) (dr_subrequests e) None) b spend in (Err x.1, x.2)
  end.
(** A signed address: what the three query parameters open at [now]. *)
Section Access.
Context `{Platform} `{Hmac}.
Definition signed_key (now : Z) (e r s : option string) (check : string -> string -> Z -> string -> bool) (at_key : string -> string) : result Error string :=
  key ← of_option NotFound signing_key;
  exp ← of_option Forbidden (e ≫= parse_i64);
  if exp <? now / 1000 then Err Forbidden
  else
    repo ← of_option Forbidden (match r with Some x => if seg_ok x then Some x else None | None => None end);
    sig ← of_option Forbidden s;
    if negb (check key repo exp sig) then Err Forbidden else Ok (at_key repo).
(** [lfs_object], up to the R2 object it reads or writes. *)
Definition lfs_access (now : Z) (oid op : string) (e r s : option string) : result Error string :=
  key ← of_option NotFound signing_key;
  if negb (lfs_oid_ok oid) then Err NotFound
  else signed_key now e r s (fun key repo exp sig => lfs_sig_ok key repo oid exp op sig) (fun repo => key_lfs repo oid).
(** [pack_get], up to the R2 object it reads. *)
Definition pack_access (now : Z) (name : string) (e r s : option string) : result Error string :=
  key ← of_option NotFound signing_key;
  pack ← of_option NotFound (match strip_suffix ".pack" name with Some p => if seg_ok p then Some p else None | None => None end);
  signed_key now e r s (fun key repo exp sig => pack_sig_ok key repo pack exp sig) (fun repo => key_pack repo pack).
End Access.

(** ** What a batch grants *)

Section Facts.
Context {PF : Platform} {HM : Hmac} {HL : HmacLaw} {W : Type} {RL : R2Lfs W}.
Context (charge1 : W -> W * result Error unit) (others : W -> Db -> W * Db) (now : Z) (NOW : 0 <= now <= i64_max - 3600).
Context (base owner repo repo_id : string) (SEG : seg_ok repo_id = true).
(** The address opens the object for the operation, and for nothing else, as long as
    it is good. *)
Definition opens (exp : Z) (oid op href : string) : Prop := exists sig, href = lfs_href base owner repo oid exp repo_id sig
  /\ forall t, t / 1000 <= exp -> lfs_access t oid op (Some (z_to_string exp)) (Some repo_id) (Some sig) = Ok (key_lfs repo_id oid).
(** What is answered for an object R2 has, or has not. *)
Definition answers (upload present : bool) (exp : Z) (o : LfsObj) (what : LfsWhat) : Prop :=
  match upload, present with
  | true, true => what = LfsStored
  | true, false => exists href, what = LfsHref "upload" href /\ opens exp (lo_oid o) "put" href
  | false, true => exists href, what = LfsHref "download" href /\ opens exp (lo_oid o) "get" href
  | false, false => exists m, what = LfsError 404 m
  end.
(** One object, from [s] to [s']: a bad id is refused and nothing is asked of R2; else
    R2's HEAD of its key, after one charge, decides. *)
Definition headed (upload : bool) (exp : Z) (s : Db * W) (o : LfsObj) (out : LfsOut) (s' : Db * W) : Prop :=
  lt_oid out = lo_oid o /\ lt_size out = lo_size o /\
  if lfs_oid_ok (lo_oid o) then exists w w' present, charge1 s.2 = (w, Ok tt) /\ head_key (key_lfs repo_id (lo_oid o)) w = (w', Ok present)
    /\ s' = ((others w' s.1).2, (others w' s.1).1) /\ answers upload present exp o (lt_what out)
  else s' = s /\ exists m, lt_what out = LfsError 422 m.
(** All of them, one after the other. *)
Fixpoint all_headed (upload : bool) (exp : Z) (s : Db * W) (os : list LfsObj) (outs : list LfsOut) (s' : Db * W) : Prop :=
  match os, outs with
  | [], [] => s' = s
  | o :: os', out :: outs' => exists s1, headed upload exp s o out s1 /\ all_headed upload exp s1 os' outs' s'
  | _, _ => False
  end.
Definition granted (outs : list LfsOut) : Z := fold_right (fun o n => match lt_what o with LfsHref _ _ => lt_size o + n | _ => n end) 0 outs.
Lemma opens_signed key exp oid op sig : signing_key = Some key -> in_i64 exp -> lfs_oid_ok oid = true ->
  lfs_sig key repo_id oid exp op = Ok sig -> opens exp oid op (lfs_href base owner repo oid exp repo_id sig).
Proof.
  intros Hk He Ho Hs. exists sig. split; [done|]. intros t Ht. unfold lfs_access, signed_key, mbind, result_bind, option_bind. rewrite Hk, Ho, SEG, parse_i64_to_string by done.
  cbn [of_option negb]. rewrite (proj2 (Z.ltb_ge _ _)) by lia.
  assert (lfs_sig_ok key repo_id oid exp op sig = true) as ->; [|done]. unfold lfs_sig, mbind, result_bind in Hs.
  destruct (mac key (lmsg repo_id oid exp op)) as [tag|] eqn:Em; [|done]. injection Hs as <-. by apply sig_minted.
Qed.
Lemma exp_range : in_i64 (now / 1000 + LFS_TTL).
Proof. unfold in_i64, i64_min, i64_max, LFS_TTL in *. pose proof (Z.div_pos now 1000). pose proof (Z.div_le_upper_bound now 1000 now). lia. Qed.
Lemma lfs_one_ok upload key o s s' r : signing_key = Some key ->
  lfs_one W charge1 others upload key base owner repo repo_id (now / 1000 + LFS_TTL) o s = (s', Ok r) ->
  headed upload (now / 1000 + LFS_TTL) s o r.1 s'
  /\ r.2 = match lt_what r.1 with LfsHref _ _ => if upload then wrap64 (lo_size o) else 0 | _ => 0 end.
Proof.
  intros Hk. unfold lfs_one, headed. destruct (lfs_oid_ok (lo_oid o)) eqn:Eo; cbn [negb]; [|intros [= <- <-]; split; [split_and!; try done; by eexists|done]].
  intros (u & s1 & H1 & (present & s2 & H2 & E)%bind_ok)%bind_ok. unfold lworld in H1. destruct (charge1 s.2) as [w [[]|]]; [|done]. injection H1 as <- <-.
  unfold lawait in H2. cbn [fst snd] in H2. destruct (head_key _ w) as [w' ans] eqn:Eh. cbn [fst snd] in H2. injection H2 as <- ->.
  destruct upload, present; try (injection E as <- <-; split; [split_and!; try done; exists w, w'; eexists; split_and!; try done; by eexists|done]);
    apply bind_ok in E as (sig & s3 & [= <- Hs] & [= <- <-]); (split; [split_and!; try done; exists w, w'; eexists; split_and!; try done; eexists; split; [done|]|done]);
    by apply (opens_signed key); [|apply exp_range|..].
Qed.
Lemma lfs_objects_ok upload key os new s s' r : signing_key = Some key ->
  lfs_objects W charge1 others upload key base owner repo repo_id (now / 1000 + LFS_TTL) os new s = (s', Ok r) ->
  all_headed upload (now / 1000 + LFS_TTL) s os r.1 s'
  /\ (upload = true -> Forall (fun o => 0 <= lo_size o <= i64_max) os -> 0 <= new <= i64_max -> r.2 = Z.min i64_max (new + granted r.1) /\ 0 <= granted r.1).
Proof.
  intros Hk. revert new s s' r. induction os as [|o os IH]; intros new s s' r; cbn [lfs_objects].
  { intros [= <- <-]. split; [done|]. intros _ _ Hn. unfold granted. cbn. lia. }
  intros (x & s1 & H1 & (rs & s2 & H2 & [= <- <-])%bind_ok)%bind_ok. apply (lfs_one_ok _ _ _ _ _ _ Hk) in H1 as [H1 Ex]. apply IH in H2 as [H2 Hn].
  split; [by exists s1|]. intros Hu Hf Hnew. apply Forall_cons in Hf as [Ho Hf]. cbn [fst snd].
  assert (x.2 = match lt_what x.1 with LfsHref _ _ => lo_size o | _ => 0 end) as Ex'.
  { rewrite Ex, Hu. destruct (lt_what x.1); [done| |done]. apply wrap64_id. unfold in_i64, i64_min. unfold i64_max in *. lia. }
  assert (0 <= sat_add64 new x.2 <= i64_max) as Hr by (unfold sat_add64, sat64, i64_min; destruct (lt_what x.1); rewrite Ex'; unfold i64_max in *; lia).
  destruct (Hn Hu Hf Hr) as [-> Hg]. destruct H1 as (_ & Es & _). unfold granted in *. cbn [fold_right]. rewrite Es.
  unfold sat_add64, sat64, i64_min in *. destruct (lt_what x.1); rewrite Ex' in *; unfold i64_max in *; lia.
Qed.
(** What a batch that is answered did. *)
Lemma lfs_batch_run fuel body dto s s' outs : lfs_dto body = Ok dto -> t_meta s.1 !! "repo_id" = Some repo_id ->
  lfs_batch_inner W charge1 others now fuel body (mkHeaders (Some owner) (Some repo)) (Some base) s = (s', Ok (Some outs)) ->
  exists upload s1, operation_of (lf_operation dto) = Some upload /\ all_headed upload (now / 1000 + LFS_TTL) s (lf_objects dto) outs s1
  /\ (upload = true -> Forall (fun o => 0 <= lo_size o <= i64_max) (lf_objects dto) -> 0 < granted outs ->
      let max := env_i64 "GE_QUOTA_MAX_BYTES" DEFAULT_MAX_BYTES in
      exists lfs, lfs_bytes W charge1 others fuel repo_id None 0 s1 = (s', Ok (Some lfs))
      /\ (max < i64_max -> 0 <= (storage_totals s1.1 "").2 + lfs -> (storage_totals s1.1 "").2 + lfs + granted outs <= max)).
Proof.
  intros Hd Hm. unfold lfs_batch_inner. rewrite Hd. cbn [h_owner h_repo]. intros (x & s1 & [= <- <-] & (upload & s2 & [= <- Hu] & E)%bind_ok)%bind_ok.
  destruct (operation_of (lf_operation dto)) as [up|] eqn:Eo; [|done]. injection Hu as <-.
  apply bind_ok in E as (key & s3 & [= <- Hk] & (rid & s4 & Hr & (r & s5 & Hobj & (ok & s6 & Hq & Hend)%bind_ok)%bind_ok)%bind_ok).
  destruct signing_key as [key'|] eqn:Ek; [|done]. injection Hk as ->. unfold ldb, meta, gets in Hr. cbn [fst snd] in Hr. rewrite Hm in Hr. injection Hr as <- <-.
  rewrite <- surjective_pairing in Hobj. destruct (lfs_objects_ok up key _ _ _ _ _ Ek Hobj) as [Ha Hn].
  destruct ok as [[]|]; [|done]. injection Hend as <- <-. exists up, s5. split_and!; [done|exact Ha|]. intros -> Hf Hpos. cbv zeta.
  destruct (Hn eq_refl Hf ltac:(unfold i64_max; lia)) as [En _]. rewrite Z.add_0_l in En. cbn [andb] in Hq.
  assert (0 <? r.2 = true) as Hlt by (apply Z.ltb_lt; unfold i64_max in *; lia). rewrite Hlt in Hq.
  apply bind_ok in Hq as (packs & s7 & [= <- <-] & (l & s8 & Hl & Hq)%bind_ok). rewrite <- surjective_pairing in Hl. destruct l as [lfs|]; [|done]. cbn [fst snd] in *.
  match type of Hq with (if ?b then _ else _) _ = _ => destruct b eqn:Eq end; [done|]. injection Hq as <-. exists lfs. split; [exact Hl|]. intros Hmax Hp. apply Z.ltb_ge in Eq.
  unfold storage_totals in *. cbn [snd] in *. rewrite En in Eq. unfold sat_add64, sat64, i64_min in Eq. unfold i64_max in *. lia.
Qed.
End Facts.

(** C26: an LFS batch grants exactly what was asked and what fits.  Each object gets one
    answer, in order: a malformed id is refused and R2 is not asked; any other costs one
    request, R2's HEAD of its key, and its result decides.  To upload, an object R2
    has needs nothing and one it has not gets an address; to download, one it has gets
    an address and one it has not is not found.  The edge then honours such an address
    for that repository, object and direction until it expires.  And when an upload whose
    declared sizes are below 2^63 is granted anything, the live packs as they were
    after the last HEAD, the stored LFS bytes listed then and all that was granted fit
    in the quota (one below the largest i64, and the sums not negative). *)
Theorem lfs_batch_grants {PF : Platform} {HM : Hmac} {HL : HmacLaw} {W : Type} {RL : R2Lfs W} (charge1 : W -> W * result Error unit)
    (others : W -> Db -> W * Db) (now : Z) (fuel : nat) (body base owner repo repo_id : string) (dto : LfsDto) (s s' : Db * W) (outs : list LfsOut) :
  0 <= now <= i64_max - 3600 -> lfs_dto body = Ok dto -> t_meta s.1 !! "repo_id" = Some repo_id -> seg_ok repo_id = true ->
  lfs_batch_inner W charge1 others now fuel body (mkHeaders (Some owner) (Some repo)) (Some base) s = (s', Ok (Some outs)) ->
  exists upload s1, operation_of (lf_operation dto) = Some upload
  /\ all_headed charge1 others base owner repo repo_id upload (now / 1000 + LFS_TTL) s (lf_objects dto) outs s1
  /\ (upload = true -> Forall (fun o => 0 <= lo_size o <= i64_max) (lf_objects dto) -> 0 < granted outs ->
      let max := env_i64 "GE_QUOTA_MAX_BYTES" DEFAULT_MAX_BYTES in
      exists lfs, lfs_bytes W charge1 others fuel repo_id None 0 s1 = (s', Ok (Some lfs))
      /\ (max < i64_max -> 0 <= (storage_totals s1.1 "").2 + lfs -> (storage_totals s1.1 "").2 + lfs + granted outs <= max)).
Proof. intros Hnow Hd Hm Hseg. by apply lfs_batch_run. Qed.

(** ** A batch, run *)

Module LfsDemo.
Definition oid : string := "0123456789abcdef0123456789abcdef0123456789abcdef0123456789abcdef".
Definition key : string := "0123456789abcdef0123456789abcdef".
Definition env (max : option string) : Platform :=
  demo_env (fun k => if String.eqb k "GE_URL_SIGNING_KEY" then Some key else if String.eqb k "GE_QUOTA_MAX_BYTES" then max else None).
#[export] Instance hmac : Hmac := demo_hmac.
#[export] Instance hmac_law : HmacLaw := demo_hmac_law.
(** Nothing is stored; the body of a batch is the size it declares. *)
#[export] Instance r2 : R2Lfs unit := {|
  head_key := fun _ w => (w, Ok false);
  size_page := fun _ _ w => (w, Ok ([], None));
  lfs_dto := fun body => match parse_u64 body with Some n => Ok (mkLfsDto "upload" [mkLfsObj oid n]) | None => Err "size" end;
  lfs_op := fun _ => Ok (Some "upload")
|}.
Definition d : Db := on_meta (insert "repo_id" "R") empty_db.
Definition batch (max : option string) (body : string) : result Error (option (list LfsOut)) :=
  (@lfs_batch_inner (env max) hmac unit r2 (fun w => (w, Ok tt)) (fun w d => (w, d)) 5000 2 body (mkHeaders (Some "o") (Some "r")) (Some "https://h") (d, tt)).2.
Definition href : string := Eval vm_compute in
  match batch (Some "1000") "1000" with Ok (Some [o]) => match lt_what o with LfsHref _ h => h | _ => "" end | _ => "" end.
End LfsDemo.
Import LfsDemo.
Lemma lfs_batch_grants_witness : exists out, batch (Some "1000") "1000" = Ok (Some [out]) /\ lt_what out = LfsHref "upload" LfsDemo.href
  /\ @opens (env (Some "1000")) hmac "https://h" "o" "r" "R" 3605 oid "put" LfsDemo.href.
Proof.
  assert (batch (Some "1000") "1000" = Ok (Some [mkLfsOut oid 1000 (LfsHref "upload" LfsDemo.href)])) as E by (vm_compute; reflexivity).
  exists (mkLfsOut oid 1000 (LfsHref "upload" LfsDemo.href)). split; [exact E|]. split; [reflexivity|].
  destruct (@lfs_batch_grants (env (Some "1000")) hmac hmac_law unit r2 (fun w => (w, Ok tt)) (fun w d => (w, d)) 5000 2 "1000" "https://h" "o" "r" "R"
    (mkLfsDto "upload" [mkLfsObj oid 1000]) (d, tt) (d, tt) [mkLfsOut oid 1000 (LfsHref "upload" LfsDemo.href)]) as (up & s1 & Eu & Ha & _);
    [unfold i64_max; lia|vm_compute; reflexivity|vm_compute; reflexivity|vm_compute; reflexivity|vm_compute; reflexivity|].
  assert (up = true) as -> by (vm_compute in Eu; injection Eu as <-; reflexivity). destruct Ha as (s2 & (_ & _ & H1) & _).
  assert (lfs_oid_ok oid = true) as Eo by (vm_compute; reflexivity). cbn [lo_oid lo_size lt_what] in H1. rewrite Eo in H1.
  destruct H1 as (w & w' & present & _ & Hh & _ & H1). injection Hh as _ <-. destruct H1 as (h & Eh & Ho). injection Eh as <-. exact Ho.
Defined.

(** A declared size of 2^63 or more is a negative i64. *)
Lemma wrap64_high n : 2 ^ 63 <= n < 2 ^ 64 -> wrap64 n = n - 2 ^ 64.
Proof. intros Hn. unfold wrap64. rewrite <- (Z.mod_unique_pos (n + 2 ^ 63) (2 ^ 64) 1 (n + 2 ^ 63 - 2 ^ 64)); lia. Qed.

(** C39: the LFS quota is not the one of the packs.  The comment says that it is the same
    bound [commit_push] enforces.  But the declared size, a u64, is cast to i64: whatever
    the quota, an upload of one object that R2 does not have and that declares 2^63
    bytes or more is granted, as nothing is left to check once the sum is negative.
    And under a quota of zero, which switches the check of the packs' bytes off for
    every push, no LFS upload (of sizes below 2^63) is granted a positive number of
    bytes, unless what is stored sums up to less than nothing. *)
Theorem lfs_quota_gaps {PF : Platform} {HM : Hmac} {HL : HmacLaw} {W : Type} {RL : R2Lfs W} (charge1 : W -> W * result Error unit)
    (others : W -> Db -> W * Db) (now : Z) (fuel : nat) (body base owner repo repo_id key : string) (s : Db * W) :
  0 <= now <= i64_max - 3600 -> signing_key = Some key -> t_meta s.1 !! "repo_id" = Some repo_id -> seg_ok repo_id = true ->
  (forall oid n sig w w', lfs_dto body = Ok (mkLfsDto "upload" [mkLfsObj oid n]) -> 2 ^ 63 <= n < 2 ^ 64 -> lfs_oid_ok oid = true ->
     lfs_sig key repo_id oid (now / 1000 + LFS_TTL) "put" = Ok sig -> charge1 s.2 = (w, Ok tt) -> head_key (key_lfs repo_id oid) w = (w', Ok false) ->
     exists s' href, lfs_batch_inner W charge1 others now fuel body (mkHeaders (Some owner) (Some repo)) (Some base) s
       = (s', Ok (Some [mkLfsOut oid n (LfsHref "upload" href)])))
  /\ (env_i64 "GE_QUOTA_MAX_BYTES" DEFAULT_MAX_BYTES = 0 ->
      (forall d push m, over_quota d push = Some m -> starts_with "objects " m = true)
      /\ forall os outs s', lfs_dto body = Ok (mkLfsDto "upload" os) -> Forall (fun o => 0 <= lo_size o <= i64_max) os ->
         lfs_batch_inner W charge1 others now fuel body (mkHeaders (Some owner) (Some repo)) (Some base) s = (s', Ok (Some outs)) -> 0 < granted outs ->
         exists s1 lfs, all_headed charge1 others base owner repo repo_id true (now / 1000 + LFS_TTL) s os outs s1
         /\ lfs_bytes W charge1 others fuel repo_id None 0 s1 = (s', Ok (Some lfs)) /\ (storage_totals s1.1 "").2 + lfs < 0).
Proof.
  intros Hnow Hk Hm Hseg. split.
  - intros oid n sig w w' Hd Hn Ho Hs Hc Hh. unfold lfs_batch_inner. rewrite Hd. eexists _, _.
    unfold mbind, M_bind, lift, ldb, meta. cbn [lf_operation h_owner h_repo of_option fst snd].
    change (operation_of "upload") with (Some true). cbn [of_option]. rewrite Hk, Hm. cbn [of_option lfs_objects lf_objects fst snd]. unfold lfs_one, mbind, M_bind, lworld, lawait, lift. cbn [lo_oid lo_size].
    rewrite Ho. cbn [negb fst snd]. rewrite Hc. cbn [fst snd]. rewrite Hh. cbn [fst snd]. rewrite Hs. unfold mret, M_ret. cbn [fst snd andb].
    assert (sat_add64 0 (wrap64 n) < 0) as Hneg by (rewrite wrap64_high by done; unfold sat_add64, sat64, i64_min, i64_max; lia).
    rewrite (proj2 (Z.ltb_ge 0 _)) by lia. reflexivity.
  - intros Hq. split.
    + intros d push m. unfold over_quota. rewrite Hq. change (0 <? 0) with false. cbn [andb]. destruct (_ && _); [|done]. intros [= <-]. reflexivity.
    + intros os outs s' Hd Hf E Hg. destruct (lfs_batch_run charge1 others now Hnow base owner repo repo_id Hseg fuel body _ s s' outs Hd Hm E) as (up & s1 & [= <-] & Ha & Hb).
      destruct (Hb eq_refl Hf Hg) as (lfs & Hl & Hmax). exists s1, lfs. split_and!; [exact Ha|exact Hl|]. rewrite Hq in Hmax. unfold i64_max in Hmax. destruct (Z.lt_ge_cases ((storage_totals s1.1 "").2 + lfs) 0); [done|]. lia.
Qed.

(** Under a quota of a thousand bytes 1001 are refused, and 2^63 are granted; under a
    quota of zero one byte is refused. *)
Lemma lfs_quota_gaps_witness : (exists m, batch (Some "1000") "1001" = Err (Limit m)) /\ (exists m, batch (Some "0") "1" = Err (Limit m))
  /\ exists s' href, @lfs_batch_inner (env (Some "1000")) hmac unit r2 (fun w => (w, Ok tt)) (fun w d => (w, d)) 5000 2 (z_to_string (2 ^ 63)) (mkHeaders (Some "o") (Some "r")) (Some "https://h") (d, tt)
       = (s', Ok (Some [mkLfsOut oid (2 ^ 63) (LfsHref "upload" href)])).
Proof.
  split; [eexists; vm_compute; reflexivity|]. split; [eexists; vm_compute; reflexivity|].
  assert (exists sig, @lfs_sig hmac key "R" oid (5000 / 1000 + LFS_TTL) "put" = Ok sig) as [sig Hs] by (eexists; vm_compute; reflexivity).
  refine (proj1 (@lfs_quota_gaps (env (Some "1000")) hmac hmac_law unit r2 (fun w => (w, Ok tt)) (fun w d => (w, d)) 5000 2 (z_to_string (2 ^ 63)) "https://h" "o" "r" "R" key (d, tt) _ _ _ _)
    oid (2 ^ 63) sig tt tt _ _ _ Hs _ _).
  - unfold i64_max. lia.
  - vm_compute. reflexivity.
  - vm_compute. reflexivity.
  - vm_compute. reflexivity.
  - vm_compute. reflexivity.
  - lia.
  - vm_compute. reflexivity.
  - reflexivity.
  - reflexivity.
Defined.
