(* ===== verification/Fetch.v ===== *)
(** * Answering a fetch

    [fetch_v2], [export_bundle] and their helpers of [server/src/repo_do/mod.rs]:
    the request's names are resolved, then one of four answers is made.  An
    unfinished negotiation gets its acknowledgments; a plain clone of a repository
    with one live pack gets that pack as it is, or a signed address of it; a plain
    clone of several packs gets every live object once; anything else gets the
    walk of [Generate].  A body that is streamed is a state and a step, unfolded
    until the step has nothing more. *)
From S2P Require Import Prelude Errors Text Db Scope Jobs Cohort GcBase Compact Refs Push Admin Memo Wire Receive Sign Sha Writer Reads Mark.
From S2P Require Import Ingest Generate Janitor.
Open Scope Z_scope.

(** A whole object out of R2: the request can fail, the object can be missing or
    have no body, and the body comes in chunks. *)
Class R2Get : Type := { get_body : string -> result Error (option (option (list (result Error (list Z))))) }.

(** ** Streams *)

Section Streams.
Context {PF : Platform} {PL : Packetline} {GP : GixPack} {RR : R2}.
Context (W : Type) (charge1 charge0 : W -> W * result Error unit) (repo : string).

(** [PktWriter::default()], written to. *)
Definition framed (m : WrM unit) : string := (m "").1.
Definition err_frame (e : Error) : string := framed (sb_error ("ERR " +:+ client_message e)).
Record FetchStream : Type := mkStream {
  st_set : SendSet; st_next : Z; st_hashed : list Z; st_kind : HashKind; st_prelude : option string }.
Definition pack_head (s : SendSet) : list Z := bytes_of "PACK" ++ be_bytes 4 2 ++ be_bytes 4 (count s).
Definition trailer_of (kind : HashKind) (hashed : list Z) : result Error (list Z) := of_option (Internal "collision detected") (finalize kind hashed).
Definition advance (st : FetchStream) (hashed : list Z) : FetchStream :=
  mkStream (st_set st) (st_next st + 1) hashed (st_kind st) (st_prelude st).
(** The bytes a step hashes and sends; [None] past the end. *)
Definition pack_step (st : FetchStream) : M W Error (FetchStream * option (list Z)) :=
  let n := Z.of_nat (length (ss_reads (st_set st))) in
  if st_next st =? 0 then
    let hdr := pack_head (st_set st) in mret (advance st (st_hashed st ++ hdr), Some hdr)
  else if st_next st <=? n then
    chunk ← pack_chunk W charge1 repo (st_set st) (Z.to_nat (st_next st - 1));
    mret (advance st (st_hashed st ++ chunk), Some chunk)
  else if st_next st =? n + 1 then
    t ← lift (trailer_of (st_kind st) (st_hashed st));
    mret (advance st [], Some t)
  else mret (st, None).
Definition taken (st : FetchStream) : FetchStream := mkStream (st_set st) (st_next st) (st_hashed st) (st_kind st) None.
Definition fetch_step (st : FetchStream) : M W Error (FetchStream * option string) :=
  match st_prelude st with
  | Some p => mret (taken st, Some p)
  | None =>
      r ← pack_step st;
      let last := st_next st =? Z.of_nat (length (ss_reads (st_set st))) + 1 in
      mret (r.1, option_map (fun b => framed (sb_data (text_of b) ≫= fun _ => if last then wr_flush else mret tt)) r.2)
  end.
(** A failed step answers with one error frame and the stream ends: [next] is past
    the end. *)
Definition failed (st : FetchStream) : FetchStream := mkStream (st_set st) u32_max (st_hashed st) (st_kind st) None.
Fixpoint fetch_frames (fuel : nat) (st : FetchStream) (w : W) : W * list string :=
  match fuel with
  | O => (w, [])
  | S f =>
      match fetch_step st w with
      | (w', Ok (st', Some c)) => let r := fetch_frames f st' w' in (r.1, c :: r.2)
      | (w', Ok (st', None)) => (w', [])
      | (w', Err e) => let r := fetch_frames f (failed st) w' in (r.1, err_frame e :: r.2)
      end
  end.
(** Prelude, header, a step for each read, trailer, and one that ends it. *)
Definition stream_fuel (st : FetchStream) : nat := (length (ss_reads (st_set st)) + 4)%nat.

(** The bundle of an export: the same bytes without frames; a failed step cuts it
    short. *)
Definition export_step (st : FetchStream) : M W Error (FetchStream * option (list Z)) :=
  match st_prelude st with
  | Some p => mret (taken st, Some (bytes_of p))
  | None => pack_step st
  end.
Fixpoint export_chunks (fuel : nat) (st : FetchStream) (w : W) : W * list (list Z) :=
  match fuel with
  | O => (w, [])
  | S f =>
      match export_step st w with
      | (w', Ok (st', Some c)) => let r := export_chunks f st' w' in (r.1, c :: r.2)
      | (w', _) => (w', [])
      end
  end.

(** A stored pack, framed as it comes. *)
Record VerbatimStream : Type := mkVerbatim { vs_body : list (result Error (list Z)); vs_prelude : option string; vs_finished : bool }.
Definition verbatim_step (st : VerbatimStream) : M W Error (VerbatimStream * option string) :=
  match vs_prelude st with
  | Some p => mret (mkVerbatim (vs_body st) None (vs_finished st), Some p)
  | None =>
      if vs_finished st then mret (st, None)
      else
        (charge0 : M W Error unit) ≫= fun _ =>
        match vs_body st with
        | Ok chunk :: rest => mret (mkVerbatim rest None false, Some (framed (sb_data (text_of chunk))))
        | Err e :: rest => fail e
        | [] => mret (mkVerbatim [] None true, Some (framed wr_flush))
        end
  end.
Fixpoint verbatim_frames (fuel : nat) (st : VerbatimStream) (w : W) : W * list string :=
  match fuel with
  | O => (w, [])
  | S f =>
      match verbatim_step st w with
      | (w', Ok (st', Some c)) => let r := verbatim_frames f st' w' in (r.1, c :: r.2)
      | (w', Ok (st', None)) => (w', [])
      | (w', Err e) => let r := verbatim_frames f (mkVerbatim (vs_body st) (vs_prelude st) true) w' in (r.1, err_frame e :: r.2)
      end
  end.
Definition verbatim_fuel (st : VerbatimStream) : nat := (length (vs_body st) + 3)%nat.

(** A pack of no objects. *)
Definition empty_pack (kind : HashKind) : result Error (list Z) :=
  let head := bytes_of "PACK" ++ be_bytes 4 2 ++ be_bytes 4 0 in
  t ← of_option (Internal "empty-pack trailer") (finalize kind head);
  Ok (head ++ t).
End Streams.

(** ** The clone that does not walk *)

Definition live_list (d : Db) : list (string * PackSql) := List.filter (fun kv => bool_decide (pk_state kv.2 = Live)) (map_to_list (t_packs d)).
(** Exactly one live pack, with a row for every want. *)
Definition consolidated_pack (wants : list string) : DoM (option (string * Z)) := fun d =>
  match live_list d with
  | [(pack, r)] =>
      match collect (lookup_one d) wants with
      | Err e => (d, Err e)
      | Ok ls => (d, Ok (if forallb (fun l => match l with Some loc => String.eqb (lc_pack loc) pack | None => false end) ls && (0 <=? pk_bytes r)
                         then Some (pack, pk_bytes r) else None))
      end
  | _ => (d, Ok None)
  end.
Record DedupRow : Type := mkDedup { dr_sha : string; dr_pack : string; dr_idx : Z }.
(** The first row of each run of a sha is marked; [last] carries the run across
    pages. *)
Fixpoint mark_dedup (rows : list DedupRow) (packs : list PackSlice) (by_pack : gmap string nat) (last : string)
    : result Error (list PackSlice * string) :=
  match rows with
  | [] => Ok (packs, last)
  | r :: rows' =>
      if String.eqb (dr_sha r) last then mark_dedup rows' packs by_pack last
      else
        i ← of_option (Internal "object row in unlisted pack") (by_pack !! dr_pack r);
        packs' ← set_bit packs i (mkLoc (dr_pack r) (dr_idx r) 0 0 Blob 0);
        mark_dedup rows' packs' by_pack (dr_sha r)
  end.
Definition sha_le (a b : DedupRow) : Prop := String.le (dr_sha a) (dr_sha b).
#[global] Instance sha_le_dec : RelDecision sha_le.
Proof. intros a b. unfold sha_le. apply _. Defined.
(** [WHERE pack_id IN (…) AND sha > ? ORDER BY sha LIMIT 5000]. *)
Definition dedup_rows (d : Db) (ids : list string) (last : string) : list DedupRow :=
  omap (fun kv : (string * string) * ObjSql =>
    if bool_decide (kv.1.2 ∈ ids) && negb (bool_decide (String.le kv.1.1 last)) then Some (mkDedup kv.1.1 kv.1.2 (ob_idx kv.2)) else None)
    (map_to_list (t_objects d)).
Definition dedup_page (d : Db) (ids : list string) (last : string) : list DedupRow := take PAGE (merge_sort sha_le (dedup_rows d ids last)).
Fixpoint dedup_loop (fuel : nat) (d : Db) (ids : list string) (by_pack : gmap string nat) (packs : list PackSlice) (last : string)
    : result Error (list PackSlice) :=
  match fuel with
  | O => Ok packs
  | S f =>
      let rows := dedup_page d ids last in
      r ← mark_dedup rows packs by_pack last;
      if (length rows <? PAGE)%nat then Ok r.1 else dedup_loop f d ids by_pack r.1 r.2
  end.
Fixpoint live_slices (live : list (string * PackSql)) (packs : list PackSlice) (by_pack : gmap string nat)
    : result Error (list PackSlice * gmap string nat) :=
  match live with
  | [] => Ok (packs, by_pack)
  | (id, r) :: live' =>
      if negb ((0 <=? pk_count r) && (pk_count r <=? u32_max)) then Err (Internal "count")
      else if negb ((0 <=? pk_bytes r) && (pk_bytes r <=? u64_max)) then Err (Internal "bytes")
      else let '(ps, bp, _) := push_slice packs by_pack id (pk_count r) (pk_bytes r) in live_slices live' ps bp
  end.
Definition no_walk_set `{Platform} (b : ReqBudget) : DoM (option SendSet) := fun d =>
  let live := live_list d in
  if (length live <? 2)%nat then (d, Ok None)
  else
    (d, s ← live_slices live [] ∅;
        packs ← dedup_loop (S (size (t_objects d))) d (map fst live) s.2 s.1 "";
        set ← plan_reads b d (set_packs packs ∅ set_default);
        Ok (Some set)).

(** ** The handler *)

Section Handler.
Context {PF : Platform} {PL : Packetline} {HM : Hmac} {PC : PackCodec} {GP : GixPack} {RR : R2} {RG : R2Get} {GO : GitObjects} {GT : GitTrees}.
Context (W : Type) (charge1 : W -> W * result Error unit) (budget : W -> ReqBudget).
Context (others : W -> Db -> W * Db) (now : Z).
Abbreviation FM := (M (Fs W) Error).

(** [String::from_utf8]: a lossy decoding changes what is not UTF-8. *)
Definition from_utf8 (s : string) : option string := if String.eqb (lossy s) s then Some s else None.
Definition no_ref (q : string) : Error := Protocol ("couldn't find remote ref " +:+ q).
Definition wanted_ref (name : string) : DoM (string * string) :=
  head ← meta "head";
  q ← (if String.eqb name "HEAD" then mret head else lift (of_option (Protocol "bad want-ref") (from_utf8 name)));
  r ← gets (fun d => t_refs d !! q);
  row ← lift (of_option (no_ref q) r);
  id ← lift (oid (rf_target row));
  mret (id, name).
Definition wanted_refs_of (names : list string) : DoM (list (string * string)) :=
  for_fold (fun acc name => p ← wanted_ref name; mret (acc ++ [p])) names [].

(** git's search order for a short ref name. *)
Definition candidates (q : string) : list string :=
  [q; "refs/" +:+ q; "refs/tags/" +:+ q; "refs/heads/" +:+ q; "refs/remotes/" +:+ q; "refs/remotes/" +:+ q +:+ "/HEAD"].
Definition first_ref (d : Db) (names : list string) : option RefSql := head (omap (fun n => t_refs d !! n) names).
(** [data.lines().find_map(|l| l.strip_prefix(b"object "))]. *)
Definition drop_cr (l : string) : string := unwrap_or l (strip_suffix (String (chr 13) "") l).
Definition object_line (data : list Z) : option string := head (omap (fun l => strip_prefix "object " (drop_cr l)) (split_on nl (text_of data))).
(** One level of a tag that has no peeled column. *)
Definition peel_tip (repo id : string) : FM string :=
  ls ← on_db W (index_lookup [id]);
  match ls with
  | [Some l] =>
      if bool_decide (lc_kind l = Tag) then
        es ← awaiting W others (on_world W (read_entries W charge1 repo [(id, l)]));
        match es with
        | e :: _ =>
            o ← lift (decode_entry e.2);
            match object_line o.2 with
            | Some hex => lift (of_option (Internal "bad tag object") (oid_from_hex hex))
            | None => mret id
            end
        | [] => mret id
        end
      else mret id
  | _ => mret id
  end.
Definition excluded_tip (repo name : string) : FM string :=
  q ← lift (of_option (no_ref (lossy name)) (from_utf8 name));
  r ← gets (fun s => first_ref (fs_db W s) (candidates q));
  row ← lift (of_option (no_ref q) r);
  id ← lift (oid (unwrap_or (rf_target row) (rf_peeled row)));
  peel_tip repo id.

Definition TTL : Z := GRACE_MS / 1000 - 600.
(** What is answered: bytes, a stream of frames, a stored pack; and the
    subrequests reported. *)
Inductive Body : Type := Whole (b : string) | Packed (st : FetchStream) | Stored (st : VerbatimStream) | Bundle (st : FetchStream).
Record Resp : Type := mkResp { rp_body : Body; rp_sub : option (Z * Z) }.

Definition has_scheme (base : string) (uris : option (list string)) : bool :=
  let proto := if starts_with "https://" base then "https" else "http" in
  existsb (String.eqb proto) (unwrap_or [] uris).
Definition pack_uri (base owner repo pack : string) (exp : Z) (repo_id sig : string) : string :=
  base +:+ "/" +:+ owner +:+ "/" +:+ repo +:+ "/_packs/" +:+ pack +:+ ".pack?e=" +:+ z_to_string exp +:+ "&r=" +:+ repo_id +:+ "&s=" +:+ sig.
Definition pack_uri_response (args : FetchArgs) (pack : string) (bytes : Z) (hdr : RepoHeaders) (base : option string) (repo_id : string)
    (acks : list string) (wanted : list (string * string)) : FM (option Resp) :=
  kind ← gets (fun s => obj_kind (fs_db W s));
  let ds := hash_len kind in
  match base, h_owner hdr, h_repo hdr, 12 + ds <=? bytes with
  | Some b, Some owner, Some repo, true =>
      if negb (has_scheme b (fa_packfile_uris args)) then mret None
      else match signing_key with
           | None => mret None
           | Some key =>
               let exp := now / 1000 + TTL in
               t ← awaiting W others (fun s =>
                 let r := on_world W (read_range W charge1 (key_pack repo_id pack) (bytes - ds) ds) s in (r.1, Ok r.2));
               match (t : result Error (list Z)) with
               | Err _ => mret None
               | Ok trailer =>
                   sig ← lift (pack_sig key repo_id pack exp);
                   let uri := hex_digest trailer +:+ " " +:+ pack_uri b owner repo pack exp repo_id sig in
                   match write_fetch_prelude args acks wanted [] [] [uri] "" with
                   | (_, Err e) => fail e
                   | (_, Ok false) => fail (Internal "packfile-uris prelude")
                   | (out, Ok true) =>
                       e ← lift (empty_pack kind);
                       used ← gets (fun s => (used (budget (fs_w W s)), max_subrequests (budget (fs_w W s))));
                       mret (Some (mkResp (Whole ((sb_data (text_of e) ≫= fun _ => wr_flush) out).1) (Some used)))
                   end
               end
           end
  | _, _, _, _ => mret None
  end.

Definition plain_clone (args : FetchArgs) : bool :=
  null (fa_haves args) && null (fa_shallow args) && negb (is_some (fa_deepen args)) && negb (is_some (fa_deepen_since args))
  && null (fa_deepen_not args) && negb (fa_deepen_relative args) && negb (is_some (fa_filter args)).
Definition ask_of (args : FetchArgs) (wants nots : list string) : Ask :=
  mkAsk wants (fa_haves args) (fa_filter args) (fa_deepen args) (fa_deepen_since args) nots (fa_deepen_relative args)
    (fa_include_tag args) (fa_shallow args).
Definition prelude (args : FetchArgs) (acks : list string) (wanted : list (string * string)) (shallow unshallow : list string) : FM string :=
  match write_fetch_prelude args acks wanted shallow unshallow [] "" with
  | (out, Ok _) => mret out
  | (_, Err e) => fail e
  end.
(** The stored pack, one GET. *)
Definition stored_pack (args : FetchArgs) (repo pack : string) (acks : list string) (wanted : list (string * string)) : FM Resp :=
  let key := key_pack repo pack in
  on_world W (charge1 : M W Error unit) ≫= fun _ =>
  o ← awaiting W others (lift (get_body key));
  b ← lift (of_option (Storage ("missing " +:+ key)) o);
  body ← lift (of_option (Storage ("no body for " +:+ key)) b);
  p ← prelude args acks wanted [] [];
  sub ← gets (fun s => (used (budget (fs_w W s)), max_subrequests (budget (fs_w W s))));
  mret (mkResp (Stored (mkVerbatim body (Some p) false)) (Some sub)).
Definition new_stream (set : SendSet) (kind : HashKind) (p : string) : FetchStream := mkStream set 0 [] kind (Some p).
Definition projected (set : SendSet) : FM (Z * Z) :=
  gets (fun s => (sat_addu32 (used (budget (fs_w W s))) (Z.min (Z.of_nat (length (ss_reads set))) u32_max), max_subrequests (budget (fs_w W s)))).

(** What the client is sent: everything live, or what the walk finds. *)
Definition the_set (fuel : nat) (repo : string) (args : FetchArgs) (wants nots : list string) : FM (option SendSet) :=
  clone ← (if plain_clone args
           then s ← gets id; on_db W (no_walk_set (budget (fs_w W s)))
           else mret None);
  match clone with
  | Some set => mret (Some set)
  | None => send_set W charge1 budget others repo fuel (ask_of args wants nots)
  end.
(** [None] when the walk's fuel ends. *)
Definition fetch_v2_inner (fuel : nat) (body : string) (hdr : RepoHeaders) (base : option string) : FM (option Resp) :=
  match parse_v2_command body with
  | None => fail (Internal "fuel")
  | Some (Err e) => fail e
  | Some (Ok (LsRefs _)) => fail (Protocol "not fetch")
  | Some (Ok (Fetch args)) =>
      kind ← on_db W (check_object_format (fa_object_format args));
      repo ← on_db W (meta "repo_id");
      wanted ← (if null (fa_want_refs args) then mret [] else on_db W (wanted_refs_of (fa_want_refs args)));
      let wants := fa_wants args ++ map fst wanted in
      nots ← for_fold (fun acc name => id ← excluded_tip repo name; mret (acc ++ [id])) (fa_deepen_not args) [];
      acks ← on_db W (known (fa_haves args));
      if negb (fa_done args || null (fa_haves args) || (length acks =? length (fa_haves args))%nat)
      then p ← prelude args acks [] [] []; mret (Some (mkResp (Whole p) None))
      else
        one ← (if plain_clone args then on_db W (consolidated_pack wants) else mret None);
        early ← match one with
                | Some (pack, bytes) =>
                    r ← pack_uri_response args pack bytes hdr base repo acks wanted;
                    match r with
                    | Some resp => mret (Some resp)
                    | None => resp ← stored_pack args repo pack acks wanted; mret (Some resp)
                    end
                | None => mret None
                end;
        match early with
        | Some resp => mret (Some resp)
        | None =>
            so ← the_set fuel repo args wants nots;
            match so with
            | None => mret None
            | Some set =>
                p ← prelude args acks wanted (ss_shallow set) (ss_unshallow set);
                sub ← projected set;
                mret (Some (mkResp (Packed (new_stream set kind p)) (Some sub)))
            end
        end
  end.

(** ** The export *)

Definition bundle_line (target name : string) : string := target +:+ " " +:+ name +:+ nl_s.
Definition bundle_header (kind : HashKind) (head : string) (refs : list RefRow) : string :=
  "# v3 git bundle" +:+ nl_s
  +:+ (if bool_decide (kind = Sha256) then "@object-format=sha256" +:+ nl_s else "")
  +:+ concat_str (map (fun r => bundle_line (rr_target r) (rr_name r)) refs)
  +:+ match List.find (fun r => String.eqb (rr_name r) head) refs with Some r => bundle_line (rr_target r) "HEAD" | None => "" end
  +:+ nl_s.
Definition export_inner (fuel : nat) : FM (option Resp) :=
  lr ← on_db W (fun d => (d, list_refs d));
  let wants := sort_dedup (map rr_target lr.2) in
  repo ← on_db W (meta "repo_id");
  so ← send_set W charge1 budget others repo fuel (mkAsk wants [] None None None [] false false []);
  match so with
  | None => mret None
  | Some set =>
      kind ← gets (fun s => obj_kind (fs_db W s));
      sub ← projected set;
      mret (Some (mkResp (Bundle (new_stream set kind (bundle_header kind lr.1 lr.2))) (Some sub)))
  end.

(** [fetch_v2] and [export_bundle]: a storage or internal error is raised to the
    host, any other is answered. *)
Inductive Served : Type := Raised (m : string) | Refused (r : DoResponse) | Given (r : Resp).
Definition served (r : Fs W * result Error (option Resp)) : option Served :=
  match r.2 with
  | Ok None => None
  | Ok (Some resp) => Some (Given resp)
  | Err (Storage m) => Some (Raised (message (Storage m)))
  | Err (Internal m) => Some (Raised (message (Internal m)))
  | Err e => Some (Refused (do_error_response e (used (budget (fs_w W r.1)))))
  end.
End Handler.
