(* ===== verification/FetchFacts.v ===== *)
(** * What a fetch's answer is

    The frames a fetch streams, put together by the client, are a pack: its header
    with the exact count, the bytes of every entry of the set, the hash of all of
    it; or a prefix of that and an error.  The clone that does not walk sends every
    live object exactly once. *)
From S2P Require Import Prelude Errors Text Db Scope Jobs Cohort GcBase Compact Refs Push Admin Memo Wire WireFacts Receive Answers Sign Sha Writer Reads Mark MarkFacts.
From S2P Require Import BuildFacts Ingest IngestFacts Intake Generate Plan Janitor Fetch.
Open Scope Z_scope.

Lemma text_of_app a b : text_of (a ++ b) = text_of a +:+ text_of b.
Proof.
  unfold text_of. rewrite map_app. induction (map _ a) as [|c l IH]; [done|]. cbn. by rewrite IH.
Qed.
Lemma concat_str_app a b : concat_str (a ++ b) = concat_str a +:+ concat_str b.
Proof. induction a as [|x a IH]; [done|]. cbn. by rewrite IH, app_assoc_s. Qed.

Lemma str_take_all n s : (String.length s <= n)%nat -> str_take n s = s.
Proof. revert n. induction s as [|c s IH]; intros [|n] H; cbn in *; try done; [lia|]. by rewrite IH by lia. Qed.

Lemma omap_length {A B} (f : A -> option B) l : (length (omap f l) <= length l)%nat.
Proof. induction l as [|x l IH]; [done|]. cbn [omap list_omap]. destruct (f x); cbn in *; lia. Qed.
Lemma omap_mono {A B} (f g : A -> option B) l : (forall x, is_Some (f x) -> is_Some (g x)) -> (length (omap f l) <= length (omap g l))%nat.
Proof.
  intros H. induction l as [|x l IH]; [done|]. cbn [omap list_omap]. specialize (H x). destruct (f x); [destruct H as [y ->]; [done|]; cbn in *; lia|].
  destruct (g x); cbn in *; lia.
Qed.
Lemma omap_fewer {A B} (f g : A -> option B) l x : (forall x, is_Some (f x) -> is_Some (g x)) -> x ∈ l -> f x = None -> is_Some (g x) ->
  (length (omap f l) < length (omap g l))%nat.
Proof.
  intros H Hx Hf Hg. induction l as [|y l IH]; [by apply elem_of_nil in Hx|]. pose proof (omap_mono f g l H) as Hm. cbn [omap list_omap].
  apply elem_of_cons in Hx as [<-|Hx]; [rewrite Hf; destruct Hg as [z ->]; cbn in *; lia|]. specialize (IH Hx). specialize (H y).
  destruct (f y); [destruct H as [z ->]; [done|]; cbn in *; lia|]. destruct (g y); cbn in *; lia.
Qed.

Section Stream.
Context {PF : Platform} {PL : Packetline} {LAWS : PacketlineLaws} {GP : GixPack} {RR : R2}.
Context (object : string -> option (list Z)) {RL : R2Laws object}.
Context (W : Type) (charge1 charge0 : W -> W * result Error unit) (repo : string).

(** ** Frames *)

(** [x] is what a client reads as the bytes [b] of band 1, then [tail]. *)
Definition carries (b : string) (tail : list Pkt) (x : string) : Prop :=
  exists pieces, concat_str pieces = b /\ encodes (map (fun c => Data (String (chr 1) c)) pieces ++ tail) x.
Lemma carries_app a b tail x y : carries a [] x -> carries b tail y -> carries (a +:+ b) tail (x +:+ y).
Proof.
  intros (p & Ep & Hp) (q & Eq & Hq). rewrite app_nil_r in Hp. exists (p ++ q). rewrite concat_str_app, Ep, Eq. split; [done|].
  rewrite map_app, <- app_assoc. by apply encodes_app.
Qed.
Lemma carries_frame b : carries b [] (framed (sb_data b ≫= fun _ => mret tt)).
Proof.
  destruct (sb_data_run b "") as (y & E & Hy). exists (Text.chunks MAX_BAND_DATA b). split; [apply chunks_concat; unfold MAX_BAND_DATA; lia|].
  unfold framed, mbind, M_bind. rewrite E. by rewrite app_nil_r.
Qed.
Lemma carries_last b : carries b [Flush] (framed (sb_data b ≫= fun _ => wr_flush)).
Proof.
  destruct (sb_data_run b "") as (y & E & Hy). exists (Text.chunks MAX_BAND_DATA b). split; [apply chunks_concat; unfold MAX_BAND_DATA; lia|].
  unfold framed, mbind, M_bind. rewrite E. cbn. apply encodes_app; [done|]. rewrite <- (app_empty_r flush_to_write).
  apply (enc_cons PFlush); [apply pl_flush|constructor].
Qed.
(** What the client is told of an error. *)
Definition err_text (e : Error) : string := first_chunk ("ERR " +:+ client_message e).
Lemma err_text_eq e : err_text e = "ERR " +:+ client_message e.
Proof.
  unfold err_text, first_chunk. set (s := "ERR " +:+ client_message e).
  assert (String.length s <= MAX_BAND_DATA)%nat as Hl.
  { unfold s. rewrite length_app_s. unfold client_message. rewrite length_map_s.
    match goal with |- context [str_take 512 ?x] => pose proof (str_take_length 512 x) end. unfold MAX_BAND_DATA. change (String.length "ERR ") with 4%nat. lia. }
  assert (exists c s', s = String c s') as (c & s' & E) by by eexists _, _. clearbody s. subst s. unfold Text.chunks.
  cbn [String.length chunks_fuel str_empty head unwrap_or]. by apply str_take_all.
Qed.
Lemma err_carries e : carries "" [Data (String (chr 3) ("ERR " +:+ client_message e))] (err_frame e).
Proof.
  exists []. split; [done|]. cbn [map app]. unfold err_frame, framed, sb_error. fold (err_text e). rewrite err_text_eq.
  pose proof (err_text_eq e) as Et. assert (String.length (err_text e) <= MAX_BAND_DATA)%nat as Hl.
  { unfold err_text, first_chunk. pose proof (chunks_sizes MAX_BAND_DATA ("ERR " +:+ client_message e) ltac:(unfold MAX_BAND_DATA; lia)) as Hc.
    destruct (Text.chunks _ _) as [|c cs]; [cbn; lia|]. apply Forall_cons in Hc as [[_ Hc] _]. exact Hc. }
  rewrite Et in Hl. destruct (pl_data (String (chr 3) ("ERR " +:+ client_message e))) as (x & Hx & Hr); [intros E; discriminate E|unfold MAX_PKT_DATA, MAX_BAND_DATA, str_len in *; cbn [String.length] in *; lia|].
  rewrite (pl_band ChError); [|intros E; discriminate E|exact Hl]. cbn [channel_byte]. rewrite Hx. cbn. rewrite <- (app_empty_r x). by apply (enc_cons (PData _)); [|constructor].
Qed.

(** ** The steps *)

Definition obj (p : string) : list Z := unwrap_or [] (object (key_pack repo p)).
Lemma pack_chunk_ok set i r w w' bs : reads_ok obj (ss_packs set) (ss_reads set) -> ss_reads set !! i = Some r ->
  pack_chunk W charge1 repo set i w = (w', Ok bs) -> bs = read_bytes obj (ss_packs set) r.
Proof.
  intros Hr Hi. unfold reads_ok in Hr. rewrite Forall_forall in Hr. destruct (Hr r (list_elem_of_lookup_2 _ _ _ Hi)) as (p & Hp & [_ [R1 [R2 R3]] R4]).
  unfold pack_chunk. rewrite Hi. intros (p' & w1 & [= <- Ep] & (buf & w2 & Hb & (es & w3 & He & [= <- <-])%bind_ok)%bind_ok)%bind_ok.
  rewrite Hp in Ep. cbn in Ep. injection Ep as <-. apply (read_range_ok object) in Hb as (o & Ho & Hin & ->); [|lia..].
  unfold read_bytes. rewrite Hp. unfold obj. rewrite Ho. cbn [unwrap_or]. f_equal. unfold lift in He. injection He as _ He.
  apply collect_Forall2 in He. revert es He. induction R4 as [|e ents (E1 & E2 & E3) _ IH]; intros es He; inversion He as [|? y ? ys Hy Hys]; subst; [done|].
  cbn [map]. f_equal; [|by apply IH]. unfold cut_ent, sat_subu64 in Hy. destruct (_ <=? _); [|done]. injection Hy as <-.
  rewrite slice_slice by lia. f_equal. lia.
Qed.

Section Set_.
Context (set : SendSet) (kind : HashKind) (HR : reads_ok obj (ss_packs set) (ss_reads set)).
Context (HN : Z.of_nat (length (ss_reads set)) + 1 < u32_max).
Abbreviation n := (length (ss_reads set)).
Definition data_from (i : nat) : list Z := concat (map (read_bytes obj (ss_packs set)) (drop i (ss_reads set))).
(** What can go wrong: a read, or the hash of all the bytes. *)
Definition fault (all : list Z) (e : Error) : Prop :=
  (exists i w w', (i < n)%nat /\ pack_chunk W charge1 repo set i w = (w', Err e)) \/ finalize kind all = None.
(** How the rest of a stream ends: the rest of the bytes, the hash of all of them
    and a flush, or a part of it and an error. *)
Definition ends_as (hashed rest : list Z) (x : string) : Prop :=
  (exists t, finalize kind (hashed ++ rest) = Some t /\ carries (text_of (rest ++ t)) [Flush] x)
  \/ (exists sent e, fault (hashed ++ rest) e /\ sent `prefix_of` rest
      /\ carries (text_of sent) [Data (String (chr 3) ("ERR " +:+ client_message e))] x).
Lemma data_from_S i r : ss_reads set !! i = Some r -> data_from i = read_bytes obj (ss_packs set) r ++ data_from (S i).
Proof. intros Hi. unfold data_from. rewrite (drop_S _ _ _ Hi). done. Qed.
Lemma data_from_end : data_from n = [].
Proof. unfold data_from. by rewrite drop_all. Qed.
Lemma ends_more hashed chunk rest x y : carries (text_of chunk) [] x -> ends_as (hashed ++ chunk) rest y -> ends_as hashed (chunk ++ rest) (x +:+ y).
Proof.
  intros Hx [(t & Ht & Hy)|(sent & e & Hf & [k ->] & Hy)].
  - left. exists t. rewrite app_assoc. split; [done|]. rewrite <- app_assoc, text_of_app. by apply carries_app.
  - right. exists (chunk ++ sent), e. rewrite app_assoc. split_and!; [done|exists k; by rewrite app_assoc|]. rewrite text_of_app. by apply carries_app.
Qed.
(** After an error there is nothing more. *)
Lemma failed_ends f st w : st_set st = set -> fetch_frames W charge1 repo f (failed st) w = (w, []).
Proof.
  intros Es. destruct f as [|f]; [done|]. cbn [fetch_frames]. unfold fetch_step, pack_step, failed. cbn. rewrite Es.
  rewrite (proj2 (Z.leb_gt _ _)) by lia. rewrite (proj2 (Z.eqb_neq u32_max _)) by lia. done.
Qed.
Lemma err_ends hashed rest e : fault (hashed ++ rest) e -> ends_as hashed rest (concat_str [err_frame e]).
Proof.
  intros Hf. right. exists [], e. split_and!; [done|by exists rest|]. cbn [concat_str]. rewrite app_empty_r. apply err_carries.
Qed.
Lemma frames_from fuel i hashed w : (i <= n)%nat -> (n - i + 2 <= fuel)%nat ->
  ends_as hashed (data_from i) (concat_str (fetch_frames W charge1 repo fuel (mkStream set (Z.of_nat i + 1) hashed kind None) w).2).
Proof.
  revert i hashed w. induction fuel as [|f IH]; intros i hashed w Hi Hf; [lia|]. cbn [fetch_frames].
  unfold fetch_step, pack_step. cbn [st_prelude st_next st_set st_hashed st_kind]. rewrite (proj2 (Z.eqb_neq (Z.of_nat i + 1) 0)) by lia.
  destruct (Nat.eq_dec i n) as [->|Hne].
  - rewrite (proj2 (Z.leb_gt _ _)) by lia. rewrite Z.eqb_refl. unfold lift, trailer_of, mbind, M_bind.
    destruct (finalize kind hashed) as [t|] eqn:Et; cbn [of_option];
      [|rewrite failed_ends by done; apply err_ends; right; by rewrite data_from_end, app_nil_r].
    rewrite data_from_end. left. exists t. rewrite app_nil_r. split; [done|]. destruct f as [|f]; [lia|]. cbn [fetch_frames mret M_ret option_map fst snd].
    unfold fetch_step, pack_step, advance. cbn [st_prelude st_next st_set st_hashed st_kind].
    rewrite (proj2 (Z.eqb_neq _ 0)) by lia. rewrite (proj2 (Z.leb_gt _ _)) by lia. rewrite (proj2 (Z.eqb_neq _ _)) by lia.
    cbn [mret M_ret mbind M_bind option_map fst snd concat_str]. rewrite app_empty_r. apply carries_last.
  - rewrite (proj2 (Z.leb_le _ _)) by lia. replace (Z.to_nat (Z.of_nat i + 1 - 1)) with i by lia.
    destruct (lookup_lt_is_Some_2 (ss_reads set) i) as [r Hr]; [lia|]. unfold mbind, M_bind.
    destruct (pack_chunk W charge1 repo set i w) as [w1 [chunk|e]] eqn:Ec;
      [|rewrite failed_ends by done; apply err_ends; left; exists i, w, w1; split; [lia|exact Ec]].
    apply (pack_chunk_ok _ _ _ _ _ _ HR Hr) in Ec as ->. rewrite (data_from_S _ _ Hr).
    cbn [mret M_ret option_map fst snd concat_str]. rewrite (proj2 (Z.eqb_neq (Z.of_nat i + 1) _)) by lia.
    apply ends_more; [apply carries_frame|]. unfold advance. cbn [st_prelude st_next st_set st_hashed st_kind].
    replace (Z.of_nat i + 1 + 1) with (Z.of_nat (S i) + 1) by lia. apply IH; lia.
Qed.
(** The whole stream: the prelude, then the pack. *)
Lemma frames_whole p w : exists x, concat_str (fetch_frames W charge1 repo (stream_fuel (new_stream set kind p)) (new_stream set kind p) w).2 = p +:+ x
  /\ ends_as [] (pack_head set ++ data_from 0) x.
Proof.
  unfold stream_fuel, new_stream. cbn [st_set]. replace (n + 4)%nat with (S (S (n + 2))) by lia. remember (n + 2)%nat as f eqn:Ef.
  cbn [fetch_frames]. unfold fetch_step, pack_step, mbind, M_bind, mret, M_ret, advance, taken. cbn [st_prelude st_set st_next st_hashed st_kind fst snd option_map concat_str].
  change (0 =? 0) with true. cbn [fst snd option_map st_prelude concat_str]. rewrite (proj2 (Z.eqb_neq 0 _)) by lia. eexists. split; [reflexivity|]. apply ends_more; [apply carries_frame|].
  replace (0 + 1) with (Z.of_nat 0 + 1) by lia. apply frames_from; lia.
Qed.
End Set_.

(** C8: a fetch streams one whole pack or says that it could not.  The frames of a
    planned set are the prelude and then, on band 1, the pack: its header with the
    count of the entries, the stored bytes of each entry as they are, the hash of
    all of it, and the flush that ends the answer.  Only when a read fails, or the
    hash is refused, it is a prefix of that followed by the error on band 3, and
    nothing after it: no client takes a cut answer for a whole one. *)
Theorem fetch_stream_exact (d : Db) (ids : list string) (set : SendSet) (ents : list (string * ObjLoc)) (kind : HashKind) (p : string) (w : W) :
  sends d ids set ents -> Forall (inside obj) ents -> Z.of_nat (length (ss_reads set)) + 1 < u32_max ->
  exists x, concat_str (fetch_frames W charge1 repo (stream_fuel (new_stream set kind p)) (new_stream set kind p) w).2 = p +:+ x
  /\ let pack := bytes_of "PACK" ++ be_bytes 4 2 ++ be_bytes 4 (Z.of_nat (length ents) mod 2 ^ 32) ++ concat (map (entry_bytes obj) ents) in
     (exists t, finalize kind pack = Some t /\ carries (text_of (pack ++ t)) [Flush] x)
     \/ (exists sent e, fault set kind pack e /\ sent `prefix_of` pack
         /\ carries (text_of sent) [Data (String (chr 3) ("ERR " +:+ client_message e))] x).
Proof.
  intros H Hin Hn. destruct (frames_whole set kind (sn_reads _ _ _ _ H obj Hin) Hn p w) as (x & Ex & Hx). exists x. split; [exact Ex|].
  unfold ends_as, pack_head, data_from in Hx. rewrite (sn_count _ _ _ _ H), drop_0, (sn_bytes _ _ _ _ H), <- !app_assoc in Hx. exact Hx.
Qed.
End Stream.

(** ** The stored pack, as it is *)

Section Stored.
Context {PL : Packetline} {LAWS : PacketlineLaws}.
Context (W : Type) (charge0 : W -> W * result Error unit).
Definition chunk_bytes (c : result Error (list Z)) : list Z := match c with Ok b => b | Err _ => [] end.
Definition body_bytes (body : list (result Error (list Z))) : list Z := concat (map chunk_bytes body).
(** What can go wrong: the deadline, or a chunk of the body. *)
Definition cut (body : list (result Error (list Z))) (e : Error) : Prop := (exists w w', charge0 w = (w', Err e)) \/ Err e ∈ body.
Lemma finished_ends f body w : verbatim_frames W charge0 f (mkVerbatim body None true) w = (w, []).
Proof. by destruct f. Qed.
Lemma verbatim_from fuel body w : (length body + 2 <= fuel)%nat ->
  let x := concat_str (verbatim_frames W charge0 fuel (mkVerbatim body None false) w).2 in
  (Forall (fun c => exists b, c = Ok b) body /\ carries (text_of (body_bytes body)) [Flush] x)
  \/ (exists sent e, cut body e /\ sent `prefix_of` body_bytes body /\ carries (text_of sent) [Data (String (chr 3) ("ERR " +:+ client_message e))] x).
Proof.
  revert fuel w. assert (forall e, carries "" [Data (String (chr 3) ("ERR " +:+ client_message e))] (concat_str [err_frame e])) as Herr.
  { intros e. cbn [concat_str]. rewrite app_empty_r. apply err_carries. }
  induction body as [|c body IH]; intros [|f] w Hf; cbn [length] in Hf; try lia; cbn [verbatim_frames];
    unfold verbatim_step; cbn [vs_prelude vs_finished vs_body]; unfold mbind, M_bind;
    destruct (charge0 w) as [w1 [u|e]] eqn:Ec; cbn [vs_body vs_prelude]; cbv zeta;
    try (rewrite finished_ends; right; exists [], e; split_and!; [left; by exists w, w1|apply prefix_nil|apply Herr]).
  - cbn [mret M_ret fst snd option_map concat_str]. rewrite finished_ends. cbn [snd concat_str]. left. split; [constructor|]. rewrite app_empty_r.
    exists []. split; [done|]. cbn. rewrite <- (app_empty_r flush_to_write). apply (enc_cons PFlush); [apply pl_flush|constructor].
  - destruct c as [b|e]; cbn [mret M_ret fst snd fail].
    + specialize (IH f w1 ltac:(lia)). cbv zeta in IH. cbn [concat_str].
      assert (carries (text_of b) [] (framed (sb_data (text_of b)))) as Hb.
      { pose proof (carries_frame (text_of b)) as H. destruct (sb_data_run (text_of b) "") as (y & E & _). unfold framed, mbind, M_bind in *. by rewrite E in *. }
      change (body_bytes (Ok b :: body)) with (b ++ body_bytes body).
      destruct IH as [[Hok Hx]|(sent & e & Hcut & [k Hk] & Hx)].
      * left. split; [constructor; [by exists b|done]|]. rewrite text_of_app. by apply carries_app.
      * right. exists (b ++ sent), e. split_and!; [destruct Hcut; [by left|right; by right]|exists k; by rewrite Hk, app_assoc|]. rewrite text_of_app. by apply carries_app.
    + rewrite finished_ends. right. exists [], e. split_and!; [right; left|apply prefix_nil|apply Herr].
Qed.
Lemma verbatim_whole p body w :
  let st := mkVerbatim body (Some p) false in
  concat_str (verbatim_frames W charge0 (verbatim_fuel st) st w).2
  = p +:+ concat_str (verbatim_frames W charge0 (length body + 2) (mkVerbatim body None false) w).2.
Proof. unfold verbatim_fuel. cbn [vs_body]. replace (length body + 3)%nat with (S (length body + 2)) by lia. done. Qed.
End Stored.
Lemma live_list_elem d p : p ∈ map fst (live_list d) <-> pack_live d p = true.
Proof.
  unfold live_list, pack_live. rewrite elem_of_map. split.
  - intros ([p' r] & <- & [Hin Hl]%elem_of_filter_b). apply elem_of_map_to_list in Hin. cbn in *. by rewrite Hin.
  - destruct (t_packs d !! p) as [r|] eqn:E; [|done]. intros Hl. exists (p, r). split; [done|]. apply elem_of_filter_b. split; [by apply elem_of_map_to_list|]. exact Hl.
Qed.
(** The one live pack has every live object, the wanted ones among them. *)
Lemma one_pack wants d d' pack bytes : consolidated_pack wants d = (d', Ok (Some (pack, bytes))) ->
  (forall x, live_sha d x <-> is_Some (t_objects d !! (x, pack))) /\ Forall (live_sha d) wants.
Proof.
  unfold consolidated_pack. pose proof (live_list_elem d) as Hl. destruct (live_list d) as [|[p r] [|? ?]]; [done| |done].
  assert (forall q, pack_live d q = true <-> q = p) as Hp by (intros q; rewrite <- Hl; cbn; apply list_elem_of_singleton).
  destruct (collect (lookup_one d) wants) as [ls|e] eqn:El; [|done]. destruct (forallb _ ls) eqn:Ef; [|done]. destruct (0 <=? pk_bytes r); [|done].
  intros [= _ <- _]. split.
  - intros x. split; [by intros (q & Hq & ->%Hp)|]. intros Hx. exists p. split; [done|by apply Hp].
  - apply collect_Forall2 in El. clear - El Ef. induction El as [|x l wants ls Hx _ IH]; [constructor|]. cbn in Ef. apply andb_true_iff in Ef as [H1 H2].
    constructor; [|by apply IH]. destruct l as [l|]; [|done]. by eapply lookup_one_live.
Qed.

Section StoredClone.
Context {PF : Platform} {PL : Packetline} {HM : Hmac} {PC : PackCodec} {GP : GixPack} {RR : R2} {RG : R2Get} {GO : GitObjects} {GT : GitTrees}.
Context (W : Type) (charge1 : W -> W * result Error unit) (budget : W -> ReqBudget) (others : W -> Db -> W * Db) (now : Z).
(** A statement that only reads. *)
Definition reads_only {A} (m : DoM A) : Prop := rel_ok eq m.
Lemma on_db_reads {A} (m : DoM A) s s1 x : reads_only m -> on_db W m s = (s1, Ok x) -> s1 = s /\ m (fs_db W s) = (fs_db W s, Ok x).
Proof.
  intros Hm. unfold on_db. specialize (Hm (fs_db W s)). destruct (m (fs_db W s)) as [d r]. cbn in *. subst d. intros [= <- ->]. by destruct s.
Qed.
Lemma reads_fold {A B} (f : B -> A -> DoM B) xs b : (forall b x, reads_only (f b x)) -> reads_only (for_fold f xs b).
Proof.
  intros Hf. revert b. induction xs as [|x xs IH]; intros b; cbn [for_fold]; [by intros d|]. apply rel_ok_bind; [apply _|apply Hf|intros b'; apply IH].
Qed.
Lemma wanted_refs_reads names : reads_only (wanted_refs_of names).
Proof.
  unfold wanted_refs_of. apply reads_fold. unfold reads_only, wanted_ref, meta. intros acc n. rel_tac; by intros d.
Qed.
Lemma no_acks s s1 acks : on_db W (known []) s = (s1, Ok acks) -> s1 = s /\ acks = [].
Proof. unfold on_db, known, index_lookup, mbind, M_bind, mret, M_ret. cbn. intros [= <- <-]. by destruct s. Qed.
(** A stored pack answers with the body R2 gave for its key. *)
Lemma stored_pack_body args repo pack acks wanted s s' resp st : stored_pack W charge1 budget others args repo pack acks wanted s = (s', Ok resp) -> rp_body resp = Stored st ->
  exists chunks p b, get_body (key_pack repo pack) = Ok (Some (Some chunks)) /\ write_fetch_prelude args acks wanted [] [] [] "" = (p, Ok b) /\ st = mkVerbatim chunks (Some p) false.
Proof.
  unfold stored_pack. intros (u & s1 & _ & (o & s2 & H2 & (b & s3 & [= _ H3] & (chunks & s4 & [= _ H4] & (p & s5 & H5 & (sub & s6 & _ & [= _ <-])%bind_ok)%bind_ok)%bind_ok)%bind_ok)%bind_ok)%bind_ok.
  intros [= <-]. unfold awaiting, lift in H2. injection H2 as _ H2. destruct o as [o|]; [|done]. injection H3 as ->. destruct b as [b|]; [|done]. injection H4 as ->.
  unfold prelude in H5. destruct (write_fetch_prelude _ _ _ _ _ _ _) as [out [x|]] eqn:Ew; [|done]. injection H5 as _ <-. by exists chunks, out, x.
Qed.
(** What an answer with a signed address is. *)
Lemma uri_minted args pack bytes hdr base repo_id acks wanted s s' resp :
  pack_uri_response W charge1 budget others now args pack bytes hdr base repo_id acks wanted s = (s', Ok (Some resp)) ->
  exists key b owner repo trailer sig out e, signing_key = Some key /\ base = Some b
  /\ pack_sig key repo_id pack (now / 1000 + TTL) = Ok sig
  /\ write_fetch_prelude args acks wanted [] [] [hex_digest trailer +:+ " " +:+ pack_uri b owner repo pack (now / 1000 + TTL) repo_id sig] "" = (out, Ok true)
  /\ empty_pack (obj_kind (fs_db W s)) = Ok e /\ rp_body resp = Whole ((sb_data (text_of e) ≫= fun _ => wr_flush) out).1.
Proof.
  unfold pack_uri_response. intros (kind & s1 & [= <- <-] & E)%bind_ok. destruct base as [b|]; [|done]. destruct (h_owner hdr) as [owner|]; [|done].
  destruct (h_repo hdr) as [repo|]; [|done]. destruct (_ <=? bytes); [|done]. destruct (negb _); [done|]. destruct signing_key as [key|] eqn:Ek; [|done].
  apply bind_ok in E as ([trailer|] & s2 & _ & E); [|done]. apply bind_ok in E as (sig & s3 & [= <- Hs] & E).
  destruct (write_fetch_prelude _ _ _ _ _ _ _) as [out [[|]|]] eqn:Ew; [|done..].
  apply bind_ok in E as (e & s4 & [= <- He] & (u & s5 & _ & [= _ <-])%bind_ok). by exists key, b, owner, repo, trailer, sig, out, e.
Qed.
(** Where a stored pack comes from. *)
Lemma stored_answer fuel body hdr base s s' resp st : fetch_v2_inner W charge1 budget others now fuel body hdr base s = (s', Ok (Some resp)) -> rp_body resp = Stored st ->
  exists args repo wanted pack bytes s1 s2, parse_v2_command body = Some (Ok (Fetch args)) /\ plain_clone args = true
  /\ t_meta (fs_db W s) !! "repo_id" = Some repo /\ wanted_refs_of (fa_want_refs args) (fs_db W s) = (fs_db W s, Ok wanted)
  /\ consolidated_pack (fa_wants args ++ map fst wanted) (fs_db W s) = (fs_db W s, Ok (Some (pack, bytes)))
  /\ stored_pack W charge1 budget others args repo pack [] wanted s1 = (s2, Ok resp).
Proof.
  unfold fetch_v2_inner. destruct (parse_v2_command body) as [[[la|args]|e]|] eqn:Ep; [done| |done..]. intros E Hb.
  apply bind_ok in E as (kind & s1 & [-> _]%on_db_reads & E); [|by intros d].
  apply bind_ok in E as (repo & s2 & [-> Hr]%on_db_reads & E); [|by intros d].
  apply bind_ok in E as (wanted & s3 & Hw & E). assert (s3 = s /\ wanted_refs_of (fa_want_refs args) (fs_db W s) = (fs_db W s, Ok wanted)) as [-> Hw'].
  { destruct (fa_want_refs args) as [|n names]; [by injection Hw as <- <-|]. by apply on_db_reads in Hw; [|apply wanted_refs_reads]. }
  apply bind_ok in E as (nots & s4 & Hn & (acks & s5 & Ha & E)%bind_ok).
  destruct (negb (fa_done args || _ || _)); [by apply bind_ok in E as (p & s6 & _ & [= _ <-])|]. apply bind_ok in E as (one & s6 & Ho & E).
  destruct (plain_clone args) eqn:Epc.
  - pose proof Epc as Hpc. unfold plain_clone in Hpc. rewrite !andb_true_iff in Hpc. destruct Hpc as [[[[[[Hh _] _] _] Hdn] _] _].
    destruct (fa_haves args); [|done]. destruct (fa_deepen_not args); [|done]. injection Hn as <- _. apply no_acks in Ha as [-> ->].
    apply on_db_reads in Ho as [-> Ho]; [|intros d; unfold consolidated_pack; by repeat case_match].
    destruct one as [[pack bytes]|].
    + apply bind_ok in E as (early & s7 & He & E). apply bind_ok in He as (uri & s8 & Hu & He). destruct uri as [ur|].
      * injection He as <- <-. injection E as _ <-. apply uri_minted in Hu as (? & ? & ? & ? & ? & ? & ? & ? & _ & _ & _ & _ & _ & Hu). by rewrite Hu in Hb.
      * apply bind_ok in He as (sr & s9 & Hs & [= <- <-]). injection E as _ <-. exists args, repo, wanted, pack, bytes, s8, s9. split_and!; try done.
        unfold meta in Hr. destruct (t_meta (fs_db W s) !! "repo_id"); [|done]. by injection Hr as ->.
    + apply bind_ok in E as (early & s7 & [= <- <-] & E). apply bind_ok in E as ([set|] & s8 & _ & E); [|done].
      apply bind_ok in E as (p & s9 & _ & (sub & s10 & _ & [= _ <-])%bind_ok). done.
  - injection Ho as _ <-. apply bind_ok in E as (early & s7 & [= <- <-] & E). apply bind_ok in E as ([set|] & s8 & _ & E); [|done].
    apply bind_ok in E as (p & s9 & _ & (sub & s10 & _ & [= _ <-])%bind_ok). done.
Qed.
End StoredClone.

(** C23: a plain clone of a consolidated repository is the stored pack, as it is.  When
    the handler answers a fetch with a stored pack, the request was a plain clone (no
    haves, no boundary, no depth, no filter); the pack was then the one live pack,
    which lists exactly the live objects, each want and each wanted ref's target among
    them; and the stream holds what R2 returned for that pack's key in this
    repository, behind the written prelude.  The client gets those bytes on band 1, whole
    and in order, and the flush; or, when the deadline passes or the body breaks
    off, a prefix of them and the error. *)
Theorem stored_clone_exact {PF : Platform} {PL : Packetline} {LAWS : PacketlineLaws} {HM : Hmac} {PC : PackCodec} {GP : GixPack} {RR : R2} {RG : R2Get} {GO : GitObjects}
    {GT : GitTrees} (W : Type) (charge1 charge0 : W -> W * result Error unit) (budget : W -> ReqBudget) (others : W -> Db -> W * Db) (now : Z)
    (fuel : nat) (body : string) (hdr : RepoHeaders) (base : option string) (s s' : Fs W) (resp : Resp) (st : VerbatimStream) (w : W) :
  fetch_v2_inner W charge1 budget others now fuel body hdr base s = (s', Ok (Some resp)) -> rp_body resp = Stored st ->
  exists args repo wanted pack chunks p b,
    parse_v2_command body = Some (Ok (Fetch args)) /\ plain_clone args = true
    /\ t_meta (fs_db W s) !! "repo_id" = Some repo /\ wanted_refs_of (fa_want_refs args) (fs_db W s) = (fs_db W s, Ok wanted)
    /\ map fst (live_list (fs_db W s)) = [pack]
    /\ (forall x, live_sha (fs_db W s) x <-> is_Some (t_objects (fs_db W s) !! (x, pack)))
    /\ Forall (live_sha (fs_db W s)) (fa_wants args ++ map fst wanted)
    /\ get_body (key_pack repo pack) = Ok (Some (Some chunks))
    /\ write_fetch_prelude args [] wanted [] [] [] "" = (p, Ok b)
    /\ exists x, concat_str (verbatim_frames W charge0 (verbatim_fuel st) st w).2 = p +:+ x
       /\ ((Forall (fun c => exists b, c = Ok b) chunks /\ carries (text_of (body_bytes chunks)) [Flush] x)
           \/ (exists sent e, cut W charge0 chunks e /\ sent `prefix_of` body_bytes chunks
               /\ carries (text_of sent) [Data (String (chr 3) ("ERR " +:+ client_message e))] x)).
Proof.
  intros Hf Hb. destruct (stored_answer _ _ _ _ _ _ _ _ _ _ _ _ _ Hf Hb) as (args & repo & wanted & pack & bytes & s1 & s2 & H1 & H2 & H3 & H4 & H5 & H6).
  destruct (stored_pack_body _ _ _ _ _ _ _ _ _ _ _ _ _ H6 Hb) as (chunks & p & b & H7 & H8 & ->). pose proof (one_pack _ _ _ _ _ H5) as [H9 H10].
  assert (map fst (live_list (fs_db W s)) = [pack]) as Hl.
  { unfold consolidated_pack in H5. destruct (live_list (fs_db W s)) as [|[q r] [|]]; try done. destruct (collect _ _); [|done]. destruct (_ && _); [|done]. by injection H5 as -> _. }
  exists args, repo, wanted, pack, chunks, p, b. split_and!; try done. eexists. split; [apply verbatim_whole|]. by apply verbatim_from.
Qed.

(** ** The clone that does not walk *)

Section Clone.
Context (cat : string -> string -> option ObjSql) (CG : catalog_ok cat).
Context (NE : forall s p r, cat s p = Some r -> s <> "").
(** [m] is the pack each object met so far is taken from; [last] the last id met. *)
Record chosen (m : gmap string string) (packs : list PackSlice) (bp : gmap string nat) (last : string) : Prop := {
  ch_slices : slices_for cat (fun sha p => m !! sha = Some p) packs bp;
  ch_all : forall sha p, m !! sha = Some p -> covered cat packs sha;
  ch_below : forall sha p, m !! sha = Some p -> String.le sha last
}.
Definition row_of (r : DedupRow) : Prop := exists o, cat (dr_sha r) (dr_pack r) = Some o /\ ob_idx o = dr_idx r.
Lemma mark_dedup_ok rows m packs bp last packs' last' : Forall row_of rows -> StronglySorted sha_le rows ->
  Forall (fun r => String.le last (dr_sha r) /\ (dr_sha r = last -> is_Some (m !! last))) rows ->
  chosen m packs bp last -> mark_dedup rows packs bp last = Ok (packs', last') ->
  exists m', chosen m' packs' bp last' /\ (forall sha, is_Some (m !! sha) -> is_Some (m' !! sha)) /\ (forall r, r ∈ rows -> is_Some (m' !! dr_sha r))
    /\ (rows = [] \/ exists r, r ∈ rows /\ last' = dr_sha r /\ forall r', r' ∈ rows -> String.le (dr_sha r') last').
Proof.
  intros Hr Hs. revert m packs last Hr. induction Hs as [|r rows Hs IH Hle]; intros m packs last Hr Hl Hc; cbn [mark_dedup].
  { intros [= <- <-]. exists m. split_and!; [done|done| |by left]. by intros r ?%elem_of_nil. }
  apply Forall_cons in Hr as [(o & Ho & Ei) Hr]. apply Forall_cons in Hl as [[Hl1 Hl2] Hl]. rewrite Forall_forall in Hle.
  (* what is left to say once the row is dealt with *)
  assert (forall (m1 : gmap string string) packs1, (forall sha, is_Some (m !! sha) -> is_Some (m1 !! sha)) -> is_Some (m1 !! dr_sha r) ->
    chosen m1 packs1 bp (dr_sha r) -> mark_dedup rows packs1 bp (dr_sha r) = Ok (packs', last') ->
    exists m', chosen m' packs' bp last' /\ (forall sha, is_Some (m !! sha) -> is_Some (m' !! sha)) /\ (forall r', r' ∈ r :: rows -> is_Some (m' !! dr_sha r'))
      /\ (r :: rows = [] \/ exists r0, r0 ∈ r :: rows /\ last' = dr_sha r0 /\ forall r', r' ∈ r :: rows -> String.le (dr_sha r') last')) as Hgo.
  { intros m1 packs1 Hm1 Hs1 C1 E. destruct (IH m1 packs1 (dr_sha r) Hr) as (m' & C & Hm & Hin & Hlast); [|done|exact E|].
    { apply Forall_forall. intros r' Hr'. split; [by apply Hle|done]. }
    exists m'. split_and!; [done|auto|intros r' [->|?]%elem_of_cons; auto|right].
    destruct Hlast as [->|(r0 & H0 & -> & Hmax)].
    - exists r. cbn in E. injection E as _ <-. split_and!; [left|done|]. intros r' [->|?%elem_of_nil]%elem_of_cons; done.
    - exists r0. split_and!; [by right|done|]. intros r' [->|?]%elem_of_cons; [by apply Hle|auto]. }
  destruct (String.eqb_spec (dr_sha r) last) as [El|Hne].
  - intros E. apply (Hgo m packs); [done|rewrite El; by apply Hl2|by rewrite El|by rewrite El].
  - intros (i & E1 & (packs1 & E2 & E3)%rbind_ok)%rbind_ok. destruct (bp !! dr_pack r) as [i'|] eqn:Eb; [|done]. injection E1 as ->.
    assert (m !! dr_sha r = None) as Hnew.
    { destruct (m !! dr_sha r) as [p|] eqn:Em; [|done]. destruct Hne. apply (anti_symm String.le); [by eapply (ch_below _ _ _ _ Hc)|done]. }
    destruct Hc as [C1 C2 C3].
    destruct (slices_bit cat CG _ (fun sha p => <[dr_sha r := dr_pack r]> m !! sha = Some p) packs bp i (dr_sha r) o
      (mkLoc (dr_pack r) (dr_idx r) 0 0 Blob 0) packs1 C1 Eb Ho (eq_sym Ei)) as (S1 & S2 & S3); [| |exact E2|].
    { intros sh p Hp. rewrite lookup_insert_ne; [done|]. intros <-. congruence. }
    { by rewrite lookup_insert_eq. }
    apply (Hgo (<[dr_sha r := dr_pack r]> m) packs1); [|by rewrite lookup_insert_eq| |exact E3].
    { intros sha Hsh. destruct (decide (sha = dr_sha r)) as [->|]; [by rewrite lookup_insert_eq|by rewrite lookup_insert_ne]. }
    split; [done| |].
    + intros sha p [[<- _]|[_ Hp]]%lookup_insert_Some; [done|]. apply S3. by eapply C2.
    + intros sha p [[<- _]|[_ Hp]]%lookup_insert_Some; [done|]. etrans; [by eapply C3|done].
Qed.

Section Pages.
Context (d : Db) (F : fits cat d) (ids : list string).
Lemma dedup_rows_elem last r : r ∈ dedup_rows d ids last <->
  exists o, t_objects d !! (dr_sha r, dr_pack r) = Some o /\ ob_idx o = dr_idx r /\ dr_pack r ∈ ids /\ ~ String.le (dr_sha r) last.
Proof.
  unfold dedup_rows. rewrite list_elem_of_omap. split.
  - intros ([[s p] o] & Hin & E). cbn in E. apply elem_of_map_to_list in Hin. destruct (bool_decide (p ∈ ids)) eqn:Ep; [|done].
    destruct (bool_decide (String.le s last)) eqn:El; [done|]. injection E as <-. bsimp. by exists o.
  - intros (o & Ho & Ei & Hp & Hl). destruct r as [s p j]. cbn in *. exists ((s, p), o). rewrite elem_of_map_to_list. split; [done|]. cbn.
    rewrite bool_decide_true, bool_decide_false by done. cbn. by rewrite Ei.
Qed.
Lemma dedup_rows_fewer last last' r : r ∈ dedup_rows d ids last -> String.le last last' -> String.le (dr_sha r) last' ->
  (length (dedup_rows d ids last') < length (dedup_rows d ids last))%nat.
Proof.
  intros (kv & Hin & E)%list_elem_of_omap Hl Hr. apply (omap_fewer _ _ _ kv); [|done| |by rewrite E].
  - intros kv'. destruct (bool_decide (kv'.1.2 ∈ ids)); [|done]. cbn [andb]. destruct (decide (String.le kv'.1.1 last')) as [H1|H1]; [rewrite (bool_decide_true _ H1); by intros []|].
    intros _. rewrite bool_decide_false; [done|]. intros H2. destruct H1. by etrans.
  - destruct (bool_decide (kv.1.2 ∈ ids)); [|done]. cbn [andb] in *. destruct (bool_decide (String.le kv.1.1 last)); [done|]. injection E as <-. cbn in Hr. by rewrite bool_decide_true.
Qed.
(** Every object of the packs up to [last] has been met. *)
Definition met (m : gmap string string) (last : string) : Prop :=
  forall s p r, t_objects d !! (s, p) = Some r -> p ∈ ids -> String.le s last -> is_Some (m !! s).
Lemma page_ok m packs bp last packs' last' : (last = "" \/ is_Some (m !! last)) -> met m last -> chosen m packs bp last ->
  mark_dedup (dedup_page d ids last) packs bp last = Ok (packs', last') ->
  exists m', chosen m' packs' bp last' /\ met m' last' /\ (last' = "" \/ is_Some (m' !! last'))
    /\ ((length (dedup_page d ids last) < PAGE)%nat -> forall s p r, t_objects d !! (s, p) = Some r -> p ∈ ids -> is_Some (m' !! s))
    /\ ((PAGE <= length (dedup_page d ids last))%nat -> (length (dedup_rows d ids last') < length (dedup_rows d ids last))%nat).
Proof.
  intros Hlast Hmet Hc E. set (rows := merge_sort sha_le (dedup_rows d ids last)) in *. unfold dedup_page in *. fold rows in E |- *.
  assert (StronglySorted sha_le rows) as Hs.
  { apply Sorted_StronglySorted; [intros x y z; unfold sha_le; by etrans|]. apply Sorted_merge_sort. intros x y. unfold sha_le. apply (total String.le). }
  assert (forall r, r ∈ rows <-> r ∈ dedup_rows d ids last) as Hperm by (intros r; unfold rows; by rewrite (merge_sort_Permutation sha_le)).
  assert (forall r, r ∈ take PAGE rows -> r ∈ dedup_rows d ids last) as Hpage by (intros r (j & Hj & _)%elem_of_take; by apply Hperm, (list_elem_of_lookup_2 _ j)).
  assert (forall r, r ∈ dedup_rows d ids last -> String.le last (dr_sha r) /\ dr_sha r <> last) as Hgt.
  { intros r (o & _ & _ & _ & Hn)%dedup_rows_elem. destruct (total String.le last (dr_sha r)); [|done]. split; [done|]. intros E'. by rewrite E' in Hn. }
  destruct (mark_dedup_ok (take PAGE rows) m packs bp last packs' last') as (m' & C & Hm & Hin & Hl); [| | |done|done|].
  - apply Forall_forall. intros r (o & Ho & Ei & _)%Hpage%dedup_rows_elem. exists o. split; [by apply F|done].
  - clear - Hs. revert Hs. generalize PAGE as k. induction rows as [|x rows IH]; intros k Hs; [destruct k; constructor|].
    destruct k as [|k]; [constructor|]. apply StronglySorted_inv in Hs as [Hs Hx]. cbn. constructor; [by apply IH|]. by apply Forall_take.
  - apply Forall_forall. intros r [H1 H2]%Hpage%Hgt. done.
  - assert (forall r, r ∈ rows -> r ∈ take PAGE rows \/ (PAGE <= length (take PAGE rows))%nat /\ forall r', r' ∈ take PAGE rows -> sha_le r' r) as Hrest.
    { clear - Hs. intros r Hr. rewrite <- (take_drop PAGE rows) in Hr. apply elem_of_app in Hr as [?|Hr]; [by left|right]. split.
      - rewrite length_take. apply list_elem_of_lookup in Hr as [j Hj]. rewrite lookup_drop in Hj. apply lookup_lt_Some in Hj. lia.
      - intros r' Hr'. rewrite <- (take_drop PAGE rows) in Hs. by eapply StronglySorted_app_1_elem_of. }
    assert (forall s p o, t_objects d !! (s, p) = Some o -> p ∈ ids -> String.le s last \/ mkDedup s p (ob_idx o) ∈ rows) as Hall.
    { intros s p o Ho Hp. destruct (decide (String.le s last)); [by left|right]. apply Hperm, dedup_rows_elem. by exists o. }
    exists m'. destruct Hl as [Hnil|(r0 & Hr0 & -> & Hmax)].
    + rewrite Hnil in E. cbn in E. injection E as <- <-. split_and!; [done| | | |].
      * intros s p o H1 H2 H3. apply Hm. by eapply Hmet.
      * destruct Hlast; auto.
      * intros _ s p o Ho Hp. destruct (Hall s p o Ho Hp) as [Hle|Hr]; [apply Hm; by eapply Hmet|]. destruct (Hrest _ Hr) as [Hr'|[Hlen _]].
        -- rewrite Hnil in Hr'. by apply elem_of_nil in Hr'.
        -- rewrite Hnil in Hlen. cbn in Hlen. unfold PAGE in Hlen. lia.
      * rewrite Hnil. cbn. unfold PAGE. lia.
    + split_and!; [done| | | |].
      * intros s p o Ho Hp Hle. destruct (Hall s p o Ho Hp) as [Hle'|Hr]; [apply Hm; by eapply Hmet|]. destruct (Hrest _ Hr) as [Hr'|[_ Hafter]]; [by apply (Hin _ Hr')|].
        assert (s = dr_sha r0) as ->; [|by apply Hin]. apply (anti_symm String.le); [done|]. by apply (Hafter r0).
      * right. by apply Hin.
      * intros Hlen s p o Ho Hp. destruct (Hall s p o Ho Hp) as [Hle|Hr]; [apply Hm; by eapply Hmet|]. destruct (Hrest _ Hr) as [Hr'|[Hlen' _]]; [by apply (Hin _ Hr')|lia].
      * intros _. apply Hpage in Hr0. eapply dedup_rows_fewer; [exact Hr0|by apply Hgt|done].
Qed.
Lemma dedup_loop_ok fuel m packs bp last packs' : (length (dedup_rows d ids last) < fuel)%nat -> (last = "" \/ is_Some (m !! last)) -> met m last ->
  chosen m packs bp last -> dedup_loop fuel d ids bp packs last = Ok packs' ->
  exists m' last', chosen m' packs' bp last' /\ forall s p r, t_objects d !! (s, p) = Some r -> p ∈ ids -> is_Some (m' !! s).
Proof.
  revert m packs last. induction fuel as [|f IH]; intros m packs last Hf Hl Hm Hc; [lia|]. cbn [dedup_loop].
  intros ([packs1 last1] & E1 & E2)%rbind_ok. destruct (page_ok _ _ _ _ _ _ Hl Hm Hc E1) as (m1 & C1 & M1 & L1 & Hend & Hmore).
  destruct (Nat.ltb_spec (length (dedup_page d ids last)) PAGE) as [Hlt|Hge].
  - injection E2 as <-. exists m1, last1. split; [done|by apply Hend].
  - eapply IH; [|exact L1|exact M1|exact C1|exact E2]. specialize (Hmore Hge). lia.
Qed.
End Pages.
Lemma live_slices_ok P live packs bp packs' bp' : NoDup (map fst live) -> (forall p, p ∈ map fst live -> bp !! p = None) ->
  slices_for cat P packs bp -> live_slices live packs bp = Ok (packs', bp') ->
  slices_for cat P packs' bp' /\ map sl_pack packs' = map sl_pack packs ++ map fst live.
Proof.
  revert packs bp. induction live as [|[id r] live IH]; intros packs bp Hn Hb Hs; cbn [live_slices map].
  { intros [= <- <-]. split; [done|]. by rewrite app_nil_r. }
  apply NoDup_cons in Hn as [Hid Hn]. destruct (negb _); [done|]. destruct (negb _); [done|].
  destruct (push_slice packs bp id (pk_count r) (pk_bytes r)) as [[ps1 bp1] i] eqn:E. intros El.
  destruct (slices_push cat P _ _ _ _ _ _ _ _ Hs (Hb id ltac:(left)) E) as (S1 & _ & _). injection E as <- <- <-.
  assert (forall p, p ∈ map fst live -> <[id := length packs]> bp !! p = None) as Hb'.
  { intros p Hp. rewrite lookup_insert_ne; [apply Hb; by right|]. by intros ->. }
  destruct (IH _ _ Hn Hb' S1 El) as [S2 Em]. split; [done|]. rewrite Em, map_app, <- app_assoc. done.
Qed.
Lemma live_list_nodup d : NoDup (map fst (live_list d)).
Proof.
  unfold live_list. pose proof (NoDup_fst_map_to_list (t_packs d)) as H. induction (map_to_list (t_packs d)) as [|x l IH]; [constructor|].
  cbn in H. apply NoDup_cons in H as [Hx H]. cbn [List.filter]. destruct (bool_decide _); [|by apply IH]. cbn. constructor; [|by apply IH].
  intros (y & E & [Hy _]%elem_of_filter_b)%elem_of_map. apply Hx. apply elem_of_map. by exists y.
Qed.

(** The slices a clone plans from: the pack of each live object is chosen once. *)
Lemma clone_slices `{Platform} (b : ReqBudget) (d d' : Db) (set : SendSet) : fits cat d -> no_walk_set b d = (d', Ok (Some set)) ->
  exists m packs bp last reads, chosen m packs bp last /\ plan_packs d 0 packs = Ok (Some reads) /\ set = set_reads reads (set_packs packs ∅ set_default)
    /\ (forall s p r, t_objects d !! (s, p) = Some r -> p ∈ map fst (live_list d) -> is_Some (m !! s))
    /\ (forall sl, sl ∈ packs -> pack_live d (sl_pack sl) = true)
    /\ (max_subrequests b < u32_max -> used b + Z.of_nat (length reads) <= max_subrequests b).
Proof.
  intros F. unfold no_walk_set. destruct (_ <? _)%nat; [done|]. intros [= _ ([packs bp] & E1 & (packs' & E2 & (set' & E3 & [= <-])%rbind_ok)%rbind_ok)%rbind_ok].
  destruct (live_slices_ok (fun sha p => (∅ : gmap string string) !! sha = Some p) _ [] ∅ packs bp (live_list_nodup d)) as [S1 Em]; [done|apply slices_nil|exact E1|].
  cbn in Em, E2. destruct (dedup_loop_ok d F (map fst (live_list d)) (S (size (t_objects d))) ∅ packs bp "" packs') as (m & last & C & Hall); [| | | |exact E2|].
  { apply Nat.lt_succ_r. etrans; [apply omap_length|]. by rewrite length_map_to_list. }
  { by left. }
  { intros s p r Hr _ Hle. exfalso. apply F in Hr. apply (NE _ _ _ Hr). by destruct s. }
  { by split. }
  apply rbind_ok in E3 as (s1 & [= <-] & (plan & Ep & (r & Er & Ef)%rbind_ok)%rbind_ok). destruct plan as [reads|]; [|unfold rebuild, rebuild_with in Er; cbn in Er; discriminate Er].
  injection Er as <-. cbn [fst snd] in Ef. destruct (negb _); [done|]. destruct (Z.ltb_spec (max_subrequests b) (sat_addu32 (used b) (Z.of_nat (length reads)))) as [|Hle]; [done|].
  injection Ef as <-. exists m, packs', bp, last, reads. split_and!; [exact C|exact Ep|done|exact Hall| |].
  - intros sl Hin. apply live_list_elem. rewrite <- Em. apply list_elem_of_lookup in Hin as [i Hi].
    assert (bp !! sl_pack sl = Some i) as Hbp by (apply (sl_index _ _ _ _ (ch_slices _ _ _ _ C)); by exists sl). apply (sl_index _ _ _ _ S1) in Hbp as (sl0 & Hi0 & E0).
    rewrite <- E0. apply elem_of_map. exists sl0. split; [done|by eapply list_elem_of_lookup_2].
  - intros Hx. unfold sat_addu32 in Hle. cbn in Hle. lia.
Qed.
Lemma clone_planned `{Platform} (b : ReqBudget) (d d' : Db) (set : SendSet) : fits cat d -> no_walk_set b d = (d', Ok (Some set)) ->
  exists ents, sends d (map fst ents) set ents /\ NoDup (map fst ents) /\ (forall sha, sha ∈ map fst ents <-> live_sha d sha)
    /\ (max_subrequests b < u32_max -> used b + Z.of_nat (length (ss_reads set)) <= max_subrequests b).
Proof.
  intros F E. destruct (clone_slices b d d' set F E) as (m & packs & bp & last & reads & [C1 C2 C3] & Ep & -> & Hall & Hlive & Hb).
  destruct (plan_packs_ok _ CG d packs [] reads F (slices_nodup _ _ _ _ C1) Ep) as (ents & H1 & H2 & H3 & H4 & H5 & H6 & H7).
  assert (forall e, e ∈ ents -> m !! e.1 = Some (lc_pack e.2)) as Hm.
  { intros e He. rewrite Forall_forall in H1, H6. destruct (H6 e He) as (i & p & Hi & Epk & Hg). destruct (H1 e He) as (r & Hr & (_ & Ei & _)%row_loc_eq).
    apply F in Hr. rewrite Epk in Hr. destruct (cg_range _ CG _ _ _ Hr) as [Hj _]. rewrite Ei in Hg.
    destruct (sl_bits _ _ _ _ C1 _ _ _ Hi Hj Hg) as (sha & r' & Hc & Ei' & Hsha). rewrite Epk. by rewrite (cg_idx _ CG _ _ _ _ _ Hr Hc ltac:(congruence)). }
  exists ents. split_and!; [split; [done..|unfold count; cbn; by rewrite H4|intros o; apply H7|intros o; apply H7]| | |exact Hb].
  - clear - H3 Hm. revert H3 Hm. induction ents as [|e ents IH]; cbn; intros Hn Hm; [constructor|]. apply NoDup_cons in Hn as [He Hn].
    constructor; [|apply IH; [done|intros; apply Hm; by right]]. intros (e' & E & Hin)%elem_of_map. destruct He. apply elem_of_map. exists e'. split; [|done].
    unfold entry_key. rewrite E. f_equal. pose proof (Hm e ltac:(left)) as M1. pose proof (Hm e' ltac:(by right)) as M2. congruence.
  - intros sha. split.
    + intros (e & <- & He)%elem_of_map. exists (lc_pack e.2). rewrite Forall_forall in H1, H2. split; [destruct (H1 e He) as (r & -> & _); done|].
      specialize (H2 e He). apply elem_of_map in H2 as (sl & <- & Hin). by apply Hlive.
    + intros (p & [r Hr] & Hp). apply live_list_elem in Hp. destruct (Hall _ _ _ Hr Hp) as [q Hq]. apply H5. by eapply C2.
Qed.

(** C9: the clone that does not walk sends every live object exactly once: whatever
    packs hold copies of it, and however its rows fall on the pages of the scan,
    each object with a row in a live pack is one entry of the answer, no other is
    one, the count of the header is their number, and the reads fit in what is left
    of the request's subrequests. *)
Theorem clone_sends_all `{Platform} (b : ReqBudget) (d d' : Db) (set : SendSet) : fits cat d -> no_walk_set b d = (d', Ok (Some set)) ->
  exists ents, sends d (map fst ents) set ents /\ NoDup (map fst ents) /\ (forall sha, sha ∈ map fst ents <-> live_sha d sha)
    /\ (max_subrequests b < u32_max -> used b + Z.of_nat (length (ss_reads set)) <= max_subrequests b).
Proof. apply clone_planned. Qed.
End Clone.
