(* ===== verification/PackUri.v ===== *)
(** * Signed addresses of packs

    A clone of a repository with one live pack may be answered with a signed address of
    that pack ([pack_uri_response] of [server/src/repo_do/mod.rs]), which the edge
    honours until it expires ([pack_get] of [server/src/edge/mod.rs]).  The janitor
    deletes a pack's bytes once the pack has been dead for the grace period
    ([server/src/jobs/janitor.rs]); the address is never good that long. *)
From S2P Require Import Prelude Errors Text Db Scope Jobs Cohort GcBase Compact Refs Push PushFacts Admin Wire WireFacts Receive Answers Sign Auth Sha Writer Reads Mark.
From S2P Require Import Ingest IngestFacts Generate Janitor Lfs Fetch FetchFacts.
Open Scope Z_scope.

(** ** When a pack died *)

(** A death of the pack is stamped with [t0] or later. *)
Definition stamped (t0 : Z) (p : string) (d : Db) : Prop :=
  forall r dead, t_packs d !! p = Some r -> pk_state r = Dead -> pk_dead_at r = Some dead -> t0 <= dead.
(** What a span that runs at [t] does to a pack: if it kills it, it stamps the row. *)
Definition span (t : Z) (p : string) (d d' : Db) : Prop := forall t0, t0 <= t -> stamped t0 p d -> stamped t0 p d'.
#[global] Instance span_preorder t p : PreOrder (span t p).
Proof. split; [by intros d t0|]. intros a b c H1 H2 t0 Ht Hs. by apply H2, H1. Qed.
(** The store at a time, and the store at a later one. *)
Inductive later (p : string) : Z -> Db -> Z -> Db -> Prop :=
| later_now t d : later p t d t d
| later_span t d t1 d1 t2 d2 : later p t d t1 d1 -> t1 <= t2 -> span t2 p d1 d2 -> later p t d t2 d2.
Lemma later_stamped p t d t' d' : later p t d t' d' -> t <= t' /\ forall t0, t0 <= t -> stamped t0 p d -> stamped t0 p d'.
Proof.
  induction 1 as [t d|t d t1 d1 t2 d2 _ [IH1 IH2] Ht Hs]; [by split|]. split; [lia|]. intros t0 H0 H1. apply Hs; [lia|]. by apply IH2.
Qed.
(** A live pack has not died. *)
Lemma live_stamped t0 p d : pack_live d p = true -> stamped t0 p d.
Proof. unfold pack_live, stamped. intros H r dead Hr Hd. rewrite Hr, Hd in H. by bsimp. Qed.

(** *** The spans that kill packs *)

Section Spans.
Context `{PF : Platform} (now : Z) (p : string).
Lemma span_packs d d' : t_packs d' = t_packs d -> span now p d d'.
Proof. intros E t0 _ Hs. unfold stamped. by rewrite E. Qed.
Lemma quiet_span {A} (m : DoM A) : rel_ok quiet m -> rel_ok (span now p) m.
Proof. intros Hm d. apply span_packs. by destruct (Hm d) as (_ & _ & ->). Qed.
Lemma kill_packs_span sel d : span now p d (kill_packs sel now d).
Proof.
  intros t0 Ht Hs r dead Hr Hd Hdead. unfold kill_packs in Hr. cbn [t_packs on_packs] in Hr. rewrite map_lookup_imap in Hr.
  destruct (t_packs d !! p) as [r0|] eqn:E; [|done]. cbn in Hr. injection Hr as <-. destruct (sel p r0); [by injection Hdead as <-|by eapply Hs].
Qed.
(** A row written alive or open is not dead. *)
Lemma insert_span q r d : pk_state r <> Dead -> span now p d (on_packs (insert q r) d).
Proof.
  intros Hr t0 _ Hs x dead Hx Hd Hdead. cbn [t_packs on_packs] in Hx. apply lookup_insert_Some in Hx as [[-> <-]|[_ Hx]]; [done|by eapply Hs].
Qed.
Lemma kill_pack_span q d : span now p d (kill_pack now q d).
Proof.
  intros t0 Ht Hs r dead Hr Hd Hdead. unfold kill_pack, drop_objects in Hr. cbn [t_packs on_packs on_objects] in Hr.
  apply lookup_alter_Some in Hr as [(-> & r0 & E & ->)|[_ Hr]]; [|by eapply Hs].
  destruct (ingesting r0); [by injection Hdead as <-|by eapply Hs].
Qed.
Lemma delete_span q d : span now p d (on_packs (delete q) d).
Proof. intros t0 _ Hs r dead Hr. cbn [t_packs on_packs] in Hr. apply lookup_delete_Some in Hr as [_ Hr]. by eapply Hs. Qed.
#[local] Hint Resolve quiet_span : git_edge.
Lemma modify_span (f : Db -> Db) : (forall d, t_packs (f d) = t_packs d) -> rel_ok (span now p) (modify f : DoM unit).
Proof. intros Hf. apply rel_ok_modify. intros d. apply span_packs, Hf. Qed.
Lemma wipe_all_span : rel_ok (span now p) (wipe_all now).
Proof.
  unfold wipe_all, wipe_retired, wipe_new_pack, cohort_live, meta_opt.
  rel_tac; first [by apply modify_span|apply rel_ok_modify; intros d; apply kill_packs_span].
Qed.
(** The swap of a compaction retires the cohort: every exit of it stamps what it kills. *)
Lemma swap_span pack m job chain : rel_ok (span now p) (swap now pack m job chain).
Proof.
  assert (rel_ok (span now p) (heartbeat now job)) as Hh by (intros d; by apply span_packs).
  assert (rel_ok (span now p) (promote_output pack m)) as Hp.
  { intros d. destruct (promote_output_run pack m d) as [[e ->]|(r & -> & Hr)]; [done|]. apply insert_span. by rewrite Hr. }
  assert (rel_ok (span now p) (failpoint "gc.compact.after_deadmark")) as Hf by apply quiet_span, failpoint_quiet.
  assert (rel_ok (span now p) (trigger now)) as Ht by apply quiet_span, trigger_quiet.
  pose proof wipe_all_span as Hw. unfold swap, chain_fence, cohort_live, retire_cohort, meta_opt.
  rel_tac; first [by apply modify_span|apply rel_ok_modify; intros d; apply kill_packs_span].
Qed.
End Spans.

(** ** The address *)

Section Address.
Context {PF : Platform} {HM : Hmac} {HL : HmacLaw}.
(** What the edge answers at [t] for the address with these parameters. *)
Definition opened (t : Z) (pack repo_id : string) (exp : Z) (sig : string) : result Error string :=
  pack_access t (pack +:+ ".pack") (Some (z_to_string exp)) (Some repo_id) (Some sig).
Lemma opened_eq key t pack repo_id exp sig : signing_key = Some key -> seg_ok pack = true -> seg_ok repo_id = true -> in_i64 exp ->
  pack_sig key repo_id pack exp = Ok sig -> opened t pack repo_id exp sig = if exp <? t / 1000 then Err Forbidden else Ok (key_pack repo_id pack).
Proof.
  intros Hk Hp Hr He Hs. unfold opened, pack_access, signed_key. rewrite Hk, (proj2 (strip_suffix_spec ".pack" _ pack) eq_refl), Hp, Hr. unfold mbind, result_bind, option_bind, of_option.
  rewrite parse_i64_to_string by done. destruct (exp <? t / 1000); [done|]. assert (pack_sig_ok key repo_id pack exp sig = true) as ->; [|done].
  unfold pack_sig, mbind, result_bind in Hs. destruct (mac key (msg repo_id pack exp)) as [tag|] eqn:Em; [|done]. injection Hs as <-. by apply sig_minted.
Qed.
End Address.

(** C27: a signed address opens the pack for fifty minutes and never outlasts it.  When a
    clone finds the one live pack and answers at [now] with an address of it, the edge
    honours that address, for that pack of that repository, for 3000 seconds.  The
    pack was live then; whatever spans run on the store afterwards, at clocks that do
    not run backwards, each stamping the packs that it kills (as the swap of a
    compaction does, [swap_span]): when the janitor takes the pack up to delete its
    bytes at [t], the edge refuses the address, and has refused it for the last 599
    seconds. *)
Theorem signed_pack_outlasts {PF : Platform} {PL : Packetline} {HM : Hmac} {HL : HmacLaw} {GP : GixPack} {RR : R2}
    (W : Type) (charge1 : W -> W * result Error unit) (budget : W -> ReqBudget) (others : W -> Db -> W * Db) (now : Z) (args : FetchArgs) (wants : list string)
    (pack : string) (bytes : Z) (hdr : RepoHeaders) (base : option string) (repo_id : string) (acks : list string) (wanted : list (string * string)) (s s' : Fs W) (resp : Resp) :
  0 <= now <= 2 ^ 53 -> seg_ok pack = true -> seg_ok repo_id = true ->
  consolidated_pack wants (fs_db W s) = (fs_db W s, Ok (Some (pack, bytes))) ->
  pack_uri_response W charge1 budget others now args pack bytes hdr base repo_id acks wanted s = (s', Ok (Some resp)) ->
  exists b owner repo trailer exp sig out e,
    write_fetch_prelude args acks wanted [] [] [hex_digest trailer +:+ " " +:+ pack_uri b owner repo pack exp repo_id sig] "" = (out, Ok true)
    /\ rp_body resp = Whole ((sb_data (text_of e) ≫= fun _ => wr_flush) out).1
    /\ (forall t, t / 1000 <= now / 1000 + 3000 -> opened t pack repo_id exp sig = Ok (key_pack repo_id pack))
    /\ (forall t d', later pack now (fs_db W s) t d' -> pack ∈ dead_packs t d' ->
          forall u, t - 599000 <= u -> opened u pack repo_id exp sig = Err Forbidden).
Proof.
  intros Hnow Hp Hr Hone (key & b & owner & repo & trailer & sig & out & e & Hk & _ & Hs & Hw & _ & Hb)%uri_minted.
  assert (TTL = 3000) as ET by reflexivity. pose proof (Z.div_pos now 1000). pose proof (Z.mul_div_le now 1000).
  assert (in_i64 (now / 1000 + TTL)) as He by (unfold in_i64, i64_min, i64_max; lia).
  exists b, owner, repo, trailer, (now / 1000 + TTL), sig, out, e. split_and!; [done|done| |].
  - intros t Ht. rewrite (opened_eq key) by done. rewrite (proj2 (Z.ltb_ge _ _)); [done|lia].
  - intros t d' [_ Hl]%later_stamped Hd u Hu. rewrite (opened_eq key) by done.
    assert (stamped now pack d') as Hst. { apply Hl; [lia|]. apply live_stamped, live_list_elem. unfold consolidated_pack in Hone.
      destruct (live_list (fs_db W s)) as [|[q r] [|]]; try done. destruct (collect _ wants); [|done]. destruct (_ && _); [|done]. injection Hone as -> _. left. }
    apply elem_of_map in Hd as ([q r] & <- & Hin). apply elem_of_take in Hin as (i & Hi & _). apply list_elem_of_lookup_2 in Hi. cbn [fst] in *.
    rewrite (merge_sort_Permutation dead_le) in Hi. apply elem_of_filter_b in Hi as [Hin Hg]. apply elem_of_map_to_list in Hin. cbn [fst snd] in *.
    apply andb_true_iff in Hg as [Hg _]. unfold past_grace in Hg. apply andb_true_iff in Hg as [Hdd Hg]. apply bool_decide_eq_true_1 in Hdd.
    destruct (pk_dead_at r) as [dead|] eqn:Ed; [|done]. apply Z.ltb_lt in Hg. pose proof (Hst _ _ Hin Hdd Ed) as Hdead.
    rewrite (proj2 (Z.ltb_lt _ _)); [done|]. assert (now / 1000 + 3001 <= u / 1000); [|lia]. apply Z.div_le_lower_bound; [lia|].
    unfold sat_sub64, sat64, i64_min, i64_max, GRACE_MS in Hg. lia.
Qed.
