(* ===== verification/CloneDemo.v ===== *)
(** * A small repository, cloned

    The repository of [FetchDemo] with a second live pack, which holds copies of two
    of its objects and one more: the clone that does not walk runs on it, and the
    frames of its answer are computed.  The repository of [FetchDemo] itself is cloned
    as its stored pack, and by a signed address of it. *)
From S2P Require Import Prelude Errors Text Db Jobs Cohort GcBase Compact Refs Push Admin Wire WireFacts Receive Answers Sign Auth Sha Writer Reads Mark MarkFacts.
From S2P Require Import BuildFacts Ingest IngestFacts IngestDemo Generate Plan SendFacts SendEnds FetchDemo Janitor Lfs Fetch FetchFacts PackUri.
Open Scope Z_scope.

Module CloneDemo.
#[export] Existing Instance demo_platform.
#[export] Existing Instance demo_packetline.
#[export] Existing Instance demo_packetline_laws.
Import FetchDemo.
Definition copies : list (string * Obj) := Eval vm_compute in [(oid 5, (Blob, [1])); (oid 1, (Commit, [3; 2])); (oid 9, (Blob, [7]))].
Definition pack2 : list Z := Eval vm_compute in pack_header 3 ++ concat (map (fun e => entry_of e.2) copies).
Definition rows2 : list ((string * string) * ObjSql) := Eval vm_compute in
  map (fun r => ((r.1, "pk"), r.2)) rows ++ map (fun r => ((r.1, "pl"), r.2)) (rows_from 0 12 copies).
Definition row_map2 : gmap (string * string) ObjSql := list_to_map rows2.
Definition cat2 (s p : string) : option ObjSql := row_map2 !! (s, p).
Definition object2 (key : string) : option (list Z) := if String.eqb key (key_pack "repo" "pl") then Some pack2 else object key.
#[export] Instance r2b : R2 := {| range_get := fun key off len => Ok ((fun o => slice o off len) <$> object2 key) |}.
#[export] Instance r2b_laws : R2Laws object2.
Proof. intros key off len bs _ _ E. cbn in E. destruct (object2 key) as [o|]; [|done]. exists o. by injection E as <-. Qed.
Definition d2 : Db :=
  on_packs (fun _ => {["pk" := mkPack Live 8 (Z.of_nat (length pack)) 0 0 None 0 None;
                       "pl" := mkPack Live 3 (Z.of_nat (length pack2)) 0 0 None 0 None]})
    (on_objects (fun _ => row_map2) empty_db).
Definition clone : Db * result Error (option SendSet) := no_walk_set (budget 50) d2.
Definition cloned : SendSet := match clone.2 with Ok (Some s) => s | _ => set_default end.

Lemma cat2_in s p r : cat2 s p = Some r -> ((s, p), r) ∈ rows2.
Proof. apply elem_of_list_to_map_2. Qed.
Lemma catalog2 : catalog_ok cat2.
Proof.
  pose (apart := fun x y : (string * string) * ObjSql => negb (String.eqb x.1.2 y.1.2) || String.eqb x.1.1 y.1.1 ||
    negb (ob_idx x.2 =? ob_idx y.2) && ((ob_offset x.2 + ob_len x.2 <=? ob_offset y.2) || (ob_offset y.2 + ob_len y.2 <=? ob_offset x.2))).
  assert (forall x y, x ∈ rows2 -> y ∈ rows2 -> apart x y = true) as Ha.
  { intros x y Hx Hy. apply (all_of (fun x => forallb (apart x) rows2) rows2) with (x := x) in Hx; [by eapply all_of|vm_compute; reflexivity]. }
  split.
  - intros s s' p r r' H1%cat2_in H2%cat2_in E. specialize (Ha _ _ H1 H2). unfold apart in Ha. cbn [fst snd] in Ha. rewrite E, Z.eqb_refl, String.eqb_refl in Ha. cbn in Ha.
    rewrite orb_false_r in Ha. by apply String.eqb_eq.
  - intros s p r H1%cat2_in. apply (all_of (fun x : (string * string) * ObjSql => (0 <=? ob_idx x.2) && (0 <=? ob_offset x.2) && (0 <? ob_len x.2) && (ob_offset x.2 + ob_len x.2 <=? u64_max))) in H1;
      [|vm_compute; reflexivity]. cbn in H1. rewrite !andb_true_iff, !Z.leb_le, Z.ltb_lt in H1. tauto.
  - intros s s' p r r' H1%cat2_in H2%cat2_in Hne. specialize (Ha _ _ H1 H2). unfold apart in Ha. cbn [fst snd] in Ha. rewrite String.eqb_refl in Ha.
    destruct (String.eqb_spec s s'); [done|]. cbn in Ha. apply andb_true_iff in Ha as [_ Ha]. rewrite orb_true_iff, !Z.leb_le in Ha. done.
Qed.
Lemma named s p r : cat2 s p = Some r -> s <> "".
Proof.
  intros H%cat2_in. apply (all_of (fun x : (string * string) * ObjSql => negb (String.eqb x.1.1 ""))) in H; [|vm_compute; reflexivity].
  cbn [fst] in H. destruct (String.eqb_spec s ""); [done|done].
Qed.
Lemma fits2 : fits cat2 d2.
Proof. intros s p r E. exact E. Qed.
Lemma clone_eq : clone = (d2, Ok (Some cloned)).
Proof. vm_compute. reflexivity. Qed.
(** Every entry lies in its pack. *)
Lemma inside2 ents : Forall (listed d2) ents -> Forall (inside (obj object2 "repo")) ents.
Proof.
  intros H. eapply Forall_impl; [exact H|]. intros e (r & Hr & (_ & _ & E1 & E2 & _)%row_loc_eq). unfold inside. rewrite E1, E2.
  apply cat2_in in Hr. apply (all_of (fun x : (string * string) * ObjSql => ob_offset x.2 + ob_len x.2 <=? Z.of_nat (length (obj object2 "repo" x.1.2)))) in Hr; [|vm_compute; reflexivity].
  apply Z.leb_le in Hr. exact Hr.
Qed.
(** The hash of the pack is found. *)
Definition whole : list Z := Eval vm_compute in pack_head cloned ++ concat (map (read_bytes (obj object2 "repo") (ss_packs cloned)) (ss_reads cloned)).
#[export] Instance gix2 : GixPack := toy_gix [whole].
Definition stream : FetchStream := new_stream cloned Sha1 "P".
End CloneDemo.
Import FetchDemo CloneDemo.

(** Eleven rows, nine objects: the copy in the first pack by the scan's order wins. *)
Lemma clone_sends_all_witness : count cloned = 9 /\ exists ents, sends d2 (map fst ents) cloned ents /\ NoDup (map fst ents)
  /\ (forall sha, sha ∈ map fst ents <-> live_sha d2 sha)
  /\ (max_subrequests (budget 50) < u32_max -> used (budget 50) + Z.of_nat (length (ss_reads cloned)) <= max_subrequests (budget 50)).
Proof.
  split; [vm_compute; reflexivity|]. exact (clone_sends_all cat2 catalog2 named (budget 50) d2 d2 cloned fits2 clone_eq).
Defined.
Definition run : nat * list string := fetch_frames nat charge1 "repo" (stream_fuel stream) stream 50%nat.
#[global] Strategy expand [run clone].
(** The prelude, the header, two reads and the trailer: the pack is whole. *)
Lemma fetch_stream_exact_witness : map String.length run.2 = [1; 17; 45; 9; 29]%nat /\ exists ents x, Forall (listed d2) ents
  /\ concat_str run.2 = "P" +:+ x
  /\ let pack := bytes_of "PACK" ++ be_bytes 4 2 ++ be_bytes 4 (Z.of_nat (length ents) mod 2 ^ 32) ++ concat (map (entry_bytes (obj object2 "repo")) ents) in
     (exists t, finalize Sha1 pack = Some t /\ carries (text_of (pack ++ t)) [Flush] x)
     \/ (exists sent e, fault nat charge1 "repo" cloned Sha1 pack e /\ sent `prefix_of` pack
         /\ carries (text_of sent) [Data (String (chr 3) ("ERR " +:+ client_message e))] x).
Proof.
  split; [vm_compute; reflexivity|]. destruct (clone_planned cat2 catalog2 named (budget 50) d2 d2 cloned fits2 clone_eq) as (ents & Hs & _).
  assert (Z.of_nat (length (ss_reads cloned)) + 1 < u32_max) as Hn by (vm_compute; reflexivity).
  destruct (fetch_stream_exact object2 nat charge1 "repo" d2 (map fst ents) cloned ents Sha1 "P" 50%nat Hs (inside2 ents (sn_listed _ _ _ _ Hs)) Hn) as (x & Ex & Hx).
  exists ents, x. split; [exact (sn_listed _ _ _ _ Hs)|]. split; [exact Ex|exact Hx].
Defined.
(** The repository of [FetchDemo] has one pack: its body comes in two chunks. *)
Definition chunked : list (result Error (list Z)) := [Ok (take 20 pack); Ok (drop 20 pack)].
#[local] Instance bucket : R2Get := {| get_body := fun key => Ok (if String.eqb key (key_pack "repo" "pk") then Some (Some chunked) else None) |}.
#[local] Instance signer : Hmac := demo_hmac.
#[local] Instance signer_law : HmacLaw := demo_hmac_law.
Definition clone_args (uris : option (list string)) : FetchArgs := mkFetch [oid 1] [] [] true false false false false None None [] false [] None uris Sha1.
Definition clone_body : string := Eval vm_compute in (write_request "fetch" "git/2.44" Sha1 (fetch_lines (clone_args None)) "").1.
Definition at_start : Fs nat := mkFs nat (on_meta (insert "repo_id" "repo") d0) 50%nat set_default mem_default.
Definition served_clone : Fs nat * result Error (option Resp) :=
  fetch_v2_inner nat charge1 budget others 5000 fuel clone_body (mkHeaders None None) None at_start.
Definition charge0 (n : nat) : nat * result Error unit := (n, Ok tt).
Definition resp_of (r : result Error (option Resp)) : Resp := match r with Ok (Some x) => x | _ => mkResp (Whole "") None end.
Definition verbatim : VerbatimStream := match rp_body (resp_of served_clone.2) with Stored st => st | _ => mkVerbatim [] None true end.
#[global] Strategy expand [served_clone].
(** A clone of it is answered with the pack: the bytes of R2 arrive whole. *)
Lemma stored_clone_exact_witness : exists x y, concat_str (verbatim_frames nat charge0 (verbatim_fuel verbatim) verbatim 0%nat).2 = x +:+ y
  /\ carries (text_of pack) [Flush] y.
Proof.
  assert (served_clone = (served_clone.1, Ok (Some (resp_of served_clone.2)))) as E.
  { assert (match served_clone.2 with Ok (Some _) => true | _ => false end = true) as H by (vm_compute; reflexivity).
    destruct served_clone as [s1 [[r|]|e]]; [reflexivity|discriminate H..]. }
  assert (rp_body (resp_of served_clone.2) = Stored verbatim) as Hb.
  { assert (match rp_body (resp_of served_clone.2) with Stored _ => true | _ => false end = true) as H by (vm_compute; reflexivity).
    unfold verbatim. destruct (rp_body (resp_of served_clone.2)); [discriminate H|discriminate H|reflexivity|discriminate H]. }
  destruct (stored_clone_exact nat charge1 charge0 budget others 5000 fuel clone_body (mkHeaders None None) None at_start served_clone.1 (resp_of served_clone.2) verbatim 0%nat E Hb)
    as (args & repo & wanted & pk & chunks & p & b & _ & _ & Hr & _ & Hl & _ & _ & Hg & _ & x & Ex & Hx).
  assert (repo = "repo") as -> by (vm_compute in Hr; injection Hr as <-; reflexivity).
  assert (pk = "pk") as -> by (vm_compute in Hl; injection Hl as <-; reflexivity). injection Hg as <-.
  exists p, x. split; [exact Ex|]. destruct Hx as [[_ Hx]|(sent & e & [(w & w' & Hw)|He] & _)]; [|discriminate Hw|].
  - unfold chunked, body_bytes in Hx. cbn [map chunk_bytes concat] in Hx. rewrite app_nil_r, take_drop in Hx. exact Hx.
  - apply list_elem_of_In in He. destruct He as [He|[He|[]]]; discriminate He.
Defined.

(** With a signing key it is answered with an address: minted at 4 s, the pack dies at
    5 s, its rows go, and the janitor takes it up an hour later. *)
Module UriDemo.
Definition keyed : Platform := LfsDemo.env None.
#[local] Existing Instance keyed.
#[local] Instance gix3 : GixPack := toy_gix [bytes_of "PACK" ++ be_bytes 4 2 ++ be_bytes 4 0].
Definition answered : Fs nat * result Error (option Resp) :=
  @pack_uri_response keyed demo_packetline signer gix3 FetchDemo.r2 nat charge1 budget others 4000 (clone_args (Some ["https"])) "pk" 52
    (mkHeaders (Some "o") (Some "r")) (Some "https://h") "repo" [] [] at_start.
Definition dead : Db := kill_packs (fun _ _ => true) 5000 (fs_db nat at_start).
Definition gone : Db := on_objects (fun _ => ∅) dead.
Lemma is_later : later "pk" 4000 (fs_db nat at_start) 3605001 gone.
Proof.
  apply (later_span _ _ _ 5000 dead); [|lia|by apply span_packs]. apply (later_span _ _ _ 4000 (fs_db nat at_start)); [constructor|lia|apply kill_packs_span].
Qed.
End UriDemo.
#[global] Strategy expand [UriDemo.answered].
Lemma signed_pack_outlasts_witness : exists exp sig,
  @opened UriDemo.keyed signer 3004000 "pk" "repo" exp sig = Ok (key_pack "repo" "pk")
  /\ @opened UriDemo.keyed signer 3605001 "pk" "repo" exp sig = Err Forbidden.
Proof.
  assert (UriDemo.answered = (UriDemo.answered.1, Ok (Some (resp_of UriDemo.answered.2)))) as E.
  { assert (match UriDemo.answered.2 with Ok (Some _) => true | _ => false end = true) as H by (vm_compute; reflexivity).
    destruct UriDemo.answered as [s1 [[r|]|e]]; [reflexivity|discriminate H..]. }
  destruct (@signed_pack_outlasts UriDemo.keyed demo_packetline signer signer_law UriDemo.gix3 FetchDemo.r2 nat charge1 budget others 4000 (clone_args (Some ["https"])) [oid 1] "pk" 52
    (mkHeaders (Some "o") (Some "r")) (Some "https://h") "repo" [] [] at_start UriDemo.answered.1 (resp_of UriDemo.answered.2)) as (b & ow & rp & tr & exp & sig & out & e & _ & _ & H1 & H2).
  - lia.
  - vm_compute. reflexivity.
  - vm_compute. reflexivity.
  - vm_compute. reflexivity.
  - exact E.
  - exists exp, sig. split; [apply H1; vm_compute; discriminate|]. apply (H2 3605001 UriDemo.gone); [exact UriDemo.is_later| |lia].
    apply (bool_decide_eq_true_1 ("pk" ∈ dead_packs 3605001 UriDemo.gone)). vm_compute. reflexivity.
Defined.
