(* ===== verification/EdgePush.v ===== *)
(** * A push, from the request to the report

    [receive_pack] and its helpers of [server/src/edge/mod.rs]: the header is read, the
    push begun in the repository object, the owner's slot claimed, the pack ingested,
    the commands committed, and the outcome reported; when something fails after the
    push was begun, the edge asks for it to be closed. *)
From S2P Require Import Prelude Errors Text Db Scope Jobs Cohort GcBase Compact Refs Push PushFacts Admin Wire Receive Sha Writer Reads Mark Ingest.
From S2P Require Import IngestFacts Intake Normalize Ingested.
Open Scope Z_scope.

(** The reasons a client is told. *)
Definition LEAKED : list string :=
  ["funny refname"; "deletion of the current branch prohibited"; "missing necessary objects"; "gc ran during push, retry"; "ref is pinned";
   "ref outside token scope"; "token no longer valid"; "protected ref: deletion refused"; "protected ref: non-fast-forward";
   "protected ref: cannot prove fast-forward"].
Definition leak_reason (m : string) : string := if existsb (String.eqb m) LEAKED then m else "failed to update ref".
Definition ref_result (r : string * option string) : RefResult :=
  match r.2 with None => RrOk r.1 | Some m => RrNg r.1 (leak_reason m) end.

Section Report.
Context `{Packetline}.
Definition unpack_failed (hdr : ReceiveHeader) : list RefResult := map (fun c => RrNg (rc_name c) "unpack failed") (hd_commands hdr).
Definition report_status_200 (hdr : ReceiveHeader) (unpack : result string unit) (results : list RefResult) : result Error string :=
  let caps := hd_caps hdr in
  if negb (cp_report_status caps) && negb (cp_report_status_v2 caps) then Ok ""
  else
    let results := match results, unpack with [], Err _ => unpack_failed hdr | _, _ => results end in
    match write_report_status unpack results caps "" with
    | (out, Ok _) => Ok out
    | (_, Err e) => Err e
    end.
End Report.

Section Receive.
Context `{PF : Platform} `{PL : Packetline} `{PC : PackCodec} `{MP : Multipart} `{RR : R2} `{GP : GixPack} `{GO : GitObjects}.
Context (B : Type) {SB : Stub B} (charge1 : B -> B * result Error unit) (now : B -> Z) (others : B -> Db -> B * Db).
Context (new_upload : B -> string -> result Error Mpu) (fresh fresh_push : B -> result Error string) (hex : B -> string)
  (iter : gmap string ObjLoc -> list (string * ObjLoc)).
(** The owner's registry is another object. *)
Context (claim : B -> B * result Error unit).
Abbreviation W := (Db * B)%type.
Abbreviation RM := (M (RunSt B) Error).
Definition owner_slot : RM unit :=
  if env_i64 "GE_QUOTA_MAX_REPOS_PER_OWNER" 50 <=? 0 then mret tt
  else
    r_world B (edge_charge B charge1) ≫= fun _ =>
    r_world B (fun w => let r := claim w.2 in let bd := others r.1 w.1 in ((bd.2, bd.1), r.2)).
Definition begin_push (push principal rate_key : string) (admin : bool) (kind : HashKind) (hdr : RepoHeaders) : RM BeginResp := fun s =>
  let id := hex (rs_w B s).2 in
  let dto := mkBegin push principal rate_key (Some (Push.kind_name kind)) admin in
  r_world B (stub_json B charge1 now others (fun t => m ← boot t id hdr; push_begin t m dto)) s.
(** Best effort: an error of it is dropped. *)
Definition close_push (push : string) : RM unit := fun s =>
  ((r_world B (stub_json B charge1 now others (fun _ => push_abort (Some push))) s).1, Ok tt).
(** [m], and the push closed when it fails. *)
Definition or_close {A} (push : string) (m : RM A) : RM A := fun s =>
  match m s with
  | (s', Ok a) => (s', Ok a)
  | (s', Err e) => ((close_push push s').1, Err e)
  end.
Definition commit_of (push principal : string) (hdr : ReceiveHeader) (r : option (string * gmap string string * list Z)) : CommitRequest :=
  let tags := match r with Some x => x.1.2 | None => ∅ end in
  mkCommit push (match r with Some x => Some x.1.1 | None => None end) principal
    (map (fun c => mkCmdDto (rc_old c) (rc_new c) (rc_name c) (tags !! rc_new c)) (hd_commands hdr)) (cp_atomic (hd_caps hdr)).
(** [None]: the fuel ended. *)
Definition receive_inner (fuel : nat) (hdr : ReceiveHeader) (route : RepoHeaders) (principal rate_key : string) (admin : bool) : RM (option string) :=
  let kind := cp_object_format (hd_caps hdr) in
  s ← gets (fun s => s);
  push ← lift (fresh_push (rs_w B s).2);
  b ← begin_push push principal rate_key admin kind route;
  (if br_claimed b then mret tt else or_close push owner_slot) ≫= fun _ =>
  r ← or_close push (run_push B charge1 now others new_upload fresh iter (br_repo_id b) push kind fuel);
  match r with
  | None => mret None
  | Some p =>
      rs ← or_close push (r_world B (stub_json B charge1 now others (fun t => commit_push t (commit_of push principal hdr p))));
      out ← lift (report_status_200 hdr (Ok tt) (map ref_result rs));
      mret (Some out)
  end.
Definition MAX_DRAIN : Z := Z.shiftl 2 30.
(** The rest of the upload is read and dropped, up to the bound, the end or an error. *)
Fixpoint drain_chunks (stream : list (result Error string)) (total : Z) : list (result Error string) * Z :=
  match stream with
  | Ok chunk :: rest => if total <? MAX_DRAIN then drain_chunks rest (sat_addu64 total (str_len chunk)) else (stream, total)
  | Err _ :: rest => if total <? MAX_DRAIN then (rest, total) else (stream, total)
  | [] => ([], total)
  end.
Definition drain (b : BodyReader) : BodyReader :=
  if bd_eof b then mkBody (bd_stream b) "" true (bd_total b)
  else let r := drain_chunks (bd_stream b) (bd_total b) in mkBody r.1 "" false r.2.
Definition drained {A} (r : result Error A) : RM A := fun s => (mkRun B (drain (rs_body B s)) (rs_w B s), r).
Definition is_shed (e : Error) : bool := match e with RateLimit _ | Busy _ => true | _ => false end.
(** [receive_pack] once the client is known. *)
Definition receive_pack (fuel : nat) (route : RepoHeaders) (principal rate_key : string) (admin : bool) : RM (option string) := fun s =>
  match receive_header (rs_body B s) with
  | None => (s, Ok None)
  | Some (body, Err e) => drained (Err e) (mkRun B body (rs_w B s))
  | Some (body, Ok (hdr, leftover)) =>
      let s1 := mkRun B (unread leftover body) (rs_w B s) in
      match hd_commands hdr with
      | [] => (s1, Ok (Some (wr_flush "").1))
      | _ =>
          match receive_inner fuel hdr route principal rate_key admin s1 with
          | (s2, Ok r) => (s2, Ok r)
          | (s2, Err e) => if is_shed e then (s2, Err e)
                           else drained (match report_status_200 hdr (Err (client_message e)) [] with Ok o => Ok (Some o) | Err x => Err x end) s2
          end
      end
  end.
End Receive.

(** ** Every push that was begun is closed *)

Section Closed.
Context {PF : Platform} (hooks_off : hooks_enabled = false).
Lemma enqueue_db_pushes k t p d : t_pushes (enqueue_db k t p d) = t_pushes d.
Proof. unfold enqueue_db. by destruct (existsb _ _). Qed.
Lemma repair_kind_pushes t k d : t_pushes (repair_kind t k d) = t_pushes d.
Proof.
  unfold repair_kind. destruct (0 <? _); [|done]. cbv zeta. destruct (3 <=? _); [by destruct (last_dead_error k d)|].
  cbn [t_pushes on_meta]. rewrite enqueue_db_pushes. by destruct (last_dead_error k d).
Qed.
Lemma repair_pushes t d : t_pushes (repair t d) = t_pushes d.
Proof.
  unfold repair. cbn [fold_left]. rewrite !repair_kind_pushes. set (d1 := update_jobs _ kill_stranded d). set (d2 := update_jobs _ (requeue_stranded t) d1).
  destruct (_ =? 0); [|done]. by rewrite enqueue_db_pushes.
Qed.
Lemma boot_pushes t id hdr : rel_ok pushes_eq (boot t id hdr).
Proof.
  assert (forall k n p, rel_ok pushes_eq (enqueue k n p)) as He by (intros; apply quiet_pushes; auto with git_edge).
  assert (forall (kvs : list (string * string)) d, t_pushes (fold_left (fun d kv => meta_insert_ignore kv.1 kv.2 d) kvs d) = t_pushes d) as Hf.
  { intros kvs. induction kvs as [|kv kvs IH]; intros d; [done|]. cbn [fold_left]. rewrite IH. unfold meta_insert_ignore. by case_match. }
  unfold boot, meta_opt, boot_deleted. apply rel_ok_bind; [apply _|apply rel_ok_gets, _|intros rid]. apply rel_ok_bind; [apply _| |intros m].
  - destruct rid; [apply rel_ok_pure, _|]. unfold create_meta. repeat case_match; rel_tac. intros d. apply Hf.
  - apply rel_ok_bind; [apply _| |intros u; rel_tac]. destruct (m_deleted m); [|intros d; apply repair_pushes]. rel_tac; by intros d.
Qed.
Definition shut (push : string) (d : Db) : Prop := push ∉ open_ids d.
Lemma pushes_shut push d d' : pushes_eq d d' -> shut push d -> shut push d'.
Proof. unfold shut. intros E%pushes_shrinks Hs Hin. by apply Hs, E. Qed.
(** A begin that fails opened nothing. *)
Lemma open_push_err t epoch b d d' e : open_push t epoch b d = (d', Err e) -> d' = d.
Proof.
  unfold open_push, gets, lift, mbind, M_bind. destruct (_ <=? _); [by intros [= <- _]|]. destruct (push_scope _ _ _); [done|by intros [= <- _]].
Qed.
Lemma begin_err t m b d d' e push : push_begin t m b d = (d', Err e) -> shut push d -> shut push d'.
Proof.
  unfold push_begin. intros [[=]|(ex & d1 & [= <- <-] & E)]%bind_err Hs.
  assert (forall A (mm : DoM A) d0 r, rel_ok pushes_eq mm -> mm d0 = r -> shut push d0 -> shut push r.1) as Hk.
  { intros A mm d0 r Hm <-. apply pushes_shut, Hm. }
  assert (rel_ok pushes_eq (if is_some (t_pushes d !! bg_push b) then mret tt else admit_pack)) as R1 by (case_match; [apply rel_ok_ret, _|apply admit_pushes]).
  apply bind_err in E as [E|(u & d2 & E1 & E)]; [exact (Hk _ _ _ _ R1 E Hs)|]. apply Hk in E1; [|exact R1|exact Hs]. cbn [fst] in E1.
  apply bind_err in E as [E|(u' & d3 & E2 & E)]; [exact (Hk _ _ _ _ (rate_check_pushes _ _) E E1)|]. apply Hk in E2; [|apply rate_check_pushes|exact E1]. cbn [fst] in E2.
  apply bind_err in E as [E|(k & d4 & E4 & E)]; [injection E as <- _; exact E2|]. injection E4 as <- _.
  assert (rel_ok pushes_eq (match k with Some k => pin_obj_format k | None => mret tt end)) as R3 by (destruct k; [apply pin_pushes|apply rel_ok_ret, _]).
  apply bind_err in E as [E|(u'' & d5 & E3 & E)]; [exact (Hk _ _ _ _ R3 E E2)|]. apply Hk in E3; [|exact R3|exact E2]. cbn [fst] in E3.
  apply bind_err in E as [E|(u3 & d6 & _ & E)]; [|apply bind_err in E as [[=]|(c & d7 & [= _ _] & [=])]].
  destruct (t_pushes d !! bg_push b) as [ex|]; [|apply open_push_err in E as ->; exact E3].
  destruct (bool_decide _); [destruct (_ && _)|]; [discriminate E|injection E as <- _; exact E3..].
Qed.
Lemma abort_shuts push d : shut push (push_abort (Some push) d).1.
Proof.
  unfold shut. cbn. rewrite open_ids_elem. cbn [t_pushes on_pushes]. intros (p & Hp & Ho). rewrite lookup_alter_eq in Hp.
  destruct (t_pushes d !! push) as [p0|]; [|done]. injection Hp as <-. destruct (bool_decide (ps_state p0 = POpen)) eqn:E; [done|]. by bsimp.
Qed.
Lemma commit_shuts t req d d' rs : commit_push t req d = (d', Ok rs) -> shut (cr_push req) d'.
Proof.
  intros (p & st & d1 & Hp & _ & -> & Hd1 & Hst)%commit_closes; [|done]. unfold shut. rewrite open_ids_elem. intros (p' & Hp' & Ho).
  assert (t_pushes d1 !! cr_push req = Some p) as Hp1 by (by rewrite Hd1). rewrite (close_pushes _ _ _ _ _ _ Hp1) in Hp'. injection Hp' as <-. cbn in Ho. destruct Hst; congruence.
Qed.
End Closed.

(** ** What a run of the ingest keeps, and that it ends *)

Section RunWorld.
Context `{PF : Platform} `{PC : PackCodec} `{MP : Multipart} `{RR : R2} `{GP : GixPack} `{GO : GitObjects}.
Context {B : Type} {SB : Stub B} (charge1 : B -> B * result Error unit) (now : B -> Z) (others : B -> Db -> B * Db).
Context (new_upload : B -> string -> result Error Mpu) (fresh : B -> result Error string) (iter : gmap string ObjLoc -> list (string * ObjLoc)).
Context (repo push : string) (kind : HashKind).
Abbreviation W := (Db * B)%type.
Section Inv.
(** Kept by a charge and by any round trip. *)
Context (I : W -> Prop) (IC : forall d b, I (d, b) -> I (d, (charge1 b).1)).
Context (IS : forall A (h : Z -> DoM A) w, I w -> I (stub_json B charge1 now others h w).1).
Definition keeps_run (s s' : RunSt B) : Prop := I (rs_w B s) -> I (rs_w B s').
#[local] Instance keeps_run_preorder : PreOrder keeps_run.
Proof. split; [intros s Hs; exact Hs|intros a b c H1 H2 Ha; exact (H2 (H1 Ha))]. Qed.
Lemma edge_charge_inv w : I w -> I (edge_charge B charge1 w).1.
Proof. destruct w. apply IC. Qed.
Lemma r_world_inv {A} (m : M W Error A) : (forall w, I w -> I (m w).1) -> rel_ok keeps_run (r_world B m).
Proof. intros Hm s Hs. by apply Hm. Qed.
Lemma lookup_inv ids pk w : I w -> I (lookup B charge1 now others ids pk w).1.
Proof.
  intros Hw. unfold lookup, mbind, M_bind. pose proof (IS _ (fun _ => push_lookup ids pk) w Hw) as H1.
  destruct (stub_json _ _ _ _ _ w) as [w1 [locs|e]]; [|done]. by destruct (negb _).
Qed.
Lemma find_bases_inv cs found w : I w -> I (find_bases B charge1 now others cs found w).1.
Proof.
  revert found w. induction cs as [|c cs IH]; intros found w Hw; [done|]. cbn [find_bases]. unfold mbind, M_bind.
  pose proof (lookup_inv c None w Hw) as H1. destruct (lookup _ _ _ _ c None w) as [w1 [r|e]]; [by apply IH|done].
Qed.
Lemma check_links_inv pack cs w : I w -> I (check_links B charge1 now others pack cs w).1.
Proof.
  revert w. induction cs as [|c cs IH]; intros w Hw; [done|]. cbn [check_links]. unfold mbind, M_bind.
  pose proof (lookup_inv c (Some pack) w Hw) as H1. destruct (lookup _ _ _ _ c (Some pack) w) as [w1 [r|e]]; [|done]. destruct (List.find _ _); [done|by apply IH].
Qed.
Lemma create_out_inv pack n w : I w -> I (create_out B charge1 now new_upload repo kind pack n w).1.
Proof.
  destruct w as [d b]. intros Hw. unfold create_out, create_writer. cbn [fst snd]. destruct (pack_name _); [|done]. apply IC in Hw. cbn [snd].
  by destruct (charge1 b) as [b1 [u|e]].
Qed.
Lemma finish_out_inv out w : I w -> I (finish_out B charge1 out w).1.
Proof. intros Hw. unfold finish_out. by apply (finish_world (edge_charge B charge1) I edge_charge_inv (out, w)). Qed.
Lemma do_resolve_inv pack toc exts out : rel_ok keeps_run (do_resolve B charge1 now others iter repo push kind pack toc exts out).
Proof.
  intros s Hs. unfold do_resolve. cbn [fst rs_w].
  apply (normalize_w (edge_charge B charge1) (post_to B charge1 now others push pack) I edge_charge_inv (fun m rows => IS _ _) repo toc exts kind iter). exact Hs.
Qed.
Lemma do_stream_inv fuel : rel_ok keeps_run (do_stream B charge1 new_upload repo push kind fuel).
Proof.
  intros [body [d b]] Hs. unfold do_stream. cbn [rs_body rs_w fst snd].
  pose proof (stream_to_pending_world charge1 kind (fun b => I (d, b)) (IC d) fuel (new_upload b (key_pending repo push)) body b Hs) as H1.
  by destruct (stream_to_pending _ _ _ _ _ _ _) as [[body' b'] r].
Qed.
Lemma run_push_inv fuel : rel_ok keeps_run (run_push B charge1 now others new_upload fresh iter repo push kind fuel).
Proof.
  assert (forall n, rel_ok keeps_run (r_fill B n)) as Hf by (by intros n s Hs).
  assert (forall A (h : Z -> DoM A), rel_ok keeps_run (r_world B (stub_json B charge1 now others h))) as Hst by (intros A h; apply r_world_inv, IS).
  unfold run_push, empty_pack, publish, bytes_buffered, post_to.
  rel_tac; first [apply do_stream_inv|apply do_resolve_inv|apply r_world_inv; first [apply find_bases_inv|apply check_links_inv|apply create_out_inv|apply finish_out_inv]].
Qed.
End Inv.
(** Pass B settles every entry or names a missing base. *)
Lemma normalize_ends charge post_index toc exts st :
  (resolve_and_normalize W charge post_index repo toc exts kind iter st).2 <> Ok None.
Proof.
  destruct (resolve_and_normalize _ _ _ _ _ _ _ _ st) as [s2 r] eqn:E. cbn [snd]. intros ->. unfold resolve_and_normalize in E.
  apply bind_ok in E as ([] & s1 & _ & E). apply bind_ok in E as ([waiting|] & s3 & H2 & E); [by destruct (map_to_list waiting) as [|[]]|].
  eapply (resolve_loop_fuel repo toc exts kind charge post_index (loop_fuel toc) (needs_ids toc) (seq 0 (length toc)) ∅ s1 (length toc)); [| |by rewrite H2];
    rewrite length_seq; unfold waiters, loop_fuel; rewrite map_to_list_empty; cbn; lia.
Qed.
Context `{ML : !MultipartLaws} `{GL : !GixLaws}.
Lemma publish_ends toc s : (publish B charge1 now others new_upload fresh iter repo push kind toc s).2 <> Ok None.
Proof.
  destruct (publish _ _ _ _ _ _ _ _ _ _ toc s) as [s' r] eqn:E. cbn [snd]. intros ->. unfold publish in E.
  apply bind_ok in E as (ex & s1 & _ & E). apply bind_ok in E as (sx & s2 & _ & E). apply bind_ok in E as (pack & s3 & _ & E).
  apply bind_ok in E as (u & s4 & _ & E). apply bind_ok in E as (out & s5 & _ & E). apply bind_ok in E as ([st|] & s6 & H & E).
  - apply bind_ok in E as (m & s7 & _ & E). apply bind_ok in E as (u1 & s8 & _ & E). by apply bind_ok in E as (u2 & s9 & _ & E).
  - unfold do_resolve in H. pose proof (normalize_ends (edge_charge B charge1) (post_to B charge1 now others push pack) toc ex
      (mkBst _ (cx0 _ toc kind (key_pending repo push) (rs_w B s5)) out [] ∅ [])) as Hn.
    cbv zeta in H. destruct (resolve_and_normalize _ _ _ _ _ _ _ _ _).2 as [[x|]|e] in H, Hn; try discriminate H. by apply Hn.
Qed.
(** With the fuel its body's size gives, the ingest ends. *)
Lemma run_push_ends fuel s : eof_ok (rs_body B s) -> (body_fuel (rs_body B s) <= fuel)%nat ->
  (run_push B charge1 now others new_upload fresh iter repo push kind fuel s).2 <> Ok None.
Proof.
  intros He Hf. destruct (run_push _ _ _ _ _ _ _ _ _ _ fuel s) as [s' r] eqn:E. cbn [snd]. intros ->. unfold run_push in E.
  apply bind_ok in E as (ok & s1 & H1 & E). unfold r_fill in H1. destruct (fill 12 (rs_body B s)) as [body1 f1] eqn:Ef.
  injection H1 as <- ->. apply fill_pending in Ef as (Ep & He1 & _); [|done]. apply bind_ok in E as (buf & s2 & H2 & E). injection H2 as <- _.
  destruct (negb ok); [by destruct (_ =? _)%nat|]. apply bind_ok in E as (h & s3 & H3 & E). destruct (unpack_of _); [injection H3 as <- _|done].
  destruct (h.2 =? 0); [by apply bind_ok in E as (u & s4 & _ & E)|]. apply bind_ok in E as ([toc|] & s4 & H4 & E).
  - by apply (publish_ends toc s4); rewrite E.
  - unfold do_stream in H4. cbn [rs_body rs_w fst snd] in H4. destruct (stream_to_pending _ _ _ _ _ _ _) as [[body' b'] [[x|]|e]] eqn:Es; [done| |done].
    apply (stream_to_pending_run charge1 kind) in Es as (? & ? & ? & ? & _); [done|done|]. unfold body_fuel in *. by rewrite Ep.
Qed.
End RunWorld.

Section Edge.
Context `{PF : Platform} `{PL : Packetline} `{PC : PackCodec} `{MP : Multipart} `{RR : R2} `{GP : GixPack} `{GO : GitObjects}.
Context (B : Type) {SB : Stub B} (charge1 : B -> B * result Error unit) (now : B -> Z) (others : B -> Db -> B * Db).
(** The request made at [w] does not reach the repository object: its charge is refused
    (the budget or its deadline is spent), or it is lost on the way. *)
Definition unsent (w : Db * B) : Prop :=
  (exists b e, charge1 w.2 = (b, Err e)) \/ (exists b u e, charge1 w.2 = (b, Ok u) /\ trip (others b w.1).1 = Unsent e).
(** It is served, and its answer is lost. *)
Definition lost_answer (w : Db * B) : Prop := exists b u e, charge1 w.2 = (b, Ok u) /\ trip (others b w.1).1 = Unread e.
Context (push : string).
Abbreviation sdb s := ((rs_w B s).1).
Abbreviation closing := (close_push B charge1 now others push).
Lemma close_push_shuts s : shut push (sdb (closing s).1) \/ unsent (rs_w B s).
Proof.
  unfold close_push, r_world, stub_json, edge_charge, unsent. cbn [fst snd rs_w]. destruct (charge1 (rs_w B s).2) as [b [u|e]] eqn:Ec; cbn [fst snd]; [|right; left; by eauto].
  destruct (trip (others b (rs_w B s).1).1) eqn:Et; [left| |left].
  - apply abort_shuts.
  - right. right. by exists b, u, e.
  - apply abort_shuts.
Qed.
Lemma or_close_shuts {A} (m : M (RunSt B) Error A) s s' e : or_close B charge1 now others push m s = (s', Err e) ->
  shut push (sdb s') \/ exists s0, s' = (closing s0).1 /\ unsent (rs_w B s0).
Proof.
  unfold or_close. destruct (m s) as [s1 [a|e1]]; [done|]. intros [= <- _]. destruct (close_push_shuts s1); [by left|right; by exists s1].
Qed.
Context (hooks_off : hooks_enabled = false) (OS : forall w d, shut push d -> shut push (others w d).2).
Lemma begin_push_err hex principal key admin kind hdr s s' e :
  begin_push B charge1 now others hex push principal key admin kind hdr s = (s', Err e) -> shut push (sdb s) -> shut push (sdb s') \/ lost_answer (rs_w B s).
Proof.
  unfold begin_push, r_world, stub_json, edge_charge, lost_answer. cbn [fst snd rs_w]. destruct (charge1 (rs_w B s).2) as [b [u|e1]] eqn:Ec; cbn [fst snd].
  2:{ intros [= <- _] Hs. by left. }
  pose proof (OS b (rs_w B s).1) as Ho. destruct (others b (rs_w B s).1) as [b1 d1] eqn:Eo. cbn [fst snd] in *. set (id := hex _). set (dto := mkBegin _ _ _ _ _).
  destruct (trip b1) as [|e1|e1] eqn:Et; cbn [fst snd]; [|intros [= <- _] Hs; left; by apply Ho|intros _ _; right; exists b, u, e1; by rewrite Eo].
  intros E Hs. left. specialize (Ho Hs). destruct ((boot (now b1) id hdr ≫= fun m => push_begin (now b1) m dto) d1) as [d2 [r|e2]] eqn:Eb; [discriminate E|].
  injection E as <- _. cbn [fst snd rs_w]. pose proof (boot_pushes (now b1) id hdr d1) as Hb. apply bind_err in Eb as [Eb|(m & d3 & E1 & E2)].
  - rewrite Eb in Hb. by apply (pushes_shut _ d1).
  - rewrite E1 in Hb. apply (begin_err _ _ _ _ _ _ _ E2). by apply (pushes_shut _ d1).
Qed.
Lemma or_commit_shuts req s s' rs : cr_push req = push ->
  or_close B charge1 now others push (r_world B (stub_json B charge1 now others (fun t => commit_push t req))) s = (s', Ok rs) -> shut push (sdb s').
Proof.
  intros <-. unfold or_close, r_world, stub_json, edge_charge. cbn [fst snd rs_w]. destruct (charge1 (rs_w B s).2) as [b [u|e]]; cbn [fst snd]; [|done].
  destruct (others b (rs_w B s).1) as [b1 d1]. cbn [fst snd]. destruct (trip b1); [|done..].
  destruct (commit_push (now b1) req d1) as [d2 [r|e]] eqn:Ec; [|done]. intros [= <- _]. cbn [rs_w fst]. by eapply commit_shuts.
Qed.
Context (new_upload : B -> string -> result Error Mpu) (fresh : B -> result Error string) (iter : gmap string ObjLoc -> list (string * ObjLoc)).
Context (claim : B -> B * result Error unit) `{ML : !MultipartLaws} `{GL : !GixLaws}.
(** What comes before the ingest does not touch the body. *)
Lemma slot_body (c : bool) s s' u :
  (if c then mret tt else or_close B charge1 now others push (owner_slot B charge1 others claim)) s = (s', Ok u) -> rs_body B s' = rs_body B s.
Proof.
  destruct c; [by intros [= <- _]|]. unfold or_close. destruct (owner_slot _ _ _ _ s) as [s1 [a|e]] eqn:E; [|done]. intros [= <- _]. unfold owner_slot in E.
  destruct (_ <=? 0); [by injection E as <- _|]. apply bind_ok in E as (u1 & s2 & H1 & H2). injection H1 as <- _. by injection H2 as <- _.
Qed.
Lemma run_or_close_ends repo kind fuel s s' : eof_ok (rs_body B s) -> (body_fuel (rs_body B s) <= fuel)%nat ->
  or_close B charge1 now others push (run_push B charge1 now others new_upload fresh iter repo push kind fuel) s <> (s', Ok None).
Proof.
  intros He Hf. unfold or_close. pose proof (run_push_ends charge1 now others new_upload fresh iter repo push kind fuel s He Hf) as Hn.
  destruct (run_push _ _ _ _ _ _ _ _ _ _ fuel s) as [s1 [p|e]]; [|done]. intros [= _ ->]. by apply Hn.
Qed.
End Edge.


Section Spent.
Context `{PF : Platform} `{PL : Packetline} `{PC : PackCodec} `{MP : Multipart} `{RR : R2} `{GP : GixPack} `{GO : GitObjects}.
Context (B : Type) {SB : Stub B} (charge1 : B -> B * result Error unit) (now : B -> Z) (others : B -> Db -> B * Db).
Context (push : string) (spent : B -> Prop) (SP : forall b, spent b -> exists b' e, charge1 b = (b', Err e) /\ spent b').
(** Nothing can be charged, and the push is open. *)
Definition stuck (w : Db * B) : Prop := spent w.2 /\ push ∈ open_ids w.1.
Lemma stuck_charge d b : stuck (d, b) -> stuck (d, (charge1 b).1).
Proof. intros [(b' & e & E & H1)%SP H2]. cbn [snd] in E. rewrite E. by split. Qed.
Lemma stub_stuck {A} (h : Z -> DoM A) w : stuck w -> exists w' e, stub_json B charge1 now others h w = (w', Err e) /\ stuck w'.
Proof. intros [(b' & e & E & H1)%SP H2]. unfold stub_json, edge_charge. rewrite E. cbn [fst snd]. by exists (w.1, b'), e. Qed.
Lemma close_stuck s : stuck (rs_w B s) -> stuck (rs_w B (close_push B charge1 now others push s).1).
Proof. intros (w' & e & E & H)%(stub_stuck (fun _ => push_abort (Some push))). unfold close_push, r_world. by rewrite E. Qed.
Lemma or_close_stuck {A} (m : M (RunSt B) Error A) s : stuck (rs_w B (m s).1) -> stuck (rs_w B (or_close B charge1 now others push m s).1).
Proof. unfold or_close. destruct (m s) as [s1 [a|e]]; [done|]. apply close_stuck. Qed.
Lemma slot_stuck claim s : stuck (rs_w B s) -> stuck (rs_w B (owner_slot B charge1 others claim s).1).
Proof.
  intros Hs. unfold owner_slot. destruct (_ <=? 0); [done|]. destruct Hs as [(b' & e & E & H1)%SP H2].
  unfold mbind, M_bind, r_world at 1, edge_charge. rewrite E. by split.
Qed.
Context (new_upload : B -> string -> result Error Mpu) (fresh : B -> result Error string) (iter : gmap string ObjLoc -> list (string * ObjLoc)).
Lemma run_stuck repo kind fuel s : stuck (rs_w B s) ->
  stuck (rs_w B (run_push B charge1 now others new_upload fresh iter repo push kind fuel s).1)
  /\ ((run_push B charge1 now others new_upload fresh iter repo push kind fuel s).2 <> Ok None).
Proof.
  intros Hs. split.
  - apply (run_push_inv charge1 now others new_upload fresh iter repo push kind stuck stuck_charge); [|exact Hs].
    intros A h w (w' & e & -> & H)%(stub_stuck h). exact H.
  - destruct (run_push _ _ _ _ _ _ _ _ _ _ fuel s) as [s' r] eqn:E. cbn [snd]. intros ->. unfold run_push in E.
    apply bind_ok in E as (ok & s1 & H1 & E). injection H1 as <- _. apply bind_ok in E as (buf & s2 & H2 & E). injection H2 as <- _.
    destruct (negb ok); [by destruct (_ =? _)%nat|]. apply bind_ok in E as (h & s3 & H3 & E). destruct (unpack_of _); [injection H3 as <- _|done].
    destruct (h.2 =? 0); [by apply bind_ok in E as (u & s4 & _ & E)|]. apply bind_ok in E as (toc & s4 & H4 & _).
    destruct Hs as [(b' & e & Ec & _)%SP _]. unfold do_stream, stream_to_pending, raw_create in H4. cbn [rs_w] in H4. by rewrite Ec in H4.
Qed.
End Spent.

(** C38: a push whose budget is spent stays open.  The comment says that a failure after
    the begin must close the push row at once, as rows left for the janitor to expire
    let 64 failures refuse all pushes.  But the request that closes it is charged to
    the same budget.  For every condition of the request that refuses each charge and
    lasts ([spent]: the budget at zero, the deadline past): when it holds once the push
    is begun, the request always answers an error and the row is open when the client
    has it; and so it is when the ingest fails and it holds by then. *)
Theorem exhausted_push_stays_open `{PF : Platform} `{PL : Packetline} `{PC : PackCodec} `{MP : Multipart} `{RR : R2} `{GP : GixPack} `{GO : GitObjects}
    (B : Type) {SB : Stub B} (charge1 : B -> B * result Error unit) (now : B -> Z) (others : B -> Db -> B * Db) (new_upload : B -> string -> result Error Mpu)
    (fresh fresh_push : B -> result Error string) (hex : B -> string) (iter : gmap string ObjLoc -> list (string * ObjLoc)) (claim : B -> B * result Error unit)
    (fuel : nat) (hdr : ReceiveHeader) (route : RepoHeaders) (principal rate_key push : string) (admin : bool)
    (spent : B -> Prop) (s s1 s' : RunSt B) (b : BeginResp) (r : result Error (option string)) :
  (forall b, spent b -> exists b' e, charge1 b = (b', Err e) /\ spent b') ->
  fresh_push (rs_w B s).2 = Ok push ->
  begin_push B charge1 now others hex push principal rate_key admin (cp_object_format (hd_caps hdr)) route s = (s1, Ok b) ->
  push ∈ open_ids (rs_w B s1).1 ->
  receive_inner B charge1 now others new_upload fresh fresh_push hex iter claim fuel hdr route principal rate_key admin s = (s', r) ->
  (spent (rs_w B s1).2 -> (exists e, r = Err e) /\ push ∈ open_ids (rs_w B s').1)
  /\ (forall s2 s3 u e,
       (if br_claimed b then mret tt else or_close B charge1 now others push (owner_slot B charge1 others claim)) s1 = (s2, Ok u) ->
       run_push B charge1 now others new_upload fresh iter (br_repo_id b) push (cp_object_format (hd_caps hdr)) fuel s2 = (s3, Err e) ->
       spent (rs_w B s3).2 -> push ∈ open_ids (rs_w B s3).1 -> r = Err e /\ push ∈ open_ids (rs_w B s').1).
Proof.
  intros SP Hf E1 Ho E. unfold receive_inner in E. unfold mbind at 1, M_bind at 1, gets in E. unfold mbind at 1, M_bind at 1, lift at 1 in E. rewrite Hf in E.
  unfold mbind at 1, M_bind at 1 in E. rewrite E1 in E. unfold mbind at 1, M_bind at 1 in E. split.
  - intros Hsp. assert (stuck B push spent (rs_w B s1)) as H1 by done. clear E1 Ho Hsp.
    match type of E with context [(if br_claimed b then ?x else ?y) s1] => destruct ((if br_claimed b then x else y) s1) as [s2 q] eqn:E2 end. assert (stuck B push spent (rs_w B s2)) as H2.
    { destruct (br_claimed b); [by injection E2 as <- _|]. change s2 with (s2, q).1. rewrite <- E2. by apply or_close_stuck, slot_stuck. }
    destruct q as [u|e]; [|injection E as <- <-; split; [by eexists|apply H2]]. unfold mbind at 1, M_bind at 1 in E.
    destruct (run_stuck B charge1 now others push spent SP new_upload fresh iter (br_repo_id b) (cp_object_format (hd_caps hdr)) fuel s2 H2) as [H3 Hn].
    apply (or_close_stuck B charge1 now others push spent SP) in H3. unfold or_close at 1 in E. unfold or_close in H3.
    destruct (run_push _ _ _ _ _ _ _ _ _ _ fuel s2) as [s3 [[p|]|e]]; [|by destruct Hn|injection E as <- <-; split; [by eexists|apply H3]].
    unfold mbind at 1, M_bind at 1, or_close, r_world at 1 in E. cbn [fst] in H3.
    destruct (stub_stuck B charge1 now others push spent SP (fun t => commit_push t (commit_of push principal hdr p)) _ H3) as (w' & e & Ec & H4). rewrite Ec in E.
    injection E as <- <-. split; [by eexists|]. by apply (close_stuck B charge1 now others push spent SP (mkRun B (rs_body B s3) w')).
  - intros s2 s3 u e E2 E3 Hsp Ho3. rewrite E2 in E. unfold mbind at 1, M_bind at 1, or_close in E. rewrite E3 in E. injection E as <- <-.
    split; [done|]. by apply (close_stuck B charge1 now others push spent SP s3).
Qed.
