(* ===== verification/EdgeDemo.v ===== *)
(** * A deletion pushed

    Pushes on a repository that has just been created, one without a pack and one whose
    body is no pack: they close their row when the budget lasts, and leave it open when
    it does not. *)
From S2P Require Import Prelude Errors Text Db Scope Jobs Cohort GcBase Compact Refs Push PushFacts Admin Wire WireFacts Receive Answers Sha Writer Reads Mark.
From S2P Require Import Ingest IngestFacts Intake IngestDemo EdgePush.
Open Scope Z_scope.

Module EdgeDemo.
#[export] Existing Instance demo_platform.
#[export] Existing Instance demo_packetline.
#[export] Existing Instance PackDemo.gix.
#[export] Existing Instance PackDemo.git.
#[export] Existing Instance PackDemo.r2.
(** The world is the budget. *)
Definition charge1 (n : nat) : nat * result Error unit := match n with O => (n, Err Budget) | S m => (m, Ok tt) end.
Definition others (n : nat) (d : Db) : nat * Db := (n, d).
Definition caps : ReceiveCaps := mkCaps true false false true false false false None Sha1.
Definition hdr : ReceiveHeader := mkHeader [mkRefCommand PushDemo.A "0000000000000000000000000000000000000000" "refs/heads/old"] caps [].
#[export] Instance stub : Stub nat := fun _ => Answered.
(** A push that deletes a branch sends no pack; [junk] is not one. *)
Definition junk : list (result Error string) := [Ok "PA"; Ok "CK"].
Definition start (body : list (result Error string)) (n : nat) : RunSt nat := mkRun nat (body_of body) (AdminDemo.booted, n).
Definition run (body : list (result Error string)) (n : nat) : RunSt nat * result Error (option string) :=
  receive_inner nat charge1 (fun _ => 2000) others (fun _ _ => Ok (∅ : gmap Z (list Z))) (fun _ => Ok "pk") (fun _ => Ok "p1") (fun _ => "id1") map_to_list
    (fun n => (n, Ok tt)) 5000 hdr AdminDemo.hdr "me" "key" true (start body n).
Definition state (body : list (result Error string)) (n : nat) : option PushState := ps_state <$> t_pushes (rs_w nat (run body n).1).1 !! "p1".
Definition begun (n : nat) : RunSt nat * result Error BeginResp :=
  begin_push nat charge1 (fun _ => 2000) others (fun _ => "id1") "p1" "me" "key" true (cp_object_format (hd_caps hdr)) AdminDemo.hdr (start [] n).
End EdgeDemo.
Import EdgeDemo.


(** A budget of one request: it is spent on the begin. *)
Lemma exhausted_push_stays_open_witness : (run [] 1).2 = Err Budget /\ state [] 1 = Some POpen
  /\ ((exists e, (run [] 1).2 = Err e) /\ "p1" ∈ open_ids (rs_w nat (run [] 1).1).1).
Proof.
  split; [vm_compute; reflexivity|]. split; [vm_compute; reflexivity|].
  assert (exists b, (begun 1).2 = Ok b) as [b Eb] by (eexists; vm_compute; reflexivity).
  refine (proj1 (exhausted_push_stays_open nat charge1 (fun _ => 2000) others (fun _ _ => Ok (∅ : gmap Z (list Z))) (fun _ => Ok "pk") (fun _ => Ok "p1") (fun _ => "id1") map_to_list
    (fun n => (n, Ok tt)) 5000 hdr AdminDemo.hdr "me" "key" "p1" true (fun n => n = 0%nat) (start [] 1) (begun 1).1 (run [] 1).1 b (run [] 1).2 _ _ _ _ _) _).
  - intros n ->. exists 0%nat, Budget. split; reflexivity.
  - reflexivity.
  - rewrite <- Eb. unfold begun. apply surjective_pairing.
  - apply (bool_decide_eq_true_1 ("p1" ∈ open_ids (rs_w nat (begun 1).1).1)). vm_compute. reflexivity.
  - unfold run. apply surjective_pairing.
  - vm_compute. reflexivity.
Defined.
